(* ===== verification/_CoqProject ===== *)
-Q . S2P
Prelude.v
Text.v
Floats.v
Ip.v
BTree.v
JsonValue.v
Thrift.v
Smbios.v
SmbiosSnapshot.v
Command.v
ModuleLoop.v
PolicyLock.v
Jobs.v
Fs.v
Processes.v
Interfaces.v
Identity.v
Transport.v
Tls.v
Queue.v
QueueSpec.v
QueueLife.v
Scheduler.v
JobRecord.v
Worker.v
Osquery.v
OsquerySocket.v
Queries.v
Sql.v
Answers.v
InventoryJob.v
Sockets.v
Services.v
Packages.v
DiskUsage.v
TimeSync.v
MountTable.v
NetworkFacts.v
SnmpConfig.v
GnmiConfig.v
LibvirtConfig.v
Routes.v
BmcConfig.v
ExportersConfig.v
Config.v
Client.v
Home.v
Delivery.v
Payload.v
LinuxHost.v
MacosHost.v
Batching.v
SwitchReport.v
PowerCollector.v
Hwmon.v
Exposition.v
ExporterMapping.v
Modules.v
Daemon.v
Checkins.v
Main.v
Notices.v
NoticeShared.v
Exporters.v
SnmpWalk.v
SnmpWire.v
SnmpMibs.v
SnmpPoll.v
PduMibs.v
GnmiTree.v
GnmiSwitch.v
GnmiWire.v
XmlDepth.v
Libvirt.v
LibvirtRun.v
Redfish.v
BmcWire.v
ModuleRuns.v
ModuleWire.v
Secrets.v
