(* ===== verification/Prelude.v ===== *)
(** * Renga's host agent, verified

    Renga's agent (src/agent) is a daemon that runs on a host.  It keeps an identity and
    a signing key, finds the deployment that answers for its organization, checks in,
    observes the host and the devices it is told to poll, keeps what it has to say in
    on-disk queues until the server took it, and runs a fixed set of jobs the server
    leases to it.  This library models that program in Rocq, file by file, and proves
    what makes its parts correct.  Everything is executable; what the repository does not
    contain (crates, the operating system, the network, other processes) is a parameter.

    ** How the model reads

    A Rust function is a Rocq function of the same name.  [Result] is [result], a method
    on [&mut self] that can fail is a computation in [ST S E A] (the state after a failure
    is kept), and one that cannot is in [Run S A]; both are in this file.  Bytes and
    strings are lists of [Z] ([bytes]); machine integers are [Z], with their ranges,
    saturation and wrap-around written out where they are used.  [BTreeMap]s are sorted
    association lists (BTree.v), [HashMap]s are [gmap]s.  The outside world is either an
    argument with an arbitrary answer to every call, or a class with the laws the code
    relies on: [Uuid], [Json], [UrlApi] and [UrlHost] (Interfaces.v), [Ed25519] and
    [Base64] (Identity.v), [RecordCodec], [HomeCodec], [ManifestCodec], [SerdeJson],
    [JsonText], [WireText], [Roxmltree], and the worlds [WorkerEnv], [Net], [DaemonEnv],
    [MainEnv], [OsqueryApi], [UnixSocket], [Device], [Hypervisor], [Service], [Programs],
    [Probes], [Snmp2], [Grpc] and [BmcNet].  [TimePasses] says of a world that its clock
    does not go back and sleeps last as long as asked, [StopStays] that it stays stopped,
    [Prompt] that a socket keeps its timeouts, [Checked] and [Opens] what snmp2
    authenticates and opens.  Where one component is another's outside, an instance closes
    the gap: [SnmpWire.wire_device] is a [Device], [BmcWire.bmc_service] a [Service],
    [LibvirtRun.virsh_hypervisor] a [Hypervisor].  Interfaces.v and the witnesses give
    small instances, so no law is empty.

    ** The parts, and where they are

    Shared: Prelude.v (this file); Text.v (the parts of [str], [u8] and number parsing in
    use); Floats.v (binary64); Ip.v ([std::net] addresses); BTree.v; JsonValue.v
    ([serde_json::Value]); Interfaces.v; Command.v (command.rs, child processes);
    Fs.v (the file-system calls durable state rests on, with failures and crashes) and
    Processes.v (several processes interleaving such calls over one directory).

    Durable state.  Queue.v is queue.rs; QueueSpec.v is its abstract bounded queue and what
    each call does to it, QueueLife.v the refinement over any calls and restarts.  Identity.v is identity.rs and installation_key.rs; JobRecord.v is
    jobs/record.rs; Home.v is home.rs.

    Talking to the server.  Transport.v and Client.v are transport.rs: classification of
    failures, retries, every post and its deadlines; Tls.v the settings of the HTTP
    clients.  Delivery.v is the delivery half of main.rs; Notices.v is notices.rs, the socket
    that announces jobs, and NoticeShared.v what its threads share (the notice flag and the
    resolver); Payload.v is payload.rs, every document sent.

    Jobs.  Jobs.v is jobs/mod.rs, Worker.v jobs/worker.rs and PolicyLock.v the lock in it
    on the policy generation; InventoryJob.v jobs/inventory_collect.rs; Queries.v and Answers.v are jobs/queries/mod.rs, and
    Sql.v, Sockets.v, Services.v, Routes.v, Packages.v, DiskUsage.v and TimeSync.v the
    queries beside it; Osquery.v, OsquerySocket.v and Thrift.v the osquery client, its
    socket and its protocol.

    Configuration.  Config.v with SnmpConfig.v, GnmiConfig.v, LibvirtConfig.v,
    BmcConfig.v and ExportersConfig.v is config.rs and the modules' own checks.

    The host.  LinuxHost.v is collectors/linux.rs and system_facts.rs, MacosHost.v
    collectors/macos.rs; they rest on NetworkFacts.v (network_facts.rs), MountTable.v
    (filesystem_facts.rs), Smbios.v (smbios/table.rs) and SmbiosSnapshot.v
    (smbios/snapshot.rs).  Hwmon.v reads the host's power sensors.

    Devices.  Exposition.v, ExporterMapping.v and Exporters.v are the Prometheus
    exporters; SnmpWalk.v, SnmpWire.v, SnmpMibs.v and SnmpPoll.v SNMP switches; PduMibs.v
    PDUs; GnmiTree.v, GnmiSwitch.v and GnmiWire.v OpenConfig switches; XmlDepth.v,
    Libvirt.v and LibvirtRun.v hypervisors; Redfish.v and BmcWire.v BMCs.  Batching.v,
    SwitchReport.v and PowerCollector.v turn what was polled into reports and telemetry
    of the size the server takes; ModuleLoop.v is the loop each module's thread runs,
    ModuleRuns.v the five threads, and ModuleWire.v what those of SNMP, PDUs and gNMI poll:
    the polls above on the sessions above, many at once.

    The daemon.  Scheduler.v is scheduler.rs and cancellation.rs, Modules.v the life of
    the collector modules, Daemon.v the loop of main.rs: start-up, every job, reloads,
    relocation and shutdown.  Main.v is the program around it: the subcommands, the dry
    run, the search for the home and the single run; Checkins.v is an outside that keeps a
    record of the configurations, homes and check-ins that pass through it.  Secrets.v is what [Debug] prints of the
    types that hold secrets, and logging.rs.

    ** What is proved

    Durability: a queue entry is never seen in part, a queue used and reopened in any order
    behaves as a bounded list, the job record on disk is the one in memory, and processes that start
    together agree on one identity and one key, whatever calls fail and wherever the
    machine stops (QueueSpec, QueueLife, JobRecord, Identity, Home).

    Honest delivery: what is called delivered was accepted; retries end within their
    budget and keep the deadlines the server set (Delivery, Transport, Client).

    Jobs: a capability runs at most once, only when the operator's policy allows it and
    its start is on disk and acknowledged; a redelivered job is not run again; handling
    ends (Worker).  A reload comes before or after what a job pass starts, never in between
    (PolicyLock).  [query.sql] gives osquery one reading statement and nothing else (Sql).

    Robust readers: Thrift messages, SMBIOS tables, exposition text, SNMP walks, XML and
    gNMI trees are read exactly, within their bounds, and reading ends whatever the peer
    sends.

    Honest reports: a switch, PDU, server or virtual machine is reported only as it
    answered, in a form the server takes, and a report claims to be complete only if it is
    (SnmpMibs, GnmiSwitch, PduMibs, Redfish, Libvirt, SwitchReport, PowerCollector).  A
    target or reading is left out only when it alone is too large to send.

    The host as it is: a collection ends with a report as soon as the host has a name, and
    what identifies the host in it is confirmed by the kernel; network facts are reported
    only when two adjacent readings agree; an SMBIOS snapshot is published whole or not at
    all, wherever the machine stops; a program that was run is gone when it is done
    (LinuxHost, MacosHost, NetworkFacts, SmbiosSnapshot, Command).

    Queries: each native query answers with what procfs, the package databases, the routing
    tables or the mounts hold, and says when its list is cut; a mount that hangs costs one
    thread, once (Sockets, Services, Routes, Packages, DiskUsage, TimeSync, MountTable).

    Connections: requests and credentials go to the configured target only, over the
    transport it is configured with, redirects are not followed, a session trusts only what
    its own protocol authenticated and only that is reported, and osquery cannot hold a
    caller past its deadline (GnmiWire, BmcWire, SnmpWire, ModuleWire, LibvirtRun, Client,
    Tls, Exporters, OsquerySocket).  A resolver that hangs costs one thread, once
    (NoticeShared).

    Secrets: what is printed of a value is exactly its public part, and the request that
    carries the credential is never logged (Secrets).

    The daemon: before a home is known nothing is sent that carries a credential, and every
    check-in on record, of a single run or of a daemon, goes through a client built for a
    configuration and home in effect at that moment (Checkins, Main); at every turn client,
    socket, job pass and modules belong to the configuration in effect, modules of another
    have been told to stop (Modules, Daemon), and a home that said the organization moved is
    never saved (Daemon); its threads keep their pace and stop when told to (Notices,
    Modules, ModuleRuns).

    ** Loops and fuel

    Structural recursion is used where the code walks a list.  Other loops take a number
    of turns, and running out is a result of its own that the theorems exclude:
    [SnmpWalk.ROUNDS] is one more than the variables a poll may read, so that [read] never
    runs out ([reading_ends]); [XmlDepth.depth_from], [Batching.halve], [Exposition.labels],
    [JobRecord.evict_excess] and [Thrift.read_value] are given the length of their input or
    the depth limit, which is enough for every input; [Worker.supervise] ends within a
    number of turns fixed by the timeout ([handle_returns]); [Command.turns],
    [DiskUsage.waits] and [ModuleLoop.slices] are the polls that fit a wait, and enough when
    sleeps last as long as asked ([running_ends], [probing_ends],
    [collector_modules_keep_pace]); the loop of [LinuxHost.reserve_status] removes a supply a
    turn ([power_supplies_fit]); [MacosHost.load_filesystem_stats] ends once the mounts settle
    ([mount_list_is_whole]); [Notices.run] returns within a bound on the calls once it is told
    to stop ([listener_stops]); a search for the home ends at once for a single run, and each
    pause of a daemon's within [Main.enough_polls] ([home_search_ends]).  [Daemon.main_loop],
    [Main.resolve_home] of a daemon and [Delivery.lock_from] wait for the outside and end only when it says so; what is proved
    of them holds at every turn.

    ** Not modelled

    TLS, HTTP, HTTP/2, gRPC, protobuf, JSON text, XML and TOML (rustls, reqwest, tonic,
    prost, serde_json, roxmltree, toml), SNMP packets (snmp2), what the sysinfo, getifs and
    procfs crates read of the system, printing and writing log lines, and parsing the command
    line (clap): these are parameters or left out.  The threads of the notice listener's
    resolver, of the policy lock and of [each] are interleaved at their shared operations;
    elsewhere a thread is a computation of its own over an outside that may answer anything.  A host's files are taken to stay as they are for the time of one
    collection.  The server (Elixir, under lib/) is another program; where a bound it
    enforces is relied on, it is quoted where it is used. *)

From Stdlib Require Export ZArith Lia.
From Stdlib Require Import Ascii String.
From stdpp Require Export base tactics list gmap option numbers.
From stdpp Require Import strings.

Open Scope Z_scope.

(** ** Results and the state-and-error monad

    Rust's [Result] and a method taking [&mut self] that returns one.  The
    state after a failure is kept: a Rust method that returns [Err] has
    already made the changes it made before failing. *)

Inductive result (A E : Type) : Type :=
| Ok (a : A)
| Err (e : E).
Arguments Ok {A E} a.
Arguments Err {A E} e.

#[export] Instance result_eq_dec {A E} `{EqDecision A, EqDecision E} :
  EqDecision (result A E).
Proof. solve_decision. Defined.

Definition result_bind {A B E} (r : result A E) (k : A -> result B E) : result B E :=
  match r with
  | Ok a => k a
  | Err e => Err e
  end.

Definition map_err {A E F} (f : E -> F) (r : result A E) : result A F :=
  match r with
  | Ok a => Ok a
  | Err e => Err (f e)
  end.

Definition ok {A E} (r : result A E) : option A :=
  match r with
  | Ok a => Some a
  | Err _ => None
  end.

Definition is_ok {A E} (r : result A E) : bool :=
  match r with Ok _ => true | Err _ => false end.

Definition ok_or {A E} (o : option A) (e : E) : result A E :=
  match o with Some a => Ok a | None => Err e end.

(** [iter().map(f).collect::<Result<Vec<_>, _>>()]: the first error wins. *)
Fixpoint result_map {A B E} (f : A -> result B E) (l : list A) : result (list B) E :=
  match l with
  | [] => Ok []
  | a :: l' => result_bind (f a) (fun b => result_bind (result_map f l') (fun bs => Ok (b :: bs)))
  end.

Definition ST (S E A : Type) : Type := S -> S * result A E.

Definition st_ret {S E A} (a : A) : ST S E A := fun s => (s, Ok a).
Definition st_err {S E A} (e : E) : ST S E A := fun s => (s, Err e).
Definition st_bind {S E A B} (m : ST S E A) (k : A -> ST S E B) : ST S E B :=
  fun s => match m s with
           | (s', Ok a) => k a s'
           | (s', Err e) => (s', Err e)
           end.
Definition st_get {S E} : ST S E S := fun s => (s, Ok s).
Definition st_put {S E} (s' : S) : ST S E unit := fun _ => (s', Ok tt).
Definition st_modify {S E} (f : S -> S) : ST S E unit := fun s => (f s, Ok tt).
(** Runs [m] and hands its outcome over as a value: Rust's [match f() { ... }]. *)
Definition st_catch {S E A} (m : ST S E A) : ST S E (result A E) :=
  fun s => let '(s', r) := m s in (s', Ok r).
Definition st_of_result {S E A} (r : result A E) : ST S E A := fun s => (s, r).

(** Code that cannot fail, as a function of the state. *)
Definition Run (S A : Type) : Type := S -> S * A.
Definition run_ret {S A} (a : A) : Run S A := fun s => (s, a).
Definition run_bind {S A B} (m : Run S A) (k : A -> Run S B) : Run S B :=
  fun s => let '(s', a) := m s in k a s'.

Declare Scope agent_scope.
Delimit Scope agent_scope with agent.
Notation "'let*' x := m 'in' k" := (st_bind m (fun x => k))
  (at level 10, x pattern, m at level 100, k at level 200)
  : agent_scope.
Notation "'let?' x := m 'in' k" := (result_bind m (fun x => k))
  (at level 10, x pattern, m at level 100, k at level 200)
  : agent_scope.
Notation "'let+' x := m 'in' k" := (mbind (fun x => k) m)
  (at level 10, x pattern, m at level 100, k at level 200)
  : agent_scope.
Notation "'let!' x := m 'in' k" := (run_bind m (fun x => k))
  (at level 10, x pattern, m at level 100, k at level 200)
  : agent_scope.
Open Scope agent_scope.


(** ** Running the monad *)

Lemma st_bind_ok {S E A B} (m : ST S E A) (k : A -> ST S E B) s s' a :
  m s = (s', Ok a) -> st_bind m k s = k a s'.
Proof. intros H. unfold st_bind. by rewrite H. Qed.

Lemma st_bind_inv {S E A B} (m : ST S E A) (k : A -> ST S E B) s s2 b :
  st_bind m k s = (s2, Ok b) -> exists s1 a, m s = (s1, Ok a) /\ k a s1 = (s2, Ok b).
Proof. unfold st_bind. destruct (m s) as [s1 [a|e]]; [eauto|done]. Qed.

Lemma st_bind_err {S E A B} (m : ST S E A) (k : A -> ST S E B) s s2 e :
  st_bind m k s = (s2, Err e) ->
  m s = (s2, Err e) \/ exists s1 a, m s = (s1, Ok a) /\ k a s1 = (s2, Err e).
Proof. unfold st_bind. destruct (m s) as [s1 [a|e']]; [eauto|]. intros [= -> ->]. auto. Qed.

Lemma result_bind_ok {A B E} (m : result A E) (k : A -> result B E) b :
  result_bind m k = Ok b -> exists a, m = Ok a /\ k a = Ok b.
Proof. destruct m as [a|e]; [|done]. simpl. eauto. Qed.

Lemma result_map_ok {A B E} (f : A -> result B E) (g : A -> B) l :
  Forall (fun a => f a = Ok (g a)) l -> result_map f l = Ok (map g l).
Proof. induction 1 as [|a l Ha Hl IH]; simpl; [done|]. by rewrite Ha, IH. Qed.

(** ** Machine integers

    A [w]-bit unsigned integer is a [Z] in [0, 2^w); a signed one is its
    two's-complement reading. *)

Definition wrap (w z : Z) : Z := z mod 2 ^ w.
Definition swrap (w z : Z) : Z :=
  let u := z mod 2 ^ w in if u <? 2 ^ (w - 1) then u else u - 2 ^ w.
Definition in_u (w z : Z) : bool := (0 <=? z) && (z <? 2 ^ w).
Definition in_s (w z : Z) : bool := (- 2 ^ (w - 1) <=? z) && (z <? 2 ^ (w - 1)).

Definition U64_MAX : Z := 2 ^ 64 - 1.
Definition U32_MAX : Z := 2 ^ 32 - 1.
(** [usize] on the 64-bit targets the agent ships for. *)
Definition USIZE_MAX : Z := 2 ^ 64 - 1.

Lemma in_u_spec w z : in_u w z = true <-> 0 <= z < 2 ^ w.
Proof. unfold in_u. rewrite andb_true_iff, Z.leb_le, Z.ltb_lt. tauto. Qed.

Lemma in_s_spec w z : in_s w z = true <-> - 2 ^ (w - 1) <= z < 2 ^ (w - 1).
Proof. unfold in_s. rewrite andb_true_iff, Z.leb_le, Z.ltb_lt. tauto. Qed.

Lemma swrap_id w z : 0 < w -> in_s w z = true -> swrap w z = z.
Proof.
  intros Hw Hz%in_s_spec. unfold swrap.
  replace w with (w - 1 + 1) in * by lia.
  rewrite Z.pow_add_r in * by lia. change (2 ^ 1) with 2 in *.
  replace (w - 1 + 1 - 1) with (w - 1) in * by lia.
  assert (0 < 2 ^ (w - 1)) by (apply Z.pow_pos_nonneg; lia).
  set (h := 2 ^ (w - 1)) in *. clearbody h.
  destruct (Z.leb_spec 0 z).
  - rewrite Z.mod_small by lia. destruct (Z.ltb_spec z h); lia.
  - rewrite <- (Z.mod_unique z (h * 2) (-1) (z + h * 2)) by lia.
    destruct (Z.ltb_spec (z + h * 2) h); lia.
Qed.

(** ** Bytes, big-endian *)

Abbreviation bytes := (list Z) (only parsing).

Definition is_byte (b : Z) : bool := in_u 8 b.
Definition is_bytes (l : bytes) : Prop := Forall (fun b => is_byte b = true) l.

(** The [n] low bytes of [z], most significant first: [to_be_bytes]. *)
Fixpoint be_bytes (n : nat) (z : Z) : bytes :=
  match n with
  | O => []
  | S n' => be_bytes n' (z / 256) ++ [z mod 256]
  end.

(** [from_be_bytes], unsigned. *)
Definition be_value (l : bytes) : Z := fold_left (fun acc b => acc * 256 + b) l 0.

(** [from_le_bytes], unsigned. *)
Fixpoint le_value (l : bytes) : Z :=
  match l with
  | [] => 0
  | b :: l' => b + 256 * le_value l'
  end.

Lemma be_value_snoc l b : be_value (l ++ [b]) = be_value l * 256 + b.
Proof. unfold be_value. by rewrite fold_left_app. Qed.

Lemma length_be_bytes n z : length (be_bytes n z) = n.
Proof. revert z; induction n as [|n IH]; intros z; [done|]. cbn [be_bytes]. rewrite length_app, IH; simpl; lia. Qed.

Lemma is_bytes_be_bytes n z : is_bytes (be_bytes n z).
Proof.
  revert z; induction n as [|n IH]; intros z; cbn [be_bytes]; [constructor|].
  apply Forall_app; split; [apply IH|]. constructor; [|constructor].
  apply in_u_spec. change (2 ^ 8) with 256. apply Z.mod_pos_bound. lia.
Qed.

Lemma be_value_be_bytes n z : be_value (be_bytes n z) = z mod 256 ^ Z.of_nat n.
Proof.
  revert z; induction n as [|n IH]; intros z.
  - simpl. by rewrite Z.mod_1_r.
  - cbn [be_bytes]. rewrite be_value_snoc, IH, Nat2Z.inj_succ, Z.pow_succ_r by lia.
    rewrite (Z.rem_mul_r z 256 (256 ^ Z.of_nat n)); [lia|lia|].
    apply Z.pow_pos_nonneg; lia.
Qed.

Lemma be_bytes_be_value l : is_bytes l -> be_bytes (length l) (be_value l) = l.
Proof.
  induction l as [|b l IH] using rev_ind; intros Hl; [done|].
  apply Forall_app in Hl as [Hl Hb]. apply Forall_inv in Hb.
  apply in_u_spec in Hb. change (2 ^ 8) with 256 in Hb.
  rewrite length_app, Nat.add_1_r. cbn [be_bytes]. rewrite be_value_snoc.
  rewrite Z.div_add_l, Z.div_small, Z.add_0_r, IH by (auto with lia).
  rewrite Z.add_comm, Z.mod_add, Z.mod_small by lia. done.
Qed.

Lemma be_value_nonneg l : is_bytes l -> 0 <= be_value l < 256 ^ Z.of_nat (length l).
Proof.
  intros Hl. rewrite <- (be_bytes_be_value l Hl) at 1 2.
  rewrite be_value_be_bytes. apply Z.mod_pos_bound, Z.pow_pos_nonneg; lia.
Qed.

(** ** Time

    Instants, wall-clock times and durations are counted in nanoseconds.
    [Duration] is a [u64] of seconds and a [u32] of nanoseconds below 10^9;
    its saturating operations stop at [DURATION_MAX].  An [Instant] on unix is
    an [i64] of seconds and the same nanoseconds, which is what
    [checked_add] checks. *)

Definition NANOS : Z := 1000000000.
Definition from_secs (s : Z) : Z := s * NANOS.
Definition from_millis (ms : Z) : Z := ms * 1000000.
Definition as_secs (d : Z) : Z := d / NANOS.
Definition as_millis (d : Z) : Z := d / 1000000.
Definition DURATION_MAX : Z := U64_MAX * NANOS + (NANOS - 1).
Definition INSTANT_MAX : Z := (2 ^ 63 - 1) * NANOS + (NANOS - 1).
Definition dur_saturating_add (a b : Z) : Z := Z.min DURATION_MAX (a + b).
(** [saturating_duration_since] of two instants, and [duration_since(..)
    .unwrap_or_default()] of two system times: zero when time went backwards. *)
Definition since (later earlier : Z) : Z := Z.max 0 (later - earlier).
Definition checked_add_instant (i d : Z) : option Z :=
  if i + d <=? INSTANT_MAX then Some (i + d) else None.

(** ** Lists *)

(** [iter().position(p)]. *)
Fixpoint position {A} (p : A -> bool) (l : list A) : option nat :=
  match l with
  | [] => None
  | x :: l' => if p x then Some O else S <$> position p l'
  end.

(** [Vec::remove] at an index. *)
Definition vec_remove {A} (i : nat) (l : list A) : list A := take i l ++ drop (S i) l.

(** [iter().find(p)]. *)
Fixpoint find_by {A} (p : A -> bool) (l : list A) : option A :=
  match l with
  | [] => None
  | x :: l' => if p x then Some x else find_by p l'
  end.

Definition zsum (l : list Z) : Z := fold_right Z.add 0 l.
Definition zlength {A} (l : list A) : Z := Z.of_nat (length l).
Fixpoint last_opt {A} (l : list A) : option A :=
  match l with
  | [] => None
  | [x] => Some x
  | _ :: l' => last_opt l'
  end.

Lemma position_Some {A} (p : A -> bool) l i :
  position p l = Some i ->
  exists x, l !! i = Some x /\ p x = true /\
            Forall (fun y => p y = false) (take i l).
Proof.
  revert i; induction l as [|y l IH]; intros i; simpl; [done|].
  destruct (p y) eqn:Hy.
  - intros [= <-]. by exists y.
  - destruct (position p l) as [j|] eqn:Hj; simpl; [|done]. intros [= <-].
    destruct (IH j eq_refl) as (x & ? & ? & ?). exists x. simpl. auto.
Qed.

Lemma position_None {A} (p : A -> bool) l :
  position p l = None <-> Forall (fun y => p y = false) l.
Proof.
  induction l as [|y l IH]; simpl; [by split|].
  rewrite Forall_cons, <- IH. destruct (p y) eqn:Hy; [intuition congruence|].
  destruct (position p l) eqn:Hj; simpl; intuition congruence.
Qed.

Lemma vec_remove_split {A} i (l : list A) x :
  l !! i = Some x -> l = take i l ++ x :: drop (S i) l.
Proof. intros H. by rewrite (take_drop_middle l i x H). Qed.

Lemma length_vec_remove {A} i (l : list A) :
  (i < length l)%nat -> length (vec_remove i l) = (length l - 1)%nat.
Proof.
  intros H. unfold vec_remove. rewrite length_app, length_take, length_drop. lia.
Qed.

Lemma find_by_Some {A} (p : A -> bool) l x :
  find_by p l = Some x -> x ∈ l /\ p x = true.
Proof.
  induction l as [|y l IH]; simpl; [done|].
  destruct (p y) eqn:Hy; [intros [= ->]; split; [left|done]|].
  intros H; apply IH in H as [? ?]. split; [by right|done].
Qed.

Lemma find_by_None {A} (p : A -> bool) l :
  find_by p l = None <-> Forall (fun y => p y = false) l.
Proof.
  induction l as [|y l IH]; simpl; [by split|].
  rewrite Forall_cons, <- IH. destruct (p y) eqn:Hy; intuition congruence.
Qed.

Lemma zsum_app l k : zsum (l ++ k) = zsum l + zsum k.
Proof. unfold zsum. induction l as [|x l IH]; simpl; lia. Qed.

Lemma last_opt_snoc {A} (l : list A) x : last_opt (l ++ [x]) = Some x.
Proof. induction l as [|y [|z l] IH]; simpl in *; auto. Qed.

Lemma last_opt_elem {A} (l : list A) x : last_opt l = Some x -> x ∈ l.
Proof.
  induction l as [|y [|z l] IH]; simpl; [done|intros [= ->]; left|].
  intros H. right. by apply IH.
Qed.

Lemma last_opt_None {A} (l : list A) : last_opt l = None -> l = [].
Proof. induction l as [|y [|z l] IH]; simpl; [done..|]. intros H. by specialize (IH H). Qed.

(** ** Automation *)

(** Turns the boolean tests of the code into the propositions they decide. *)
Ltac bool_simpl :=
  repeat match goal with
  | H : _ && _ = true |- _ => apply andb_true_iff in H; destruct H
  | H : _ || _ = false |- _ => apply orb_false_iff in H; destruct H
  | H : negb _ = true |- _ => apply negb_true_iff in H
  | H : negb _ = false |- _ => apply negb_false_iff in H
  | H : (_ <=? _) = true |- _ => apply Z.leb_le in H
  | H : (_ <=? _) = false |- _ => apply Z.leb_gt in H
  | H : (_ <? _) = true |- _ => apply Z.ltb_lt in H
  | H : (_ <? _) = false |- _ => apply Z.ltb_ge in H
  | H : (_ =? _) = true |- _ => apply Z.eqb_eq in H
  | H : (_ =? _) = false |- _ => apply Z.eqb_neq in H
  | H : bool_decide _ = true |- _ => apply bool_decide_eq_true in H
  | H : bool_decide _ = false |- _ => apply bool_decide_eq_false in H
  end.

(** Case analysis on the scrutinee of the outermost [match] of a hypothesis. *)
Ltac step_match H :=
  match type of H with
  | context [match ?x with _ => _ end] => destruct x eqn:?
  end.

Create HintDb agent.
Create Rewrite HintDb agent.
#[export] Hint Resolve is_bytes_be_bytes : agent.
#[export] Hint Rewrite length_be_bytes be_value_be_bytes : agent.
