(* ===== verification/Text.v ===== *)
(** * Text: the parts of Rust's [str], [u8] and integer parsing the agent uses

    A [&str] or [String] is modelled as its UTF-8 bytes, a list of [u8]s, so
    that [str::len], byte indices and [as_bytes] are what they are in the
    source.  [lit] writes a literal.  Characters are recovered by splitting at
    the lead bytes ([char_chunks]). *)

From Stdlib Require Import Ascii String.
From S2P Require Import Prelude.

Definition lit (s : string) : bytes :=
  map (fun a => Z.of_N (N_of_ascii a)) (list_ascii_of_string s).

Definition str_eqb (a b : bytes) : bool := bool_decide (a = b).

(** ** Classification of bytes ([u8::is_ascii_*]) *)

Definition is_ascii_lowercase (b : Z) : bool := (97 <=? b) && (b <=? 122).
Definition is_ascii_uppercase (b : Z) : bool := (65 <=? b) && (b <=? 90).
Definition is_ascii_alphabetic (b : Z) : bool :=
  is_ascii_lowercase b || is_ascii_uppercase b.
Definition is_ascii_digit (b : Z) : bool := (48 <=? b) && (b <=? 57).
Definition is_ascii_hexdigit (b : Z) : bool :=
  is_ascii_digit b || ((65 <=? b) && (b <=? 70)) || ((97 <=? b) && (b <=? 102)).
(** Space, tab, line feed, form feed and carriage return; not vertical tab. *)
Definition is_ascii_whitespace (b : Z) : bool :=
  (b =? 32) || (b =? 9) || (b =? 10) || (b =? 12) || (b =? 13).

Definition to_ascii_lowercase1 (b : Z) : Z :=
  if is_ascii_uppercase b then b + 32 else b.
Definition to_ascii_uppercase1 (b : Z) : Z :=
  if is_ascii_lowercase b then b - 32 else b.
Definition to_ascii_lowercase (s : bytes) : bytes := map to_ascii_lowercase1 s.
Definition to_ascii_uppercase (s : bytes) : bytes := map to_ascii_uppercase1 s.
Definition eq_ignore_ascii_case (a b : bytes) : bool :=
  str_eqb (to_ascii_lowercase a) (to_ascii_lowercase b).

(** ** Prefixes, suffixes, splitting *)

Fixpoint strip_prefix (p s : bytes) : option bytes :=
  match p, s with
  | [], _ => Some s
  | x :: p', y :: s' => if x =? y then strip_prefix p' s' else None
  | _ :: _, [] => None
  end.

Definition starts_with (p s : bytes) : bool :=
  match strip_prefix p s with Some _ => true | None => false end.

Definition strip_suffix (p s : bytes) : option bytes :=
  option_map (@rev Z) (strip_prefix (rev p) (rev s)).

Definition ends_with (p s : bytes) : bool :=
  match strip_suffix p s with Some _ => true | None => false end.

(** [str::find] of a pattern, as a byte index. *)
Fixpoint find_sub (p s : bytes) : option nat :=
  if starts_with p s then Some O
  else match s with
       | [] => None
       | _ :: s' => S <$> find_sub p s'
       end.

Definition contains_sub (p s : bytes) : bool :=
  match find_sub p s with Some _ => true | None => false end.

(** [str::split] at one byte: never empty, [n] separators give [n + 1] pieces. *)
Fixpoint split_on (c : Z) (s : bytes) : list bytes :=
  match s with
  | [] => [[]]
  | b :: s' =>
      if b =? c then [] :: split_on c s'
      else match split_on c s' with
           | [] => [[b]]
           | p :: ps => (b :: p) :: ps
           end
  end.

(** [str::split_once] at one byte. *)
Fixpoint split_once (c : Z) (s : bytes) : option (bytes * bytes) :=
  match s with
  | [] => None
  | b :: s' =>
      if b =? c then Some ([], s')
      else match split_once c s' with
           | Some (p, q) => Some (b :: p, q)
           | None => None
           end
  end.

(** [str::split_once] at a string. *)
Definition split_once_str (sep s : bytes) : option (bytes * bytes) :=
  match find_sub sep s with
  | Some i => Some (take i s, drop (i + length sep) s)
  | None => None
  end.

(** [Ord] of [str] and [[u8]]: by bytes. *)
Fixpoint bytes_leb (a b : bytes) : bool :=
  match a, b with
  | [], _ => true
  | _ :: _, [] => false
  | x :: a', y :: b' => (x <? y) || ((x =? y) && bytes_leb a' b')
  end.

(** ** Decimal numbers

    [uN::from_str] takes an optional [+], then at least one digit, and refuses
    values above the type's maximum. *)

Definition digit_value (b : Z) : option Z :=
  if is_ascii_digit b then Some (b - 48) else None.

Fixpoint parse_digits (max acc : Z) (s : bytes) : option Z :=
  match s with
  | [] => Some acc
  | b :: s' =>
      match digit_value b with
      | Some d =>
          let acc' := acc * 10 + d in
          if acc' <=? max then parse_digits max acc' s' else None
      | None => None
      end
  end.

Definition parse_uint (max : Z) (s : bytes) : option Z :=
  match s with
  | [] => None
  | b :: s' =>
      if b =? 43 then match s' with [] => None | _ :: _ => parse_digits max 0 s' end
      else parse_digits max 0 s
  end.

(** [Display] of an unsigned integer.  Twenty digits hold every [u64]; the fuel
    of [digits] is the number of digits wanted. *)
Fixpoint digits (n : nat) (z : Z) : bytes :=
  match n with
  | O => []
  | S n' => digits n' (z / 10) ++ [48 + z mod 10]
  end.

Fixpoint strip_zeros (s : bytes) : bytes :=
  match s with
  | b :: s' =>
      match s' with
      | [] => s
      | _ :: _ => if b =? 48 then strip_zeros s' else s
      end
  | [] => []
  end.

Definition show_u64 (z : Z) : bytes := strip_zeros (digits 20 z).

(** [{:0w}]: at least [w] digits, padded with zeros, more when the value needs
    more. *)
Definition show_padded (w : nat) (z : Z) : bytes :=
  let s := show_u64 z in replicate (w - length s) 48 ++ s.

(** ** UTF-8 *)

Definition is_continuation (b : Z) : bool := (128 <=? b) && (b <=? 191).

(** A char boundary inside the text: [str::is_char_boundary]. *)
Definition is_char_boundary (s : bytes) (i : nat) : bool :=
  match s !! i with
  | Some b => negb (is_continuation b)
  | None => Nat.eqb i (length s)
  end.

(** [str::split_at_checked]. *)
Definition split_at_checked (s : bytes) (i : nat) : option (bytes * bytes) :=
  if is_char_boundary s i then Some (take i s, drop i s) else None.

(** The characters of a text, each as its own UTF-8 bytes. *)
Fixpoint char_chunks (s : bytes) : list bytes :=
  match s with
  | [] => []
  | b :: s' =>
      match char_chunks s' with
      | (c :: cs) as chunks =>
          match c with
          | x :: _ => if is_continuation x then (b :: c) :: cs else [b] :: chunks
          | [] => [b] :: chunks
          end
      | [] => [[b]]
      end
  end.

(** [s.chars().count()]. *)
Definition chars_count (s : bytes) : Z := zlength (char_chunks s).

(** Unicode White_Space, by encoded character: [char::is_whitespace]. *)
Definition is_whitespace_chunk (c : bytes) : bool :=
  match c with
  | [b] => ((9 <=? b) && (b <=? 13)) || (b =? 32)
  | [a; b] => (a =? 194) && ((b =? 133) || (b =? 160))
  | [a; b; c] =>
      ((a =? 225) && (b =? 154) && (c =? 128))
      || ((a =? 226) && (b =? 128)
          && (((128 <=? c) && (c <=? 138)) || (c =? 168) || (c =? 169) || (c =? 175)))
      || ((a =? 226) && (b =? 129) && (c =? 159))
      || ((a =? 227) && (b =? 128) && (c =? 128))
  | _ => false
  end.

Fixpoint drop_while {A} (p : A -> bool) (l : list A) : list A :=
  match l with
  | [] => []
  | x :: l' => if p x then drop_while p l' else l
  end.

Definition trim_by {A} (p : A -> bool) (l : list A) : list A :=
  rev (drop_while p (rev (drop_while p l))).

(** [str::trim]. *)
Definition trim (s : bytes) : bytes := concat (trim_by is_whitespace_chunk (char_chunks s)).

(** Whether bytes are well-formed UTF-8 (no overlong forms, surrogates or
    values above U+10FFFF), as [std::str::from_utf8] decides. *)
Fixpoint utf8_valid (s : bytes) : bool :=
  match s with
  | [] => true
  | a :: s1 =>
      if a <? 128 then utf8_valid s1
      else match s1 with
      | b :: s2 =>
          if (194 <=? a) && (a <=? 223) then is_continuation b && utf8_valid s2
          else match s2 with
          | c :: s3 =>
              if (224 <=? a) && (a <=? 239) then
                (((a =? 224) && (160 <=? b) && (b <=? 191))
                 || ((a =? 237) && (128 <=? b) && (b <=? 159))
                 || (negb (a =? 224) && negb (a =? 237) && is_continuation b))
                && is_continuation c && utf8_valid s3
              else match s3 with
              | d :: s4 =>
                  (((a =? 240) && (144 <=? b) && (b <=? 191))
                   || ((a =? 244) && (128 <=? b) && (b <=? 143))
                   || ((241 <=? a) && (a <=? 243) && is_continuation b))
                  && is_continuation c && is_continuation d && utf8_valid s4
              | [] => false
              end
          | [] => false
          end
      | [] => false
      end
  end.

Definition from_utf8 (s : bytes) : option bytes :=
  if utf8_valid s then Some s else None.

(** One step of [String::from_utf8_lossy]: whether a character starts the
    bytes, and how many bytes it, or the invalid sequence in its place, takes. *)
Definition utf8_step (a : Z) (s : bytes) : bool * nat :=
  let b := nth 0 s 0 in
  let c := nth 1 s 0 in
  let d := nth 2 s 0 in
  if a <? 128 then (true, 1%nat)
  else if (194 <=? a) && (a <=? 223) then
    if is_continuation b then (true, 2%nat) else (false, 1%nat)
  else if (224 <=? a) && (a <=? 239) then
    if negb (((a =? 224) && (160 <=? b) && (b <=? 191))
             || ((a =? 237) && (128 <=? b) && (b <=? 159))
             || (negb (a =? 224) && negb (a =? 237) && is_continuation b))
    then (false, 1%nat)
    else if is_continuation c then (true, 3%nat) else (false, 2%nat)
  else if (240 <=? a) && (a <=? 244) then
    if negb (((a =? 240) && (144 <=? b) && (b <=? 191))
             || ((a =? 244) && (128 <=? b) && (b <=? 143))
             || ((241 <=? a) && (a <=? 243) && is_continuation b))
    then (false, 1%nat)
    else if is_continuation c then
      if is_continuation d then (true, 4%nat) else (false, 3%nat)
    else (false, 2%nat)
  else (false, 1%nat).

(** U+FFFD, encoded. *)
Definition replacement : bytes := [239; 191; 189].

Fixpoint lossy (fuel : nat) (s : bytes) : bytes :=
  match fuel, s with
  | S fuel', a :: s' =>
      let '(valid, n) := utf8_step a s' in
      (if valid : bool then take n s else replacement) ++ lossy fuel' (drop n s)
  | _, _ => []
  end.

(** Each step takes at least one byte, so the length is enough fuel. *)
Definition from_utf8_lossy (s : bytes) : bytes := lossy (length s) s.

Definition is_ascii (s : bytes) : bool := forallb (fun b => (0 <=? b) && (b <? 128)) s.

(** ** Lemmas *)

Lemma str_eqb_eq a b : str_eqb a b = true <-> a = b.
Proof. unfold str_eqb. apply bool_decide_eq_true. Qed.

Lemma str_eqb_refl a : str_eqb a a = true.
Proof. by apply str_eqb_eq. Qed.

Lemma strip_prefix_app p s : strip_prefix p (p ++ s) = Some s.
Proof. induction p as [|x p IH]; simpl; [done|]. by rewrite Z.eqb_refl. Qed.

Lemma strip_prefix_Some p s r : strip_prefix p s = Some r -> s = p ++ r.
Proof.
  revert s; induction p as [|x p IH]; intros [|y s]; simpl; try congruence.
  destruct (Z.eqb_spec x y); [subst|done]. intros H. by rewrite (IH s H).
Qed.

Lemma starts_with_spec p s : starts_with p s = true <-> exists r, s = p ++ r.
Proof.
  unfold starts_with. destruct (strip_prefix p s) as [r|] eqn:H; split; try done.
  - intros _. exists r. by apply strip_prefix_Some.
  - intros [r ->]. by rewrite strip_prefix_app in H.
Qed.

Lemma strip_suffix_app p s : strip_suffix p (s ++ p) = Some s.
Proof.
  unfold strip_suffix. rewrite rev_app_distr, strip_prefix_app. simpl.
  by rewrite rev_involutive.
Qed.

Lemma strip_suffix_Some p s r : strip_suffix p s = Some r -> s = r ++ p.
Proof.
  unfold strip_suffix. destruct (strip_prefix (rev p) (rev s)) as [q|] eqn:H; simpl; [|done].
  intros [= <-]. apply strip_prefix_Some in H.
  rewrite <- (rev_involutive s), H, rev_app_distr, rev_involutive. done.
Qed.

Lemma split_once_app c p q :
  c ∉ p -> split_once c (p ++ c :: q) = Some (p, q).
Proof.
  induction p as [|x p IH]; intros Hc; simpl.
  - by rewrite Z.eqb_refl.
  - apply not_elem_of_cons in Hc as [Hx Hc].
    destruct (Z.eqb_spec x c); [congruence|]. by rewrite IH.
Qed.

Lemma split_once_Some c s p q :
  split_once c s = Some (p, q) -> s = p ++ c :: q /\ c ∉ p.
Proof.
  revert p; induction s as [|x s IH]; intros p; simpl; [done|].
  destruct (Z.eqb_spec x c) as [->|Hx].
  - intros [= <- <-]. split; [done|]. apply not_elem_of_nil.
  - destruct (split_once c s) as [[p' q']|]; [|done].
    intros [= <- <-]. destruct (IH p' eq_refl) as [-> Hc].
    split; [done|]. apply not_elem_of_cons. auto.
Qed.

Lemma split_on_nonempty c s : split_on c s <> [].
Proof. destruct s as [|b s]; simpl; [done|]. destruct (b =? c); [done|]. by destruct (split_on c s). Qed.

(** Joining the pieces of a split with the separator gives the text back. *)
Fixpoint join (c : Z) (ps : list bytes) : bytes :=
  match ps with
  | [] => []
  | [p] => p
  | p :: ps' => p ++ c :: join c ps'
  end.

Lemma join_cons c p p' ps : join c (p :: p' :: ps) = p ++ c :: join c (p' :: ps).
Proof. reflexivity. Qed.

Lemma join_split_on c s : join c (split_on c s) = s.
Proof.
  induction s as [|b s IH]; simpl; [done|].
  pose proof (split_on_nonempty c s) as Hne.
  destruct (Z.eqb_spec b c) as [->|Hb].
  - destruct (split_on c s) eqn:E; [done|]. simpl in *. by rewrite IH.
  - destruct (split_on c s) as [|p [|p' ps]] eqn:E; simpl in *; [done| |]; by rewrite <- IH.
Qed.

Lemma split_on_pieces c s : Forall (fun p => c ∉ p) (split_on c s).
Proof.
  induction s as [|b s IH]; simpl.
  - constructor; [apply not_elem_of_nil|constructor].
  - destruct (Z.eqb_spec b c) as [->|Hb].
    + constructor; [apply not_elem_of_nil|done].
    + destruct (split_on c s); inversion IH; subst; constructor; auto;
        apply not_elem_of_cons; auto using not_elem_of_nil.
Qed.

Lemma digits_S n z : digits (S n) z = digits n (z / 10) ++ [48 + z mod 10].
Proof. reflexivity. Qed.

Lemma length_digits n z : length (digits n z) = n.
Proof. revert z; induction n as [|n IH]; intros z; [done|]. cbn [digits]. rewrite length_app, IH. simpl; lia. Qed.

Lemma digits_ascii n z : Forall (fun b => is_ascii_digit b = true) (digits n z).
Proof.
  revert z; induction n as [|n IH]; intros z; cbn [digits]; [constructor|].
  apply Forall_app; split; [apply IH|]. constructor; [|constructor].
  pose proof (Z.mod_pos_bound z 10 ltac:(lia)). unfold is_ascii_digit.
  apply andb_true_iff. rewrite !Z.leb_le. lia.
Qed.

Lemma parse_digits_app max acc s t :
  parse_digits max acc (s ++ t) =
  (let+ v := parse_digits max acc s in parse_digits max v t).
Proof.
  revert acc; induction s as [|b s IH]; intros acc; simpl; [done|].
  destruct (digit_value b); [|done]. destruct (_ <=? max); [apply IH|done].
Qed.

Lemma parse_digits_digits max n z :
  0 <= z -> z <= max -> z < 10 ^ Z.of_nat n -> parse_digits max 0 (digits n z) = Some z.
Proof.
  revert z; induction n as [|n IH]; intros z H0 Hmax Hz.
  - simpl in Hz. assert (z = 0) as -> by lia. done.
  - rewrite Nat2Z.inj_succ, Z.pow_succ_r in Hz by lia.
    cbn [digits]. rewrite parse_digits_app, IH; cycle 1.
    { apply Z.div_pos; lia. }
    { pose proof (Z.div_le_upper_bound z 10 z ltac:(lia) ltac:(lia)). lia. }
    { apply Z.div_lt_upper_bound; lia. }
    simpl. unfold digit_value, is_ascii_digit.
    pose proof (Z.mod_pos_bound z 10 ltac:(lia)).
    replace ((48 <=? 48 + z mod 10) && (48 + z mod 10 <=? 57)) with true
      by (symmetry; apply andb_true_iff; rewrite !Z.leb_le; lia).
    pose proof (Z.div_mod z 10 ltac:(lia)).
    replace (z / 10 * 10 + (48 + z mod 10 - 48)) with z by lia.
    destruct (Z.leb_spec z max); [done|lia].
Qed.

Lemma digits_small n k z :
  0 <= z -> z < 10 ^ Z.of_nat n -> digits (k + n) z = replicate k 48 ++ digits n z.
Proof.
  revert z; induction n as [|n IH]; intros z H0 Hz.
  - rewrite Nat.add_0_r, app_nil_r. simpl in Hz. assert (z = 0) as -> by lia. clear Hz H0.
    induction k as [|k IHk]; [done|].
    cbn [digits]. change (0 / 10) with 0. change (48 + 0 mod 10) with 48.
    rewrite IHk. by rewrite <- (replicate_cons_app k 48).
  - rewrite Nat2Z.inj_succ, Z.pow_succ_r in Hz by lia.
    rewrite Nat.add_succ_r. cbn [digits]. rewrite IH.
    + by rewrite app_assoc.
    + apply Z.div_pos; lia.
    + apply Z.div_lt_upper_bound; lia.
Qed.

Lemma strip_zeros_replicate k s : s <> [] -> strip_zeros (replicate k 48 ++ s) = strip_zeros s.
Proof.
  intros Hs. induction k as [|k IH]; simpl; [done|].
  destruct (replicate k 48 ++ s) eqn:E; [|done].
  apply app_eq_nil in E as [_ ?]. done.
Qed.

Lemma strip_zeros_pad s :
  replicate (length s - length (strip_zeros s)) 48 ++ strip_zeros s = s.
Proof.
  assert (forall t, (length (strip_zeros t) <= length t)%nat) as Hle.
  { clear. induction t as [|b t IH]; simpl; [done|].
    destruct t; simpl; [done|]. destruct (b =? 48); simpl in *; lia. }
  induction s as [|b s IH]; [done|].
  cbn [strip_zeros]. destruct s as [|b' s'].
  { simpl. done. }
  destruct (Z.eqb_spec b 48) as [->|].
  - specialize (Hle (b' :: s')).
    replace (length (48%Z :: b' :: s') - length (strip_zeros (b' :: s')))%nat
      with (S (length (b' :: s') - length (strip_zeros (b' :: s')))) by (simpl in *; lia).
    cbn [replicate app]. by rewrite IH.
  - by rewrite Nat.sub_diag.
Qed.

(** Zero-padded display agrees with the digits whenever they fit. *)
Lemma show_padded_digits w z :
  (1 <= w <= 20)%nat -> 0 <= z -> z < 10 ^ Z.of_nat w -> show_padded w z = digits w z.
Proof.
  intros Hw H0 Hz. unfold show_padded, show_u64.
  replace 20%nat with (20 - w + w)%nat by lia.
  rewrite digits_small by done. rewrite strip_zeros_replicate.
  - rewrite <- (strip_zeros_pad (digits w z)) at 3. by rewrite length_digits.
  - intros E. pose proof (length_digits w z) as Hl. rewrite E in Hl. simpl in Hl. lia.
Qed.

Lemma parse_uint_digits max n z :
  (0 < n)%nat -> 0 <= z -> z <= max -> z < 10 ^ Z.of_nat n ->
  parse_uint max (digits n z) = Some z.
Proof.
  intros Hn H0 Hm Hz. unfold parse_uint.
  pose proof (digits_ascii n z) as Ha. pose proof (length_digits n z) as Hl.
  destruct (digits n z) as [|b s] eqn:E; [simpl in Hl; lia|].
  inversion Ha as [|? ? Hb _]; subst. unfold is_ascii_digit in Hb. bool_simpl.
  destruct (Z.eqb_spec b 43); [lia|]. rewrite <- E. by apply parse_digits_digits.
Qed.

Lemma digits_not_elem n z c : is_ascii_digit c = false -> c ∉ digits n z.
Proof.
  intros Hc Hin. pose proof (digits_ascii n z) as Ha.
  apply list_elem_of_In in Hin. rewrite List.Forall_forall in Ha. apply Ha in Hin. congruence.
Qed.

Lemma parse_digits_range max acc s v :
  0 <= acc -> parse_digits max acc s = Some v -> acc <= v /\ (acc <= max -> v <= max).
Proof.
  revert acc; induction s as [|b s IH]; intros acc H0; simpl; [intros [= ->]; lia|].
  unfold digit_value, is_ascii_digit.
  destruct ((48 <=? b) && (b <=? 57)) eqn:Hb; [|done]. bool_simpl.
  destruct (Z.leb_spec (acc * 10 + (b - 48)) max); [|done].
  intros Hv. apply IH in Hv; lia.
Qed.

Lemma parse_uint_range max s v : 0 <= max -> parse_uint max s = Some v -> 0 <= v <= max.
Proof.
  intros Hm. unfold parse_uint. destruct s as [|b s]; [done|].
  destruct (b =? 43); [destruct s; [done|]|]; intros H;
    apply parse_digits_range in H; lia.
Qed.

(** Characters. *)

Lemma concat_char_chunks s : concat (char_chunks s) = s.
Proof.
  induction s as [|b s IH]; simpl; [done|].
  destruct (char_chunks s) as [|[|x c] cs]; simpl in *; [by subst|by subst|].
  destruct (is_continuation x); simpl; by rewrite IH.
Qed.

Lemma drop_while_suffix {A} (p : A -> bool) l : exists d, l = d ++ drop_while p l.
Proof.
  induction l as [|x l [d IH]]; [by exists []|]. simpl.
  destruct (p x); [|by exists []]. exists (x :: d). simpl. congruence.
Qed.

(** A trimmed text is a contiguous part of the original. *)
Lemma trim_by_infix {A} (p : A -> bool) l :
  exists d e, l = d ++ trim_by p l ++ e.
Proof.
  unfold trim_by. destruct (drop_while_suffix p l) as [d Hd].
  destruct (drop_while_suffix p (rev (drop_while p l))) as [e He].
  exists d, (rev e). rewrite Hd at 1. f_equal.
  rewrite <- rev_app_distr, <- He, rev_involutive. done.
Qed.

Lemma trim_infix s : exists d e, s = d ++ trim s ++ e.
Proof.
  destruct (trim_by_infix is_whitespace_chunk (char_chunks s)) as (d & e & H).
  exists (concat d), (concat e). unfold trim.
  rewrite <- (concat_char_chunks s) at 1. rewrite H at 1. by rewrite !concat_app.
Qed.

Lemma length_trim s : (length (trim s) <= length s)%nat.
Proof.
  destruct (trim_infix s) as (d & e & H). rewrite H at 2. rewrite !length_app. lia.
Qed.

(** ** UTF-8 lemmas *)

Lemma utf8_valid_cons a s :
  utf8_valid (a :: s) = true ->
  exists n, utf8_step a s = (true, n) /\ (1 <= n <= S (length s))%nat /\
            utf8_valid (drop n (a :: s)) = true.
Proof.
  cbn [utf8_valid]. unfold utf8_step. destruct (Z.ltb_spec a 128).
  { intros Hv. exists 1%nat. repeat split; simpl; auto; lia. }
  destruct s as [|b s]; [done|]. cbn [nth].
  destruct ((194 <=? a) && (a <=? 223)) eqn:H2.
  { intros [Hb Hv]%andb_true_iff. rewrite Hb. exists 2%nat. repeat split; simpl; auto; lia. }
  destruct s as [|c s]; [done|]. cbn [nth].
  destruct ((224 <=? a) && (a <=? 239)) eqn:H3.
  { intros [[Hb Hc]%andb_true_iff Hv]%andb_true_iff. rewrite Hb, Hc. simpl.
    exists 3%nat. repeat split; simpl; auto; lia. }
  destruct s as [|d s]; [done|]. cbn [nth].
  intros [[[Hb Hc]%andb_true_iff Hd]%andb_true_iff Hv]%andb_true_iff.
  rewrite Hb, Hc, Hd. simpl.
  replace ((240 <=? a) && (a <=? 244)) with true.
  { exists 4%nat. repeat split; simpl; auto; lia. }
  symmetry. apply andb_true_iff. rewrite !Z.leb_le.
  apply orb_true_iff in Hb as [[Hb|Hb]%orb_true_iff|Hb]; bool_simpl; lia.
Qed.

(** Well-formed UTF-8 is left as it is. *)
Lemma from_utf8_lossy_valid s : utf8_valid s = true -> from_utf8_lossy s = s.
Proof.
  unfold from_utf8_lossy.
  assert (forall fuel t, (length t <= fuel)%nat -> utf8_valid t = true -> lossy fuel t = t) as H;
    [|by apply H].
  induction fuel as [|fuel IH]; intros [|a t] Hl Hv; try done; [simpl in Hl; lia|].
  destruct (utf8_valid_cons a t Hv) as (n & Hs & Hn & Hv'). simpl. rewrite Hs.
  rewrite IH, take_drop; [done| |done]. rewrite length_drop. simpl in *. lia.
Qed.

Lemma is_ascii_utf8 s : is_ascii s = true -> utf8_valid s = true.
Proof.
  induction s as [|b s IH]; [done|]. simpl. intros Hb. bool_simpl.
  destruct (Z.ltb_spec b 128); [auto|lia].
Qed.

Lemma char_chunks_ascii s : is_ascii s = true -> char_chunks s = map (fun b => [b]) s.
Proof.
  induction s as [|b s IH]; [done|]. cbn [is_ascii forallb]. intros H. apply andb_true_iff in H as [Hb Hs].
  cbn [char_chunks map]. rewrite (IH Hs). destruct s as [|x s]; [done|]. cbn [map].
  cbn [forallb] in Hs. unfold is_continuation. destruct (Z.leb_spec 128 x); [|done]. bool_simpl. lia.
Qed.

Lemma drop_while_none {A} (p : A -> bool) l : Forall (fun x => p x = false) l -> drop_while p l = l.
Proof. destruct 1 as [|x l Hx Hl]; [done|]. simpl. by rewrite Hx. Qed.

(** Visible ASCII characters. *)
Definition visible (s : bytes) : Prop := Forall (fun b => 33 <= b < 128) s.

Lemma visible_ascii s : visible s -> is_ascii s = true.
Proof.
  intros Hs. apply forallb_forall. intros b Hb. unfold visible in Hs. rewrite List.Forall_forall in Hs. apply Hs in Hb.
  apply andb_true_iff. split; [apply Z.leb_le|apply Z.ltb_lt]; lia.
Qed.

Lemma visible_chunks s : visible s -> Forall (fun c => is_whitespace_chunk c = false) (map (fun b => [b]) s).
Proof.
  intros Hs. apply List.Forall_forall. intros c Hc. apply in_map_iff in Hc as (b & <- & Hb).
  unfold visible in Hs. rewrite List.Forall_forall in Hs. apply Hs in Hb. cbn [is_whitespace_chunk].
  apply orb_false_iff. split; [apply andb_false_iff; right; apply Z.leb_gt; lia|apply Z.eqb_neq; lia].
Qed.

Lemma concat_singletons {A} (s : list A) : concat (map (fun b => [b]) s) = s.
Proof. induction s as [|b s IH]; [done|]. simpl. by rewrite IH. Qed.

Lemma trim_visible s : visible s -> trim s = s.
Proof.
  intros Hs. unfold trim, trim_by. rewrite char_chunks_ascii by (by apply visible_ascii).
  pose proof (visible_chunks s Hs) as Hw. rewrite (drop_while_none _ _ Hw).
  rewrite drop_while_none by (by apply Forall_rev). rewrite rev_involutive. apply concat_singletons.
Qed.

(** A line of visible characters, without its line feed. *)
Lemma trim_line s : visible s -> trim (s ++ [10]) = s.
Proof.
  intros Hs. unfold trim, trim_by. rewrite char_chunks_ascii.
  2: { unfold is_ascii. rewrite forallb_app. apply andb_true_iff. split; [by apply visible_ascii|done]. }
  rewrite map_app. pose proof (visible_chunks s Hs) as Hw.
  destruct s as [|x s]; [done|]. cbn [map app] in *. inversion Hw as [|? ? Hx Hw']; subst.
  cbn [drop_while]. rewrite Hx. cbn [rev]. rewrite rev_app_distr. cbn [rev app drop_while].
  change (is_whitespace_chunk [10]) with true. cbv iota. rewrite drop_while_none.
  - rewrite rev_app_distr, rev_involutive. cbn [rev app concat]. f_equal. apply concat_singletons.
  - apply Forall_app. split; [by apply Forall_rev|by constructor].
Qed.

(** Leading zeros do not change a parsed value. *)
Lemma parse_digits_replicate max k s :
  0 <= max -> parse_digits max 0 (replicate k 48 ++ s) = parse_digits max 0 s.
Proof.
  intros Hm. induction k as [|k IH]; [done|]. simpl.
  change (0 * 10 + (48 - 48)) with 0. by destruct (Z.leb_spec 0 max); [|lia].
Qed.

Lemma strip_zeros_nonempty s : s <> [] -> strip_zeros s <> [].
Proof.
  induction s as [|b s IH]; [done|]. intros _. simpl. destruct s; [done|].
  destruct (b =? 48); [by apply IH|done].
Qed.

Lemma show_u64_digits z : Forall (fun b => is_ascii_digit b = true) (show_u64 z).
Proof.
  pose proof (digits_ascii 20 z) as H. unfold show_u64.
  rewrite <- (strip_zeros_pad (digits 20 z)) in H. by apply Forall_app in H as [_ H].
Qed.

Lemma show_u64_nonempty z : show_u64 z <> [].
Proof.
  apply strip_zeros_nonempty. intros E. pose proof (length_digits 20 z) as H. by rewrite E in H.
Qed.

(** Display then parse is the identity on [u64]. *)
Lemma parse_uint_show max z :
  0 <= z <= max -> z < 10 ^ 20 -> parse_uint max (show_u64 z) = Some z.
Proof.
  intros Hz Hz20. unfold parse_uint.
  pose proof (show_u64_digits z) as Hd. pose proof (show_u64_nonempty z) as Hne.
  destruct (show_u64 z) as [|b s] eqn:E; [done|].
  inversion Hd as [|? ? Hb _]; subst. unfold is_ascii_digit in Hb. bool_simpl.
  destruct (Z.eqb_spec b 43); [lia|]. rewrite <- E. unfold show_u64.
  rewrite <- (parse_digits_replicate max (length (digits 20 z) - length (strip_zeros (digits 20 z)))) by lia.
  rewrite strip_zeros_pad. apply parse_digits_digits; [lia..|exact Hz20].
Qed.

Lemma show_u64_inj a b :
  0 <= a < 10 ^ 20 -> 0 <= b < 10 ^ 20 -> show_u64 a = show_u64 b -> a = b.
Proof.
  intros Ha Hb E. enough (Some a = Some b) by congruence.
  rewrite <- (parse_uint_show (10 ^ 20) a), <- (parse_uint_show (10 ^ 20) b) by lia.
  by rewrite E.
Qed.

(** [str::lines]. *)
Definition strip_cr (line : bytes) : bytes := match strip_suffix [13] line with Some l => l | None => line end.
Definition lines (text : bytes) : list bytes :=
  let pieces := split_on 10 text in
  map strip_cr (match last_opt pieces with Some [] => removelast pieces | _ => pieces end).

Arguments show_u64 : simpl never.
Arguments show_padded : simpl never.
Arguments parse_uint : simpl never.
Arguments digits : simpl never.
Arguments trim : simpl never.
