(* ===== verification/Floats.v ===== *)
(** * Binary64 numbers

    [f64] is the Standard Library's specification of binary floating-point numbers
    at 53 bits of precision.  What the agent uses of them: reading a decimal
    literal ([f64::from_str], correctly rounded), comparing, dividing, and the
    saturating conversion to an integer. *)

From Stdlib Require Import String SpecFloat.
From S2P Require Import Prelude Text.

Abbreviation f64 := spec_float.

Definition f64_of_Z (z : Z) : f64 := binary_normalize 53 1024 z 0 false.
Definition f64_div : f64 -> f64 -> f64 := SFdiv 53 1024.
Definition f64_mul : f64 -> f64 -> f64 := SFmul 53 1024.
Definition f64_eqb : f64 -> f64 -> bool := SFeqb.
Definition f64_leb : f64 -> f64 -> bool := SFleb.

Definition is_finite (f : f64) : bool :=
  match f with S754_zero _ | S754_finite _ _ _ => true | _ => false end.

(** [f as i64]: towards zero, saturating, zero for NaN. *)
Definition f64_as_i64 (f : f64) : Z :=
  match f with
  | S754_zero _ | S754_nan => 0
  | S754_infinity s => if s then - 2 ^ 63 else 2 ^ 63 - 1
  | S754_finite s m e =>
      let magnitude := if 0 <=? e then Zpos m * 2 ^ e else Zpos m / 2 ^ (- e) in
      Z.max (- 2 ^ 63) (Z.min (if s then - magnitude else magnitude) (2 ^ 63 - 1))
  end.

(** ** Decimal literals *)

Definition f64_infinity (neg : bool) : f64 := S754_infinity neg.

(** [m * 10 ^ e], rounded once.  A number of at least [10 ^ 400] or below [10 ^ -400],
    judged by the bit length of [m], is infinite or zero without computing the power:
    [3 / 10] and [1 / 3] bound the decimal logarithm of 2 from below and above. *)
Definition f64_of_decimal (neg : bool) (m e : Z) : f64 :=
  match m with
  | Zpos p =>
      if 400 <? Z.log2 m * 3 / 10 + e then S754_infinity neg
      else if (Z.log2 m + 1) / 3 + 1 + e <? -400 then S754_zero neg
      else if 0 <=? e then binary_normalize 53 1024 (if neg then - (m * 10 ^ e) else m * 10 ^ e) 0 neg
      else SFdiv 53 1024 (S754_finite neg p 0) (S754_finite false (Z.to_pos (10 ^ (- e))) 0)
  | _ => S754_zero neg
  end.

(** The digits at the front, as a number with how many there are, and what follows. *)
Fixpoint take_digits (acc : Z) (n : nat) (s : bytes) : Z * nat * bytes :=
  match s with
  | b :: s' => if is_ascii_digit b then take_digits (acc * 10 + (b - 48)) (S n) s' else (acc, n, s)
  | [] => (acc, n, [])
  end.

(** An exponent part that must reach the end of the text; absent, it is zero. *)
Definition parse_exponent (s : bytes) : option Z :=
  match s with
  | [] => Some 0
  | b :: s' =>
      if (b =? 101) || (b =? 69) then
        let '(neg, s') := match s' with
                          | 43 :: s'' => (false, s'')
                          | 45 :: s'' => (true, s'')
                          | _ => (false, s')
                          end in
        match take_digits 0 0 s' with
        | (e, S _, []) => Some (if neg then - e else e)
        | _ => None
        end
      else None
  end.

Definition parse_number (neg : bool) (s : bytes) : option f64 :=
  let '(whole, n, rest) := take_digits 0 0 s in
  let '(m, k, rest) := match rest with 46 :: rest' => take_digits whole 0 rest' | _ => (whole, 0%nat, rest) end in
  match (n + k)%nat with
  | O => None
  | _ => option_map (fun e => f64_of_decimal neg m (e - Z.of_nat k)) (parse_exponent rest)
  end.

(** [f64::from_str]. *)
Definition parse_f64 (s : bytes) : option f64 :=
  let '(neg, s) := match s with
                   | 43 :: s' => (false, s')
                   | 45 :: s' => (true, s')
                   | _ => (false, s)
                   end in
  if eq_ignore_ascii_case s (lit "inf") || eq_ignore_ascii_case s (lit "infinity") then Some (S754_infinity neg)
  else if eq_ignore_ascii_case s (lit "nan") then Some S754_nan
  else parse_number neg s.

(** ** Examples *)

Example parse_half : parse_f64 (lit "0.5") = Some (S754_finite false 4503599627370496 (-53)).
Proof. vm_compute. reflexivity. Qed.
Example parse_three_hundred : parse_f64 (lit "+3e2") = Some (f64_of_Z 300).
Proof. vm_compute. reflexivity. Qed.
Example parse_tenth : parse_f64 (lit ".1") = Some (f64_div (f64_of_Z 1) (f64_of_Z 10)).
Proof. vm_compute. reflexivity. Qed.
Example parse_smallest : parse_f64 (lit "4.9406564584124654e-324") = Some (S754_finite false 1 (-1074)).
Proof. vm_compute. reflexivity. Qed.
Example parse_largest : parse_f64 (lit "17976931348623157e292") = Some (S754_finite false 9007199254740991 971).
Proof. vm_compute. reflexivity. Qed.
Example parse_too_large : parse_f64 (lit "-1e400000") = Some (S754_infinity true).
Proof. vm_compute. reflexivity. Qed.
Example parse_too_small : parse_f64 (lit "1e-999999999") = Some (S754_zero false).
Proof. vm_compute. reflexivity. Qed.
Example parse_dot : parse_f64 (lit ".") = None /\ parse_f64 (lit "1e") = None /\ parse_f64 [] = None.
Proof. vm_compute. repeat split. Qed.
Example window_of_five_seconds : f64_as_i64 (f64_mul (f64_of_Z 5) (f64_of_Z 1000)) = 5000.
Proof. vm_compute. reflexivity. Qed.
