(* ===== verification/Ip.v ===== *)
(** * IP addresses, as [std::net] reads them

    [IpAddr::from_str]: dotted decimal with no leading zeros, or hexadecimal groups
    with at most one [::] and possibly a dotted tail.  An address is its octets. *)

From Stdlib Require Import String.
From S2P Require Import Prelude Text.

#[local] Set Warnings "-notation-overridden".

Inductive IpAddr := V4 (a b c d : Z) | V6 (groups : list Z).
#[export] Instance IpAddr_eq_dec : EqDecision IpAddr.
Proof. solve_decision. Defined.

Record SocketAddr := mkSocketAddr { sa_ip : IpAddr; sa_port : Z }.
#[export] Instance SocketAddr_eq_dec : EqDecision SocketAddr.
Proof. solve_decision. Defined.

Definition is_loopback (ip : IpAddr) : bool :=
  match ip with
  | V4 a _ _ _ => a =? 127
  | V6 g => bool_decide (g = [0; 0; 0; 0; 0; 0; 0; 1])
  end.

(** A reader: what it read and what is left, or nothing at all. *)
Definition reader (A : Type) : Type := bytes -> option (A * bytes).
Definition r_bind {A B} (m : reader A) (k : A -> reader B) : reader B := fun s =>
  match m s with Some (a, s') => k a s' | None => None end.
Definition r_ret {A} (a : A) : reader A := fun s => Some (a, s).

Definition read_given (c : Z) : reader unit := fun s =>
  match s with b :: s' => if b =? c then Some (tt, s') else None | [] => None end.

Definition hex_value (b : Z) : option Z :=
  if is_ascii_digit b then Some (b - 48)
  else if (97 <=? b) && (b <=? 102) then Some (b - 87)
  else if (65 <=? b) && (b <=? 70) then Some (b - 55)
  else None.
Definition digit_of (radix b : Z) : option Z :=
  match hex_value b with Some v => if v <? radix then Some v else None | None => None end.

Fixpoint number_from (radix acc : Z) (count : nat) (s : bytes) : Z * nat * bytes :=
  match s with
  | [] => (acc, count, [])
  | b :: s' => match digit_of radix b with
               | Some v => number_from radix (acc * radix + v) (S count) s'
               | None => (acc, count, s)
               end
  end.

(** [read_number]: at most [max_digits] digits, a value below [bound]. *)
Definition read_number (radix bound : Z) (max_digits : nat) (allow_zero_prefix : bool) : reader Z := fun s =>
  let leading_zero := match s with b :: _ => b =? 48 | [] => false end in
  match number_from radix 0 0 s with
  | (_, O, _) => None
  | (v, n, rest) =>
      if Nat.ltb max_digits n || (bound <=? v) || (negb allow_zero_prefix && leading_zero && Nat.ltb 1 n) then None
      else Some (v, rest)
  end.

(** [read_separator]. *)
Definition after_separator {A} (sep : Z) (index : nat) (inner : reader A) : reader A :=
  match index with O => inner | S _ => r_bind (read_given sep) (fun _ => inner) end.

Definition octet : reader Z := read_number 10 256 3 false.
Definition read_ipv4 : reader IpAddr :=
  r_bind octet (fun a => r_bind (after_separator 46 1 octet) (fun b => r_bind (after_separator 46 1 octet) (fun c =>
  r_bind (after_separator 46 1 octet) (fun d => r_ret (V4 a b c d))))).

(** [read_groups]: at most [limit] groups, and whether they end in a dotted tail. *)
Fixpoint read_groups (limit index : nat) (s : bytes) : list Z * bool * bytes :=
  match limit with
  | O => ([], false, s)
  | S limit' =>
      match (match limit' with O => None | S _ => after_separator 58 index read_ipv4 s end) with
      | Some (V4 a b c d, rest) => ([a * 256 + b; c * 256 + d], true, rest)
      | _ =>
          match after_separator 58 index (read_number 16 65536 4 true) s with
          | None => ([], false, s)
          | Some (g, rest) => let '(gs, v4, rest) := read_groups limit' (S index) rest in (g :: gs, v4, rest)
          end
      end
  end.

Definition read_ipv6 : reader IpAddr := fun s =>
  let '(head, v4, rest) := read_groups 8 0 s in
  if bool_decide (length head = 8%nat) then Some (V6 head, rest)
  else if (v4 : bool) then None
  else
    match r_bind (read_given 58) (fun _ => read_given 58) rest with
    | None => None
    | Some (_, rest) =>
        let '(tail, _, rest) := read_groups (8 - (length head + 1)) 0 rest in
        Some (V6 (head ++ replicate (8 - length head - length tail) 0 ++ tail), rest)
    end.

Definition parse_all {A} (m : reader A) (s : bytes) : option A :=
  match m s with Some (a, []) => Some a | _ => None end.

Definition parse_ip (s : bytes) : option IpAddr :=
  match read_ipv4 s with
  | Some (a, rest) => match rest with [] => Some a | _ => None end
  | None => parse_all read_ipv6 s
  end.

(** ** Writing and reading back *)

Definition show_ipv4 (a b c d : Z) : bytes := show_u64 a ++ [46] ++ show_u64 b ++ [46] ++ show_u64 c ++ [46] ++ show_u64 d.

(** A group in hexadecimal, without leading zeros. *)
Definition hex_digit (v : Z) : Z := if v <? 10 then 48 + v else 87 + v.
Definition show_group (g : Z) : bytes :=
  strip_zeros (map hex_digit [g / 4096 mod 16; g / 256 mod 16; g / 16 mod 16; g mod 16]).
Definition show_groups (gs : list Z) : bytes := join 58 (map show_group gs).

(** The first of the longest runs of zero groups, as its start and length. *)
Fixpoint longest_zeros (i : nat) (gs : list Z) (current longest : nat * nat) : nat * nat :=
  match gs with
  | [] => longest
  | g :: gs' =>
      if g =? 0 then
        let current := (match snd current with O => i | S _ => fst current end, S (snd current)) in
        longest_zeros (S i) gs' current (if Nat.ltb (snd longest) (snd current) then current else longest)
      else longest_zeros (S i) gs' (O, O) longest
  end.

(** [Display] of [Ipv6Addr]. *)
Definition show_ipv6 (gs : list Z) : bytes :=
  if bool_decide (take 6 gs = [0; 0; 0; 0; 0; 65535]) then
    let g6 := nth 6 gs 0 in let g7 := nth 7 gs 0 in
    lit "::ffff:" ++ show_ipv4 (g6 / 256) (g6 mod 256) (g7 / 256) (g7 mod 256)
  else
    let '(start, len) := longest_zeros 0 gs (O, O) (O, O) in
    if Nat.ltb 1 len then show_groups (take start gs) ++ lit "::" ++ show_groups (drop (start + len) gs)
    else show_groups gs.

Example shows_v6 : show_ipv6 [8193; 3512; 0; 0; 1; 0; 0; 1] = lit "2001:db8::1:0:0:1" /\ show_ipv6 [0; 0; 0; 0; 0; 0; 0; 1] = lit "::1" /\
  show_ipv6 [0; 0; 0; 0; 0; 0; 0; 0] = lit "::" /\ show_ipv6 [1; 0; 2; 3; 4; 5; 6; 7] = lit "1:0:2:3:4:5:6:7" /\
  show_ipv6 [65152; 0; 0; 0; 1; 2; 3; 4096] = lit "fe80::1:2:3:1000" /\ show_ipv6 [0; 0; 0; 0; 0; 65535; 49152; 513] = lit "::ffff:192.0.2.1".
Proof. vm_compute. repeat split. Qed.

Example loopback_v4 : parse_ip (lit "127.0.0.1") = Some (V4 127 0 0 1).
Proof. vm_compute. reflexivity. Qed.
Example no_leading_zero : parse_ip (lit "127.0.0.01") = None /\ parse_ip (lit "127.1") = None /\ parse_ip (lit "1.2.3.256") = None.
Proof. vm_compute. repeat split. Qed.
Example loopback_v6 : parse_ip (lit "::1") = Some (V6 [0; 0; 0; 0; 0; 0; 0; 1]).
Proof. vm_compute. reflexivity. Qed.
Example mapped_v6 : parse_ip (lit "::ffff:192.0.2.1") = Some (V6 [0; 0; 0; 0; 0; 65535; 49152; 513]).
Proof. vm_compute. reflexivity. Qed.
Example full_v6 : parse_ip (lit "2001:db8:0:0:1:0:0:1") = Some (V6 [8193; 3512; 0; 0; 1; 0; 0; 1]) /\
  parse_ip (lit "2001:db8::1:0:0:1") = Some (V6 [8193; 3512; 0; 0; 1; 0; 0; 1]) /\ parse_ip (lit "1::2::3") = None /\
  parse_ip (lit "1:2:3:4:5:6:7:8:9") = None /\ parse_ip (lit "12345::") = None /\ parse_ip (lit "1:2:3:4:5:6:7::") = Some (V6 [1; 2; 3; 4; 5; 6; 7; 0]).
Proof. vm_compute. repeat split. Qed.

(** An address read is well formed. *)
Definition ip_ok (ip : IpAddr) : Prop :=
  match ip with
  | V4 a b c d => Forall (fun x => 0 <= x < 256) [a; b; c; d]
  | V6 g => length g = 8%nat /\ Forall (fun x => 0 <= x < 65536) g
  end.

Lemma number_from_nonneg radix : 0 < radix -> forall s acc n v m rest, 0 <= acc -> number_from radix acc n s = (v, m, rest) -> 0 <= v.
Proof.
  intros Hr. induction s as [|b s IH]; intros acc n v m rest Ha; cbn [number_from]; [by intros [= <- _ _]|].
  unfold digit_of, hex_value. destruct (match _ with Some v => if v <? radix then Some v else None | None => None end) as [d|] eqn:Ed; [|by intros [= <- _ _]].
  apply IH. assert (0 <= d); [|nia].
  destruct (is_ascii_digit b) eqn:E1; [unfold is_ascii_digit in E1|].
  - destruct (b - 48 <? radix); [injection Ed as <-; lia|done].
  - destruct ((97 <=? b) && (b <=? 102)) eqn:E2; [destruct (b - 87 <? radix); [injection Ed as <-; lia|done]|].
    destruct ((65 <=? b) && (b <=? 70)) eqn:E3; [destruct (b - 55 <? radix); [injection Ed as <-; lia|done]|done].
Qed.

Lemma read_number_bounds radix bound k z s v rest : 0 < radix -> read_number radix bound k z s = Some (v, rest) -> 0 <= v < bound.
Proof.
  intros Hr. unfold read_number. destruct (number_from radix 0 0 s) as [[x n] r] eqn:E. destruct n as [|n]; [done|].
  destruct (_ || _) eqn:Hb; [done|]. intros [= <- _]. apply number_from_nonneg in E; [|done|done].
  apply orb_false_iff in Hb as [[_ Hb]%orb_false_iff _]. apply Z.leb_gt in Hb. lia.
Qed.

Lemma r_bind_Some {A B} (m : reader A) (k : A -> reader B) s b rest :
  r_bind m k s = Some (b, rest) -> exists a s', m s = Some (a, s') /\ k a s' = Some (b, rest).
Proof. unfold r_bind. destruct (m s) as [[a s']|]; [eauto|done]. Qed.

Lemma after_separator_Some {A} sep i (m : reader A) s a rest :
  after_separator sep i m s = Some (a, rest) -> exists s', m s' = Some (a, rest).
Proof. destruct i; cbn; [eauto|]. intros (? & s' & _ & H)%r_bind_Some. eauto. Qed.

Lemma octet_bounds s v rest : octet s = Some (v, rest) -> 0 <= v < 256.
Proof. by apply read_number_bounds. Qed.

Lemma read_ipv4_ok s ip rest : read_ipv4 s = Some (ip, rest) -> ip_ok ip.
Proof.
  unfold read_ipv4. intros (a & s1 & Ha & (b & s2 & Hb & (c & s3 & Hc & (d & s4 & Hd & [= <- _])%r_bind_Some)%r_bind_Some)%r_bind_Some)%r_bind_Some.
  apply after_separator_Some in Hb as [? Hb], Hc as [? Hc], Hd as [? Hd]. apply octet_bounds in Ha, Hb, Hc, Hd.
  cbn. do 4 (apply list.Forall_cons; split; [done|]). constructor.
Qed.

Lemma read_groups_ok limit : forall index s gs v4 rest,
  read_groups limit index s = (gs, v4, rest) -> (length gs <= limit)%nat /\ Forall (fun x => 0 <= x < 65536) gs.
Proof.
  induction limit as [|limit IH]; intros index s gs v4 rest; cbn [read_groups]; [intros [= <- _ _]; split; [done|constructor]|].
  assert (forall t, match after_separator 58 index (read_number 16 65536 4 true) t with
      | None => ([], false, t)
      | Some (g, rest) => let '(gs, v4, rest) := read_groups limit (S index) rest in (g :: gs, v4, rest) end = (gs, v4, rest) ->
      (length gs <= S limit)%nat /\ Forall (fun x => 0 <= x < 65536) gs) as Hgroup.
  { intros t. destruct (after_separator 58 index _ t) as [[g r]|] eqn:Eg; [|intros [= <- _ _]; split; [cbn; lia|constructor]].
    apply after_separator_Some in Eg as [? Eg]. apply read_number_bounds in Eg; [|done].
    destruct (read_groups limit (S index) r) as [[gs' v'] r'] eqn:Er. intros [= <- _ _]. apply IH in Er as [? ?].
    split; [cbn; lia|by constructor]. }
  destruct limit as [|limit]; [apply Hgroup|].
  destruct (after_separator 58 index read_ipv4 s) as [[[a b c d|g] r]|] eqn:E4; [|apply Hgroup|apply Hgroup].
  apply after_separator_Some in E4 as [? E4]. apply read_ipv4_ok in E4. cbn in E4.
  repeat match goal with H : Forall _ (_ :: _) |- _ => apply list.Forall_cons in H as [? ?] end.
  intros [= <- _ _]. split; [cbn; lia|]. do 2 (apply list.Forall_cons; split; [lia|]). constructor.
Qed.

(** Whatever text is read as an address, it is a well-formed one. *)
Lemma parse_ip_ok s ip : parse_ip s = Some ip -> ip_ok ip.
Proof.
  unfold parse_ip. destruct (read_ipv4 s) as [[a rest]|] eqn:E4.
  - apply read_ipv4_ok in E4. destruct rest; [by intros [= <-]|done].
  - unfold parse_all. destruct (read_ipv6 s) as [[a rest]|] eqn:E6; [|done]. destruct rest; [|done]. intros [= <-].
    unfold read_ipv6 in E6. destruct (read_groups 8 0 s) as [[head v4] r1] eqn:Eh. apply read_groups_ok in Eh as [Hlen Hh].
    destruct (bool_decide _) eqn:H8; [injection E6 as <- _; split; [by apply bool_decide_eq_true in H8|done]|].
    apply bool_decide_eq_false in H8. destruct v4; [done|]. destruct (r_bind _ _ r1) as [[u r2]|]; [|done].
    destruct (read_groups _ 0 r2) as [[tail v5] r3] eqn:Et. apply read_groups_ok in Et as [Htl Ht]. injection E6 as <- _. split.
    + rewrite !length_app, length_replicate. lia.
    + apply list.Forall_app. split; [done|]. apply list.Forall_app. split; [|done]. apply Forall_replicate. lia.
Qed.

(** Either kind of address, as text. *)
Definition show_ip (ip : IpAddr) : bytes := match ip with V4 a b c d => show_ipv4 a b c d | V6 g => show_ipv6 g end.
