(* ===== verification/BTree.v ===== *)
(** * [BTreeMap] and [BTreeSet]: sorted association lists

    Where the code iterates over an ordered map, the map is the list of its entries
    by increasing key.  Inserting replaces the value of a key that is present, and
    collecting pairs inserts them one after the other. *)

From S2P Require Import Prelude Text.

#[local] Set Warnings "-notation-overridden".

(** A strict total order, decided by a boolean. *)
Class KeyOrder (K : Type) := {
  key_eq_dec :: EqDecision K;
  key_ltb : K -> K -> bool;
  key_ltb_trans : forall a b c, key_ltb a b = true -> key_ltb b c = true -> key_ltb a c = true;
  key_ltb_irrefl : forall a, key_ltb a a = false;
  key_ltb_total : forall a b, key_ltb a b = false -> key_ltb b a = false -> a = b }.

Section btree.
Context {K : Type} {O : KeyOrder K} {V : Type}.

Fixpoint bt_insert (k : K) (v : V) (m : list (K * V)) : list (K * V) :=
  match m with
  | [] => [(k, v)]
  | (k', v') :: m' =>
      if key_ltb k k' then (k, v) :: m
      else if bool_decide (k = k') then (k, v) :: m'
      else (k', v') :: bt_insert k v m'
  end.

Definition bt_get (k : K) (m : list (K * V)) : option V :=
  option_map snd (find_by (fun e => bool_decide (fst e = k)) m).

Definition bt_of_list (l : list (K * V)) : list (K * V) := fold_left (fun m e => bt_insert (fst e) (snd e) m) l [].

(** Keys strictly increase. *)
Fixpoint bt_sorted (m : list (K * V)) : Prop :=
  match m with
  | [] => True
  | e :: m' => Forall (fun e' => key_ltb (fst e) (fst e') = true) m' /\ bt_sorted m'
  end.

Lemma bt_insert_forall (P : K -> Prop) k v m : P k -> Forall (fun e => P (fst e)) m -> Forall (fun e => P (fst e)) (bt_insert k v m).
Proof.
  intros Hk. induction 1 as [|[k' v'] m Hk' Hm IH]; cbn [bt_insert]; [by repeat constructor|].
  destruct (key_ltb k k'); [by repeat constructor|]. destruct (bool_decide _); [by constructor|]. by constructor.
Qed.

Lemma bt_insert_sorted k v m : bt_sorted m -> bt_sorted (bt_insert k v m).
Proof.
  induction m as [|[k' v'] m IH]; cbn [bt_insert]; [done|]. intros [Hm Hs]. destruct (key_ltb k k') eqn:Hlt.
  - split; [|done]. constructor; [done|]. eapply Forall_impl; [|exact Hm]. cbn. intros e He. by eapply key_ltb_trans.
  - destruct (bool_decide (k = k')) eqn:He; [apply bool_decide_eq_true in He as ->; by split|].
    split; [|by apply IH]. apply bool_decide_eq_false in He. apply (bt_insert_forall (fun x => key_ltb k' x = true)); [|done].
    destruct (key_ltb k' k) eqn:Hgt; [done|]. destruct He. by apply key_ltb_total.
Qed.

Lemma bt_of_list_sorted l : bt_sorted (bt_of_list l).
Proof.
  unfold bt_of_list. assert (bt_sorted []) as H by done. revert H. generalize (@nil (K * V)).
  induction l as [|e l IH]; intros m Hm; [done|]. cbn. apply IH. by apply bt_insert_sorted.
Qed.

Lemma bt_get_insert k v k' m : bt_get k' (bt_insert k v m) = if bool_decide (k = k') then Some v else bt_get k' m.
Proof.
  induction m as [|[k2 v2] m IH]; unfold bt_get in *; cbn [bt_insert find_by fst].
  - cbn. by destruct (bool_decide (k = k')).
  - destruct (key_ltb k k2) eqn:Hlt; cbn [find_by fst snd option_map].
    + by destruct (bool_decide (k = k')).
    + destruct (bool_decide (k = k2)) eqn:He; cbn [find_by fst].
      * apply bool_decide_eq_true in He as ->. by destruct (bool_decide (k2 = k')).
      * destruct (bool_decide (k2 = k')) eqn:H2; [|done]. apply bool_decide_eq_true in H2 as ->. by rewrite He.
Qed.

Lemma bt_sorted_nodup m : bt_sorted m -> NoDup (map fst m).
Proof.
  induction m as [|[k v] m IH]; cbn; [constructor|]. intros [Hm Hs]. apply list.NoDup_cons. split; [|by apply IH].
  intros Hin. apply list_elem_of_fmap_1 in Hin as ([k' v'] & -> & Hin). rewrite list.Forall_forall in Hm.
  specialize (Hm _ Hin). cbn in Hm. by rewrite key_ltb_irrefl in Hm.
Qed.

Lemma bt_insert_elem k v e m : e ∈ bt_insert k v m -> e = (k, v) \/ e ∈ m.
Proof.
  induction m as [|[k' v'] m IH]; cbn [bt_insert]; [set_solver|]. destruct (key_ltb k k'); [set_solver|].
  destruct (bool_decide _); [set_solver|]. intros [->|Hin]%elem_of_cons; [set_solver|]. destruct (IH Hin); set_solver.
Qed.

Lemma bt_of_list_elem l e : e ∈ bt_of_list l -> e ∈ l.
Proof.
  unfold bt_of_list. enough (forall m, e ∈ fold_left (fun m e => bt_insert (fst e) (snd e) m) l m -> e ∈ m \/ e ∈ l) as H.
  { intros [?%not_elem_of_nil|?]%H; done. }
  induction l as [|[k v] l IH]; intros m; cbn; [auto|]. intros [H|H]%IH; [|set_solver].
  apply bt_insert_elem in H as [->|?]; set_solver.
Qed.

Lemma bt_get_elem k v m : bt_get k m = Some v -> (k, v) ∈ m.
Proof.
  unfold bt_get. induction m as [|[k' v'] m IH]; cbn [find_by fst]; [done|]. destruct (bool_decide (k' = k)) eqn:E; cbn.
  - apply bool_decide_eq_true in E as ->. intros [= ->]. set_solver.
  - intros H%IH. set_solver.
Qed.
End btree.

(** ** The orders the code uses *)

#[export] Instance Z_order : KeyOrder Z.
Proof. refine {| key_ltb := Z.ltb |}; intros; lia. Defined.

(** Texts and object identifiers: by their first difference, a prefix first. *)
Fixpoint list_ltb (a b : list Z) : bool :=
  match a, b with
  | _, [] => false
  | [], _ :: _ => true
  | x :: a', y :: b' => (x <? y) || ((x =? y) && list_ltb a' b')
  end.

#[export] Instance list_order : KeyOrder (list Z).
Proof.
  refine {| key_ltb := list_ltb |}.
  - induction a as [|x a IH]; intros [|y b] [|z c]; cbn; try done. intros H1 H2.
    apply orb_true_iff in H1, H2. apply orb_true_iff. destruct H1 as [H1|[H1 H1']%andb_true_iff], H2 as [H2|[H2 H2']%andb_true_iff].
    + left. lia.
    + left. lia.
    + left. lia.
    + right. apply andb_true_iff. split; [lia|]. by eapply IH.
  - induction a as [|x a IH]; cbn; [done|]. rewrite IH. lia.
  - induction a as [|x a IH]; intros [|y b]; cbn; try done. intros [H1 H1']%orb_false_iff [H2 H2']%orb_false_iff.
    assert (x = y) as -> by lia. rewrite Z.eqb_refl in *. cbn in *. f_equal. by apply IH.
Defined.

#[export] Instance pair_order {A B} {OA : KeyOrder A} {OB : KeyOrder B} : KeyOrder (A * B).
Proof.
  refine {| key_ltb := fun p q => key_ltb (fst p) (fst q) || (bool_decide (fst p = fst q) && key_ltb (snd p) (snd q)) |}.
  - intros [a1 b1] [a2 b2] [a3 b3]. cbn. intros [H1|[H1%bool_decide_eq_true H1']%andb_true_iff]%orb_true_iff [H2|[H2%bool_decide_eq_true H2']%andb_true_iff]%orb_true_iff;
      apply orb_true_iff; subst; auto.
    + left. by eapply key_ltb_trans.
    + right. rewrite bool_decide_eq_true_2 by done. cbn. by eapply key_ltb_trans.
  - intros [a b]. cbn. by rewrite !key_ltb_irrefl, andb_false_r.
  - intros [a1 b1] [a2 b2]. cbn. intros [H1 H1']%orb_false_iff [H2 H2']%orb_false_iff.
    assert (a1 = a2) as -> by by apply key_ltb_total. rewrite !bool_decide_eq_true_2 in * by done. cbn in *. f_equal. by apply key_ltb_total.
Defined.

(** Collecting entries that are already in order changes nothing. *)
Lemma bt_insert_last {K V} `{KeyOrder K} (k : K) (v : V) m :
  Forall (fun e : K * V => key_ltb (fst e) k = true) m -> bt_insert k v m = m ++ [(k, v)].
Proof.
  induction 1 as [|[k' v'] m Hk Hm IH]; [done|]. cbn [bt_insert app fst] in *. cbn in Hk.
  destruct (key_ltb k k') eqn:E; [pose proof (key_ltb_trans _ _ _ Hk E) as Hc; by rewrite key_ltb_irrefl in Hc|].
  rewrite bool_decide_eq_false_2; [by rewrite IH|]. intros ->. by rewrite key_ltb_irrefl in Hk.
Qed.

Lemma bt_of_list_id {K V} `{KeyOrder K} (m : list (K * V)) : bt_sorted m -> bt_of_list m = m.
Proof.
  unfold bt_of_list. enough (forall acc, bt_sorted (acc ++ m) -> fold_left (fun m e => bt_insert (fst e) (snd e) m) m acc = acc ++ m) as Hg.
  { intros Hs. by apply (Hg []). }
  induction m as [|[k v] m IH]; intros acc Hs; cbn [fold_left fst snd]; [by rewrite app_nil_r|].
  rewrite bt_insert_last.
  - rewrite IH; by rewrite <- app_assoc.
  - clear IH. induction acc as [|e acc IHa]; [constructor|]. destruct Hs as [He Hs]. constructor; [|by apply IHa].
    rewrite list.Forall_forall in He. apply (He (k, v)). set_solver.
Qed.

Lemma bt_insert_insert {K V} `{KeyOrder K} (k : K) (v w : V) m : bt_insert k w (bt_insert k v m) = bt_insert k w m.
Proof.
  induction m as [|[k' v'] m IH]; cbn [bt_insert]; [by rewrite key_ltb_irrefl, bool_decide_eq_true_2|].
  destruct (key_ltb k k') eqn:E; cbn [bt_insert]; [by rewrite key_ltb_irrefl, bool_decide_eq_true_2|].
  destruct (bool_decide (k = k')) eqn:E2; cbn [bt_insert]; [by rewrite key_ltb_irrefl, bool_decide_eq_true_2|]. by rewrite E, E2, IH.
Qed.

Lemma bt_get_none {K V} `{KeyOrder K} (k : K) (m : list (K * V)) : Forall (fun e => key_ltb k (fst e) = true) m -> bt_get k m = None.
Proof.
  unfold bt_get. induction 1 as [|[k' v'] m Hk _ IH]; [done|]. cbn [find_by fst] in *. rewrite bool_decide_eq_false_2; [done|]. intros ->. by rewrite key_ltb_irrefl in Hk.
Qed.

(** Maps with the same entries are the same list. *)
Lemma bt_ext {K V} `{KeyOrder K} (m n : list (K * V)) : bt_sorted m -> bt_sorted n -> (forall k, bt_get k m = bt_get k n) -> m = n.
Proof.
  revert n. induction m as [|[k v] m IH]; intros [|[k' v'] n]; [done| | |].
  - intros _ _ Hg. specialize (Hg k'). unfold bt_get in Hg. cbn [find_by fst] in Hg. by rewrite bool_decide_eq_true_2 in Hg.
  - intros _ _ Hg. specialize (Hg k). unfold bt_get in Hg. cbn [find_by fst] in Hg. by rewrite bool_decide_eq_true_2 in Hg.
  - intros [Hm Hsm] [Hn Hsn] Hg. cbn [fst] in *. assert (bt_get_cons : forall j x y l, bt_get j ((x, y) :: l) = if bool_decide (x = j) then Some y else @bt_get K _ V j l).
    { intros j x y l. unfold bt_get. cbn [find_by fst]. by destruct (bool_decide (x = j)). }
    assert (k = k') as <-.
    { destruct (key_ltb k k') eqn:E1; [|destruct (key_ltb k' k) eqn:E2; [|by apply key_ltb_total]].
      - specialize (Hg k). rewrite !bt_get_cons, bool_decide_eq_true_2 in Hg by done. rewrite bool_decide_eq_false_2 in Hg by (intros ->; by rewrite key_ltb_irrefl in E1).
        rewrite bt_get_none in Hg; [done|]. eapply Forall_impl; [|exact Hn]. cbv beta. intros e He. by eapply key_ltb_trans.
      - specialize (Hg k'). rewrite !bt_get_cons in Hg. rewrite bool_decide_eq_false_2 in Hg by (intros ->; by rewrite key_ltb_irrefl in E2).
        rewrite bool_decide_eq_true_2 in Hg by done. rewrite bt_get_none in Hg; [done|]. eapply Forall_impl; [|exact Hm]. cbv beta. intros e He. by eapply key_ltb_trans. }
    pose proof (Hg k) as Hk. rewrite !bt_get_cons, bool_decide_eq_true_2 in Hk by done. injection Hk as <-. f_equal. apply IH; [done|done|].
    intros j. specialize (Hg j). rewrite !bt_get_cons in Hg. destruct (bool_decide (k = j)) eqn:E; [|done]. apply bool_decide_eq_true in E as <-.
    by rewrite !bt_get_none.
Qed.
