(* ===== verification/JsonValue.v ===== *)
(** * JSON values, as [serde_json] has them

    Objects are ordered maps.  Reading JSON text and printing a float are the crate's
    and are parameters. *)

From Stdlib Require Import String SpecFloat.
From S2P Require Import Prelude Text Floats BTree.

#[local] Set Warnings "-notation-overridden".

#[local] Set Warnings "-register-all".

Inductive Number := PosInt (n : Z) | NegInt (z : Z) | FloatNum (f : f64).

Inductive Value :=
| VNull
| VBool (b : bool)
| VNumber (n : Number)
| VString (s : bytes)
| VArray (l : list Value)
| VObject (fields : list (bytes * Value)).

(** Induction through arrays and objects. *)
Section Value_ind'.
Variable P : Value -> Prop.
Hypotheses (Hnull : P VNull) (Hbool : forall b, P (VBool b)) (Hnum : forall n, P (VNumber n)) (Hstr : forall s, P (VString s))
  (Harr : forall l, Forall P l -> P (VArray l)) (Hobj : forall fs, Forall (fun e => P (snd e)) fs -> P (VObject fs)).
Fixpoint Value_ind' (v : Value) : P v :=
  match v with
  | VNull => Hnull
  | VBool b => Hbool b
  | VNumber n => Hnum n
  | VString s => Hstr s
  | VArray l => Harr l ((fix go l : Forall P l := match l with [] => List.Forall_nil P | x :: l' => @List.Forall_cons _ P x l' (Value_ind' x) (go l') end) l)
  | VObject fs => Hobj fs ((fix go l : Forall (fun e => P (snd e)) l :=
      match l with [] => List.Forall_nil _ | x :: l' => @List.Forall_cons _ (fun e => P (snd e)) x l' (Value_ind' (snd x)) (go l') end) fs)
  end.
End Value_ind'.

(** [serde_json]: its reader, and the text of a float. *)
Class SerdeJson := {
  from_slice : bytes -> result Value bytes;
  show_float : f64 -> bytes }.

(** [Value::get] with a name. *)
Definition get (v : Value) (name : bytes) : option Value := match v with VObject fs => bt_get name fs | _ => None end.

(** ** Accessors *)

Definition or_null (o : option Value) : Value := match o with Some v => v | None => VNull end.
(** [value["key"]]: null where there is nothing. *)
Definition at_key (v : Value) (key : bytes) : Value := or_null (get v key).
Definition member (v : Value) (key : string) : Value := at_key v (lit key).
Definition as_str (v : Value) : option bytes := match v with VString s => Some s | _ => None end.
Definition as_array (v : Value) : option (list Value) := match v with VArray l => Some l | _ => None end.
Definition as_u64 (v : Value) : option Z := match v with VNumber (PosInt n) => Some n | _ => None end.
Definition as_f64 (v : Value) : option f64 :=
  match v with VNumber (PosInt n) => Some (f64_of_Z n) | VNumber (NegInt z) => Some (f64_of_Z z) | VNumber (FloatNum f) => Some f | _ => None end.
Definition is_null (v : Value) : bool := match v with VNull => true | _ => false end.
Definition first_of (v : Value) : option Value := let+ l := as_array v in head l.

(** [value[i]] and [as_bool]. *)
Definition at_index (v : Value) (i : nat) : Value := match v with VArray l => match l !! i with Some x => x | None => VNull end | _ => VNull end.
Definition as_bool (v : Value) : option bool := match v with VBool b => Some b | _ => None end.
(** [json!({..})]: an object of the given fields. *)
Definition json_object (fields : list (string * Value)) : Value := VObject (bt_of_list (map (fun e : string * Value => (lit (fst e), snd e)) fields)).
(** An [Option] serialised: [null] for [None]. *)
Definition or_json {A} (f : A -> Value) (o : option A) : Value := match o with Some a => f a | None => VNull end.
