(* ===== verification/Thrift.v ===== *)
(** * osquery/thrift.rs: the Thrift binary protocol subset

    Messages are written to and read from byte streams.  A stream is the bytes
    a reader will still deliver and what follows them: end of file, or an I/O
    failure such as a timeout.  The reader is a state-and-error computation on
    the stream; a value being written is the bytes a writer receives.

    [read_value] recurses once per nesting level and stops at [MAX_DEPTH]; its
    struct loop takes at least one byte per round, so the number of bytes left
    is enough fuel ([read_value_never_out_of_fuel]). *)

From Stdlib Require Import String.
From S2P Require Import Prelude Text.

Definition VERSION_1 : Z := 0x80010000.
Definition VERSION_MASK : Z := 0xffff0000.

Definition CALL : Z := 1.
Definition REPLY : Z := 2.
Definition EXCEPTION : Z := 3.

Definition STOP : Z := 0.
Definition BOOL : Z := 2.
Definition BYTE : Z := 3.
Definition DOUBLE : Z := 4.
Definition I16 : Z := 6.
Definition I32 : Z := 8.
Definition I64 : Z := 10.
Definition STRING : Z := 11.
Definition STRUCT : Z := 12.
Definition MAP : Z := 13.
Definition SET : Z := 14.
Definition LIST : Z := 15.

Definition MAX_REPLY_BYTES : Z := 16 * 1024 * 1024.
Definition MAX_DEPTH : nat := 16.
Definition MAX_ELEMENTS : Z := Z.shiftl 1 20.

#[local] Set Warnings "-register-all".

(** A decoded value.  A [Double] carries its 64 bits. *)
Inductive Value : Type :=
| VBool (b : bool)
| VByte (z : Z)
| VI16 (z : Z)
| VI32 (z : Z)
| VI64 (z : Z)
| VDouble (bits : Z)
| VString (s : bytes)
| VStruct (fields : list (Z * Value))
| VMap (key value : Z) (entries : list (Value * Value))
| VList (element : Z) (items : list Value).

Definition type_id (v : Value) : Z :=
  match v with
  | VBool _ => BOOL
  | VByte _ => BYTE
  | VI16 _ => I16
  | VI32 _ => I32
  | VI64 _ => I64
  | VDouble _ => DOUBLE
  | VString _ => STRING
  | VStruct _ => STRUCT
  | VMap _ _ _ => MAP
  | VList _ _ => LIST
  end.

(** [Value::field]: the first field with the id. *)
Definition field (v : Value) (id : Z) : option Value :=
  match v with
  | VStruct fields => snd <$> find_by (fun f => fst f =? id) fields
  | _ => None
  end.

Definition as_i32 (v : Value) : option Z :=
  match v with VI32 z => Some z | _ => None end.
(** [Value::as_str]: invalid UTF-8 is replaced, never refused. *)
Definition as_str (v : Value) : option bytes :=
  match v with VString s => Some (from_utf8_lossy s) | _ => None end.
Definition as_list (v : Value) : option (list Value) :=
  match v with VList _ items => Some items | _ => None end.
Definition as_map (v : Value) : option (list (Value * Value)) :=
  match v with VMap _ _ entries => Some entries | _ => None end.

Record Header := mkHeader { kind : Z; name : bytes; seqid : Z }.

(** ** Writing *)

Definition write_bytes (bs : bytes) : bytes := be_bytes 4 (zlength bs) ++ bs.

Fixpoint write_value (v : Value) : bytes :=
  match v with
  | VBool b => [if b then 1 else 0]
  | VByte z => be_bytes 1 z
  | VI16 z => be_bytes 2 z
  | VI32 z => be_bytes 4 z
  | VI64 z => be_bytes 8 z
  | VDouble bits => be_bytes 8 bits
  | VString s => write_bytes s
  | VStruct fields =>
      concat (map (fun '(id, v) => type_id v :: be_bytes 2 id ++ write_value v) fields)
      ++ [STOP]
  | VMap key value entries =>
      [key; value] ++ be_bytes 4 (zlength entries)
      ++ concat (map (fun '(k, v) => write_value k ++ write_value v) entries)
  | VList element items =>
      [element] ++ be_bytes 4 (zlength items) ++ concat (map write_value items)
  end.

Definition write_struct (fields : list (Z * Value)) : bytes :=
  concat (map (fun '(id, v) => type_id v :: be_bytes 2 id ++ write_value v) fields)
  ++ [STOP].

Definition write_message (kind : Z) (name : bytes) (seqid : Z) (body : list (Z * Value))
  : bytes :=
  be_bytes 4 (Z.lor VERSION_1 kind) ++ write_bytes name ++ be_bytes 4 seqid
  ++ write_struct body.

(** ** Reading *)

Inductive io_error : Type :=
| InvalidData (message : bytes)
| UnexpectedEof
| OtherIo (code : Z)
| OutOfFuel.

Definition invalid (message : string) : io_error := InvalidData (lit message).

Record stream := mkStream { data : bytes; ending : option io_error }.

(** [Read::take]: at most [n] bytes, then end of file. *)
Definition take_stream (n : Z) (s : stream) : stream :=
  if n <=? zlength (data s)
  then mkStream (take (Z.to_nat n) (data s)) None
  else s.

Abbreviation reader := (ST stream io_error).

(** [read_exact] into an array of [n] bytes. *)
Definition read_array (n : nat) : reader bytes := fun s =>
  if Nat.leb n (length (data s))
  then (mkStream (drop n (data s)) (ending s), Ok (take n (data s)))
  else (mkStream [] (ending s),
        Err match ending s with Some e => e | None => UnexpectedEof end).

Definition read_i32 : reader Z :=
  let* b := read_array 4 in st_ret (swrap 32 (be_value b)).

(** [(&mut *input).take(len).read_to_end(&mut bytes)]. *)
Definition read_to_end_taking (len : Z) : reader bytes := fun s =>
  if len <=? zlength (data s)
  then (mkStream (drop (Z.to_nat len) (data s)) (ending s),
        Ok (take (Z.to_nat len) (data s)))
  else (mkStream [] (ending s),
        match ending s with Some e => Err e | None => Ok (data s) end).

Definition read_bytes : reader bytes :=
  let* len := read_i32 in
  if len <? 0 then st_err (invalid "negative string length")
  else if MAX_REPLY_BYTES <? len then st_err (invalid "string longer than a reply may be")
  else
    let* bs := read_to_end_taking len in
    if zlength bs =? len then st_ret bs else st_err UnexpectedEof.

Definition read_size : reader Z :=
  let* size := read_i32 in
  if (0 <=? size) && (size <=? MAX_ELEMENTS) then st_ret size
  else st_err (invalid "container size out of range").

(** [for _ in 0..n { out.push(item()?) }]. *)
Fixpoint read_n {A} (n : nat) (item : reader A) : reader (list A) :=
  match n with
  | O => st_ret []
  | S n' =>
      let* a := item in
      let* rest := read_n n' item in
      st_ret (a :: rest)
  end.

(** The struct loop: fields until [STOP]. *)
Fixpoint read_fields (fuel : nat) (field_value : Z -> reader Value)
  : reader (list (Z * Value)) :=
  match fuel with
  | O => st_err OutOfFuel
  | S fuel' =>
      let* b := read_array 1 in
      let field_kind := be_value b in
      if field_kind =? STOP then st_ret []
      else
        let* raw := read_array 2 in
        let id := swrap 16 (be_value raw) in
        let* v := field_value field_kind in
        let* rest := read_fields fuel' field_value in
        st_ret ((id, v) :: rest)
  end.

(** [levels] is how many more nesting levels the reply may use: [MAX_DEPTH + 1
    - depth] in the source's terms. *)
Fixpoint read_value_at (levels : nat) (kind : Z) : reader Value :=
  match levels with
  | O => st_err (invalid "reply nests too deeply")
  | S levels' =>
      if kind =? BOOL then
        let* b := read_array 1 in st_ret (VBool (negb (be_value b =? 0)))
      else if kind =? BYTE then
        let* b := read_array 1 in st_ret (VByte (swrap 8 (be_value b)))
      else if kind =? I16 then
        let* b := read_array 2 in st_ret (VI16 (swrap 16 (be_value b)))
      else if kind =? I32 then
        let* z := read_i32 in st_ret (VI32 z)
      else if kind =? I64 then
        let* b := read_array 8 in st_ret (VI64 (swrap 64 (be_value b)))
      else if kind =? DOUBLE then
        let* b := read_array 8 in st_ret (VDouble (be_value b))
      else if kind =? STRING then
        let* bs := read_bytes in st_ret (VString bs)
      else if kind =? STRUCT then
        let* s := st_get in
        let* fields := read_fields (S (length (data s))) (read_value_at levels') in
        st_ret (VStruct fields)
      else if kind =? MAP then
        let* kv := read_array 2 in
        let key := be_value (take 1 kv) in
        let value := be_value (drop 1 kv) in
        let* size := read_size in
        let* entries := read_n (Z.to_nat size)
          (let* k := read_value_at levels' key in
           let* v := read_value_at levels' value in
           st_ret (k, v)) in
        st_ret (VMap key value entries)
      else if (kind =? LIST) || (kind =? SET) then
        let* b := read_array 1 in
        let element := be_value b in
        let* size := read_size in
        let* items := read_n (Z.to_nat size) (read_value_at levels' element) in
        st_ret (VList element items)
      else st_err (InvalidData (lit "unknown Thrift type " ++ show_u64 kind))
  end.

Definition read_value (kind : Z) (depth : nat) : reader Value :=
  read_value_at (S MAX_DEPTH - depth) kind.

Definition read_message_limited : reader (Header * Value) :=
  let* raw := read_i32 in
  let word := wrap 32 raw in
  if negb (Z.land word VERSION_MASK =? VERSION_1)
  then st_err (invalid "not a strict Thrift binary message")
  else
    let kind := Z.land word 0xff in
    let* raw_name := read_bytes in
    let* name := st_of_result (ok_or (from_utf8 raw_name) (invalid "method name is not UTF-8")) in
    let* seqid := read_i32 in
    let* body := read_value STRUCT 0 in
    st_ret (mkHeader kind name seqid, body).

(** The limited reader consumes from the underlying one. *)
Definition read_message : reader (Header * Value) := fun s =>
  let limited := take_stream MAX_REPLY_BYTES s in
  let '(rest, r) := read_message_limited limited in
  (mkStream (drop (length (data limited) - length (data rest)) (data s)) (ending s), r).

(** ** Well-formed values

    What the protocol can carry: numbers in range, sizes a reply may declare,
    container elements of the declared type. *)

Fixpoint value_wf (v : Value) : bool :=
  match v with
  | VBool _ => true
  | VByte z => in_s 8 z
  | VI16 z => in_s 16 z
  | VI32 z => in_s 32 z
  | VI64 z => in_s 64 z
  | VDouble bits => in_u 64 bits
  | VString s => forallb is_byte s && (zlength s <=? MAX_REPLY_BYTES)
  | VStruct fields => forallb (fun '(id, w) => in_s 16 id && value_wf w) fields
  | VMap key value entries =>
      is_byte key && is_byte value && (zlength entries <=? MAX_ELEMENTS) &&
      forallb (fun '(k, w) => (type_id k =? key) && value_wf k
                              && (type_id w =? value) && value_wf w) entries
  | VList element items =>
      is_byte element && (zlength items <=? MAX_ELEMENTS) &&
      forallb (fun w => (type_id w =? element) && value_wf w) items
  end.

(** Nesting below the value: 0 for a scalar. *)
Fixpoint value_depth (v : Value) : nat :=
  match v with
  | VStruct fields => list_max (map (fun '(_, w) => S (value_depth w)) fields)
  | VMap _ _ entries =>
      list_max (map (fun '(k, w) => S (Nat.max (value_depth k) (value_depth w))) entries)
  | VList _ items => list_max (map (fun w => S (value_depth w)) items)
  | _ => O
  end.

(** The number of values a value is made of. *)
Fixpoint value_nodes (v : Value) : nat :=
  S match v with
    | VStruct fields => list_sum (map (fun '(_, w) => value_nodes w) fields)
    | VMap _ _ entries =>
        list_sum (map (fun '(k, w) => value_nodes k + value_nodes w)%nat entries)
    | VList _ items => list_sum (map value_nodes items)
    | _ => O
    end.

Section value_induction.
Context (P : Value -> Prop).
Hypothesis Hbool : forall b, P (VBool b).
Hypothesis Hbyte : forall z, P (VByte z).
Hypothesis Hi16 : forall z, P (VI16 z).
Hypothesis Hi32 : forall z, P (VI32 z).
Hypothesis Hi64 : forall z, P (VI64 z).
Hypothesis Hdouble : forall z, P (VDouble z).
Hypothesis Hstring : forall s, P (VString s).
Hypothesis Hstruct : forall fs, Forall (fun f => P (snd f)) fs -> P (VStruct fs).
Hypothesis Hmap : forall k v es, Forall (fun e => P (fst e) /\ P (snd e)) es -> P (VMap k v es).
Hypothesis Hlist : forall e l, Forall P l -> P (VList e l).

Fixpoint value_ind_nested (v : Value) : P v :=
  match v with
  | VBool b => Hbool b
  | VByte z => Hbyte z
  | VI16 z => Hi16 z
  | VI32 z => Hi32 z
  | VI64 z => Hi64 z
  | VDouble z => Hdouble z
  | VString s => Hstring s
  | VStruct fs => Hstruct fs
      ((fix go l : Forall (fun f => P (snd f)) l :=
          match l with
          | [] => List.Forall_nil _
          | f :: l' => @List.Forall_cons _ _ f l' (value_ind_nested (snd f)) (go l')
          end) fs)
  | VMap k w es => Hmap k w es
      ((fix go l : Forall (fun e => P (fst e) /\ P (snd e)) l :=
          match l with
          | [] => List.Forall_nil _
          | e :: l' => @List.Forall_cons _ _ e l'
              (conj (value_ind_nested (fst e)) (value_ind_nested (snd e))) (go l')
          end) es)
  | VList e l => Hlist e l
      ((fix go l : Forall P l :=
          match l with
          | [] => List.Forall_nil _
          | w :: l' => @List.Forall_cons _ _ w l' (value_ind_nested w) (go l')
          end) l)
  end.
End value_induction.

(** ** Reader lemmas *)

Lemma read_array_app n bs rest e :
  length bs = n -> read_array n (mkStream (bs ++ rest) e) = (mkStream rest e, Ok bs).
Proof.
  intros <-. unfold read_array. simpl.
  rewrite length_app. replace (Nat.leb _ _) with true by (symmetry; apply Nat.leb_le; lia).
  by rewrite drop_app_length, take_app_length.
Qed.

(** The bytes of a number, read back at its width. *)
Lemma read_be_bytes n z rest e :
  read_array n (mkStream (be_bytes n z ++ rest) e) = (mkStream rest e, Ok (be_bytes n z)).
Proof. apply read_array_app, length_be_bytes. Qed.

Lemma swrap_be_bytes (n : nat) w z :
  w = 8 * Z.of_nat n -> (0 < n)%nat -> in_s w z = true ->
  swrap w (be_value (be_bytes n z)) = z.
Proof.
  intros -> Hn Hz. rewrite be_value_be_bytes. replace (256 ^ Z.of_nat n) with (2 ^ (8 * Z.of_nat n))
    by (by rewrite Z.pow_mul_r by lia).
  rewrite <- (swrap_id (8 * Z.of_nat n) z ltac:(lia) Hz) at 2.
  unfold swrap. by rewrite Zmod_mod.
Qed.

Lemma read_i32_be z rest e :
  in_s 32 z = true -> read_i32 (mkStream (be_bytes 4 z ++ rest) e) = (mkStream rest e, Ok z).
Proof.
  intros Hz. unfold read_i32. rewrite (st_bind_ok _ _ _ _ _ (read_be_bytes 4 z rest e)).
  unfold st_ret. do 2 f_equal. apply (swrap_be_bytes 4); done || lia.
Qed.

Lemma MAX_REPLY_BYTES_i32 z : 0 <= z <= MAX_REPLY_BYTES -> in_s 32 z = true.
Proof. intros H. apply in_s_spec. unfold MAX_REPLY_BYTES in *. lia. Qed.

Lemma MAX_ELEMENTS_value : MAX_ELEMENTS = 1048576.
Proof. reflexivity. Qed.

Lemma read_bytes_write s rest e :
  zlength s <= MAX_REPLY_BYTES ->
  read_bytes (mkStream (write_bytes s ++ rest) e) = (mkStream rest e, Ok s).
Proof.
  intros Hs. unfold read_bytes, write_bytes. rewrite <- app_assoc.
  assert (0 <= zlength s) by (unfold zlength; lia).
  erewrite st_bind_ok by (apply read_i32_be, MAX_REPLY_BYTES_i32; lia).
  destruct (Z.ltb_spec (zlength s) 0); [lia|].
  destruct (Z.ltb_spec MAX_REPLY_BYTES (zlength s)); [lia|].
  assert (read_to_end_taking (zlength s) (mkStream (s ++ rest) e) = (mkStream rest e, Ok s)) as Hr.
  { unfold read_to_end_taking, zlength. simpl. rewrite length_app, Nat2Z.id.
    replace (_ <=? _) with true by (symmetry; apply Z.leb_le; lia).
    by rewrite drop_app_length, take_app_length. }
  rewrite (st_bind_ok _ _ _ _ _ Hr), Z.eqb_refl. done.
Qed.

Lemma read_size_be n rest e :
  0 <= n <= MAX_ELEMENTS ->
  read_size (mkStream (be_bytes 4 n ++ rest) e) = (mkStream rest e, Ok n).
Proof.
  intros Hn. unfold read_size. rewrite MAX_ELEMENTS_value in *.
  erewrite st_bind_ok by (apply read_i32_be, in_s_spec; lia).
  replace ((0 <=? n) && (n <=? 1048576)) with true
    by (symmetry; apply andb_true_iff; rewrite !Z.leb_le; lia).
  done.
Qed.

(** A run of items, each of which reads back as written. *)
Lemma read_n_concat {A} (item : reader A) (enc : A -> bytes) l rest e :
  Forall (fun a => forall r, item (mkStream (enc a ++ r) e) = (mkStream r e, Ok a)) l ->
  read_n (length l) item (mkStream (concat (map enc l) ++ rest) e) = (mkStream rest e, Ok l).
Proof.
  induction 1 as [|a l Ha _ IH]; [done|]. simpl. rewrite <- app_assoc.
  rewrite (st_bind_ok _ _ _ _ _ (Ha _)), (st_bind_ok _ _ _ _ _ IH). done.
Qed.

(** The struct loop on the fields it wrote, given fuel for each and the stop. *)
Lemma read_fields_concat item fs rest e fuel :
  (length fs < fuel)%nat ->
  Forall (fun f => in_s 16 (fst f) = true /\ in_u 8 (type_id (snd f)) = true /\
                   type_id (snd f) <> STOP /\
                   forall r, item (type_id (snd f)) (mkStream (write_value (snd f) ++ r) e)
                             = (mkStream r e, Ok (snd f))) fs ->
  read_fields fuel item (mkStream (write_struct fs ++ rest) e) = (mkStream rest e, Ok fs).
Proof.
  intros Hf H. revert fuel Hf. induction H as [|[id v] fs (Hid & Ht & Hns & Hv) _ IH];
    intros [|fuel] Hf; simpl in Hf; try lia; cbn [read_fields].
  - unfold write_struct. simpl.
    rewrite (st_bind_ok _ _ _ _ _ (read_array_app 1 [STOP] rest e eq_refl)). done.
  - unfold write_struct in *. cbn [map concat].
    rewrite <- !app_assoc, <- app_comm_cons. cbn [fst snd] in *.
    erewrite st_bind_ok by
      (apply (read_array_app 1 [type_id v]); reflexivity).
    replace (be_value [type_id v]) with (type_id v) by reflexivity.
    destruct (Z.eqb_spec (type_id v) STOP); [done|].
    rewrite <- !app_assoc. erewrite st_bind_ok by apply read_be_bytes.
    rewrite (swrap_be_bytes 2) by (done || lia).
    rewrite (st_bind_ok _ _ _ _ _ (Hv _)). rewrite app_assoc.
    rewrite (st_bind_ok _ _ _ _ _ (IH fuel ltac:(lia))). done.
Qed.

Lemma type_id_byte v : in_u 8 (type_id v) = true /\ type_id v <> STOP.
Proof. destruct v; split; reflexivity || discriminate. Qed.

Lemma in_list_max_le (l : list nat) x n : In x l -> (list_max l <= n)%nat -> (x <= n)%nat.
Proof.
  intros Hx Hn. apply list_max_le in Hn. rewrite List.Forall_forall in Hn. auto.
Qed.

Lemma forallb_In {A} (f : A -> bool) l x : forallb f l = true -> In x l -> f x = true.
Proof. rewrite forallb_forall. auto. Qed.

Lemma be_value_double bits : in_u 64 bits = true -> be_value (be_bytes 8 bits) = bits.
Proof. intros H%in_u_spec. rewrite be_value_be_bytes. apply Z.mod_small. exact H. Qed.

Lemma length_write_struct fs : (length fs < length (write_struct fs))%nat.
Proof.
  unfold write_struct. rewrite length_app. cbn [length].
  enough (length fs <= length (concat (map (fun '(id, v) =>
            type_id v :: be_bytes 2 id ++ write_value v) fs)))%nat by lia.
  induction fs as [|[id v] fs IH]; cbn [map concat length]; [lia|].
  rewrite length_app. cbn [length]. lia.
Qed.

(** Decides the comparisons of type codes. *)
Ltac decide_kind :=
  repeat match goal with
  | |- context [?a =? ?b] =>
      let r := eval vm_compute in (a =? b) in
      match r with
      | true => change (a =? b) with true
      | false => change (a =? b) with false
      end; cbn [orb]
  end.

(** Every value within the nesting limit reads back as it was written. *)
Lemma read_write_value v : forall levels rest e,
  value_wf v = true -> (value_depth v < levels)%nat ->
  read_value_at levels (type_id v) (mkStream (write_value v ++ rest) e) = (mkStream rest e, Ok v).
Proof.
  induction v as [b|z|z|z|z|bits|s|fs IH|k w es IH|el l IH] using value_ind_nested;
    intros [|levels] rest e Hwf Hd; try (simpl in Hd; lia);
    cbn [type_id read_value_at]; decide_kind.
  - erewrite st_bind_ok by (apply (read_array_app 1 [if b then 1 else 0]); reflexivity).
    by destruct b.
  - erewrite st_bind_ok by (apply (read_be_bytes 1)). unfold st_ret. do 3 f_equal.
    by apply (swrap_be_bytes 1); [..|lia|].
  - erewrite st_bind_ok by (apply (read_be_bytes 2)). unfold st_ret. do 3 f_equal.
    by apply (swrap_be_bytes 2); [..|lia|].
  - erewrite st_bind_ok by (by apply read_i32_be). done.
  - erewrite st_bind_ok by (apply (read_be_bytes 8)). unfold st_ret. do 3 f_equal.
    by apply (swrap_be_bytes 8); [..|lia|].
  - erewrite st_bind_ok by (apply (read_be_bytes 8)). unfold st_ret. do 3 f_equal.
    by apply be_value_double.
  - simpl in Hwf. bool_simpl. erewrite st_bind_ok by (by apply read_bytes_write). done.
  - change (write_value (VStruct fs)) with (write_struct fs).
    cbn [value_wf value_depth] in Hwf, Hd.
    erewrite st_bind_ok by reflexivity. erewrite st_bind_ok; [reflexivity|].
    apply read_fields_concat.
    + simpl. pose proof (length_write_struct fs). rewrite length_app. lia.
    + rewrite List.Forall_forall in IH |- *. intros [id v] Hin. cbn [fst snd].
      pose proof (forallb_In _ _ _ Hwf Hin) as [Hid Hv]%andb_true_iff.
      destruct (type_id_byte v) as [Ht Hs]. repeat split; try done.
      intros r. apply (IH _ Hin); [done|]. cbn [snd].
      enough (S (value_depth v) <= levels)%nat by lia.
      eapply in_list_max_le; [|apply Nat.lt_succ_r, Hd].
      apply in_map_iff. by exists (id, v).
  - cbn [value_wf value_depth write_value] in *. bool_simpl. rewrite <- !app_assoc.
    erewrite st_bind_ok by (apply (read_array_app 2 [k; w]); reflexivity).
    erewrite st_bind_ok by (apply read_size_be; unfold zlength in *; lia).
    unfold zlength. rewrite Nat2Z.id. simpl (take 1 _). simpl (drop 1 _).
    change (be_value [k]) with k. change (be_value [w]) with w.
    erewrite st_bind_ok; [reflexivity|].
    apply (read_n_concat _ (fun '(a, b) => write_value a ++ write_value b)).
    rewrite List.Forall_forall in IH |- *. intros [a b] Hin r.
    match goal with H : forallb _ es = true |- _ => pose proof (forallb_In _ _ _ H Hin) as Hab end.
    simpl in Hab. bool_simpl. subst.
    assert (S (Nat.max (value_depth a) (value_depth b)) <= levels)%nat.
    { eapply in_list_max_le; [|apply Nat.lt_succ_r, Hd]. apply in_map_iff. by exists (a, b). }
    destruct (IH _ Hin) as [IHa IHb]. cbn [fst snd] in *. rewrite <- app_assoc.
    erewrite st_bind_ok by (apply IHa; [done|lia]).
    erewrite st_bind_ok by (apply IHb; [done|lia]). done.
  - cbn [value_wf value_depth write_value] in *. bool_simpl. rewrite <- !app_assoc.
    erewrite st_bind_ok by (apply (read_array_app 1 [el]); reflexivity).
    erewrite st_bind_ok by (apply read_size_be; unfold zlength in *; lia).
    unfold zlength. rewrite Nat2Z.id. change (be_value [el]) with el.
    erewrite st_bind_ok; [reflexivity|]. apply read_n_concat.
    rewrite List.Forall_forall in IH |- *. intros w Hin r.
    match goal with H : forallb _ l = true |- _ => pose proof (forallb_In _ _ _ H Hin) as Hw end.
    simpl in Hw. bool_simpl. subst.
    apply (IH _ Hin); [done|].
    enough (S (value_depth w) <= levels)%nat by lia.
    eapply in_list_max_le; [|apply Nat.lt_succ_r, Hd]. apply in_map_iff. by exists w.
Qed.

(** The header word: the version in the high half, the type in the low byte. *)
Lemma version_of_kind k : in_u 8 k = true ->
  Z.land (Z.lor VERSION_1 k) VERSION_MASK = VERSION_1 /\ Z.land (Z.lor VERSION_1 k) 0xff = k.
Proof.
  intros Hk%in_u_spec.
  assert (Forall (fun k => Z.land (Z.lor VERSION_1 k) VERSION_MASK = VERSION_1 /\
                           Z.land (Z.lor VERSION_1 k) 0xff = k)
                 (map Z.of_nat (seq 0 256))) as H.
  { rewrite List.Forall_forall. intros x Hx.
    assert (forallb (fun k => (Z.land (Z.lor VERSION_1 k) VERSION_MASK =? VERSION_1) &&
                           (Z.land (Z.lor VERSION_1 k) 0xff =? k))
                 (map Z.of_nat (seq 0 256)) = true) as Hall by (vm_compute; reflexivity).
    apply (forallb_In _ _ _ Hall) in Hx. by bool_simpl. }
  rewrite List.Forall_forall in H. apply H. apply in_map_iff.
  exists (Z.to_nat k). split; [lia|]. apply in_seq. lia.
Qed.

Lemma word_of_kind k : in_u 8 k = true ->
  wrap 32 (swrap 32 (be_value (be_bytes 4 (Z.lor VERSION_1 k)))) = Z.lor VERSION_1 k.
Proof.
  intros Hk. pose proof (proj1 (in_u_spec _ _) Hk) as Hr.
  rewrite be_value_be_bytes. unfold wrap, swrap.
  assert (0 <= Z.lor VERSION_1 k < 2 ^ 32).
  { split; [apply Z.lor_nonneg; split; [done|lia]|].
    apply Z.log2_lt_pow2; [|rewrite Z.log2_lor by (done || lia)].
    - assert (0 <= Z.lor VERSION_1 k) by (apply Z.lor_nonneg; split; [done|lia]).
      assert (Z.lor VERSION_1 k <> 0); [|lia].
      rewrite Z.lor_eq_0_iff. intros [? _]. done.
    - assert (Z.log2 k < 32); [|change (Z.log2 VERSION_1) with 31; lia].
      pose proof (Z.log2_le_mono k 255 ltac:(lia)) as Hl. change (Z.log2 255) with 7 in Hl. lia. }
  change (256 ^ Z.of_nat 4) with (2 ^ 32). rewrite !(Z.mod_small (Z.lor VERSION_1 k)) by lia.
  destruct (_ <? _); [by rewrite Z.mod_small|].
  rewrite <- (Z.mod_unique (Z.lor VERSION_1 k - 2 ^ 32) (2 ^ 32) (-1) (Z.lor VERSION_1 k)); lia.
Qed.

(** ** What any reply can make the reader do

    [reads c Q m s]: from [s], [m] consumes a prefix of the stream, leaves how
    it ends alone, never runs out of fuel, and on success its result satisfies
    [Q] and has taken at least [c] bytes. *)

Definition reads {A} (c : A -> nat) (Q : A -> Prop) (m : reader A) (s : stream) : Prop :=
  forall s' r, m s = (s', r) ->
    ending s' = ending s /\ (exists pre, data s = pre ++ data s') /\
    match r with
    | Ok a => Q a /\ (c a + length (data s') <= length (data s))%nat
    | Err e => e = OutOfFuel -> ending s = Some OutOfFuel
    end.

Lemma reads_ret {A} (c : A -> nat) (Q : A -> Prop) a s :
  Q a -> c a = O -> reads c Q (st_ret a) s.
Proof. intros HQ Hc s' r [= <- <-]. repeat split; auto; [by exists []|lia]. Qed.

Lemma reads_err {A} (c : A -> nat) (Q : A -> Prop) e s :
  e <> OutOfFuel -> reads c Q (st_err e) s.
Proof. intros He s' r [= <- <-]. repeat split; auto; [by exists []|done]. Qed.

Lemma reads_bind {A B} (c1 : A -> nat) (Q1 : A -> Prop) (c : B -> nat) (Q : B -> Prop) m k s :
  reads c1 Q1 m s ->
  (forall a s', Q1 a -> (c1 a + length (data s') <= length (data s))%nat ->
                reads (fun b => c b - c1 a)%nat Q (k a) s') ->
  reads c Q (st_bind m k) s.
Proof.
  intros Hm Hk s2 r. unfold st_bind. destruct (m s) as [s1 [a|e]] eqn:E.
  - intros Hr. destruct (Hm _ _ E) as (He1 & [p1 Hp1] & Ha & Hc1).
    destruct (Hk a s1 Ha Hc1 _ _ Hr) as (He2 & [p2 Hp2] & Hres).
    repeat split; [congruence|exists (p1 ++ p2); rewrite Hp1, Hp2; by rewrite app_assoc|].
    destruct r as [b|e]; [|by rewrite <- He1].
    destruct Hres as [Hb Hc]. split; [done|lia].
  - intros [= <- <-]. destruct (Hm _ _ E) as (He1 & Hp & Hres). auto.
Qed.

Lemma reads_weaken {A} (c c' : A -> nat) (Q Q' : A -> Prop) m s :
  (forall a, Q a -> Q' a /\ (c' a <= c a)%nat) -> reads c Q m s -> reads c' Q' m s.
Proof.
  intros Hw Hm s' r E. destruct (Hm _ _ E) as (He & Hp & Hr).
  repeat split; auto. destruct r as [a|e]; [|done].
  destruct Hr as [Ha Hc]. destruct (Hw a Ha) as [? ?]. split; [done|lia].
Qed.

Lemma reads_array n s : reads (fun _ => n) (fun bs => length bs = n) (read_array n) s.
Proof.
  intros s' r. unfold read_array. destruct (Nat.leb_spec n (length (data s))) as [Hn|Hn].
  - intros [= <- <-]. simpl. repeat split.
    + exists (take n (data s)). by rewrite take_drop.
    + rewrite length_take. lia.
    + rewrite length_drop. lia.
  - intros [= <- <-]. simpl. repeat split.
    + exists (data s). by rewrite app_nil_r.
    + destruct (ending s); congruence.
Qed.

Lemma reads_i32 s : reads (fun _ => 4%nat) (fun _ => True) read_i32 s.
Proof.
  eapply reads_bind; [apply reads_array|]. intros. by apply reads_ret.
Qed.

Lemma reads_to_end len s :
  reads (@length Z) (fun _ => True) (read_to_end_taking len) s.
Proof.
  intros s' r. unfold read_to_end_taking, zlength.
  destruct (Z.leb_spec len (Z.of_nat (length (data s)))).
  - intros [= <- <-]. simpl. repeat split.
    + exists (take (Z.to_nat len) (data s)). by rewrite take_drop.
    + rewrite length_take, length_drop. lia.
  - destruct (ending s) eqn:He; intros [= <- <-]; simpl; repeat split; auto;
      try (exists (data s); by rewrite app_nil_r); try (simpl; lia); congruence.
Qed.

Lemma reads_bytes s :
  reads (fun bs => 4 + length bs)%nat (fun bs => zlength bs <= MAX_REPLY_BYTES) read_bytes s.
Proof.
  eapply reads_bind; [apply reads_i32|]. intros len s' _ _.
  destruct (len <? 0); [by apply reads_err|].
  destruct (Z.ltb_spec MAX_REPLY_BYTES len); [by apply reads_err|].
  eapply reads_bind; [apply reads_to_end|]. intros bs s2 _ _.
  destruct (Z.eqb_spec (zlength bs) len); [|by apply reads_err].
  apply reads_ret; lia.
Qed.

Lemma reads_size s :
  reads (fun _ => 4%nat) (fun n => 0 <= n <= MAX_ELEMENTS) read_size s.
Proof.
  eapply reads_bind; [apply reads_i32|]. intros n s' _ _.
  destruct ((0 <=? n) && (n <=? MAX_ELEMENTS)) eqn:Hn; [|by apply reads_err].
  bool_simpl. by apply reads_ret.
Qed.

Lemma reads_n {A} (c : A -> nat) (Q : A -> Prop) item n : forall s,
  (forall s, reads c Q item s) ->
  reads (fun l => list_sum (map c l)) (fun l => length l = n /\ Forall Q l) (read_n n item) s.
Proof.
  induction n as [|n IH]; intros s Hi; cbn [read_n]; [by apply reads_ret|].
  eapply reads_bind; [apply Hi|]. intros a s1 Ha _.
  eapply reads_bind; [by apply IH|]. intros l s2 [Hl HQ] _.
  apply reads_ret; [|simpl; lia]. split; [simpl; congruence|by constructor].
Qed.

(** The struct loop has fuel enough as long as it exceeds the bytes left. *)
Lemma reads_fields (c : Value -> nat) (Q : Value -> Prop) item fuel : forall s,
  (length (data s) < fuel)%nat ->
  (forall kind s, reads c Q (item kind) s) ->
  reads (fun l => S (list_sum (map (fun f => c (snd f)) l)))
        (Forall (fun f => Q (snd f))) (read_fields fuel item) s.
Proof.
  induction fuel as [|fuel IH]; intros s Hf Hi; [lia|]. cbn [read_fields].
  eapply reads_bind; [apply reads_array|]. intros b s1 _ H1.
  destruct (be_value b =? STOP); [by apply reads_ret|].
  eapply reads_bind; [apply reads_array|]. intros raw s2 _ H2.
  eapply reads_bind; [apply Hi|]. intros v s3 Hv H3.
  cbn beta in *. eapply reads_bind; [apply IH; [lia|done]|]. intros l s4 Hl _.
  apply reads_ret; [by constructor|]. simpl. lia.
Qed.

(** Sizes every decoded value respects. *)
Fixpoint value_bounded (v : Value) : bool :=
  match v with
  | VString s => zlength s <=? MAX_REPLY_BYTES
  | VStruct fields => forallb (fun '(_, w) => value_bounded w) fields
  | VMap _ _ entries =>
      (zlength entries <=? MAX_ELEMENTS)
      && forallb (fun '(k, w) => value_bounded k && value_bounded w) entries
  | VList _ items => (zlength items <=? MAX_ELEMENTS) && forallb value_bounded items
  | _ => true
  end.

Definition fits (levels : nat) (v : Value) : Prop :=
  value_bounded v = true /\ (value_depth v < levels)%nat.

Lemma list_max_lt_S {A} (f : A -> nat) l n :
  Forall (fun a => f a < n)%nat l -> (list_max (map (fun a => S (f a)) l) <= n)%nat.
Proof.
  intros H. apply list_max_le. apply List.Forall_map.
  eapply List.Forall_impl; [|exact H]. simpl. lia.
Qed.

Lemma reads_value levels : forall kind s,
  reads value_nodes (fits levels) (read_value_at levels kind) s.
Proof.
  induction levels as [|levels IH]; intros kind s; cbn [read_value_at]; [by apply reads_err|].
  repeat match goal with |- reads _ _ (if ?b then _ else _) _ => destruct b end;
    try (by apply reads_err);
    try (eapply reads_bind; [first [apply reads_array|apply reads_i32|apply reads_bytes]|];
         intros; apply reads_ret; [split; simpl; first [done | lia | by apply Z.leb_le]|simpl; lia]).
  - (* struct *)
    intros s' r E. revert s' r E.
    change (reads value_nodes (fits (S levels))
      (fun s => st_bind (read_fields (S (length (data s))) (read_value_at levels))
                        (fun fields => st_ret (VStruct fields)) s) s).
    assert (reads value_nodes (fits (S levels))
      (st_bind (read_fields (S (length (data s))) (read_value_at levels))
               (fun fields => st_ret (VStruct fields))) s) as H; [|exact H].
    eapply reads_bind; [apply reads_fields; [lia|exact IH]|]. intros fs s1 Hfs _.
    apply reads_ret.
    + split; cbn [value_bounded value_depth].
      * apply forallb_forall. intros [id w] Hin.
        rewrite List.Forall_forall in Hfs. by destruct (Hfs _ Hin).
      * apply Nat.lt_succ_r. rewrite (map_ext _ (fun f => S (value_depth (snd f)))) by (by intros [? ?]).
        apply list_max_lt_S. eapply List.Forall_impl; [|exact Hfs]. by intros [? ?] [_ ?].
    + cbn [value_nodes]. rewrite (map_ext (fun '(_, w) => value_nodes w) (fun f => value_nodes (snd f)))
        by (by intros [? ?]). lia.
  - (* map *)
    eapply reads_bind; [apply reads_array|]. intros kv s1 _ _.
    eapply reads_bind; [apply reads_size|]. intros n s2 Hn _. cbn beta in Hn.
    eapply reads_bind.
    { apply (reads_n (fun e => value_nodes (fst e) + value_nodes (snd e))%nat
                     (fun e => fits levels (fst e) /\ fits levels (snd e))).
      intros s3. eapply reads_bind; [apply IH|]. intros k s4 Hk _.
      eapply reads_bind; [apply IH|]. intros v s5 Hv _. apply reads_ret; simpl; [done|lia]. }
    intros es s3 [Hl Hes] _. apply reads_ret.
    + split; cbn [value_bounded value_depth].
      * apply andb_true_iff. split; [apply Z.leb_le; unfold zlength; lia|].
        apply forallb_forall. intros [k w] Hin. rewrite List.Forall_forall in Hes.
        destruct (Hes _ Hin) as [[Hk _] [Hw _]]. by apply andb_true_iff.
      * apply Nat.lt_succ_r.
        rewrite (map_ext _ (fun e => S (Nat.max (value_depth (fst e)) (value_depth (snd e)))))
          by (by intros [? ?]).
        apply (list_max_lt_S (fun e => Nat.max _ _)). eapply List.Forall_impl; [|exact Hes].
        intros [? ?] [[_ ?] [_ ?]]. simpl in *. lia.
    + cbn [value_nodes]. rewrite (map_ext (fun '(k, w) => value_nodes k + value_nodes w)%nat
        (fun e => value_nodes (fst e) + value_nodes (snd e))%nat) by (by intros [? ?]). lia.
  - (* list and set *)
    eapply reads_bind; [apply reads_array|]. intros b s1 _ _.
    eapply reads_bind; [apply reads_size|]. intros n s2 Hn _. cbn beta in Hn.
    eapply reads_bind; [apply (reads_n value_nodes (fits levels)); intros; apply IH|].
    intros l s3 [Hl Hf] _. apply reads_ret; [|cbn [value_nodes]; lia].
    split; cbn [value_bounded value_depth].
    + apply andb_true_iff. split; [apply Z.leb_le; unfold zlength; lia|].
      apply forallb_forall. intros w Hin. rewrite List.Forall_forall in Hf. by destruct (Hf _ Hin).
    + apply Nat.lt_succ_r, list_max_lt_S. eapply List.Forall_impl; [|exact Hf]. by intros ? [_ ?].
Qed.

Lemma reads_message s :
  reads (fun hv => value_nodes (snd hv)) (fun hv => fits (S MAX_DEPTH) (snd hv))
        read_message_limited s.
Proof.
  eapply reads_bind; [apply reads_i32|]. intros raw s1 _ _. cbv zeta.
  match goal with |- reads _ _ (if ?b then _ else _) _ => destruct b end;
    [by apply reads_err|].
  eapply reads_bind; [apply reads_bytes|]. intros bs s2 _ _.
  eapply (reads_bind (fun _ => O) (fun _ => True)).
  { unfold st_of_result. destruct (from_utf8 bs); simpl; [by apply (reads_ret (fun _ => O))|].
    by apply (reads_err (A := bytes)). }
  intros nm s3 _ _. eapply reads_bind; [apply reads_i32|]. intros sq s4 _ _.
  eapply reads_bind; [apply reads_value|]. intros v s5 Hv _.
  apply reads_ret; [exact Hv|]. simpl. lia.
Qed.

(** ** Properties *)

Lemma read_written_message k nm sq body rest e :
  in_u 8 k = true -> utf8_valid nm = true -> in_s 32 sq = true ->
  value_wf (VStruct body) = true -> (value_depth (VStruct body) <= MAX_DEPTH)%nat ->
  zlength (write_message k nm sq body) <= MAX_REPLY_BYTES ->
  read_message (mkStream (write_message k nm sq body ++ rest) e) =
  (mkStream rest e, Ok (mkHeader k nm sq, VStruct body)).
Proof.
  intros Hk Hnm Hsq Hwf Hd Hlen. unfold read_message.
  set (w := write_message k nm sq body) in *.
  assert (forall r e', read_message_limited (mkStream (w ++ r) e') =
                       (mkStream r e', Ok (mkHeader k nm sq, VStruct body))) as Hlim.
  { intros r e'. unfold w, write_message, read_message_limited. rewrite <- !app_assoc.
    assert (zlength nm <= MAX_REPLY_BYTES) as Hnl.
    { revert Hlen. unfold w, write_message, write_bytes, zlength. rewrite !length_app. lia. }
    erewrite st_bind_ok; cycle 1.
    { unfold read_i32. erewrite st_bind_ok by apply (read_be_bytes 4). reflexivity. }
    rewrite (word_of_kind k Hk). destruct (version_of_kind k Hk) as [-> ->].
    rewrite Z.eqb_refl. cbn [negb].
    erewrite st_bind_ok by (by apply read_bytes_write).
    unfold from_utf8. rewrite Hnm. erewrite st_bind_ok by reflexivity.
    erewrite st_bind_ok by (by apply read_i32_be).
    change (write_struct body) with (write_value (VStruct body)).
    erewrite st_bind_ok by (apply (read_write_value (VStruct body)); [done|lia]). done. }
  assert (exists t e', take_stream MAX_REPLY_BYTES (mkStream (w ++ rest) e)
                       = mkStream (w ++ t) e') as (t & e' & ->).
  { unfold take_stream. cbn [data ending].
    destruct (_ <=? _); [|eauto].
    rewrite take_app_ge by (unfold zlength, MAX_REPLY_BYTES in *; lia). eauto. }
  rewrite Hlim. cbn [data ending]. rewrite length_app.
  replace (length w + length t - length t)%nat with (length w) by lia.
  by rewrite drop_app_length.
Qed.

(** C23. Round trip: a message the agent writes, whose type is a byte, whose
    name is UTF-8 and whose body is well-formed and within the nesting and
    reply-size limits, is read back exactly, and the reader stops right after
    it. *)
Theorem read_message_write_message k nm sq body rest e :
  in_u 8 k = true -> utf8_valid nm = true -> in_s 32 sq = true ->
  value_wf (VStruct body) = true -> (value_depth (VStruct body) <= MAX_DEPTH)%nat ->
  zlength (write_message k nm sq body) <= MAX_REPLY_BYTES ->
  read_message (mkStream (write_message k nm sq body ++ rest) e) =
  (mkStream rest e, Ok (mkHeader k nm sq, VStruct body)).
Proof. apply read_written_message. Qed.

Lemma read_message_write_message_witness :
  read_message (mkStream (write_message CALL (lit "query") 7
    [(1, VString (lit "SELECT 1")); (2, VMap STRING I32 [(VString (lit "a"), VI32 (-5))])] ++ [9]) None)
  = (mkStream [9] None,
     Ok (mkHeader CALL (lit "query") 7,
         VStruct [(1, VString (lit "SELECT 1")); (2, VMap STRING I32 [(VString (lit "a"), VI32 (-5))])])).
Proof.
  apply read_message_write_message; try reflexivity; vm_compute; [lia|discriminate].
Defined.

(** C24. Whatever bytes a peer sends, reading a message terminates without
    exhausting its fuel, consumes at most [MAX_REPLY_BYTES] of the stream, and
    a decoded value has no more nodes than bytes were consumed, nests at most
    [MAX_DEPTH] deep and has no container above [MAX_ELEMENTS]: a misbehaving
    peer cannot make the agent allocate without limit. *)
Theorem read_message_bounded s s' r :
  ending s <> Some OutOfFuel ->
  read_message s = (s', r) ->
  (exists consumed, data s = consumed ++ data s' /\ zlength consumed <= MAX_REPLY_BYTES /\
     match r with
     | Ok (_, v) => Z.of_nat (value_nodes v) <= zlength consumed /\
                    (value_depth v <= MAX_DEPTH)%nat /\ value_bounded v = true
     | Err e => e <> OutOfFuel
     end).
Proof.
  intros Hend. unfold read_message.
  set (lim := take_stream MAX_REPLY_BYTES s).
  assert (exists tl, data s = data lim ++ tl /\ zlength (data lim) <= MAX_REPLY_BYTES /\
                     ending lim <> Some OutOfFuel) as (tl & Htl & Hmax & Hle).
  { unfold lim, take_stream. destruct (Z.leb_spec MAX_REPLY_BYTES (zlength (data s))).
    - exists (drop (Z.to_nat MAX_REPLY_BYTES) (data s)). cbn [data ending].
      rewrite take_drop. repeat split; [|done].
      unfold zlength. rewrite length_take. unfold MAX_REPLY_BYTES. lia.
    - exists []. rewrite app_nil_r. repeat split; [lia|done]. }
  pose proof (reads_message lim) as Hr.
  destruct (read_message_limited lim) as [rest r'] eqn:E. intros [= <- <-].
  destruct (Hr _ _ E) as (_ & [pre Hpre] & Hres).
  exists pre. cbn [data]. rewrite Htl, Hpre, length_app, <- app_assoc.
  replace (length pre + length (data rest) - length (data rest))%nat with (length pre) by lia.
  rewrite drop_app_length. rewrite Hpre in Hmax. unfold zlength in *. rewrite length_app in Hmax.
  repeat split; [lia|]. destruct r' as [[h v]|e].
  - destruct Hres as [[Hb Hdep] Hn]. rewrite Hpre, length_app in Hn. cbn [snd] in *.
    repeat split; [lia|unfold MAX_DEPTH in *; lia|done].
  - intros ->. by destruct (Hle (Hres eq_refl)).
Qed.

Lemma read_message_bounded_witness :
  exists s' r, read_message (mkStream [1; 2; 3] None) = (s', r) /\
  (exists consumed, [1; 2; 3] = consumed ++ data s' /\ zlength consumed <= MAX_REPLY_BYTES /\
     match r with
     | Ok (_, v) => Z.of_nat (value_nodes v) <= zlength consumed /\
                    (value_depth v <= MAX_DEPTH)%nat /\ value_bounded v = true
     | Err e => e <> OutOfFuel
     end).
Proof.
  eexists _, _. split; [reflexivity|].
  apply (read_message_bounded (mkStream [1; 2; 3] None)); [discriminate|reflexivity].
Defined.
