(* ===== verification/Smbios.v ===== *)
(** * smbios/table.rs: the SMBIOS entry point and structure table

    The table is firmware output and so untrusted.  The model keeps the
    source's iterator: [records_next] is one step of [Records::next] from a
    byte offset, and [records_from] runs it; every step moves the offset
    forward, so the table's length is enough fuel.  Formatting a UUID is the
    [uuid] crate's and stays a parameter, [hyphenated]. *)

From Stdlib Require Import String.
From S2P Require Import Prelude Text.

Record Version := mkVersion { major : Z; minor : Z }.

Record SystemInformation := mkSystem {
  sys_uuid : option bytes;
  sys_serial_number : option bytes }.

Record PowerSupply := mkSupply {
  group : option Z;
  location : option bytes;
  supply_name : option bytes;
  manufacturer : option bytes;
  serial_number : option bytes;
  asset_tag : option bytes;
  model : option bytes;
  revision : option bytes;
  max_power_watts : option Z;
  hot_replaceable : option bool;
  present : option bool;
  unplugged : option bool;
  status : option bytes }.

Record Tables := mkTables {
  system : option SystemInformation;
  power_supplies : list PowerSupply }.

Definition SYSTEM_INFORMATION : Z := 1.
Definition POWER_SUPPLY : Z := 39.
Definition END_OF_TABLE : Z := 127.
Definition POWER_SUPPLY_MIN_LENGTH : nat := 0x10.
Definition MAX_STRING_BYTES : nat := 255.

Definition parse_version (entry_point : bytes) : option Version :=
  if starts_with (lit "_SM3_") entry_point then
    let+ major := entry_point !! 0x07%nat in
    let+ minor := entry_point !! 0x08%nat in
    Some (mkVersion major minor)
  else if starts_with (lit "_SM_") entry_point then
    let+ major := entry_point !! 0x06%nat in
    let+ minor := entry_point !! 0x07%nat in
    Some (if (major =? 0x02) && ((minor =? 0x1F) || (minor =? 0x21)) then mkVersion 2 3
          else if (major =? 0x02) && (minor =? 0x33) then mkVersion 2 6
          else mkVersion major minor)
  else if starts_with (lit "_DMI_") entry_point then
    let+ bcd := entry_point !! 0x0E%nat in
    Some (mkVersion (Z.shiftr bcd 4) (Z.land bcd 0x0F))
  else None.

(** [derive(PartialOrd)]: lexicographic on the fields in order. *)
Definition version_ge (a b : Version) : bool :=
  (major b <? major a) || ((major b =? major a) && (minor b <=? minor a)).

(** collectors/mod.rs: drops blank text and firmware placeholders. *)
Definition normalize_value (value : bytes) : option bytes :=
  let value := trim value in
  let lower := to_ascii_lowercase value in
  if match value with [] => true | _ => false end
     || existsb (str_eqb lower)
          [lit "none"; lit "unknown"; lit "not specified"; lit "not applicable";
           lit "to be filled by o.e.m."; lit "default string"]
  then None
  else Some value.

(** ** One structure *)

Record Record_ := mkRecord { kind : Z; formatted : bytes; strings : list bytes }.

Definition rec_byte (r : Record_) (offset : nat) : option Z := formatted r !! offset.

(** [self.formatted.get(offset..offset + 2)?], little-endian. *)
Definition rec_word (r : Record_) (offset : nat) : option Z :=
  if Nat.leb (offset + 2) (length (formatted r))
  then Some (le_value (take 2 (drop offset (formatted r))))
  else None.

Definition rec_string (r : Record_) (offset : nat) : option bytes :=
  let+ index := rec_byte r offset in
  (* [index.checked_sub(1)?] *)
  if index <? 1 then None
  else
    let+ raw := strings r !! Z.to_nat (index - 1) in
    if Nat.ltb MAX_STRING_BYTES (length raw) then None
    else
      let+ text := from_utf8 raw in
      normalize_value text.

(** ** The iterator *)

(** [unformatted.windows(2).position(|pair| pair == [0, 0])]. *)
Fixpoint find_double_nul (s : bytes) : option nat :=
  match s with
  | a :: s' =>
      match s' with
      | b :: _ => if (a =? 0) && (b =? 0) then Some O else S <$> find_double_nul s'
      | [] => None
      end
  | [] => None
  end.

Definition records_next (table : bytes) (offset : nat) : option (Record_ * nat) :=
  if Nat.ltb (length table) offset then None   (* [table.get(offset..)?] *)
  else
    let rest := drop offset table in
    let+ kind := rest !! 0%nat in
    let+ len := rest !! 1%nat in
    if (len <? 4) || (kind =? END_OF_TABLE) then None
    else
      let len := Z.to_nat len in
      if Nat.ltb (length rest) len then None   (* [rest.get(..length)?] *)
      else
        let formatted := take len rest in
        let unformatted := drop len rest in
        let+ end_ := find_double_nul unformatted in
        let strings :=
          if Nat.eqb end_ 0 then [] else split_on 0 (take end_ unformatted) in
        Some (mkRecord kind formatted strings, (offset + (len + end_ + 2))%nat).

Fixpoint records_from (fuel : nat) (table : bytes) (offset : nat) : list Record_ :=
  match fuel with
  | O => []
  | S fuel' =>
      match records_next table offset with
      | Some (r, offset') => r :: records_from fuel' table offset'
      | None => []
      end
  end.

Definition records (table : bytes) : list Record_ := records_from (S (length table)) table 0.

(** ** The facts *)

Section tables.
(** [uuid::Uuid::from_bytes(..).hyphenated().to_string()]. *)
Context (hyphenated : bytes -> bytes).

Definition uuid (bs : bytes) (version : Version) : option bytes :=
  if forallb (fun b => b =? 0x00) bs || forallb (fun b => b =? 0xFF) bs then None
  else if negb (Nat.eqb (length bs) 16) then None   (* [bytes.try_into().ok()?] *)
  else
    let ordered :=
      if version_ge version (mkVersion 2 6)
      then rev (take 4 bs) ++ rev (take 2 (drop 4 bs)) ++ rev (take 2 (drop 6 bs)) ++ drop 8 bs
      else bs in
    Some (hyphenated ordered).

Definition system_information (r : Record_) (version : option Version) : SystemInformation :=
  mkSystem
    (let+ version := version in
     if Nat.leb 0x18 (length (formatted r))
     then uuid (take 0x10 (drop 0x08 (formatted r))) version
     else None)
    (rec_string r 0x07).

Definition power_supply (r : Record_) : option PowerSupply :=
  if Nat.ltb (length (formatted r)) POWER_SUPPLY_MIN_LENGTH then None
  else
    let+ characteristics := rec_word r 0x0E in
    let supply := mkSupply
      (match rec_byte r 0x04 with
       | Some g => if negb (g =? 0) then Some g else None
       | None => None
       end)
      (rec_string r 0x05) (rec_string r 0x06) (rec_string r 0x07) (rec_string r 0x08)
      (rec_string r 0x09) (rec_string r 0x0A) (rec_string r 0x0B)
      (match rec_word r 0x0C with
       | Some watts => if negb (watts =? 0x8000) then Some watts else None
       | None => None
       end)
      (Some (negb (Z.land characteristics 0x0001 =? 0)))
      (Some (negb (Z.land characteristics 0x0002 =? 0)))
      (Some (negb (Z.land characteristics 0x0004 =? 0)))
      (let s := Z.land (Z.shiftr characteristics 7) 0x07 in
       if s =? 3 then Some (lit "ok")
       else if s =? 4 then Some (lit "non_critical")
       else if s =? 5 then Some (lit "critical")
       else None) in
    let described :=
      bool_decide (is_Some (location supply)) || bool_decide (is_Some (supply_name supply))
      || bool_decide (is_Some (manufacturer supply))
      || bool_decide (is_Some (serial_number supply))
      || bool_decide (is_Some (model supply))
      || bool_decide (is_Some (max_power_watts supply)) in
    if described then Some supply else None.

(** The body of [parse]'s loop. *)
Definition parse_record (version : option Version) (tables : Tables) (r : Record_) : Tables :=
  if (kind r =? SYSTEM_INFORMATION) && match system tables with None => true | _ => false end
  then mkTables (Some (system_information r version)) (power_supplies tables)
  else if kind r =? POWER_SUPPLY then
    match power_supply r with
    | Some supply => mkTables (system tables) (power_supplies tables ++ [supply])
    | None => tables
    end
  else tables.

Definition parse (entry_point table : bytes) : Tables :=
  fold_left (parse_record (parse_version entry_point)) (records table) (mkTables None []).
End tables.

(** ** The walk *)

(** The records from an offset on, as the iterator's own steps give them. *)
Inductive Walk (table : bytes) : nat -> list Record_ -> Prop :=
| walk_end offset : records_next table offset = None -> Walk table offset []
| walk_next offset r offset' rs :
    records_next table offset = Some (r, offset') -> Walk table offset' rs ->
    Walk table offset (r :: rs).

Lemma find_double_nul_bound s i : find_double_nul s = Some i -> (i + 2 <= length s)%nat.
Proof.
  revert i; induction s as [|a [|b s] IH]; intros i; simpl; [done|done|].
  destruct ((a =? 0) && (b =? 0)); [intros [= <-]; simpl; lia|].
  simpl in IH. destruct (match s with [] => None | _ => _ end) as [j|]; simpl; [|done].
  intros [= <-]. specialize (IH j eq_refl). simpl in *. lia.
Qed.

Lemma records_next_Some table offset r offset' :
  records_next table offset = Some (r, offset') ->
  (offset + 6 <= offset' <= length table)%nat /\ kind r <> END_OF_TABLE /\
  (4 <= length (formatted r))%nat /\ formatted r !! 0%nat = Some (kind r).
Proof.
  unfold records_next. destruct (Nat.ltb_spec (length table) offset); [done|].
  destruct (drop offset table) as [|k [|len body]] eqn:Hd; simpl; [done..|].
  destruct ((len <? 4) || (k =? END_OF_TABLE)) eqn:Hk; [done|]. bool_simpl.
  destruct (Nat.ltb_spec (S (S (length body))) (Z.to_nat len)); [done|].
  destruct (find_double_nul _) as [e|] eqn:He; simpl; [|done].
  intros [= <- <-]. apply find_double_nul_bound in He.
  assert (length (drop offset table) = S (S (length body))) as Hlen by (by rewrite Hd).
  rewrite length_drop in Hlen. rewrite length_drop in He. cbn [length] in He.
  cbn [kind formatted]. split; [lia|]. split; [done|]. split.
  - rewrite length_take. cbn [length]. lia.
  - destruct (Z.to_nat len) eqn:E; [lia|done].
Qed.

Lemma records_from_walk fuel : forall table offset,
  (length table < fuel + offset)%nat -> Walk table offset (records_from fuel table offset).
Proof.
  induction fuel as [|fuel IH]; intros table offset Hf; cbn [records_from].
  - constructor. unfold records_next. destruct (Nat.ltb_spec (length table) offset); [done|lia].
  - destruct (records_next table offset) as [[r o]|] eqn:E; [|by constructor].
    econstructor; [done|]. apply IH. apply records_next_Some in E. lia.
Qed.

Lemma Walk_unique table offset rs1 rs2 :
  Walk table offset rs1 -> Walk table offset rs2 -> rs1 = rs2.
Proof.
  intros H; revert rs2; induction H as [o E|o r o' rs E _ IH]; intros rs2 H2;
    inversion H2; subst; try congruence.
  assert (r0 = r /\ offset' = o') as [-> ->] by (split; congruence). f_equal. auto.
Qed.

(** Bytes before the offset do not matter. *)
Lemma records_next_shift p table offset :
  records_next (p ++ table) (length p + offset) =
  match records_next table offset with
  | Some (r, o) => Some (r, length p + o)%nat
  | None => None
  end.
Proof.
  unfold records_next. rewrite length_app.
  replace (Nat.ltb (length p + length table) (length p + offset))
    with (Nat.ltb (length table) offset)
    by (apply eq_true_iff_eq; rewrite !Nat.ltb_lt; lia).
  destruct (Nat.ltb _ _); [done|].
  rewrite drop_app_add.
  destruct (drop offset table) as [|k [|len body]]; simpl; [done..|].
  destruct ((len <? 4) || _); [done|]. destruct (Nat.ltb _ _); [done|].
  destruct (find_double_nul _); simpl; [|done]. do 2 f_equal. lia.
Qed.

Lemma Walk_shift p table offset rs :
  Walk table offset rs -> Walk (p ++ table) (length p + offset) rs.
Proof.
  induction 1 as [o E|o r o' rs E _ IH].
  - apply walk_end. rewrite records_next_shift. by rewrite E.
  - eapply walk_next; [|exact IH]. rewrite records_next_shift. by rewrite E.
Qed.

(** ** Encoding, as firmware lays a structure out *)

Definition encode_record (r : Record_) : bytes :=
  formatted r ++
  match strings r with
  | [] => [0; 0]
  | ss => join 0 ss ++ [0; 0]
  end.

Definition record_wf (r : Record_) : bool :=
  match formatted r with
  | k :: len :: _ =>
      (k =? kind r) && (len =? zlength (formatted r)) && (4 <=? len) && negb (k =? END_OF_TABLE)
  | _ => false
  end
  && forallb (fun s => forallb (fun b => negb (b =? 0)) s
                       && match s with [] => false | _ => true end) (strings r).

Lemma find_double_nul_app s t :
  forallb (fun b => negb (b =? 0)) s = true ->
  find_double_nul (s ++ t) = Nat.add (length s) <$> find_double_nul t.
Proof.
  induction s as [|a s IH]; simpl; intros Hs.
  - by destruct (find_double_nul t).
  - bool_simpl. specialize (IH ltac:(done)).
    destruct (s ++ t) as [|b u] eqn:E.
    + apply app_eq_nil in E as [-> ->]. done.
    + destruct (Z.eqb_spec a 0); [lia|]. cbn [andb]. rewrite IH.
      by destruct (find_double_nul t).
Qed.

Lemma find_double_nul_join ss t :
  ss <> [] ->
  forallb (fun s => forallb (fun b => negb (b =? 0)) s
                    && match s with [] => false | _ => true end) ss = true ->
  find_double_nul (join 0 ss ++ 0 :: 0 :: t) = Some (length (join 0 ss)).
Proof.
  induction ss as [|s [|s' ss] IH]; intros Hne Hs; [done| |].
  - cbn [join forallb] in *. bool_simpl. rewrite find_double_nul_app by done.
    simpl. by rewrite Nat.add_0_r.
  - rewrite join_cons, <- app_assoc. cbn [forallb] in Hs. bool_simpl.
    rewrite find_double_nul_app by done. cbn [app].
    assert (find_double_nul (0 :: join 0 (s' :: ss) ++ 0 :: 0 :: t)
            = Some (S (length (join 0 (s' :: ss))))) as ->.
    { rewrite <- (fmap_Some_2 S _ _ (IH ltac:(done) ltac:(simpl; by repeat (apply andb_true_iff; split)))).
      destruct s' as [|a s']; [done|]. cbn [forallb] in *. bool_simpl.
      destruct ss; simpl; (destruct (Z.eqb_spec a 0); [lia|done]). }
    simpl. rewrite length_app. simpl. done.
Qed.

Lemma split_on_join c ss :
  ss <> [] -> Forall (fun s => c ∉ s) ss -> split_on c (join c ss) = ss.
Proof.
  intros Hne H. induction H as [|s ss Hs Hss IH]; [done|].
  assert (forall s, c ∉ s -> split_on c s = [s]) as Hsingle.
  { clear. induction s as [|b s IH]; [done|]. intros [Hb Hs]%not_elem_of_cons. simpl.
    rewrite IH by done. destruct (Z.eqb_spec b c); [congruence|done]. }
  destruct ss as [|s' ss]; [by apply Hsingle|]. rewrite join_cons.
  specialize (IH ltac:(done)). clear Hne Hsingle.
  induction s as [|b s IHs]; cbn [app split_on].
  - rewrite Z.eqb_refl. by rewrite IH.
  - apply not_elem_of_cons in Hs as [Hb Hs]. rewrite (IHs Hs).
    destruct (Z.eqb_spec b c); [congruence|done].
Qed.

Lemma records_next_encode r tail :
  record_wf r = true ->
  records_next (encode_record r ++ tail) 0 = Some (r, length (encode_record r)).
Proof.
  unfold record_wf, records_next. intros [Hf Hs]%andb_true_iff.
  destruct r as [k f ss]. unfold encode_record. cbn [kind formatted strings] in *.
  destruct f as [|k' [|len body]]; [done..|]. bool_simpl. subst k'.
  rewrite drop_0, <- app_assoc. set (f := k :: len :: body) in *.
  change ((f ++ ?t) !! 0%nat) with (Some k). change ((f ++ ?t) !! 1%nat) with (Some len).
  cbn [mbind option_bind].
  destruct (Z.ltb_spec len 4); [lia|]. destruct (Z.eqb_spec k END_OF_TABLE); [done|]. cbn [orb].
  assert (Z.to_nat len = length f) as -> by (unfold zlength in *; lia).
  rewrite take_app_length, drop_app_length, length_app.
  match goal with |- context [Nat.ltb (length f + ?n) (length f)] =>
    destruct (Nat.ltb_spec (length f + n) (length f)); [lia|] end.
  rewrite length_app. destruct ss as [|s ss].
  - simpl. rewrite length_app. simpl. do 2 f_equal. lia.
  - rewrite <- app_assoc. change ([0; 0] ++ tail) with (0 :: 0 :: tail).
    rewrite find_double_nul_join by done. cbn [mbind option_bind].
    rewrite take_app_length.
    assert (0 < length (join 0 (s :: ss)))%nat.
    { cbn [forallb] in Hs. bool_simpl. destruct s; [done|]. destruct ss; simpl; lia. }
    destruct (Nat.eqb_spec (length (join 0 (s :: ss))) 0); [lia|].
    rewrite split_on_join; [|done|].
    + rewrite !length_app. cbn [length]. do 2 f_equal. lia.
    + rewrite List.Forall_forall. intros x Hx.
      rewrite forallb_forall in Hs. specialize (Hs x Hx).
      apply andb_true_iff in Hs as [Hs _]. rewrite forallb_forall in Hs.
      intros Hin%list_elem_of_In. by specialize (Hs _ Hin).
Qed.

Lemma Walk_encode rs tail rs' :
  forallb record_wf rs = true -> Walk tail 0 rs' ->
  Walk (concat (map encode_record rs) ++ tail) 0 (rs ++ rs').
Proof.
  intros Hwf Ht. induction rs as [|r rs IH]; [done|].
  cbn [forallb map concat] in *. bool_simpl. rewrite <- app_assoc. cbn [app].
  eapply walk_next; [by apply records_next_encode|].
  replace (length (encode_record r)) with (length (encode_record r) + 0)%nat by lia.
  apply Walk_shift. auto.
Qed.

(** ** Properties *)

(** Walking any table, however malformed, ends: the records are exactly
    those of the iterator's steps up to the one that returns none, and every
    step moves at least six bytes forward and stays inside the table. *)
Theorem records_walk_complete table :
  Walk table 0 (records table) /\
  (forall offset r offset', records_next table offset = Some (r, offset') ->
     (offset + 6 <= offset' <= length table)%nat).
Proof.
  split; [apply records_from_walk; lia|].
  intros o r o' H. apply records_next_Some in H. lia.
Qed.

(** Every well-formed structure written back to back is read back, in
    order and with its strings, and reading goes on with whatever follows. *)
Theorem records_of_encoded rs tail :
  forallb record_wf rs = true ->
  records (concat (map encode_record rs) ++ tail) = rs ++ records tail.
Proof.
  intros Hwf. eapply Walk_unique; [apply records_from_walk; lia|].
  apply Walk_encode; [done|]. apply records_from_walk. lia.
Qed.

Definition sample_supply : Record_ :=
  mkRecord 39 ([39; 16; 0; 0; 1; 1; 2; 3; 0; 0; 0; 0; 32; 3; 131; 1])
    [lit "Bay 1"; lit "PSU"; lit "Acme"].

Lemma records_of_encoded_witness :
  records (concat (map encode_record [sample_supply; mkRecord 1 [1; 4; 0; 0] []]) ++ [127; 4; 0; 0; 0; 0])
  = [sample_supply; mkRecord 1 [1; 4; 0; 0] []] ++ records [127; 4; 0; 0; 0; 0].
Proof. apply records_of_encoded. reflexivity. Defined.

(** What [parse] reports: the system is the first type 1 structure, and the
    power supplies are the described type 39 structures, in table order. *)
Theorem parse_reports hyphenated entry_point table :
  parse hyphenated entry_point table =
  mkTables
    (option_map (fun r => system_information hyphenated r (parse_version entry_point))
       (find_by (fun r => kind r =? SYSTEM_INFORMATION) (records table)))
    (omap power_supply (List.filter (fun r => kind r =? POWER_SUPPLY) (records table))).
Proof.
  unfold parse. set (v := parse_version entry_point).
  assert (forall rs t, fold_left (parse_record hyphenated v) rs t =
    mkTables
      (match system t with
       | Some s => Some s
       | None => option_map (fun r => system_information hyphenated r v)
                   (find_by (fun r => kind r =? SYSTEM_INFORMATION) rs)
       end)
      (power_supplies t ++
       omap power_supply (List.filter (fun r => kind r =? POWER_SUPPLY) rs))) as H;
    [|rewrite H; done].
  induction rs as [|r rs IH]; intros [sys ps]; cbn [fold_left].
  - simpl. rewrite app_nil_r. by destruct sys.
  - rewrite IH. unfold parse_record. cbn [find_by List.filter system power_supplies].
    destruct (Z.eqb_spec (kind r) SYSTEM_INFORMATION) as [Hs|Hs]; cbn [andb].
    + rewrite Hs. change (SYSTEM_INFORMATION =? POWER_SUPPLY) with false.
      by destruct sys.
    + destruct (Z.eqb_spec (kind r) POWER_SUPPLY) as [Hp|Hp]; [|done].
      simpl. destruct (power_supply r); simpl; [|done]. by rewrite <- app_assoc.
Qed.

(** A string taken from firmware is never blank or a known placeholder and
    fits the API's 255-byte limit, whatever the record holds. *)
Theorem rec_string_clean r offset s :
  rec_string r offset = Some s ->
  s <> [] /\ (length s <= 255)%nat /\
  to_ascii_lowercase s <> lit "none" /\ to_ascii_lowercase s <> lit "unknown" /\
  to_ascii_lowercase s <> lit "default string" /\
  to_ascii_lowercase s <> lit "to be filled by o.e.m.".
Proof.
  unfold rec_string. destruct (rec_byte r offset) as [i|]; simpl; [|done].
  destruct (i <? 1); [done|]. destruct (strings r !! _) as [raw|]; simpl; [|done].
  destruct (Nat.ltb_spec MAX_STRING_BYTES (length raw)) as [|Hl]; [done|].
  unfold from_utf8. destruct (utf8_valid raw); simpl; [|done].
  unfold normalize_value. destruct (_ || _) eqn:Hp; [done|]. intros [= <-].
  apply orb_false_iff in Hp as [Hne Hph]. pose proof (length_trim raw).
  unfold MAX_STRING_BYTES in Hl. cbn [existsb] in Hph.
  repeat match type of Hph with
         | _ || _ = false => apply orb_false_iff in Hph as [? Hph]
         end.
  repeat match goal with H : str_eqb _ _ = false |- _ => apply bool_decide_eq_false in H end.
  repeat split; try done; [|lia]. by destruct (trim raw).
Qed.

Lemma rec_string_clean_witness :
  rec_string sample_supply 0x05 = Some (lit "Bay 1") /\ lit "Bay 1" <> [] /\
  (length (lit "Bay 1") <= 255)%nat.
Proof.
  pose proof (rec_string_clean sample_supply 0x05 (lit "Bay 1") eq_refl) as (H1 & H2 & _).
  split; [reflexivity|]. split; [exact H1|exact H2].
Defined.
