(* ===== verification/SmbiosSnapshot.v ===== *)
(** * smbios/snapshot.rs: boot-scoped copies of the SMBIOS tables

    The destination directory is a map of entries, and every system call on it may
    succeed, fail, or be the one at which the helper or the machine stops; a call that does
    not finish may have done a part of its work.  Owners and modes of files are not in the
    map: the calls that set them only succeed or fail. *)

From Stdlib Require Import String.
From S2P Require Import Prelude Text.

Definition TABLE : bytes := lit "DMI".
Definition ENTRY_POINT : bytes := lit "smbios_entry_point".
Definition MANIFEST : bytes := lit "manifest.json".
Definition CURRENT : bytes := lit "current".
Definition STAGING_PREFIX : bytes := lit ".staging-".
Definition MANIFEST_FORMAT : Z := 1.
Definition MAX_TABLE_BYTES : Z := 1024 * 1024.
Definition MAX_ENTRY_POINT_BYTES : Z := 64.
Definition MAX_MANIFEST_BYTES : Z := 4096.
Definition MAX_BOOT_ID_BYTES : Z := 64.

Record Snapshot := mkSnapshot { entry_point : bytes; table : bytes }.
Record Manifest := mkManifest { format : Z; boot_id : bytes; generation : bytes; table_bytes : Z; entry_point_bytes : Z }.

(** serde_json on a manifest: what it writes it reads back. *)
Class ManifestCodec := {
  m_encode : Manifest -> option bytes;
  m_decode : bytes -> option Manifest;
  m_decode_encode : forall m b, m_encode m = Some b -> m_decode b = Some m }.

(** ** The directory *)

Inductive entry := EFile (content : bytes) | EDir (files : gmap bytes bytes) | ELink (target : bytes).
Abbreviation tree := (gmap bytes entry).

(** How a call ends: [n] of its work is done when it does not finish. *)
Inductive verdict := Goes | Fails (n : nat) | Stops (n : nat).
Inductive halt := Stopped | Refused (reason : bytes).
Record disk := mkDisk { contents : tree; verdicts : list verdict }.

(** A call: its effect if it can be made, and what a part of it leaves. *)
Definition call (effect : tree -> option tree) (part : nat -> tree -> tree) : ST disk halt unit := fun s =>
  let t := contents s in
  let rest := tail (verdicts s) in
  match head (verdicts s) with
  | Some (Fails n) => (mkDisk (part n t) rest, Err (Refused (lit "I/O error")))
  | Some (Stops n) => (mkDisk (part n t) rest, Err Stopped)
  | _ => match effect t with Some t' => (mkDisk t' rest, Ok tt) | None => (mkDisk t rest, Err (Refused (lit "I/O error"))) end
  end.
(** A call done in full or not at all: a failure did nothing. *)
Definition atomic (effect : tree -> option tree) : ST disk halt unit := fun s =>
  let t := contents s in
  let rest := tail (verdicts s) in
  match head (verdicts s) with
  | Some (Fails _) | Some (Stops O) => (mkDisk t rest, Err (match head (verdicts s) with Some (Stops _) => Stopped | _ => Refused (lit "I/O error") end))
  | Some (Stops (S _)) => (mkDisk (match effect t with Some t' => t' | None => t end) rest, Err Stopped)
  | _ => match effect t with Some t' => (mkDisk t' rest, Ok tt) | None => (mkDisk t rest, Err (Refused (lit "I/O error"))) end
  end.
(** Setting an owner or a mode, or waiting for the disk. *)
Definition attributes : ST disk halt unit := atomic Some.

Definition mkdir (name : bytes) : ST disk halt unit := atomic (fun t => match t !! name with None => Some (<[name := EDir ∅]> t) | Some _ => None end).
Definition in_dir (dir : bytes) (f : gmap bytes bytes -> option (gmap bytes bytes)) (t : tree) : option tree :=
  match t !! dir with Some (EDir fs) => option_map (fun fs' => <[dir := EDir fs']> t) (f fs) | _ => None end.
Definition create_new (dir file : bytes) : ST disk halt unit := atomic (in_dir dir (fun fs => match fs !! file with None => Some (<[file := []]> fs) | Some _ => None end)).
Definition write_all (dir file body : bytes) : ST disk halt unit :=
  let put c := in_dir dir (fun fs => Some (<[file := c]> fs)) in
  call (put body) (fun n t => match put (take n body) t with Some t' => t' | None => t end).
(** Renaming a directory: onto nothing, or an empty directory. *)
Definition rename_dir (a b : bytes) : ST disk halt unit := atomic (fun t =>
  match t !! a, t !! b with
  | Some (EDir fs), None => Some (<[b := EDir fs]> (delete a t))
  | Some (EDir fs), Some (EDir other) => if bool_decide (other = ∅) then Some (<[b := EDir fs]> (delete a t)) else None
  | _, _ => None
  end).
Definition symlink (target link : bytes) : ST disk halt unit := atomic (fun t => match t !! link with None => Some (<[link := ELink target]> t) | Some _ => None end).
(** Renaming a link: it takes the place of anything but a directory. *)
Definition rename_link (a b : bytes) : ST disk halt unit := atomic (fun t =>
  match t !! a, t !! b with
  | Some e, Some (EDir _) => None
  | Some e, _ => Some (<[b := e]> (delete a t))
  | None, _ => None
  end).
Definition remove_file (name : bytes) : ST disk halt unit := atomic (fun t => match t !! name with Some (EDir _) | None => None | Some _ => Some (delete name t) end).
(** Its files go one by one. *)
Definition remove_dir_all (name : bytes) : ST disk halt unit :=
  call (fun t => match t !! name with Some (EDir _) => Some (delete name t) | _ => None end)
       (fun n t => match t !! name with Some (EDir fs) => <[name := EDir (list_to_map (drop n (map_to_list fs)))]> t | _ => t end).

(** [let _ = ..]: a failure is dropped, a stop is not. *)
Definition ignored (m : ST disk halt unit) : ST disk halt unit := fun s =>
  match m s with (s', Err (Refused _)) => (s', Ok tt) | r => r end.

(** ** Publishing *)

Definition invalid (message : string) : halt := Refused (lit message).
(** [read_bounded] of a source: a regular file, within its limit. *)
Definition read_bounded (file : option bytes) (limit : Z) : result bytes bytes :=
  match file with
  | None => Err (lit "cannot be read")
  | Some c => let bytes := take (Z.to_nat (limit + 1)) c in if limit <? zlength bytes then Err (lit "exceeds its limit") else Ok bytes
  end.
Definition read_boot_id (file : option bytes) : result bytes bytes :=
  let? bytes := read_bounded file MAX_BOOT_ID_BYTES in
  let id := trim (from_utf8_lossy bytes) in
  if bool_decide (id = []) then Err (lit "boot ID is empty") else Ok id.

(** What [prepare_destination] finds of a directory. *)
Inductive creation := Created (permissions : result unit bytes) | AlreadyExists | NotCreated (e : bytes).
Record found := mkFound { created : creation; metadata : result (bool * Z * Z) bytes }.   (* is_dir, uid, mode *)
Definition check_directory (owner : Z) (d : found) : result unit bytes :=
  let? _ := match created d with Created p => p | AlreadyExists => Ok tt | NotCreated e => Err e end in
  let? m := metadata d in
  let '(is_dir, uid, mode) := m in
  if negb is_dir || negb (uid =? owner) || negb (Z.land mode 18 =? 0) then Err (lit "must be a directory owned by its user and writable only by it") else Ok tt.
Definition prepare_destination (owner : Z) (parent destination : found) : result unit bytes :=
  let? _ := check_directory owner parent in check_directory owner destination.

Section publish.
Context {C : ManifestCodec}.

Definition io {A} (r : result A bytes) : ST disk halt A := st_of_result (map_err Refused r).

Definition write_new (dir file body : bytes) : ST disk halt unit :=
  let* _ := create_new dir file in
  let* _ := write_all dir file body in
  let* _ := attributes in
  let* _ := attributes in
  attributes.

Definition manifest_of (gen boot table entry_point : bytes) : Manifest := mkManifest MANIFEST_FORMAT boot gen (zlength table) (zlength entry_point).

Definition write_generation (staging gen boot table entry_point : bytes) : ST disk halt unit :=
  let* _ := mkdir staging in
  let* _ := write_new staging TABLE table in
  let* _ := write_new staging ENTRY_POINT entry_point in
  let* manifest := io (ok_or (m_encode (manifest_of gen boot table entry_point)) (lit "cannot encode the manifest")) in
  let* _ := write_new staging MANIFEST manifest in
  let* _ := attributes in
  let* _ := attributes in
  let* _ := attributes in
  attributes.

Fixpoint prune_loop (keep : bytes) (names : list bytes) : ST disk halt unit :=
  match names with
  | [] => st_ret tt
  | name :: names' =>
      let* _ := (if str_eqb name keep || str_eqb name CURRENT then st_ret tt
                 else let* s := st_get in
                      match contents s !! name with
                      | Some (EDir _) => ignored (remove_dir_all name)
                      | Some _ => ignored (remove_file name)
                      | None => st_ret tt
                      end) in
      prune_loop keep names'
  end.
Definition prune (keep : bytes) : ST disk halt unit := fun s =>
  match attributes s with                                        (* [read_dir] *)
  | (s, Ok _) => prune_loop keep (map fst (map_to_list (contents s))) s
  | (s, Err (Refused _)) => (s, Ok tt)
  | (s, Err Stopped) => (s, Err Stopped)
  end.

Definition staging_of (gen : bytes) : bytes := STAGING_PREFIX ++ gen.
Definition link_of (gen : bytes) : bytes := STAGING_PREFIX ++ gen ++ lit ".link".

(** The kernel's files and the destination's directories are arguments; [gen] is the new
    random UUID. *)
Definition publish (boot_file table_file entry_file : option bytes) (prepared : result unit bytes) (gen : bytes) : ST disk halt bytes :=
  let* boot := io (read_boot_id boot_file) in
  let* table := io (read_bounded table_file MAX_TABLE_BYTES) in
  let* entry_point := io (read_bounded entry_file MAX_ENTRY_POINT_BYTES) in
  if bool_decide (table = []) || bool_decide (entry_point = []) then st_err (invalid "SMBIOS source files are empty")
  else
    let* _ := io prepared in
    let* _ := (fun s => match write_generation (staging_of gen) gen boot table entry_point s with
                        | (s', Err (Refused e)) => (let* _ := ignored (remove_dir_all (staging_of gen)) in st_err (Refused e)) s'
                        | r => r
                        end) in
    let* _ := rename_dir (staging_of gen) gen in
    let* _ := symlink gen (link_of gen) in
    let* _ := (fun s => match rename_link (link_of gen) CURRENT s with
                        | (s', Err (Refused e)) =>
                            (let* _ := ignored (remove_file (link_of gen)) in let* _ := ignored (remove_dir_all gen) in st_err (Refused e)) s'
                        | r => r
                        end) in
    let* _ := attributes in                                      (* [sync_directory]: open and sync *)
    let* _ := attributes in
    let* _ := prune gen in
    st_ret gen.

(** ** Loading *)

Definition plain_name (name : bytes) : bool :=
  negb (bool_decide (name = [])) && negb (bool_decide (head name = Some 46)) && forallb (fun b => is_ascii_hexdigit b || (b =? 45)) name.
Definition file_in (t : tree) (dir file : bytes) : option bytes := match t !! dir with Some (EDir fs) => fs !! file | _ => None end.

Definition load (t : tree) (boot_file : option bytes) : result Snapshot bytes :=
  match t !! CURRENT with
  | Some (ELink gen) =>
      if negb (plain_name gen) then Err (lit "current SMBIOS snapshot link is not a generation name")
      else
        let? bytes := read_bounded (file_in t gen MANIFEST) MAX_MANIFEST_BYTES in
        let? m := ok_or (m_decode bytes) (lit "SMBIOS snapshot manifest is malformed") in
        if negb (format m =? MANIFEST_FORMAT) || negb (str_eqb (generation m) gen) then Err (lit "SMBIOS snapshot manifest does not match its generation")
        else
          let? boot := read_boot_id boot_file in
          if negb (str_eqb (boot_id m) boot) then Err (lit "SMBIOS snapshot is from an earlier boot")
          else
            let? table := read_bounded (file_in t gen TABLE) MAX_TABLE_BYTES in
            let? entry_point := read_bounded (file_in t gen ENTRY_POINT) MAX_ENTRY_POINT_BYTES in
            if negb (zlength table =? table_bytes m) || negb (zlength entry_point =? entry_point_bytes m) then Err (lit "SMBIOS snapshot is incomplete")
            else Ok (mkSnapshot entry_point table)
  | _ => Err (lit "no current SMBIOS snapshot")
  end.
End publish.

(** ** Publication is atomic *)

(** [m] takes [P] to [Q] when it succeeds, and to [R] when it fails or stops. *)
Definition triple {A : Type} (P : tree -> Prop) (m : ST disk halt A) (Q : A -> tree -> Prop) (R : tree -> Prop) : Prop :=
  forall s, P (contents s) -> match m s with (s', Ok a) => Q a (contents s') | (s', Err _) => R (contents s') end.

Lemma triple_bind {A B : Type} (P : tree -> Prop) (m : ST disk halt A) (Q : A -> tree -> Prop) (R : tree -> Prop) (k : A -> ST disk halt B) (Q' : B -> tree -> Prop) : triple P m Q R -> (forall a, triple (Q a) (k a) Q' R) -> triple P (st_bind m k) Q' R.
Proof. intros Hm Hk s Hs. unfold st_bind. specialize (Hm s Hs). destruct (m s) as [s1 [a|e]]; [by apply Hk|done]. Qed.
Lemma triple_ret {A : Type} (a : A) (P : tree -> Prop) (Q : A -> tree -> Prop) (R : tree -> Prop) : (forall t, P t -> Q a t) -> triple P (st_ret a) Q R.
Proof. intros H s Hs. by apply H. Qed.
Lemma triple_weaken {A : Type} (P : tree -> Prop) (m : ST disk halt A) (Q : A -> tree -> Prop) (R R' : tree -> Prop) : (forall t, R' t -> R t) ->
  triple P m Q R' -> triple P m Q R.
Proof. intros H Hm s Hs. specialize (Hm s Hs). destruct (m s) as [s1 [a|e]]; auto. Qed.
Lemma triple_io {A B : Type} (r : result A bytes) (P : tree -> Prop) (Q : B -> tree -> Prop) (R : tree -> Prop) (k : A -> ST disk halt B) :
  (forall t, P t -> R t) -> (forall a, r = Ok a -> triple P (k a) Q R) -> triple P (st_bind (io r) k) Q R.
Proof. intros H Hk s Hs. unfold st_bind, io, st_of_result. destruct r as [a|e]; cbn [map_err]; [by apply (Hk a)|by apply H]. Qed.

Lemma triple_call (effect : tree -> option tree) (part : nat -> tree -> tree) (P Q R : tree -> Prop) :
  (forall t, P t -> match effect t with Some t' => Q t' | None => R t end) -> (forall n t, P t -> R (part n t)) -> triple P (call effect part) (fun _ => Q) R.
Proof.
  intros H1 H2 s Hs. unfold call. destruct (head (verdicts s)) as [[|n|n]|]; cbn; try by apply H2.
  - specialize (H1 _ Hs). by destruct (effect (contents s)).
  - specialize (H1 _ Hs). by destruct (effect (contents s)).
Qed.
Lemma triple_atomic (effect : tree -> option tree) (P Q R : tree -> Prop) :
  (forall t, P t -> R t /\ match effect t with Some t' => Q t' /\ R t' | None => True end) -> triple P (atomic effect) (fun _ => Q) R.
Proof.
  intros H s Hs. unfold atomic. destruct (H _ Hs) as [H1 H2]. destruct (head (verdicts s)) as [[|n|[|n]]|]; cbn; try done; destruct (effect (contents s)); try done; by destruct H2.
Qed.
Lemma triple_attributes (P R : tree -> Prop) : (forall t, P t -> R t) -> triple P attributes (fun _ => P) R.
Proof. intros H. apply triple_atomic. auto. Qed.
Lemma triple_ignored (P : tree -> Prop) (m : ST disk halt unit) (Q : tree -> Prop) : triple P m (fun _ => Q) Q -> triple P (ignored m) (fun _ => Q) Q.
Proof. intros H s Hs. unfold ignored. specialize (H s Hs). destruct (m s) as [s1 [a|[|e]]]; done. Qed.

Lemma in_dir_insert (dir : bytes) (f : gmap bytes bytes -> option (gmap bytes bytes)) (t : tree) (fs fs' : gmap bytes bytes) : t !! dir = Some (EDir fs) -> f fs = Some fs' -> in_dir dir f t = Some (<[dir := EDir fs']> t).
Proof. intros H1 H2. unfold in_dir. by rewrite H1, H2. Qed.

Section atomicity.
Context {C : ManifestCodec}.
Variables (before : tree) (gen boot body_table body_entry body_manifest : bytes).
Hypothesis gen_plain : plain_name gen = true.
Hypothesis gen_unused : before !! CURRENT <> Some (ELink gen).

(** Nothing but the new generation's names has changed. *)
Definition aside (t : tree) : Prop := forall n, n <> staging_of gen -> n <> gen -> n <> link_of gen -> t !! n = before !! n.
Definition whole : gmap bytes bytes := <[MANIFEST := body_manifest]> (<[ENTRY_POINT := body_entry]> (<[TABLE := body_table]> ∅)).
Definition published (t : tree) : Prop := t !! CURRENT = Some (ELink gen) /\ t !! gen = Some (EDir whole).

Lemma plain_not_dot n : plain_name n = true -> forall s, n <> 46 :: s.
Proof. unfold plain_name. intros [[_ H]%andb_true_iff _]%andb_true_iff s ->. by apply negb_true_iff, bool_decide_eq_false in H. Qed.
Lemma current_not_plain : plain_name CURRENT = false.
Proof. reflexivity. Qed.
Lemma names_apart : CURRENT <> staging_of gen /\ CURRENT <> gen /\ CURRENT <> link_of gen /\ gen <> staging_of gen /\ gen <> link_of gen /\ staging_of gen <> link_of gen.
Proof.
  split; [discriminate|]. split; [intros E; rewrite <- E in gen_plain; discriminate gen_plain|]. split; [discriminate|].
  split; [apply plain_not_dot, gen_plain|]. split; [apply plain_not_dot, gen_plain|]. unfold staging_of, link_of. intros E. apply app_inv_head in E.
  apply (f_equal (@length Z)) in E. rewrite length_app in E. change (length (lit ".link")) with 5%nat in E. lia.
Qed.

Lemma aside_insert (n : bytes) (e : entry) (t : tree) : n = staging_of gen \/ n = gen \/ n = link_of gen -> aside t -> aside (<[n := e]> t).
Proof. intros Hn H m H1 H2 H3. rewrite lookup_insert_ne by (intros <-; naive_solver). by apply H. Qed.
Lemma aside_delete (n : bytes) (t : tree) : n = staging_of gen \/ n = gen \/ n = link_of gen -> aside t -> aside (delete n t).
Proof. intros Hn H m H1 H2 H3. rewrite lookup_delete_ne by (intros <-; naive_solver). by apply H. Qed.

Lemma load_aside (t : tree) (bf : option bytes) : aside t -> load t bf = load before bf.
Proof.
  intros H. destruct names_apart as (N1 & N2 & N3 & _). unfold load. rewrite (H CURRENT) by done. destruct (before !! CURRENT) as [[c|fs|g]|] eqn:Ec; try done.
  destruct (plain_name g) eqn:Eg; cbn [negb]; [|done].
  assert (forall f, file_in t g f = file_in before g f) as Hf.
  { intros f. unfold file_in. rewrite H; [done|apply plain_not_dot, Eg|intros ->; done|apply plain_not_dot, Eg]. }
  by rewrite !Hf.
Qed.

Lemma write_new_triple (f body : bytes) (fs : gmap bytes bytes) : fs !! f = None ->
  triple (fun t => aside t /\ t !! staging_of gen = Some (EDir fs)) (write_new (staging_of gen) f body)
         (fun _ t => aside t /\ t !! staging_of gen = Some (EDir (<[f := body]> fs))) aside.
Proof.
  intros Hf. unfold write_new. eapply triple_bind.
  - apply (triple_atomic _ _ (fun t => aside t /\ t !! staging_of gen = Some (EDir (<[f := []]> fs)))). intros t [Ha Hs]. split; [done|].
    erewrite in_dir_insert; [|exact Hs|by rewrite Hf]. split; [split|]; [by apply aside_insert; auto|apply lookup_insert_eq|by apply aside_insert; auto].
  - intros []. eapply triple_bind.
  + apply (triple_call _ _ _ (fun t => aside t /\ t !! staging_of gen = Some (EDir (<[f := body]> fs)))).
    * intros t [Ha Hs]. erewrite in_dir_insert; [|exact Hs|reflexivity]. rewrite insert_insert_eq. split; [by apply aside_insert; auto|apply lookup_insert_eq].
    * intros n t [Ha Hs]. erewrite in_dir_insert; [|exact Hs|reflexivity]. by apply aside_insert; auto.
  + intros []. eapply triple_bind; [apply triple_attributes; by intros t []|intros []]. eapply triple_bind; [apply triple_attributes; by intros t []|intros []].
    apply triple_attributes. by intros t [].
Qed.

Lemma mkdir_triple : triple aside (mkdir (staging_of gen)) (fun _ t => aside t /\ t !! staging_of gen = Some (EDir ∅)) aside.
Proof.
  apply (triple_atomic _ _ (fun t => aside t /\ t !! staging_of gen = Some (EDir ∅))). intros t Ha. split; [done|]. destruct (t !! staging_of gen); [done|].
  split; [split|]; [by apply aside_insert; auto|apply lookup_insert_eq|by apply aside_insert; auto].
Qed.

Lemma write_generation_triple : m_encode (manifest_of gen boot body_table body_entry) = Some body_manifest ->
  triple aside (write_generation (staging_of gen) gen boot body_table body_entry) (fun _ t => aside t /\ t !! staging_of gen = Some (EDir whole)) aside.
Proof.
  intros Hm. unfold write_generation. eapply triple_bind; [apply mkdir_triple|].
  intros []. eapply triple_bind; [apply write_new_triple, lookup_empty|intros []]. eapply triple_bind; [by apply write_new_triple|intros []].
  apply triple_io; [by intros t []|]. rewrite Hm. intros m [= <-]. eapply triple_bind; [by apply write_new_triple|intros []].
  do 3 (eapply triple_bind; [apply triple_attributes; by intros t []|intros []]). apply triple_attributes. by intros t [].
Qed.

Lemma remove_dir_triple (n : bytes) : n = staging_of gen \/ n = gen -> triple aside (ignored (remove_dir_all n)) (fun _ => aside) aside.
Proof.
  intros Hn. assert (n = staging_of gen \/ n = gen \/ n = link_of gen) as Hn' by tauto. apply triple_ignored, triple_call.
  - intros t Ha. destruct (t !! n) as [[]|]; try done. by apply aside_delete.
  - intros k t Ha. destruct (t !! n) as [[]|]; try done. by apply aside_insert.
Qed.
Lemma remove_link_triple : triple aside (ignored (remove_file (link_of gen))) (fun _ => aside) aside.
Proof. apply triple_ignored, triple_atomic. intros t Ha. split; [done|]. destruct (t !! link_of gen) as [[]|]; try done; (split; by apply aside_delete; auto). Qed.

Lemma rename_dir_triple : triple (fun t => aside t /\ t !! staging_of gen = Some (EDir whole)) (rename_dir (staging_of gen) gen)
  (fun _ t => aside t /\ t !! gen = Some (EDir whole)) aside.
Proof.
  apply (triple_atomic _ _ (fun t => aside t /\ t !! gen = Some (EDir whole))). intros t [Ha Hs]. split; [done|]. rewrite Hs.
  assert (aside (<[gen := EDir whole]> (delete (staging_of gen) t))) as H by (apply aside_insert; [auto|]; apply aside_delete; auto).
  destruct (t !! gen) as [[|o|]|]; try done; [case_bool_decide; [|done]|]; (split; [split; [done|apply lookup_insert_eq]|done]).
Qed.

Lemma symlink_triple : triple (fun t => aside t /\ t !! gen = Some (EDir whole)) (symlink gen (link_of gen))
  (fun _ t => aside t /\ t !! gen = Some (EDir whole) /\ t !! link_of gen = Some (ELink gen)) aside.
Proof.
  destruct names_apart as (_ & _ & _ & _ & N5 & _).
  apply (triple_atomic _ _ (fun t => aside t /\ t !! gen = Some (EDir whole) /\ t !! link_of gen = Some (ELink gen))). intros t [Ha Hg]. split; [done|].
  destruct (t !! link_of gen); [done|]. assert (aside (<[link_of gen := ELink gen]> t)) as H by (apply aside_insert; auto). split; [|done]. split; [done|].
  split; [rewrite lookup_insert_ne; [done|congruence]|apply lookup_insert_eq].
Qed.

(** Switching the link, with what is done when it fails. *)
Lemma switch_triple : triple (fun t => aside t /\ t !! gen = Some (EDir whole) /\ t !! link_of gen = Some (ELink gen))
  (fun s => match rename_link (link_of gen) CURRENT s with
            | (s', Err (Refused e)) => (let* _ := ignored (remove_file (link_of gen)) in let* _ := ignored (remove_dir_all gen) in @st_err _ _ unit (Refused e)) s'
            | r => r
            end) (fun _ => published) (fun t => aside t \/ published t).
Proof.
  intros s (Ha & Hg & Hl). destruct names_apart as (N1 & N2 & N3 & N4 & N5 & N6).
  assert (forall s' e, contents s' = contents s -> match (let* _ := ignored (remove_file (link_of gen)) in let* _ := ignored (remove_dir_all gen) in @st_err _ _ unit (Refused e)) s' with
    | (s2, Ok a) => published (contents s2) | (s2, Err _) => aside (contents s2) \/ published (contents s2) end) as Hclean.
  { intros s' e E. assert (triple aside (let* _ := ignored (remove_file (link_of gen)) in let* _ := ignored (remove_dir_all gen) in @st_err _ _ unit (Refused e)) (fun _ => published) aside) as H.
    { eapply triple_bind; [apply remove_link_triple|intros []]. eapply triple_bind; [apply remove_dir_triple; auto|intros []]. by intros t Ht. }
    specialize (H s'). rewrite E in H. specialize (H Ha). destruct ((let* _ := _ in _) s') as [s2 [a|h]]; auto. }
  assert (forall t', match contents s !! CURRENT with Some (EDir _) => None | _ => Some (<[CURRENT := ELink gen]> (delete (link_of gen) (contents s))) end = Some t' -> published t') as Heff.
  { intros t' H. assert (t' = <[CURRENT := ELink gen]> (delete (link_of gen) (contents s))) as -> by (destruct (contents s !! CURRENT) as [[]|]; congruence).
    split; [apply lookup_insert_eq|]. rewrite lookup_insert_ne, lookup_delete_ne by congruence. done. }
  unfold rename_link, atomic. rewrite Hl.
  destruct (head (verdicts s)) as [[|n|[|n]]|]; try (by apply Hclean); try (by left).
  - destruct (contents s !! CURRENT) as [[]|]; try (by apply Hclean); by apply Heff.
  - destruct (contents s !! CURRENT) as [[]|]; try (by left); right; by apply Heff.
  - destruct (contents s !! CURRENT) as [[]|]; try (by apply Hclean); by apply Heff.
Qed.

Lemma prune_loop_triple names : triple published (prune_loop gen names) (fun _ => published) published.
Proof.
  induction names as [|n names IH]; cbn [prune_loop]; [by apply triple_ret|]. apply triple_bind with (Q := fun _ => published); [|intros []; exact IH].
  destruct (str_eqb n gen || str_eqb n CURRENT) eqn:E; [by apply triple_ret|]. apply orb_false_iff in E as [E1%bool_decide_eq_false E2%bool_decide_eq_false].
  assert (forall e t, published t -> published (<[n := e]> t)) as Hi. { intros e t [H1 H2]. split; rewrite lookup_insert_ne by congruence; done. }
  assert (forall t, published t -> published (delete n t)) as Hd. { intros t [H1 H2]. split; rewrite lookup_delete_ne by congruence; done. }
  apply triple_bind with (Q := fun _ => published); [by intros s Hs|]. intros s. destruct (contents s !! n) as [[c|fs|g]|].
  - apply triple_ignored, triple_atomic. intros t H. split; [done|]. destruct (t !! n) as [[]|]; auto.
  - apply triple_ignored, triple_call; [intros t H; destruct (t !! n) as [[]|]; auto|intros k t H; destruct (t !! n) as [[]|]; auto].
  - apply triple_ignored, triple_atomic. intros t H. split; [done|]. destruct (t !! n) as [[]|]; auto.
  - by apply triple_ret.
Qed.

Lemma prune_triple : triple published (prune gen) (fun _ => published) published.
Proof.
  intros s Hs. unfold prune. pose proof (triple_attributes published published (fun t H => H) s Hs) as H. destruct (attributes s) as [s1 [[]|[|e]]]; try done.
  by apply prune_loop_triple.
Qed.

Lemma load_published t bf : m_encode (manifest_of gen boot body_table body_entry) = Some body_manifest -> zlength body_manifest <= MAX_MANIFEST_BYTES ->
  read_boot_id bf = Ok boot -> zlength body_table <= MAX_TABLE_BYTES -> zlength body_entry <= MAX_ENTRY_POINT_BYTES ->
  published t -> load t bf = Ok (mkSnapshot body_entry body_table).
Proof.
  intros Hm Hl Hb Ht He [H1 H2]. unfold load. rewrite H1, gen_plain. cbn [negb].
  assert (forall c limit, 0 <= limit -> zlength c <= limit -> read_bounded (Some c) limit = Ok c) as Hr.
  { intros c limit H0 Hc. unfold read_bounded. rewrite take_ge by (unfold zlength in Hc; lia). destruct (Z.ltb_spec limit (zlength c)); [lia|done]. }
  assert (file_in t gen MANIFEST = Some body_manifest) as -> by (unfold file_in; by rewrite H2).
  assert (file_in t gen TABLE = Some body_table) as -> by (unfold file_in; by rewrite H2).
  assert (file_in t gen ENTRY_POINT = Some body_entry) as -> by (unfold file_in; by rewrite H2).
  rewrite !Hr by (done || vm_compute; discriminate). cbn [result_bind]. rewrite (m_decode_encode _ _ Hm). cbn [ok_or result_bind manifest_of format generation boot_id table_bytes entry_point_bytes].
  unfold str_eqb. rewrite !bool_decide_eq_true_2 by done. cbn [negb orb]. rewrite Hb. cbn [result_bind]. rewrite bool_decide_eq_true_2 by done. rewrite !Z.eqb_refl. done.
Qed.
End atomicity.

Section publication.
Context {C : ManifestCodec}.

Lemma read_bounded_Ok file limit c : 0 <= limit -> read_bounded file limit = Ok c -> file = Some c /\ zlength c <= limit.
Proof.
  intros H0. unfold read_bounded. destruct file as [f|]; [|done]. destruct (Z.ltb_spec limit (zlength (take (Z.to_nat (limit + 1)) f))) as [|H]; [done|].
  intros [= <-]. assert (zlength f <= limit) as Hf. { unfold zlength in *. rewrite length_take in H. lia. }
  rewrite take_ge in * by (unfold zlength in Hf; lia). done.
Qed.

Variables (boot_file table_file entry_file : option bytes) (gen : bytes) (before : tree).
Hypothesis gen_plain : plain_name gen = true.

(** The new tables are published. *)
Definition renewed (t : tree) : Prop := exists boot table ep b,
  read_boot_id boot_file = Ok boot /\ read_bounded table_file MAX_TABLE_BYTES = Ok table /\ read_bounded entry_file MAX_ENTRY_POINT_BYTES = Ok ep /\
  m_encode (manifest_of gen boot table ep) = Some b /\ published gen table ep b t.

(** Writing the generation, with what is done when it fails. *)
Definition staged (boot table ep : bytes) : ST disk halt unit := fun s =>
  match write_generation (staging_of gen) gen boot table ep s with
  | (s', Err (Refused e)) => (let* _ := ignored (remove_dir_all (staging_of gen)) in st_err (Refused e)) s'
  | r => r
  end.

Lemma staged_triple (boot table ep : bytes) (Q : tree -> Prop) : triple (aside before gen) (write_generation (staging_of gen) gen boot table ep) (fun _ => Q) (aside before gen) ->
  triple (aside before gen) (staged boot table ep) (fun _ => Q) (aside before gen).
Proof.
  intros H s Hs. unfold staged. specialize (H s Hs). destruct (write_generation (staging_of gen) gen boot table ep s) as [s1 [[]|[|e]]]; [done|done|].
  pose proof (remove_dir_triple before gen (staging_of gen) (or_introl eq_refl) s1 H) as Hr. unfold st_bind.
  destruct (ignored (remove_dir_all (staging_of gen)) s1) as [s2 [[]|h]]; exact Hr.
Qed.

(** Without a manifest nothing comes of it. *)
Lemma no_manifest_triple (boot table ep : bytes) : m_encode (manifest_of gen boot table ep) = None ->
  triple (aside before gen) (write_generation (staging_of gen) gen boot table ep) (fun _ _ => False) (aside before gen).
Proof.
  intros Em. unfold write_generation. eapply triple_bind; [apply mkdir_triple|intros []].
  eapply triple_bind; [apply write_new_triple, lookup_empty|intros []]. eapply triple_bind; [by apply write_new_triple|intros []].
  apply triple_io; [by intros t []|]. by rewrite Em.
Qed.

Lemma publish_triple (prepared : result unit bytes) :
  triple (aside before gen) (publish boot_file table_file entry_file prepared gen) (fun _ => renewed) (fun t => aside before gen t \/ renewed t).
Proof.
  unfold publish. apply triple_io; [auto|]. intros boot Eb. apply triple_io; [auto|]. intros table Et. apply triple_io; [auto|]. intros ep Ee.
  destruct (_ || _); [intros s Hs; by left|]. apply triple_io; [auto|]. intros [] _. destruct (m_encode (manifest_of gen boot table ep)) as [b|] eqn:Em.
  2: { eapply triple_bind; [eapply triple_weaken; [|apply (staged_triple boot table ep (fun _ => False)), no_manifest_triple, Em]; by left|]. intros [] s []. }
  assert (forall t, published gen table ep b t -> renewed t) as Hn. { intros t Ht. by exists boot, table, ep, b. }
  eapply triple_bind; [eapply triple_weaken; [|apply staged_triple, write_generation_triple, Em]; by left|intros []].
  eapply triple_bind; [eapply triple_weaken; [|apply rename_dir_triple]; by left|intros []].
  eapply triple_bind; [eapply triple_weaken; [|by apply symlink_triple]; by left|intros []].
  eapply triple_bind; [eapply triple_weaken; [|by apply switch_triple]|intros []]. { intros t [H|H]; [by left|right; by apply Hn]. }
  do 2 (eapply triple_bind; [apply triple_attributes; intros t H; right; by apply Hn|intros []]).
  eapply triple_bind; [eapply triple_weaken; [|apply prune_triple]; intros t H; right; by apply Hn|intros []]. apply triple_ret. apply Hn.
Qed.

Lemma load_renewed (t : tree) :
  (forall boot table entry_point b, read_boot_id boot_file = Ok boot -> m_encode (manifest_of gen boot table entry_point) = Some b -> zlength b <= MAX_MANIFEST_BYTES) ->
  renewed t -> exists table entry_point, table_file = Some table /\ entry_file = Some entry_point /\ load t boot_file = Ok (mkSnapshot entry_point table).
Proof.
  intros Hm (boot & table & ep & b & Eb & Et & Ee & Em & Hp). apply read_bounded_Ok in Et as [-> Lt]; [|vm_compute; discriminate].
  apply read_bounded_Ok in Ee as [-> Le]; [|vm_compute; discriminate]. exists table, ep. split; [done|]. split; [done|]. by eapply load_published; eauto.
Qed.
End publication.

(** C14. Publishing the SMBIOS tables is atomic: whatever call fails, and wherever the
    helper or the machine stops, the agent afterwards loads what it loaded before or the
    complete new tables of this boot, never a part or a mixture; and when publishing
    succeeds, it loads the new ones. *)
Theorem publication_is_atomic {C : ManifestCodec} (boot_file table_file entry_file : option bytes) (prepared : result unit bytes) (gen : bytes) (before : tree) (vs : list verdict) :
  plain_name gen = true -> before !! CURRENT <> Some (ELink gen) ->
  (forall boot table entry_point b, read_boot_id boot_file = Ok boot -> m_encode (manifest_of gen boot table entry_point) = Some b -> zlength b <= MAX_MANIFEST_BYTES) ->
  let '(s, r) := publish boot_file table_file entry_file prepared gen (mkDisk before vs) in
  (load (contents s) boot_file = load before boot_file /\ r <> Ok gen) \/
  exists table entry_point, table_file = Some table /\ entry_file = Some entry_point /\ load (contents s) boot_file = Ok (mkSnapshot entry_point table).
Proof.
  intros Hg Hc Hm. pose proof (publish_triple boot_file table_file entry_file gen before Hg prepared (mkDisk before vs)) as H.
  destruct (publish _ _ _ _ _ _) as [s r]. specialize (H ltac:(done)). destruct r as [g|e].
  - right. by apply (load_renewed boot_file table_file entry_file gen Hg).
  - destruct H as [H|H]; [left; split; [by apply (load_aside before gen Hg Hc)|done]|right; by apply (load_renewed boot_file table_file entry_file gen Hg)].
Qed.

#[export] Instance Manifest_eq_dec : EqDecision Manifest.
Proof. solve_decision. Defined.

(** A codec that knows one manifest. *)
Definition demo_manifest : Manifest := manifest_of (lit "ab-1") (lit "boot") [1; 2] [3].
Definition demo_codec : ManifestCodec.
Proof.
  refine {| m_encode := fun m => if decide (m = demo_manifest) then Some (lit "{}") else None; m_decode := fun b => if decide (b = lit "{}") then Some demo_manifest else None |}.
  intros m b. destruct (decide (m = demo_manifest)) as [->|]; [|done]. intros [= <-]. by destruct (decide _).
Defined.

Lemma publication_is_atomic_witness : plain_name (lit "ab-1") = true /\
  let '(s, r) := publish (C := demo_codec) (Some (lit "boot")) (Some [1; 2]) (Some [3]) (Ok tt) (lit "ab-1") (mkDisk ∅ [Goes; Goes; Goes; Goes; Stops 1]) in
  (load (C := demo_codec) (contents s) (Some (lit "boot")) = load (C := demo_codec) ∅ (Some (lit "boot")) /\ r <> Ok (lit "ab-1")) \/
  exists table entry_point, Some [1; 2] = Some table /\ Some [3] = Some entry_point /\
    load (C := demo_codec) (contents s) (Some (lit "boot")) = Ok (mkSnapshot entry_point table).
Proof.
  split; [reflexivity|]. apply (publication_is_atomic (C := demo_codec)).
  - reflexivity.
  - rewrite lookup_empty. discriminate.
  - intros boot table ep b _ H. cbn in H. destruct (decide _); [|discriminate H]. injection H as <-. vm_compute. discriminate.
Defined.
