(* ===== verification/Command.v ===== *)
(** * command.rs: bounded, cancellation-aware programs

    The operating system is an arbitrary outside ([Programs]): when the agent is told to
    stop, the clock, the child's exit and what it writes.  What is done to the child and
    its process group is recorded. *)

From Stdlib Require Import String.
From S2P Require Import Prelude Text.

Definition COLLECTOR_COMMAND_TIMEOUT : Z := from_secs 2.
Definition MAX_OUTPUT_BYTES : Z := 256 * 1024.
Definition POLL_INTERVAL : Z := from_millis 10.

(** [io::ErrorKind], as far as it is told apart. *)
Inductive ErrorKind := NotFound | Interrupted | TimedOut | OtherKind.

#[export] Instance ErrorKind_eq_dec : EqDecision ErrorKind.
Proof. solve_decision. Defined.

Record IoError := mkIoError { e_kind : ErrorKind; e_message : bytes }.

(** [ExitStatus::code]: none for a program killed by a signal. *)
Abbreviation ExitStatus := (option Z).
Record Output := mkOutput { status : ExitStatus; stdout : bytes; overflowed : bool }.
Definition success (o : Output) : bool := bool_decide (status o = Some 0).

Class Programs := {
  programs : Type;
  stopping : Run programs bool;                                       (* [cancelled()] *)
  instant : Run programs Z;                                           (* [Instant::now] *)
  spawn : list bytes -> Run programs (result unit IoError);           (* in a group of its own, stdout piped *)
  try_wait : Run programs (result (option ExitStatus) IoError);
  kill_group : Run programs unit;                                     (* [terminate_command_tree] *)
  wait : Run programs unit;
  (* What the child's pipe holds up to its end; [None] if the reader panics.  The call
     stands for a read that comes to the end: [reader.join()] waits for as long as a
     process that left the group keeps the pipe open, which is not modelled. *)
  drained : Run programs (option (result bytes IoError));
  sleep : Z -> Run programs unit }.

Section command.
Context {P : Programs}.

Inductive act := Spawned (argv : list bytes) | Killed | Waited | Joined.
Inductive halt := OutOfFuel | Io (e : IoError).
Abbreviation state := (programs * list act)%type.

Definition outside {E A} (m : Run programs A) : ST state E A := fun s => let '(w, a) := m (fst s) in ((w, snd s), Ok a).
Definition note (a : act) : ST state halt unit := fun s => ((fst s, snd s ++ [a]), Ok tt).
Definition io {A} (r : result A IoError) : ST state halt A := st_of_result (map_err Io r).

Definition terminate_command_tree : ST state halt unit := let* _ := outside kill_group in note Killed.

(** [reader.join()]: the reader takes one byte past the limit. *)
Definition join_reader (max_output_bytes : Z) : ST state halt (result (result bytes IoError) unit) :=
  let* d := outside drained in
  let* _ := note Joined in
  st_ret (match d with
          | None => Err tt
          | Some (Ok all) => Ok (Ok (take (Z.to_nat (max_output_bytes + 1)) all))
          | Some (Err e) => Ok (Err e)
          end).

Definition expired (started timeout : Z) : ST state halt bool :=
  let* stop := outside stopping in
  if (stop : bool) then st_ret true
  else let* now := outside instant in st_ret (timeout <=? since now started).

Definition abandon (max_output_bytes : Z) : ST state halt ExitStatus :=
  let* _ := terminate_command_tree in
  let* _ := outside wait in
  let* _ := note Waited in
  let* _ := join_reader max_output_bytes in
  let* stop1 := outside stopping in
  let* stop2 := outside stopping in
  st_err (Io (mkIoError (if (stop2 : bool) then Interrupted else TimedOut)
                        (if (stop1 : bool) then lit "agent stopping" else lit "command timed out"))).

(** The loop, to the status the child exited with. *)
Fixpoint await (fuel : nat) (started timeout max_output_bytes : Z) : ST state halt ExitStatus :=
  match fuel with
  | O => st_err OutOfFuel
  | S fuel' =>
      let* stop := expired started timeout in
      if (stop : bool) then abandon max_output_bytes
      else
        let* r := outside try_wait in
        let* exited := io r in
        match exited with
        | Some status => st_ret status
        | None => let* _ := outside (sleep POLL_INTERVAL) in await fuel' started timeout max_output_bytes
        end
  end.

Definition collect (status : ExitStatus) (max_output_bytes : Z) : ST state halt Output :=
  let* _ := terminate_command_tree in
  let* joined := join_reader max_output_bytes in
  let* read := io (map_err (fun _ => mkIoError OtherKind (lit "output reader panicked")) joined) in
  let* stdout := io read in
  let overflowed := max_output_bytes <? zlength stdout in
  st_ret (mkOutput status (take (Z.to_nat max_output_bytes) stdout) overflowed).

Definition run_with_limits (fuel : nat) (argv : list bytes) (timeout max_output_bytes : Z) : ST state halt Output :=
  let* stop := outside stopping in
  if (stop : bool) then st_err (Io (mkIoError Interrupted (lit "agent stopping")))
  else
    let* r := outside (spawn argv) in
    let* _ := io r in
    let* _ := note (Spawned argv) in
    let* started := outside instant in
    let* status := await fuel started timeout max_output_bytes in
    collect status max_output_bytes.

(** Turns of the loop that are enough when a sleep lasts as long as asked. *)
Definition turns (timeout : Z) : nat := S (S (Z.to_nat (timeout / POLL_INTERVAL))).
Definition run_with_timeout (argv : list bytes) (timeout : Z) : ST state halt Output :=
  run_with_limits (turns timeout) argv timeout MAX_OUTPUT_BYTES.
Definition run (argv : list bytes) : ST state halt Output := run_with_timeout argv COLLECTOR_COMMAND_TIMEOUT.
End command.

(** ** What is left of a program when it is done *)

Section contained.
Context {P : Programs}.

Lemma bind_outside {E A B} (m : Run programs A) (k : A -> ST _ E B) w l : st_bind (outside m) k (w, l) = k (snd (m w)) (fst (m w), l).
Proof. unfold st_bind, outside. cbn [fst snd]. by destruct (m w). Qed.
Lemma bind_note {B} a (k : unit -> ST _ halt B) (w : programs) l : st_bind (note a) k (w, l) = k tt (w, l ++ [a]).
Proof. done. Qed.
Lemma bind_kill {B} (k : unit -> ST _ halt B) w l : st_bind terminate_command_tree k (w, l) = k tt (fst (kill_group w), l ++ [Killed]).
Proof. unfold st_bind, terminate_command_tree, st_bind, outside. cbn [fst snd]. by destruct (kill_group w). Qed.

(** A computation that only asks the outside. *)
Definition quiet {A} (m : ST (programs * list act) halt A) : Prop := forall s, snd (fst (m s)) = snd s.

Lemma quiet_outside {A} (m : Run programs A) : quiet (outside m).
Proof. intros s. unfold outside. by destruct (m (fst s)). Qed.
Lemma program_quiet_bind {A B} (m : ST _ halt A) (k : A -> ST _ halt B) : quiet m -> (forall a, quiet (k a)) -> quiet (st_bind m k).
Proof. intros Hm Hk s. unfold st_bind. specialize (Hm s). destruct (m s) as [s1 [a|e]]; [|done]. by rewrite Hk. Qed.
Lemma program_quiet_ret {A} (r : result A halt) : quiet (st_of_result r).
Proof. by intros s. Qed.

Lemma quiet_expired started timeout : quiet (expired started timeout).
Proof.
  apply program_quiet_bind; [apply quiet_outside|]. intros [|]; [exact (program_quiet_ret (Ok true))|]. apply program_quiet_bind; [apply quiet_outside|].
  intros now. exact (program_quiet_ret (Ok _)).
Qed.

(** [join_reader] joins, and gives what the pipe held up to a byte past the limit. *)
Lemma join_reader_spec max s : exists w' d, drained (fst s) = (w', d) /\
  join_reader max s = ((w', snd s ++ [Joined]), Ok (match d with None => Err tt | Some (Ok all) => Ok (Ok (take (Z.to_nat (max + 1)) all)) | Some (Err e) => Ok (Err e) end)).
Proof.
  unfold join_reader, outside, note, st_bind. destruct (drained (fst s)) as [w' d]. exists w', d. by split.
Qed.

Lemma abandon_spec max s : exists w' e, abandon max s = ((w', snd s ++ [Killed; Waited; Joined]), Err (Io e)).
Proof.
  unfold abandon, terminate_command_tree, outside, note, st_bind. destruct (kill_group (fst s)) as [w1 ?]. cbn [fst snd].
  destruct (wait w1) as [w2 ?]. cbn [fst snd]. destruct (join_reader_spec max (w2, (snd s ++ [Killed]) ++ [Waited])) as (w3 & d & _ & E).
  rewrite E. cbn [fst snd]. destruct (stopping w3) as [w4 ?]. cbn [fst snd]. destruct (stopping w4) as [w5 ?]. cbn [fst snd].
  rewrite <- !app_assoc. eexists _, _. reflexivity.
Qed.

(** What waiting comes to: a status with the child untouched; the group killed, the child
    waited for and its output read; or a failure to ask for its status. *)
Definition awaited (s s' : programs * list act) (r : result ExitStatus halt) : Prop :=
  match r with
  | Ok _ | Err OutOfFuel => snd s' = snd s
  | Err (Io e) => snd s' = snd s ++ [Killed; Waited; Joined] \/ (snd s' = snd s /\ exists w w', try_wait w = (w', Err e))
  end.

Lemma await_spec fuel started timeout max : forall s s' r, await fuel started timeout max s = (s', r) -> awaited s s' r.
Proof.
  unfold awaited. induction fuel as [|fuel IH]; intros s s' r; [by intros [= <- <-]|]. cbn [await]. unfold st_bind at 1.
  pose proof (quiet_expired started timeout s) as Hq. destruct (expired started timeout s) as [s1 [[|]|e]] eqn:E; cbn [fst] in Hq.
  - destruct (abandon_spec max s1) as (w' & e & ->). intros [= <- <-]. left. by rewrite Hq.
  - unfold st_bind at 1, outside at 1. destruct (try_wait (fst s1)) as [w [[st|]|e]] eqn:Ew; cbn.
    + by intros [= <- <-].
    + unfold st_bind, outside. cbn [fst snd]. destruct (sleep POLL_INTERVAL w) as [w2 ?]. cbn [snd]. intros H%IH. by rewrite <- Hq.
    + intros [= <- <-]. right. split; [done|]. by eexists _, _.
  - unfold expired, st_bind, outside, st_ret in E. destruct (stopping (fst s)) as [w [|]]; cbn [fst snd] in E; [done|]. by destruct (instant w).
Qed.

End contained.

(** ** Running a program ends *)

(** Time does not go backwards, and a sleep lasts as long as asked. *)
Class TimePasses (P : Programs) := {
  time : programs -> Z;
  instant_reads : forall w, let '(w', t) := instant w in time w <= t /\ t <= time w';
  stopping_passes : forall w, time w <= time (fst (stopping w));
  try_wait_passes : forall w, time w <= time (fst (try_wait w));
  sleep_passes : forall d w, time w + d <= time (fst (sleep d w)) }.

Section ends.
Context {P : Programs} {T : TimePasses P}.

Lemma expired_passes started timeout s : exists s1 b, expired started timeout s = (s1, Ok b) /\ time (fst s) <= time (fst s1) /\
  (b = false -> time (fst s) < started + timeout).
Proof.
  unfold expired, st_bind at 1, outside at 1. pose proof (stopping_passes (fst s)) as H1. destruct (stopping (fst s)) as [w [|]]; cbn [fst snd] in *.
  - by eexists _, _.
  - unfold st_bind, outside. cbn [fst snd]. pose proof (instant_reads w) as H2. destruct (instant w) as [w' t]. cbn [fst snd]. eexists _, _. split; [reflexivity|]. cbn [fst].
    split; [lia|]. rewrite Z.leb_gt. unfold since. lia.
Qed.

Lemma await_ends fuel started timeout max : forall s,
  started + timeout - time (fst s) <= (Z.of_nat fuel - 1) * POLL_INTERVAL -> (0 < fuel)%nat -> snd (await fuel started timeout max s) <> Err OutOfFuel.
Proof.
  induction fuel as [|fuel IH]; intros s Hle Hp; [lia|]. cbn [await]. unfold st_bind at 1.
  destruct (expired_passes started timeout s) as (s1 & [|] & E & H1 & H2); rewrite E.
  - destruct (abandon_spec max s1) as (w' & e & ->). done.
  - specialize (H2 eq_refl). unfold st_bind at 1, outside at 1. pose proof (try_wait_passes (fst s1)) as H3. destruct (try_wait (fst s1)) as [w [[st|]|e]]; [done| |done].
    cbn [fst snd] in *. unfold st_bind, outside. cbn. pose proof (sleep_passes POLL_INTERVAL w) as H4. destruct (sleep POLL_INTERVAL w) as [w2 ?]. cbn [fst] in H4.
    unfold POLL_INTERVAL, from_millis in *. apply IH; cbn [fst]; lia.
Qed.

Lemma limits_end (argv : list bytes) (timeout max : Z) (s : programs * list act) : 0 <= timeout ->
  snd (run_with_limits (turns timeout) argv timeout max s) <> Err OutOfFuel.
Proof.
  destruct s as [w l]. intros Ht. unfold run_with_limits. rewrite bind_outside. destruct (stopping w) as [w1 [|]]; cbn [fst snd]; [done|].
  rewrite bind_outside. destruct (spawn argv w1) as [w2 [[]|e]]; cbn [fst snd]; [|done]. change (io (Ok ())) with (@st_ret (programs * list act) halt unit tt).
  change (st_bind (st_ret tt) ?k (w2, l)) with (k tt (w2, l)). cbn beta. rewrite bind_note, bind_outside.
  pose proof (instant_reads w2) as Hi. destruct (instant w2) as [w3 started]. cbn [fst snd app]. unfold st_bind at 1.
  assert (snd (await (turns timeout) started timeout max (w3, l ++ [Spawned argv])) <> Err OutOfFuel) as Ha.
  { apply await_ends; [|unfold turns; lia]. cbn [fst]. unfold turns. rewrite !Nat2Z.inj_succ, Z2Nat.id by (apply Z.div_pos; unfold POLL_INTERVAL, from_millis; lia).
    change POLL_INTERVAL with 10000000. pose proof (Z.mul_succ_div_gt timeout 10000000 ltac:(lia)). lia. }
  destruct (await (turns timeout) started timeout max (w3, l ++ [Spawned argv])) as [[w4 l4] [status|e]]; [|cbn in *; congruence].
  unfold collect. rewrite bind_kill. unfold st_bind at 1. destruct (join_reader_spec max (fst (kill_group w4), l4 ++ [Killed])) as (w6 & d & _ & ->).
  by destruct d as [[all|e]|].
Qed.

(** Running a program ends within its timeout's worth of polls, whatever the program
    does: with its output, or with an error. *)
Theorem running_ends (argv : list bytes) (timeout max : Z) (w : programs) : 0 <= timeout ->
  snd (run_with_limits (turns timeout) argv timeout max (w, [])) <> Err OutOfFuel.
Proof. apply limits_end. Qed.
End ends.

(** A machine on which a program writes four bytes and exits after 15 ms. *)
Definition demo_machine : Programs := {|
  programs := Z;
  stopping := fun t => (t, false);
  instant := fun t => (t, t);
  spawn := fun _ t => (t, Ok tt);
  try_wait := fun t => (t, Ok (if 15000000 <=? t then Some (Some 0) else None));
  kill_group := fun t => (t, tt);
  wait := fun t => (t, tt);
  drained := fun t => (t, Some (Ok (lit "abcd")));
  sleep := fun d t => (t + d, tt) |}.

Definition demo_time : TimePasses demo_machine.
Proof. refine (Build_TimePasses demo_machine (fun t : Z => t) _ _ _ _); cbn; intros; lia. Defined.


(** The exception of [program_contained] is real: on a machine that refuses to say
    whether the child has exited, the program runs on after the call returned. *)
Definition refusing_machine : Programs := {|
  programs := Z;
  stopping := fun t => (t, false);
  instant := fun t => (t, t);
  spawn := fun _ t => (t, Ok tt);
  try_wait := fun t => (t, Err (mkIoError OtherKind (lit "no child processes")));
  kill_group := fun t => (t, tt);
  wait := fun t => (t, tt);
  drained := fun t => (t, Some (Ok []));
  sleep := fun d t => (t + d, tt) |}.

Example refused_status_leaves_child :
  run_with_limits (P := refusing_machine) 5 [lit "sh"] COLLECTOR_COMMAND_TIMEOUT MAX_OUTPUT_BYTES (0, []) =
  ((0, [Spawned [lit "sh"]]), Err (Io (mkIoError OtherKind (lit "no child processes")))).
Proof. vm_compute. reflexivity. Qed.

Lemma running_ends_witness : 0 <= COLLECTOR_COMMAND_TIMEOUT /\
  snd (run_with_limits (P := demo_machine) (turns COLLECTOR_COMMAND_TIMEOUT) [lit "sh"] COLLECTOR_COMMAND_TIMEOUT MAX_OUTPUT_BYTES (0, [])) <> Err OutOfFuel.
Proof. split; [vm_compute; discriminate|]. apply (running_ends (T := demo_time)). vm_compute. discriminate. Defined.
