(* ===== verification/ModuleLoop.v ===== *)
(** * The loops of the collector modules

    Every module polls, publishes what it read, and waits in slices until its interval is
    over or it is stopped: switch_report.rs, power/collector.rs, power/mod.rs,
    exporters/mod.rs and libvirt/worker.rs.  Clock, cancellation and sleeping are those of
    [Programs]; polls and wait slices are recorded. *)

From Stdlib Require Import String.
From S2P Require Import Prelude Text Command.

Definition WAIT_SLICE : Z := from_millis 250.

Section loop.
Context {P : Programs}.

Inductive event := Polled (started : Z) | Published | Slept (d : Z).
(** [None]: out of fuel. *)
Abbreviation M := (ST (programs * list event) unit).

Definition ask {A} (m : Run programs A) : M A := fun s => let '(w, a) := m (fst s) in ((w, snd s), Ok a).
Definition log_event (e : event) : M unit := fun s => ((fst s, snd s ++ [e]), Ok tt).
Definition nap (d : Z) : M unit := let* _ := ask (sleep d) in log_event (Slept d).

(** [while !stop.cancelled() && Instant::now() < next { sleep(WAIT_SLICE.min(..)) }]. *)
Fixpoint wait_until (fuel : nat) (next : Z) : M unit :=
  match fuel with
  | O => st_err tt
  | S fuel' =>
      let* stop := ask stopping in
      if (stop : bool) then st_ret tt
      else
        let* now := ask instant in
        if now <? next then
          let* now := ask instant in
          let* _ := nap (Z.min WAIT_SLICE (since next now)) in
          wait_until fuel' next
        else st_ret tt
  end.

(** [while !stop.cancelled() && started.elapsed() < interval { sleep(WAIT_SLICE) }]. *)
Fixpoint wait_elapsed (fuel : nat) (started interval : Z) : M unit :=
  match fuel with
  | O => st_err tt
  | S fuel' =>
      let* stop := ask stopping in
      if (stop : bool) then st_ret tt
      else
        let* now := ask instant in
        if since now started <? interval then
          let* _ := nap WAIT_SLICE in
          wait_elapsed fuel' started interval
        else st_ret tt
  end.

(** Slices that are enough for an interval. *)
Definition slices (interval : Z) : nat := S (S (Z.to_nat (interval / WAIT_SLICE))).

Section module.
Context {T R : Type}.
Variable interval : Z.
Variable poll : Run programs R.
(** What is done with a poll's result; [None] is a loop inside that did not end. *)
Variable publish : T -> R -> Run programs (option T).
(** How the module waits, from the instant its poll started. *)
Variable wait : Z -> M unit.
(** Whether a poll that was stopped is dropped. *)
Variable recheck : bool.

Definition publish_all (t : T) (o : R) : M T :=
  let* r := ask (publish t o) in
  let* t := st_of_result (ok_or r tt) in
  let* _ := log_event Published in
  st_ret t.

Fixpoint run_module (fuel : nat) (t : T) : M T :=
  match fuel with
  | O => st_err tt
  | S fuel' =>
      let* stop := ask stopping in
      if (stop : bool) then st_ret t
      else
        let* started := ask instant in
        let* _ := log_event (Polled started) in
        let* o := ask poll in
        let* stop := if recheck then ask stopping else st_ret false in
        if (stop : bool) then st_ret t
        else
          let* t := publish_all t o in
          let* _ := wait started in
          run_module fuel' t
  end.
End module.

(** Until [started + interval], in shortened slices. *)
Definition until_next (interval started : Z) : M unit := wait_until (slices interval) (started + interval).
(** Until [interval] has passed, in whole slices. *)
Definition until_elapsed (interval started : Z) : M unit := wait_elapsed (slices interval) started interval.
End loop.

(** ** Modules keep their interval, and stop *)

(** Once cancelled, always cancelled. *)
Class StopStays (P : Programs) := stop_stays : forall w, snd (stopping w) = true -> snd (stopping (fst (stopping w))) = true.

Section spaced.
Context {P : Programs} {T : TimePasses P} {SS : StopStays P}.

Lemma bind_ask {A B} (m : Run programs A) (k : A -> ST _ unit B) w l : st_bind (ask m) k (w, l) = k (snd (m w)) (fst (m w), l).
Proof. unfold st_bind, ask. cbn [fst snd]. by destruct (m w). Qed.
Lemma bind_log {B} e (k : unit -> ST _ unit B) (w : programs) l : st_bind (log_event e) k (w, l) = k tt (w, l ++ [e]).
Proof. done. Qed.

Definition short_nap (e : event) : Prop := exists d, e = Slept d /\ d <= WAIT_SLICE.
(** A wait that lets the time pass, in short naps, or sees the stop. *)
Definition waits_until (m : ST (programs * list event) unit unit) (w : programs) (l : list event) (next : Z) : Prop :=
  exists w' naps, m (w, l) = ((w', l ++ naps), Ok tt) /\ Forall short_nap naps /\ time w <= time w' /\ (snd (stopping w') = true \/ next <= time w').

Lemma waits_nothing w l next w1 : snd (stopping w) = true -> w1 = fst (stopping w) -> waits_until (st_ret tt) w1 l next.
Proof. intros H ->. exists (fst (stopping w)), []. rewrite app_nil_r. split_and!; [done|constructor|lia|left; by apply stop_stays]. Qed.

(** One slice, then the rest. *)
Lemma waits_more m w w1 l d next : d <= WAIT_SLICE -> time w <= time w1 -> waits_until m w1 (l ++ [Slept d]) next ->
  exists w' naps, m (w1, l ++ [Slept d]) = ((w', l ++ naps), Ok tt) /\ Forall short_nap naps /\ time w <= time w' /\ (snd (stopping w') = true \/ next <= time w').
Proof.
  intros Hd Ht (w' & naps & E & Hn & Hw & H). exists w', (Slept d :: naps). split; [by rewrite E, <- app_assoc|]. split; [constructor; [by exists d|done]|]. split; [lia|done].
Qed.

Lemma wait_until_waits fuel next : forall w l, next - time w <= (Z.of_nat fuel - 1) * WAIT_SLICE -> (0 < fuel)%nat -> waits_until (wait_until fuel next) w l next.
Proof.
  induction fuel as [|fuel IH]; intros w l Hf Hp; [lia|]. unfold waits_until. cbn [wait_until]. rewrite bind_ask.
  pose proof (stopping_passes w) as H1. destruct (snd (stopping w)) eqn:Hs.
  { destruct (waits_nothing w l next _ Hs eq_refl) as (w' & naps & E & ? & ? & ?). exists w', naps. split_and!; [done|done|lia|done]. }
  rewrite bind_ask. pose proof (instant_reads (fst (stopping w))) as H2. destruct (instant (fst (stopping w))) as [w2 now]. cbn [fst snd].
  destruct (Z.ltb_spec now next) as [Hlt|Hge].
  2:{ exists w2, []. rewrite app_nil_r. split_and!; [done|constructor|lia|right; lia]. }
  rewrite bind_ask. pose proof (instant_reads w2) as H3. destruct (instant w2) as [w3 now3]. cbn [fst snd]. set (d := Z.min WAIT_SLICE (since next now3)).
  unfold st_bind at 1, nap. rewrite bind_ask. pose proof (sleep_passes d w3) as H4. unfold log_event. cbn [fst snd].
  assert (0 <= d) by (unfold d, since, WAIT_SLICE, from_millis; lia). apply waits_more; [lia|lia|].
  apply IH; unfold d, since, WAIT_SLICE, from_millis in *; lia.
Qed.

Lemma wait_elapsed_waits fuel started interval : forall w l, 0 < interval -> started + interval - time w <= (Z.of_nat fuel - 1) * WAIT_SLICE -> (0 < fuel)%nat ->
  waits_until (wait_elapsed fuel started interval) w l (started + interval).
Proof.
  induction fuel as [|fuel IH]; intros w l Hi Hf Hp; [lia|]. unfold waits_until. cbn [wait_elapsed]. rewrite bind_ask.
  pose proof (stopping_passes w) as H1. destruct (snd (stopping w)) eqn:Hs.
  { destruct (waits_nothing w l (started + interval) _ Hs eq_refl) as (w' & naps & E & ? & ? & ?). exists w', naps. split_and!; [done|done|lia|done]. }
  rewrite bind_ask. pose proof (instant_reads (fst (stopping w))) as H2. destruct (instant (fst (stopping w))) as [w2 now]. cbn [fst snd].
  destruct (Z.ltb_spec (since now started) interval) as [Hlt|Hge].
  2:{ exists w2, []. rewrite app_nil_r. split_and!; [done|constructor|lia|right; unfold since in Hge; lia]. }
  unfold st_bind at 1, nap. rewrite bind_ask. pose proof (sleep_passes WAIT_SLICE w2) as H4. unfold log_event. cbn [fst snd].
  apply waits_more; [lia|unfold WAIT_SLICE, from_millis in *; lia|]. unfold since in Hlt. apply IH; [done| |]; unfold WAIT_SLICE, from_millis in *; lia.
Qed.

Lemma slices_enough interval started w : 0 < interval -> started <= time w -> started + interval - time w <= (Z.of_nat (slices interval) - 1) * WAIT_SLICE.
Proof.
  intros Hi Hs. unfold slices. rewrite !Nat2Z.inj_succ, Z2Nat.id by (apply Z.div_pos; unfold WAIT_SLICE, from_millis; lia).
  pose proof (Z.mul_succ_div_gt interval WAIT_SLICE ltac:(unfold WAIT_SLICE, from_millis; lia)). lia.
Qed.
End spaced.

Section modules.
Context {P : Programs} {T : TimePasses P} {SS : StopStays P}.
Context {St R : Type}.
Variables (interval : Z) (poll : Run programs R) (publish : St -> R -> Run programs (option St)) (wait : Z -> ST (programs * list event) unit unit) (recheck : bool).
Hypothesis interval_pos : 0 < interval.
Hypothesis poll_passes : forall w, time w <= time (fst (poll w)).
Hypothesis publish_passes : forall t o w, time w <= time (fst (publish t o w)).
Hypothesis waiting : forall started w l, started <= time w -> waits_until (wait started) w l (started + interval).

(** When polls started. *)
Definition starts (l : list event) : list Z := omap (fun e => match e with Polled t => Some t | _ => None end) l.
(** Each is at least the interval after the one before. *)
Definition spaced (l : list Z) : Prop := forall i a b, l !! i = Some a -> l !! (S i) = Some b -> a + interval <= b.
(** The last poll's interval is over. *)
Definition over (l : list event) (w : programs) : Prop := forall a, last_opt (starts l) = Some a -> a + interval <= time w.

Lemma starts_app a b : starts (a ++ b) = starts a ++ starts b.
Proof. apply omap_app. Qed.
Lemma starts_naps naps : Forall short_nap naps -> starts naps = [].
Proof. induction 1 as [|e l (d & -> & _) _ IH]; [done|]. exact IH. Qed.

Lemma spaced_snoc l t : spaced l -> (forall a, last_opt l = Some a -> a + interval <= t) -> spaced (l ++ [t]).
Proof.
  intros Hl Ha i a b Hi Hb. destruct (decide (S i < length l)%nat) as [Hlt|Hge].
  - rewrite lookup_app_l in Hi, Hb by lia. by eapply Hl.
  - pose proof (lookup_lt_Some _ _ _ Hb) as Hlen. rewrite length_app in Hlen. cbn [length] in Hlen. rewrite lookup_app_l in Hi by lia.
    rewrite lookup_app_r in Hb by lia. replace (S i - length l)%nat with 0%nat in Hb by lia. injection Hb as <-. apply Ha.
    destruct l as [|x l _] using rev_ind; [done|]. rewrite last_opt_snoc. rewrite length_app in *. cbn [length] in *. rewrite lookup_app_r in Hi by lia.
    by replace (i - length l)%nat with 0%nat in Hi by lia.
Qed.

Lemma publish_all_spec t o w l : exists w' r, publish_all publish t o (w, l) = ((w', l ++ match r with Ok _ => [Published] | Err _ => [] end), r) /\ time w <= time w' /\
  (r = match snd (publish t o w) with Some t' => Ok t' | None => Err tt end).
Proof.
  unfold publish_all. rewrite bind_ask. pose proof (publish_passes t o w) as H. destruct (publish t o w) as [w1 [t'|]]; cbn [fst snd] in *.
  - by exists w1, (Ok t').
  - exists w1, (Err tt). rewrite app_nil_r. done.
Qed.

Lemma run_module_spaced fuel : forall t w l s' r, spaced (starts l) -> over l w -> run_module poll publish wait recheck fuel t (w, l) = (s', r) -> spaced (starts (snd s')).
Proof.
  induction fuel as [|fuel IH]; intros t w l s' r Hl Ho; cbn [run_module]; [by intros [= <- _]|]. rewrite bind_ask.
  pose proof (stopping_passes w) as H1. destruct (snd (stopping w)); [by intros [= <- _]|].
  rewrite bind_ask. pose proof (instant_reads (fst (stopping w))) as H2. destruct (instant (fst (stopping w))) as [w2 started]. cbn [fst snd]. rewrite bind_log.
  assert (spaced (starts (l ++ [Polled started]))) as Hl1. { rewrite starts_app. apply spaced_snoc; [done|]. intros a Ha. specialize (Ho a Ha). lia. }
  rewrite bind_ask. pose proof (poll_passes w2) as H3. destruct (poll w2) as [w3 o]. cbn [fst snd] in *.
  assert (exists w4 stop, (if recheck then ask stopping else st_ret false) (w3, l ++ [Polled started]) = ((w4, l ++ [Polled started]), Ok stop) /\ time w3 <= time w4) as (w4 & stop & E4 & H4).
  { destruct recheck; [|by exists w3, false]. unfold ask. cbn [fst snd]. pose proof (stopping_passes w3). destruct (stopping w3) as [w4 stop]. by exists w4, stop. }
  unfold st_bind at 1. rewrite E4. destruct stop; [by intros [= <- _]|].
  unfold st_bind at 1. destruct (publish_all_spec t o w4 (l ++ [Polled started])) as (w5 & rp & E5 & H5 & _). rewrite E5. destruct rp as [t'|e].
  2:{ rewrite app_nil_r. by intros [= <- _]. }
  unfold st_bind at 1. destruct (waiting started w5 ((l ++ [Polled started]) ++ [Published]) ltac:(lia)) as (w6 & naps & E6 & Hn & H6 & Hstop). rewrite E6.
  set (l6 := ((l ++ [Polled started]) ++ [Published]) ++ naps).
  assert (starts l6 = starts l ++ [started]) as Es. { unfold l6. rewrite !starts_app, (starts_naps _ Hn). cbn. by rewrite !app_nil_r. }
  destruct Hstop as [Hstop|Hnext].
  - intros E. assert (starts (snd s') = starts l6) as ->; [|rewrite Es; by rewrite starts_app in Hl1].
    destruct fuel as [|fuel]; cbn [run_module] in E; [unfold st_err in E; by injection E as <- _|]. rewrite bind_ask, Hstop in E. by injection E as <- _.
  - apply IH; [rewrite Es; by rewrite starts_app in Hl1|]. intros a. rewrite Es, last_opt_snoc. intros [= <-]. lia.
Qed.

(** Polls start at least the interval apart. *)
Lemma module_polls_spaced (fuel : nat) (t : St) (w : programs) : spaced (starts (snd (fst (run_module poll publish wait recheck fuel t (w, []))))).
Proof.
  destruct (run_module poll publish wait recheck fuel t (w, [])) as [s' r] eqn:E. eapply run_module_spaced; [..|exact E]; [by intros i a b Ha|by intros a Ha].
Qed.

(** Stopped by some time, it returns within as many rounds as intervals fit before it. *)
Lemma module_returns (deadline : Z) (t : St) (w : programs) : (forall w, deadline <= time w -> snd (stopping w) = true) -> (forall t o w, snd (publish t o w) <> None) ->
  exists s' t', run_module poll publish wait recheck (S (S (Z.to_nat ((deadline - time w) / interval)))) t (w, []) = (s', Ok t').
Proof.
  intros Hd Hp. set (n := S _). generalize (@nil event). assert (deadline - time w <= (Z.of_nat n - 1) * interval) as Hn.
  { subst n. destruct (Z.leb_spec deadline (time w)); [nia|]. rewrite !Nat2Z.inj_succ, Z2Nat.id by (apply Z.div_pos; lia). pose proof (Z.mul_succ_div_gt (deadline - time w) interval ltac:(lia)). lia. }
  assert (0 < n)%nat as Hpos by lia. clearbody n. revert t w Hn. induction n as [|n IH]; intros t w Hn l; [lia|]. cbn [run_module]. rewrite bind_ask.
  pose proof (stopping_passes w) as H1. destruct (snd (stopping w)) eqn:Hs; [by eexists _, _|].
  assert (time w < deadline) as Hlt. { destruct (Z.ltb_spec (time w) deadline); [done|]. by rewrite Hd in Hs. }
  rewrite bind_ask. pose proof (instant_reads (fst (stopping w))) as H2. destruct (instant (fst (stopping w))) as [w2 started]. cbn [fst snd]. rewrite bind_log.
  rewrite bind_ask. pose proof (poll_passes w2) as H3. destruct (poll w2) as [w3 o]. cbn [fst snd] in *.
  assert (exists w4 stop, (if recheck then ask stopping else st_ret false) (w3, l ++ [Polled started]) = ((w4, l ++ [Polled started]), Ok stop) /\ time w3 <= time w4) as (w4 & stop & E4 & H4).
  { destruct recheck; [|by exists w3, false]. unfold ask. cbn [fst snd]. pose proof (stopping_passes w3). destruct (stopping w3) as [w4 stop]. by exists w4, stop. }
  unfold st_bind at 1. rewrite E4. destruct stop; [by eexists _, _|].
  unfold st_bind at 1. destruct (publish_all_spec t o w4 (l ++ [Polled started])) as (w5 & rp & E5 & H5 & Er). rewrite E5.
  specialize (Hp t o w4). destruct (snd (publish t o w4)) as [t'|]; [|done]. subst rp.
  unfold st_bind at 1. destruct (waiting started w5 ((l ++ [Polled started]) ++ [Published]) ltac:(lia)) as (w6 & naps & E6 & _ & H6 & Hstop). rewrite E6.
  destruct n as [|n]; [nia|]. destruct Hstop as [Hstop|Hnext].
  - cbn [run_module]. rewrite bind_ask, Hstop. by eexists _, _.
  - apply IH; [lia|nia].
Qed.
End modules.
