(* ===== verification/PolicyLock.v ===== *)
(** * jobs/worker.rs: the policy generation

    [PolicyGeneration] is a counter behind a readers-writer lock that the daemon's
    thread and every job pass share.  Its methods are programs ([code]) of the lock's
    operations; any number of threads call them, interleaved at every one of those
    operations.  A guard dropped at the end of a statement or a block is an unlock of its
    own; a poisoned lock is used as it is, so it behaves like any other.

    The work a pass starts inside [if_current] is a list of actions.  The theorem is that
    the interleaved threads implement the counter Worker.v and Daemon.v use: one whose
    methods happen at once, so a reload and the start of new work have one order. *)

From stdpp Require Import relations.
From S2P Require Import Prelude.

#[local] Set Warnings "-notation-overridden".

Section policy_lock.
Context {A : Type}.                                  (* an action of some work *)

(** What a thread does next.  [Act e a] is an action of work expecting generation [e]. *)
Inductive code :=
| Finish
| LockRead (k : code)
| Load (k : Z -> code)
| UnlockRead (k : code)
| LockWrite (k : code)
| Increment (k : code)
| UnlockWrite (k : code)
| Act (expected : Z) (a : A) (k : code).

(** ** The methods, with what the caller does next *)

Definition current (k : Z -> code) : code := LockRead (Load (fun g => UnlockRead (k g))).
Definition advance (k : code) : code := LockWrite (Increment (UnlockWrite k)).
Definition still_current (expected : Z) (k : bool -> code) : code := current (fun g => k (g =? expected)).

Fixpoint acts (expected : Z) (operation : list A) (k : code) : code :=
  match operation with
  | [] => k
  | a :: rest => Act expected a (acts expected rest k)
  end.
Definition if_current (expected : Z) (operation : list A) (k : bool -> code) : code :=
  LockRead (Load (fun g =>
    if g =? expected then acts expected operation (UnlockRead (k true)) else UnlockRead (k false))).

(** A thread that uses the counter through its methods only. *)
Inductive client : code -> Prop :=
| client_finish : client Finish
| client_current k : (forall g, client (k g)) -> client (current k)
| client_advance k : client k -> client (advance k)
| client_if_current e l k : (forall b, client (k b)) -> client (if_current e l k).

(** ** Threads *)

Inductive event := Advanced (generation : Z) | Acted (expected : Z) (a : A).

Record shared := mkShared {
  generation : Z;
  readers : gset nat;
  writer : option nat;
  history : list event }.

(** What thread [i] does next; [None] when it is finished or has to wait. *)
Definition execute (i : nat) (c : code) (s : shared) : option (shared * code) :=
  match c with
  | Finish => None
  | LockRead k =>
      match writer s with
      | None => Some (mkShared (generation s) ({[i]} ∪ readers s) None (history s), k)
      | Some _ => None
      end
  | Load k => Some (s, k (generation s))
  | UnlockRead k => Some (mkShared (generation s) (readers s ∖ {[i]}) (writer s) (history s), k)
  | LockWrite k =>
      match writer s with
      | None => if bool_decide (readers s = ∅)
                then Some (mkShared (generation s) ∅ (Some i) (history s), k) else None
      | Some _ => None
      end
  | Increment k =>
      let g := wrap 64 (generation s + 1) in
      Some (mkShared g (readers s) (writer s) (history s ++ [Advanced g]), k)
  | UnlockWrite k => Some (mkShared (generation s) (readers s) None (history s), k)
  | Act e a k => Some (mkShared (generation s) (readers s) (writer s) (history s ++ [Acted e a]), k)
  end.

Inductive lock_step : shared * list code -> shared * list code -> Prop :=
| lock_step_at s ts i c s' c' :
    ts !! i = Some c -> execute i c s = Some (s', c') -> lock_step (s, ts) (s', <[i := c']> ts).

(** Threads in the order of a schedule; one that has to wait is passed over. *)
Fixpoint run_schedule (schedule : list nat) (p : shared * list code) : shared * list code :=
  match schedule with
  | [] => p
  | i :: rest =>
      match (let+ c := snd p !! i in execute i c (fst p)) with
      | Some (s', c') => run_schedule rest (s', <[i := c']> (snd p))
      | None => run_schedule rest p
      end
  end.

(** ** The counter as one whose methods happen at once *)

(** [reads_as g l g']: events of a counter that starts at [g] and ends at [g']. *)
Inductive reads_as (g : Z) : list event -> Z -> Prop :=
| reads_nil : reads_as g [] g
| reads_advance l g' : reads_as g l g' -> reads_as g (l ++ [Advanced (wrap 64 (g' + 1))]) (wrap 64 (g' + 1))
| reads_act l g' a : reads_as g l g' -> reads_as g (l ++ [Acted g' a]) g'.

(** ** The invariant: where each thread is, and what it then holds *)

(** A thread that holds the lock to read, at generation [g]. *)
Inductive reading (g : Z) : code -> Prop :=
| reading_load k : reading g (k g) -> reading g (Load k)
| reading_act a k : reading g k -> reading g (Act g a k)
| reading_unlock k : client k -> reading g (UnlockRead k).
Inductive writing : code -> Prop :=
| writing_increment k : writing k -> writing (Increment k)
| writing_unlock k : client k -> writing (UnlockWrite k).

Definition placed (s : shared) (i : nat) (c : code) : Prop :=
  (i ∉ readers s /\ writer s <> Some i /\ client c) \/
  (i ∈ readers s /\ reading (generation s) c) \/
  (writer s = Some i /\ writing c).

Record sound (g0 : Z) (p : shared * list code) : Prop := mkSound {
  so_exclusive : is_Some (writer (fst p)) -> readers (fst p) = ∅;
  so_placed : forall i c, snd p !! i = Some c -> placed (fst p) i c;
  so_holders : forall i, (i ∈ readers (fst p)) \/ writer (fst p) = Some i -> is_Some (snd p !! i);
  so_history : reads_as g0 (history (fst p)) (generation (fst p)) }.

Lemma reading_acts g l k : client k -> reading g (acts g l (UnlockRead k)).
Proof. intros Hk. induction l as [|a l IH]; cbn; by constructor. Qed.

(** What a client does outside the lock is to ask for it. *)
Lemma client_head c : client c ->
  c = Finish \/ (exists k, c = LockRead k /\ forall g, reading g k) \/ (exists k, c = LockWrite k /\ writing k).
Proof.
  intros [|k Hk|k Hk|e l k Hk]; [by left| | |].
  - right; left. eexists. split; [done|]. intros g. do 2 constructor. apply Hk.
  - right; right. eexists. split; [done|]. by do 2 constructor.
  - right; left. eexists. split; [done|]. intros g. constructor. cbn.
    destruct (Z.eqb_spec g e) as [->|]; [apply reading_acts, Hk|constructor; apply Hk].
Qed.

(** A thread the others leave alone stays where it is. *)
Lemma placed_frame s s' j c :
  placed s j c -> (j ∈ readers s <-> j ∈ readers s') -> (writer s = Some j <-> writer s' = Some j) ->
  (j ∈ readers s -> generation s' = generation s) -> placed s' j c.
Proof.
  intros [(H1 & H2 & H3)|[(H1 & H2)|(H1 & H2)]] Hr Hw Hg; [left|right; left|right; right].
  - split_and!; [by rewrite <- Hr|by rewrite <- Hw|done].
  - split; [by apply Hr|]. by rewrite Hg.
  - split; [by apply Hw|done].
Qed.

(** The thread that made a step and the others, put together. *)
Lemma sound_update g0 s ts i c s' c' :
  sound g0 (s, ts) -> ts !! i = Some c -> placed s' i c' ->
  (is_Some (writer s') -> readers s' = ∅) ->
  (forall j, j <> i -> (j ∈ readers s <-> j ∈ readers s') /\ (writer s = Some j <-> writer s' = Some j) /\
                       (j ∈ readers s -> generation s' = generation s)) ->
  reads_as g0 (history s') (generation s') -> sound g0 (s', <[i := c']> ts).
Proof.
  intros [He Hp Hh Hr] Hi Hc Hx Hj Hr'. cbn in *. constructor; cbn; [done| | |done].
  - intros j d Hd. destruct (decide (i = j)) as [<-|Hne].
    + rewrite list_lookup_insert_eq in Hd by (by eapply lookup_lt_Some). by injection Hd as <-.
    + rewrite list_lookup_insert_ne in Hd by done. destruct (Hj j) as (? & ? & ?); [done|]. by eapply placed_frame; [apply Hp| | |].
  - intros j Hhold. apply lookup_lt_is_Some. rewrite length_insert. apply lookup_lt_is_Some.
    destruct (decide (j = i)) as [->|Hne]; [by exists c|]. apply Hh. destruct (Hj j Hne) as (Hr1 & Hw1 & _).
    destruct Hhold; [left; by apply Hr1|right; by apply Hw1].
Qed.

Lemma step_sound g0 p p' : sound g0 p -> lock_step p p' -> sound g0 p'.
Proof.
  intros Hs Hst. destruct Hst as [s ts i c s' c' Hi Hx]. pose proof Hs as [He Hp Hh Hr]. cbn in *.
  destruct (Hp i c Hi) as [(Hni & Hnw & Hc)|[(Hir & Hc)|(Hiw & Hc)]].
  - apply client_head in Hc as [->|[(k & -> & Hk)|(k & -> & Hk)]]; cbn in Hx; [done| |].
    + destruct (writer s) eqn:Ew; [done|]. injection Hx as <- <-. eapply sound_update; try done; cbn.
      * right; left. cbn. split; [set_solver|apply Hk].
      * by intros [? ?].
      * intros j Hj. split_and!; [set_solver|by rewrite Ew|done].
    + destruct (writer s) eqn:Ew; [done|]. case_bool_decide as Ee; [|done]. injection Hx as <- <-.
      eapply sound_update; try done; cbn.
      * by right; right.
      * intros j Hj. rewrite Ee, Ew. split_and!; [done| |done]. split; [done|]. by intros [= ?].
  - assert (writer s = None) as Ew.
    { destruct (writer s) eqn:E; [|done]. rewrite He in Hir by done. set_solver. }
    inversion Hc as [k Hk|a k Hk|k Hk]; subst; injection Hx as <- <-; eapply sound_update; try done; cbn.
    + by right; left.
    + by right; left.
    + by constructor.
    + left. cbn. split_and!; [set_solver|by rewrite Ew|done].
    + rewrite Ew. by intros [? ?].
    + intros j Hj. split_and!; [set_solver|done|done].
  - assert (readers s = ∅) as Er by (apply He; by rewrite Hiw).
    inversion Hc as [k Hk|k Hk]; subst; injection Hx as <- <-; eapply sound_update; try done; cbn.
    + by right; right.
    + intros j Hj. split_and!; [done|done|]. rewrite Er. set_solver.
    + by constructor.
    + left. cbn. split_and!; [rewrite Er; set_solver|done|done].
    + intros j Hj. split_and!; [done| |done]. rewrite Hiw. split; [by intros [= ?]|done].
Qed.

Lemma steps_sound g0 p p' : sound g0 p -> rtc lock_step p p' -> sound g0 p'.
Proof. intros Hs Hst. induction Hst as [|p1 p2 p3 H12 _ IH]; [done|]. by eapply IH, step_sound. Qed.

Lemma run_schedule_steps schedule : forall p, rtc lock_step p (run_schedule schedule p).
Proof.
  induction schedule as [|i rest IH]; intros [s ts]; [apply rtc_refl|]. cbn [run_schedule fst snd].
  destruct (ts !! i) as [c|] eqn:Ei; [cbn [mbind option_bind]|apply IH].
  destruct (execute i c s) as [[s' c']|] eqn:Ex; [|apply IH]. eapply rtc_l; [by econstructor|]. apply IH.
Qed.

Definition started (g0 : Z) (ts : list code) : shared * list code := (mkShared g0 ∅ None [], ts).

Lemma started_sound g0 ts : Forall client ts -> sound g0 (started g0 ts).
Proof.
  intros Hts. constructor; cbn; [by intros [? ?]| | |constructor].
  - intros i c Hi. left. split_and!; [set_solver|done|]. by eapply Forall_lookup_1.
  - intros i [?|?]; [set_solver|done].
Qed.

(** Some thread can always go on: the one that holds the lock, or any. *)
Lemma some_thread_goes_on g0 p :
  sound g0 p -> (exists i c, snd p !! i = Some c /\ c <> Finish) -> exists p', lock_step p p'.
Proof.
  destruct p as [s ts]. intros [He Hp Hh _] (i & c & Hi & Hc). cbn in *.
  assert (forall j d s' d', ts !! j = Some d -> execute j d s = Some (s', d') -> exists p', lock_step (s, ts) p') as Hgo.
  { intros j d s' d' ? ?. eexists. by econstructor. }
  destruct (writer s) as [w|] eqn:Ew.
  { destruct (Hh w) as [d Hd]; [by right|]. destruct (Hp w d Hd) as [(_ & Hn & _)|[(Hr & _)|(_ & Hd')]].
    - by rewrite Ew in Hn.
    - rewrite He in Hr by done. set_solver.
    - inversion Hd'; subst; by eapply Hgo. }
  destruct (set_choose_or_empty (readers s)) as [[r Hr]|Hr].
  { destruct (Hh r) as [d Hd]; [by left|]. destruct (Hp r d Hd) as [(Hn & _)|[(_ & Hd')|(Hw & _)]]; [done| |by rewrite Ew in Hw].
    inversion Hd'; subst; by eapply Hgo. }
  apply leibniz_equiv in Hr.
  destruct (Hp i c Hi) as [(_ & _ & Hcl)|[(Hr' & _)|(Hw & _)]]; [|set_solver|by rewrite Ew in Hw].
  apply client_head in Hcl as [->|[(k & -> & _)|(k & -> & _)]]; [done| |].
  - eapply Hgo; [exact Hi|]. cbn. by rewrite Ew.
  - eapply Hgo; [exact Hi|]. cbn. rewrite Ew, bool_decide_eq_true_2 by done. done.
Qed.

(** Work that acted after a reload expected a later generation than work before it. *)
Lemma no_act_after_advance g l g' :
  reads_as g l g' -> 0 <= g -> g + Z.of_nat (length l) < 2 ^ 64 ->
  g <= g' <= g + Z.of_nat (length l) /\
  forall l1 e l2, l = l1 ++ Advanced e :: l2 -> e <= g' /\ forall x a, Acted x a ∈ l2 -> e <= x.
Proof.
  intros H Hg. induction H as [|l x H IH|l x b H IH]; intros Hn.
  - cbn. split; [lia|]. intros l1 e l2 E. by destruct l1.
  - rewrite length_app in *. cbn in *. destruct IH as [Hx Ha]; [lia|].
    assert (wrap 64 (x + 1) = x + 1) as -> by (apply Z.mod_small; lia). split; [lia|].
    intros l1 e l2 E. destruct (decide (l2 = [])) as [->|Hne].
    + apply app_inj_tail in E as [_ [= ->]]. split; [lia|]. intros y a. by rewrite elem_of_nil.
    + destruct (exists_last Hne) as (l2' & z & ->). rewrite app_comm_cons, app_assoc in E. apply app_inj_tail in E as [-> <-].
      destruct (Ha l1 e l2' eq_refl) as [H1 H2]. split; [lia|]. intros y a [?|Hz]%elem_of_app; [by eapply H2|].
      by apply list_elem_of_singleton in Hz.
  - rewrite length_app in *. cbn in *. destruct IH as [Hx Ha]; [lia|]. split; [lia|].
    intros l1 e l2 E. destruct (decide (l2 = [])) as [->|Hne].
    { by apply app_inj_tail in E as [_ ?]. }
    destruct (exists_last Hne) as (l2' & z & ->). rewrite app_comm_cons, app_assoc in E. apply app_inj_tail in E as [-> <-].
    destruct (Ha l1 e l2' eq_refl) as [H1 H2]. split; [lia|]. intros y a [?|Hz]%elem_of_app; [by eapply H2|].
    apply list_elem_of_singleton in Hz. injection Hz as -> _. done.
Qed.
(** C25. However the threads that share it interleave, the policy generation behaves as a
    counter whose methods happen at once: the work a pass starts under [if_current] acts only
    while the generation it expected is in force, so a reload comes before all of it or
    after, and work after it expected it; nobody reads the counter while it is being advanced; and no thread is ever stuck
    for good, some thread can always go on until all have finished. *)
Theorem generation_changes_between_starts (g0 : Z) (threads : list code) (s : shared) (threads' : list code) :
  Forall client threads -> rtc lock_step (started g0 threads) (s, threads') ->
  reads_as g0 (history s) (generation s) /\
  (0 <= g0 -> g0 + Z.of_nat (length (history s)) < 2 ^ 64 -> forall before e after expected a,
     history s = before ++ Advanced e :: after -> Acted expected a ∈ after -> e <= expected) /\
  (is_Some (writer s) -> readers s = ∅) /\
  ((exists i c, threads' !! i = Some c /\ c <> Finish) -> exists p', lock_step (s, threads') p').
Proof.
  intros Hc Hst. assert (sound g0 (s, threads')) as Hs by (eapply steps_sound; [by apply started_sound|done]).
  split; [apply Hs|]. split_and!; [|apply Hs|].
  { intros Hg Hn before e after x a E. by eapply (no_act_after_advance _ _ _ (so_history _ _ Hs) Hg Hn). }
  intros H. by eapply some_thread_goes_on.
Qed.

End policy_lock.

(** ** A reload while a pass starts a job, to evaluate the theorem on *)

Section sample.
(** The pass expects generation 0 and spawns in two actions; the reload waits for it. *)
Definition pass_thread : code := if_current 0 [1; 2] (fun _ => Finish).
Definition late_pass : code := if_current 0 [3] (fun _ => Finish).
Definition reload_thread : code (A := Z) := advance Finish.
Definition two_passes : list (code (A := Z)) := [pass_thread; reload_thread; late_pass].
Definition raced : shared (A := Z) * list code := run_schedule [0; 1; 0; 0; 1; 0; 0; 1; 2; 1; 1; 2; 2; 2]%nat (started 0 two_passes).

Lemma generation_changes_between_starts_witness :
  history (fst raced) = [Acted 0 1; Acted 0 2; Advanced 1] /\ snd raced = [Finish; Finish; Finish] /\
  reads_as 0 (history (fst raced)) 1.
Proof.
  split; [vm_compute; reflexivity|]. split; [vm_compute; reflexivity|].
  refine (proj1 (generation_changes_between_starts 0 two_passes (fst raced) (snd raced) _ _)).
  - repeat constructor.
  - rewrite <- (surjective_pairing raced). exact (run_schedule_steps _ _).
Defined.
End sample.
