(* ===== verification/Jobs.v ===== *)
(** * jobs/mod.rs: capabilities, the operator's policy and the catalog

    A capability is what the agent was compiled with; the policy is the
    operator's [[jobs]] configuration.  Renga can only ask for what both allow:
    [enabled_keys] is what the agent advertises and leases with, [enabled]
    is the check repeated on every leased job. *)

From Stdlib Require Import String.
From S2P Require Import Prelude Text.

Inductive RiskClass := Observe | Operate | Interactive.
Inductive RetryClass := Idempotent | Convergent | Imperative.

Inductive JobFailure :=
| Cancelled
| Failed (reason : bytes).

#[export] Instance RiskClass_eq_dec : EqDecision RiskClass.
Proof. solve_decision. Defined.
#[export] Instance RetryClass_eq_dec : EqDecision RetryClass.
Proof. solve_decision. Defined.
#[export] Instance JobFailure_eq_dec : EqDecision JobFailure.
Proof. solve_decision. Defined.

(** The [Capability] trait, less [run]: what the agent knows of a capability
    before it runs.  A query overrides [enabled_by_default]. *)
Record Capability := mkCapability {
  cap_name : bytes;
  cap_version : Z;
  risk_class : RiskClass;
  retry_class : RetryClass;
  timeout : Z;
  enabled_by_default : bool }.

(** The trait's default for [enabled_by_default]. *)
Definition default_enabled (risk : RiskClass) : bool := bool_decide (risk = Observe).

(** [Capability::key]. *)
Definition cap_key (c : Capability) : bytes :=
  cap_name c ++ lit "@" ++ show_u64 (cap_version c).

Record CapabilityKey := mkKey { key_name : bytes; key_version : Z }.

#[export] Instance CapabilityKey_eq_dec : EqDecision CapabilityKey.
Proof. solve_decision. Defined.

Definition valid_segment (segment : bytes) : bool :=
  match segment with
  | [] => false
  | b :: bs =>
      is_ascii_lowercase b
      && forallb (fun b => is_ascii_lowercase b || is_ascii_digit b || (b =? 95)) bs
  end.

Definition valid_name (name : bytes) : bool :=
  let segments := split_on 46 name in
  Nat.leb 2 (length segments) && forallb valid_segment segments.

(** [CapabilityKey::parse]. *)
Definition parse_key (key : bytes) : option CapabilityKey :=
  let+ (name, raw_version) := split_once 64 key in
  let+ version := parse_uint U32_MAX raw_version in
  if negb (0 <? version) then None
  else if negb (valid_name name) || negb (str_eqb (show_u64 version) raw_version) then None
  else Some (mkKey name version).

(** [Display for CapabilityKey]. *)
Definition show_key (k : CapabilityKey) : bytes :=
  key_name k ++ lit "@" ++ show_u64 (key_version k).

Inductive Selector :=
| SelName (name : bytes)
| SelKey (key : CapabilityKey).

Definition parse_selector (entry : bytes) : option Selector :=
  if existsb (fun b => b =? 64) entry then option_map SelKey (parse_key entry)
  else if valid_name entry then Some (SelName entry) else None.

Definition selector_matches (s : Selector) (c : Capability) : bool :=
  match s with
  | SelName name => str_eqb name (cap_name c)
  | SelKey key => str_eqb (key_name key) (cap_name c) && (key_version key =? cap_version c)
  end.

(** [enabled]: [None] until the operator chooses. *)
Record JobPolicy := mkPolicy { enabled_selectors : option (list Selector) }.

Definition allows (p : JobPolicy) (c : Capability) : bool :=
  match enabled_selectors p with
  | None => enabled_by_default c
  | Some selectors => existsb (fun s => selector_matches s c) selectors
  end.

Abbreviation Catalog := (list Capability).

Definition enabled_keys (catalog : Catalog) (p : JobPolicy) : list bytes :=
  map cap_key (List.filter (allows p) catalog).

Definition enabled (catalog : Catalog) (key : bytes) (p : JobPolicy) : option Capability :=
  find_by (fun c => str_eqb (cap_key c) key && allows p c) catalog.

(** ** Lemmas *)

Lemma valid_name_no_at name : valid_name name = true -> 64 ∉ name.
Proof.
  unfold valid_name. intros Hv. bool_simpl. intros Hin.
  rewrite <- (join_split_on 46 name) in Hin.
  match goal with H : forallb _ _ = true |- _ => revert H Hin end.
  generalize (split_on 46 name). clear.
  assert (forall s, valid_segment s = true -> 64 ∉ s) as Hseg.
  { intros [|b s]; simpl; [done|]. intros Hs. bool_simpl.
    apply not_elem_of_cons. split.
    - intros <-. done.
    - intros Hin%list_elem_of_In. rewrite forallb_forall in H0.
      specialize (H0 _ Hin). done. }
  induction l as [|s [|s' l] IH]; intros Hf Hin.
  - simpl in Hin. by apply not_elem_of_nil in Hin.
  - cbn [forallb join] in *. bool_simpl. by apply (Hseg s).
  - cbn [forallb] in Hf. bool_simpl. rewrite join_cons in Hin.
    apply elem_of_app in Hin as [Hin|Hin]; [by apply (Hseg s)|].
    apply elem_of_cons in Hin as [?|Hin]; [done|]. apply IH; [|done].
    cbn [forallb]. by repeat (apply andb_true_iff; split).
Qed.

Lemma parse_key_inv key k :
  parse_key key = Some k ->
  key = show_key k /\ valid_name (key_name k) = true /\ 1 <= key_version k <= U32_MAX.
Proof.
  unfold parse_key, show_key. destruct (split_once 64 key) as [[nm raw]|] eqn:Hs;
    cbn [mbind option_bind]; [|discriminate].
  destruct (parse_uint U32_MAX raw) as [v|] eqn:Hv; cbn [mbind option_bind]; [|discriminate].
  destruct (Z.ltb_spec 0 v); cbn [negb]; [|discriminate].
  destruct (valid_name nm) eqn:Hn; cbn [negb orb]; [|discriminate].
  destruct (str_eqb (show_u64 v) raw) eqn:Hr; cbn [negb]; [|discriminate].
  intros [= <-]. cbn [key_name key_version]. apply str_eqb_eq in Hr. subst raw.
  apply split_once_Some in Hs as [-> _]. apply parse_uint_range in Hv; [|done].
  repeat split; auto; lia.
Qed.

Lemma parse_key_show k :
  valid_name (key_name k) = true -> 1 <= key_version k <= U32_MAX ->
  parse_key (show_key k) = Some k.
Proof.
  intros Hn Hv. unfold parse_key, show_key.
  change (lit "@" ++ ?x) with (64 :: x).
  rewrite split_once_app by (by apply valid_name_no_at).
  cbn [mbind option_bind].
  rewrite parse_uint_show by (unfold U32_MAX in *; lia). cbn [mbind option_bind].
  destruct (Z.ltb_spec 0 (key_version k)); [|lia]. cbn [negb].
  rewrite Hn, str_eqb_refl. cbn [negb orb]. by destruct k.
Qed.

(** ** Properties *)

(** Capability keys: parsing accepts exactly the keys Renga writes, one
    text per key: [parse] succeeds iff the name is valid, the version is a
    positive [u32], and the text is that key's own display. *)
Theorem parse_key_iff key k :
  parse_key key = Some k <->
  key = show_key k /\ valid_name (key_name k) = true /\ 1 <= key_version k <= U32_MAX.
Proof.
  split; [apply parse_key_inv|]. intros (-> & Hn & Hv). by apply parse_key_show.
Qed.

(** A leased job's key resolves to a capability exactly when the agent
    advertises the key under the same policy, and the capability found is
    compiled in, has that key, and is allowed: a server cannot name work the
    policy does not enable. *)
Theorem enabled_iff_advertised catalog p key :
  (key ∈ enabled_keys catalog p <-> is_Some (enabled catalog key p)) /\
  (forall c, enabled catalog key p = Some c ->
     c ∈ catalog /\ cap_key c = key /\ allows p c = true).
Proof.
  unfold enabled_keys, enabled. split.
  - rewrite list_elem_of_In, in_map_iff. split.
    + intros (c & Hk & [Hc Ha]%filter_In).
      destruct (find_by _ catalog) eqn:E; [eauto|].
      rewrite find_by_None, List.Forall_forall in E. specialize (E _ Hc).
      by rewrite Hk, str_eqb_refl, Ha in E.
    + intros [c Hc]. apply find_by_Some in Hc as [Hin Hb]. bool_simpl.
      exists c. split; [by apply str_eqb_eq|]. apply filter_In.
      by rewrite <- list_elem_of_In.
  - intros c Hc. apply find_by_Some in Hc as [Hin Hb]. bool_simpl.
    repeat split; auto. by apply str_eqb_eq.
Qed.

(** An explicit policy list, even an empty one, enables exactly what its
    entries name: a capability is allowed iff some configured entry parses to
    its name or to its [name@version] key. *)
Theorem explicit_policy_exact entries c :
  allows (mkPolicy (Some (omap parse_selector entries))) c = true <->
  exists e, e ∈ entries /\
    ((e = cap_name c /\ valid_name e = true /\ 64 ∉ e) \/
     (exists v, v = cap_version c /\ e = show_key (mkKey (cap_name c) v) /\
        valid_name (cap_name c) = true /\ 1 <= v <= U32_MAX)).
Proof.
  unfold allows. simpl. rewrite existsb_exists. split.
  - intros (s & Hs & Hm). apply list_elem_of_In, list_elem_of_omap in Hs as (e & He & Hp).
    exists e. split; [done|]. unfold parse_selector in Hp.
    destruct (existsb _ e) eqn:Hat.
    + destruct (parse_key e) as [k|] eqn:Hk; [|done]. injection Hp as <-.
      apply parse_key_inv in Hk as (-> & Hn & Hv). simpl in Hm. bool_simpl.
      apply str_eqb_eq in H. right. exists (cap_version c). subst.
      destruct k as [n v]. simpl in *. subst. auto.
    + destruct (valid_name e) eqn:Hn; [|done]. injection Hp as <-.
      simpl in Hm. apply str_eqb_eq in Hm. left. repeat split; auto.
      by apply valid_name_no_at.
  - intros (e & He & [(-> & Hn & Hat)|(v & -> & -> & Hn & Hv)]).
    + exists (SelName (cap_name c)). split; [|apply str_eqb_refl].
      apply list_elem_of_In, list_elem_of_omap. exists (cap_name c). split; [done|].
      unfold parse_selector. rewrite Hn.
      destruct (existsb _ _) eqn:Hex; [|done].
      apply existsb_exists in Hex as (b & Hb & ->%Z.eqb_eq).
      by rewrite <- list_elem_of_In in Hb.
    + exists (SelKey (mkKey (cap_name c) (cap_version c))).
      split; [|simpl; by rewrite str_eqb_refl, Z.eqb_refl].
      apply list_elem_of_In, list_elem_of_omap. eexists. split; [exact He|].
      unfold parse_selector. rewrite (parse_key_show (mkKey _ _)) by done.
      replace (existsb _ _) with true; [done|]. symmetry.
      apply existsb_exists. exists 64. split; [|done]. unfold show_key.
      apply in_app_iff. right. by left.
Qed.
