(* ===== verification/Fs.v ===== *)
(** * Fs: the file-system calls the agent's durable state rests on

    One directory of files, as the standard library's [std::fs] shows it, with
    an environment.  Every call first takes one event of the environment: other
    processes may remove files before it, it may fail, and the machine may
    crash, after which every later call fails and changes nothing.  An empty
    list of events is an undisturbed machine.  The theorems of the components
    quantify over the events, so they hold for every failure and every
    interleaving with removals by another agent process.

    A crash is seen from the running program: what a call has done before it
    stays.  Losing writes that were not yet synced is not modelled. *)

From S2P Require Import Prelude Text.

Inductive FileKind := Regular | Directory | Symlink.

Record file := mkFile { file_kind : FileKind; contents : bytes; modified : Z }.

Record event := mkEvent {
  steal : list bytes;     (* files other processes remove first *)
  fails : bool;           (* whether this call fails *)
  partial : nat;          (* how much of a failing write reaches the file *)
  crash : bool }.         (* whether the machine stops here *)

Record world := mkWorld {
  files : gmap bytes file;
  events : list event;
  crashed : bool }.

Inductive io_kind := NotFound | AlreadyExists | OtherError.

#[export] Instance FileKind_eq_dec : EqDecision FileKind.
Proof. solve_decision. Defined.
#[export] Instance file_eq_dec : EqDecision file.
Proof. solve_decision. Defined.
#[export] Instance io_kind_eq_dec : EqDecision io_kind.
Proof. solve_decision. Defined.

Definition with_files (w : world) (f : gmap bytes file -> gmap bytes file) : world :=
  mkWorld (f (files w)) (events w) (crashed w).

(** What the environment does before the next call, and whether the call
    fails (with how much of a write going through). *)
Definition next_event (w : world) : world * option nat :=
  if crashed w then (w, Some O)
  else match events w with
       | [] => (w, None)
       | e :: es =>
           let stolen := foldr (fun n m => delete n m) (files w) (steal e) in
           (mkWorld stolen es (crash e),
            if crash e then Some O else if fails e then Some (partial e) else None)
       end.

Abbreviation fs := (ST world io_kind).

(** A call that can only fail as a whole. *)
Definition fs_call {A} (f : world -> world * result A io_kind) : fs A := fun w =>
  match next_event w with
  | (w', Some _) => (w', Err OtherError)
  | (w', None) => f w'
  end.

(** [fs::read_dir], the names of the entries. *)
Definition read_dir : fs (list bytes) :=
  fs_call (fun w => (w, Ok (map fst (map_to_list (files w))))).

(** [fs::symlink_metadata]: the entry itself, links not followed. *)
Definition symlink_metadata (name : bytes) : fs file :=
  fs_call (fun w => (w, match files w !! name with
                        | Some f => Ok f
                        | None => Err NotFound
                        end)).

(** [fs::read] of a regular file. *)
Definition read_file (name : bytes) : fs bytes :=
  fs_call (fun w => (w, match files w !! name with
                        | Some (mkFile Regular c _) => Ok c
                        | Some _ => Err OtherError
                        | None => Err NotFound
                        end)).

(** [fs::remove_file]: unlinks anything but a directory. *)
Definition remove_file (name : bytes) : fs unit :=
  fs_call (fun w => match files w !! name with
                    | Some (mkFile Directory _ _) => (w, Err OtherError)
                    | Some _ => (with_files w (delete name), Ok tt)
                    | None => (w, Err NotFound)
                    end).

(** [OpenOptions::new().write(true).create_new(true).open(..)], at time [now]. *)
Definition create_new (now : Z) (name : bytes) : fs unit :=
  fs_call (fun w => match files w !! name with
                    | Some _ => (w, Err AlreadyExists)
                    | None => (with_files w (insert name (mkFile Regular [] now)), Ok tt)
                    end).

(** [file.write_all(body).and_then(|()| file.sync_all())] through the handle
    of a file just created under [name]; a failing write leaves a part of the
    body.  Removing the name meanwhile leaves the handle writable. *)
Definition write_and_sync (now : Z) (name : bytes) (body : bytes) : fs unit := fun w =>
  let put w c :=
    with_files w (fun m => match m !! name with
                           | Some _ => insert name (mkFile Regular c now) m
                           | None => m
                           end) in
  match next_event w with
  | (w', Some n) => (if crashed w' then w' else put w' (take n body), Err OtherError)
  | (w', None) => (put w' body, Ok tt)
  end.

(** [fs::rename] of a file: atomically replaces the target, unless that is a
    directory. *)
Definition rename (from to : bytes) : fs unit :=
  fs_call (fun w => match files w !! from, files w !! to with
                    | None, _ => (w, Err NotFound)
                    | Some _, Some (mkFile Directory _ _) => (w, Err OtherError)
                    | Some f, _ => (with_files w (fun m => insert to f (delete from m)), Ok tt)
                    end).

(** [fs::hard_link]: never replaces an existing target. *)
Definition hard_link (from to : bytes) : fs unit :=
  fs_call (fun w => match files w !! from, files w !! to with
                    | None, _ => (w, Err NotFound)
                    | Some _, Some _ => (w, Err AlreadyExists)
                    | Some f, None => (with_files w (insert to f), Ok tt)
                    end).

(** [File::open(dir).and_then(|d| d.sync_all())]. *)
Definition sync_dir : fs unit := fs_call (fun w => (w, Ok tt)).

(** [fs::create_dir_all] of the directory itself, which the model always has. *)
Definition create_dir_all : fs unit := fs_call (fun w => (w, Ok tt)).

(** ** What every call preserves

    [touches S w w']: outside the names of [S] files can only have been removed
    (by other processes), never changed or created. *)

Definition touches (S : bytes -> Prop) (w w' : world) : Prop :=
  forall n, ~ S n -> files w' !! n = files w !! n \/ files w' !! n = None.

Lemma touches_refl S w : touches S w w.
Proof. intros n _. by left. Qed.

Lemma touches_trans S w1 w2 w3 : touches S w1 w2 -> touches S w2 w3 -> touches S w1 w3.
Proof.
  intros H12 H23 n Hn. destruct (H23 n Hn) as [E|E]; [|by right].
  destruct (H12 n Hn) as [E'|E']; [left|right]; congruence.
Qed.

Lemma touches_mono (S T : bytes -> Prop) w w' :
  (forall n, S n -> T n) -> touches S w w' -> touches T w w'.
Proof. intros HST H n Hn. apply H. auto. Qed.

#[export] Hint Resolve touches_refl : agent.

Lemma lookup_foldr_delete (l : list bytes) (m : gmap bytes file) n :
  foldr (fun n m => delete n m) m l !! n = m !! n \/ foldr (fun n m => delete n m) m l !! n = None.
Proof.
  induction l as [|x l IH]; simpl; [by left|]. rewrite lookup_delete. case_decide; auto.
Qed.

Lemma next_event_touches S w : touches S w (fst (next_event w)).
Proof.
  unfold next_event. destruct (crashed w); simpl; [apply touches_refl|].
  destruct (events w) as [|e es]; simpl; [apply touches_refl|].
  intros n _. simpl. apply lookup_foldr_delete.
Qed.

(** A call that leaves its world alone. *)
Lemma fs_call_read {A} (f : world -> world * result A io_kind) S w w' r :
  (forall w, fst (f w) = w) -> fs_call f w = (w', r) -> touches S w w'.
Proof.
  intros Hf. unfold fs_call. pose proof (next_event_touches S w) as Ht.
  destruct (next_event w) as [w1 [n|]]; simpl in Ht.
  - by intros [= <- <-].
  - intros E. specialize (Hf w1). rewrite E in Hf. simpl in Hf. by subst.
Qed.

Lemma remove_file_touches name w w' r :
  remove_file name w = (w', r) -> touches (fun n => n = name) w w'.
Proof.
  unfold remove_file, fs_call. pose proof (next_event_touches (fun n => n = name) w) as Ht.
  destruct (next_event w) as [w1 [k|]]; simpl in Ht; [by intros [= <- <-]|].
  destruct (files w1 !! name) as [[[] c m]|]; intros [= <- <-]; try done;
    (eapply touches_trans; [exact Ht|]); intros n Hn; left; simpl; by apply lookup_delete_ne.
Qed.

(** ** Writing beside a file and renaming over it

    What the queue, the job record and the saved home do; atomic whatever
    fails. *)

Section atomic.
Variables (name : bytes) (old : option file) (body : bytes).

(** What the file under [name] may be, once such a write has begun:
    what it was, gone, or the whole body. *)
Definition atomic (w : world) : Prop :=
  files w !! name = old \/ files w !! name = None \/
  exists t, files w !! name = Some (mkFile Regular body t).

(** The temporary holds the whole body, or another process removed it. *)
Definition staged (tmp : bytes) (w : world) : Prop :=
  files w !! tmp = None \/ exists t, files w !! tmp = Some (mkFile Regular body t).

Lemma atomic_touches S w w' : atomic w -> ~ S name -> touches S w w' -> atomic w'.
Proof.
  intros Ha HS Ht. destruct (Ht name HS) as [E|E]; unfold atomic in *; rewrite E; auto.
Qed.

Lemma create_new_touches now tmp w w' r :
  create_new now tmp w = (w', r) -> touches (fun n => n = tmp) w w'.
Proof.
  unfold create_new, fs_call. pose proof (next_event_touches (fun n => n = tmp) w) as Ht.
  destruct (next_event w) as [w1 [k|]]; simpl in Ht; [by intros [= <- <-]|].
  destruct (files w1 !! tmp); intros [= <- <-]; [done|].
  eapply touches_trans; [exact Ht|]. intros n Hn. left. simpl. by apply lookup_insert_ne.
Qed.

Lemma write_and_sync_stages now tmp w w' r :
  write_and_sync now tmp body w = (w', r) ->
  touches (fun n => n = tmp) w w' /\ (r = Ok tt -> staged tmp w').
Proof.
  unfold write_and_sync. pose proof (next_event_touches (fun n => n = tmp) w) as Ht.
  assert (forall w0 c, touches (fun n => n = tmp) w0 (with_files w0 (fun m =>
    match m !! tmp with Some _ => <[tmp := mkFile Regular c now]> m | None => m end))) as Hput.
  { intros w0 c n Hn. left. simpl. case_match; [|done]. by apply lookup_insert_ne. }
  destruct (next_event w) as [w1 [k|]]; simpl in Ht; intros [= <- <-].
  - split; [|done]. destruct (crashed w1); [done|]. by eapply touches_trans.
  - split; [by eapply touches_trans|]. intros _. unfold staged. simpl.
    destruct (files w1 !! tmp) eqn:E; [|by left]. rewrite lookup_insert_eq. eauto.
Qed.

Lemma rename_atomic tmp w w' r :
  tmp <> name -> atomic w -> staged tmp w -> rename tmp name w = (w', r) -> atomic w'.
Proof.
  intros Hne Ha Hst. unfold rename, fs_call. pose proof (next_event_touches (fun _ => False) w) as Ht.
  destruct (next_event w) as [w1 ev]; simpl in Ht.
  assert (atomic w1) as Ha1 by (eapply atomic_touches; [exact Ha| |exact Ht]; tauto).
  destruct ev; [by intros [= <- <-]|].
  destruct (files w1 !! tmp) as [f|] eqn:Ef; [|by intros [= <- <-]].
  assert (exists t, f = mkFile Regular body t) as [t ->].
  { destruct (Ht tmp ltac:(tauto)) as [E|E]; [|congruence].
    destruct Hst as [Hst|[t Hst]]; [congruence|]. exists t. congruence. }
  assert (atomic (with_files w1 (fun m => <[name := mkFile Regular body t]> (delete tmp m)))) as Hdone.
  { right; right. exists t. simpl. apply lookup_insert_eq. }
  repeat case_match; by intros [= <- <-].
Qed.

(** The whole sequence. *)
Lemma replace_atomic now tmp w w' r :
  tmp <> name -> atomic w ->
  (let* _ := create_new now tmp in
   let* _ := write_and_sync now tmp body in
   let* _ := rename tmp name in sync_dir) w = (w', r) ->
  atomic w'.
Proof.
  intros Hne Ha. assert (forall w1 w2, atomic w1 -> touches (fun n => n = tmp) w1 w2 -> atomic w2) as Hstep.
  { intros w1 w2 H1 Hw. eapply atomic_touches; [exact H1| |exact Hw]. congruence. }
  unfold st_bind at 1. destruct (create_new now tmp w) as [w1 r1] eqn:E1. apply create_new_touches in E1.
  destruct r1 as [[]|]; [|intros [= <- <-]; by eapply Hstep].
  unfold st_bind at 1. destruct (write_and_sync now tmp body w1) as [w2 r2] eqn:E2.
  apply write_and_sync_stages in E2 as [T2 S2].
  destruct r2 as [[]|]; [|intros [= <- <-]; eapply Hstep; [by eapply Hstep|exact T2]].
  unfold st_bind at 1. destruct (rename tmp name w2) as [w3 r3] eqn:E3.
  apply rename_atomic in E3; [|done|by eapply Hstep; [by eapply Hstep|]|by apply S2].
  destruct r3 as [[]|]; [|by intros [= <- <-]]. intros E4.
  eapply atomic_touches; [exact E3| |eapply (fs_call_read _ (fun _ => False)); [|exact E4]; done]. tauto.
Qed.

End atomic.

(** ** Files no other process removes *)

Definition keeps (n : bytes) (w : world) : Prop := Forall (fun e => n ∉ steal e) (events w).

Lemma next_event_keeps n w :
  keeps n w -> keeps n (fst (next_event w)) /\ files (fst (next_event w)) !! n = files w !! n.
Proof.
  intros Hk. unfold next_event. destruct (crashed w); [done|].
  destruct (events w) as [|e es] eqn:E; [done|]. unfold keeps in *. rewrite E in Hk.
  inversion Hk as [|? ? He Hes]; subst. simpl. split; [done|].
  induction (steal e) as [|x l IH]; simpl; [done|].
  rewrite lookup_delete_ne by set_solver. apply IH. set_solver.
Qed.

(** A call that, once it runs, leaves the file under [n] alone. *)
Definition spares (n : bytes) (w w' : world) : Prop := keeps n w' /\ files w' !! n = files w !! n.

Lemma spares_trans n w1 w2 w3 : spares n w1 w2 -> spares n w2 w3 -> spares n w1 w3.
Proof. intros [? E] [? E']. split; [done|congruence]. Qed.

Lemma fs_call_spares {A} (f : world -> world * result A io_kind) n w w' r :
  keeps n w -> (forall w, events (fst (f w)) = events w /\ files (fst (f w)) !! n = files w !! n) ->
  fs_call f w = (w', r) -> spares n w w'.
Proof.
  intros Hk Hf. unfold fs_call. destruct (next_event_keeps n w Hk) as [Hk' E].
  destruct (next_event w) as [w1 [k|]]; simpl in *; [by intros [= <- <-]|].
  intros Er. destruct (Hf w1) as [Ee Ef]. rewrite Er in Ee, Ef. simpl in *.
  split; [unfold keeps in *; by rewrite Ee|congruence].
Qed.

Lemma create_new_spares now tmp n w w' r :
  keeps n w -> n <> tmp -> create_new now tmp w = (w', r) -> spares n w w'.
Proof.
  intros Hk Hn. apply fs_call_spares; [done|]. intros w0. case_match; [done|]. simpl.
  by rewrite lookup_insert_ne.
Qed.

Lemma write_and_sync_spares now tmp body n w w' r :
  keeps n w -> n <> tmp -> write_and_sync now tmp body w = (w', r) -> spares n w w'.
Proof.
  intros Hk Hn. unfold write_and_sync. destruct (next_event_keeps n w Hk) as [Hk' E].
  destruct (next_event w) as [w1 [k|]]; simpl in *; intros [= <- <-].
  - destruct (crashed w1); [done|]. split; [done|]. simpl. rewrite <- E. case_match; [|done].
    by rewrite lookup_insert_ne.
  - split; [done|]. simpl. rewrite <- E. case_match; [|done]. by rewrite lookup_insert_ne.
Qed.

Lemma remove_file_spares tmp n w w' r :
  keeps n w -> n <> tmp -> remove_file tmp w = (w', r) -> spares n w w'.
Proof.
  intros Hk Hn. apply fs_call_spares; [done|]. intros w0. repeat case_match; simpl; try done;
    by rewrite lookup_delete_ne.
Qed.

(** A rename over a kept file replaces it when it succeeds and leaves it alone
    when it fails. *)
Lemma rename_keeps body tmp name w w' r :
  keeps name w -> staged body tmp w -> rename tmp name w = (w', r) ->
  keeps name w' /\
  match r with
  | Ok _ => exists t, files w' !! name = Some (mkFile Regular body t)
  | Err _ => files w' !! name = files w !! name
  end.
Proof.
  intros Hk Hst. unfold rename, fs_call. destruct (next_event_keeps name w Hk) as [Hk' E].
  pose proof (next_event_touches (fun _ => False) w) as Ht.
  destruct (next_event w) as [w1 [k|]]; simpl in *; [by intros [= <- <-]|].
  destruct (files w1 !! tmp) as [f|] eqn:Ef; [|by intros [= <- <-]].
  assert (exists t, f = mkFile Regular body t) as [t ->].
  { destruct (Ht tmp ltac:(tauto)) as [E1|E1]; [|congruence].
    destruct Hst as [Hst|[t Hst]]; [congruence|]. exists t. congruence. }
  repeat case_match; intros [= <- <-]; (split; [done|]); try congruence; simpl;
    rewrite lookup_insert_eq; eauto.
Qed.

(** Writing beside a kept file and renaming over it: success leaves the whole
    body there, failure the old file or the whole body. *)
Lemma replace_keeps now tmp name body w w' r :
  keeps name w -> tmp <> name ->
  (let* _ := create_new now tmp in
   let* _ := write_and_sync now tmp body in
   let* _ := rename tmp name in sync_dir) w = (w', r) ->
  keeps name w' /\
  let written := exists t, files w' !! name = Some (mkFile Regular body t) in
  match r with Ok _ => written | Err _ => files w' !! name = files w !! name \/ written end.
Proof.
  intros Hk Hne. unfold st_bind at 1. destruct (create_new now tmp w) as [w1 r1] eqn:E1.
  apply create_new_spares with (n := name) in E1 as [K1 F1]; [|done..].
  destruct r1 as [[]|]; [|intros [= <- <-]; auto].
  unfold st_bind at 1. destruct (write_and_sync now tmp body w1) as [w2 r2] eqn:E2.
  pose proof (write_and_sync_stages body now tmp _ _ _ E2) as [_ Hst].
  apply write_and_sync_spares with (n := name) in E2 as [K2 F2]; [|done..].
  destruct r2 as [[]|]; [|intros [= <- <-]; split; [done|left; congruence]]. specialize (Hst eq_refl).
  unfold st_bind at 1. destruct (rename tmp name w2) as [w3 r3] eqn:E3.
  apply rename_keeps with (body := body) in E3 as [K3 F3]; [|done..].
  destruct r3 as [[]|e]; [|intros [= <- <-]; split; [done|left; congruence]]. intros E4.
  apply fs_call_spares with (n := name) in E4 as [K4 F4]; [|done..].
  split; [done|]. rewrite F4. destruct r; [done|by right].
Qed.

(** ** On an undisturbed machine the calls do just what they say *)
Definition calm (w : world) : Prop := events w = [] /\ crashed w = false.

Lemma fs_call_calm {A} (f : world -> world * result A io_kind) w :
  calm w -> fs_call f w = f w.
Proof. intros [He Hc]. unfold fs_call, next_event. by rewrite Hc, He. Qed.

Lemma calm_with_files w g : calm w -> calm (with_files w g).
Proof. done. Qed.

#[export] Hint Resolve calm_with_files : agent.

Lemma remove_file_calm name f w :
  calm w -> files w !! name = Some f -> file_kind f = Regular ->
  remove_file name w = (with_files w (delete name), Ok tt).
Proof.
  intros Hw Hf Hk. unfold remove_file. rewrite fs_call_calm by done.
  rewrite Hf. destruct f as [[] c m]; done.
Qed.

Lemma read_file_calm name c m w :
  calm w -> files w !! name = Some (mkFile Regular c m) ->
  read_file name w = (w, Ok c).
Proof. intros Hw Hf. unfold read_file. rewrite fs_call_calm by done. by rewrite Hf. Qed.
