(* ===== verification/Processes.v ===== *)
(** * Processes: agent processes sharing a state directory

    Two agent processes may start for the first time together, so the code that
    creates the installation's identity and key is modelled as a program of
    file-system calls ([prog]) rather than as one state transformer.  Any number
    of programs run interleaved over one directory ([pool_step]), each call with
    an outcome the environment picks: it may fail, and a failing write leaves a
    part of its bytes.  [rg] is a rely/guarantee judgement on programs, computed
    by recursion on them, and [pool_sound] its soundness for every interleaving. *)

From S2P Require Import Prelude Text Fs.

(** A file of the directory; [mode] is its permission bits. *)
Record node := mkNode { node_kind : FileKind; node_contents : bytes; mode : Z }.

(** The state directory: what is at its path, its mode, and its files. *)
Record dir := mkDir { dir_kind : option FileKind; dir_mode : Z; nodes : gmap bytes node }.

Definition with_nodes (d : dir) (f : gmap bytes node -> gmap bytes node) : dir :=
  mkDir (dir_kind d) (dir_mode d) (f (nodes d)).

(** The calls, with the type of what each returns. *)
Inductive call : Type -> Type :=
| CreateDirAll : call (result unit io_kind)            (* [fs::create_dir_all] of the directory *)
| DirMetadata : call (result bool io_kind)             (* [fs::metadata(dir)], [is_dir] *)
| SetDirMode (m : Z) : call (result unit io_kind)      (* [fs::set_permissions] *)
| SetMode (n : bytes) (m : Z) : call (result unit io_kind)
| Exists (n : bytes) : call bool                       (* [Path::exists]: false when it cannot tell *)
| SymlinkMetadata (n : bytes) : call (result FileKind io_kind)
| ReadFile (n : bytes) : call (result bytes io_kind)   (* [fs::read] *)
| CreateNew (n : bytes) (m : Z) : call (result unit io_kind)
| Write (n body : bytes) : call (result unit io_kind)  (* through the handle just created *)
| SyncFile (n : bytes) : call (result unit io_kind)
| HardLink (from to : bytes) : call (result unit io_kind)
| SyncDir : call (result unit io_kind)
| RemoveFile (n : bytes) : call (result unit io_kind).

(** What the environment decides of a call. *)
Record outcome := mkOutcome { o_fails : bool; o_partial : nat }.

Definition fallible {A} (o : outcome) (d : dir) (k : dir * result A io_kind) : dir * result A io_kind :=
  if o_fails o then (d, Err OtherError) else k.

(** A call under a directory that is not there. *)
Definition inside {A} (d : dir) (k : dir * result A io_kind) : dir * result A io_kind :=
  if bool_decide (dir_kind d = Some Directory) then k else (d, Err NotFound).

Definition exec {R} (c : call R) (o : outcome) (d : dir) : dir * R :=
  match c in call R return dir * R with
  | CreateDirAll =>
      fallible o d match dir_kind d with
                   | None => (mkDir (Some Directory) (dir_mode d) (nodes d), Ok tt)
                   | Some Directory => (d, Ok tt)
                   | Some _ => (d, Err AlreadyExists)
                   end
  | DirMetadata =>
      fallible o d match dir_kind d with
                   | None => (d, Err NotFound)
                   | Some k => (d, Ok (bool_decide (k = Directory)))
                   end
  | SetDirMode m => fallible o d (inside d (mkDir (dir_kind d) m (nodes d), Ok tt))
  | SetMode n m =>
      fallible o d (inside d match nodes d !! n with
        | Some f => (with_nodes d (insert n (mkNode (node_kind f) (node_contents f) m)), Ok tt)
        | None => (d, Err NotFound)
        end)
  | Exists n =>
      (d, negb (o_fails o) && bool_decide (dir_kind d = Some Directory)
          && match nodes d !! n with Some _ => true | None => false end)
  | SymlinkMetadata n =>
      fallible o d (inside d match nodes d !! n with
        | Some f => (d, Ok (node_kind f))
        | None => (d, Err NotFound)
        end)
  | ReadFile n =>
      fallible o d (inside d match nodes d !! n with
        | Some (mkNode Regular c _) => (d, Ok c)
        | Some _ => (d, Err OtherError)
        | None => (d, Err NotFound)
        end)
  | CreateNew n m =>
      fallible o d (inside d match nodes d !! n with
        | Some _ => (d, Err AlreadyExists)
        | None => (with_nodes d (insert n (mkNode Regular [] m)), Ok tt)
        end)
  | Write n body =>
      let put c := with_nodes d (fun m => match m !! n with
        | Some f => insert n (mkNode (node_kind f) (node_contents f ++ c) (mode f)) m
        | None => m
        end) in
      if o_fails o then (put (take (o_partial o) body), Err OtherError) else (put body, Ok tt)
  | SyncFile _ => fallible o d (d, Ok tt)
  | HardLink from to =>
      fallible o d (inside d match nodes d !! from, nodes d !! to with
        | None, _ => (d, Err NotFound)
        | Some _, Some _ => (d, Err AlreadyExists)
        | Some f, None => (with_nodes d (insert to f), Ok tt)
        end)
  | SyncDir => fallible o d (inside d (d, Ok tt))
  | RemoveFile n =>
      fallible o d (inside d match nodes d !! n with
        | Some (mkNode Directory _ _) => (d, Err OtherError)
        | Some _ => (with_nodes d (delete n), Ok tt)
        | None => (d, Err NotFound)
        end)
  end.

(** ** Programs *)

Inductive prog (A : Type) : Type :=
| Ret (a : A)
| Do {R : Type} (c : call R) (k : R -> prog A).
Arguments Ret {A} a.
Arguments Do {A R} c k.

Fixpoint prog_bind {A B} (p : prog A) (f : A -> prog B) : prog B :=
  match p with
  | Ret a => f a
  | Do c k => Do c (fun r => prog_bind (k r) f)
  end.

Definition do_call {R} (c : call R) : prog R := Do c (fun r => Ret r).

(** Programs that may fail: bind stops at the first error. *)
Definition try_bind {A B E} (p : prog (result A E)) (f : A -> prog (result B E)) : prog (result B E) :=
  prog_bind p (fun r => match r with Ok a => f a | Err e => Ret (Err e) end).

Notation "'let&' x := p 'in' q" := (try_bind p (fun x => q))
  (at level 10, x pattern, p at level 100, q at level 200) : agent_scope.
Notation "'do&' x := p 'in' q" := (prog_bind p (fun x => q))
  (at level 10, x pattern, p at level 100, q at level 200) : agent_scope.

(** One program alone, with the outcomes of its calls; none left means success. *)
Fixpoint run_alone {A} (p : prog A) (os : list outcome) (d : dir) : dir * A :=
  match p with
  | Ret a => (d, a)
  | Do c k =>
      let '(d', r) := exec c (match os with o :: _ => o | [] => mkOutcome false 0 end) d in
      run_alone (k r) (tl os) d'
  end.

(** ** Interleavings *)

Inductive pool_step {A} : dir * list (prog A) -> dir * list (prog A) -> Prop :=
| pool_step_at d d' ps i R (c : call R) k o r :
    ps !! i = Some (Do c k) -> exec c o d = (d', r) ->
    pool_step (d, ps) (d', <[i := k r]> ps).

(** ** Rely and guarantee *)

Section rg.
Variables (G R : dir -> dir -> Prop).

Definition stable (P : dir -> Prop) : Prop := forall d d', P d -> R d d' -> P d'.

(** From every directory satisfying [P], and with others acting by [R] between
    its calls, [p] acts by [G] and ends with [Q]. *)
Fixpoint rg {A} (p : prog A) (P : dir -> Prop) (Q : A -> dir -> Prop) : Prop :=
  match p with
  | Ret a => forall d, P d -> Q a d
  | Do c k => forall o d d' r, P d -> exec c o d = (d', r) ->
      G d d' /\ exists P', P' d' /\ stable P' /\ rg (k r) P' Q
  end.

Lemma rg_mono {A} (p : prog A) : forall (P P' : dir -> Prop) Q Q',
  (forall d, P' d -> P d) -> (forall a d, Q a d -> Q' a d) -> rg p P Q -> rg p P' Q'.
Proof.
  induction p as [a|T c k IH]; intros P P' Q Q' HP HQ H; simpl in *.
  - intros d Hd. auto.
  - intros o d d' r Hd E. destruct (H o d d' r (HP d Hd) E) as (Hg & P1 & H1 & Hs & Hk).
    split; [done|]. exists P1. split; [done|]. split; [done|]. eapply IH; [| |exact Hk]; auto.
Qed.

Lemma rg_bind {A B} (p : prog A) (f : A -> prog B) : forall P Q Q',
  rg p P Q -> (forall a, rg (f a) (Q a) Q') -> rg (prog_bind p f) P Q'.
Proof.
  induction p as [a|T c k IH]; intros P Q Q' Hp Hf; simpl in *.
  - eapply rg_mono; [| |apply (Hf a)]; auto.
  - intros o d d' r Hd E. destruct (Hp o d d' r Hd E) as (Hg & P1 & H1 & Hs & Hk).
    split; [done|]. exists P1. split; [done|]. split; [done|]. by eapply IH.
Qed.

(** A fallible program: [Q] for a value, [E] for an error. *)
Lemma rg_try {A B E} (p : prog (result A E)) (f : A -> prog (result B E)) P (Q : A -> dir -> Prop)
  (Q' : result B E -> dir -> Prop) :
  rg p P (fun r d => match r with Ok a => Q a d | Err e => Q' (Err e) d end) ->
  (forall a, rg (f a) (Q a) Q') -> rg (try_bind p f) P Q'.
Proof.
  intros Hp Hf. eapply rg_bind; [exact Hp|]. intros [a|e]; simpl; [apply Hf|auto].
Qed.

(** One call. *)
Lemma rg_call {T} (c : call T) P (Q : T -> dir -> Prop) :
  (forall r, stable (Q r)) ->
  (forall o d d' r, P d -> exec c o d = (d', r) -> G d d' /\ Q r d') ->
  rg (do_call c) P Q.
Proof.
  intros Hs Hc o d d' r Hd E. destruct (Hc o d d' r Hd E) as [Hg Hq].
  split; [done|]. exists (Q r). split; [done|]. split; [apply Hs|]. simpl. auto.
Qed.

(** A stable fact may be added to what a program starts and ends with. *)
Lemma rg_frame {A} (p : prog A) (F : dir -> Prop) : forall P Q,
  stable F -> (forall d d', F d -> G d d' -> F d') -> rg p P Q ->
  rg p (fun d => P d /\ F d) (fun a d => Q a d /\ F d).
Proof.
  induction p as [a|T c k IH]; intros P Q Hf Hg H; simpl in *.
  - intros d [? ?]. auto.
  - intros o d d' r [Hd HF] E. destruct (H o d d' r Hd E) as (Hg' & P1 & H1 & Hs & Hk).
    split; [done|]. exists (fun d => P1 d /\ F d). split; [eauto|]. split; [|by apply IH].
    intros x y [? ?] ?. split; [by eapply Hs|by eapply Hf].
Qed.
End rg.

Lemma rg_weaken {A} (G G' R R' : dir -> dir -> Prop) (p : prog A) : forall P Q,
  (forall d d', G d d' -> G' d d') -> (forall d d', R' d d' -> R d d') -> rg G R p P Q -> rg G' R' p P Q.
Proof.
  induction p as [a|T c k IH]; intros P Q HG HR H; simpl in *; [done|].
  intros o d d' r Hd E. destruct (H o d d' r Hd E) as (Hg & P1 & H1 & Hs & Hk).
  split; [auto|]. exists P1. split; [done|]. split; [|auto]. intros x y Hx Hy. eapply Hs; eauto.
Qed.

(** ** Soundness for any number of interleaved programs *)

Section pool.
Context {A : Type}.
Variables (G R : nat -> dir -> dir -> Prop) (Q : nat -> A -> dir -> Prop).
Hypothesis compatible : forall i j d d', i <> j -> G i d d' -> R j d d'.

(** Each program is in order, from where it now is. *)
Definition pool_ok (s : dir * list (prog A)) : Prop :=
  forall i p, snd s !! i = Some p ->
  exists P, P (fst s) /\ stable (R i) P /\ rg (G i) (R i) p P (Q i).

Lemma pool_step_ok s s' : pool_ok s -> pool_step s s' -> pool_ok s' /\ exists i, G i (fst s) (fst s').
Proof.
  intros Hok Hst. destruct Hst as [d d' ps i T c k o r Hi E]. unfold pool_ok in *. simpl in *.
  destruct (Hok i _ Hi) as (P & HP & _ & H). destruct (H o d d' r HP E) as (Hg & P1 & H1 & Hs1 & Hk).
  split; [|eauto]. intros j p Hj. destruct (decide (i = j)) as [<-|Hne].
  - rewrite list_lookup_insert_eq in Hj by (by eapply lookup_lt_Some). injection Hj as <-. eauto.
  - rewrite list_lookup_insert_ne in Hj by done. destruct (Hok j p Hj) as (Pj & Hd & Hsj & Hpj).
    exists Pj. split; [|done]. eapply Hsj; [exact Hd|]. by eapply compatible.
Qed.

(** In every reachable state the programs that have returned have their
    postcondition, and the directory has changed by guarantees only. *)
Lemma pool_sound s s' :
  pool_ok s -> rtc pool_step s s' ->
  pool_ok s' /\ rtc (fun d d' => exists i, G i d d') (fst s) (fst s') /\
  forall i a, snd s' !! i = Some (Ret a) -> Q i a (fst s').
Proof.
  intros Hok Hst. assert (pool_ok s' /\ rtc (fun d d' => exists i, G i d d') (fst s) (fst s')) as [Hok' Hg].
  { induction Hst as [s|s1 s2 s3 H12 H23 IH]; [split; [done|apply rtc_refl]|].
    destruct (pool_step_ok s1 s2 Hok H12) as [Hok2 Hg2]. destruct (IH Hok2) as [? ?].
    split; [done|]. by eapply rtc_l. }
  split; [done|]. split; [done|]. intros i a Hi. destruct (Hok' i _ Hi) as (P & HP & _ & H). by apply H.
Qed.
End pool.

Lemma pool_length {A} (s s' : dir * list (prog A)) :
  rtc pool_step s s' -> length (snd s') = length (snd s).
Proof.
  induction 1 as [x|x y z Hxy _ IH]; [done|]. rewrite IH. destruct Hxy. simpl. apply length_insert.
Qed.

(** A schedule: which program makes its next call, with which outcome. *)
Fixpoint pool_run {A} (schedule : list (nat * outcome)) (s : dir * list (prog A)) : dir * list (prog A) :=
  match schedule with
  | [] => s
  | (i, o) :: rest =>
      match snd s !! i with
      | Some (Do c k) => let '(d, r) := exec c o (fst s) in pool_run rest (d, <[i := k r]> (snd s))
      | _ => pool_run rest s
      end
  end.

Lemma pool_run_steps {A} schedule : forall s : dir * list (prog A), rtc pool_step s (pool_run schedule s).
Proof.
  induction schedule as [|[i o] rest IH]; intros [d ps]; [apply rtc_refl|]. cbn [pool_run fst snd].
  destruct (ps !! i) as [[a|T c k]|] eqn:Hi; [apply IH| |apply IH].
  destruct (exec c o d) as [d' r] eqn:E. eapply rtc_l; [by econstructor|]. apply IH.
Qed.
