(* ===== verification/Interfaces.v ===== *)
(** * Interfaces: what the agent takes from crates outside the repository

    [serde_json], [uuid], [url], [reqwest], [chrono] and [ring] are not part of
    the sources, so each is an interface: a class of operations, with the
    documented behaviour the agent relies on as its laws.  The theorems of the
    components hold for every instance.  The instances at the end make the
    interfaces concrete, to evaluate examples. *)

From Stdlib Require Import String.
From S2P Require Import Prelude Text.

(** [serde_json::Value] and the accessors the agent uses. *)
Class Json := {
  json : Type;
  json_from_slice : bytes -> option json;
  json_get : json -> bytes -> option json;       (* [Value::get] of an object *)
  json_index : json -> nat -> option json;       (* [Value::get] of an array *)
  json_as_str : json -> option bytes;
  json_as_array : json -> option (list json);
  json_is_null : json -> bool;
  json_is_true : json -> bool;                   (* [value == true] *)
  json_str : bytes -> json;                      (* [json!("..")] *)
  json_obj : list (bytes * json) -> json }.      (* [json!({..})] *)

(** [uuid::Uuid]. *)
Class Uuid := {
  uuid : Type;
  uuid_eq_dec :: EqDecision uuid;
  uuid_show : uuid -> bytes;                     (* [Display]: hyphenated *)
  uuid_parse : bytes -> option uuid;             (* [Uuid::parse_str] *)
  uuid_parse_show : forall u, uuid_parse (uuid_show u) = Some u;
  uuid_show_chars : forall u, Forall (fun b => is_ascii_hexdigit b || (b =? 45) = true) (uuid_show u) }.

Lemma uuid_show_inj {U : Uuid} (u v : uuid) : uuid_show u = uuid_show v -> u = v.
Proof.
  intros E. enough (Some u = Some v) by congruence. by rewrite <- !uuid_parse_show, E.
Qed.

(** [url::Url]. *)
Class UrlApi := {
  url : Type;
  url_eq_dec :: EqDecision url;
  url_parse : bytes -> option url;
  url_as_str : url -> bytes;
  url_scheme : url -> bytes;
  url_host_str : url -> option bytes;
  url_username : url -> bytes;
  url_password : url -> option bytes;
  url_query : url -> option bytes;
  url_fragment : url -> option bytes;
  url_path : url -> bytes;
  url_join : url -> bytes -> option url;
  (* Serialising a URL and parsing it again gives the URL back. *)
  url_parse_as_str : forall u, url_parse (url_as_str u) = Some u }.

(** [url::Host], and a URL's host and port. *)
Inductive Host := Domain (name : bytes) | Ipv4 (a : bytes) | Ipv6 (a : bytes).

Class UrlHost {L : UrlApi} := {
  url_host : url -> option Host;
  url_port : url -> option Z;
  url_port_or_known_default : url -> option Z }.

(** ** Concrete instances, for examples *)

#[local] Set Warnings "-register-all".

Inductive jvalue :=
| JNull
| JBool (b : bool)
| JStr (s : bytes)
| JArr (l : list jvalue)
| JObj (fields : list (bytes * jvalue)).

(** A [Json] whose parser knows the listed texts. *)
Definition json_of_table (table : list (bytes * jvalue)) : Json := {|
  json := jvalue;
  json_from_slice := fun s => option_map snd (find_by (fun e => str_eqb (fst e) s) table);
  json_get := fun v k =>
    match v with
    | JObj fs => option_map snd (find_by (fun e => str_eqb (fst e) k) fs)
    | _ => None
    end;
  json_index := fun v i => match v with JArr l => l !! i | _ => None end;
  json_as_str := fun v => match v with JStr s => Some s | _ => None end;
  json_as_array := fun v => match v with JArr l => Some l | _ => None end;
  json_is_null := fun v => match v with JNull => true | _ => false end;
  json_is_true := fun v => match v with JBool b => b | _ => false end;
  json_str := JStr;
  json_obj := JObj |}.

(** A small [Uuid]: four identifiers, each one hexadecimal digit. *)
Inductive tiny_id := U0 | U1 | U2 | U3.

#[export] Instance tiny_id_eq_dec : EqDecision tiny_id.
Proof. solve_decision. Defined.

Definition tiny_show (u : tiny_id) : bytes :=
  match u with U0 => [48] | U1 => [49] | U2 => [50] | U3 => [51] end.

Definition tiny_parse (s : bytes) : option tiny_id :=
  find_by (fun u => str_eqb (tiny_show u) s) [U0; U1; U2; U3].

#[local] Lemma tiny_parse_show u : tiny_parse (tiny_show u) = Some u.
Proof. by destruct u. Qed.

#[local] Lemma tiny_show_chars u :
  Forall (fun b => is_ascii_hexdigit b || (b =? 45) = true) (tiny_show u).
Proof. destruct u; repeat constructor. Qed.

Definition tiny_uuid : Uuid := {|
  uuid := tiny_id;
  uuid_show := tiny_show;
  uuid_parse := tiny_parse;
  uuid_parse_show := tiny_parse_show;
  uuid_show_chars := tiny_show_chars |}.

(** A small [UrlApi]: an origin [scheme://host] and a path. *)
Definition tiny_url : UrlApi := {|
  url := bytes;
  url_parse := Some;
  url_as_str := fun u => u;
  url_scheme := fun u => match split_once 58 u with Some (scheme, _) => scheme | None => [] end;
  url_host_str := fun u => match split_once_str (lit "://") u with
                           | Some (_, rest) => match split_on 47 rest with (b :: h) :: _ => Some (b :: h) | _ => None end
                           | None => None
                           end;
  url_username := fun _ => [];
  url_password := fun _ => None;
  url_query := fun _ => None;
  url_fragment := fun _ => None;
  url_path := fun u => match split_once_str (lit "://") u with
                       | Some (_, rest) => match split_once 47 rest with Some (_, p) => 47 :: p | None => lit "/" end
                       | None => lit "/"
                       end;
  url_join := fun u path => Some (u ++ path);
  url_parse_as_str := fun u => eq_refl |}.
