(* ===== verification/Identity.v ===== *)
(** * identity.rs and installation_key.rs: what an installation is known by

    The installation's UUID and its Ed25519 key pair are each a file of the state
    directory, created once by whichever process links it first.  The programs
    are those of Processes.v; the theorems are about any number of agent processes
    started together, interleaved call by call, with any calls failing. *)

From Stdlib Require Import String.
From S2P Require Import Prelude Text Fs Processes Interfaces.

Definition IDENTITY_FILE : bytes := lit "installation-id".
Definition KEY_FILE : bytes := lit "installation-key".
Definition PRIVATE_FILE : Z := 384.       (* 0o600 *)
Definition PRIVATE_DIR : Z := 448.        (* 0o700 *)

(** [ring]'s Ed25519 key pairs. *)
Class Ed25519 := {
  pair : Type;
  from_pkcs8 : bytes -> option pair;
  pair_public_key : pair -> bytes;
  pair_sign : pair -> bytes -> bytes;
  sha256 : bytes -> bytes }.

(** base64's [URL_SAFE_NO_PAD] and [STANDARD_NO_PAD] engines. *)
Class Base64 := { url_safe_no_pad : bytes -> bytes; standard_no_pad : bytes -> bytes }.

Section programs.
Context {U : Uuid}.
(** How the operating system's errors and the directory's path are displayed. *)
Context (show_io : io_kind -> bytes) (dir_display : bytes).

Definition path_display (n : bytes) : bytes := dir_display ++ lit "/" ++ n.

(** [call.map_err(|error| format!("{message}{error}"))]. *)
Definition io_or {A} (message : bytes) (c : call (result A io_kind)) : prog (result A bytes) :=
  do& r := do_call c in Ret (map_err (fun e => message ++ show_io e) r).

Definition protect_message (shown : bytes) : bytes :=
  lit "cannot protect installation state " ++ shown ++ lit ": ".
(** [set_mode] of a file of the directory, and of the directory. *)
Definition set_mode (n : bytes) (m : Z) : prog (result unit bytes) :=
  io_or (protect_message (path_display n)) (SetMode n m).
Definition set_dir_mode (m : Z) : prog (result unit bytes) :=
  io_or (protect_message dir_display) (SetDirMode m).

Definition prepare_state_directory : prog (result unit bytes) :=
  let& _ := io_or (lit "cannot create state directory " ++ dir_display ++ lit ": ") CreateDirAll in
  let& is_dir := io_or (lit "cannot inspect state directory " ++ dir_display ++ lit ": ") DirMetadata in
  if negb is_dir then Ret (Err (lit "state directory " ++ dir_display ++ lit " is not a directory"))
  else set_dir_mode PRIVATE_DIR.

Definition parse_uuid (value : bytes) : result uuid bytes :=
  ok_or (uuid_parse value) (lit "installation_id must be a UUID").

Definition ensure_override_matches (explicit : option uuid) (persisted : uuid) : result uuid bytes :=
  if match explicit with Some value => bool_decide (value <> persisted) | None => false end
  then Err (lit "installation_id does not match the persisted installation identity")
  else Ok persisted.

Definition read_identity (path : bytes) : prog (result uuid bytes) :=
  let& kind := io_or (lit "cannot inspect installation identity " ++ path_display path ++ lit ": ")
                 (SymlinkMetadata path) in
  if negb (bool_decide (kind = Regular))
  then Ret (Err (lit "installation identity " ++ path_display path ++ lit " is not a regular file"))
  else
    let& _ := set_mode path PRIVATE_FILE in
    let cannot_read := lit "cannot read installation identity " ++ path_display path ++ lit ": " in
    let& value := io_or cannot_read (ReadFile path) in
    if negb (utf8_valid value)
    then Ret (Err (cannot_read ++ lit "stream did not contain valid UTF-8"))
    else Ret (match parse_uuid (trim value) with
              | Ok u => Ok u
              | Err _ => Err (lit "installation identity " ++ path_display path ++ lit " does not contain a UUID")
              end).

Definition create_private_file (n : bytes) : prog (result unit bytes) :=
  io_or (lit "cannot create installation identity " ++ path_display n ++ lit ": ") (CreateNew n PRIVATE_FILE).

Definition sync_state_directory : prog (result unit bytes) :=
  io_or (lit "cannot sync state directory " ++ dir_display ++ lit ": ") SyncDir.

(** What [persist_new_identity] and [persist_new_key] share: the whole body is
    written and synced under a temporary name and hard-linked to [path], which
    never replaces a file; the temporary name is removed in any case. *)
Definition persist_linked (temporary path body write_message sync_message link_message : bytes)
  : prog (result unit bytes) :=
  do& result := (
    let& _ := create_private_file temporary in
    let& _ := io_or write_message (Write temporary body) in
    let& _ := io_or sync_message (SyncFile temporary) in
    do& linked := do_call (HardLink temporary path) in
    match linked with
    | Ok _ => sync_state_directory
    | Err AlreadyExists => Ret (Ok tt)
    | Err e => Ret (Err (link_message ++ path_display path ++ lit ": " ++ show_io e))
    end) in
  do& _ := do_call (RemoveFile temporary) in
  Ret result.

(** [tmp] is the [Uuid::new_v4] of the temporary name. *)
Definition identity_temporary (tmp : uuid) : bytes := lit ".installation-id-" ++ uuid_show tmp.
Definition identity_body (u : uuid) : bytes := uuid_show u ++ [10].

Definition persist_new_identity (tmp : uuid) (path : bytes) (identity : uuid) : prog (result unit bytes) :=
  persist_linked (identity_temporary tmp) path (identity_body identity)
    (lit "cannot write installation identity: ") (lit "cannot sync installation identity: ")
    (lit "cannot persist installation identity ").

(** [fresh] is the [Uuid::new_v4] of a new identity. *)
Definition load_or_create (tmp fresh : uuid) (explicit : option bytes) : prog (result uuid bytes) :=
  let& _ := prepare_state_directory in
  let path := IDENTITY_FILE in
  match (match explicit with
         | Some v => let? u := parse_uuid v in Ok (Some u)
         | None => Ok None
         end) with
  | Err e => Ret (Err e)
  | Ok explicit =>
      do& present := do_call (Exists path) in
      if (present : bool)
      then
        let& persisted := read_identity path in
        Ret (ensure_override_matches explicit persisted)
      else
        let candidate := match explicit with Some u => u | None => fresh end in
        let& _ := persist_new_identity tmp path candidate in
        let& persisted := read_identity path in
        Ret (ensure_override_matches explicit persisted)
  end.

(** ** The installation key *)

Context {K : Ed25519} {B : Base64}.

Record InstallationKey := mkKey { key_pair : pair }.

Definition key_temporary (tmp : uuid) : bytes := lit ".installation-key-" ++ uuid_show tmp.

(** [generated] is the document [Ed25519KeyPair::generate_pkcs8] returns. *)
Definition persist_new_key (tmp : uuid) (generated : option bytes) (path : bytes) : prog (result unit bytes) :=
  match generated with
  | None => Ret (Err (lit "cannot generate an installation key"))
  | Some pkcs8 =>
      persist_linked (key_temporary tmp) path pkcs8
        (lit "cannot write installation key: ") (lit "cannot write installation key: ")
        (lit "cannot persist installation key ")
  end.

Definition key_load : prog (result InstallationKey bytes) :=
  let path := KEY_FILE in
  let& kind := io_or (lit "cannot inspect installation key " ++ path_display path ++ lit ": ")
                 (SymlinkMetadata path) in
  if negb (bool_decide (kind = Regular))
  then Ret (Err (lit "installation key " ++ path_display path ++ lit " is not a regular file"))
  else
    let& pkcs8 := io_or (lit "cannot read installation key " ++ path_display path ++ lit ": ") (ReadFile path) in
    Ret (match from_pkcs8 pkcs8 with
         | Some p => Ok (mkKey p)
         | None => Err (lit "installation key " ++ path_display path ++ lit " is not an Ed25519 key")
         end).

Definition key_load_or_create (tmp : uuid) (generated : option bytes) : prog (result InstallationKey bytes) :=
  let& _ := prepare_state_directory in
  do& present := do_call (Exists KEY_FILE) in
  let& _ := (if negb present then persist_new_key tmp generated KEY_FILE else Ret (Ok tt)) in
  key_load.

Definition public_key (k : InstallationKey) : bytes := url_safe_no_pad (pair_public_key (key_pair k)).
Definition fingerprint (k : InstallationKey) : bytes :=
  lit "SHA256:" ++ standard_no_pad (sha256 (pair_public_key (key_pair k))).
Definition sign (k : InstallationKey) (message : bytes) : bytes := pair_sign (key_pair k) message.
End programs.

(** ** One file, settled once

    What each process guarantees, and relies on, about the file at [path]: once
    there it keeps its kind and contents, and it appears only whole and private. *)

Section settled.
Variables (path : bytes) (whole : bytes -> Prop).

Definition settles (d d' : dir) : Prop :=
  match nodes d !! path with
  | Some f => exists f', nodes d' !! path = Some f' /\ node_kind f' = node_kind f /\
      node_contents f' = node_contents f /\ (mode f' = mode f \/ mode f' = PRIVATE_FILE)
  | None => nodes d' !! path = None \/
      exists c, nodes d' !! path = Some (mkNode Regular c PRIVATE_FILE) /\ whole c
  end.

Definition dir_safe (d d' : dir) : Prop :=
  dir_kind d = Some Directory ->
  dir_kind d' = Some Directory /\ (dir_mode d' = dir_mode d \/ dir_mode d' = PRIVATE_DIR).

(** The guarantee of a process whose temporary name is [t], and its rely. *)
Definition guar (t : bytes) (d d' : dir) : Prop :=
  (forall n, n <> path -> n <> t -> nodes d' !! n = nodes d !! n) /\ settles d d' /\ dir_safe d d'.
Definition rely (t : bytes) (d d' : dir) : Prop :=
  nodes d' !! t = nodes d !! t /\ settles d d' /\ dir_safe d d'.

Lemma settles_refl d : settles d d.
Proof. unfold settles. destruct (nodes d !! path) as [f|]; [|by left]. exists f. auto. Qed.

Lemma dir_safe_refl d : dir_safe d d.
Proof. intros ?. auto. Qed.

Lemma guar_refl t d : guar t d d.
Proof. split; [done|]. auto using settles_refl, dir_safe_refl. Qed.

Lemma settles_same d d' : nodes d' !! path = nodes d !! path -> settles d d'.
Proof. intros E. unfold settles. rewrite E. destruct (nodes d !! path) as [f|]; [|by left]. exists f. auto. Qed.

Lemma settles_trans d1 d2 d3 : settles d1 d2 -> settles d2 d3 -> settles d1 d3.
Proof.
  unfold settles. intros H12 H23. destruct (nodes d1 !! path) as [f|].
  - destruct H12 as (f' & E & Hk & Hc & Hm). rewrite E in H23.
    destruct H23 as (f'' & E' & Hk' & Hc' & Hm'). exists f''. split; [done|]. split; [congruence|].
    split; [congruence|]. destruct Hm' as [-> | ->]; auto.
  - destruct H12 as [E|(c & E & Hc)]; rewrite E in H23; [done|].
    destruct H23 as ([k c' m] & E' & Hk & Hc' & Hm). simpl in *. subst. right. exists c. split; [|done].
    rewrite E'. by destruct Hm as [-> | ->].
Qed.

(** A call that changes nothing but the file [t]. *)
Lemma guar_own t d f :
  t <> path -> (forall m n, n <> t -> f m !! n = m !! n) -> guar t d (with_nodes d f).
Proof.
  intros Ht Hf. split; [intros n _ Hn; simpl; by apply Hf|]. split; [|intros ?; simpl; auto].
  apply settles_same. simpl. by apply Hf.
Qed.

Lemma exec_fallible {A} o d (k : dir * result A io_kind) d' r (Q : dir -> result A io_kind -> Prop) :
  (Q d (Err OtherError)) -> (k = (d', r) -> Q d' r) -> fallible o d k = (d', r) -> Q d' r.
Proof. intros H1 H2. unfold fallible. destruct (o_fails o); [by intros [= <- <-]|done]. Qed.

(** What a process may know: the directory is private, its temporary holds
    [body], the file is there and regular, or private with contents [c]. *)
Definition ready (d : dir) : Prop := dir_kind d = Some Directory /\ dir_mode d = PRIVATE_DIR.
Definition own (t body : bytes) (d : dir) : Prop := nodes d !! t = Some (mkNode Regular body PRIVATE_FILE).
Definition kind_is (k : FileKind) (d : dir) : Prop := exists f, nodes d !! path = Some f /\ node_kind f = k.
Definition reads (c : bytes) (d : dir) : Prop := exists m, nodes d !! path = Some (mkNode Regular c m).
Definition private (d : dir) : Prop := exists f, nodes d !! path = Some f /\ mode f = PRIVATE_FILE.

Lemma ready_safe d d' : ready d -> dir_safe d d' -> ready d'.
Proof. intros [Hk Hm] H. destruct (H Hk) as [? [E|E]]; split; congruence. Qed.

Lemma kind_is_settles k d d' : kind_is k d -> settles d d' -> kind_is k d'.
Proof.
  intros (f & E & Hf) H. unfold settles in H. rewrite E in H. destruct H as (f' & E' & ? & _).
  exists f'. split; [done|congruence].
Qed.

Lemma reads_settles c d d' : reads c d -> settles d d' -> reads c d'.
Proof.
  intros (m & E) H. unfold settles in H. rewrite E in H. destruct H as ([k c' m'] & E' & Hk & Hc & _).
  simpl in *. subst. by exists m'.
Qed.

Lemma private_settles d d' : private d -> settles d d' -> private d'.
Proof.
  intros (f & E & Hf) H. unfold settles in H. rewrite E in H. destruct H as (f' & E' & _ & _ & Hm).
  exists f'. split; [done|]. destruct Hm; congruence.
Qed.

Lemma stable_ready t : stable (rely t) ready.
Proof. intros d d' H (_ & _ & Hs). by eapply ready_safe. Qed.
Lemma stable_own t body : stable (rely t) (own t body).
Proof. intros d d' H (E & _). unfold own. by rewrite E. Qed.
Lemma stable_kind_is t k : stable (rely t) (kind_is k).
Proof. intros d d' H (_ & Hs & _). by eapply kind_is_settles. Qed.
Lemma stable_reads t c : stable (rely t) (reads c).
Proof. intros d d' H (_ & Hs & _). by eapply reads_settles. Qed.
Lemma stable_private t : stable (rely t) private.
Proof. intros d d' H (_ & Hs & _). by eapply private_settles. Qed.
Lemma stable_and R (P Q : dir -> Prop) : stable R P -> stable R Q -> stable R (fun d => P d /\ Q d).
Proof. intros HP HQ d d' [? ?] ?. split; [by eapply HP|by eapply HQ]. Qed.
Lemma stable_true R : stable R (fun _ => True).
Proof. done. Qed.
End settled.

#[export] Hint Resolve stable_ready stable_own stable_kind_is stable_reads stable_private stable_and
  stable_true guar_refl : agent.

(** ** The programs keep to it *)

Section programs_ok.
Context {U : Uuid}.
Context (show_io : io_kind -> bytes) (dir_display : bytes).
Variables (path : bytes) (whole : bytes -> Prop) (t : bytes).
Hypothesis t_not_path : t <> path.

Abbreviation ok_or_any := (fun Q => fun r d => match r with Ok a => Q a d | Err _ => True end).
Abbreviation rgp := (rg (guar path whole t) (rely path whole t)).

Lemma rg_io {A} message (c : call (result A io_kind)) P (Q : A -> dir -> Prop) :
  (forall a, stable (rely path whole t) (Q a)) ->
  (forall o d d' r, P d -> exec c o d = (d', r) ->
     guar path whole t d d' /\ match r with Ok a => Q a d' | Err _ => True end) ->
  rgp (io_or show_io message c) P (ok_or_any Q).
Proof.
  intros Hs Hc. eapply rg_bind.
  - apply rg_call with (Q := fun r d => match r with Ok a => Q a d | Err _ => True end); [|exact Hc].
    intros [a|e]; [apply Hs|apply stable_true].
  - intros [a|e] d Hd; exact Hd || done.
Qed.

(** A call that only looks. *)
Lemma rg_io_look {A} message (c : call (result A io_kind)) P (Q : A -> dir -> Prop) :
  (forall a, stable (rely path whole t) (Q a)) ->
  (forall o d, fst (exec c o d) = d) ->
  (forall o d a, P d -> snd (exec c o d) = Ok a -> Q a d) ->
  rgp (io_or show_io message c) P (ok_or_any Q).
Proof.
  intros Hs Hd Hq. apply rg_io; [done|]. intros o d d' r HP E.
  pose proof (Hd o d) as Hd'. pose proof (Hq o d) as Hq'. rewrite E in Hd', Hq'. simpl in *. subst d'.
  split; [apply guar_refl|]. destruct r; [by apply Hq'|done].
Qed.

(** A call whose effect, if any, is on the process's own temporary. *)
Lemma guar_insert_own d f : guar path whole t d (with_nodes d (insert t f)).
Proof. apply guar_own; [done|]. intros m n Hn. by apply lookup_insert_ne. Qed.

Lemma prepare_ok P : rgp (prepare_state_directory show_io dir_display) P (ok_or_any (fun _ => ready)).
Proof.
  eapply rg_try with (Q := fun _ _ => True); [|intros _; eapply rg_try with (Q := fun _ _ => True)].
  - apply rg_io; [auto with agent|]. intros o d d' r _ E. split; [|by destruct r].
    revert E. cbn [exec]. unfold fallible. repeat case_match; intros [= <- <-]; try apply guar_refl.
    split; [done|]. split; [by apply settles_same|]. intros H'. congruence.
  - apply rg_io_look; [auto with agent| |done]. intros o d. cbn [exec]. unfold fallible. by repeat case_match.
  - intros is_dir. destruct is_dir; simpl negb; cbv iota; [|by intros d _].
    apply rg_io; [auto with agent|]. intros o d d' r _ E. revert E. cbn [exec]. unfold fallible, inside.
    repeat case_match; intros [= <- <-]; try (split; [apply guar_refl|done]). bool_simpl. split.
    + split; [done|]. split; [by apply settles_same|]. intros _. simpl. auto.
    + by split.
Qed.

Lemma read_identity_ok P :
  rgp (read_identity show_io dir_display path) P
    (ok_or_any (fun u d => exists c, uuid_parse (trim c) = Some u /\ reads path c d /\ private path d)).
Proof.
  eapply rg_try with (Q := fun k => kind_is path k).
  { apply rg_io_look; [auto with agent|intros o d|intros o d k _]; cbn [exec]; unfold fallible, inside;
      repeat case_match; simpl; try done. intros [= <-]. eexists. eauto. }
  intros k. destruct (bool_decide (k = Regular)) eqn:Hk; simpl negb; cbv iota; [|by intros d _].
  bool_simpl. subst k. eapply rg_try with (Q := fun _ d => kind_is path Regular d /\ private path d).
  { apply rg_io; [auto with agent|]. intros o d d' r Hd E. destruct Hd as (f & Ef & Hf).
    revert E. cbn [exec]. unfold fallible, inside. rewrite Ef.
    repeat case_match; intros [= <- <-]; try (split; [apply guar_refl|done]). split.
    - split; [intros n Hn _; simpl; by apply lookup_insert_ne|]. split; [|intros ?; simpl; auto].
      unfold settles. rewrite Ef. simpl. rewrite lookup_insert_eq. eexists. split; [done|]. simpl. auto.
    - split; eexists; (split; [simpl; apply lookup_insert_eq|exact Hf || reflexivity]). }
  intros _. eapply rg_try with (Q := fun c d => reads path c d /\ private path d).
  { apply rg_io_look; [auto with agent|intros o d|intros o d k' [_ Hp]]; cbn [exec]; unfold fallible, inside;
      repeat case_match; simpl; try done; simplify_eq; try done.
    intros [= <-]. split; [by eexists|done]. }
  intros c. destruct (utf8_valid c); simpl negb; cbv iota; [|by intros d _].
  intros d [Hr Hp]. unfold parse_uuid. destruct (uuid_parse (trim c)) eqn:E; simpl; [|done]. eauto.
Qed.

Lemma persist_linked_ok body m1 m2 m3 P :
  whole body -> rgp (persist_linked show_io dir_display t path body m1 m2 m3) P (fun _ _ => True).
Proof.
  intros Hw. eapply rg_bind with (Q := fun _ _ => True).
  2: { intros r. eapply rg_bind with (Q := fun _ _ => True); [|by intros _ d _].
       apply rg_call; [done|]. intros o d d' r' _ E. split; [|done]. revert E. cbn [exec].
       unfold fallible, inside. repeat case_match; intros [= <- <-]; try apply guar_refl;
         (apply guar_own; [done|]; intros ? ? ?; by apply lookup_delete_ne). }
  eapply rg_try with (Q := fun _ => own t []).
  { apply rg_io; [auto with agent|]. intros o d d' r _ E. revert E. cbn [exec].
    unfold fallible, inside. repeat case_match; intros [= <- <-]; try (split; [apply guar_refl|done]).
    split; [apply guar_insert_own|]. unfold own. simpl. apply lookup_insert_eq. }
  intros _. eapply rg_try with (Q := fun _ => own t body).
  { apply rg_io; [auto with agent|]. intros o d d' r Hd E. unfold own in Hd. revert E. cbn [exec].
    destruct (o_fails o); intros [= <- <-].
    - split; [|done]. apply guar_own; [done|]. intros m n Hn. case_match; [|done]. by apply lookup_insert_ne.
    - split; [apply guar_own; [done|]; intros m n Hn; case_match; [|done]; by apply lookup_insert_ne|].
      unfold own. simpl. rewrite Hd. simpl. apply lookup_insert_eq. }
  intros _. eapply rg_try with (Q := fun _ => own t body).
  { apply rg_io_look; [auto with agent|intros o d|intros o d a Hd _; exact Hd].
    cbn [exec]. unfold fallible. by case_match. }
  intros _. eapply rg_bind with (Q := fun _ _ => True).
  { apply rg_call; [done|]. intros o d d' r Hd E. split; [|done]. unfold own in Hd. revert E. cbn [exec].
    unfold fallible, inside. rewrite Hd. repeat case_match; intros [= <- <-]; try apply guar_refl.
    split; [intros n Hn _; simpl; by apply lookup_insert_ne|]. split; [|intros ?; simpl; auto].
    unfold settles. case_match; [congruence|]. right. exists body. split; [simpl; apply lookup_insert_eq|done]. }
  intros [|[]]; try (by intros d _). eapply rg_mono; [intros d H; exact H|intros [] ? _; exact I|].
  apply rg_io_look with (Q := fun _ _ => True); [done| |done].
  intros o d. cbn [exec]. unfold fallible, inside. by repeat case_match.
Qed.
End programs_ok.

(** ** Processes started together

    A list of processes, each known by its temporary name, that keep to the
    guarantee and establish [post] when they return a value. *)

Section linked.
Context {S X E : Type}.
Variables (path : bytes) (whole : bytes -> Prop) (temporary : S -> bytes) (program : S -> prog (result X E)).
Variables (post : S -> X -> dir -> Prop) (starts : list S).
Hypothesis temporaries_differ : NoDup (map temporary starts).
Hypothesis temporary_not_path : forall s, temporary s <> path.
Hypothesis program_ok : forall s, s ∈ starts ->
  rg (guar path whole (temporary s)) (rely path whole (temporary s)) (program s) (fun _ => True)
    (fun r d => match r with Ok x => post s x d | Err _ => True end).

Lemma linked_sound d0 d ps :
  rtc pool_step (d0, map program starts) (d, ps) ->
  settles path whole d0 d /\
  forall i x, ps !! i = Some (Ret (Ok x)) -> exists s, starts !! i = Some s /\ post s x d.
Proof.
  intros Hsteps.
  set (G := fun i x y => exists s, starts !! i = Some s /\ guar path whole (temporary s) x y).
  set (R := fun i x y => forall s, starts !! i = Some s -> rely path whole (temporary s) x y).
  set (Q := fun i (r : result X E) x => forall s, starts !! i = Some s ->
    match r with Ok u => post s u x | Err _ => True end).
  assert (forall i j x y, i <> j -> G i x y -> R j x y) as Hcompat.
  { intros i j x y Hij (si & Hi & Hg & Hs & Hd) sj Hj. split; [|done]. apply Hg; [apply temporary_not_path|].
    intros E'. apply Hij. eapply (NoDup_lookup _ i j (temporary si) temporaries_differ);
      rewrite list_lookup_fmap; [by rewrite Hi|rewrite Hj; simpl; by rewrite E']. }
  assert (pool_ok G R Q (d0, map program starts)) as Hok.
  { intros i p Hi. simpl in Hi. rewrite list_lookup_fmap in Hi. destruct (starts !! i) as [s|] eqn:Es; [|done].
    injection Hi as <-. exists (fun _ => True). split; [done|]. split; [done|].
    eapply rg_mono; [intros x H; exact H| |eapply rg_weaken; [| |apply program_ok]].
    - intros [u|e] x H s' Hs'; [|done]. assert (s' = s) as -> by congruence. exact H.
    - intros x y H. exists s. done.
    - intros x y H. by apply H.
    - by eapply list_elem_of_lookup_2. }
  destruct (pool_sound G R Q Hcompat _ _ Hok Hsteps) as (_ & Hg & Hq). simpl in Hg, Hq. split.
  - clear -Hg. induction Hg as [x|x y z (i & s & _ & _ & Hs & _) _ IH]; [apply settles_refl|].
    by eapply settles_trans.
  - intros i x Hi. pose proof (pool_length _ _ Hsteps) as Hlen. simpl in Hlen. rewrite length_map in Hlen.
    destruct (starts !! i) as [s|] eqn:Es.
    + exists s. split; [done|]. by apply (Hq i (Ok x) Hi s).
    + apply lookup_ge_None in Es. apply lookup_lt_Some in Hi. lia.
Qed.
End linked.

(** A returning program after [ready] keeps it. *)
Lemma rg_ready {A E} path whole t (p : prog (result A E)) (Q : A -> dir -> Prop) :
  rg (guar path whole t) (rely path whole t) p (fun _ => True)
    (fun r d => match r with Ok a => Q a d | Err _ => True end) ->
  rg (guar path whole t) (rely path whole t) p ready
    (fun r d => match r with Ok a => Q a d /\ ready d | Err _ => True end).
Proof.
  intros Hp. eapply rg_mono with (P := fun d => True /\ ready d); [by intros d H| |apply rg_frame; [| |exact Hp]].
  - by intros [a|e] d; [|intros _].
  - apply stable_ready.
  - intros d d' H (_ & _ & Hs). by eapply ready_safe.
Qed.

(** ** The identity *)

Section together.
Context {U : Uuid}.
Context (show_io : io_kind -> bytes) (dir_display : bytes).

Definition whole_identity (c : bytes) : Prop := exists u, c = identity_body u.

(** What a process that returned [u] may count on. *)
Definition identified (explicit : option bytes) (u : uuid) (d : dir) : Prop :=
  ((exists c, uuid_parse (trim c) = Some u /\ reads IDENTITY_FILE c d /\ private IDENTITY_FILE d) /\ ready d) /\
  forall v, explicit = Some v -> uuid_parse v = Some u.

Lemma temporary_not_path tmp : identity_temporary tmp <> IDENTITY_FILE.
Proof. discriminate. Qed.

Lemma uuid_parse_body u : uuid_parse (trim (identity_body u)) = Some u.
Proof.
  unfold identity_body. rewrite trim_line; [apply uuid_parse_show|].
  eapply Forall_impl; [|apply uuid_show_chars]. intros b. cbn beta. unfold is_ascii_hexdigit, is_ascii_digit.
  intros H. rewrite !orb_true_iff, !andb_true_iff, !Z.leb_le, Z.eqb_eq in H. lia.
Qed.

Lemma load_or_create_ok tmp fresh explicit :
  let t := identity_temporary tmp in
  rg (guar IDENTITY_FILE whole_identity t) (rely IDENTITY_FILE whole_identity t)
    (load_or_create show_io dir_display tmp fresh explicit) (fun _ => True)
    (fun r d => match r with Ok u => identified explicit u d | Err _ => True end).
Proof.
  intros t. pose proof (temporary_not_path tmp) as Ht.
  eapply rg_try with (Q := fun _ => ready); [by apply prepare_ok|]. intros _.
  set (parsed := match explicit with Some v => _ | None => _ end).
  assert (forall ex, parsed = Ok ex -> forall v u, explicit = Some v ->
    match ex with Some w => w = u | None => False end -> uuid_parse v = Some u) as Hex.
  { intros ex E v u -> Hu. unfold parsed, parse_uuid in E. destruct (uuid_parse v) as [w|]; [|done].
    injection E as <-. by subst. }
  assert (forall ex, parsed = Ok ex -> ex = None -> explicit = None) as Hnone.
  { intros ex E ->. unfold parsed in E. destruct explicit as [v|]; [|done]. unfold parse_uuid in E.
    by destruct (uuid_parse v). }
  destruct parsed as [ex|e] eqn:Eparsed; [|by intros d _].
  assert (rg (guar IDENTITY_FILE whole_identity t) (rely IDENTITY_FILE whole_identity t)
    (try_bind (read_identity show_io dir_display IDENTITY_FILE)
       (fun persisted => Ret (ensure_override_matches ex persisted))) ready
    (fun r d => match r with Ok u => identified explicit u d | Err _ => True end)) as Hread.
  { eapply rg_try; [apply rg_ready, read_identity_ok|]. intros u d [Hc Hd]. unfold ensure_override_matches.
    destruct ex as [w|]; [case_bool_decide as Hw; [done|]; subst w|];
      (split; [done|]); intros v Ev; [by eapply Hex|]. rewrite (Hnone None) in Ev; done. }
  eapply rg_bind with (Q := fun _ => ready).
  { apply rg_call; [auto with agent|]. intros o d d' r Hd E. cbn [exec] in E. assert (d' = d) as -> by congruence.
    split; [apply guar_refl|done]. }
  intros [|]; [exact Hread|]. eapply rg_try with (Q := fun _ d => True /\ ready d).
  - apply rg_ready. eapply rg_mono; [| |apply persist_linked_ok with (P := fun _ => True)]; [done| |done|by eexists].
    by intros [].
  - intros _. eapply rg_mono; [| |exact Hread]; [by intros d [_ H]|done].
Qed.

(** A process about to start: its random identifiers and its configured one. *)
Record starting := mkStarting { st_tmp : uuid; st_fresh : uuid; st_explicit : option bytes }.

Definition start_one (s : starting) : prog (result uuid bytes) :=
  load_or_create show_io dir_display (st_tmp s) (st_fresh s) (st_explicit s).

(** C30. However many agent processes start together on one state directory,
    however their calls interleave and whichever fail: an identity file that was
    there keeps its contents; one that was not appears whole or not at all, private
    to its owner; and every process that obtains an identity obtains the one in
    the file, equal to its configured identity if it has one, so all obtain the
    same. *)
Theorem processes_agree_on_identity (starts : list starting) (d0 d : dir) ps :
  NoDup (map st_tmp starts) ->
  rtc pool_step (d0, map start_one starts) (d, ps) ->
  match nodes d0 !! IDENTITY_FILE with
  | Some f => exists f', nodes d !! IDENTITY_FILE = Some f' /\
      node_kind f' = node_kind f /\ node_contents f' = node_contents f
  | None => nodes d !! IDENTITY_FILE = None \/
      exists u, nodes d !! IDENTITY_FILE = Some (mkNode Regular (identity_body u) PRIVATE_FILE)
  end /\
  (forall i u, ps !! i = Some (Ret (Ok u)) ->
     exists s, starts !! i = Some s /\ identified (st_explicit s) u d) /\
  (forall i j u v, ps !! i = Some (Ret (Ok u)) -> ps !! j = Some (Ret (Ok v)) -> u = v).
Proof.
  intros Hnd Hsteps.
  destruct (linked_sound IDENTITY_FILE whole_identity (fun s => identity_temporary (st_tmp s)) start_one
    (fun s => identified (st_explicit s)) starts) with (d0 := d0) (d := d) (ps := ps) as [Hset Hret].
  - rewrite <- (map_map st_tmp identity_temporary). apply NoDup_fmap; [|done].
    intros u v E. by apply app_inv_head, uuid_show_inj in E.
  - intros s. apply temporary_not_path.
  - intros s _. apply load_or_create_ok.
  - done.
  - split; [|split; [exact Hret|]].
    + unfold settles in Hset. destruct (nodes d0 !! IDENTITY_FILE) as [f|].
      * destruct Hset as (f' & ? & ? & ? & _). eauto.
      * destruct Hset as [?|(c & E & u & ->)]; eauto.
    + intros i j u v Hi Hj. destruct (Hret i u Hi) as (si & _ & ((c & Hc & (m & Er) & _) & _) & _).
      destruct (Hret j v Hj) as (sj & _ & ((c' & Hc' & (m' & Er') & _) & _) & _). congruence.
Qed.
End together.

(** ** The key *)

Section key_together.
Context {U : Uuid} {K : Ed25519}.
Context (show_io : io_kind -> bytes) (dir_display : bytes).

(** A process about to create a key: its temporary name and the key document
    it would generate. *)
Record key_starting := mkKeyStarting { ks_tmp : uuid; ks_generated : option bytes }.

Definition key_start_one (s : key_starting) : prog (result InstallationKey bytes) :=
  key_load_or_create show_io dir_display (ks_tmp s) (ks_generated s).

Definition generated_by (starts : list key_starting) (c : bytes) : Prop :=
  exists s, s ∈ starts /\ ks_generated s = Some c.

Definition keyed (k : InstallationKey) (d : dir) : Prop :=
  (exists c, from_pkcs8 c = Some (key_pair k) /\ reads KEY_FILE c d) /\ ready d.

Lemma key_temporary_not_path tmp : key_temporary tmp <> KEY_FILE.
Proof. discriminate. Qed.

Lemma key_load_ok whole t :
  rg (guar KEY_FILE whole t) (rely KEY_FILE whole t) (key_load show_io dir_display) (fun _ => True)
    (fun r d => match r with Ok k => exists c, from_pkcs8 c = Some (key_pair k) /\ reads KEY_FILE c d | Err _ => True end).
Proof.
  eapply rg_try with (Q := fun k => kind_is KEY_FILE k).
  { apply rg_io_look; [auto with agent|intros o d|intros o d k _]; cbn [exec]; unfold fallible, inside;
      repeat case_match; simpl; try done. intros [= <-]. eexists. eauto. }
  intros k. destruct (bool_decide (k = Regular)) eqn:Hk; simpl negb; cbv iota; [|by intros d _].
  eapply rg_try with (Q := fun c => reads KEY_FILE c).
  { apply rg_io_look; [auto with agent|intros o d|intros o d k' _]; cbn [exec]; unfold fallible, inside;
      repeat case_match; simpl; try done; simplify_eq; try done.
    intros [= <-]. by eexists. }
  intros c d Hr. destruct (from_pkcs8 c) as [p|] eqn:E; [|done]. eauto.
Qed.

Lemma key_load_or_create_ok starts s :
  s ∈ starts ->
  let t := key_temporary (ks_tmp s) in let whole := generated_by starts in
  rg (guar KEY_FILE whole t) (rely KEY_FILE whole t) (key_start_one s) (fun _ => True)
    (fun r d => match r with Ok k => keyed k d | Err _ => True end).
Proof.
  intros Hin t whole. pose proof (key_temporary_not_path (ks_tmp s)) as Ht.
  eapply rg_try with (Q := fun _ => ready); [by apply prepare_ok|]. intros _.
  eapply rg_bind with (Q := fun _ => ready).
  { apply rg_call; [auto with agent|]. intros o d d' r Hd E. cbn [exec] in E. assert (d' = d) as -> by congruence.
    split; [apply guar_refl|done]. }
  intros present. eapply rg_try with (Q := fun _ d => True /\ ready d).
  - apply rg_ready. destruct present; simpl negb; cbv iota; [by intros d _|].
    unfold persist_new_key. destruct (ks_generated s) as [pkcs8|] eqn:Eg; [|by intros d _].
    eapply rg_mono; [| |apply persist_linked_ok with (P := fun _ => True)]; [done|by intros []|done|].
    by exists s.
  - intros _. eapply rg_mono with (P := ready); [by intros d [_ H]|intros r d H; exact H|].
    apply rg_ready, key_load_ok.
Qed.

(** However many agent processes start together, however their calls
    interleave and whichever fail: a key file that was there keeps its contents;
    a new one is one of the generated key documents, whole and private; and every
    process that obtains a key obtains the one in the file, so all sign with the
    same key pair. *)
Theorem processes_agree_on_key (starts : list key_starting) (d0 d : dir) ps :
  NoDup (map ks_tmp starts) ->
  rtc pool_step (d0, map key_start_one starts) (d, ps) ->
  match nodes d0 !! KEY_FILE with
  | Some f => exists f', nodes d !! KEY_FILE = Some f' /\
      node_kind f' = node_kind f /\ node_contents f' = node_contents f
  | None => nodes d !! KEY_FILE = None \/
      exists c, nodes d !! KEY_FILE = Some (mkNode Regular c PRIVATE_FILE) /\ generated_by starts c
  end /\
  (forall i k, ps !! i = Some (Ret (Ok k)) -> keyed k d) /\
  (forall i j k l, ps !! i = Some (Ret (Ok k)) -> ps !! j = Some (Ret (Ok l)) -> k = l).
Proof.
  intros Hnd Hsteps.
  destruct (linked_sound KEY_FILE (generated_by starts) (fun s => key_temporary (ks_tmp s)) key_start_one
    (fun _ => keyed) starts) with (d0 := d0) (d := d) (ps := ps) as [Hset Hret].
  - rewrite <- (map_map ks_tmp key_temporary). apply NoDup_fmap; [|done].
    intros u v E. by apply app_inv_head, uuid_show_inj in E.
  - intros s. apply key_temporary_not_path.
  - intros s Hs. by apply key_load_or_create_ok.
  - done.
  - split; [|split].
    + unfold settles in Hset. destruct (nodes d0 !! KEY_FILE) as [f|].
      * destruct Hset as (f' & ? & ? & ? & _). eauto.
      * destruct Hset as [?|(c & E & Hc)]; eauto.
    + intros i k Hi. by destruct (Hret i k Hi) as (s & _ & H).
    + intros i j [k] [l] Hi Hj. destruct (Hret i _ Hi) as (_ & _ & (c & Hc & (m & Er)) & _).
      destruct (Hret j _ Hj) as (_ & _ & (c' & Hc' & (m' & Er')) & _). simpl in *. congruence.
Qed.
End key_together.

(** ** A process alone *)

Section alone.
Context {U : Uuid}.
Context (show_io : io_kind -> bytes) (dir_display : bytes).

Lemma run_alone_bind {A B} (p : prog A) (f : A -> prog B) : forall d,
  run_alone (prog_bind p f) [] d = let '(d', a) := run_alone p [] d in run_alone (f a) [] d'.
Proof.
  induction p as [a|T c k IH]; intros d; [done|]. cbn [prog_bind run_alone tl].
  destruct (exec c _ d) as [d' r]. apply IH.
Qed.

(** A fallible step that succeeds. *)
Lemma run_alone_try {A B E} (p : prog (result A E)) (f : A -> prog (result B E)) d d' a :
  run_alone p [] d = (d', Ok a) -> run_alone (try_bind p f) [] d = run_alone (f a) [] d'.
Proof. intros H. unfold try_bind. rewrite run_alone_bind, H. done. Qed.

Abbreviation undisturbed := (mkOutcome false 0).

Lemma run_alone_io {A} message (c : call (result A io_kind)) d d' a :
  exec c undisturbed d = (d', Ok a) -> run_alone (io_or show_io message c) [] d = (d', Ok a).
Proof. intros H. unfold io_or. rewrite run_alone_bind. cbn [do_call run_alone]. by rewrite H. Qed.

Lemma prepare_alone d :
  (dir_kind d = None \/ dir_kind d = Some Directory) ->
  run_alone (prepare_state_directory show_io dir_display) [] d
  = (mkDir (Some Directory) PRIVATE_DIR (nodes d), Ok tt).
Proof.
  intros Hk. unfold prepare_state_directory.
  rewrite (run_alone_try _ _ d (mkDir (Some Directory) (dir_mode d) (nodes d)) tt).
  2: { apply run_alone_io. cbn [exec fallible o_fails]. destruct d as [k m n]. cbn in *. by destruct Hk as [-> | ->]. }
  rewrite (run_alone_try _ _ _ (mkDir (Some Directory) (dir_mode d) (nodes d)) true) by (by apply run_alone_io).
  by apply run_alone_io.
Qed.

Lemma identity_body_utf8 u : utf8_valid (identity_body u) = true.
Proof.
  apply is_ascii_utf8. unfold identity_body, is_ascii. rewrite forallb_app. apply andb_true_iff. split; [|done].
  apply forallb_forall. intros b Hb. pose proof (uuid_show_chars u) as Hc. rewrite List.Forall_forall in Hc.
  apply Hc in Hb. unfold is_ascii_hexdigit, is_ascii_digit in Hb.
  rewrite !orb_true_iff, !andb_true_iff, !Z.leb_le, Z.eqb_eq in Hb.
  apply andb_true_iff. rewrite Z.leb_le, Z.ltb_lt. lia.
Qed.

Lemma read_identity_alone d u :
  dir_kind d = Some Directory ->
  nodes d !! IDENTITY_FILE = Some (mkNode Regular (identity_body u) PRIVATE_FILE) ->
  run_alone (read_identity show_io dir_display IDENTITY_FILE) [] d = (d, Ok u).
Proof.
  intros Hk Hn. destruct d as [k m n]. cbn [dir_kind nodes] in *. subst k. unfold read_identity.
  rewrite (run_alone_try _ _ _ (mkDir (Some Directory) m n) Regular).
  2: { apply run_alone_io. cbn [exec fallible o_fails inside dir_kind nodes]. rewrite Hn. done. }
  change (negb (bool_decide (Regular = Regular))) with false. cbv iota.
  rewrite (run_alone_try _ _ _ (mkDir (Some Directory) m n) tt).
  2: { apply run_alone_io. cbn [exec fallible o_fails inside dir_kind nodes]. rewrite Hn.
       unfold inside, with_nodes. cbn [dir_kind dir_mode nodes]. rewrite insert_id by exact Hn. done. }
  rewrite (run_alone_try _ _ _ (mkDir (Some Directory) m n) (identity_body u)).
  2: { apply run_alone_io. cbn [exec fallible o_fails inside dir_kind nodes]. rewrite Hn. done. }
  rewrite identity_body_utf8. cbn [negb]. unfold parse_uuid. rewrite uuid_parse_body. done.
Qed.

Lemma persist_alone tmp u d :
  dir_kind d = Some Directory -> nodes d !! IDENTITY_FILE = None -> nodes d !! identity_temporary tmp = None ->
  run_alone (persist_new_identity show_io dir_display tmp IDENTITY_FILE u) [] d
  = (mkDir (Some Directory) (dir_mode d)
       (<[IDENTITY_FILE := mkNode Regular (identity_body u) PRIVATE_FILE]> (nodes d)), Ok tt).
Proof.
  intros Hk Hp Ht. destruct d as [k m n]. cbn [dir_kind dir_mode nodes] in *. subst k.
  pose proof (temporary_not_path tmp) as Hne. unfold persist_new_identity, persist_linked.
  set (t := identity_temporary tmp) in *. set (f := mkNode Regular (identity_body u) PRIVATE_FILE).
  rewrite run_alone_bind.
  rewrite (run_alone_try _ _ _ (mkDir (Some Directory) m (<[t := mkNode Regular [] PRIVATE_FILE]> n)) tt).
  2: { apply run_alone_io. cbn [exec fallible o_fails inside dir_kind nodes]. by rewrite Ht. }
  rewrite (run_alone_try _ _ _ (mkDir (Some Directory) m (<[t := f]> n)) tt).
  2: { apply run_alone_io. cbn [exec o_fails]. unfold with_nodes. cbn [dir_kind dir_mode nodes].
       rewrite lookup_insert_eq. cbn [node_kind node_contents mode app]. by rewrite insert_insert_eq. }
  rewrite (run_alone_try _ _ _ (mkDir (Some Directory) m (<[t := f]> n)) tt) by (by apply run_alone_io).
  rewrite run_alone_bind. cbn [do_call run_alone exec fallible o_fails]. unfold inside. cbn [dir_kind nodes].
  rewrite lookup_insert_eq, lookup_insert_ne, Hp by done. cbn [bool_decide]. unfold with_nodes. cbn [dir_kind dir_mode nodes].
  change (bool_decide (Some Directory = Some Directory)) with true. cbv iota beta.
  unfold sync_state_directory. erewrite run_alone_io by reflexivity.
  rewrite run_alone_bind. cbn [do_call run_alone exec fallible o_fails]. unfold inside. cbn [dir_kind nodes].
  rewrite lookup_insert_ne, lookup_insert_eq by done. unfold f at 1. unfold with_nodes. cbn [dir_kind dir_mode nodes].
  change (bool_decide (Some Directory = Some Directory)) with true. cbv iota beta.
  rewrite delete_insert_ne, delete_insert_id by done. done.
Qed.

(** An identity is created once and reused: in a directory without one, an
    undisturbed first start returns the configured UUID, or else the fresh one,
    and leaves it in the file with its temporary name gone; any later undisturbed
    start returns the same, whatever it would have created. *)
Theorem identity_created_then_reused (tmp fresh tmp' fresh' : uuid) (explicit : option uuid) (d : dir) :
  (dir_kind d = None \/ dir_kind d = Some Directory) ->
  nodes d !! IDENTITY_FILE = None -> nodes d !! identity_temporary tmp = None ->
  let u := match explicit with Some e => e | None => fresh end in
  let '(d1, r1) := run_alone (load_or_create show_io dir_display tmp fresh (option_map uuid_show explicit)) [] d in
  r1 = Ok u /\
  nodes d1 = <[IDENTITY_FILE := mkNode Regular (identity_body u) PRIVATE_FILE]> (nodes d) /\
  dir_kind d1 = Some Directory /\ dir_mode d1 = PRIVATE_DIR /\
  run_alone (load_or_create show_io dir_display tmp' fresh' None) [] d1 = (d1, Ok u).
Proof.
  intros Hk Hp Ht u. destruct (run_alone _ [] d) as [d1 r1] eqn:E. unfold load_or_create in E.
  rewrite (run_alone_try _ _ _ _ _ (prepare_alone d Hk)) in E.
  assert (match option_map uuid_show explicit with Some v => let? w := parse_uuid v in Ok (Some w) | None => Ok None end
          = (Ok explicit : result (option uuid) bytes)) as Eex.
  { destruct explicit as [e|]; [|done]. cbn [option_map]. unfold parse_uuid. by rewrite uuid_parse_show. }
  rewrite Eex in E. rewrite run_alone_bind in E. cbn [do_call run_alone exec nodes] in E. rewrite Hp in E.
  rewrite andb_false_r in E. fold u in E.
  rewrite (run_alone_try _ _ _ _ _ (persist_alone tmp u (mkDir (Some Directory) PRIVATE_DIR (nodes d)) eq_refl Hp Ht)) in E.
  cbn [dir_mode nodes] in E. set (d2 := mkDir _ _ _) in E.
  assert (nodes d2 !! IDENTITY_FILE = Some (mkNode Regular (identity_body u) PRIVATE_FILE)) as Hn2
    by (apply lookup_insert_eq).
  rewrite (run_alone_try _ _ _ _ _ (read_identity_alone d2 u eq_refl Hn2)) in E. cbn [run_alone] in E.
  assert (forall o, (o = None \/ o = Some u) -> ensure_override_matches o u = Ok u) as Hok.
  { intros o [-> | ->]; [done|]. unfold ensure_override_matches. by rewrite bool_decide_eq_false_2 by tauto. }
  rewrite Hok in E by (unfold u; destruct explicit; auto). injection E as <- <-.
  split; [done|]. split; [done|]. split; [done|]. split; [done|]. unfold load_or_create.
  rewrite (run_alone_try _ _ _ _ _ (prepare_alone d2 (or_intror eq_refl))). cbv iota.
  rewrite run_alone_bind. cbn [do_call run_alone exec nodes]. fold d2. change (mkDir _ _ (nodes d2)) with d2.
  rewrite Hn2. cbn [negb o_fails andb dir_kind d2]. rewrite bool_decide_eq_true_2 by done. cbv iota. cbn [andb].
  rewrite (run_alone_try _ _ _ _ _ (read_identity_alone d2 u eq_refl Hn2)). cbn [run_alone]. by rewrite Hok by auto.
Qed.
End alone.

(** ** Two processes, to evaluate the theorems on *)

Section sample.
#[local] Existing Instance tiny_uuid.
Abbreviation id0 := (U0 : @uuid tiny_uuid).
Abbreviation id1 := (U1 : @uuid tiny_uuid).
Abbreviation id2 := (U2 : @uuid tiny_uuid).
Abbreviation id3 := (U3 : @uuid tiny_uuid).

(** Key documents are four bytes long. *)
#[local] Instance tiny_ed25519 : Ed25519 := {|
  pair := bytes;
  from_pkcs8 := fun c => if bool_decide (length c = 4%nat) then Some c else None;
  pair_public_key := id;
  pair_sign := fun k m => k ++ m;
  sha256 := id |}.

Definition quiet (i : nat) : nat * outcome := (i, mkOutcome false 0).
(** The calls of two processes, alternating. *)
Definition alternating : list (nat * outcome) := concat (replicate 14 [quiet 0; quiet 1]).

Definition no_dir : dir := mkDir None 0 ∅.
Definition no_text (_ : io_kind) : bytes := [].

Definition two_starts := [mkStarting id0 id2 None; mkStarting id1 id3 None].

Lemma processes_agree_on_identity_witness :
  let s := pool_run alternating (no_dir, map (start_one no_text []) two_starts) in
  map (fun p => match p with Ret r => Some r | _ => None end) (snd s) = [Some (Ok id2); Some (Ok id2)] /\
  forall i u, snd s !! i = Some (Ret (Ok u)) ->
    exists st, two_starts !! i = Some st /\ identified (st_explicit st) u (fst s).
Proof.
  intros s. split; [vm_compute; reflexivity|].
  refine (proj1 (proj2 (processes_agree_on_identity no_text [] two_starts no_dir (fst s) (snd s) _ _))).
  - apply (bool_decide_unpack _). vm_compute. exact I.
  - rewrite <- surjective_pairing. apply pool_run_steps.
Defined.

Definition two_keys := [mkKeyStarting id0 (Some [1; 2; 3; 4]); mkKeyStarting id1 (Some [5; 6; 7; 8])].

Lemma processes_agree_on_key_witness :
  let s := pool_run alternating (no_dir, map (key_start_one no_text []) two_keys) in
  map (fun p => match p with Ret r => Some r | _ => None end) (snd s)
    = [Some (Ok (mkKey [1; 2; 3; 4])); Some (Ok (mkKey [1; 2; 3; 4]))] /\
  forall i k, snd s !! i = Some (Ret (Ok k)) -> keyed k (fst s).
Proof.
  intros s. split; [vm_compute; reflexivity|].
  refine (proj1 (proj2 (processes_agree_on_key no_text [] two_keys no_dir (fst s) (snd s) _ _))).
  - apply (bool_decide_unpack _). vm_compute. exact I.
  - rewrite <- surjective_pairing. apply pool_run_steps.
Defined.

Lemma identity_created_then_reused_witness :
  let '(d1, r1) := run_alone (load_or_create no_text [] id0 id2 (option_map uuid_show (Some id3))) [] no_dir in
  r1 = Ok id3 /\ run_alone (load_or_create no_text [] id1 id2 None) [] d1 = (d1, Ok id3).
Proof.
  pose proof (identity_created_then_reused no_text [] id0 id2 id1 id2 (Some id3) no_dir) as H.
  specialize (H (or_introl eq_refl) eq_refl eq_refl). destruct (run_alone _ [] no_dir) as [d1 r1].
  destruct H as (H1 & _ & _ & _ & H2). split; [exact H1|exact H2].
Defined.
End sample.
