(* ===== verification/Transport.v ===== *)
(** * transport.rs, first half: failures, their classification, and retries

    Statuses are HTTP status codes.  The clock, the request and the sleep of
    the retry loop are operations on an abstract state, so the loop's theorems
    hold whatever the server, the network and the scheduler do, as long as time
    does not run backwards and a sleep lasts at least as long as asked. *)

From Stdlib Require Import String.
From S2P Require Import Prelude Text Interfaces.

Inductive FailureKind := Transient | PayloadRejected | Permanent.

#[export] Instance FailureKind_eq_dec : EqDecision FailureKind.
Proof. solve_decision. Defined.

Record TransportError := mkError {
  message : bytes;
  failure : FailureKind;
  err_status : option Z;
  retry_not_before : option Z;
  err_moved : bool;
  collector_kind_conflict : bool }.

(** [TransportError::new]. *)
Definition transport_error (message : bytes) (k : FailureKind) : TransportError :=
  mkError message k None None false false.

Definition with_status (e : TransportError) (status : Z) : TransportError :=
  mkError (message e) (failure e) (Some status) (retry_not_before e) (err_moved e)
          (collector_kind_conflict e).

(** [TransportError::cancelled] and [is_cancelled]. *)
Definition cancelled_error : TransportError :=
  transport_error (lit "HTTP delivery cancelled") Permanent.
Definition is_cancelled (e : TransportError) : bool :=
  str_eqb (message e) (lit "HTTP delivery cancelled").
Definition is_transient (e : TransportError) : bool := bool_decide (failure e = Transient).

(** ** Classification of responses *)

Definition MAX_ERROR_BODY : nat := 512.
Definition MAX_RESPONSE_BODY : Z := 1024 * 1024.
Definition DELIVERY_BUDGET : Z := from_secs 25.
Definition BACKOFF_SLICE : Z := from_millis 25.

Definition REQUEST_TIMEOUT : Z := 408.
Definition CONFLICT : Z := 409.
Definition GONE : Z := 410.
Definition PAYLOAD_TOO_LARGE : Z := 413.
Definition UNPROCESSABLE_ENTITY : Z := 422.
Definition TOO_MANY_REQUESTS : Z := 429.
Definition BAD_REQUEST : Z := 400.
Definition UNAUTHORIZED : Z := 401.
Definition FORBIDDEN : Z := 403.
Definition ACCEPTED : Z := 202.
Definition OK_STATUS : Z := 200.

Definition is_success (status : Z) : bool := (200 <=? status) && (status <? 300).
Definition is_server_error (status : Z) : bool := (500 <=? status) && (status <? 600).

(** A response as the client sees it: status, [Retry-After] header as text if
    it is visible ASCII, and a body reader. *)
Record response := mkResponse {
  resp_status : Z;
  resp_retry_after : option bytes;
  resp_body : bytes;
  resp_read_error : option bytes }.   (* reading fails, with this text, after the body *)

Section classification.
Context {J : Json}.
(** [format!("{status}; response excerpt: {excerpt:?}")], rendered by the http
    crate's and the standard library's formatters. *)
Context (describe : Z -> bytes -> bytes).

(** [moved]: a 410 whose JSON body says [{"error": "moved"}]. *)
Definition moved (status : Z) (excerpt : bytes) : bool :=
  (status =? GONE) &&
  match json_from_slice excerpt with
  | Some body =>
      match (let+ v := json_get body (lit "error") in json_as_str v) with
      | Some s => str_eqb s (lit "moved")
      | None => false
      end
  | None => false
  end.

(** [rejects_path]: whether a JSON error list names [path]. *)
Definition rejects_path (excerpt path : bytes) : bool :=
  match (let+ body := json_from_slice excerpt in
         let+ errors := json_get body (lit "errors") in
         json_as_array errors) with
  | Some errors =>
      existsb (fun e =>
        match (let+ v := json_get e (lit "path") in json_as_str v) with
        | Some s => str_eqb s path
        | None => false
        end) errors
  | None => false
  end.

Definition failure_kind (status : Z) (excerpt : bytes) : FailureKind :=
  if (status =? REQUEST_TIMEOUT) || (status =? TOO_MANY_REQUESTS) then Transient
  else if (status =? GONE) && moved status excerpt then Transient
  else if is_server_error status then Transient
  else if (status =? BAD_REQUEST) || (status =? PAYLOAD_TOO_LARGE)
          || (status =? UNPROCESSABLE_ENTITY) then PayloadRejected
  else if (status =? CONFLICT)
          && (rejects_path excerpt (lit "observation_id")
              || rejects_path excerpt (lit "replay_id")) then PayloadRejected
  else Permanent.

(** [String::from_utf8_lossy] of the first [MAX_ERROR_BODY] bytes; a reading
    error keeps what was read. *)
Definition bounded_error_excerpt (r : response) : bytes :=
  from_utf8_lossy (take MAX_ERROR_BODY (resp_body r)).

(** [retry_after]: seconds, or an RFC 2822 date ([parse_rfc2822] is chrono's,
    in nanoseconds of wall-clock time), as a deadline on the monotonic clock. *)
Definition retry_after (parse_rfc2822 : bytes -> option Z) (wall now : Z) (value : bytes)
  : option Z :=
  let+ delay :=
    match parse_uint U64_MAX value with
    | Some seconds => Some (from_secs seconds)
    | None => let+ date := parse_rfc2822 value in Some (since date wall)
    end in
  checked_add_instant now delay.

Definition status_error (parse_rfc2822 : bytes -> option Z) (wall now : Z) (r : response)
  : TransportError :=
  let status := resp_status r in
  let deadline := let+ v := resp_retry_after r in retry_after parse_rfc2822 wall now v in
  let excerpt := bounded_error_excerpt r in
  mkError (lit "server returned " ++ describe status excerpt)
    (failure_kind status excerpt) (Some status) deadline (moved status excerpt)
    ((status =? CONFLICT) && rejects_path excerpt (lit "collector.kind")).

(** [read_bounded]: fails rather than truncates. *)
Definition read_bounded (r : response) (limit : Z) : result bytes TransportError :=
  let available := resp_body r in
  if limit <? zlength available
  then Err (transport_error (lit "server response exceeds " ++ show_u64 limit ++ lit " bytes")
              Permanent)
  else match resp_read_error r with
       | Some error => Err (transport_error (lit "cannot read server response: " ++ error) Transient)
       | None => Ok available
       end.

Definition response_result parse_rfc2822 wall now (r : response) : result unit TransportError :=
  if is_success (resp_status r) then Ok tt
  else Err (status_error parse_rfc2822 wall now r).

Definition response_body parse_rfc2822 wall now (r : response) : result bytes TransportError :=
  if negb (is_success (resp_status r)) then Err (status_error parse_rfc2822 wall now r)
  else read_bounded r MAX_RESPONSE_BODY.
End classification.

(** [request_error]: reqwest's own classification of a request that got no
    response ([is_timeout], [is_connect], [is_request]). *)
Definition request_error (timeout connect request : bool) (text : bytes) : TransportError :=
  transport_error (lit "HTTP request failed: " ++ text)
    (if timeout || connect || request then Transient else Permanent).

(** ** The retry loop *)

Section retry.
(** The world the loop runs in: its clock, one attempt, sleeping, and the
    cancellation test. *)
Context {S T : Type}.
Context (clock : S -> Z) (operation : S -> S * result T TransportError)
        (sleep : Z -> S -> S) (cancelled : S -> bool).
Context (request_timeout budget : Z).

(** [while !remaining.is_zero()]: sleeps in slices, watching cancellation.
    Returns whether the sleep completed. *)
Fixpoint backoff (fuel : nat) (remaining : Z) (s : S) : S * option bool :=
  if remaining <=? 0 then (s, Some true)
  else match fuel with
       | O => (s, None)
       | Datatypes.S fuel' =>
           if cancelled s then (s, Some false)
           else
             let slice := Z.min remaining BACKOFF_SLICE in
             backoff fuel' (remaining - slice) (sleep slice s)
       end.

Definition backoff_fuel (delay : Z) : nat := Z.to_nat (delay / BACKOFF_SLICE + 1).

(** The loop, from attempt [attempts - left + 1] on.  [None] is the
    [unreachable!()] after a loop of no attempts. *)
Fixpoint retry_loop (left : nat) (started delay : Z) (s : S)
  : S * option (result T TransportError) :=
  match left with
  | O => (s, None)
  | Datatypes.S left' =>
      if cancelled s then (s, Some (Err cancelled_error))
      else
        match operation s with
        | (s1, Ok value) => (s1, Some (Ok value))
        | (s1, Err error) =>
            if negb (is_transient error) || err_moved error || Nat.eqb left' 0
            then (s1, Some (Err error))
            else
              let wait := Z.max delay
                (match retry_not_before error with
                 | Some deadline => since deadline (clock s1)
                 | None => 0
                 end) in
              if budget <? dur_saturating_add
                             (dur_saturating_add (since (clock s1) started) wait) request_timeout
              then (s1, Some (Err error))
              else
                match backoff (backoff_fuel wait) wait s1 with
                | (s2, Some true) =>
                    if budget <? dur_saturating_add (since (clock s2) started) request_timeout
                    then (s2, Some (Err error))
                    else retry_loop left' started (Z.min (delay * 2) (from_secs 8)) s2
                | (s2, Some false) => (s2, Some (Err cancelled_error))
                | (s2, None) => (s2, None)
                end
        end
  end.

Definition retry_with_budget (attempts : Z) (s : S) : S * option (result T TransportError) :=
  retry_loop (Z.to_nat attempts) (clock s) (from_millis 250) s.
End retry.

(** [retry]: the fixed delivery budget. *)
Definition retry {S T} (clock : S -> Z) (operation : S -> S * result T TransportError)
  (sleep : Z -> S -> S) (cancelled : S -> bool) (request_timeout attempts : Z) (s : S) :=
  retry_with_budget clock operation sleep cancelled request_timeout DELIVERY_BUDGET attempts s.

(** ** Lemmas on the loop *)

Lemma backoff_fuel_enough delay : delay <= Z.of_nat (backoff_fuel delay) * BACKOFF_SLICE.
Proof.
  unfold backoff_fuel, BACKOFF_SLICE, from_millis.
  pose proof (Z.div_mod delay (25 * 1000000) ltac:(lia)).
  pose proof (Z.mod_pos_bound delay (25 * 1000000) ltac:(lia)).
  destruct (Z.leb_spec 0 (delay / (25 * 1000000) + 1)); lia.
Qed.

(** Retrying returns, whatever the clock does. *)
Section returns.
Context {S T : Type} (clock : S -> Z) (operation : S -> S * result T TransportError)
        (sleep : Z -> S -> S) (cancelled : S -> bool) (request_timeout : Z).

Lemma backoff_returns fuel : forall remaining s,
  remaining <= Z.of_nat fuel * BACKOFF_SLICE -> snd (backoff sleep cancelled fuel remaining s) <> None.
Proof.
  induction fuel as [|fuel IH]; intros remaining s Hf; cbn [backoff]; destruct (Z.leb_spec remaining 0); try done; [lia|].
  destruct (cancelled s); [done|]. apply IH. unfold BACKOFF_SLICE, from_millis in *. lia.
Qed.

Lemma retry_loop_returns budget left : forall started delay s,
  (1 <= left)%nat -> snd (retry_loop clock operation sleep cancelled request_timeout budget left started delay s) <> None.
Proof.
  induction left as [|left IH]; intros started delay s Hl; cbn [retry_loop]; [lia|]. destruct (cancelled s); [done|].
  destruct (operation s) as [s1 [v|e]]; [done|]. destruct (Nat.eqb_spec left 0); [by rewrite orb_true_r|].
  destruct (_ || false); [done|]. destruct (budget <? _); [done|].
  match goal with |- context [backoff _ _ (backoff_fuel ?w) ?w ?x] =>
    pose proof (backoff_returns (backoff_fuel w) w x) as Hb; destruct (backoff sleep cancelled (backoff_fuel w) w x) as [s2 [[]|]] end.
  - destruct (budget <? _); [done|]. apply IH. lia.
  - done.
  - exfalso. apply Hb; [|done]. apply backoff_fuel_enough.
Qed.

Lemma retry_returns attempts s :
  1 <= attempts -> snd (retry clock operation sleep cancelled request_timeout attempts s) <> None.
Proof. intros H. apply retry_loop_returns. lia. Qed.
End returns.

(** The loop with every attempt recorded: when it started and how it ended. *)
Section log.
Context {S T : Type}.
Context (clock : S -> Z) (operation : S -> S * result T TransportError).

Definition attempt : Type := Z * result T TransportError.

Definition log_operation (s : S * list attempt) : (S * list attempt) * result T TransportError :=
  let '(s', r) := operation (fst s) in ((s', snd s ++ [(clock (fst s), r)]), r).
Definition log_clock (s : S * list attempt) : Z := clock (fst s).
Definition log_sleep (sleep : Z -> S -> S) (d : Z) (s : S * list attempt) : S * list attempt :=
  (sleep d (fst s), snd s).
Definition log_cancelled (cancelled : S -> bool) (s : S * list attempt) : bool :=
  cancelled (fst s).
End log.

(** An error worth another attempt. *)
Definition retryable (e : TransportError) : bool := is_transient e && negb (err_moved e).

Section retry_lemmas.
Context {S T : Type}.
Context (clock : S -> Z) (operation : S -> S * result T TransportError)
        (sleep : Z -> S -> S) (cancelled : S -> bool).
Context (request_timeout budget : Z).
Hypothesis clock_operation : forall s, clock s <= clock (fst (operation s)).
Hypothesis clock_sleep : forall d s, 0 <= d -> clock s + d <= clock (sleep d s).
Hypothesis budget_small : 0 <= budget < DURATION_MAX.

Local Abbreviation lclock := (log_clock (T := T) clock).
Local Abbreviation lsleep := (log_sleep (T := T) sleep).
Local Abbreviation lcancelled := (log_cancelled (T := T) cancelled).

(** The sleep completes or is cancelled, never runs out of fuel, leaves the
    log alone, and when it completes the time has passed. *)
Lemma backoff_spec fuel : forall remaining s s' r,
  remaining <= Z.of_nat fuel * BACKOFF_SLICE ->
  backoff lsleep lcancelled fuel remaining s = (s', r) ->
  snd s' = snd s /\ clock (fst s) <= clock (fst s') /\ r <> None /\
  (r = Some true -> clock (fst s) + remaining <= clock (fst s')).
Proof.
  induction fuel as [|fuel IH]; intros remaining s s' r Hf; cbn [backoff];
    (destruct (Z.leb_spec remaining 0) as [Hr|Hr]; [intros [= <- <-]; repeat split; auto; lia|]).
  - lia.
  - destruct (lcancelled s); [intros [= <- <-]; repeat split; auto; [lia|done..]|].
    intros E. pose proof (clock_sleep (Z.min remaining BACKOFF_SLICE) (fst s)) as Hc.
    unfold BACKOFF_SLICE, from_millis in *.
    specialize (Hc ltac:(lia)). apply IH in E; [|lia]. simpl in E.
    destruct E as (-> & H1 & H2 & H3). repeat split; auto; [lia|]. intros Ht. specialize (H3 Ht). lia.
Qed.

Lemma saturating_fits a b : 0 <= a -> dur_saturating_add a b <= budget -> a + b <= budget.
Proof. unfold dur_saturating_add. lia. Qed.

(** The server's [Retry-After] on one attempt, if it named one, is over at [t]. *)
Definition waited_out (r : result T TransportError) (t : Z) : Prop :=
  match r with
  | Err e => forall deadline, retry_not_before e = Some deadline -> deadline <= t
  | Ok _ => True
  end.

(** What one run of the loop adds to the log. *)
Definition disciplined (left : nat) (started delay now : Z)
    (l : list (attempt (T := T))) (r : option (result T TransportError)) : Prop :=
  (length l <= left)%nat /\
  Forall (fun a => match snd a with Err e => retryable e = true | Ok _ => False end) (removelast l) /\
  Forall (fun a => fst a + request_timeout <= started + budget) (tail l) /\
  (forall i t1 r1 t2 r2, l !! i = Some (t1, r1) -> l !! Datatypes.S i = Some (t2, r2) ->
     t1 + Z.min (delay * 2 ^ Z.of_nat i) (from_secs 8) <= t2 /\ waited_out r1 t2) /\
  match r with
  | Some (Ok v) => exists t, last_opt l = Some (t, Ok v)
  | Some (Err e) => e = cancelled_error \/ exists t, last_opt l = Some (t, Err e)
  | None => left = O
  end.

Lemma disciplined_one left started delay now t r :
  disciplined (Datatypes.S left) started delay now [(t, r)] (Some r).
Proof.
  unfold disciplined. split; [simpl; lia|]. split; [constructor|]. split; [constructor|].
  split; [by intros [|i] ? ? ? ?|]. destruct r; simpl; eauto.
Qed.

Lemma disciplined_cons left started delay now now' t e l r :
  0 <= delay <= from_secs 8 ->
  retryable e = true ->
  disciplined left started (Z.min (delay * 2) (from_secs 8)) now' l r ->
  (left <> O) ->
  (forall t2 r2, head l = Some (t2, r2) ->
     t + delay <= t2 /\ waited_out (Err e) t2 /\ t2 + request_timeout <= started + budget) ->
  disciplined (Datatypes.S left) started delay now ((t, Err e) :: l) r.
Proof.
  intros Hd He (H1 & H2 & H3 & H4 & H5) Hleft Hhd. unfold disciplined.
  destruct l as [|[t2 r2] l].
  - split; [simpl; lia|]. split; [constructor|]. split; [constructor|].
    split; [by intros [|i] ? ? ? ?|].
    destruct r as [[v|e']|]; [by destruct H5 as [? ?]| |done].
    destruct H5 as [?|[? ?]]; [by left|done].
  - destruct (Hhd t2 r2 eq_refl) as (Hgap & Hra & Hfit).
    split; [simpl in *; lia|]. split; [|split; [|split]].
    + cbn [removelast]. constructor; [done|exact H2].
    + simpl. constructor; [done|exact H3].
    + intros [|i] a1 b1 a2 b2 Ha Hb; simpl in *.
      * injection Ha as <- <-. injection Hb as <- <-. change (2 ^ Z.of_nat 0) with 1. split; [lia|done].
      * destruct (H4 i a1 b1 a2 b2 Ha Hb) as [H4' Hra']. split; [|done]. clear H4.
        rewrite Nat2Z.inj_succ, Z.pow_succ_r by lia.
        assert (0 < 2 ^ Z.of_nat i) by (apply Z.pow_pos_nonneg; lia).
        unfold from_secs, NANOS in *. nia.
    + destruct r as [[v|e']|]; [|destruct H5 as [?|[? ?]]|done]; eauto.
Qed.

Lemma retry_loop_disciplined left : forall started delay s log s' log' r,
  0 <= delay <= from_secs 8 -> started <= clock s ->
  retry_loop lclock (log_operation clock operation) lsleep lcancelled
    request_timeout budget left started delay (s, log) = ((s', log'), r) ->
  exists l, log' = log ++ l /\ (forall t0 r0, head l = Some (t0, r0) -> t0 = clock s) /\
            disciplined left started delay (clock s) l r.
Proof.
  induction left as [|left IH]; intros started delay s log s' log' r Hd Hst; cbn [retry_loop].
  { intros [= <- <- <-]. exists []. rewrite app_nil_r.
    split; [done|]. split; [done|]. unfold disciplined.
    split; [simpl; lia|]. split; [constructor|]. split; [constructor|]. done. }
  destruct (lcancelled (s, log)).
  { intros [= <- <- <-]. exists []. rewrite app_nil_r.
    split; [done|]. split; [done|]. unfold disciplined.
    split; [simpl; lia|]. split; [constructor|]. split; [constructor|]. split; [done|by left]. }
  unfold log_operation at 1. cbn [fst snd].
  pose proof (clock_operation s) as Hop.
  destruct (operation s) as [s1 [v|e]]; cbn [fst] in Hop.
  { intros [= <- <- <-]. exists [(clock s, Ok v)].
    split; [done|]. split; [by intros ? ? [= <- _]|apply disciplined_one]. }
  destruct (negb (is_transient e) || err_moved e || Nat.eqb left 0) eqn:Hstop.
  { intros [= <- <- <-]. exists [(clock s, Err e)].
    split; [done|]. split; [by intros ? ? [= <- _]|apply disciplined_one]. }
  apply orb_false_iff in Hstop as [[Ht Hm]%orb_false_iff Hl%Nat.eqb_neq].
  assert (retryable e = true) as Hret.
  { unfold retryable. apply negb_false_iff in Ht. by rewrite Ht, Hm. }
  set (wait := Z.max delay _). cbv zeta.
  destruct (Z.ltb_spec budget (dur_saturating_add (dur_saturating_add
    (since (lclock (s1, log ++ [(clock s, Err e)])) started) wait) request_timeout)) as [|Hfit].
  { intros [= <- <- <-]. exists [(clock s, Err e)].
    split; [done|]. split; [by intros ? ? [= <- _]|apply disciplined_one]. }
  destruct (backoff lsleep lcancelled (backoff_fuel wait) wait _) as [[s2 log2] done_] eqn:Hb.
  apply backoff_spec in Hb as (Hlog & Hc1 & Hsome & Htime); [|apply backoff_fuel_enough].
  cbn [fst snd] in *. subst log2.
  destruct done_ as [[]|]; [| |done].
  - specialize (Htime eq_refl). unfold log_clock at 1. cbn [fst].
    destruct (Z.ltb_spec budget (dur_saturating_add (since (clock s2) started) request_timeout)) as [|Hfit2].
    { intros [= <- <- <-]. exists [(clock s, Err e)].
      split; [done|]. split; [by intros ? ? [= <- _]|apply disciplined_one]. }
    intros E. apply IH in E as (l & -> & Hhd & Hdisc); [|unfold from_secs, NANOS in *; lia|lia].
    exists ((clock s, Err e) :: l). rewrite <- app_assoc.
    split; [done|]. split; [by intros ? ? [= <- _]|].
    eapply disciplined_cons; [done|done|exact Hdisc|done|].
    intros t2 r2 Hl2. rewrite (Hhd _ _ Hl2).
    apply saturating_fits in Hfit2; [|unfold since; lia]. unfold since in Hfit2.
    split; [lia|]. split; [|lia]. intros deadline Hdl. unfold wait, log_clock, since in Htime.
    rewrite Hdl in Htime. cbn [fst] in Htime. lia.
  - intros [= <- <- <-]. exists [(clock s, Err e)].
    split; [done|]. split; [by intros ? ? [= <- _]|].
    destruct (disciplined_one left started delay (clock s) (clock s) (Err e)) as (?&?&?&?&_).
    do 4 (split; [done|]). by left.
Qed.
End retry_lemmas.

(** ** Properties *)

(** C6. Retrying always ends with a result, makes at most the configured
    number of attempts, and starts an attempt after the first only if the
    request timeout still fits the delivery budget.  Every attempt but the
    last failed transiently and without saying the organization moved;
    consecutive attempts are at least the doubling backoff (from 250 ms, capped
    at 8 s) apart, and an attempt starts only once the [Retry-After] of the
    answer before it is over; and the result is the last attempt's, or cancellation. *)
Theorem retry_with_budget_disciplined {S T} (clock : S -> Z)
    (operation : S -> S * result T TransportError) (sleep : Z -> S -> S) (cancelled : S -> bool)
    (request_timeout budget attempts : Z) (s s' : S) (l : list (attempt (T := T))) r :
  (forall s, clock s <= clock (fst (operation s))) ->
  (forall d s, 0 <= d -> clock s + d <= clock (sleep d s)) ->
  0 <= budget < DURATION_MAX -> 1 <= attempts ->
  retry_with_budget (log_clock clock) (log_operation clock operation) (log_sleep sleep)
    (log_cancelled cancelled) request_timeout budget attempts (s, []) = ((s', l), r) ->
  zlength l <= attempts /\
  Forall (fun a => match snd a with Err e => retryable e = true | Ok _ => False end) (removelast l) /\
  Forall (fun a => fst a + request_timeout <= clock s + budget) (tail l) /\
  (forall i t1 r1 t2 r2, l !! i = Some (t1, r1) -> l !! Datatypes.S i = Some (t2, r2) ->
     t1 + Z.min (from_millis 250 * 2 ^ Z.of_nat i) (from_secs 8) <= t2 /\ waited_out r1 t2) /\
  match r with
  | Some (Ok v) => exists t, last_opt l = Some (t, Ok v)
  | Some (Err e) => e = cancelled_error \/ exists t, last_opt l = Some (t, Err e)
  | None => False
  end.
Proof.
  intros Hop Hsl Hb Ha E. unfold retry_with_budget in E.
  eapply retry_loop_disciplined in E as (l' & -> & _ & H1 & H2 & H3 & H4 & H5); eauto.
  - simpl. split; [unfold zlength; lia|]. do 3 (split; [done|]). destruct r; [done|]. lia.
  - unfold from_millis, from_secs, NANOS. lia.
  - unfold log_clock. simpl. lia.
Qed.

(** A server that asks for three seconds each time gets them, though the backoff is shorter. *)
Definition ask_for_three (t : Z) : Z * result unit TransportError :=
  (t + from_secs 1, Err (mkError [] Transient None (Some (t + from_secs 3)) false false)).

Lemma retry_with_budget_disciplined_witness :
  exists s' l r,
  retry_with_budget (S := Z * list (attempt (T := unit))) (log_clock (fun t => t))
    (log_operation (fun t => t) ask_for_three)
    (log_sleep (fun d t => t + d)) (log_cancelled (fun _ => false))
    (from_secs 5) DELIVERY_BUDGET 3 (0, []) = ((s', l), r) /\ map fst l = [0; from_secs 3; from_secs 6] /\
  forall i t1 r1 t2 r2, l !! i = Some (t1, r1) -> l !! Datatypes.S i = Some (t2, r2) -> waited_out r1 t2.
Proof.
  eexists _, _, _. split; [vm_compute; reflexivity|]. split; [reflexivity|].
  intros i t1 r1 t2 r2.
  edestruct (retry_with_budget_disciplined (T := unit) (fun t => t) ask_for_three
    (fun d t => t + d) (fun _ => false) (from_secs 5) DELIVERY_BUDGET 3 0) as (_ & _ & _ & Hgap & _).
  - intros t. cbn [fst ask_for_three]. unfold from_secs, NANOS. lia.
  - intros d t Hd. lia.
  - split; [discriminate|reflexivity].
  - lia.
  - vm_compute. reflexivity.
  - intros H1 H2. exact (proj2 (Hgap i t1 r1 t2 r2 H1 H2)).
Defined.

(** Which failures lose a payload: a queued entry is dropped as rejected
    exactly on 400, 413, 422, or a conflict about the observation or replay ID;
    and it is retried as transient exactly on 408, 429, server errors and a
    410 that says the organization moved. *)
Theorem failure_kind_exact {J : Json} status excerpt :
  (failure_kind status excerpt = PayloadRejected <->
     status = 400 \/ status = 413 \/ status = 422 \/
     (status = 409 /\ (rejects_path excerpt (lit "observation_id") = true \/
                       rejects_path excerpt (lit "replay_id") = true))) /\
  (failure_kind status excerpt = Transient <->
     status = 408 \/ status = 429 \/ 500 <= status < 600 \/
     (status = 410 /\ moved status excerpt = true)).
Proof.
  unfold failure_kind, is_server_error, REQUEST_TIMEOUT, TOO_MANY_REQUESTS, GONE, BAD_REQUEST,
    PAYLOAD_TOO_LARGE, UNPROCESSABLE_ENTITY, CONFLICT.
  repeat match goal with
  | |- context [?a =? ?b] => destruct (Z.eqb_spec a b); cbn [orb andb]
  | |- context [?a <=? ?b] => destruct (Z.leb_spec a b); cbn [orb andb]
  | |- context [?a <? ?b] => destruct (Z.ltb_spec a b); cbn [orb andb]
  end; try lia;
  destruct (moved status excerpt); destruct (rejects_path excerpt (lit "observation_id"));
  destruct (rejects_path excerpt (lit "replay_id")); cbn [orb andb];
  split; split; intros; try discriminate; try reflexivity;
  repeat match goal with
  | H : _ \/ _ |- _ => destruct H
  | H : _ /\ _ |- _ => destruct H
  end; try lia; try discriminate; auto 10; intuition lia.
Qed.
