(* ===== verification/Tls.v ===== *)
(** * transport.rs: the HTTP clients' settings

    [pinned_tls] and [build_client], and the settings of an exporter's client.  rustls and
    reqwest are not in the sources: what they may refuse to build is an argument, and what
    they are asked to build is [HttpSettings], starting from reqwest's documented defaults. *)

From Stdlib Require Import String.
From S2P Require Import Prelude Text Ip Transport.

#[local] Set Warnings "-notation-overridden".

Inductive Provider := Ring | ProcessDefault.
Inductive Roots := WebpkiRoots | HostStore.

(** [rustls::ClientConfig], as far as the agent chooses it. *)
Record TlsConfig := mkTlsConfig { provider : Provider; roots : Roots; client_certificate : bool }.

Inductive Redirects := NoRedirects | AtMost (n : Z).

(** [reqwest::blocking::ClientBuilder]. *)
Record HttpSettings := mkHttp {
  tls : option TlsConfig;
  timeout : option Z;
  connect_timeout : option Z;
  redirects : Redirects;
  system_proxy : bool;
  overrides : list (bytes * list SocketAddr) }.       (* [resolve_to_addrs] *)

(** [Client::builder()]. *)
Definition builder : HttpSettings := mkHttp None (Some (from_secs 30)) None (AtMost 10) true [].

Definition tls_backend_preconfigured (t : TlsConfig) (s : HttpSettings) : HttpSettings :=
  mkHttp (Some t) (timeout s) (connect_timeout s) (redirects s) (system_proxy s) (overrides s).
Definition with_timeout (d : Z) (s : HttpSettings) : HttpSettings :=
  mkHttp (tls s) (Some d) (connect_timeout s) (redirects s) (system_proxy s) (overrides s).
Definition with_connect_timeout (d : Z) (s : HttpSettings) : HttpSettings :=
  mkHttp (tls s) (timeout s) (Some d) (redirects s) (system_proxy s) (overrides s).
Definition redirect (r : Redirects) (s : HttpSettings) : HttpSettings :=
  mkHttp (tls s) (timeout s) (connect_timeout s) r (system_proxy s) (overrides s).
Definition no_proxy (s : HttpSettings) : HttpSettings :=
  mkHttp (tls s) (timeout s) (connect_timeout s) (redirects s) false (overrides s).
Definition resolve_to_addrs (host : bytes) (l : list SocketAddr) (s : HttpSettings) : HttpSettings :=
  mkHttp (tls s) (timeout s) (connect_timeout s) (redirects s) (system_proxy s) (overrides s ++ [(host, l)]).

(** What the crates answer when asked to build: the protocol versions, and the client. *)
Section build.
Variables (protocol_versions : result unit bytes) (built : HttpSettings -> result unit bytes).

Definition pinned_tls : result TlsConfig TransportError :=
  let? _ := map_err (fun e => transport_error (lit "cannot configure TLS protocol versions: " ++ e) Permanent) protocol_versions in
  Ok (mkTlsConfig Ring WebpkiRoots false).

Definition build_client (t : TlsConfig) (d : Z) : result HttpSettings TransportError :=
  let settings := redirect NoRedirects (with_timeout d (tls_backend_preconfigured t builder)) in
  let? _ := map_err (fun e => transport_error (lit "cannot build HTTP client: " ++ e) Permanent) (built settings) in
  Ok settings.

(** [build_client(pinned_tls()?, timeout)]: the argument [build] of Client.v and Home.v is
    whether this succeeds. *)
Definition build (d : Z) : result HttpSettings TransportError :=
  let? t := pinned_tls in build_client t d.

(** The client of [exporters::fetch]. *)
Definition exporter_client (t : TlsConfig) (d : Z) (host : bytes) (addresses : list SocketAddr) : result HttpSettings bytes :=
  let settings := resolve_to_addrs host addresses
    (with_timeout d (with_connect_timeout d (redirect NoRedirects (no_proxy (tls_backend_preconfigured t builder))))) in
  let? _ := map_err (fun e => lit "cannot build the exporter client: " ++ e) (built settings) in
  Ok settings.

(** A client that trusts the compiled-in roots and nothing of the host, stays with the
    server it was sent to, and gives up after [d]. *)
Definition stays_put (d : Z) (s : HttpSettings) : Prop :=
  tls s = Some (mkTlsConfig Ring WebpkiRoots false) /\ redirects s = NoRedirects /\ timeout s = Some d.

(** Every client the agent talks to Renga with stays put, and when none can be built the
    failure is permanent, so no delivery retries it. *)
Theorem renga_clients_stay_put (d : Z) :
  match build d with
  | Ok s => stays_put d s
  | Err e => failure e = Permanent /\ is_transient e = false
  end.
Proof.
  unfold build, pinned_tls, build_client. destruct protocol_versions as [[]|e]; cbn [map_err result_bind]; [|by split].
  destruct (built _) as [[]|e]; cbn [map_err result_bind]; by split.
Qed.

Lemma exporter_client_ok t d host l s :
  exporter_client t d host l = Ok s ->
  tls s = Some t /\ redirects s = NoRedirects /\ timeout s = Some d /\ connect_timeout s = Some d /\
  system_proxy s = false /\ overrides s = [(host, l)].
Proof. unfold exporter_client. destruct (built _) as [[]|e]; [|done]. by intros [= <-]. Qed.
End build.
