(* ===== verification/Queue.v ===== *)
(** * queue.rs: the bounded on-disk queues

    A queue is a directory of files, one per entry, named
    [<sequence>-<seconds>-<id>.json].  The state of the model is the
    [DiskQueue] with the directory it owns; every method is a state-and-error
    computation over the file-system calls of [Fs], in the source's order,
    [publish_health] after each change included.  Random temporary names are an
    argument.  [offers] records, in order, what [drain_at_most] handed to the
    transport: it exists in the model only. *)

From Stdlib Require Import String.
From stdpp Require Import sorting.
From S2P Require Import Prelude Text Fs Interfaces Transport.

Definition FLUSH_INTERVAL : Z := from_secs 120.
Definition ENTRY_SUFFIX : bytes := lit ".json".
Definition TEMPORARY_PREFIX : bytes := lit ".tmp-".
Definition ABANDONED_TEMPORARY_AGE : Z := from_secs 600.

Inductive QueueKind := Observations | Telemetry.

Definition kind_name (k : QueueKind) : bytes :=
  match k with Observations => lit "observation" | Telemetry => lit "telemetry" end.
Definition kind_directory (k : QueueKind) : bytes :=
  match k with Observations => lit "observations" | Telemetry => lit "telemetry" end.

Record QueueLimits := mkLimits { max_entries : Z; max_bytes : Z; max_age : Z }.

Definition observation_limits : QueueLimits :=
  mkLimits 512 (64 * 1024 * 1024) (from_secs (7 * 24 * 60 * 60)).
Definition telemetry_limits : QueueLimits :=
  mkLimits 8192 (64 * 1024 * 1024) (from_secs (24 * 60 * 60)).
Definition default_limits (k : QueueKind) : QueueLimits :=
  match k with Observations => observation_limits | Telemetry => telemetry_limits end.

Record QueueCounters := mkCounters {
  dropped_for_space : Z;
  expired : Z;
  rejected : Z;
  unreadable : Z;
  dropped_range : option (Z * Z) }.

Definition no_counters : QueueCounters := mkCounters 0 0 0 0 None.

Definition note_dropped (c : QueueCounters) (queued_at : Z) : QueueCounters :=
  mkCounters (dropped_for_space c) (expired c) (rejected c) (unreadable c)
    (Some match dropped_range c with
          | Some (earliest, latest) => (Z.min earliest queued_at, Z.max latest queued_at)
          | None => (queued_at, queued_at)
          end).

Definition count_space (c : QueueCounters) : QueueCounters :=
  mkCounters (dropped_for_space c + 1) (expired c) (rejected c) (unreadable c) (dropped_range c).
Definition count_expired (c : QueueCounters) : QueueCounters :=
  mkCounters (dropped_for_space c) (expired c + 1) (rejected c) (unreadable c) (dropped_range c).
Definition count_rejected (c : QueueCounters) : QueueCounters :=
  mkCounters (dropped_for_space c) (expired c) (rejected c + 1) (unreadable c) (dropped_range c).
Definition count_unreadable (c : QueueCounters) : QueueCounters :=
  mkCounters (dropped_for_space c) (expired c) (rejected c) (unreadable c + 1) (dropped_range c).

Record QueueHealth := mkHealth {
  h_entries : Z;
  h_bytes : Z;
  oldest_queued_at : option Z;
  h_counters : QueueCounters }.

(** A clock stepped backwards makes an entry look new rather than old. *)
Definition oldest_age (h : QueueHealth) (now : Z) : option Z :=
  since now <$> oldest_queued_at h.

Inductive QueueError :=
| QIo (action : bytes) (kind : io_kind)
| QTooLarge (size limit : Z)
| QNotDirectory.

Record Entry := mkEntry { e_name : bytes; sequence : Z; queued_at : Z; e_bytes : Z }.

#[export] Instance Entry_eq_dec : EqDecision Entry.
Proof. solve_decision. Defined.

Definition age (e : Entry) (now : Z) : Z := since now (queued_at e).

Record Drained := mkDrained {
  delivered : Z;
  d_rejected : Z;
  blocked : option TransportError }.

Record DiskQueue := mkQueue {
  q_kind : QueueKind;
  limits : QueueLimits;
  next_sequence : Z;
  counters : QueueCounters;
  monitor : option QueueHealth;
  disk : world;
  offers : list (bytes * result unit TransportError) }.

Definition set_counters (f : QueueCounters -> QueueCounters) (q : DiskQueue) : DiskQueue :=
  mkQueue (q_kind q) (limits q) (next_sequence q) (f (counters q)) (monitor q) (disk q) (offers q).
Definition set_next_sequence (n : Z) (q : DiskQueue) : DiskQueue :=
  mkQueue (q_kind q) (limits q) n (counters q) (monitor q) (disk q) (offers q).
Definition set_monitor (h : QueueHealth) (q : DiskQueue) : DiskQueue :=
  mkQueue (q_kind q) (limits q) (next_sequence q) (counters q) (Some h) (disk q) (offers q).
Definition set_disk (w : world) (q : DiskQueue) : DiskQueue :=
  mkQueue (q_kind q) (limits q) (next_sequence q) (counters q) (monitor q) w (offers q).
Definition log_offer (b : bytes) (r : result unit TransportError) (q : DiskQueue) : DiskQueue :=
  mkQueue (q_kind q) (limits q) (next_sequence q) (counters q) (monitor q) (disk q)
    (offers q ++ [(b, r)]).

Abbreviation queue_m := (ST DiskQueue QueueError).

(** A file-system call on the queue's directory, its outcome as a value. *)
Definition on_disk {A} (m : fs A) : queue_m (result A io_kind) := fun q =>
  let '(w, r) := m (disk q) in (set_disk w q, Ok r).

(** The same with [.map_err(|e| io_error(action, ..))?]. *)
Definition on_disk_or {A} (action : string) (m : fs A) : queue_m A :=
  let* r := on_disk m in
  match r with
  | Ok a => st_ret a
  | Err k => st_err (QIo (lit action) k)
  end.

(** ** Entry names *)

Section queue.
Context {U : Uuid}.

Definition entry_name (sequence queued_at : Z) (entry_id : uuid) : bytes :=
  let seconds := as_secs (since queued_at 0) in
  show_padded 20 sequence ++ lit "-" ++ show_padded 12 seconds ++ lit "-"
  ++ uuid_show entry_id ++ ENTRY_SUFFIX.

Definition parse_entry_name (name : bytes) : option (Z * Z) :=
  let+ stem := strip_suffix ENTRY_SUFFIX name in
  let+ (sequence, rest) := split_once 45 stem in
  let+ (seconds, entry_id) := split_once 45 rest in
  if negb (Nat.eqb (length sequence) 20) || negb (Nat.eqb (length seconds) 12)
     || match uuid_parse entry_id with Some _ => false | None => true end
  then None
  else
    let+ seconds := parse_uint U64_MAX seconds in
    let+ sequence := parse_uint U64_MAX sequence in
    Some (sequence, from_secs seconds).

(** ** Listing *)

(** [(left.sequence, &left.path).cmp(..)]; paths in one directory compare by
    their names' bytes. *)
Definition entry_leb (a b : Entry) : bool :=
  (sequence a <? sequence b)
  || ((sequence a =? sequence b) && bytes_leb (e_name a) (e_name b)).

Definition entry_le (a b : Entry) : Prop := entry_leb a b = true.

#[export] Instance entry_le_dec : RelDecision entry_le.
Proof. intros a b. unfold entry_le. apply bool_eq_dec. Defined.

Definition sort_entries (l : list Entry) : list Entry := merge_sort entry_le l.

(** The loop of [entries]: names the queue did not write, and entries that
    are not regular files or cannot be inspected, are skipped. *)
Fixpoint collect (names : list bytes) : queue_m (list Entry) :=
  match names with
  | [] => st_ret []
  | name :: names' =>
      match (let+ text := from_utf8 name in parse_entry_name text) with
      | None => collect names'
      | Some (sequence, queued_at) =>
          let* metadata := on_disk (symlink_metadata name) in
          match metadata with
          | Ok (mkFile Regular c _) =>
              let* rest := collect names' in
              st_ret (mkEntry name sequence queued_at (zlength c) :: rest)
          | _ => collect names'
          end
      end
  end.

Definition entries : queue_m (list Entry) :=
  let* names := on_disk_or "list queue" read_dir in
  let* found := collect names in
  st_ret (sort_entries found).

Definition health : queue_m QueueHealth :=
  let* es := entries in
  let* q := st_get in
  st_ret (mkHealth (zlength es) (zsum (map e_bytes es)) (queued_at <$> head es) (counters q)).

(** A health read that fails leaves the previous snapshot in place. *)
Definition publish_health : queue_m unit :=
  let* h := st_catch health in
  match h with
  | Ok h => st_modify (set_monitor h)
  | Err _ => st_ret tt
  end.

(** ** Removing *)

(** [remove]: whether this process unlinked the entry. *)
Definition remove (name : bytes) : queue_m bool :=
  let* r := on_disk (remove_file name) in
  match r with
  | Ok _ => st_ret true
  | Err NotFound => st_ret false
  | Err k => st_err (QIo (lit "remove queued entry") k)
  end.

Fixpoint expire_loop (es : list Entry) : queue_m unit :=
  match es with
  | [] => st_ret tt
  | e :: es' =>
      let* removed := remove (e_name e) in
      let* _ := if (removed : bool)
        then st_modify (set_counters (fun c => note_dropped (count_expired c) (queued_at e)))
        else st_ret tt in
      let* _ := publish_health in
      expire_loop es'
  end.

Definition expire (es : list Entry) (now : Z) : queue_m (list Entry) :=
  let* q := st_get in
  let too_old e := max_age (limits q) <? age e now in
  let* _ := expire_loop (List.filter too_old es) in
  st_ret (List.filter (fun e => negb (too_old e)) es).

(** ** Writing *)

Definition write_atomically (tmp : uuid) (now : Z) (name body : bytes) : queue_m unit :=
  let temporary := TEMPORARY_PREFIX ++ uuid_show tmp in
  let* r := st_catch (
    let* _ := on_disk_or "create queued entry" (create_new now temporary) in
    let* _ := on_disk_or "write queued entry" (write_and_sync now temporary body) in
    let* _ := on_disk_or "persist queued entry" (rename temporary name) in
    on_disk_or "sync queue directory" sync_dir) in
  match r with
  | Ok _ => st_ret tt
  | Err e =>
      let* _ := on_disk (remove_file temporary) in
      st_err e
  end.

(** The loop of [enqueue] that drops the oldest entries until the new one
    fits. *)
Fixpoint make_room (es : list Entry) (remaining bytes size : Z) : queue_m unit :=
  match es with
  | [] => st_ret tt
  | oldest :: es' =>
      let* q := st_get in
      if (remaining <? max_entries (limits q)) && (bytes + size <=? max_bytes (limits q))
      then st_ret tt
      else
        let* removed := remove (e_name oldest) in
        let* _ := if (removed : bool)
          then st_modify (set_counters (fun c => note_dropped (count_space c) (queued_at oldest)))
          else st_ret tt in
        let* _ := publish_health in
        make_room es' (remaining - 1) (bytes - e_bytes oldest) size
  end.

Definition enqueue (tmp entry_id : uuid) (body : bytes) (now : Z) : queue_m unit :=
  let size := zlength body in
  let* q := st_get in
  if max_bytes (limits q) <? size
  then st_err (QTooLarge size (max_bytes (limits q)))
  else
    let* listed := entries in
    let* es := expire listed now in
    let* q := st_get in
    let sequence := Z.max (next_sequence q)
      (match last_opt es with Some e => wrap 64 (sequence e + 1) | None => 0 end) in
    let* _ := make_room es (zlength es) (zsum (map e_bytes es)) size in
    let name := entry_name sequence now entry_id in
    let* written := st_catch (write_atomically tmp now name body) in
    let* _ := if is_ok written then st_modify (set_next_sequence (wrap 64 (sequence + 1))) else st_ret tt in
    let* _ := publish_health in
    st_of_result written.

(** ** Delivering *)

(** [cancelled] and [deliver] are asked afresh in each round, so they are
    functions of how many rounds and offers came before. *)
Fixpoint drain_loop (cancelled : nat -> bool) (deliver : nat -> bytes -> result unit TransportError)
    (limit : Z) (round : nat) (offered : Z) (drained : Drained) (es : list Entry)
  : queue_m Drained :=
  match es with
  | [] => st_ret drained
  | e :: es' =>
      if cancelled round || (limit <=? offered) then st_ret drained
      else
        let* body := on_disk (read_file (e_name e)) in
        match body with
        | Err NotFound =>
            let* _ := publish_health in
            drain_loop cancelled deliver limit (S round) offered drained es'
        | Err _ =>
            let* removed := remove (e_name e) in
            let* _ := if (removed : bool)
              then st_modify (set_counters count_unreadable) else st_ret tt in
            let* _ := publish_health in
            drain_loop cancelled deliver limit (S round) offered drained es'
        | Ok body =>
            let outcome := deliver (Z.to_nat offered) body in
            let* _ := st_modify (log_offer body outcome) in
            match outcome with
            | Ok _ =>
                let* _ := remove (e_name e) in
                let* _ := publish_health in
                drain_loop cancelled deliver limit (S round) (offered + 1)
                  (mkDrained (delivered drained + 1) (d_rejected drained) (blocked drained)) es'
            | Err error =>
                if bool_decide (failure error = PayloadRejected) then
                  let* removed := remove (e_name e) in
                  let* _ := if (removed : bool)
                    then st_modify (set_counters count_rejected) else st_ret tt in
                  let* _ := publish_health in
                  drain_loop cancelled deliver limit (S round) (offered + 1)
                    (mkDrained (delivered drained)
                       (if removed then d_rejected drained + 1 else d_rejected drained)
                       (blocked drained)) es'
                else
                  st_ret (mkDrained (delivered drained) (d_rejected drained) (Some error))
            end
        end
  end.

Definition drain_at_most (now limit : Z) (cancelled : nat -> bool)
    (deliver : nat -> bytes -> result unit TransportError) : queue_m Drained :=
  let* listed := entries in
  let* es := expire listed now in
  let* drained := drain_loop cancelled deliver limit 0 0 (mkDrained 0 0 None) es in
  let* _ := publish_health in
  st_ret drained.

Definition drain (now : Z) (cancelled : nat -> bool)
    (deliver : nat -> bytes -> result unit TransportError) : queue_m Drained :=
  drain_at_most now USIZE_MAX cancelled deliver.

(** ** Opening *)

Fixpoint remove_abandoned (now : Z) (names : list bytes) : queue_m unit :=
  match names with
  | [] => st_ret tt
  | name :: names' =>
      if utf8_valid name && starts_with TEMPORARY_PREFIX name then
        let* metadata := on_disk (symlink_metadata name) in
        match metadata with
        | Ok f =>
            if ABANDONED_TEMPORARY_AGE <? since now (modified f) then
              let* _ := remove name in remove_abandoned now names'
            else remove_abandoned now names'
        | Err _ => remove_abandoned now names'
        end
      else remove_abandoned now names'
  end.

Definition remove_abandoned_temporaries (now : Z) : queue_m unit :=
  let* names := on_disk_or "list queue" read_dir in
  remove_abandoned now names.

(** A step of [open] on the directory itself, which may fail. *)
Definition directory_call (action : string) : queue_m unit :=
  on_disk_or action (fs_call (fun w => (w, Ok tt))).

(** [is_directory]: what [symlink_metadata] says of the queue's path. *)
Definition open (kind : QueueKind) (limits : QueueLimits) (is_directory : bool) (now : Z) (w : world)
  : DiskQueue * result unit QueueError :=
  (let* _ := directory_call "create queue" in
   let* _ := directory_call "inspect queue" in
   if negb is_directory then st_err QNotDirectory
   else
     let* _ := directory_call "protect queue directory" in
     let* _ := directory_call "sync queue directory" in
     let* _ := remove_abandoned_temporaries now in
     let* es := entries in
     let* _ := st_modify (set_next_sequence
       (match last_opt es with Some e => wrap 64 (sequence e + 1) | None => 0 end)) in
     publish_health) (mkQueue kind limits 0 no_counters None w []).
End queue.

(** ** Names: round trip and order *)

Section names.
Context {U : Uuid}.

Lemma entry_name_shape sequence queued_at entry_id :
  0 <= sequence <= U64_MAX -> as_secs (since queued_at 0) < 10 ^ 12 ->
  entry_name sequence queued_at entry_id =
  digits 20 sequence ++ 45 :: digits 12 (as_secs (since queued_at 0)) ++ 45 ::
    uuid_show entry_id ++ ENTRY_SUFFIX.
Proof.
  intros Hs Ht. unfold entry_name.
  assert (0 <= as_secs (since queued_at 0)).
  { unfold as_secs, since. apply Z.div_pos; [lia|done]. }
  rewrite (show_padded_digits 20), (show_padded_digits 12); try lia; [done|].
  unfold U64_MAX in Hs. change (Z.of_nat 20) with 20. lia.
Qed.

Lemma parse_entry_name_digits s t entry_id :
  0 <= s <= U64_MAX -> 0 <= t < 10 ^ 12 ->
  parse_entry_name (digits 20 s ++ 45 :: digits 12 t ++ 45 :: uuid_show entry_id ++ ENTRY_SUFFIX)
  = Some (s, from_secs t).
Proof.
  intros Hs Ht. unfold parse_entry_name.
  replace (digits 20 s ++ 45 :: digits 12 t ++ 45 :: uuid_show entry_id ++ ENTRY_SUFFIX)
    with ((digits 20 s ++ 45 :: digits 12 t ++ 45 :: uuid_show entry_id) ++ ENTRY_SUFFIX)
    by (rewrite <- app_assoc; cbn [app]; rewrite <- app_assoc; done).
  rewrite strip_suffix_app. cbn [mbind option_bind].
  rewrite split_once_app by (by apply digits_not_elem). cbn [mbind option_bind].
  rewrite split_once_app by (by apply digits_not_elem). cbn [mbind option_bind].
  rewrite !length_digits, uuid_parse_show. cbn [Nat.eqb negb orb].
  rewrite !parse_uint_digits by (unfold U64_MAX in *; lia). done.
Qed.

Lemma entry_name_not_temporary sequence queued_at entry_id t :
  0 <= sequence <= U64_MAX -> as_secs (since queued_at 0) < 10 ^ 12 ->
  entry_name sequence queued_at entry_id <> TEMPORARY_PREFIX ++ t.
Proof.
  intros Hs Ht. rewrite entry_name_shape by done.
  pose proof (digits_ascii 20 sequence) as Hd. pose proof (length_digits 20 sequence) as Hl.
  destruct (digits 20 sequence) as [|b l]; [done|]. inversion Hd as [|? ? Hb _]; subst.
  intros [= ->]. done.
Qed.

Lemma bytes_leb_app p q r s :
  length p = length q ->
  bytes_leb (p ++ r) (q ++ s) =
  (bytes_leb p q && negb (bool_decide (p = q))) || (bool_decide (p = q) && bytes_leb r s).
Proof.
  revert q; induction p as [|x p IH]; intros [|y q] Hl; try done.
  simpl in Hl. injection Hl as Hl. cbn [app bytes_leb]. rewrite (IH q Hl).
  destruct (Z.ltb_spec x y) as [Hxy|Hxy]; cbn [orb].
  { rewrite (bool_decide_eq_false_2 (x :: p = y :: q)) by (intros [= -> _]; lia). done. }
  destruct (Z.eqb_spec x y) as [->|Hne]; cbn [andb orb].
  - destruct (decide (p = q)) as [->|Hpq].
    + rewrite !bool_decide_eq_true_2 by done. done.
    + rewrite !bool_decide_eq_false_2 by congruence. done.
  - rewrite (bool_decide_eq_false_2 (x :: p = y :: q)) by congruence. done.
Qed.

Lemma digits_inj n a b :
  0 <= a < 10 ^ Z.of_nat n -> 0 <= b < 10 ^ Z.of_nat n -> digits n a = digits n b -> a = b.
Proof.
  intros Ha Hb E. enough (Some a = Some b) by congruence.
  rewrite <- (parse_digits_digits (10 ^ Z.of_nat n) n a), <- (parse_digits_digits (10 ^ Z.of_nat n) n b)
    by lia.
  by rewrite E.
Qed.

(** Zero-padded numbers of one width compare as their values. *)
Lemma bytes_leb_digits n : forall a b,
  0 <= a < 10 ^ Z.of_nat n -> 0 <= b < 10 ^ Z.of_nat n ->
  bytes_leb (digits n a) (digits n b) = (a <=? b).
Proof.
  induction n as [|n IH]; intros a b Ha Hb.
  - simpl in *. assert (a = 0) as -> by lia. assert (b = 0) as -> by lia. done.
  - rewrite Nat2Z.inj_succ, Z.pow_succ_r in Ha, Hb by lia.
    pose proof (Z.div_mod a 10 ltac:(lia)). pose proof (Z.div_mod b 10 ltac:(lia)).
    pose proof (Z.mod_pos_bound a 10 ltac:(lia)). pose proof (Z.mod_pos_bound b 10 ltac:(lia)).
    assert (0 <= a / 10 < 10 ^ Z.of_nat n) by (split; [apply Z.div_pos; lia|apply Z.div_lt_upper_bound; lia]).
    assert (0 <= b / 10 < 10 ^ Z.of_nat n) by (split; [apply Z.div_pos; lia|apply Z.div_lt_upper_bound; lia]).
    rewrite !digits_S, bytes_leb_app by (by rewrite !length_digits).
    rewrite IH by done.
    destruct (bool_decide (digits n (a / 10) = digits n (b / 10))) eqn:E; bool_simpl.
    + apply digits_inj in E; [|done..]. rewrite andb_false_r. cbn [orb andb bytes_leb].
      apply eq_true_iff_eq. rewrite orb_true_iff, andb_true_iff, !Z.ltb_lt, Z.leb_le, Z.eqb_eq. lia.
    + assert (a / 10 <> b / 10) by congruence. rewrite andb_true_r, orb_false_r.
      apply eq_true_iff_eq. rewrite !Z.leb_le. lia.
Qed.
End names.

(** ** Frames: which files a computation may change *)

(** A name the queue gave a file: an entry's or a temporary's. *)
Definition own_name {U : Uuid} (n : bytes) : Prop :=
  is_Some (parse_entry_name n) \/ starts_with TEMPORARY_PREFIX n = true.

Section frames.
Context {U : Uuid}.

Definition next_ok (q : DiskQueue) : Prop := 0 <= next_sequence q <= U64_MAX.

Definition framed {A} (Q : A -> Prop) (m : queue_m A) : Prop := forall q q' r,
  next_ok q -> m q = (q', r) ->
  touches own_name (disk q) (disk q') /\ q_kind q' = q_kind q /\ limits q' = limits q /\
  next_ok q' /\ match r with Ok a => Q a | Err _ => True end.

Lemma framed_ret {A} (Q : A -> Prop) a : Q a -> framed Q (st_ret a).
Proof. intros HQ q q' r Hn [= <- <-]. auto with agent. Qed.

Lemma framed_err {A} (Q : A -> Prop) e : framed Q (st_err e).
Proof. intros q q' r Hn [= <- <-]. auto with agent. Qed.

Lemma framed_bind {A B} (P : A -> Prop) (Q : B -> Prop) m k :
  framed P m -> (forall a, P a -> framed Q (k a)) -> framed Q (st_bind m k).
Proof.
  intros Hm Hk q q2 r Hn. unfold st_bind. destruct (m q) as [q1 [a|e]] eqn:E.
  - intros Hr. destruct (Hm _ _ _ Hn E) as (H1 & H2 & H3 & H4 & Ha).
    destruct (Hk a Ha _ _ _ H4 Hr) as (K1 & K2 & K3 & K4 & K5).
    split; [by eapply touches_trans|]. split; [congruence|]. split; [congruence|done].
  - intros [= <- <-]. destruct (Hm _ _ _ Hn E) as (H1 & H2 & H3 & H4 & _). auto.
Qed.

Lemma framed_seq {A B} (Q : B -> Prop) (m : queue_m A) (k : A -> queue_m B) :
  framed (fun _ => True) m -> (forall a, framed Q (k a)) -> framed Q (st_bind m k).
Proof. intros Hm Hk. eapply framed_bind; [exact Hm|]. auto. Qed.

Lemma framed_get : framed next_ok (st_get (E := QueueError)).
Proof. intros q q' r Hn [= <- <-]. auto with agent. Qed.

Lemma framed_modify f :
  (forall q, disk (f q) = disk q /\ q_kind (f q) = q_kind q /\ limits (f q) = limits q) ->
  (forall q, next_ok q -> next_ok (f q)) ->
  framed (fun _ => True) (st_modify (E := QueueError) f).
Proof.
  intros Hf Hs q q' r Hn [= <- <-]. specialize (Hs q Hn). destruct (Hf q) as (-> & -> & ->).
  auto with agent.
Qed.

Lemma framed_catch {A} (m : queue_m A) :
  framed (fun _ => True) m -> framed (fun _ => True) (st_catch m).
Proof.
  intros Hm q q' r Hn. unfold st_catch. destruct (m q) as [q1 r1] eqn:E. intros [= <- <-].
  destruct (Hm _ _ _ Hn E) as (? & ? & ? & ? & _). auto.
Qed.

Lemma framed_result {A} (r : result A QueueError) : framed (fun _ => True) (st_of_result r).
Proof. intros q q' r' Hn [= <- <-]. repeat split; auto with agent; [apply Hn..|by destruct r]. Qed.

Lemma framed_on_disk {A} (m : fs A) :
  (forall w w' r, m w = (w', r) -> touches own_name w w') ->
  framed (fun _ => True) (on_disk m).
Proof.
  intros Hm q q' r Hn. unfold on_disk. destruct (m (disk q)) as [w r1] eqn:E. intros [= <- <-].
  simpl. split; [by eapply Hm|]. auto.
Qed.

Lemma framed_on_disk_or {A} action (m : fs A) :
  (forall w w' r, m w = (w', r) -> touches own_name w w') ->
  framed (fun _ => True) (on_disk_or action m).
Proof.
  intros Hm. eapply framed_seq; [by apply framed_on_disk|]. intros [a|k]; [by apply framed_ret|apply framed_err].
Qed.

Lemma framed_remove name : own_name name -> framed (fun _ => True) (remove name).
Proof.
  intros Hn. eapply framed_seq.
  - apply framed_on_disk. intros w w' r E. apply remove_file_touches in E.
    eapply touches_mono; [|exact E]. by intros ? ->.
  - intros [a|[]]; (by apply framed_ret) || apply framed_err.
Qed.

Definition own_entries (es : list Entry) : Prop := Forall (fun e => own_name (e_name e)) es.

Lemma framed_collect names : framed own_entries (collect names).
Proof.
  induction names as [|n ns IH]; cbn [collect]; [apply framed_ret; constructor|].
  destruct (_ ≫= _) as [[s t]|] eqn:Hp; [|exact IH].
  eapply framed_seq.
  { apply framed_on_disk. intros w w' r. by apply fs_call_read. }
  intros [[[] c m]|k]; [|exact IH..].
  eapply framed_bind; [exact IH|]. intros es Hes. apply framed_ret. constructor; [|done].
  simpl. left. unfold from_utf8 in Hp. destruct (utf8_valid n); [|done]. simpl in Hp. eauto.
Qed.

Lemma framed_entries : framed own_entries entries.
Proof.
  eapply framed_seq.
  { apply framed_on_disk_or. intros w w' r. by apply fs_call_read. }
  intros names. eapply framed_bind; [apply framed_collect|]. intros es Hes. apply framed_ret.
  unfold own_entries, sort_entries. by rewrite merge_sort_Permutation.
Qed.

Lemma framed_publish_health : framed (fun _ => True) publish_health.
Proof.
  eapply framed_seq.
  - apply framed_catch. eapply framed_bind; [apply framed_entries|]. intros es _.
    eapply framed_bind; [apply framed_get|]. intros q _. by apply framed_ret.
  - intros [h|e]; [by apply framed_modify|by apply framed_ret].
Qed.

Lemma framed_if_count (b : bool) f :
  framed (fun _ => True) (if b then st_modify (set_counters f) else st_ret tt).
Proof. destruct b; [by apply framed_modify|by apply framed_ret]. Qed.

(** Removing an entry, counting it, and publishing. *)
Lemma framed_drop {A} (Q : A -> Prop) name f (k : bool -> queue_m A) :
  own_name name -> (forall b, framed Q (k b)) ->
  framed Q (let* removed := remove name in
            let* _ := if (removed : bool) then st_modify (set_counters f) else st_ret tt in
            let* _ := publish_health in k removed).
Proof.
  intros Hn Hk. eapply framed_seq; [by apply framed_remove|]. intros b.
  eapply framed_seq; [apply framed_if_count|]. intros _.
  eapply framed_seq; [apply framed_publish_health|]. auto.
Qed.

Lemma framed_expire es now : own_entries es -> framed own_entries (expire es now).
Proof.
  intros Hes. eapply framed_bind; [apply framed_get|]. intros q _.
  assert (forall f, own_entries (List.filter f es)) as Hf.
  { intros f. unfold own_entries in *. rewrite List.Forall_forall in *.
    intros e [He _]%filter_In. auto. }
  eapply framed_seq; [|intros _; apply framed_ret, Hf].
  specialize (Hf (fun e => max_age (limits q) <? age e now)).
  induction (List.filter _ es) as [|e l IH]; cbn [expire_loop]; [by apply framed_ret|].
  inversion Hf; subst. apply (framed_drop _ _ (fun c => note_dropped (count_expired c) (queued_at e)));
    [done|]. auto.
Qed.

Lemma framed_make_room es : forall remaining bytes size,
  own_entries es -> framed (fun _ => True) (make_room es remaining bytes size).
Proof.
  induction es as [|e es IH]; intros remaining bytes size Hes; cbn [make_room]; [by apply framed_ret|].
  inversion Hes; subst. eapply framed_bind; [apply framed_get|]. intros q _.
  destruct (_ && _); [by apply framed_ret|].
  apply (framed_drop _ _ (fun c => note_dropped (count_space c) (queued_at e))); auto.
Qed.

Lemma temporary_own tmp : own_name (TEMPORARY_PREFIX ++ uuid_show tmp).
Proof. right. apply starts_with_spec. eauto. Qed.

(** A call that changes the files of one or two own names. *)
Lemma fs_call_touches {A} (f : world -> world * result A io_kind) w w' r :
  (forall w, touches own_name w (fst (f w))) -> fs_call f w = (w', r) -> touches own_name w w'.
Proof.
  intros Hf. unfold fs_call. pose proof (next_event_touches own_name w) as Ht.
  destruct (next_event w) as [w1 [n|]]; simpl in Ht; [by intros [= <- <-]|].
  intros E. specialize (Hf w1). rewrite E in Hf. by eapply touches_trans.
Qed.

Lemma framed_write_atomically tmp now name body :
  own_name name -> framed (fun _ => True) (write_atomically tmp now name body).
Proof.
  intros Hn. pose proof (temporary_own tmp) as Ht. unfold write_atomically.
  eapply framed_seq.
  - apply framed_catch.
    eapply framed_seq; [|intros _; eapply framed_seq; [|intros _; eapply framed_seq; [|intros _]]];
      apply framed_on_disk_or.
    + intros w w' r E. unfold create_new in E. eapply fs_call_touches; [|exact E]. intros w0.
      cbn beta. case_match; [apply touches_refl|]. intros n Hnn. left. simpl.
      apply lookup_insert_ne. naive_solver.
    + intros w w' r. unfold write_and_sync.
      pose proof (next_event_touches own_name w) as Hev.
      assert (forall w0 c, touches own_name w0 (with_files w0 (fun m =>
        match m !! (TEMPORARY_PREFIX ++ uuid_show tmp) with
        | Some _ => insert (TEMPORARY_PREFIX ++ uuid_show tmp) (mkFile Regular c now) m
        | None => m end))) as Hput.
      { intros w0 c n Hnn. left. simpl. case_match; [|done].
        apply lookup_insert_ne. naive_solver. }
      destruct (next_event w) as [w1 [k|]]; simpl in Hev; intros [= <- <-];
        [destruct (crashed w1); [done|]|]; eapply touches_trans; eauto.
    + intros w w' r E. eapply fs_call_touches; [|exact E]. intros w0.
      cbn beta. repeat case_match; try apply touches_refl; intros n Hnn; left; simpl;
        (rewrite lookup_insert_ne, lookup_delete_ne by naive_solver); done.
    + intros w w' r. by apply fs_call_read.
  - intros [u|e]; [by apply framed_ret|]. eapply framed_seq; [|intros; apply framed_err].
    apply framed_on_disk. intros w w' r E. apply remove_file_touches in E.
    eapply touches_mono; [|exact E]. by intros ? ->.
Qed.

Lemma framed_drain_loop cancelled deliver limit es : forall round offered drained,
  own_entries es ->
  framed (fun _ => True) (drain_loop cancelled deliver limit round offered drained es).
Proof.
  induction es as [|e es IH]; intros round offered drained Hes; cbn [drain_loop]; [by apply framed_ret|].
  inversion Hes; subst. destruct (_ || _); [by apply framed_ret|].
  eapply framed_seq. { apply framed_on_disk. intros w w' r. by apply fs_call_read. }
  intros [body|k].
  - eapply framed_seq; [by apply framed_modify|]. intros _.
    destruct (deliver _ body) as [u|error].
    + eapply framed_seq; [by apply framed_remove|]. intros _.
      eapply framed_seq; [apply framed_publish_health|]. auto.
    + destruct (bool_decide _); [|by apply framed_ret]. apply framed_drop; auto.
  - destruct k; [|apply framed_drop; auto..].
    eapply framed_seq; [apply framed_publish_health|]. auto.
Qed.

Lemma framed_enqueue tmp entry_id body now :
  as_secs (since now 0) < 10 ^ 12 -> framed (fun _ => True) (enqueue tmp entry_id body now).
Proof.
  intros Hnow. unfold enqueue. eapply framed_bind; [apply framed_get|]. intros q _.
  destruct (_ <? _); [apply framed_err|].
  eapply framed_bind; [apply framed_entries|]. intros l Hl.
  eapply framed_bind; [by apply framed_expire|]. intros es Hes.
  eapply framed_bind; [apply framed_get|]. intros q1 Hq1.
  set (s := Z.max _ _).
  assert (0 <= s <= U64_MAX) as Hs.
  { unfold s. destruct (last_opt es) as [e|]; unfold next_ok in Hq1; [|lia].
    unfold wrap. pose proof (Z.mod_pos_bound (sequence e + 1) (2 ^ 64) ltac:(lia)).
    unfold U64_MAX in *. lia. }
  eapply framed_seq; [by apply framed_make_room|]. intros _.
  eapply framed_seq.
  { apply framed_catch, framed_write_atomically. left.
    rewrite entry_name_shape by done. rewrite parse_entry_name_digits; [by eexists|done|].
    split; [|done]. unfold as_secs, since. apply Z.div_pos; [lia|done]. }
  intros written. eapply framed_seq.
  { destruct (is_ok written); [|by apply framed_ret]. apply framed_modify; [done|].
    intros q2 _. unfold next_ok. simpl. unfold wrap, U64_MAX.
    pose proof (Z.mod_pos_bound (s + 1) (2 ^ 64) ltac:(lia)). lia. }
  intros _. eapply framed_seq; [apply framed_publish_health|]. intros _. apply framed_result.
Qed.

Lemma framed_drain now limit cancelled deliver :
  framed (fun _ => True) (drain_at_most now limit cancelled deliver).
Proof.
  eapply framed_bind; [apply framed_entries|]. intros l Hl.
  eapply framed_bind; [by apply framed_expire|]. intros es Hes.
  eapply framed_seq; [by apply framed_drain_loop|]. intros d.
  eapply framed_seq; [apply framed_publish_health|]. intros _. by apply framed_ret.
Qed.

Lemma framed_remove_abandoned now names : framed (fun _ => True) (remove_abandoned now names).
Proof.
  induction names as [|n names IH]; cbn [remove_abandoned]; [by apply framed_ret|].
  destruct (_ && _) eqn:Hp; [|done]. bool_simpl.
  eapply framed_seq. { apply framed_on_disk. intros w w' r. by apply fs_call_read. }
  intros [f|k]; [|done]. destruct (_ <? _); [|done].
  eapply framed_seq; [|done]. apply framed_remove. by right.
Qed.

Lemma framed_directory_call action : framed (fun _ => True) (directory_call action).
Proof. apply framed_on_disk_or. intros w w' r. by apply fs_call_read. Qed.

Lemma open_framed kind lim is_directory now w :
  touches own_name w (disk (fst (open kind lim is_directory now w))).
Proof.
  unfold open. match goal with |- context [fst (?m ?q0)] => assert (framed (fun _ => True) m) as Hf end.
  { eapply framed_seq; [apply framed_directory_call|]. intros _.
    eapply framed_seq; [apply framed_directory_call|]. intros _.
    destruct (negb _); [apply framed_err|].
    eapply framed_seq; [apply framed_directory_call|]. intros _.
    eapply framed_seq; [apply framed_directory_call|]. intros _.
    eapply framed_seq.
    { eapply framed_seq; [apply framed_on_disk_or; intros ???; by apply fs_call_read|].
      intros names. apply framed_remove_abandoned. }
    intros _. eapply framed_bind; [apply framed_entries|]. intros es _.
    eapply framed_seq; [|intros _; apply framed_publish_health].
    apply framed_modify; [done|]. intros q _. unfold next_ok. simpl.
    destruct (last_opt es) as [e|]; [|unfold U64_MAX; lia]. unfold wrap, U64_MAX.
    pose proof (Z.mod_pos_bound (sequence e + 1) (2 ^ 64) ltac:(lia)). lia. }
  match goal with |- context [fst (?m ?q0)] => destruct (m q0) as [q1 r] eqn:E end.
  apply Hf in E; [by destruct E|]. unfold next_ok, U64_MAX. cbn [next_sequence]. lia.
Qed.
End frames.
