(* ===== verification/QueueSpec.v ===== *)
(** * QueueSpec: what the on-disk queue promises

    The abstract queue is a list of entries with their bodies, oldest first.
    [entries_of] reads it off a directory.  On a machine where every call
    succeeds, [enqueue] drops expired entries, then the oldest until the new
    one fits, and appends it; [drain_at_most] offers bodies in order and
    removes a prefix.  What holds whatever the machine does (failing calls,
    crashes, another process removing files) is proved over all events. *)

From Stdlib Require Import String.
From stdpp Require Import sorting.
From S2P Require Import Prelude Text Fs Interfaces Transport Queue.

(** ** The order of entries *)

Lemma bytes_leb_refl a : bytes_leb a a = true.
Proof. induction a as [|x a IH]; simpl; [done|]. rewrite Z.eqb_refl, IH, orb_true_r. done. Qed.

Lemma bytes_leb_cons x y a b :
  bytes_leb (x :: a) (y :: b) = true <-> x < y \/ (x = y /\ bytes_leb a b = true).
Proof. simpl. rewrite orb_true_iff, andb_true_iff, Z.ltb_lt, Z.eqb_eq. done. Qed.

Lemma bytes_leb_trans a : forall b c,
  bytes_leb a b = true -> bytes_leb b c = true -> bytes_leb a c = true.
Proof.
  induction a as [|x a IH]; intros [|y b] [|z c]; try done.
  rewrite !bytes_leb_cons. intros [?|[-> ?]] [?|[-> ?]]; [left; lia..|eauto].
Qed.

Lemma bytes_leb_total a : forall b, bytes_leb a b = true \/ bytes_leb b a = true.
Proof.
  induction a as [|x a IH]; intros [|y b]; auto.
  rewrite !bytes_leb_cons. destruct (IH b); destruct (Z.lt_total x y) as [?|[->|?]]; auto.
Qed.

Lemma bytes_leb_antisym a : forall b,
  bytes_leb a b = true -> bytes_leb b a = true -> a = b.
Proof.
  induction a as [|x a IH]; intros [|y b]; try done.
  rewrite !bytes_leb_cons. intros [?|[-> ?]] [?|[? ?]]; try lia. f_equal. auto.
Qed.

Lemma entry_le_spec a b :
  entry_le a b <->
  sequence a < sequence b \/ (sequence a = sequence b /\ bytes_leb (e_name a) (e_name b) = true).
Proof. unfold entry_le, entry_leb. rewrite orb_true_iff, andb_true_iff, Z.ltb_lt, Z.eqb_eq. done. Qed.

#[export] Instance entry_le_trans : Transitive entry_le.
Proof.
  intros a b c. rewrite !entry_le_spec. intros [?|[-> ?]] [?|[? ?]]; try (left; lia).
  right. split; [done|]. eauto using bytes_leb_trans.
Qed.

#[export] Instance entry_le_total : Total entry_le.
Proof.
  intros a b. rewrite !entry_le_spec. pose proof (bytes_leb_total (e_name a) (e_name b)).
  destruct (Z.lt_total (sequence a) (sequence b)) as [?|[->|?]]; intuition.
Qed.

(** ** The abstract queue of a directory *)

Section spec.
Context {U : Uuid}.

Definition entry_of (nf : bytes * file) : option Entry :=
  let+ (seq, at_) := (let+ text := from_utf8 (fst nf) in parse_entry_name text) in
  match snd nf with
  | mkFile Regular c _ => Some (mkEntry (fst nf) seq at_ (zlength c))
  | _ => None
  end.

Definition listed (m : gmap bytes file) : list Entry := omap entry_of (map_to_list m).
Definition entries_of (m : gmap bytes file) : list Entry := sort_entries (listed m).

(** The body an entry's file holds. *)
Definition body_of (m : gmap bytes file) (e : Entry) : bytes :=
  match m !! e_name e with Some f => contents f | None => [] end.

Abbreviation view q := (entries_of (files (disk q))).

Definition health_of (q : DiskQueue) : QueueHealth :=
  mkHealth (zlength (view q)) (zsum (map e_bytes (view q))) (queued_at <$> head (view q)) (counters q).
Definition published (q : DiskQueue) : DiskQueue := set_monitor (health_of q) q.

Lemma entry_of_Some n f e :
  entry_of (n, f) = Some e ->
  e_name e = n /\ file_kind f = Regular /\ e_bytes e = zlength (contents f) /\
  utf8_valid n = true /\ parse_entry_name n = Some (sequence e, queued_at e).
Proof.
  unfold entry_of, from_utf8. cbn [fst snd]. destruct (utf8_valid n) eqn:Hu; [|done].
  cbn [mbind option_bind]. destruct (parse_entry_name n) as [[s t]|] eqn:Hp; [|done].
  destruct f as [[] c mt]; try done. intros [= <-]. done.
Qed.

Lemma elem_of_listed e m :
  e ∈ listed m <-> exists f, m !! e_name e = Some f /\ entry_of (e_name e, f) = Some e.
Proof.
  unfold listed. rewrite list_elem_of_omap. split.
  - intros ([n f] & Hin & He). apply elem_of_map_to_list in Hin.
    pose proof (entry_of_Some _ _ _ He) as (<- & _). eauto.
  - intros (f & Hf & He). exists (e_name e, f). by rewrite elem_of_map_to_list.
Qed.

Lemma entries_of_listed m : entries_of m ≡ₚ listed m.
Proof. apply merge_sort_Permutation. Qed.

Lemma elem_of_entries_of e m :
  e ∈ entries_of m <-> exists f, m !! e_name e = Some f /\ entry_of (e_name e, f) = Some e.
Proof. by rewrite entries_of_listed, elem_of_listed. Qed.

Lemma entries_of_sorted m : StronglySorted entry_le (entries_of m).
Proof. apply (StronglySorted_merge_sort entry_le). Qed.

(** The listing of a directory is the only sorted list of its entries. *)
Lemma entries_of_unique m l :
  StronglySorted entry_le l -> entries_of m ≡ₚ l -> entries_of m = l.
Proof.
  intros Hs Hp. apply (StronglySorted_unique_strong entry_le); [|apply entries_of_sorted|done|done].
  intros a b Ha Hb Hab Hba.
  assert (e_name a = e_name b) as En.
  { apply entry_le_spec in Hab, Hba. destruct Hab as [?|[? ?]], Hba as [?|[? ?]]; try lia.
    by apply bytes_leb_antisym. }
  rewrite <- Hp in Hb. apply elem_of_entries_of in Ha as (f & Hf & Ha), Hb as (g & Hg & Hb).
  rewrite <- En in Hg, Hb. congruence.
Qed.

Lemma entries_of_delete e l m :
  entries_of m ≡ₚ e :: l -> entries_of (delete (e_name e) m) ≡ₚ l.
Proof.
  intros Hp. assert (e ∈ entries_of m) as (f & Hf & He)%elem_of_entries_of by (rewrite Hp; left).
  rewrite entries_of_listed in *. apply (Permutation_cons_inv (a := e)). rewrite <- Hp.
  unfold listed. rewrite <- (map_to_list_delete m (e_name e) f) by done. simpl. by rewrite He.
Qed.

Lemma entries_of_insert e f m :
  m !! e_name e = None -> entry_of (e_name e, f) = Some e ->
  Forall (fun e' => sequence e' < sequence e) (entries_of m) ->
  entries_of (<[e_name e := f]> m) = entries_of m ++ [e].
Proof.
  intros Hm He Hlt. apply entries_of_unique.
  - apply StronglySorted_app_2; [|apply entries_of_sorted|by repeat constructor].
    intros a b Ha ->%list_elem_of_singleton. apply entry_le_spec. left.
    rewrite List.Forall_forall in Hlt. by apply Hlt, list_elem_of_In.
  - rewrite !entries_of_listed. unfold listed. rewrite map_to_list_insert by done. simpl.
    rewrite He. by rewrite Permutation_app_comm.
Qed.

(** ** The calls of the queue on an undisturbed machine *)

Definition calm_queue (q : DiskQueue) : Prop := calm (disk q).

Lemma set_disk_id q : set_disk (disk q) q = q.
Proof. by destruct q. Qed.

Lemma collect_calm q l :
  calm_queue q -> Forall (fun nf => files (disk q) !! fst nf = Some (snd nf)) l ->
  collect (map fst l) q = (q, Ok (omap entry_of l)).
Proof.
  intros Hq. induction 1 as [|[n f] l Hf Hl IH]; [done|]. cbn [fst snd] in Hf.
  cbn [map collect fst]. unfold entry_of at 1. cbn [omap list_omap fst snd].
  destruct (_ ≫= _) as [[s t]|]; [|exact IH]. cbn [mbind option_bind].
  unfold st_bind at 1, on_disk. unfold symlink_metadata. rewrite fs_call_calm by done.
  rewrite Hf, set_disk_id. destruct f as [[] c mt]; try exact IH.
  unfold st_bind. rewrite IH. done.
Qed.

Lemma entries_calm q : calm_queue q -> entries q = (q, Ok (view q)).
Proof.
  intros Hq. unfold entries, on_disk_or, on_disk, read_dir, st_bind.
  rewrite fs_call_calm by done. cbn [st_ret]. rewrite set_disk_id.
  unfold st_ret. rewrite collect_calm; [done..|].
  apply List.Forall_forall. intros [n f] Hin%list_elem_of_In. by apply elem_of_map_to_list.
Qed.

Lemma publish_health_calm q : calm_queue q -> publish_health q = (published q, Ok tt).
Proof.
  intros Hq. unfold publish_health, health, st_catch, st_bind. by rewrite entries_calm.
Qed.

Lemma remove_calm q e :
  calm_queue q -> e ∈ view q ->
  remove (e_name e) q = (set_disk (with_files (disk q) (delete (e_name e))) q, Ok true).
Proof.
  intros Hq (f & Hf & He)%elem_of_entries_of. apply entry_of_Some in He as (_ & Hk & _).
  unfold remove, on_disk, st_bind. by erewrite remove_file_calm by done.
Qed.

(** One entry dropped: unlinked, counted, and the change published. *)
Definition dropped (count : Entry -> QueueCounters -> QueueCounters) (q : DiskQueue) (e : Entry)
  : DiskQueue :=
  published (set_counters (count e) (set_disk (with_files (disk q) (delete (e_name e))) q)).

Lemma drop_calm {A} q e count (k : bool -> queue_m A) :
  calm_queue q -> e ∈ view q ->
  (let* removed := remove (e_name e) in
   let* _ := if (removed : bool) then st_modify (set_counters (count e)) else st_ret tt in
   let* _ := publish_health in k removed) q
  = k true (dropped count q e).
Proof.
  intros Hq He. unfold st_bind. rewrite remove_calm by done. unfold st_modify.
  by rewrite publish_health_calm.
Qed.

Lemma dropped_calm count q e : calm_queue q -> calm_queue (dropped count q e).
Proof. done. Qed.

Lemma dropped_view count q e l : view q ≡ₚ e :: l -> view (dropped count q e) ≡ₚ l.
Proof. apply entries_of_delete. Qed.

Abbreviation drop_all count := (fold_left (dropped count)).

Lemma drop_all_view count ds : forall q l,
  view q ≡ₚ ds ++ l -> StronglySorted entry_le l -> view (drop_all count ds q) = l.
Proof.
  induction ds as [|d ds IH]; intros q l Hp Hs; simpl.
  - by apply entries_of_unique.
  - apply IH; [|done]. by apply dropped_view.
Qed.

Lemma drop_all_calm count ds : forall q, calm_queue q -> calm_queue (drop_all count ds q).
Proof. induction ds as [|d ds IH]; intros q Hq; [done|]. by apply IH. Qed.

Lemma drop_all_files count ds : forall q n,
  n ∉ map e_name ds -> files (disk (drop_all count ds q)) !! n = files (disk q) !! n.
Proof.
  induction ds as [|d ds IH]; intros q n Hn; simpl; [done|]. simpl in Hn.
  rewrite IH by set_solver. simpl. apply lookup_delete_ne. set_solver.
Qed.

Lemma drop_all_fixed count ds : forall q,
  let q' := drop_all count ds q in
  limits q' = limits q /\ q_kind q' = q_kind q /\ next_sequence q' = next_sequence q /\
  offers q' = offers q /\ counters q' = fold_left (fun c e => count e c) ds (counters q).
Proof.
  induction ds as [|d ds IH]; intros q; simpl; [done|].
  destruct (IH (dropped count q d)) as (-> & -> & -> & -> & ->). done.
Qed.

(** The monitor is up to date. *)
Definition monitored (q : DiskQueue) : Prop := monitor q = Some (health_of q).

Lemma drop_all_monitored count ds : forall q,
  monitored q -> monitored (drop_all count ds q).
Proof. induction ds as [|d ds IH]; intros q Hq; [done|]. by apply IH. Qed.

(** ** Expiry and making room *)

Definition on_expired (e : Entry) (c : QueueCounters) := note_dropped (count_expired c) (queued_at e).
Definition on_dropped (e : Entry) (c : QueueCounters) := note_dropped (count_space c) (queued_at e).

Lemma expire_loop_calm ds : forall q l,
  calm_queue q -> view q ≡ₚ ds ++ l -> expire_loop ds q = (drop_all on_expired ds q, Ok tt).
Proof.
  induction ds as [|d ds IH]; intros q l Hq Hp; [done|]. cbn [expire_loop].
  rewrite (drop_calm q d on_expired (fun _ => expire_loop ds)); [|done|rewrite Hp; left].
  apply (IH _ l); [by apply dropped_calm|]. by apply dropped_view.
Qed.

Definition too_old (lim : QueueLimits) (now : Z) (e : Entry) : bool := max_age lim <? age e now.
Definition current (lim : QueueLimits) (now : Z) (es : list Entry) : list Entry :=
  List.filter (fun e => negb (too_old lim now e)) es.
Definition outdated (lim : QueueLimits) (now : Z) (es : list Entry) : list Entry :=
  List.filter (too_old lim now) es.

Lemma partition_perm {A} (p : A -> bool) l :
  l ≡ₚ List.filter p l ++ List.filter (fun x => negb (p x)) l.
Proof.
  induction l as [|x l IH]; simpl; [done|]. destruct (p x); simpl; [by constructor|].
  rewrite <- Permutation_middle. by constructor.
Qed.

Lemma filter_sorted (p : Entry -> bool) l :
  StronglySorted entry_le l -> StronglySorted entry_le (List.filter p l).
Proof.
  induction 1 as [|x l Hl IH Hx]; simpl; [constructor|].
  destruct (p x); [|done]. constructor; [done|].
  rewrite List.Forall_forall in *. intros y [Hy _]%filter_In. auto.
Qed.

(** The queue once its expired entries are gone. *)
Definition fresh (now : Z) (q : DiskQueue) : DiskQueue :=
  drop_all on_expired (outdated (limits q) now (view q)) q.

Lemma expire_calm now q :
  calm_queue q -> expire (view q) now q = (fresh now q, Ok (current (limits q) now (view q))).
Proof.
  intros Hq. unfold expire. cbn [st_get st_bind]. unfold st_bind, st_get.
  erewrite (expire_loop_calm _ q); [done|done|]. apply partition_perm.
Qed.

Lemma fresh_view now q : view (fresh now q) = current (limits q) now (view q).
Proof.
  apply drop_all_view; [apply partition_perm|]. apply filter_sorted, entries_of_sorted.
Qed.

Definition fits (lim : QueueLimits) (size : Z) (es : list Entry) : bool :=
  (zlength es <? max_entries lim) && (zsum (map e_bytes es) + size <=? max_bytes lim).

(** How many of the oldest entries go so that the new one fits: the least
    number that leaves room. *)
Fixpoint room (lim : QueueLimits) (size : Z) (es : list Entry) : nat :=
  match es with
  | [] => O
  | _ :: es' => if fits lim size es then O else S (room lim size es')
  end.

Lemma room_least lim size es k : (k < room lim size es)%nat -> fits lim size (drop k es) = false.
Proof.
  revert k. induction es as [|e es IH]; intros k; cbn [room]; [lia|].
  destruct (fits lim size (e :: es)) eqn:Hf; [lia|]. destruct k as [|k]; [done|].
  intros Hk. apply IH. lia.
Qed.

Lemma room_enough lim size es :
  drop (room lim size es) es = [] \/ fits lim size (drop (room lim size es) es) = true.
Proof.
  induction es as [|e es IH]; cbn [room]; [by left|].
  destruct (fits lim size (e :: es)) eqn:Hf; [by right|]. done.
Qed.

Lemma make_room_calm size es : forall q l,
  calm_queue q -> view q ≡ₚ es ++ l ->
  make_room es (zlength es) (zsum (map e_bytes es)) size q
  = (drop_all on_dropped (take (room (limits q) size es) es) q, Ok tt).
Proof.
  induction es as [|e es IH]; intros q l Hq Hp; [done|]. cbn [make_room room].
  unfold st_bind at 1, st_get. cbn beta. fold (fits (limits q) size (e :: es)).
  destruct (fits (limits q) size (e :: es)) eqn:Hf; [done|].
  rewrite (drop_calm q e on_dropped (fun _ => make_room es _ _ size)); [|done|rewrite Hp; left].
  replace (zlength (e :: es) - 1) with (zlength es) by (unfold zlength; simpl; lia).
  replace (zsum (map e_bytes (e :: es)) - e_bytes e) with (zsum (map e_bytes es)) by (simpl; lia).
  rewrite (IH (dropped on_dropped q e) l); [done|done|]. by apply dropped_view.
Qed.

Lemma write_atomically_calm q tmp now name body :
  calm_queue q -> let m := files (disk q) in let t := TEMPORARY_PREFIX ++ uuid_show tmp in
  m !! t = None -> m !! name = None -> name <> t ->
  write_atomically tmp now name body q
  = (set_disk (with_files (disk q) (insert name (mkFile Regular body now))) q, Ok tt).
Proof.
  intros Hq m t Ht Hn Hne. unfold write_atomically. fold t.
  assert (forall w, calm w -> next_event w = (w, None)) as Hev.
  { intros w [He Hc]. unfold next_event. by rewrite Hc, He. }
  unfold st_catch, st_bind, on_disk_or, on_disk, st_bind, create_new.
  rewrite fs_call_calm by done. fold m. rewrite Ht. cbn [st_ret]. unfold st_ret.
  unfold write_and_sync. rewrite Hev by done. cbn [disk set_disk with_files files].
  fold m. unfold rename, sync_dir. rewrite !fs_call_calm by done.
  cbn [disk set_disk with_files files]. rewrite lookup_insert_eq.
  cbn [disk set_disk with_files files]. rewrite lookup_insert_eq.
  rewrite lookup_insert_ne by done. rewrite lookup_insert_ne by done. fold m. rewrite Hn.
  unfold set_disk, with_files. cbn [files disk events crashed]. fold m.
  rewrite lookup_insert_eq. rewrite insert_insert_eq, delete_insert_eq, delete_id by done.
  by rewrite fs_call_calm.
Qed.

(** ** Enqueueing *)

(** Whatever is named like an entry is a file the queue wrote. *)
Definition tidy (m : gmap bytes file) : Prop := forall n f,
  m !! n = Some f -> is_Some (parse_entry_name n) -> utf8_valid n = true /\ file_kind f = Regular.

Definition next_of (q : DiskQueue) (es : list Entry) : Z :=
  Z.max (next_sequence q) (match last_opt es with Some e => sequence e + 1 | None => 0 end).

(** No sequence number is about to leave [u64]. *)
Definition sequences_fit (q : DiskQueue) : Prop :=
  0 <= next_sequence q <= U64_MAX /\
  Forall (fun e => 0 <= sequence e < U64_MAX) (view q).

Lemma sorted_last (es : list Entry) e e' :
  StronglySorted entry_le es -> last_opt es = Some e -> e' ∈ es -> sequence e' <= sequence e.
Proof.
  intros Hs. revert e. induction Hs as [|x l Hl IH Hx]; intros e He Hin; [by inversion Hin|].
  destruct l as [|y l'].
  - simpl in He. injection He as <-. apply list_elem_of_singleton in Hin as ->. lia.
  - change (last_opt (y :: l') = Some e) in He. apply elem_of_cons in Hin as [->|Hin]; [|by apply IH].
    apply last_opt_elem in He. rewrite List.Forall_forall in Hx.
    specialize (Hx e (proj1 (list_elem_of_In _ _) He)). apply entry_le_spec in Hx. lia.
Qed.

Lemma next_of_above q es e :
  StronglySorted entry_le es -> e ∈ es -> sequence e < next_of q es.
Proof.
  intros Hs He. unfold next_of. destruct (last_opt es) as [x|] eqn:Hl.
  - pose proof (sorted_last es x e Hs Hl He). lia.
  - apply last_opt_None in Hl as ->. by inversion He.
Qed.

Lemma next_of_wrap q es :
  Forall (fun e => 0 <= sequence e < U64_MAX) es ->
  Z.max (next_sequence q) (match last_opt es with Some e => wrap 64 (sequence e + 1) | None => 0 end)
  = next_of q es.
Proof.
  intros Hf. unfold next_of. destruct (last_opt es) as [x|] eqn:Hl; [|done].
  apply last_opt_elem, list_elem_of_In in Hl. rewrite List.Forall_forall in Hf. specialize (Hf x Hl).
  unfold wrap. rewrite Z.mod_small; [done|]. unfold U64_MAX in Hf. lia.
Qed.

Lemma entry_name_utf8 s t id :
  0 <= s <= U64_MAX -> as_secs (since t 0) < 10 ^ 12 -> utf8_valid (entry_name s t id) = true.
Proof.
  intros Hs Ht. apply is_ascii_utf8. rewrite entry_name_shape by done.
  assert (forall l, Forall (fun b => is_ascii_digit b = true) l -> is_ascii l = true) as Hdig.
  { intros l Hl. apply forallb_forall. rewrite List.Forall_forall in Hl. intros x Hx.
    specialize (Hl x Hx). cbn beta in Hl. unfold is_ascii_digit in Hl. bool_simpl.
    apply andb_true_iff; rewrite Z.leb_le, Z.ltb_lt; lia. }
  assert (is_ascii (uuid_show id) = true) as Hid.
  { apply forallb_forall. pose proof (uuid_show_chars id) as Hc. rewrite List.Forall_forall in Hc.
    intros x Hx. specialize (Hc x Hx). cbn beta in Hc. unfold is_ascii_hexdigit, is_ascii_digit in Hc.
    rewrite !orb_true_iff, !andb_true_iff, !Z.leb_le, Z.eqb_eq in Hc.
    apply andb_true_iff; rewrite Z.leb_le, Z.ltb_lt; lia. }
  unfold is_ascii in *. rewrite !forallb_app. cbn [forallb].
  rewrite !forallb_app. cbn [forallb]. rewrite forallb_app.
  rewrite (Hdig _ (digits_ascii 20 s)), (Hdig _ (digits_ascii 12 _)), Hid. done.
Qed.

Lemma parse_entry_name_entry_name s t id :
  0 <= s <= U64_MAX -> as_secs (since t 0) < 10 ^ 12 ->
  parse_entry_name (entry_name s t id) = Some (s, from_secs (as_secs (since t 0))).
Proof.
  intros Hs Ht. rewrite entry_name_shape by done. apply parse_entry_name_digits; [done|].
  split; [|done]. unfold as_secs, since. apply Z.div_pos; [lia|done].
Qed.

Lemma drop_all_sub count ds : forall q n f,
  files (disk (drop_all count ds q)) !! n = Some f -> files (disk q) !! n = Some f.
Proof.
  induction ds as [|d ds IH]; intros q n f H; [done|]. simpl in H.
  apply IH in H. simpl in H. by apply lookup_delete_Some in H as [_ ?].
Qed.

(** The directory when the new entry is written: nothing expired, and the
    oldest entries gone that had to make room. *)
Definition trimmed (now size : Z) (q : DiskQueue) : DiskQueue :=
  let es := current (limits q) now (view q) in
  drop_all on_dropped (take (room (limits q) size es) es) (fresh now q).

Definition kept (now size : Z) (q : DiskQueue) : list Entry :=
  let es := current (limits q) now (view q) in drop (room (limits q) size es) es.

Lemma current_sorted lim now m : StronglySorted entry_le (current lim now (entries_of m)).
Proof. apply filter_sorted, entries_of_sorted. Qed.

Lemma elem_of_kept now size q e : e ∈ kept now size q -> e ∈ current (limits q) now (view q).
Proof.
  unfold kept. intros H. rewrite <- (take_drop (room (limits q) size (current (limits q) now (view q)))
    (current (limits q) now (view q))). by apply elem_of_app; right.
Qed.

Lemma elem_of_current lim now es e : e ∈ current lim now es -> e ∈ es.
Proof. intros H%list_elem_of_In. by apply filter_In in H as [?%list_elem_of_In _]. Qed.

Lemma trimmed_view now size q : view (trimmed now size q) = kept now size q.
Proof.
  apply drop_all_view.
  - rewrite fresh_view. unfold kept. by rewrite take_drop.
  - eapply StronglySorted_app_1_r. unfold kept. rewrite take_drop. apply current_sorted.
Qed.

Lemma trimmed_sub now size q n f :
  files (disk (trimmed now size q)) !! n = Some f -> files (disk q) !! n = Some f.
Proof. intros H. by do 2 apply drop_all_sub in H. Qed.

Lemma trimmed_calm now size q : calm_queue q -> calm_queue (trimmed now size q).
Proof. intros Hq. by do 2 apply drop_all_calm. Qed.

Lemma trimmed_fixed now size q :
  let q' := trimmed now size q in
  limits q' = limits q /\ next_sequence q' = next_sequence q /\ offers q' = offers q.
Proof.
  unfold trimmed, fresh. simpl.
  match goal with |- context [drop_all on_dropped ?ds ?q0] =>
    destruct (drop_all_fixed on_dropped ds q0) as (-> & _ & -> & -> & _) end.
  match goal with |- context [drop_all on_expired ?ds ?q0] =>
    destruct (drop_all_fixed on_expired ds q0) as (-> & _ & -> & -> & _) end.
  done.
Qed.

(** The new entry's name is free: anything under it would be an entry with a
    sequence the new one exceeds. *)
Lemma new_name_free now size q id :
  tidy (files (disk q)) -> sequences_fit q -> as_secs (since now 0) < 10 ^ 12 ->
  let s := next_of q (current (limits q) now (view q)) in
  0 <= s <= U64_MAX -> files (disk (trimmed now size q)) !! entry_name s now id = None.
Proof.
  intros Ht Hs Hnow s Hsr. destruct (_ !! _) as [f|] eqn:E; [exfalso|done].
  pose proof (trimmed_sub _ _ _ _ _ E) as E0.
  pose proof (parse_entry_name_entry_name s now id Hsr Hnow) as Hp.
  destruct (Ht _ _ E0) as [_ Hk]; [by rewrite Hp|]. destruct f as [k c mt]. simpl in Hk. subst k.
  set (e := mkEntry (entry_name s now id) s (from_secs (as_secs (since now 0))) (zlength c)).
  assert (e ∈ kept now size q) as He.
  { rewrite <- trimmed_view. apply elem_of_entries_of. eexists. split; [exact E|].
    unfold entry_of, from_utf8. cbn [fst snd e_name e].
    rewrite entry_name_utf8 by done. cbn [mbind option_bind]. by rewrite Hp. }
  apply elem_of_kept in He.
  pose proof (next_of_above q _ e (current_sorted _ _ _) He) as Hlt. simpl in Hlt. fold s in Hlt. lia.
Qed.

Definition new_entry (q : DiskQueue) (id : uuid) (body : bytes) (now : Z) : Entry :=
  let s := next_of q (current (limits q) now (view q)) in
  mkEntry (entry_name s now id) s (from_secs (as_secs (since now 0))) (zlength body).

(** The queue after a successful [enqueue]. *)
Definition enqueued (id : uuid) (body : bytes) (now : Z) (q : DiskQueue) : DiskQueue :=
  let q' := trimmed now (zlength body) q in
  let e := new_entry q id body now in
  published (set_next_sequence (wrap 64 (sequence e + 1))
    (set_disk (with_files (disk q') (insert (e_name e) (mkFile Regular body now))) q')).

Lemma enqueue_calm tmp id body now q :
  calm_queue q -> tidy (files (disk q)) -> sequences_fit q -> as_secs (since now 0) < 10 ^ 12 ->
  files (disk q) !! (TEMPORARY_PREFIX ++ uuid_show tmp) = None ->
  zlength body <= max_bytes (limits q) ->
  enqueue tmp id body now q = (enqueued id body now q, Ok tt).
Proof.
  intros Hq Ht Hs Hnow Htmp Hsize. unfold enqueue. unfold st_bind at 1, st_get. cbn beta.
  replace (max_bytes (limits q) <? zlength body) with false by (symmetry; apply Z.ltb_ge; done).
  unfold st_bind at 1. rewrite entries_calm by done. unfold st_bind at 1. rewrite expire_calm by done.
  unfold st_bind at 1, st_get. cbn beta.
  assert (next_sequence (fresh now q) = next_sequence q /\ limits (fresh now q) = limits q) as [Hfn Hfl].
  { unfold fresh. match goal with |- context [drop_all on_expired ?ds ?q0] =>
      destruct (drop_all_fixed on_expired ds q0) as (-> & _ & -> & _) end. done. }
  rewrite Hfn, next_of_wrap.
  2: { destruct Hs as [_ Hs]. rewrite List.Forall_forall in *.
       intros e He%list_elem_of_In%elem_of_current. by apply Hs, list_elem_of_In. }
  set (s := next_of q (current (limits q) now (view q))).
  assert (0 <= s <= U64_MAX) as Hsr.
  { unfold s, next_of. destruct Hs as [? Hs]. destruct (last_opt _) as [x|] eqn:Hl; [|lia].
    apply last_opt_elem, elem_of_current, list_elem_of_In in Hl. rewrite List.Forall_forall in Hs.
    specialize (Hs x Hl). lia. }
  unfold st_bind at 1. erewrite (make_room_calm _ _ (fresh now q) []);
    [|by apply drop_all_calm|by rewrite fresh_view, app_nil_r].
  rewrite Hfl. fold (trimmed now (zlength body) q).
  unfold st_bind at 1, st_catch. rewrite write_atomically_calm.
  - cbn [is_ok]. unfold st_bind, st_modify. rewrite publish_health_calm by (by apply trimmed_calm). done.
  - by apply trimmed_calm.
  - apply eq_None_not_Some. intros [f E%trimmed_sub]. congruence.
  - by apply new_name_free.
  - by apply entry_name_not_temporary.
Qed.

Lemma trimmed_body now size q e :
  e ∈ kept now size q ->
  exists f, files (disk (trimmed now size q)) !! e_name e = Some f /\
            files (disk q) !! e_name e = Some f.
Proof.
  rewrite <- trimmed_view. intros (f & Hf & _)%elem_of_entries_of.
  exists f. split; [done|]. by eapply trimmed_sub.
Qed.

Lemma enqueued_files id body now q :
  files (disk (enqueued id body now q))
  = <[e_name (new_entry q id body now) := mkFile Regular body now]>
      (files (disk (trimmed now (zlength body) q))).
Proof. reflexivity. Qed.

Lemma enqueued_view id body now q :
  tidy (files (disk q)) -> sequences_fit q -> as_secs (since now 0) < 10 ^ 12 ->
  next_of q (current (limits q) now (view q)) <= U64_MAX ->
  view (enqueued id body now q) = kept now (zlength body) q ++ [new_entry q id body now].
Proof.
  intros Ht Hs Hnow Hmax.
  assert (0 <= next_of q (current (limits q) now (view q)) <= U64_MAX) as Hr.
  { split; [|done]. destruct Hs as [? _]. unfold next_of. lia. }
  rewrite <- trimmed_view. apply (entries_of_insert (new_entry q id body now)).
  - by apply new_name_free.
  - unfold entry_of, from_utf8. cbn [fst snd e_name new_entry].
    rewrite entry_name_utf8 by done. cbn [mbind option_bind].
    by rewrite parse_entry_name_entry_name.
  - rewrite trimmed_view. apply List.Forall_forall. intros e He%list_elem_of_In%elem_of_kept.
    apply next_of_above; [apply current_sorted|done].
Qed.

Lemma next_of_bound now q :
  sequences_fit q -> next_of q (current (limits q) now (view q)) <= U64_MAX.
Proof.
  intros [? Hs]. unfold next_of. destruct (last_opt _) as [x|] eqn:Hl; [|lia].
  apply last_opt_elem, elem_of_current, list_elem_of_In in Hl. rewrite List.Forall_forall in Hs.
  specialize (Hs x Hl). lia.
Qed.

(** Enqueueing leaves the bodies of the entries it keeps, and adds the new one. *)
Lemma enqueued_contents id body now q :
  tidy (files (disk q)) -> sequences_fit q -> as_secs (since now 0) < 10 ^ 12 ->
  map (body_of (files (disk (enqueued id body now q)))) (view (enqueued id body now q))
  = map (body_of (files (disk q))) (kept now (zlength body) q) ++ [body].
Proof.
  intros Ht Hs Hnow. rewrite (enqueued_view id body now q Ht Hs Hnow (next_of_bound now q Hs)), map_app. f_equal.
  - apply map_ext_in. intros e He%list_elem_of_In.
    destruct (trimmed_body _ _ _ _ He) as (f & Hf & Hf0). unfold body_of. rewrite Hf0, enqueued_files.
    rewrite lookup_insert_ne, Hf; [done|]. intros E. rewrite <- E in Hf. clear E Hf0.
    unfold new_entry in Hf. cbn [e_name] in Hf.
    rewrite new_name_free in Hf; [done..|]. split; [destruct Hs; unfold next_of; lia|by apply next_of_bound].
  - unfold body_of. cbn [map]. by rewrite enqueued_files, lookup_insert_eq.
Qed.

Lemma kept_fits now size q :
  1 <= max_entries (limits q) -> size <= max_bytes (limits q) ->
  zlength (kept now size q) + 1 <= max_entries (limits q) /\
  zsum (map e_bytes (kept now size q)) + size <= max_bytes (limits q).
Proof.
  intros Hn Hb. unfold kept. destruct (room_enough (limits q) size (current (limits q) now (view q)))
    as [->|Hf]; [change (zlength (@nil Entry)) with 0; simpl; lia|].
  unfold fits in Hf. bool_simpl. lia.
Qed.

(** ** Draining *)

(** An outcome after which the entry leaves the queue. *)
Definition settled (r : result unit TransportError) : bool :=
  match r with Ok _ => true | Err e => bool_decide (failure e = PayloadRejected) end.

(** What a first-in-first-out consumer offers of the bodies [bs]. *)
Fixpoint offer_all (cancelled : nat -> bool) (deliver : nat -> bytes -> result unit TransportError)
    (limit : Z) (round : nat) (offered : Z) (bs : list bytes)
  : list (bytes * result unit TransportError) :=
  match bs with
  | [] => []
  | b :: bs' =>
      if cancelled round || (limit <=? offered) then []
      else
        let r := deliver (Z.to_nat offered) b in
        (b, r) :: if settled r
                  then offer_all cancelled deliver limit (S round) (offered + 1) bs' else []
  end.

Definition settle_count (log : list (bytes * result unit TransportError)) : nat :=
  length (List.filter (fun o => settled (snd o)) log).

Definition tally (d : Drained) (log : list (bytes * result unit TransportError)) : Drained :=
  fold_left (fun d o =>
    match snd o with
    | Ok _ => mkDrained (delivered d + 1) (d_rejected d) (blocked d)
    | Err e => if settled (snd o)
               then mkDrained (delivered d) (d_rejected d + 1) (blocked d)
               else mkDrained (delivered d) (d_rejected d) (Some e)
    end) log d.

Abbreviation bodies q := (map (body_of (files (disk q))) (view q)).

Lemma dropped_head count q e es :
  view q = e :: es ->
  view (dropped count q e) = es /\ map (body_of (files (disk (dropped count q e)))) es
                                   = map (body_of (files (disk q))) es.
Proof.
  intros Hv. pose proof (entries_of_sorted (files (disk q))) as Hs. rewrite Hv in Hs.
  assert (view (dropped count q e) = es) as Hd.
  { apply entries_of_unique; [by inversion Hs|]. apply dropped_view. by rewrite Hv. }
  split; [done|]. apply map_ext_in. intros x Hx%list_elem_of_In. rewrite <- Hd in Hx.
  apply elem_of_entries_of in Hx as (f & Hf & _). unfold body_of. simpl in *.
  apply lookup_delete_Some in Hf as Hf'. destruct Hf' as [Hne Hf']. by rewrite Hf, Hf'.
Qed.

Lemma read_head_calm q e es :
  calm_queue q -> view q = e :: es ->
  on_disk (read_file (e_name e)) q = (q, Ok (Ok (body_of (files (disk q)) e))).
Proof.
  intros Hq Hv. assert (e ∈ view q) as (f & Hf & He)%elem_of_entries_of by (rewrite Hv; left).
  apply entry_of_Some in He as (_ & Hk & _). destruct f as [k c mt]. simpl in Hk. subst k.
  unfold on_disk. erewrite read_file_calm by done. rewrite set_disk_id.
  unfold body_of. by rewrite Hf.
Qed.

Lemma drain_loop_calm cancelled deliver limit : forall es round offered d q,
  calm_queue q -> view q = es ->
  let log := offer_all cancelled deliver limit round offered (bodies q) in
  exists q', drain_loop cancelled deliver limit round offered d es q = (q', Ok (tally d log)) /\
    view q' = drop (settle_count log) es /\ offers q' = offers q ++ log /\
    calm_queue q' /\ limits q' = limits q /\ files (disk q') ⊆ files (disk q) /\ next_sequence q' = next_sequence q.
Proof.
  induction es as [|e es IH]; intros round offered d q Hq Hv log.
  { exists q. unfold log. rewrite Hv. simpl. by rewrite app_nil_r. }
  unfold log. rewrite Hv. cbn [map offer_all drain_loop].
  destruct (_ || _); [exists q; by rewrite app_nil_r|].
  unfold st_bind at 1. erewrite read_head_calm by done. set (b := body_of _ e).
  unfold st_bind at 1. unfold st_modify at 1. set (r := deliver _ b).
  set (q1 := log_offer b r q).
  assert (calm_queue q1) as Hq1 by done. assert (view q1 = e :: es) as Hv1 by done.
  assert (forall count d',
    let log' := offer_all cancelled deliver limit (S round) (offered + 1)
                  (map (body_of (files (disk q))) es) in
    exists q', drain_loop cancelled deliver limit (S round) (offered + 1) d' es (dropped count q1 e)
               = (q', Ok (tally d' log')) /\
      view q' = drop (settle_count log') es /\ offers q' = offers q ++ (b, r) :: log' /\
      calm_queue q' /\ limits q' = limits q /\ files (disk q') ⊆ files (disk q) /\ next_sequence q' = next_sequence q) as Hnext.
  { intros count d' log'. destruct (dropped_head count q1 e es Hv1) as [Hv2 Hb2].
    destruct (IH (S round) (offered + 1) d' (dropped count q1 e)) as (q' & Hr & Hv' & Ho & Hc & Hl & Hsub & Hn);
      [done..|].
    rewrite Hv2, Hb2 in Hr, Hv', Ho. exists q'. split; [exact Hr|]. split; [exact Hv'|].
    split.
    - rewrite Ho. cbn [dropped published set_monitor offers set_counters set_disk q1 log_offer].
      by rewrite <- app_assoc.
    - split_and!; [done|done| |done]. etransitivity; [exact Hsub|]. apply delete_subseteq. }
  destruct r as [u|error].
  - destruct (Hnext (fun _ c => c) (mkDrained (delivered d + 1) (d_rejected d) (blocked d)))
      as (q' & Hr & ?). exists q'. split; [|done].
    unfold st_bind. rewrite remove_calm by (done || rewrite Hv1; left).
    rewrite publish_health_calm by done. exact Hr.
  - unfold settled. cbn [settle_count tally]. destruct (bool_decide _) eqn:Hk.
    + destruct (Hnext (fun _ => count_rejected) (mkDrained (delivered d) (d_rejected d + 1) (blocked d)))
        as (q' & Hr & Hrest). exists q'. unfold tally. cbn [fold_left snd settled].
      unfold settle_count in *. cbn [List.filter snd settled length drop]. rewrite Hk.
      split; [|exact Hrest].
      rewrite (drop_calm q1 e (fun _ => count_rejected)
        (fun removed => drain_loop cancelled deliver limit (S round) (offered + 1)
           (mkDrained (delivered d) (if removed then d_rejected d + 1 else d_rejected d) (blocked d)) es));
        [exact Hr|done|]. rewrite Hv1. left.
    + exists q1. unfold tally, settle_count. cbn [fold_left snd settled List.filter length drop].
      rewrite Hk. done.
Qed.

Lemma drain_calm now limit cancelled deliver q :
  calm_queue q ->
  let es := current (limits q) now (view q) in
  let log := offer_all cancelled deliver limit 0 0 (map (body_of (files (disk q))) es) in
  exists q', drain_at_most now limit cancelled deliver q = (q', Ok (tally (mkDrained 0 0 None) log)) /\
    view q' = drop (settle_count log) es /\ offers q' = offers q ++ log /\ monitored q' /\
    calm_queue q' /\ files (disk q') ⊆ files (disk q) /\ limits q' = limits q /\ next_sequence q' = next_sequence q.
Proof.
  intros Hq es log. unfold drain_at_most. unfold st_bind at 1. rewrite entries_calm by done.
  unfold st_bind at 1. rewrite expire_calm by done. fold es.
  assert (map (body_of (files (disk (fresh now q)))) es = map (body_of (files (disk q))) es) as Hb.
  { apply map_ext_in. intros e He%list_elem_of_In. unfold es in He. rewrite <- fresh_view in He.
    apply elem_of_entries_of in He as (f & Hf & _). unfold body_of. rewrite Hf.
    apply drop_all_sub in Hf. by rewrite Hf. }
  destruct (drain_loop_calm cancelled deliver limit es 0 0 (mkDrained 0 0 None) (fresh now q))
    as (q' & Hr & Hv & Ho & Hc & Hl & Hsub & Hn); [by apply drop_all_calm|apply fresh_view|].
  rewrite fresh_view in Hr, Hv, Ho. fold es in Hr, Hv, Ho. rewrite Hb in Hr, Hv, Ho. fold log in Hr, Hv, Ho.
  exists (published q'). unfold st_bind. rewrite Hr, publish_health_calm by done.
  assert (limits (fresh now q) = limits q /\ next_sequence (fresh now q) = next_sequence q /\ offers (fresh now q) = offers q) as (Hl' & Hn' & Ho').
  { unfold fresh. match goal with |- context [drop_all on_expired ?ds ?q0] =>
      destruct (drop_all_fixed on_expired ds q0) as (-> & _ & -> & -> & _) end. done. }
  split; [done|]. split; [exact Hv|]. split; [simpl; by rewrite Ho, Ho'|]. split_and!; [done|done| |simpl; congruence|simpl; congruence].
  - etransitivity; [exact Hsub|]. apply map_subseteq_spec. intros n f. apply drop_all_sub.
Qed.
End spec.

(** ** What a first-in-first-out consumer offers *)

Section offers.
Variables (cancelled : nat -> bool) (deliver : nat -> bytes -> result unit TransportError) (limit : Z).
Abbreviation offer := (offer_all cancelled deliver limit).

Lemma offer_all_prefix bs : forall round offered, map fst (offer round offered bs) `prefix_of` bs.
Proof.
  induction bs as [|b bs IH]; intros round offered; simpl; [done|].
  destruct (_ || _); [apply prefix_nil|]. simpl. apply prefix_cons.
  destruct (settled _); [apply IH|apply prefix_nil].
Qed.

Lemma offer_all_limit bs : forall round offered,
  offered <= limit -> offered + zlength (offer round offered bs) <= limit.
Proof.
  unfold zlength. induction bs as [|b bs IH]; intros round offered Ho; cbn [offer_all]; [simpl; lia|].
  destruct (cancelled round); simpl; [lia|]. destruct (Z.leb_spec limit offered); simpl; [lia|].
  destruct (settled _); simpl; [|lia]. specialize (IH (S round) (offered + 1) ltac:(lia)). lia.
Qed.

(** All outcomes are settled, except perhaps the last one. *)
Lemma offer_all_shape bs : forall round offered, exists l tl,
  offer round offered bs = l ++ tl /\ Forall (fun o => settled (snd o) = true) l /\
  (tl = [] \/ exists b e, tl = [(b, Err e)] /\ settled (Err e) = false).
Proof.
  induction bs as [|b bs IH]; intros round offered; cbn [offer_all]; [by exists [], []; auto|].
  destruct (_ || _); [by exists [], []; auto|].
  destruct (settled (deliver _ b)) eqn:Hs.
  - destruct (IH (S round) (offered + 1)) as (l & tl & -> & Hl & Htl).
    exists ((b, deliver (Z.to_nat offered) b) :: l), tl. auto.
  - destruct (deliver _ b) as [u|e] eqn:Hd; [done|].
    exists [], [(b, Err e)]. split; [done|]. split; [constructor|]. right. eauto.
Qed.

(** Nothing is left unoffered when every outcome settles. *)
Lemma offer_all_complete bs : forall round offered,
  (forall r, cancelled r = false) -> offered + zlength bs <= limit ->
  Forall (fun o => settled (snd o) = true) (offer round offered bs) ->
  length (offer round offered bs) = length bs.
Proof.
  unfold zlength. induction bs as [|b bs IH]; intros round offered Hc Hl Hs; [done|].
  cbn [offer_all length] in *. rewrite Hc in *. cbn [orb] in *.
  destruct (Z.leb_spec limit offered); [lia|]. inversion Hs as [|? ? Hb Hs']; subst. cbn [snd] in Hb.
  rewrite Hb in *. simpl. rewrite IH by (done || lia). done.
Qed.

Lemma settle_count_app l tl :
  Forall (fun o => settled (snd o) = true) l ->
  tl = [] \/ (exists b e, tl = [(b, Err e)] /\ settled (Err e) = false) ->
  settle_count (l ++ tl) = length l.
Proof.
  intros Hl Htl. unfold settle_count. rewrite List.filter_app, length_app.
  assert (List.filter (fun o => settled (snd o)) l = l) as ->.
  { induction Hl as [|x l Hx Hl IH]; simpl; [done|]. by rewrite Hx, IH. }
  destruct Htl as [->|(b & e & -> & He)]; simpl; [lia|]. cbn [settled] in He. rewrite He. simpl. lia.
Qed.

Definition accepted (o : bytes * result unit TransportError) : bool := is_ok (snd o).

Lemma tally_app l tl d :
  Forall (fun o => settled (snd o) = true) l ->
  tl = [] \/ (exists b e, tl = [(b, Err e)] /\ settled (Err e) = false) ->
  blocked d = None ->
  delivered (tally d (l ++ tl)) = delivered d + zlength (List.filter accepted l) /\
  d_rejected (tally d (l ++ tl)) = d_rejected d + (zlength l - zlength (List.filter accepted l)) /\
  blocked (tally d (l ++ tl)) = match tl with (_, Err e) :: _ => Some e | _ => None end.
Proof.
  intros Hl Htl. revert d. unfold tally, zlength.
  induction Hl as [|[b r] l Hr Hl IH]; intros d Hd.
  - destruct Htl as [->|(b & e & -> & He)]; cbn [app fold_left snd].
    + simpl. split_and!; [lia..|done].
    + rewrite He. simpl. split_and!; [lia..|done].
  - cbn [app fold_left snd]. cbn [snd] in Hr. destruct r as [u|e].
    + destruct (IH (mkDrained (delivered d + 1) (d_rejected d) (blocked d)) Hd) as (-> & -> & ->).
      cbn [List.filter accepted snd is_ok length delivered d_rejected]. split_and!; [lia..|done].
    + rewrite Hr. destruct (IH (mkDrained (delivered d) (d_rejected d + 1) (blocked d)) Hd) as (-> & -> & ->).
      cbn [List.filter accepted snd is_ok length delivered d_rejected]. split_and!; [lia..|done].
Qed.
End offers.

(** ** Writes are atomic whatever the machine does *)

Section atomic.
Context {U : Uuid}.
Variables (name : bytes) (old : option file) (body : bytes).
Abbreviation atomic := (atomic name old body).

Lemma on_disk_or_inv {A} action (m : fs A) q q' r :
  on_disk_or action m q = (q', r) ->
  exists r0, m (disk q) = (disk q', r0) /\ (forall a, r = Ok a -> r0 = Ok a).
Proof.
  unfold on_disk_or, on_disk, st_bind. destruct (m (disk q)) as [w r0].
  destruct r0; intros [= <- <-]; eexists; (split; [done|]); congruence.
Qed.

Lemma write_steps_atomic tmp now q q' r :
  tmp <> name -> atomic (disk q) ->
  (let* _ := on_disk_or "create queued entry" (create_new now tmp) in
   let* _ := on_disk_or "write queued entry" (write_and_sync now tmp body) in
   let* _ := on_disk_or "persist queued entry" (rename tmp name) in
   on_disk_or "sync queue directory" sync_dir) q = (q', r) ->
  atomic (disk q').
Proof.
  intros Hne Ha. unfold st_bind at 1. destruct (on_disk_or "create queued entry" _ q) as [q1 r1] eqn:E1.
  apply on_disk_or_inv in E1 as (k1 & E1 & _). apply create_new_touches in E1.
  assert (atomic (disk q1)) as Ha1 by (eapply (atomic_touches name old body); [exact Ha| |exact E1]; congruence).
  destruct r1 as [[]|]; [|by intros [= <- <-]].
  unfold st_bind at 1. destruct (on_disk_or "write queued entry" _ q1) as [q2 r2] eqn:E2.
  apply on_disk_or_inv in E2 as (k2 & E2 & Hk2). apply (write_and_sync_stages body) in E2 as [E2 Hst].
  assert (atomic (disk q2)) as Ha2 by (eapply (atomic_touches name old body); [exact Ha1| |exact E2]; congruence).
  destruct r2 as [[]|]; [|by intros [= <- <-]].
  unfold st_bind at 1. destruct (on_disk_or "persist queued entry" _ q2) as [q3 r3] eqn:E3.
  apply on_disk_or_inv in E3 as (k3 & E3 & _). apply (rename_atomic name old body) in E3; [|done..|by apply Hst, Hk2].
  destruct r3 as [[]|]; [|by intros [= <- <-]].
  intros E4. apply on_disk_or_inv in E4 as (k4 & E4 & _).
  eapply (atomic_touches name old body); [exact E3| |eapply (fs_call_read _ (fun _ => False)); [|exact E4]; done]. tauto.
Qed.
End atomic.

Section theorems.
Context {U : Uuid}.
Abbreviation view q := (entries_of (files (disk q))).

(** Entry names: the name an entry is stored under gives back its
    sequence and the second it was queued, and names compare as bytes in the
    order of their sequences, so a sorted listing is the queue's order. *)
Theorem entry_names_in_order s t id s' t' id' :
  0 <= s <= U64_MAX -> as_secs (since t 0) < 10 ^ 12 ->
  s < s' <= U64_MAX -> as_secs (since t' 0) < 10 ^ 12 ->
  parse_entry_name (entry_name s t id) = Some (s, from_secs (as_secs (since t 0))) /\
  bytes_leb (entry_name s t id) (entry_name s' t' id') = true /\
  entry_name s t id <> entry_name s' t' id'.
Proof.
  intros Hs Ht Hs' Ht'. split; [by apply parse_entry_name_entry_name|].
  assert (digits 20 s <> digits 20 s') as Hne.
  { intros E%digits_inj; unfold U64_MAX in *; change (Z.of_nat 20) with 20; lia. }
  rewrite !entry_name_shape by (done || lia). split.
  - rewrite bytes_leb_app by (by rewrite !length_digits).
    rewrite (bool_decide_eq_false_2 _ Hne), bytes_leb_digits
      by (unfold U64_MAX in *; change (Z.of_nat 20) with 20; lia).
    rewrite andb_true_r, orb_false_r. apply Z.leb_le. lia.
  - intros E. apply Hne. by apply app_inj_1 in E as [? _]; [|rewrite !length_digits].
Qed.

(** C4. [write_atomically] never leaves a part of an entry under its name:
    whatever calls fail, wherever the machine stops, and whatever files other
    processes remove meanwhile, the file is what it was before, gone, or the
    whole body. *)
Theorem write_atomically_atomic tmp now name body q q' r :
  name <> TEMPORARY_PREFIX ++ uuid_show tmp ->
  write_atomically tmp now name body q = (q', r) ->
  files (disk q') !! name = files (disk q) !! name \/ files (disk q') !! name = None \/
  exists t, files (disk q') !! name = Some (mkFile Regular body t).
Proof.
  intros Hne. unfold write_atomically, st_bind at 1, st_catch.
  destruct ((let* _ := _ in _) q) as [q1 r1] eqn:E1.
  apply (write_steps_atomic name (files (disk q) !! name)) in E1; [|congruence|by left].
  destruct r1 as [[]|e]; [by intros [= <- <-]|].
  unfold st_bind, on_disk. destruct (remove_file _ (disk q1)) as [w2 r2] eqn:E2. intros [= <- <-].
  apply remove_file_touches in E2. eapply atomic_touches; [exact E1| |exact E2]. congruence.
Qed.

(** Enqueueing appends: on an undisturbed machine with a fresh temporary
    name, an entry within the byte limit is accepted; expired entries and
    then the oldest ones that must make room are gone, the rest are kept in
    order with their bodies, and the new entry comes last with exactly the
    body given.  The published health matches the queue. *)
Theorem enqueue_appends tmp id body now q :
  calm_queue q -> tidy (files (disk q)) -> sequences_fit q -> as_secs (since now 0) < 10 ^ 12 ->
  files (disk q) !! (TEMPORARY_PREFIX ++ uuid_show tmp) = None ->
  zlength body <= max_bytes (limits q) ->
  exists q', enqueue tmp id body now q = (q', Ok tt) /\
    view q' = kept now (zlength body) q ++ [new_entry q id body now] /\
    map (body_of (files (disk q'))) (view q')
    = map (body_of (files (disk q))) (kept now (zlength body) q) ++ [body] /\
    monitored q'.
Proof.
  intros Hq Ht Hs Hnow Htmp Hsize. exists (enqueued id body now q).
  split; [by apply enqueue_calm|].
  pose proof (enqueued_view id body now q Ht Hs Hnow (next_of_bound now q Hs)) as Hv.
  split; [done|]. split; [by apply enqueued_contents|done].
Qed.

(** The queue's limits: after an [enqueue] that succeeds on an
    undisturbed machine, the directory holds at most [max_entries] entries and
    [max_bytes] bytes, none older than [max_age]; and no more entries were
    dropped than had to be, since with one more of them left the new entry
    would not have fitted. *)
Theorem enqueue_within_limits tmp id body now q q' :
  calm_queue q -> tidy (files (disk q)) -> sequences_fit q -> as_secs (since now 0) < 10 ^ 12 ->
  files (disk q) !! (TEMPORARY_PREFIX ++ uuid_show tmp) = None ->
  1 <= max_entries (limits q) -> NANOS <= max_age (limits q) ->
  enqueue tmp id body now q = (q', Ok tt) ->
  zlength (view q') <= max_entries (limits q) /\
  zsum (map e_bytes (view q')) <= max_bytes (limits q) /\
  Forall (fun e => age e now <= max_age (limits q)) (view q') /\
  let es := current (limits q) now (view q) in
  forall k, (k < length es - length (kept now (zlength body) q))%nat ->
    fits (limits q) (zlength body) (drop k es) = false.
Proof.
  intros Hq Ht Hs Hnow Htmp Hn Ha E.
  destruct (Z.ltb_spec (max_bytes (limits q)) (zlength body)) as [Hbig|Hsize].
  { unfold enqueue, st_bind at 1, st_get in E. apply Z.ltb_lt in Hbig. by rewrite Hbig in E. }
  rewrite enqueue_calm in E by done. injection E as <-.
  rewrite enqueued_view by (done || by apply next_of_bound).
  destruct (kept_fits now (zlength body) q Hn Hsize) as [H1 H2].
  split; [unfold zlength in *; rewrite length_app; simpl; lia|].
  split; [rewrite map_app, zsum_app; simpl; lia|].
  split.
  - apply Forall_app; split.
    + apply List.Forall_forall. intros e He%list_elem_of_In%elem_of_kept%list_elem_of_In.
      apply filter_In in He as [_ He]. unfold too_old in He. bool_simpl. lia.
    + constructor; [|constructor]. unfold age, new_entry, since, from_secs, as_secs, NANOS in *.
      cbn [queued_at]. pose proof (Z.div_mod (Z.max 0 (now - 0)) 1000000000 ltac:(lia)).
      pose proof (Z.mod_pos_bound (Z.max 0 (now - 0)) 1000000000 ltac:(lia)). lia.
  - intros es k Hk. apply room_least. unfold kept in Hk. fold es in Hk. rewrite length_drop in Hk. lia.
Qed.

(** C3. Draining is first in, first out: on an undisturbed machine
    [drain_at_most] always returns, offers the bodies of the unexpired
    entries in queue order, at most [limit] of them, and goes on only while
    the server accepts or rejects them.  Exactly the [n] entries settled so
    are gone; the one a failure stopped at, and every later one, stay.  The
    counts add up, and a pass no failure, limit or cancellation stops leaves
    the queue empty. *)
Theorem drain_first_in_first_out now limit cancelled deliver q :
  calm_queue q -> 0 <= limit ->
  let es := current (limits q) now (view q) in
  exists q' d l tl,
    drain_at_most now limit cancelled deliver q = (q', Ok d) /\
    offers q' = offers q ++ l ++ tl /\
    map fst (l ++ tl) `prefix_of` map (body_of (files (disk q))) es /\
    zlength (l ++ tl) <= limit /\
    Forall (fun o => settled (snd o) = true) l /\
    (tl = [] /\ blocked d = None \/
     exists b e, tl = [(b, Err e)] /\ settled (Err e) = false /\ blocked d = Some e) /\
    view q' = drop (length l) es /\
    delivered d = zlength (List.filter accepted l) /\ delivered d + d_rejected d = zlength l /\
    monitored q' /\
    (blocked d = None -> (forall r, cancelled r = false) -> zlength es <= limit -> view q' = []).
Proof.
  intros Hq Hlim es. destruct (drain_calm now limit cancelled deliver q Hq) as (q' & Hr & Hv & Ho & Hm & _).
  fold es in Hr, Hv, Ho. set (bs := map _ es) in *.
  pose proof (offer_all_prefix cancelled deliver limit bs 0 0) as Hp.
  pose proof (offer_all_limit cancelled deliver limit bs 0 0 Hlim) as Hl0.
  pose proof (offer_all_complete cancelled deliver limit bs 0 0) as Hc.
  destruct (offer_all_shape cancelled deliver limit bs 0 0) as (l & tl & Elog & Hl & Htl).
  rewrite Elog in *. rewrite (settle_count_app l tl Hl Htl) in Hv.
  destruct (tally_app l tl (mkDrained 0 0 None) Hl Htl eq_refl) as (Hd1 & Hd2 & Hd3).
  exists q', (tally (mkDrained 0 0 None) (l ++ tl)), l, tl.
  cbn [delivered d_rejected] in Hd1, Hd2. split_and!; try done; try lia.
  - destruct Htl as [->|(b & e & -> & He)]; [by left|]. right. eauto.
  - rewrite Hd3. intros Hb Hnc Hlen.
    assert (tl = []) as -> by (destruct Htl as [?|(b & e & -> & _)]; [done|discriminate]).
    rewrite app_nil_r in Hc. rewrite Hv, drop_ge; [done|].
    rewrite Hc; [|done| |done]; [unfold bs; by rewrite length_map|].
    unfold bs, zlength in *. rewrite length_map. lia.
Qed.

(** Whatever the machine and other processes do, opening a queue,
    enqueueing and draining change or create no file but those named like an
    entry or a temporary of the queue: a file of any other name is as it was,
    unless another process removed it. *)
Theorem queue_leaves_other_files_alone tmp id body now limit cancelled deliver kind lim is_dir w q :
  0 <= next_sequence q <= U64_MAX -> as_secs (since now 0) < 10 ^ 12 ->
  touches own_name (disk q) (disk (fst (enqueue tmp id body now q))) /\
  touches own_name (disk q) (disk (fst (drain_at_most now limit cancelled deliver q))) /\
  touches own_name w (disk (fst (open kind lim is_dir now w))).
Proof.
  intros Hq Hnow. split; [|split; [|apply open_framed]].
  - destruct (enqueue tmp id body now q) as [q' r] eqn:E.
    by destruct (framed_enqueue tmp id body now Hnow _ _ _ Hq E) as [? _].
  - destruct (drain_at_most now limit cancelled deliver q) as [q' r] eqn:E.
    by destruct (framed_drain now limit cancelled deliver _ _ _ Hq E) as [? _].
Qed.
End theorems.

(** ** A queue of two entries, to evaluate the theorems on *)

Section sample.
#[local] Existing Instance tiny_uuid.
Abbreviation id0 := (U0 : @uuid tiny_uuid).
Abbreviation id1 := (U1 : @uuid tiny_uuid).
Abbreviation id2 := (U2 : @uuid tiny_uuid).
Abbreviation id3 := (U3 : @uuid tiny_uuid).

Definition sample : DiskQueue :=
  mkQueue Observations (mkLimits 2 10 (from_secs 1000)) 5 no_counters None
    (mkWorld (list_to_map
       [(entry_name 3 (from_secs 100) id0, mkFile Regular [1; 2] 0);
        (entry_name 4 (from_secs 200) id1, mkFile Regular [3] 0)]) [] false) [].

Lemma sample_tidy : tidy (files (disk sample)).
Proof.
  assert (map_Forall (fun n f => utf8_valid n = true /\ file_kind f = Regular) (files (disk sample))) as H.
  { apply (bool_decide_unpack _). vm_compute. exact I. }
  intros n f Hf _. exact (H n f Hf).
Qed.

#[local] Lemma sample_view :
  map (fun e => (sequence e, e_bytes e)) (entries_of (files (disk sample))) = [(3, 2); (4, 1)].
Proof. vm_compute. reflexivity. Qed.

Lemma sample_fits : sequences_fit sample.
Proof.
  split; [unfold U64_MAX; simpl; lia|].
  apply (bool_decide_unpack _). vm_compute. exact I.
Qed.

Lemma entry_names_in_order_witness :
  parse_entry_name (entry_name 3 (from_secs 100) id0) = Some (3, from_secs 100) /\
  bytes_leb (entry_name 3 (from_secs 100) id0) (entry_name 10 (from_secs 7) id1) = true /\
  entry_name 3 (from_secs 100) id0 <> entry_name 10 (from_secs 7) id1.
Proof.
  apply (entry_names_in_order 3 (from_secs 100) id0 10 (from_secs 7) id1);
    (vm_compute; repeat split; congruence) || (vm_compute; reflexivity).
Defined.

Lemma write_atomically_atomic_witness :
  let name := entry_name 5 (from_secs 300) id2 in
  let q' := fst (write_atomically id3 (from_secs 300) name [9] sample) in
  files (disk q') !! name = files (disk sample) !! name \/ files (disk q') !! name = None \/
  exists t, files (disk q') !! name = Some (mkFile Regular [9] t).
Proof.
  eapply (write_atomically_atomic id3 (from_secs 300) _ [9] sample).
  - vm_compute. discriminate.
  - apply surjective_pairing.
Defined.

Lemma enqueue_appends_witness :
  exists q', enqueue id3 id2 [7; 8] (from_secs 300) sample = (q', Ok tt) /\
    map sequence (entries_of (files (disk q'))) = [4; 5] /\
    map (body_of (files (disk q'))) (entries_of (files (disk q'))) = [[3]; [7; 8]] /\ monitored q'.
Proof.
  destruct (enqueue_appends id3 id2 [7; 8] (from_secs 300) sample) as (q' & He & Hv & Hb & Hm).
  - done.
  - exact sample_tidy.
  - exact sample_fits.
  - vm_compute. reflexivity.
  - vm_compute. reflexivity.
  - vm_compute. discriminate.
  - exists q'. split; [exact He|]. split; [|split; [|exact Hm]].
    + rewrite Hv. vm_compute. reflexivity.
    + rewrite Hb. vm_compute. reflexivity.
Defined.

Lemma enqueue_within_limits_witness :
  let q' := fst (enqueue id3 id2 [7; 8] (from_secs 300) sample) in
  zlength (entries_of (files (disk q'))) <= 2 /\
  zsum (map e_bytes (entries_of (files (disk q')))) <= 10.
Proof.
  destruct (enqueue_within_limits id3 id2 [7; 8] (from_secs 300) sample
    (fst (enqueue id3 id2 [7; 8] (from_secs 300) sample))) as (H1 & H2 & _).
  - done.
  - exact sample_tidy.
  - exact sample_fits.
  - vm_compute. reflexivity.
  - vm_compute. reflexivity.
  - vm_compute. discriminate.
  - vm_compute. discriminate.
  - vm_compute. reflexivity.
  - split; [exact H1|exact H2].
Defined.

Lemma drain_first_in_first_out_witness :
  exists q' d, drain_at_most (from_secs 300) 10 (fun _ => false) (fun _ _ => Ok tt) sample = (q', Ok d) /\
    map fst (offers q') `prefix_of` [[1; 2]; [3]] /\ delivered d + d_rejected d <= 10.
Proof.
  destruct (drain_first_in_first_out (from_secs 300) 10 (fun _ => false) (fun _ _ => Ok tt) sample)
    as (q' & d & l & tl & Hr & Ho & Hp & Hl & _ & _ & _ & _ & Hd & _).
  - done.
  - lia.
  - exists q', d. split; [exact Hr|]. rewrite Ho. split; [exact Hp|].
    rewrite Hd. unfold zlength in *. rewrite length_app in Hl. lia.
Defined.

Lemma queue_leaves_other_files_alone_witness :
  touches own_name (disk sample) (disk (fst (enqueue id3 id2 [7] (from_secs 300) sample))).
Proof.
  apply (queue_leaves_other_files_alone id3 id2 [7] (from_secs 300) 1 (fun _ => false) (fun _ _ => Ok tt)
    Telemetry telemetry_limits true (disk sample) sample).
  - unfold U64_MAX. simpl. lia.
  - vm_compute. reflexivity.
Defined.
End sample.
