(* ===== verification/QueueLife.v ===== *)
(** * QueueLife: the on-disk queue over its whole life

    [QueueSpec] says what one call does to a directory.  Here the queue is
    used as the agent uses it: entries are put in, passes deliver them, and
    the agent is restarted, in any order and any number.  The abstract queue
    is a list of bodies with the second each was queued; [spec_run] is what a
    reader of the documentation would expect of it, and knows nothing of
    directories, names, sequence numbers or temporary files.  The theorem is
    that the directory implements it: the same answers, and the same bodies
    in the same order, restarts included. *)

From Stdlib Require Import String.
From stdpp Require Import sorting.
From S2P Require Import Prelude Text Fs Interfaces Transport Queue QueueSpec.

(** ** The abstract queue *)

Record item := mkItem { i_at : Z; i_body : bytes }.

#[export] Instance item_eq_dec : EqDecision item.
Proof. solve_decision. Defined.

Definition spec_current (lim : QueueLimits) (now : Z) (s : list item) : list item :=
  List.filter (fun i => negb (max_age lim <? since now (i_at i))) s.

Definition spec_fits (lim : QueueLimits) (size : Z) (s : list item) : bool :=
  (zlength s <? max_entries lim)
  && (zsum (map (fun i => zlength (i_body i)) s) + size <=? max_bytes lim).

(** The newest items that leave room for one of [size] bytes. *)
Fixpoint spec_trim (lim : QueueLimits) (size : Z) (s : list item) : list item :=
  match s with
  | [] => []
  | _ :: s' => if spec_fits lim size s then s else spec_trim lim size s'
  end.

Definition spec_enqueue (lim : QueueLimits) (now : Z) (body : bytes) (s : list item)
  : list item * result unit QueueError :=
  if max_bytes lim <? zlength body
  then (s, Err (QTooLarge (zlength body) (max_bytes lim)))
  else (spec_trim lim (zlength body) (spec_current lim now s)
          ++ [mkItem (from_secs (as_secs (since now 0))) body], Ok tt).

Abbreviation offered := (list (bytes * result unit TransportError)).

Definition spec_drain (lim : QueueLimits) (now limit : Z) (cancelled : nat -> bool)
    (deliver : nat -> bytes -> result unit TransportError) (s : list item)
  : list item * (result Drained QueueError * offered) :=
  let s' := spec_current lim now s in
  let log := offer_all cancelled deliver limit 0 0 (map i_body s') in
  (drop (settle_count log) s', (Ok (tally (mkDrained 0 0 None) log), log)).

(** ** A life: operations and their answers *)

Section life.
Context {U : Uuid}.

Inductive op :=
| OpEnqueue (tmp id : uuid) (body : bytes) (now : Z)
| OpDrain (now limit : Z) (cancelled : nat -> bool)
    (deliver : nat -> bytes -> result unit TransportError)
| OpReopen (now : Z).

Inductive answer :=
| Stored (r : result unit QueueError)
| Passed (r : result Drained QueueError) (sent : offered)
| Reopened (r : result unit QueueError).

(** One operation on the directory.  A restart is [DiskQueue::open] on what
    the last process left there. *)
Definition perform (o : op) (q : DiskQueue) : DiskQueue * answer :=
  match o with
  | OpEnqueue tmp id body now =>
      let '(q', r) := enqueue tmp id body now q in (q', Stored r)
  | OpDrain now limit cancelled deliver =>
      let '(q', r) := drain_at_most now limit cancelled deliver q in
      (q', Passed r (drop (length (offers q)) (offers q')))
  | OpReopen now =>
      let '(q', r) := open (q_kind q) (limits q) true now (disk q) in (q', Reopened r)
  end.

Definition spec_perform (lim : QueueLimits) (o : op) (s : list item) : list item * answer :=
  match o with
  | OpEnqueue _ _ body now =>
      let '(s', r) := spec_enqueue lim now body s in (s', Stored r)
  | OpDrain now limit cancelled deliver =>
      let '(s', (r, log)) := spec_drain lim now limit cancelled deliver s in (s', Passed r log)
  | OpReopen _ => (s, Reopened (Ok tt))
  end.

Definition run_with {S} (f : op -> S -> S * answer) : list op -> S -> S * list answer :=
  fix go ops s :=
    match ops with
    | [] => (s, [])
    | o :: ops' =>
        let '(s', a) := f o s in
        let '(s'', l) := go ops' s' in (s'', a :: l)
    end.

Definition life : list op -> DiskQueue -> DiskQueue * list answer := run_with perform.
Definition spec_life (lim : QueueLimits) : list op -> list item -> list item * list answer :=
  run_with (spec_perform lim).

(** ** The abstraction and its invariant *)

Abbreviation view q := (entries_of (files (disk q))).

Definition item_of (m : gmap bytes file) (e : Entry) : item := mkItem (queued_at e) (body_of m e).

(** What a directory means. *)
Definition meaning (q : DiskQueue) : list item := map (item_of (files (disk q))) (view q).

(** No temporary file is left behind. *)
Definition swept (m : gmap bytes file) : Prop := forall n f,
  m !! n = Some f -> starts_with TEMPORARY_PREFIX n = false.

(** A queue whose sequence numbers are below [n]. *)
Record good (n : Z) (q : DiskQueue) : Prop := mkGood {
  good_calm : calm_queue q;
  good_tidy : tidy (files (disk q));
  good_swept : swept (files (disk q));
  good_next : 0 <= next_sequence q <= n;
  good_sequences : Forall (fun e => 0 <= sequence e < n) (view q) }.

(** An operation whose time fits the twelve digits of an entry's name. *)
Definition timely (o : op) : Prop :=
  match o with OpEnqueue _ _ _ now => as_secs (since now 0) < 10 ^ 12 | _ => True end.

#[export] Instance timely_dec o : Decision (timely o).
Proof. destruct o; simpl; apply _. Defined.

Lemma good_fits n q : n <= U64_MAX -> good n q -> sequences_fit q.
Proof.
  intros Hn [_ _ _ H1 H2]. split; [lia|]. eapply List.Forall_impl; [|exact H2]. cbn beta. lia.
Qed.

Lemma swept_no_temporary m tmp : swept m -> m !! (TEMPORARY_PREFIX ++ uuid_show tmp) = None.
Proof.
  intros Hs. apply eq_None_not_Some. intros [f Hf]. apply Hs in Hf.
  enough (starts_with TEMPORARY_PREFIX (TEMPORARY_PREFIX ++ uuid_show tmp) = true) by congruence.
  apply starts_with_spec. eauto.
Qed.

(** ** The abstraction commutes with expiry and with making room *)

Lemma item_size m e : e ∈ entries_of m -> zlength (i_body (item_of m e)) = e_bytes e.
Proof.
  intros (f & Hf & He)%elem_of_entries_of. apply entry_of_Some in He as (_ & _ & -> & _).
  cbn [item_of i_body]. unfold body_of. by rewrite Hf.
Qed.

Lemma current_items m lim now es :
  spec_current lim now (map (item_of m) es) = map (item_of m) (current lim now es).
Proof.
  unfold spec_current, current, too_old, age. induction es as [|e es IH]; [done|].
  cbn [map List.filter item_of i_at]. destruct (negb _); [|done]. cbn [map]. by f_equal.
Qed.

Lemma sizes_items m es :
  Forall (fun e => e ∈ entries_of m) es ->
  map (fun i => zlength (i_body i)) (map (item_of m) es) = map e_bytes es.
Proof.
  induction 1 as [|e es He _ IH]; [done|]. cbn [map]. by rewrite item_size, IH.
Qed.

Lemma trim_items m lim size es :
  Forall (fun e => e ∈ entries_of m) es ->
  spec_trim lim size (map (item_of m) es) = map (item_of m) (drop (room lim size es) es).
Proof.
  induction 1 as [|e es He Hes IH]; [done|]. cbn [map spec_trim room].
  assert (spec_fits lim size (item_of m e :: map (item_of m) es) = fits lim size (e :: es)) as ->.
  { unfold spec_fits, fits. change (item_of m e :: map (item_of m) es) with (map (item_of m) (e :: es)).
    rewrite sizes_items by by constructor. unfold zlength. by rewrite length_map. }
  destruct (fits _ _ _); [done|]. exact IH.
Qed.

Lemma current_in lim now m : Forall (fun e => e ∈ entries_of m) (current lim now (entries_of m)).
Proof. apply List.Forall_forall. intros e He%list_elem_of_In. by eapply elem_of_current. Qed.

(** The meaning of a directory, from its entries' seconds and bodies. *)
Lemma items_zip m es :
  map (item_of m) es = zip_with mkItem (map queued_at es) (map (body_of m) es).
Proof. induction es as [|e es IH]; [done|]. cbn. by rewrite IH. Qed.

(** ** Each operation implements its specification *)

(** What removing files keeps. *)
Lemma tidy_sub m m' : m' ⊆ m -> tidy m -> tidy m'.
Proof. intros Hs Ht k f Hk. apply Ht. by eapply lookup_weaken. Qed.

Lemma swept_sub m m' : m' ⊆ m -> swept m -> swept m'.
Proof. intros Hs Ht k f Hk. eapply Ht. by eapply lookup_weaken. Qed.

Lemma entry_name_swept s t id :
  0 <= s <= U64_MAX -> as_secs (since t 0) < 10 ^ 12 ->
  starts_with TEMPORARY_PREFIX (entry_name s t id) = false.
Proof.
  intros Hs Ht. destruct (starts_with _ _) eqn:E; [|done].
  apply starts_with_spec in E as [r E]. by apply entry_name_not_temporary in E.
Qed.

Lemma new_sequence n q id body now :
  n <= U64_MAX -> good n q -> 0 <= sequence (new_entry q id body now) <= n.
Proof.
  intros Hn [_ _ _ H1 H2]. cbn [new_entry sequence]. unfold next_of.
  destruct (last_opt _) as [x|] eqn:Hl; [|lia].
  apply last_opt_elem, elem_of_current, list_elem_of_In in Hl. rewrite List.Forall_forall in H2.
  specialize (H2 x Hl). lia.
Qed.

Lemma enqueued_good n q id body now :
  n < U64_MAX -> good n q -> as_secs (since now 0) < 10 ^ 12 ->
  good (n + 1) (enqueued id body now q).
Proof.
  intros Hn Hg Hnow. pose proof (new_sequence n q id body now ltac:(lia) Hg) as Hseq.
  pose proof (good_fits n q ltac:(lia) Hg) as Hfit. destruct Hg as [Hc Ht Hs Hx Hv].
  assert (files (disk (trimmed now (zlength body) q)) ⊆ files (disk q)) as Hsub.
  { apply map_subseteq_spec. intros k f. apply trimmed_sub. }
  pose proof (tidy_sub _ _ Hsub Ht) as Ht'. pose proof (swept_sub _ _ Hsub Hs) as Hs'.
  split.
  - exact (trimmed_calm now (zlength body) q Hc).
  - rewrite enqueued_files. intros k f [[<- <-]|[_ Hk]]%lookup_insert_Some; [|by apply Ht'].
    intros _. split; [|done]. apply entry_name_utf8; [|done]. cbn [new_entry sequence] in Hseq. lia.
  - rewrite enqueued_files. intros k f [[<- _]|[_ Hk]]%lookup_insert_Some; [|by eapply Hs'].
    apply entry_name_swept; [|done]. cbn [new_entry sequence] in Hseq. lia.
  - change (0 <= wrap 64 (sequence (new_entry q id body now) + 1) <= n + 1). unfold wrap.
    rewrite Z.mod_small; unfold U64_MAX in *; lia.
  - rewrite enqueued_view by (done || by apply next_of_bound). apply Forall_app; split.
    + apply List.Forall_forall. intros e He%list_elem_of_In%elem_of_kept%elem_of_current%list_elem_of_In.
      rewrite List.Forall_forall in Hv. specialize (Hv e He). lia.
    + constructor; [lia|constructor].
Qed.

Lemma enqueued_meaning n q id body now :
  n <= U64_MAX -> good n q -> as_secs (since now 0) < 10 ^ 12 ->
  meaning (enqueued id body now q)
  = spec_trim (limits q) (zlength body) (spec_current (limits q) now (meaning q))
      ++ [mkItem (from_secs (as_secs (since now 0))) body].
Proof.
  intros Hn Hg Hnow. pose proof (good_fits n q Hn Hg) as Hfit. destruct Hg as [Hc Ht Hs Hx Hv].
  unfold meaning at 1. rewrite items_zip, enqueued_contents by done.
  rewrite enqueued_view by (done || by apply next_of_bound).
  unfold meaning. rewrite current_items, trim_items by apply current_in.
  fold (kept now (zlength body) q). rewrite map_app, zip_with_app by (by rewrite !length_map).
  by rewrite <- items_zip.
Qed.

Lemma enqueue_step n q tmp id body now :
  n < U64_MAX -> good n q -> as_secs (since now 0) < 10 ^ 12 ->
  let '(q', a) := perform (OpEnqueue tmp id body now) q in
  (meaning q', a) = spec_perform (limits q) (OpEnqueue tmp id body now) (meaning q) /\
  good (n + 1) q' /\ limits q' = limits q.
Proof.
  intros Hn Hg Hnow. cbn [perform spec_perform]. unfold spec_enqueue.
  destruct (Z.ltb_spec (max_bytes (limits q)) (zlength body)) as [Hbig|Hsize].
  - unfold enqueue, st_bind at 1, st_get. apply Z.ltb_lt in Hbig. rewrite Hbig. cbn.
    split; [done|]. split; [|done]. destruct Hg as [Hc Ht Hs Hx Hv]. split; try done; [lia|].
    eapply List.Forall_impl; [|exact Hv]. cbn beta. lia.
  - rewrite enqueue_calm; [|apply Hg|apply Hg|by eapply good_fits; [|exact Hg]; lia|done|
      apply swept_no_temporary; apply Hg|done].
    split; [|split; [by apply enqueued_good|]].
    + rewrite (enqueued_meaning n) by (done || lia). done.
    + exact (proj1 (trimmed_fixed now (zlength body) q)).
Qed.

Lemma drain_step n q now limit cancelled deliver :
  good n q ->
  let '(q', a) := perform (OpDrain now limit cancelled deliver) q in
  (meaning q', a) = spec_perform (limits q) (OpDrain now limit cancelled deliver) (meaning q) /\
  good n q' /\ limits q' = limits q.
Proof.
  intros [Hc Ht Hs Hx Hv]. cbn [perform spec_perform]. unfold spec_drain.
  destruct (drain_calm now limit cancelled deliver q Hc)
    as (q' & -> & Hv' & Ho & _ & Hc' & Hsub & Hl & Hnx).
  set (es := current (limits q) now (view q)) in *.
  assert (spec_current (limits q) now (meaning q) = map (item_of (files (disk q))) es) as ->
    by apply current_items.
  rewrite map_map. cbn [item_of i_body].
  change (map (fun x => body_of (files (disk q)) x) es) with (map (body_of (files (disk q))) es).
  set (log := offer_all _ _ _ _ _ _) in *. split; [|split; [|done]].
  - rewrite Ho, drop_app_length. f_equal. unfold meaning. rewrite Hv', skipn_map.
    apply map_ext_in. intros e He%list_elem_of_In. unfold item_of, body_of. f_equal.
    rewrite <- Hv' in He. apply elem_of_entries_of in He as (f & Hf & _).
    by rewrite Hf, (lookup_weaken _ _ _ _ Hf Hsub).
  - split; [done|by eapply tidy_sub|by eapply swept_sub|by rewrite Hnx|].
    rewrite Hv'. apply List.Forall_forall. intros e He%list_elem_of_In.
    rewrite List.Forall_forall in Hv. apply Hv, list_elem_of_In.
    apply (elem_of_current (limits q) now). fold es. rewrite <- (take_drop (settle_count log) es).
    apply elem_of_app. by right.
Qed.

(** Opening a directory with no temporary files finds the entries and
    touches nothing. *)
Lemma remove_abandoned_swept now names q :
  Forall (fun n => starts_with TEMPORARY_PREFIX n = false) names ->
  remove_abandoned now names q = (q, Ok tt).
Proof.
  induction 1 as [|x names Hx _ IH]; [done|]. cbn [remove_abandoned].
  by rewrite Hx, andb_false_r.
Qed.

Lemma open_calm kind lim now w :
  calm w -> swept (files w) ->
  let q0 := mkQueue kind lim 0 no_counters None w [] in
  open kind lim true now w
  = (published (set_next_sequence
       (match last_opt (entries_of (files w)) with Some e => wrap 64 (sequence e + 1) | None => 0 end) q0),
     Ok tt).
Proof.
  intros Hc Hs q0. unfold open. fold q0.
  assert (forall action, directory_call action q0 = (q0, Ok tt)) as Hd.
  { intros action. unfold directory_call, on_disk_or, on_disk, st_bind. by rewrite fs_call_calm. }
  unfold st_bind. rewrite !Hd. cbn [negb]. rewrite !Hd.
  unfold remove_abandoned_temporaries, on_disk_or, on_disk, st_bind, read_dir.
  rewrite fs_call_calm by done. unfold st_ret. rewrite set_disk_id, remove_abandoned_swept.
  - rewrite entries_calm by done. unfold st_modify. by rewrite publish_health_calm.
  - apply List.Forall_forall. intros x Hx. apply in_map_iff in Hx as ([k f] & <- & Hx%list_elem_of_In).
    apply elem_of_map_to_list in Hx. by eapply Hs.
Qed.

Lemma reopen_step n q now :
  n <= U64_MAX -> good n q ->
  let '(q', a) := perform (OpReopen now) q in
  (meaning q', a) = spec_perform (limits q) (OpReopen now) (meaning q) /\
  good n q' /\ limits q' = limits q.
Proof.
  intros Hn [Hc Ht Hs Hx Hv]. cbn [perform spec_perform]. rewrite open_calm by done.
  split; [done|]. split; [|done]. split; [done..| |done].
  cbn [next_sequence published set_monitor set_next_sequence].
  destruct (last_opt _) as [e|] eqn:Hl; [|lia].
  apply last_opt_elem, list_elem_of_In in Hl. rewrite List.Forall_forall in Hv. specialize (Hv e Hl).
  unfold wrap. rewrite Z.mod_small; unfold U64_MAX in *; lia.
Qed.

Lemma good_mono n n' q : n <= n' -> good n q -> good n' q.
Proof.
  intros Hn [Hc Ht Hs Hx Hv]. split; try done; [lia|].
  eapply List.Forall_impl; [|exact Hv]. cbn beta. lia.
Qed.

Lemma perform_step n q o :
  n < U64_MAX -> good n q -> timely o ->
  let '(q', a) := perform o q in
  (meaning q', a) = spec_perform (limits q) o (meaning q) /\ good (n + 1) q' /\ limits q' = limits q.
Proof.
  intros Hn Hg Ho. destruct o as [tmp id body now|now limit cancelled deliver|now].
  - by apply enqueue_step.
  - pose proof (drain_step n q now limit cancelled deliver Hg) as H.
    destruct (perform _ q) as [q' a]. destruct H as (H1 & H2 & H3). split_and!; [done| |done].
    eapply good_mono; [|exact H2]. lia.
  - pose proof (reopen_step n q now ltac:(lia) Hg) as H.
    destruct (perform _ q) as [q' a]. destruct H as (H1 & H2 & H3). split_and!; [done| |done].
    eapply good_mono; [|exact H2]. lia.
Qed.

(** C2. The queue's contract over its whole life: start from a
    directory the queue left and perform any sequence of [enqueue],
    [drain_at_most] and restarts on an undisturbed machine.  Every answer, what
    was handed to the transport included, is the abstract queue's, and the
    directory then means the abstract queue's list: each body once, in the
    order put in, with the second it was queued.  A restart changes
    nothing.  No file but entries is left behind.  The bound says that the
    sequence numbers, which start at most at [n] and grow by one per
    operation, do not leave [u64]. *)
Theorem queue_implements_list ops : forall n q,
  good n q -> n + zlength ops <= U64_MAX -> Forall timely ops ->
  let '(q', answers) := life ops q in
  (meaning q', answers) = spec_life (limits q) ops (meaning q) /\
  good (n + zlength ops) q' /\ limits q' = limits q.
Proof.
  induction ops as [|o ops IH]; intros n q Hg Hn Ht.
  { cbn. split; [done|]. split; [|done]. eapply good_mono; [|exact Hg]. unfold zlength. simpl. lia. }
  assert (zlength (o :: ops) = zlength ops + 1) as Hlen by (unfold zlength; simpl; lia).
  assert (0 <= zlength ops) by (unfold zlength; lia).
  inversion Ht as [|? ? Ho Hops]; subst. cbn [life spec_life run_with].
  pose proof (perform_step n q o ltac:(lia) Hg Ho) as Hstep.
  destruct (perform o q) as [q1 a]. destruct Hstep as (E1 & Hg1 & Hl1).
  specialize (IH (n + 1) q1 Hg1 ltac:(lia) Hops). rewrite Hl1 in IH.
  rewrite <- E1. fold (life ops q1). destruct (life ops q1) as [q2 l]. destruct IH as (E2 & Hg2 & Hl2).
  fold (spec_life (limits q) ops (meaning q1)). rewrite <- E2.
  split; [done|]. split; [|done]. replace (n + zlength (o :: ops)) with (n + 1 + zlength ops) by lia. done.
Qed.
End life.

(** ** A short life, to evaluate the theorem on *)

Section sample.
#[local] Existing Instance tiny_uuid.
Abbreviation id0 := (U0 : @uuid tiny_uuid).
Abbreviation id2 := (U2 : @uuid tiny_uuid).
Abbreviation id3 := (U3 : @uuid tiny_uuid).

Lemma sample_good : good 5 sample.
Proof.
  split; [done|exact sample_tidy| |simpl; lia|].
  - assert (map_Forall (fun n _ => starts_with TEMPORARY_PREFIX n = false) (files (disk sample))) as H.
    { apply (bool_decide_unpack _). vm_compute. exact I. }
    intros n f Hf. exact (H n f Hf).
  - apply (bool_decide_unpack _). vm_compute. exact I.
Qed.

(** A third body pushes out the oldest, a restart keeps both, one is
    delivered, and one too large for the queue is refused. *)
Definition sample_life : list op :=
  [OpEnqueue id3 id2 [7; 8] (from_secs 300); OpReopen (from_secs 310);
   OpDrain (from_secs 320) 1 (fun _ => false) (fun _ _ => Ok tt);
   OpEnqueue id3 id0 (repeat 1 11) (from_secs 330)].

Lemma queue_implements_list_witness :
  let '(q', answers) := life sample_life sample in
  meaning q' = [mkItem (from_secs 300) [7; 8]] /\
  answers = [Stored (Ok tt); Reopened (Ok tt); Passed (Ok (mkDrained 1 0 None)) [([3], Ok tt)];
             Stored (Err (QTooLarge 11 10))].
Proof.
  pose proof (queue_implements_list sample_life 5 sample sample_good) as H.
  destruct (life sample_life sample) as [q' answers]. destruct H as [E _].
  - vm_compute. discriminate.
  - apply (bool_decide_unpack _). vm_compute. exact I.
  - assert (spec_life (limits sample) sample_life (meaning sample)
      = ([mkItem (from_secs 300) [7; 8]],
         [Stored (Ok tt); Reopened (Ok tt); Passed (Ok (mkDrained 1 0 None)) [([3], Ok tt)];
          Stored (Err (QTooLarge 11 10))])) as E' by (vm_compute; reflexivity).
    rewrite E' in E. injection E as -> ->. split; reflexivity.
Defined.
End sample.
