(* ===== verification/Scheduler.v ===== *)
(** * scheduler.rs and cancellation.rs: when the daemon does what

    Instants count nanoseconds.  [Instant + Duration] panics when it overflows,
    so the operations that add return [None] there. *)

From S2P Require Import Prelude.

(** ** cancellation.rs *)

(** The flag shared by the clones of a [Cancellation] is the state; the deadline
    is a field. *)
Record Cancellation := mkCancellation { cancel_flag : bool; cancel_deadline : option Z }.

Definition not_cancelled : Cancellation := mkCancellation false None.
Definition with_deadline (deadline : Z) : Cancellation := mkCancellation false (Some deadline).
Definition cancel (c : Cancellation) : Cancellation := mkCancellation true (cancel_deadline c).
Definition cancelled (c : Cancellation) (now : Z) : bool :=
  cancel_flag c || match cancel_deadline c with Some deadline => deadline <=? now | None => false end.

(** ** scheduler.rs *)

Inductive Job := CheckIn | Inventory | Reload | Flush.

#[export] Instance Job_eq_dec : EqDecision Job.
Proof. solve_decision. Defined.

Record Scheduler := mkScheduler { checkin : Z; inventory : Z; reload : Z; flush : Z }.

Definition new (now checkin inventory reload flush : Z) : option Scheduler :=
  let+ checkin := checked_add_instant now checkin in
  let+ inventory := checked_add_instant now inventory in
  let+ reload := checked_add_instant now reload in
  let+ flush := checked_add_instant now flush in
  Some (mkScheduler checkin inventory reload flush).

Definition due (s : Scheduler) (now : Z) : list Job :=
  omap (fun '(job, at_) => if at_ <=? now then Some job else None)
    [(CheckIn, checkin s); (Inventory, inventory s); (Reload, reload s); (Flush, flush s)].

(** The iterator asks [stopped] again before each job it yields: [stopped i]
    is the answer before job [i]. *)
Fixpoint take_while_running (stopped : nat -> bool) (i : nat) (jobs : list Job) : list Job :=
  match jobs with
  | [] => []
  | job :: jobs' => if negb (stopped i) then job :: take_while_running stopped (S i) jobs' else []
  end.

Definition due_until_cancelled (s : Scheduler) (now : Z) (stopped : nat -> bool) : list Job :=
  take_while_running stopped 0 (due s now).

Definition reschedule (s : Scheduler) (job : Job) (now interval : Z) : option Scheduler :=
  let+ next := checked_add_instant now interval in
  Some match job with
  | CheckIn => mkScheduler next (inventory s) (reload s) (flush s)
  | Inventory => mkScheduler (checkin s) next (reload s) (flush s)
  | Reload => mkScheduler (checkin s) (inventory s) next (flush s)
  | Flush => mkScheduler (checkin s) (inventory s) (reload s) next
  end.

Definition refresh_intervals (s : Scheduler) (now old_checkin new_checkin old_inventory new_inventory : Z)
  : option Scheduler :=
  let+ s :=
    if negb (old_checkin =? new_checkin)
    then let+ next := checked_add_instant now new_checkin in
         Some (mkScheduler (Z.min (checkin s) next) (inventory s) (reload s) (flush s))
    else Some s in
  if negb (old_inventory =? new_inventory)
  then reschedule s Inventory now new_inventory
  else Some s.

Definition wait (s : Scheduler) (now : Z) : Z :=
  since (Z.min (Z.min (Z.min (checkin s) (inventory s)) (reload s)) (flush s)) now.

(** When a job is next due. *)
Definition at_of (s : Scheduler) (job : Job) : Z :=
  match job with
  | CheckIn => checkin s
  | Inventory => inventory s
  | Reload => reload s
  | Flush => flush s
  end.

Lemma elem_of_due s now job : job ∈ due s now <-> at_of s job <= now.
Proof.
  unfold due. rewrite list_elem_of_omap. split.
  - intros ([j t] & Hin & Hj). destruct (Z.leb_spec t now); [|done]. injection Hj as ->.
    repeat (apply elem_of_cons in Hin as [[= -> ->]|Hin]; [done|]). by inversion Hin.
  - intros H. exists (job, at_of s job). split; [destruct job; set_solver|].
    apply Z.leb_le in H. by rewrite H.
Qed.

Lemma due_nil s now : due s now = [] <-> forall job, now < at_of s job.
Proof.
  split.
  - intros E job. destruct (Z.lt_ge_cases now (at_of s job)) as [?|H]; [done|].
    apply elem_of_due in H. rewrite E in H. by inversion H.
  - intros H. destruct (due s now) as [|j l] eqn:E; [done|].
    assert (j ∈ due s now) as Hj%elem_of_due by (rewrite E; left). specialize (H j). lia.
Qed.

Lemma min_at_of s : exists job, forall job', at_of s job <= at_of s job' /\
  at_of s job = Z.min (Z.min (Z.min (checkin s) (inventory s)) (reload s)) (flush s).
Proof.
  destruct (Z.min_spec (checkin s) (inventory s)), (Z.min_spec (Z.min (checkin s) (inventory s)) (reload s)),
    (Z.min_spec (Z.min (Z.min (checkin s) (inventory s)) (reload s)) (flush s));
    first [exists CheckIn; intros []; simpl; lia | exists Inventory; intros []; simpl; lia
          |exists Reload; intros []; simpl; lia | exists Flush; intros []; simpl; lia].
Qed.

(** The daemon sleeps exactly until there is work: nothing is due before
    [wait] has passed, something is due once it has, and [wait] is zero exactly
    when something is due already.  [due] lists each due job once, in a fixed
    order. *)
Theorem wait_until_due s now :
  (forall t, now <= t < now + wait s now -> due s t = []) /\
  due s (now + wait s now) <> [] /\
  (wait s now = 0 <-> due s now <> []) /\
  (forall t job, job ∈ due s t <-> at_of s job <= t) /\
  (forall t, due s t `sublist_of` [CheckIn; Inventory; Reload; Flush]).
Proof.
  destruct (min_at_of s) as (j & Hj). unfold wait, since.
  destruct (Hj CheckIn) as [_ E]. rewrite <- E.
  assert (forall t, due s t <> [] <-> at_of s j <= t) as Hd.
  { intros t. rewrite due_nil. split.
    - intros H. destruct (Z.le_gt_cases (at_of s j) t) as [?|Hlt]; [done|]. exfalso. apply H.
      intros job. destruct (Hj job). lia.
    - intros Hle H. specialize (H j). lia. }
  split_and!.
  - intros t Ht. apply due_nil. intros job. destruct (Hj job). lia.
  - apply Hd. lia.
  - rewrite Hd. lia.
  - apply elem_of_due.
  - intros t. unfold due. simpl. repeat case_match; simplify_eq; by repeat constructor.
Qed.

(** A configuration reload never postpones a promised check-in: after
    [refresh_intervals] the next check-in is no later than before, and no later
    than the new interval from now if that changed; the inventory moves only if
    its interval changed, and the other jobs keep their times. *)
Theorem refresh_never_postpones_checkin s now oc nc oi ni s' :
  refresh_intervals s now oc nc oi ni = Some s' ->
  checkin s' <= checkin s /\
  (oc <> nc -> checkin s' <= now + nc) /\ (oc = nc -> checkin s' = checkin s) /\
  inventory s' = (if decide (oi = ni) then inventory s else now + ni) /\
  reload s' = reload s /\ flush s' = flush s.
Proof.
  unfold refresh_intervals, reschedule, checked_add_instant.
  destruct (Z.eqb_spec oc nc), (Z.eqb_spec oi ni); cbn [negb mbind option_bind];
    repeat (destruct (_ <=? _); cbn [mbind option_bind]; try discriminate);
    intros [= <-]; cbn [checkin inventory reload flush];
    (destruct (decide _); [|]); split_and!; try done; try lia.
Qed.

Lemma refresh_never_postpones_checkin_witness :
  exists s', refresh_intervals (mkScheduler 50 60 70 80) 10 30 5 40 40 = Some s' /\ checkin s' <= 15.
Proof.
  eexists. split; [vm_compute; reflexivity|].
  apply (refresh_never_postpones_checkin (mkScheduler 50 60 70 80) 10 30 5 40 40);
    [vm_compute; reflexivity|lia].
Defined.
