(* ===== verification/JobRecord.v ===== *)
(** * jobs/record.rs: the durable record of started jobs

    The state is the list of records in memory and the state directory.  Every
    change is made in memory and then persisted by writing a temporary file and
    renaming it over [jobs.json].  As in the source, a change that cannot be
    persisted stays in memory.  JSON encoding is serde's: an interface with its
    round trip.  Times are nanoseconds. *)

From Stdlib Require Import String.
From S2P Require Import Prelude Text Interfaces Fs Jobs.

Definition RECORD_FILE : bytes := lit "jobs.json".
Definition TEMPORARY_PREFIX : bytes := lit ".jobs.json.".
Definition MAX_RECORDS : nat := 128.
Definition RETENTION : Z := from_secs (8 * 24 * 60 * 60).

(** payload.rs: [ReportType] and [terminal]. *)
Inductive ReportType := Started | Progress | Output | Succeeded | Failed | Cancelled.

Definition terminal (t : ReportType) : bool :=
  match t with Succeeded | Failed | Cancelled => true | _ => false end.

Section record.
Context {U : Uuid} {J : Json}.

Record Outcome := mkOutcome { outcome_kind : ReportType; payload : json }.

Record JobRecord := mkRecord {
  job_id : uuid;
  capability : bytes;
  rec_retry_class : RetryClass;
  started_at : Z;
  outcome : option Outcome;
  confirmed : bool }.

(** [serde_json::to_vec] and [from_slice] of the derived format. *)
Class RecordCodec := {
  encode_records : list JobRecord -> option bytes;
  decode_records : bytes -> option (list JobRecord);
  decode_encode : forall l b, encode_records l = Some b -> decode_records b = Some l }.

Record JobRecords := mkRecords { directory : world; records : list JobRecord }.

Inductive RecordError :=
| RecordIo (action : bytes) (kind : io_kind)
| RecordFull
| RecordOverfull
| RecordEncode
| NeverStarted (id : uuid)
| NoOutcome (id : uuid).
End record.

Section operations.
Context {U : Uuid} {J : Json} {C : RecordCodec}.

Abbreviation record_m := (ST JobRecords RecordError).

Definition set_directory (w : world) (s : JobRecords) : JobRecords := mkRecords w (records s).
Definition set_records (l : list JobRecord) (s : JobRecords) : JobRecords := mkRecords (directory s) l.

Definition on_directory {A} (m : fs A) : record_m (result A io_kind) := fun s =>
  let '(w, r) := m (directory s) in (set_directory w s, Ok r).
Definition on_directory_or {A} (action : string) (m : fs A) : record_m A :=
  let* r := on_directory m in
  match r with
  | Ok a => st_ret a
  | Err k => st_err (RecordIo (lit action) k)
  end.

(** [remove_abandoned_temporaries], errors ignored. *)
Fixpoint remove_named (names : list bytes) (w : world) : world :=
  match names with
  | [] => w
  | name :: names' =>
      let w := if utf8_valid name && starts_with TEMPORARY_PREFIX name
               then fst (remove_file name w) else w in
      remove_named names' w
  end.

Definition remove_abandoned_temporaries (w : world) : world :=
  match read_dir w with
  | (w', Ok names) => remove_named names w'
  | (w', Err _) => w'
  end.

Definition open (w : world) : world * result JobRecords RecordError :=
  let with_records l w :=
    let w' := remove_abandoned_temporaries w in (w', Ok (mkRecords w' l)) in
  match read_file RECORD_FILE w with
  | (w', Ok body) =>
      with_records (match decode_records body with Some l => l | None => [] end) w'
  | (w', Err NotFound) => with_records [] w'
  | (w', Err k) => (w', Err (RecordIo (lit "read job record") k))
  end.

Definition has_id (id : uuid) (r : JobRecord) : bool := bool_decide (job_id r = id).

Definition get (id : uuid) (s : JobRecords) : option JobRecord := find_by (has_id id) (records s).

Definition live (now : Z) (r : JobRecord) : bool := now - started_at r <? RETENTION.
Definition remove_expired (now : Z) (s : JobRecords) : JobRecords :=
  set_records (List.filter (live now) (records s)) s.

Definition evict_confirmed (l : list JobRecord) : option (list JobRecord) :=
  (fun i => vec_remove i l) <$> position confirmed l.

(** The loop of [persist]; each turn removes one record, so the number of
    records is fuel enough.  Records evicted before a failure stay evicted. *)
Fixpoint evict_excess (fuel : nat) (l : list JobRecord) : list JobRecord * bool :=
  if Nat.ltb MAX_RECORDS (length l) then
    match fuel, evict_confirmed l with
    | S fuel', Some l' => evict_excess fuel' l'
    | _, _ => (l, false)
    end
  else (l, true).

Definition write_record (tmp : uuid) (now : Z) (body : bytes) : record_m unit :=
  let temporary := TEMPORARY_PREFIX ++ uuid_show tmp in
  let* r := st_catch (
    let* _ := on_directory_or "create job record" (create_new now temporary) in
    let* _ := on_directory_or "write job record" (write_and_sync now temporary body) in
    let* _ := on_directory_or "persist job record" (rename temporary RECORD_FILE) in
    on_directory_or "sync state directory" sync_dir) in
  match r with
  | Ok _ => st_ret tt
  | Err e =>
      let* _ := on_directory (remove_file temporary) in
      st_err e
  end.

Definition persist (tmp : uuid) (now : Z) : record_m unit :=
  let* _ := st_modify (remove_expired now) in
  let* s := st_get in
  let '(l, ok) := evict_excess (length (records s)) (records s) in
  let* _ := st_modify (set_records l) in
  if negb ok then st_err RecordOverfull
  else
    match encode_records l with
    | None => st_err RecordEncode
    | Some body => write_record tmp now body
    end.

Definition start (tmp id : uuid) (cap : bytes) (retry : RetryClass) (now : Z) : record_m unit :=
  let* _ := st_modify (remove_expired now) in
  let* s := st_get in
  let replacing := existsb (has_id id) (records s) in
  let* _ :=
    if negb replacing && (Nat.leb MAX_RECORDS (length (records s))) then
      match evict_confirmed (records s) with
      | Some l => st_modify (set_records l)
      | None => st_err RecordFull
      end
    else st_ret tt in
  let* _ := st_modify (fun s => set_records (List.filter (fun r => negb (has_id id r)) (records s)
                                  ++ [mkRecord id cap retry now None false]) s) in
  persist tmp now.

(** [iter_mut().find(..)] with a change of the record found. *)
Fixpoint update_first (p : JobRecord -> bool) (f : JobRecord -> JobRecord) (l : list JobRecord)
  : list JobRecord :=
  match l with
  | [] => []
  | r :: l' => if p r then f r :: l' else r :: update_first p f l'
  end.

Definition with_outcome (o : Outcome) (r : JobRecord) : JobRecord :=
  mkRecord (job_id r) (capability r) (rec_retry_class r) (started_at r) (Some o) false.
Definition acknowledged (r : JobRecord) : JobRecord :=
  mkRecord (job_id r) (capability r) (rec_retry_class r) (started_at r) (outcome r) true.

Definition finish (tmp id : uuid) (o : Outcome) (now : Z) : record_m unit :=
  let* s := st_get in
  match get id s with
  | Some _ =>
      let* _ := st_modify (fun s => set_records (update_first (has_id id) (with_outcome o) (records s)) s) in
      persist tmp now
  | None => st_err (NeverStarted id)
  end.

Definition confirm (tmp id : uuid) (now : Z) : record_m unit :=
  let* s := st_get in
  match get id s with
  | Some r =>
      match outcome r with
      | Some _ =>
          let* _ := st_modify (fun s => set_records (update_first (has_id id) acknowledged (records s)) s) in
          persist tmp now
      | None => st_err (NoOutcome id)
      end
  | None => st_err (NeverStarted id)
  end.
End operations.

(** ** Eviction *)

Section eviction.
Context {U : Uuid} {J : Json}.
Implicit Types l : list JobRecord.

Lemma evict_confirmed_spec l l' :
  evict_confirmed l = Some l' ->
  exists l1 r l2, l = l1 ++ r :: l2 /\ confirmed r = true /\ l' = l1 ++ l2.
Proof.
  unfold evict_confirmed. destruct (position confirmed l) as [i|] eqn:Hi; [|done]. intros [= <-].
  apply position_Some in Hi as (r & Hr & Hc & _).
  exists (take i l), r, (drop (S i) l). split; [by apply vec_remove_split|]. done.
Qed.

(** What eviction may do to the list: drop confirmed records. *)
Definition drops_confirmed l l' : Prop :=
  l' `sublist_of` l /\ forall r, r ∈ l -> confirmed r = false -> r ∈ l'.

Lemma drops_confirmed_refl l : drops_confirmed l l.
Proof. split; auto. Qed.

Lemma drops_confirmed_trans l1 l2 l3 :
  drops_confirmed l1 l2 -> drops_confirmed l2 l3 -> drops_confirmed l1 l3.
Proof. intros [? ?] [? ?]. split; [by etrans|auto]. Qed.

Lemma evict_confirmed_drops l l' :
  evict_confirmed l = Some l' -> drops_confirmed l l' /\ length l = S (length l').
Proof.
  intros (l1 & r & l2 & -> & Hc & ->)%evict_confirmed_spec. split; [split|].
  - apply sublist_app; [done|]. by constructor.
  - intros x Hx Hcx. rewrite elem_of_app, elem_of_cons in Hx.
    destruct Hx as [?|[->|?]]; [set_solver|congruence|set_solver].
  - rewrite !length_app. simpl. lia.
Qed.

Lemma evict_excess_drops fuel : forall l, drops_confirmed l (fst (evict_excess fuel l)).
Proof.
  induction fuel as [|fuel IH]; intros l; simpl; destruct (Nat.ltb _ _);
    try apply drops_confirmed_refl.
  destruct (evict_confirmed l) as [l'|] eqn:E; [|apply drops_confirmed_refl].
  apply evict_confirmed_drops in E as [E _]. by eapply drops_confirmed_trans.
Qed.

Lemma evict_excess_bounded fuel : forall l,
  snd (evict_excess fuel l) = true -> (length (fst (evict_excess fuel l)) <= MAX_RECORDS)%nat.
Proof.
  induction fuel as [|fuel IH]; intros l; simpl; destruct (Nat.ltb_spec MAX_RECORDS (length l)); try done.
  destruct (evict_confirmed l) as [l'|]; [apply IH|done].
Qed.

(** The loop fails only when more records than fit are unresolved: the fuel
    is never what stops it. *)
Lemma evict_excess_fails fuel : forall l,
  (length l <= fuel)%nat -> snd (evict_excess fuel l) = false ->
  (MAX_RECORDS < length (fst (evict_excess fuel l)))%nat /\
  Forall (fun r => confirmed r = false) (fst (evict_excess fuel l)).
Proof.
  induction fuel as [|fuel IH]; intros l Hl; cbn [evict_excess];
    destruct (Nat.ltb_spec MAX_RECORDS (length l)) as [Hlt|Hge]; try done; [lia|].
  destruct (evict_confirmed l) as [l'|] eqn:E.
  - intros Hs. apply IH; [|done]. apply evict_confirmed_drops in E as [_ E]. lia.
  - intros _. split; [done|]. unfold evict_confirmed in E.
    destruct (position confirmed l) eqn:Hp; [done|]. by apply position_None.
Qed.

Lemma evict_excess_id fuel l :
  (length l <= MAX_RECORDS)%nat -> evict_excess fuel l = (l, true).
Proof.
  intros Hl. destruct fuel; cbn [evict_excess];
    destruct (Nat.ltb_spec MAX_RECORDS (length l)); (done || lia).
Qed.

Lemma filter_drops (p : JobRecord -> bool) l r :
  r ∈ List.filter p l <-> r ∈ l /\ p r = true.
Proof. by rewrite !list_elem_of_In, filter_In. Qed.

Lemma NoDup_ids_sublist l l' :
  l' `sublist_of` l -> NoDup (map job_id l) -> NoDup (map job_id l').
Proof. intros Hs Hn. eapply sublist_NoDup; [exact Hn|]. by apply (fmap_sublist job_id). Qed.

Lemma filter_sublist {A} (p : A -> bool) (l : list A) : List.filter p l `sublist_of` l.
Proof. induction l as [|x l IH]; simpl; [done|]. destruct (p x); by constructor. Qed.
End eviction.

(** ** Persisting *)

Section persisting.
Context {U : Uuid} {J : Json} {C : RecordCodec}.

(** The record file holds the list [l]. *)
Definition holds (w : world) (l : list JobRecord) : Prop :=
  exists b t, files w !! RECORD_FILE = Some (mkFile Regular b t) /\ decode_records b = Some l.

Lemma on_directory_or_inv {A} action (m : fs A) (s s' : JobRecords) r :
  on_directory_or action m s = (s', r) ->
  records s' = records s /\
  exists r0, m (directory s) = (directory s', r0) /\ (forall a, r = Ok a <-> r0 = Ok a).
Proof.
  unfold on_directory_or, on_directory, st_bind. destruct (m (directory s)) as [w r0].
  destruct r0; intros [= <- <-]; (split; [done|]); eexists; (split; [done|]); naive_solver.
Qed.

Lemma temporary_not_record tmp : RECORD_FILE <> TEMPORARY_PREFIX ++ tmp.
Proof. unfold RECORD_FILE, TEMPORARY_PREFIX. done. Qed.

Lemma record_steps_spec tmp now body (s s' : JobRecords) r :
  keeps RECORD_FILE (directory s) -> tmp <> RECORD_FILE ->
  (let* _ := on_directory_or "create job record" (create_new now tmp) in
   let* _ := on_directory_or "write job record" (write_and_sync now tmp body) in
   let* _ := on_directory_or "persist job record" (rename tmp RECORD_FILE) in
   on_directory_or "sync state directory" sync_dir) s = (s', r) ->
  keeps RECORD_FILE (directory s') /\ records s' = records s /\
  let written := exists t, files (directory s') !! RECORD_FILE = Some (mkFile Regular body t) in
  match r with
  | Ok _ => written
  | Err _ => files (directory s') !! RECORD_FILE = files (directory s) !! RECORD_FILE \/ written
  end.
Proof.
  intros Hk Hne. unfold st_bind at 1.
  destruct (on_directory_or "create job record" _ s) as [s1 r1] eqn:E1.
  apply on_directory_or_inv in E1 as (R1 & k1 & E1 & _).
  apply create_new_spares with (n := RECORD_FILE) in E1 as [K1 F1]; [|done..].
  destruct r1 as [[]|]; [|intros [= <- <-]; auto].
  unfold st_bind at 1. destruct (on_directory_or "write job record" _ s1) as [s2 r2] eqn:E2.
  apply on_directory_or_inv in E2 as (R2 & k2 & E2 & H2).
  pose proof (write_and_sync_stages body now tmp _ _ _ E2) as [_ Hst].
  apply write_and_sync_spares with (n := RECORD_FILE) in E2 as [K2 F2]; [|done..].
  destruct r2 as [[]|]; [|intros [= <- <-]; split; [done|split; [congruence|left; congruence]]].
  specialize (Hst (proj1 (H2 tt) eq_refl)).
  unfold st_bind at 1. destruct (on_directory_or "persist job record" _ s2) as [s3 r3] eqn:E3.
  apply on_directory_or_inv in E3 as (R3 & k3 & E3 & H3).
  apply rename_keeps with (body := body) in E3 as [K3 F3]; [|done..].
  destruct r3 as [[]|e].
  2: { intros [= <- <-]. split; [done|]. split; [congruence|]. left.
       destruct k3 as [u|]; [pose proof (proj2 (H3 u) eq_refl); discriminate|congruence]. }
  assert (k3 = Ok tt) as -> by (by apply H3). intros E4.
  apply on_directory_or_inv in E4 as (R4 & k4 & E4 & _).
  apply fs_call_spares with (n := RECORD_FILE) in E4 as [K4 F4]; [|done..].
  split; [done|]. split; [congruence|]. rewrite F4. destruct r; [done|by right].
Qed.

Lemma write_record_spec tmp now body (s s' : JobRecords) r :
  keeps RECORD_FILE (directory s) -> write_record tmp now body s = (s', r) ->
  keeps RECORD_FILE (directory s') /\ records s' = records s /\
  let written := exists t, files (directory s') !! RECORD_FILE = Some (mkFile Regular body t) in
  match r with
  | Ok _ => written
  | Err _ => files (directory s') !! RECORD_FILE = files (directory s) !! RECORD_FILE \/ written
  end.
Proof.
  intros Hk. unfold write_record, st_bind at 1, st_catch.
  destruct ((let* _ := _ in _) s) as [s1 r1] eqn:E1.
  apply record_steps_spec in E1 as (K1 & R1 & F1); [|done|apply not_eq_sym, temporary_not_record].
  destruct r1 as [[]|e]; [by intros [= <- <-]|].
  unfold st_bind, on_directory. destruct (remove_file _ (directory s1)) as [w2 r2] eqn:E2.
  intros [= <- <-]. apply remove_file_spares with (n := RECORD_FILE) in E2 as [K2 F2];
    [|done|apply temporary_not_record].
  simpl. split; [done|]. split; [done|]. by rewrite F2.
Qed.

Lemma persist_spec tmp now (s s' : JobRecords) r :
  keeps RECORD_FILE (directory s) -> persist tmp now s = (s', r) ->
  let l := List.filter (live now) (records s) in
  keeps RECORD_FILE (directory s') /\ records s' = fst (evict_excess (length l) l) /\
  match r with
  | Ok _ => snd (evict_excess (length l) l) = true /\ holds (directory s') (records s')
  | Err _ => files (directory s') !! RECORD_FILE = files (directory s) !! RECORD_FILE
             \/ holds (directory s') (records s')
  end.
Proof.
  intros Hk. unfold persist, st_bind at 1, st_modify at 1, st_bind at 1, st_get.
  cbn [records remove_expired set_records directory].
  set (l := List.filter (live now) (records s)).
  destruct (evict_excess (length l) l) as [l' ok] eqn:El. cbn [fst snd].
  unfold st_bind at 1, st_modify. cbn [records set_records directory].
  destruct ok; cbn [negb]; [|intros [= <- <-]; simpl; auto].
  destruct (encode_records l') as [body|] eqn:Eb; [|intros [= <- <-]; simpl; auto].
  intros E. apply write_record_spec in E as (K & R & F); [|done]. cbn [records set_records directory] in *.
  apply decode_encode in Eb. unfold holds. rewrite R. split; [done|]. split; [done|].
  destruct r as [[]|e]; [destruct F as [t F]; split; [done|]; eauto|].
  destruct F as [F|[t F]]; [by left|]. right. eauto.
Qed.
End persisting.

(** ** Every change of the record *)

Section changes.
Context {U : Uuid} {J : Json} {C : RecordCodec}.

(** The operations that change the record, as one step. *)
Inductive change :=
| Start (id : uuid) (cap : bytes) (retry : RetryClass)
| Finish (id : uuid) (o : Outcome)
| Confirm (id : uuid).

Definition changed_job (c : change) : uuid :=
  match c with Start id _ _ | Finish id _ | Confirm id => id end.

Definition make_change (tmp : uuid) (now : Z) (c : change) : ST JobRecords RecordError unit :=
  match c with
  | Start id cap retry => start tmp id cap retry now
  | Finish id o => finish tmp id o now
  | Confirm id => confirm tmp id now
  end.

(** What a change does to the list before it is persisted: other jobs keep
    their unresolved, unexpired records, and the list grows only by a start
    that found room. *)
Definition prepares (now : Z) (id : uuid) (l l' : list JobRecord) : Prop :=
  (forall r, r ∈ l -> job_id r <> id -> confirmed r = false -> live now r = true -> r ∈ l') /\
  ((length l <= MAX_RECORDS)%nat -> (length l' <= MAX_RECORDS)%nat) /\
  (NoDup (map job_id l) -> NoDup (map job_id l')).

Lemma update_first_ids p f l :
  (forall r, job_id (f r) = job_id r) -> map job_id (update_first p f l) = map job_id l.
Proof. intros Hf. induction l as [|r l IH]; simpl; [done|]. destruct (p r); simpl; by rewrite ?Hf, ?IH. Qed.

Lemma update_first_other p f l r : r ∈ l -> p r = false -> r ∈ update_first p f l.
Proof.
  induction l as [|x l IH]; intros Hr Hp; simpl; [done|].
  apply elem_of_cons in Hr as [->|Hr]; [rewrite Hp; left|]. destruct (p x); right; auto.
Qed.

Lemma has_id_false id r : job_id r <> id -> has_id id r = false.
Proof. intros H. by apply bool_decide_eq_false. Qed.

Lemma prepares_update now id f l :
  (forall r, job_id (f r) = job_id r) -> prepares now id l (update_first (has_id id) f l).
Proof.
  intros Hf. pose proof (update_first_ids (has_id id) f l Hf) as Hids. split; [|split].
  - intros r Hr Hid _ _. by apply update_first_other; [|apply has_id_false].
  - assert (length (update_first (has_id id) f l) = length l) as ->; [|done].
    by rewrite <- (length_map job_id), Hids, length_map.
  - by rewrite Hids.
Qed.

(** The list [start] persists. *)
Lemma prepares_start now id cap retry l l1 :
  let live_l := List.filter (live now) l in
  (if negb (existsb (has_id id) live_l) && Nat.leb MAX_RECORDS (length live_l)
   then evict_confirmed live_l else Some live_l) = Some l1 ->
  prepares now id l
    (List.filter (fun r => negb (has_id id r)) l1 ++ [mkRecord id cap retry now None false]).
Proof.
  intros live_l E.
  assert (drops_confirmed live_l l1 /\
    ((length live_l <= MAX_RECORDS)%nat ->
     (length (List.filter (fun r => negb (has_id id r)) l1) < MAX_RECORDS)%nat)) as [Hd Hl].
  { destruct (existsb (has_id id) live_l) eqn:Hex; cbn [negb andb] in E.
    - injection E as <-. split; [apply drops_confirmed_refl|]. intros Hle.
      apply existsb_exists in Hex as (r & Hr & Hid).
      apply List.in_split in Hr as (a & b & ->). rewrite List.filter_app, length_app in *. simpl in *.
      rewrite Hid. simpl. pose proof (sublist_length _ _ (filter_sublist (fun r => negb (has_id id r)) a)).
      pose proof (sublist_length _ _ (filter_sublist (fun r => negb (has_id id r)) b)). lia.
    - destruct (Nat.leb_spec MAX_RECORDS (length live_l)).
      + apply evict_confirmed_drops in E as [Hd Hlen]. split; [done|]. intros Hle.
        pose proof (sublist_length _ _ (filter_sublist (fun r => negb (has_id id r)) l1)). lia.
      + injection E as <-. split; [apply drops_confirmed_refl|]. intros _.
        pose proof (sublist_length _ _ (filter_sublist (fun r => negb (has_id id r)) live_l)). lia. }
  split; [|split].
  - intros r Hr Hid Hc Hlive. apply elem_of_app; left. apply filter_drops. split.
    + apply Hd; [|done]. apply filter_drops. done.
    + by rewrite has_id_false.
  - intros Hle. rewrite length_app. simpl.
    assert (length live_l <= MAX_RECORDS)%nat as Hle'.
    { pose proof (sublist_length _ _ (filter_sublist (live now) l)). unfold live_l. lia. }
    specialize (Hl Hle'). lia.
  - intros Hnd. rewrite map_app. apply list.NoDup_app. split; [|split].
    + eapply NoDup_ids_sublist; [|exact Hnd]. etrans; [apply filter_sublist|].
      etrans; [apply Hd|]. apply filter_sublist.
    + intros x Hx. simpl. intros ->%list_elem_of_singleton.
      apply list_elem_of_In, in_map_iff in Hx as (r & Hid & Hr). apply filter_In in Hr as [_ Hr].
      unfold has_id in Hr. rewrite bool_decide_eq_true_2 in Hr by done. done.
    + apply NoDup_singleton.
Qed.

(** A change either stops before persisting, having at most expired records,
    or persists a prepared list. *)
Lemma make_change_cases tmp now c (s s' : JobRecords) r :
  make_change tmp now c s = (s', r) ->
  (exists e l, r = Err e /\ s' = set_records l s /\ prepares now (changed_job c) (records s) l) \/
  (exists l, prepares now (changed_job c) (records s) l /\ persist tmp now (set_records l s) = (s', r) /\
     match c with
     | Start id cap retry => exists l0, l = l0 ++ [mkRecord id cap retry now None false] /\
                                        Forall (fun r => job_id r <> id) l0
     | _ => True
     end).
Proof.
  assert (forall l, prepares now (changed_job c) l l) as Hrefl by (intros l; split; [auto|done]).
  assert (s = set_records (records s) s) as Es by (by destruct s).
  destruct c as [id cap retry|id o|id]; cbn [make_change changed_job].
  - unfold start, st_bind at 1, st_modify at 1, st_bind at 1, st_get, remove_expired.
    cbn [records set_records]. set (live_l := List.filter (live now) (records s)).
    pose proof (prepares_start now id cap retry (records s)) as Hp. cbn zeta in Hp. fold live_l in Hp.
    unfold st_bind at 1. destruct (_ && _) eqn:Hfull.
    + destruct (evict_confirmed live_l) as [l1|] eqn:El.
      * cbn [st_modify]. unfold st_bind, st_modify. cbn [records set_records]. intros E. right.
        eexists. split; [by apply Hp|]. split; [exact E|]. eexists. split; [done|].
        apply List.Forall_forall. intros x [_ Hx]%filter_In ?. unfold has_id in Hx.
        by rewrite bool_decide_eq_true_2 in Hx.
      * intros [= <- <-]. left. exists RecordFull, live_l. split; [done|]. split; [done|].
        split; [|split]; intros.
        -- by apply filter_drops.
        -- pose proof (sublist_length _ _ (filter_sublist (live now) (records s))). unfold live_l. lia.
        -- eapply NoDup_ids_sublist; [apply filter_sublist|done].
    + unfold st_ret, st_bind, st_modify. cbn [records set_records]. intros E. right.
      eexists. split; [by apply Hp|]. split; [exact E|]. eexists. split; [done|].
      apply List.Forall_forall. intros x [_ Hx]%filter_In ?. unfold has_id in Hx.
      by rewrite bool_decide_eq_true_2 in Hx.
  - unfold finish, st_bind at 1, st_get. destruct (get id s); [|intros [= <- <-]; left; eauto 10].
    unfold st_bind, st_modify. intros E. right. eexists. split; [|split; [exact E|done]]. by apply prepares_update.
  - unfold confirm, st_bind at 1, st_get. destruct (get id s) as [x|]; [|intros [= <- <-]; left; eauto 10].
    destruct (outcome x); [|intros [= <- <-]; left; eauto 10].
    unfold st_bind, st_modify. intros E. right. eexists. split; [|split; [exact E|done]]. by apply prepares_update.
Qed.
End changes.

Section theorems.
Context {U : Uuid} {J : Json} {C : RecordCodec}.

Lemma make_change_keeps tmp now c (s s' : JobRecords) r :
  keeps RECORD_FILE (directory s) -> make_change tmp now c s = (s', r) ->
  keeps RECORD_FILE (directory s') /\
  match r with
  | Ok _ => holds (directory s') (records s')
  | Err _ => files (directory s') !! RECORD_FILE = files (directory s) !! RECORD_FILE
             \/ holds (directory s') (records s')
  end.
Proof.
  intros Hk Hc. apply make_change_cases in Hc as [(e & l & -> & -> & _)|(l & _ & Hp & _)].
  - simpl. auto.
  - apply persist_spec in Hp as (K & _ & F); [|done]. split; [done|].
    destruct r; [by destruct F|done].
Qed.

(** Opening an undisturbed state directory reads the file back. *)
Lemma open_holds w l :
  calm w -> holds w l -> exists w', open w = (w', Ok (mkRecords w' l)).
Proof.
  intros Hw (b & t & Hf & Hd). unfold open. erewrite read_file_calm by done. rewrite Hd. eauto.
Qed.

(** C5. The record is durable and never half-written: for every change, in
    every environment in which no other process removes [jobs.json], a
    success means the file decodes to exactly the records in memory, so an
    agent restarted afterwards opens the same list; after a failure the file
    is untouched or decodes to the records in memory. *)
Theorem job_record_durable tmp now c (s s' : JobRecords) r :
  keeps RECORD_FILE (directory s) -> make_change tmp now c s = (s', r) ->
  match r with
  | Ok _ => holds (directory s') (records s') /\
            exists w', open (mkWorld (files (directory s')) [] false)
                       = (w', Ok (mkRecords w' (records s')))
  | Err _ => files (directory s') !! RECORD_FILE = files (directory s) !! RECORD_FILE
             \/ holds (directory s') (records s')
  end.
Proof.
  intros Hk Hc. apply make_change_keeps in Hc as [_ F]; [|done].
  destruct r; [|done]. split; [done|]. by apply open_holds.
Qed.

(** Unresolved jobs are protected: whatever change is made for one job
    and whether or not it succeeds, every other job whose outcome Renga has
    not acknowledged keeps its record until it is eight days old; the list
    never grows past 128 records, and no job has two. *)
Theorem unresolved_records_survive tmp now c (s s' : JobRecords) r :
  keeps RECORD_FILE (directory s) -> make_change tmp now c s = (s', r) ->
  (forall x, x ∈ records s -> job_id x <> changed_job c -> confirmed x = false ->
             live now x = true -> x ∈ records s') /\
  ((length (records s) <= MAX_RECORDS)%nat -> (length (records s') <= MAX_RECORDS)%nat) /\
  (NoDup (map job_id (records s)) -> NoDup (map job_id (records s'))).
Proof.
  intros Hk Hc. apply make_change_cases in Hc as [(e & l & -> & -> & Hp)|(l & (H1 & H2 & H3) & Hp & _)];
    [done|].
  apply persist_spec in Hp as (_ & -> & _); [|done]. cbn [records set_records].
  set (l' := List.filter (live now) l). pose proof (evict_excess_drops (length l') l') as [Hs Hd].
  split; [|split].
  - intros x Hx Hid Hcf Hl. apply Hd; [|done]. apply filter_drops. split; [by apply H1|done].
  - intros Hle. etrans; [apply sublist_length, Hs|].
    etrans; [apply sublist_length, filter_sublist|]. auto.
  - intros Hnd. eapply NoDup_ids_sublist; [|by apply H3]. etrans; [exact Hs|apply filter_sublist].
Qed.

(** A started job is known: once [start] succeeds, looking the job up
    gives its record, unfinished and dated now, in this process and in any
    process that opens the directory later.  A redelivery can therefore not
    look like a first delivery. *)
Theorem started_job_is_recorded tmp id cap retry now (s s' : JobRecords) :
  keeps RECORD_FILE (directory s) ->
  start tmp id cap retry now s = (s', Ok tt) ->
  get id s' = Some (mkRecord id cap retry now None false) /\
  exists w' s2, open (mkWorld (files (directory s')) [] false) = (w', Ok s2) /\
                get id s2 = Some (mkRecord id cap retry now None false).
Proof.
  intros Hk Hs. set (x := mkRecord id cap retry now None false).
  assert (get id s' = Some x) as Hget.
  { pose proof (make_change_cases tmp now (Start id cap retry) s s' (Ok tt) Hs)
      as [(e & l & [=] & _)|(l & _ & Hp & (l0 & -> & Hl0))].
    apply persist_spec in Hp as (_ & Hr & _); [|done]. cbn [records set_records] in Hr.
    unfold get. rewrite Hr. set (l' := List.filter _ _).
    pose proof (evict_excess_drops (length l') l') as [Hsub Hd].
    assert (x ∈ fst (evict_excess (length l') l')) as Hx.
    { apply Hd; [|done]. apply filter_drops. split; [set_solver|]. unfold live. apply Z.ltb_lt.
      cbn [started_at x]. unfold RETENTION, from_secs, NANOS. lia. }
    destruct (find_by (has_id id) _) as [y|] eqn:Hy.
    - apply find_by_Some in Hy as [Hy Hid]. f_equal.
      assert (y ∈ l0 ++ [x]) as Hy'.
      { eapply elem_of_sublist; [exact Hy|]. etrans; [exact Hsub|apply filter_sublist]. }
      apply elem_of_app in Hy' as [Hy'|Hy'%list_elem_of_singleton]; [|done].
      rewrite List.Forall_forall in Hl0. apply list_elem_of_In, Hl0 in Hy'.
      unfold has_id in Hid. bool_simpl. done.
    - apply find_by_None in Hy. rewrite List.Forall_forall in Hy. apply list_elem_of_In, Hy in Hx.
      unfold has_id in Hx. by rewrite bool_decide_eq_true_2 in Hx. }
  split; [done|].
  pose proof (make_change_keeps tmp now (Start id cap retry) s s' (Ok tt) Hk Hs) as [_ Hh].
  destruct (open_holds (mkWorld (files (directory s')) [] false) (records s')) as [w' Hw']; [done..|].
  exists w', (mkRecords w' (records s')). done.
Qed.
End theorems.

(** ** A small record, to evaluate the theorems on *)

Section sample.
#[local] Existing Instance tiny_uuid.
#[local] Instance no_json : Json := json_of_table [].
Abbreviation id0 := (U0 : @uuid tiny_uuid).
Abbreviation id1 := (U1 : @uuid tiny_uuid).
Abbreviation id2 := (U2 : @uuid tiny_uuid).

(** A codec for lists of at most one unfinished record. *)
Definition tiny_encode (l : list JobRecord) : option bytes :=
  match l with
  | [] => Some []
  | [r] =>
      match outcome r with
      | Some _ => None
      | None => Some ((match rec_retry_class r with
                       | Idempotent => 0 | Convergent => 1 | Imperative => 2
                       end) :: started_at r :: (if confirmed r then 1 else 0)
                      :: zlength (uuid_show (job_id r)) :: uuid_show (job_id r) ++ capability r)
      end
  | _ => None
  end.

Definition tiny_decode (b : bytes) : option (list JobRecord) :=
  match b with
  | [] => Some []
  | retry :: t :: c :: n :: rest =>
      let+ id := uuid_parse (take (Z.to_nat n) rest) in
      Some [mkRecord id (drop (Z.to_nat n) rest)
              (if retry =? 0 then Idempotent else if retry =? 1 then Convergent else Imperative)
              t None (c =? 1)]
  | _ => None
  end.

#[local] Lemma tiny_codec_law l b : tiny_encode l = Some b -> tiny_decode b = Some l.
Proof.
  destruct l as [|[id cap rc t o c] [|]]; cbn [tiny_encode outcome]; [by intros [= <-]| |done].
  destruct o; [done|]. intros [= <-]. by destruct id, rc, c.
Qed.

#[local] Instance tiny_codec : RecordCodec :=
  {| encode_records := tiny_encode; decode_records := tiny_decode; decode_encode := tiny_codec_law |}.

Definition fresh_records : JobRecords := mkRecords (mkWorld ∅ [] false) [].
Definition one_started : JobRecords := fst (start id2 id0 [5] Idempotent 10 fresh_records).

Lemma job_record_durable_witness :
  exists s', make_change id2 20 (Start id1 [6] Imperative) fresh_records = (s', Ok tt) /\
             holds (directory s') (records s').
Proof.
  exists (fst (make_change id2 20 (Start id1 [6] Imperative) fresh_records)).
  split; [vm_compute; reflexivity|].
  refine (proj1 (job_record_durable id2 20 (Start id1 [6] Imperative) fresh_records _ (Ok tt) _ _)).
  - constructor.
  - vm_compute. reflexivity.
Defined.

Lemma unresolved_records_survive_witness :
  mkRecord id0 [5] Idempotent 10 None false
  ∈ records (fst (make_change id2 20 (Start id1 [6] Imperative) one_started)).
Proof.
  apply (unresolved_records_survive id2 20 (Start id1 [6] Imperative) one_started _
           (snd (make_change id2 20 (Start id1 [6] Imperative) one_started))).
  - vm_compute. constructor.
  - apply surjective_pairing.
  - vm_compute. left.
  - discriminate.
  - reflexivity.
  - reflexivity.
Defined.

Lemma started_job_is_recorded_witness :
  get id0 one_started = Some (mkRecord id0 [5] Idempotent 10 None false).
Proof.
  apply (started_job_is_recorded id2 id0 [5] Idempotent 10 fresh_records one_started).
  - constructor.
  - vm_compute. reflexivity.
Defined.
End sample.
