(* ===== verification/Worker.v ===== *)
(** * jobs/worker.rs: leasing jobs and running them

    The world outside the worker is an interface, [WorkerEnv]: the clocks, the
    policy generation a reload advances, agent shutdown, Renga's API, and the
    thread a capability runs on.  Every operation may change that world, so
    anything may happen between two calls.  The model keeps the worker's own
    acts in a log, oldest first; the theorems say which logs are possible. *)

From Stdlib Require Import String.
From S2P Require Import Prelude Text Interfaces Fs Transport Jobs JobRecord.

Definition MAX_JOBS_PER_PASS : Z := 10.
Definition HEARTBEAT : Z := from_secs 20.
Definition POLL : Z := from_millis 250.
(** Renga renews a lease for this long with every report it accepts. *)
Definition LEASE : Z := from_secs 60.

Section data.
Context {U : Uuid} {J : Json}.

Record LeasedJob := mkLeased {
  lj_id : uuid;
  lj_capability : bytes;
  parameters : json;
  attempt : Z;
  lease_token : bytes;
  lease_expires_at : Z;
  timeout_ms : Z;
  output_limit_bytes : Z }.

Record JobReport := mkReport {
  jr_token : bytes;
  jr_sequence : Z;
  jr_kind : ReportType;
  jr_payload : json }.

Record ReportAck := mkAck { cancel_requested : bool }.

(** What the receiving end of the runner's channel shows. *)
Inductive recv :=
| Received (completed_at : Z) (result : result json JobFailure)
| Nothing
| Disconnected.

(** An act of the worker on one job. *)
Inductive act :=
| ARecorded                                          (* [records.start] succeeded *)
| AReport (checked_at sent_at : Z) (report : JobReport) (answer : result ReportAck TransportError)
| ASpawn (generation deadline : Z)                   (* the capability's thread started *)
| AResult (completed_at : Z) (result : result json JobFailure)
| AFinish (o : Outcome)                              (* [records.finish] was called *)
| AConfirm.                                          (* [records.confirm] was called *)

Inductive PassError := PassRecord (e : RecordError) | PassLease (e : TransportError).
End data.

(** The world outside the worker. *)
Class WorkerEnv {U : Uuid} {J : Json} := {
  outside : Type;
  instant_now : Run outside Z;
  utc_now : Run outside Z;
  new_uuid : Run outside uuid;
  policy_generation : Run outside Z;
  stopped : Run outside bool;
  lease : list bytes -> Z -> Run outside (result (list LeasedJob) TransportError);
  report_before : uuid -> JobReport -> Z -> Run outside (result ReportAck TransportError);
  spawn : Capability -> json -> Z -> Run outside unit;  (* with the deadline it observes *)
  cancel_runner : Run outside unit;
  try_recv : Run outside recv;
  recv_timeout : Z -> Run outside recv;
  join : Run outside unit }.

Section worker.
Context {U : Uuid} {J : Json} {C : RecordCodec} {V : WorkerEnv}.
Variables (catalog : list Capability) (policy : JobPolicy) (expected_generation heartbeat : Z).

Record state := mkState { env : outside; recs : JobRecords; acts : list act }.

Abbreviation M := (Run state).

Definition ask {A} (m : Run outside A) : M A := fun s =>
  let '(w, a) := m (env s) in (mkState w (recs s) (acts s), a).
Definition note (a : act) : M unit := fun s => (mkState (env s) (recs s) (acts s ++ [a]), tt).
(** A call on the job record, its outcome as a value. *)
Definition on_records {A} (m : ST JobRecords RecordError A) : M (result A RecordError) := fun s =>
  let '(r, a) := m (recs s) in (mkState (env s) r (acts s), a).
Definition get_records : M JobRecords := fun s => (s, recs s).

Definition failure (reason : bytes) : json := json_obj [(lit "reason", json_str reason)].
Definition cancelled_outcome : Outcome := mkOutcome Cancelled (json_obj []).

Definition policy_current : M bool :=
  let! g := ask policy_generation in run_ret (g =? expected_generation).

(** ** Reporter *)

Record Reporter := mkReporter {
  rp_job : uuid;
  rp_token : bytes;
  rp_sequence : Z;
  lease_deadline : Z;
  lost : bool }.

Definition new_reporter (job : LeasedJob) : M Reporter :=
  let! now := ask instant_now in
  let! utc := ask utc_now in
  run_ret (mkReporter (lj_id job) (lease_token job) 0 (now + since (lease_expires_at job) utc) false).

Definition withdrawn (e : TransportError) : bool :=
  match err_status e with
  | Some status => (status =? UNAUTHORIZED) || (status =? FORBIDDEN) || (status =? CONFLICT)
  | None => false
  end.

Definition set_lost (rp : Reporter) : Reporter :=
  mkReporter (rp_job rp) (rp_token rp) (rp_sequence rp) (lease_deadline rp) true.

Definition send (rp : Reporter) (kind : ReportType) (payload : json)
  : M (Reporter * option ReportAck) :=
  if lost rp then run_ret (set_lost rp, None)
  else
    let! now := ask instant_now in
    if lease_deadline rp <=? now then run_ret (set_lost rp, None)
    else
      let sequence := wrap 64 (rp_sequence rp + 1) in
      let report := mkReport (rp_token rp) sequence kind payload in
      let! sent_at := ask instant_now in
      let! answer := ask (report_before (rp_job rp) report (lease_deadline rp)) in
      let! _ := note (AReport now sent_at report answer) in
      match answer with
      | Ok ack => run_ret (mkReporter (rp_job rp) (rp_token rp) sequence (sent_at + LEASE) (lost rp),
                           Some ack)
      | Err e => run_ret (mkReporter (rp_job rp) (rp_token rp) sequence (lease_deadline rp)
                            (withdrawn e || lost rp), None)
      end.

(** ** Running one capability *)

Inductive ending :=
| Unfinished                                  (* return None *)
| Ended (result : result json JobFailure).    (* break result *)

Definition timeout_failure (timeout : Z) : result json JobFailure :=
  Err (Jobs.Failed (lit "timed out after " ++ show_u64 (as_secs timeout) ++ lit " seconds")).
Definition unexpected_stop : result json JobFailure :=
  Err (Jobs.Failed (lit "the capability stopped unexpectedly")).

(** What a received message means, the two [match]es on the channel. *)
Definition take_result (timeout deadline : Z) (m : recv) : M (option (result json JobFailure)) :=
  match m with
  | Received completed_at r =>
      let! _ := note (AResult completed_at r) in
      if completed_at <=? deadline then run_ret (Some r)
      else
        let! _ := ask cancel_runner in
        run_ret (Some (timeout_failure timeout))
  | Disconnected => run_ret (Some unexpected_stop)
  | Nothing => run_ret None
  end.

Record supervision := mkSupervision {
  sv_reporter : Reporter;
  next_heartbeat : Z;
  sv_cancel_requested : bool }.

(** The part of the loop under [if now >= next_heartbeat], once the progress
    report is sent: reporting blocks, so every condition is read again. *)
Definition after_beat (timeout deadline : Z) (sv : supervision) (rp : Reporter) (ack : option ReportAck)
  : M (supervision * option ending) :=
  let asked := match ack with Some a => cancel_requested a | None => false end in
  let newly := asked && negb (sv_cancel_requested sv) in
  let! _ := if newly then ask cancel_runner else run_ret tt in
  let! _ := if lost rp then ask cancel_runner else run_ret tt in
  let sv := mkSupervision rp (next_heartbeat sv) (newly || sv_cancel_requested sv) in
  let! stop := ask stopped in
  if (stop : bool) then
    let! _ := ask cancel_runner in
    let! _ := ask join in
    run_ret (sv, Some Unfinished)
  else
    let! now := ask instant_now in
    let! m := ask try_recv in
    let! got := take_result timeout deadline m in
    match got with
    | Some r => run_ret (sv, Some (Ended r))
    | None =>
        if deadline <=? now then
          let! _ := ask cancel_runner in
          run_ret (sv, Some (Ended (timeout_failure timeout)))
        else run_ret (mkSupervision rp (now + heartbeat) (sv_cancel_requested sv), None)
    end.

(** The part under [if now >= next_heartbeat]. *)
Definition beat (timeout deadline : Z) (sv : supervision) : M (supervision * option ending) :=
  let! (rp, ack) := send (sv_reporter sv) Progress (json_obj []) in
  after_beat timeout deadline sv rp ack.

(** One turn of the supervising loop. *)
Definition supervise_once (timeout deadline : Z) (sv : supervision)
  : M (supervision * option ending) :=
  let! now := ask instant_now in
  let! stop := ask stopped in
  if (stop : bool) then
    let! _ := ask cancel_runner in
    let! _ := ask join in
    run_ret (sv, Some Unfinished)
  else
    let expired := lease_deadline (sv_reporter sv) <=? now in
    let! _ := if expired then ask cancel_runner else run_ret tt in
    let sv := if expired
              then mkSupervision (set_lost (sv_reporter sv)) (next_heartbeat sv) (sv_cancel_requested sv)
              else sv in
    if deadline <=? now then
      let! _ := ask cancel_runner in
      run_ret (sv, Some (Ended (timeout_failure timeout)))
    else
      let! (sv, ended) := if next_heartbeat sv <=? now then beat timeout deadline sv
                          else run_ret (sv, None) in
      match ended with
      | Some e => run_ret (sv, Some e)
      | None =>
          let! now := ask instant_now in
          let wait := Z.min (Z.min POLL (since deadline now)) (since (next_heartbeat sv) now) in
          let! m := ask (recv_timeout wait) in
          let! got := take_result timeout deadline m in
          run_ret (sv, Ended <$> got)
      end.

(** The loop; [None] only when the fuel runs out.  [join], like every call on [WorkerEnv],
    is taken to return: in the source it waits for a capability that was told to stop, and
    one that ignores that holds the worker. *)
Fixpoint supervise (fuel : nat) (timeout deadline : Z) (sv : supervision)
  : M (option (supervision * ending)) :=
  match fuel with
  | O => run_ret None
  | S fuel' =>
      let! (sv, ended) := supervise_once timeout deadline sv in
      match ended with
      | Some e => run_ret (Some (sv, e))
      | None => supervise fuel' timeout deadline sv
      end
  end.

Definition job_outcome (cancel_requested : bool) (r : result json JobFailure) : option Outcome :=
  match r with
  | Ok v => Some (mkOutcome Succeeded (json_obj [(lit "result", v)]))
  | Err Jobs.Cancelled => if cancel_requested then Some cancelled_outcome else None
  | Err (Jobs.Failed reason) => Some (mkOutcome Failed (failure reason))
  end.

(** [run]; [None] only when the fuel runs out. *)
Definition run (fuel : nat) (job : LeasedJob) (capability : Capability) (rp : Reporter)
  : M (option (Reporter * option Outcome)) :=
  let timeout := Z.min (timeout capability) (from_millis (Z.max (timeout_ms job) 1)) in
  let! now := ask instant_now in
  let deadline := now + timeout in
  let! g := ask policy_generation in
  if negb (g =? expected_generation) then run_ret (Some (rp, None))
  else
    let! _ := ask (spawn capability (parameters job) deadline) in
    let! _ := note (ASpawn g deadline) in
    let! now := ask instant_now in
    let! done := supervise fuel timeout deadline (mkSupervision rp (now + heartbeat) false) in
    match done with
    | None => run_ret None
    | Some (sv, Unfinished) => run_ret (Some (sv_reporter sv, None))
    | Some (sv, Ended r) =>
        let! _ := ask join in
        run_ret (Some (sv_reporter sv, job_outcome (sv_cancel_requested sv) r))
    end.

(** ** Handling a leased job *)

Definition confirm_job (id : uuid) : M unit :=
  let! now := ask utc_now in
  let! tmp := ask new_uuid in
  let! _ := note AConfirm in
  let! _ := on_records (confirm tmp id now) in
  run_ret tt.

(** [finish]: the outcome is recorded before it is reported. *)
Definition finish_job (job : LeasedJob) (rp : Reporter) (o : Outcome) : M unit :=
  let! now := ask utc_now in
  let! tmp := ask new_uuid in
  let! _ := note (AFinish o) in
  let! _ := on_records (finish tmp (lj_id job) o now) in
  if lost rp then run_ret tt
  else
    let! (_, ack) := send rp (outcome_kind o) (payload o) in
    match ack with
    | Some _ => confirm_job (lj_id job)
    | None => run_ret tt
    end.

Definition interrupted_outcome : Outcome :=
  mkOutcome Failed (failure (lit "the agent stopped while running this job, so it may have partly run")).

Definition run_recorded (fuel : nat) (job : LeasedJob) (capability : Capability) (rp : Reporter)
  : M bool :=
  let! current := policy_current in
  if negb current then run_ret true
  else
    let! (rp, ack) := send rp Started (json_obj []) in
    match ack with
    | None => run_ret true
    | Some ack =>
        let! current := policy_current in
        if negb current then run_ret true
        else
          let! done :=
            if cancel_requested ack then run_ret (Some (rp, Some cancelled_outcome))
            else run fuel job capability rp in
          match done with
          | None => run_ret false
          | Some (rp, Some o) => let! _ := finish_job job rp o in run_ret true
          | Some (rp, None) => run_ret true
          end
    end.

(** The rest of [handle] once the record does not forbid the job. *)
Definition start_and_run (fuel : nat) (job : LeasedJob) (cap : Capability) (rp : Reporter) : M bool :=
  let! now := ask utc_now in
  let! tmp := ask new_uuid in
  let! started := on_records (start tmp (lj_id job) (lj_capability job) (retry_class cap) now) in
  match started with
  | Err _ =>
      let! _ := send rp Failed (failure (lit "the agent cannot record jobs in its state directory")) in
      run_ret true
  | Ok _ => let! _ := note ARecorded in run_recorded fuel job cap rp
  end.

(** [handle]; [false] only when the fuel of [run] runs out. *)
Definition handle (fuel : nat) (job : LeasedJob) : M bool :=
  let! current := policy_current in
  if negb current then run_ret true
  else
    let! rp := new_reporter job in
    match enabled catalog (lj_capability job) policy with
    | None =>
        let! _ := send rp Failed (failure (lit "capability is not enabled by the agent's local policy")) in
        run_ret true
    | Some cap =>
        let! records := get_records in
        match get (lj_id job) records with
        | Some record =>
            match outcome record with
            | Some o =>
                let! (_, ack) := send rp (outcome_kind o) (payload o) in
                let! _ := match ack with
                          | Some _ => confirm_job (lj_id job)
                          | None => run_ret tt
                          end in
                run_ret true
            | None =>
                if bool_decide (retry_class cap = Imperative) then
                  let! _ := finish_job job rp interrupted_outcome in run_ret true
                else start_and_run fuel job cap rp
            end
        | None => start_and_run fuel job cap rp
        end
    end.

(** ** A pass *)

Fixpoint handle_all (fuel : nat) (jobs : list LeasedJob) : M bool :=
  match jobs with
  | [] => run_ret true
  | job :: jobs' =>
      let! ok := handle fuel job in
      if (ok : bool) then handle_all fuel jobs' else run_ret false
  end.

(** Each turn handles at least one job, so [turns] of [MAX_JOBS_PER_PASS] are
    enough. *)
Fixpoint pass_loop (fuel turns : nat) (keys : list bytes) (handled : Z) : M (result Z PassError) :=
  match turns with
  | O => run_ret (Ok handled)
  | S turns' =>
      if negb (handled <? MAX_JOBS_PER_PASS) then run_ret (Ok handled)
      else
        let! stop := ask stopped in
        if (stop : bool) then run_ret (Ok handled)
        else
          let! current := policy_current in
          if negb current then run_ret (Ok handled)
          else
            let! leased := ask (lease keys 1) in
            match leased with
            | Err e => run_ret (Err (PassLease e))
            | Ok jobs =>
                let! current := policy_current in
                if negb current then run_ret (Ok handled)
                else
                  match jobs with
                  | [] => run_ret (Ok handled)
                  | _ =>
                      let! _ := handle_all fuel jobs in
                      pass_loop fuel turns' keys (handled + zlength jobs)
                  end
            end
  end.

(** [run_pass], with the state directory the record is opened from. *)
Definition run_pass (fuel : nat) (w : outside) (dir : world) : state * result Z PassError :=
  let s := mkState w (mkRecords dir []) [] in
  let '(s, current) := policy_current s in
  if negb current then (s, Ok 0)
  else
    let keys := enabled_keys catalog policy in
    match keys with
    | [] => (s, Ok 0)
    | _ =>
        match open dir with
        | (dir', Err e) => (mkState (env s) (mkRecords dir' []) [], Err (PassRecord e))
        | (_, Ok records) =>
            pass_loop fuel (Z.to_nat MAX_JOBS_PER_PASS) keys 0 (mkState (env s) records [])
        end
    end.
End worker.

(** ** Which acts a computation adds to the log

    [emits step p m Q]: started in phase [p], [m] adds acts that take the
    machine [step] to a phase [Q] relates to its result. *)

Section emits.
Context {U : Uuid} {J : Json} {V : WorkerEnv} {P : Type} (step : P -> act -> P -> Prop).

Inductive steps : P -> list act -> P -> Prop :=
| steps_nil p : steps p [] p
| steps_cons p a p' l p'' : step p a p' -> steps p' l p'' -> steps p (a :: l) p''.

Lemma steps_app p l1 p' l2 p'' : steps p l1 p' -> steps p' l2 p'' -> steps p (l1 ++ l2) p''.
Proof. induction 1 as [|q a q' l r Hs Hl IH]; intros H2; [done|]. simpl. econstructor; eauto. Qed.

Lemma steps_app_inv l1 : forall p l2 p'',
  steps p (l1 ++ l2) p'' -> exists p', steps p l1 p' /\ steps p' l2 p''.
Proof.
  induction l1 as [|a l1 IH]; intros p l2 p'' H; simpl in H; [exists p; split; [constructor|done]|].
  inversion H as [|? ? p1 ? ? Hs Hr]; subst. apply IH in Hr as (p' & ? & ?).
  exists p'. split; [by econstructor|done].
Qed.

Definition emits {A} (p : P) (m : Run state A) (Q : A -> P -> Prop) : Prop := forall s s' a,
  m s = (s', a) -> exists l p', acts s' = acts s ++ l /\ steps p l p' /\ Q a p'.

Lemma emits_ret {A} p (a : A) (Q : A -> P -> Prop) : Q a p -> emits p (run_ret a) Q.
Proof. intros HQ s s' a' [= <- <-]. exists [], p. rewrite app_nil_r. split; [done|]. split; [constructor|done]. Qed.

Lemma emits_bind {A B} p (m : Run state A) (k : A -> Run state B) Q R :
  emits p m Q -> (forall a p', Q a p' -> emits p' (k a) R) -> emits p (run_bind m k) R.
Proof.
  intros Hm Hk s s2 b. unfold run_bind. destruct (m s) as [s1 a] eqn:E. intros E2.
  destruct (Hm _ _ _ E) as (l1 & p1 & E1 & S1 & Qa).
  destruct (Hk a p1 Qa _ _ _ E2) as (l2 & p2 & E3 & S2 & Rb).
  exists (l1 ++ l2), p2. rewrite E3, E1, <- app_assoc. split; [done|]. split; [by eapply steps_app|done].
Qed.

Lemma emits_weaken {A} p (m : Run state A) (Q R : A -> P -> Prop) :
  emits p m Q -> (forall a p', Q a p' -> R a p') -> emits p m R.
Proof. intros Hm HQ s s' a E. destruct (Hm _ _ _ E) as (l & p' & ? & ? & ?). exists l, p'. auto. Qed.

Lemma emits_ask {A} p (m : Run outside A) : emits p (ask m) (fun _ p' => p' = p).
Proof.
  intros s s' a. unfold ask. destruct (m (env s)) as [w b]. intros [= <- <-].
  exists [], p. simpl. rewrite app_nil_r. split; [done|]. split; [constructor|done].
Qed.

Lemma emits_ask_bind {A B} p (m : Run outside A) (k : A -> Run state B) Q :
  (forall a, emits p (k a) Q) -> emits p (run_bind (ask m) k) Q.
Proof. intros Hk. eapply emits_bind; [apply emits_ask|]. intros a p' ->. apply Hk. Qed.

Lemma emits_on_records {A B} p (m : ST JobRecords RecordError A)
    (k : result A RecordError -> Run state B) Q :
  (forall a, emits p (k a) Q) -> emits p (run_bind (on_records m) k) Q.
Proof.
  intros Hk. eapply emits_bind with (Q := fun _ p' => p' = p); [|intros a p' ->; apply Hk].
  intros s s' a. unfold on_records. destruct (m (recs s)) as [r b]. intros [= <- <-].
  exists [], p. simpl. rewrite app_nil_r. split; [done|]. split; [constructor|done].
Qed.

Lemma emits_note {B} p p' a (k : unit -> Run state B) Q :
  step p a p' -> emits p' (k tt) Q -> emits p (run_bind (note a) k) Q.
Proof.
  intros Hs Hk. eapply emits_bind with (Q := fun _ p2 => p2 = p'); [|intros [] p2 ->; exact Hk].
  intros s s' [] [= <-]. exists [a], p'. simpl. split; [done|]. split; [|done].
  by econstructor; [|constructor].
Qed.

Lemma emits_if_ask {B} (b : bool) p (m : Run outside unit) (k : unit -> Run state B) Q :
  emits p (k tt) Q -> emits p (run_bind (if b then ask m else run_ret tt) k) Q.
Proof.
  intros Hk. destruct b.
  - apply emits_ask_bind. by intros [].
  - eapply emits_bind; [by apply (emits_ret _ _ (fun _ p' => p' = p))|]. by intros [] p' ->.
Qed.

(** A report: nothing is sent when the lease is known lost or has expired;
    otherwise exactly one report is logged. *)
Lemma emits_send {B} p rp kind payload (k : Reporter * option ReportAck -> Run state B) Q :
  emits p (k (set_lost rp, None)) Q ->
  (forall now sent_at answer, lost rp = false -> now < lease_deadline rp ->
     let report := mkReport (rp_token rp) (wrap 64 (rp_sequence rp + 1)) kind payload in
     exists p', step p (AReport now sent_at report answer) p' /\
       emits p' (k (match answer with
                    | Ok ack => (mkReporter (rp_job rp) (rp_token rp) (jr_sequence report)
                                   (sent_at + LEASE) false, Some ack)
                    | Err e => (mkReporter (rp_job rp) (rp_token rp) (jr_sequence report)
                                  (lease_deadline rp) (withdrawn e), None)
                    end)) Q) ->
  emits p (run_bind (send rp kind payload) k) Q.
Proof.
  intros Hnone Hsent. unfold send. destruct (lost rp) eqn:Hl.
  { eapply emits_bind; [apply (emits_ret _ _ (fun r p' => r = (set_lost rp, None) /\ p' = p)); done|].
    by intros a p' [-> ->]. }
  intros s s' b. unfold run_bind at 1, run_bind at 1.
  destruct (ask instant_now s) as [s1 now] eqn:E1.
  assert (acts s1 = acts s) as A1.
  { unfold ask in E1. destruct (instant_now (env s)). by injection E1 as <- _. }
  destruct (Z.leb_spec (lease_deadline rp) now) as [Hle|Hlt].
  { intros E. cbn [run_ret] in E. destruct (Hnone s1 s' b E) as (l & p' & E' & ?).
    exists l, p'. by rewrite E', A1. }
  unfold run_bind. destruct (ask instant_now s1) as [s2 sent_at] eqn:E2.
  assert (acts s2 = acts s1) as A2.
  { unfold ask in E2. destruct (instant_now (env s1)). by injection E2 as <- _. }
  destruct (ask (report_before _ _ _) s2) as [s3 answer] eqn:E3.
  assert (acts s3 = acts s2) as A3.
  { unfold ask in E3. destruct (report_before _ _ _ (env s2)). by injection E3 as <- _. }
  cbn [note].
  destruct (Hsent now sent_at answer eq_refl Hlt) as (p' & Hs & Hk). cbn zeta in Hk, Hs. intros E.
  assert (exists l p2, acts s' = (acts s3 ++ [AReport now sent_at
     (mkReport (rp_token rp) (wrap 64 (rp_sequence rp + 1)) kind payload) answer]) ++ l /\
     steps p' l p2 /\ Q b p2) as (l & p2 & E' & Hl' & HQ).
  { destruct answer as [ack|e]; cbn [run_ret] in E; [|rewrite orb_false_r in E]; by apply Hk in E. }
  exists (AReport now sent_at (mkReport (rp_token rp) (wrap 64 (rp_sequence rp + 1)) kind payload) answer :: l), p2.
  rewrite E', A3, A2, A1, <- app_assoc. split; [done|]. split; [by econstructor|done].
Qed.
End emits.

(** ** The protocol a job goes through *)

Section protocol.
Context {U : Uuid} {J : Json}.
(** What the policy enables for the job's key, what the record said of the
    job when it was leased, and the generation of the policy in force. *)
Variables (enabled_cap : option Capability) (prior : option JobRecord) (generation : Z).

Inductive stage :=
| SLeased
| SRecorded                        (* noted durably as started *)
| SAcked (cancel : bool)           (* Renga confirmed the lease *)
| SRunning (deadline : Z)
| SGot (deadline completed_at : Z) (r : result json JobFailure)
| SFinished (o : Outcome)          (* the outcome went to the record *)
| SAccepted                        (* Renga acknowledged the outcome *)
| SClosed.

(** Whether the job may run at all. *)
Definition may_run : Prop :=
  exists cap, enabled_cap = Some cap /\
    match prior with
    | None => True
    | Some r => outcome r = None /\ retry_class cap <> Imperative
    end.

Definition after_report (answer : result ReportAck TransportError) : stage :=
  if is_ok answer then SAccepted else SClosed.

Inductive job_step : stage -> act -> stage -> Prop :=
| step_refuse c t rep ans :            (* not enabled, or the record cannot be written *)
    jr_kind rep = Failed -> (enabled_cap = None \/ may_run) ->
    job_step SLeased (AReport c t rep ans) SClosed
| step_resend c t rep ans cap r o :    (* delivered again: the recorded outcome *)
    enabled_cap = Some cap -> prior = Some r -> outcome r = Some o ->
    jr_kind rep = outcome_kind o -> jr_payload rep = payload o ->
    job_step SLeased (AReport c t rep ans) (after_report ans)
| step_interrupted cap r :             (* it may have acted before the agent stopped *)
    enabled_cap = Some cap -> prior = Some r -> outcome r = None -> retry_class cap = Imperative ->
    job_step SLeased (AFinish interrupted_outcome) (SFinished interrupted_outcome)
| step_record : may_run -> job_step SLeased ARecorded SRecorded
| step_started c t rep ans :
    jr_kind rep = Started ->
    job_step SRecorded (AReport c t rep ans)
      (match ans with Ok ack => SAcked (cancel_requested ack) | Err _ => SClosed end)
| step_cancelled : job_step (SAcked true) (AFinish cancelled_outcome) (SFinished cancelled_outcome)
| step_spawn deadline : job_step (SAcked false) (ASpawn generation deadline) (SRunning deadline)
| step_progress deadline c t rep ans :
    jr_kind rep = Progress -> job_step (SRunning deadline) (AReport c t rep ans) (SRunning deadline)
| step_result deadline c r : job_step (SRunning deadline) (AResult c r) (SGot deadline c r)
| step_gave_up deadline o :            (* timed out, or the thread vanished *)
    outcome_kind o <> Succeeded -> job_step (SRunning deadline) (AFinish o) (SFinished o)
| step_in_time deadline c v :
    c <= deadline ->
    let o := mkOutcome Succeeded (json_obj [(lit "result", v)]) in
    job_step (SGot deadline c (Ok v)) (AFinish o) (SFinished o)
| step_not_ok deadline c r o :
    outcome_kind o <> Succeeded -> job_step (SGot deadline c r) (AFinish o) (SFinished o)
| step_report c t rep ans o :
    jr_kind rep = outcome_kind o -> jr_payload rep = payload o ->
    job_step (SFinished o) (AReport c t rep ans) (after_report ans)
| step_confirm : job_step SAccepted AConfirm SClosed.
End protocol.

Section ordering.
Context {U : Uuid} {J : Json} {C : RecordCodec} {V : WorkerEnv}.
Variables (catalog : list Capability) (policy : JobPolicy) (expected_generation heartbeat : Z).
Variables (enabled_cap : option Capability) (prior : option JobRecord).
Abbreviation emits := (emits (job_step enabled_cap prior expected_generation)).

Lemma emits_policy_current {B} p (k : bool -> Run state B) Q :
  (forall b, emits p (k b) Q) -> emits p (run_bind (policy_current expected_generation) k) Q.
Proof.
  intros Hk. eapply emits_bind with (Q := fun _ p' => p' = p); [|by intros b p' ->].
  apply emits_ask_bind. intros g. by apply emits_ret.
Qed.

Lemma emits_confirm_job id : emits SAccepted (confirm_job id) (fun _ _ => True).
Proof.
  apply emits_ask_bind; intros now. apply emits_ask_bind; intros tmp.
  eapply emits_note; [constructor|]. apply emits_on_records. intros r. by apply emits_ret.
Qed.

(** A terminal report, then the acknowledgement. *)
Lemma emits_report_outcome p rp o id :
  (forall c t rep ans, jr_kind rep = outcome_kind o -> jr_payload rep = payload o ->
     job_step enabled_cap prior expected_generation p (AReport c t rep ans) (after_report ans)) ->
  emits p (let! (_, ack) := send rp (outcome_kind o) (payload o) in
           match ack with Some _ => confirm_job id | None => run_ret tt end) (fun _ _ => True).
Proof.
  intros Hp. apply emits_send; [by apply emits_ret|]. intros now sent_at ans Hl Hd report.
  exists (after_report ans). split; [by apply Hp|].
  destruct ans; [apply emits_confirm_job|by apply emits_ret].
Qed.

Lemma emits_finish_job p job rp o :
  job_step enabled_cap prior expected_generation p (AFinish o) (SFinished o) ->
  emits p (finish_job job rp o) (fun _ _ => True).
Proof.
  intros Hp. apply emits_ask_bind; intros now. apply emits_ask_bind; intros tmp.
  eapply emits_note; [exact Hp|]. apply emits_on_records. intros r.
  destruct (lost rp); [by apply emits_ret|]. apply emits_report_outcome. by constructor.
Qed.

(** What the supervising loop's ending says about the phase it left. *)
Definition ended_in (deadline : Z) (e : ending) (p : stage) : Prop :=
  match e with
  | Unfinished => True
  | Ended r =>
      p = SRunning deadline /\ ~ (exists v, r = Ok v) \/
      exists c r0, p = SGot deadline c r0 /\ (forall v, r = Ok v -> r0 = Ok v /\ c <= deadline)
  end.

Definition may_continue (deadline : Z) (e : option ending) (p : stage) : Prop :=
  match e with None => p = SRunning deadline | Some e => ended_in deadline e p end.

Lemma emits_take_result timeout deadline m :
  emits (SRunning deadline) (take_result timeout deadline m)
    (fun got p => may_continue deadline (Ended <$> got) p).
Proof.
  destruct m as [c r| |]; cbn [take_result].
  - eapply emits_note; [constructor|]. destruct (Z.leb_spec c deadline).
    + apply emits_ret. right. exists c, r. split; [done|]. by intros v [= ->].
    + apply emits_ask_bind. intros _. apply emits_ret. right. exists c, r. split; [done|]. discriminate.
  - by apply emits_ret.
  - apply emits_ret. left. split; [done|]. by intros [v [=]].
Qed.

Lemma ended_timeout timeout deadline : ended_in deadline (Ended (timeout_failure timeout)) (SRunning deadline).
Proof. left. split; [done|]. by intros [v [=]]. Qed.

Lemma emits_after_beat timeout deadline sv rp ack :
  emits (SRunning deadline) (after_beat heartbeat timeout deadline sv rp ack)
    (fun r p => may_continue deadline (snd r) p).
Proof.
  unfold after_beat. apply emits_if_ask, emits_if_ask. apply emits_ask_bind. intros [].
  { apply emits_ask_bind; intros _. apply emits_ask_bind; intros _. by apply emits_ret. }
  apply emits_ask_bind; intros now. apply emits_ask_bind; intros m.
  eapply emits_bind; [apply emits_take_result|]. intros [r|] p Hp; [by apply emits_ret|].
  cbn in Hp. subst p. destruct (_ <=? _).
  - apply emits_ask_bind; intros _. apply emits_ret. apply ended_timeout.
  - by apply emits_ret.
Qed.

Lemma emits_beat timeout deadline sv :
  emits (SRunning deadline) (beat heartbeat timeout deadline sv)
    (fun r p => may_continue deadline (snd r) p).
Proof.
  unfold beat. apply emits_send; [apply emits_after_beat|].
  intros now sent_at ans Hl Hd report. eexists.
  split; [by apply step_progress|]. destruct ans; apply emits_after_beat.
Qed.

Lemma emits_supervise_once timeout deadline sv :
  emits (SRunning deadline) (supervise_once heartbeat timeout deadline sv)
    (fun r p => may_continue deadline (snd r) p).
Proof.
  unfold supervise_once. apply emits_ask_bind; intros now. apply emits_ask_bind. intros [].
  { apply emits_ask_bind; intros _. apply emits_ask_bind; intros _. by apply emits_ret. }
  apply emits_if_ask. cbv zeta. generalize (if lease_deadline (sv_reporter sv) <=? now then
    mkSupervision (set_lost (sv_reporter sv)) (next_heartbeat sv) (sv_cancel_requested sv) else sv).
  intros sv'. destruct (deadline <=? now).
  { apply emits_ask_bind; intros _. apply emits_ret, ended_timeout. }
  eapply emits_bind with (Q := fun r p => may_continue deadline (snd r) p).
  { destruct (next_heartbeat sv' <=? now); [apply emits_beat|by apply emits_ret]. }
  intros [sv2 [e|]] p Hp; cbn [snd] in Hp; [by apply emits_ret|]. cbn in Hp. subst p.
  apply emits_ask_bind; intros now2. apply emits_ask_bind; intros m.
  eapply emits_bind; [apply emits_take_result|]. intros got p Hp. by apply emits_ret.
Qed.

Lemma emits_supervise fuel timeout deadline : forall sv,
  emits (SRunning deadline) (supervise heartbeat fuel timeout deadline sv)
    (fun r p => match r with None => True | Some (_, e) => ended_in deadline e p end).
Proof.
  induction fuel as [|fuel IH]; intros sv; cbn [supervise]; [by apply emits_ret|].
  eapply emits_bind; [apply emits_supervise_once|]. intros [sv2 [e|]] p Hp; cbn [snd] in Hp.
  - by apply emits_ret.
  - cbn in Hp. subst p. apply IH.
Qed.

Lemma job_outcome_finishes deadline cancel r o p :
  ended_in deadline (Ended r) p -> job_outcome cancel r = Some o ->
  job_step enabled_cap prior expected_generation p (AFinish o) (SFinished o).
Proof.
  intros Hp Ho. destruct r as [v|[|reason]]; cbn [job_outcome] in Ho.
  - injection Ho as <-. destruct Hp as [[-> Hn]|(c & r0 & -> & Hr)]; [by destruct Hn; eauto|].
    destruct (Hr v eq_refl) as [-> Hc]. by constructor.
  - destruct cancel; [|done]. injection Ho as <-.
    destruct Hp as [[-> _]|(c & r0 & -> & _)]; by constructor.
  - injection Ho as <-. destruct Hp as [[-> _]|(c & r0 & -> & _)]; by constructor.
Qed.

Lemma emits_run fuel job cap rp :
  emits (SAcked false) (run expected_generation heartbeat fuel job cap rp)
    (fun done p => match done with
                   | Some (_, Some o) =>
                       job_step enabled_cap prior expected_generation p (AFinish o) (SFinished o)
                   | _ => True
                   end).
Proof.
  unfold run. apply emits_ask_bind; intros now. apply emits_ask_bind; intros g.
  destruct (Z.eqb_spec g expected_generation) as [->|Hg]; cbn [negb]; [|by apply emits_ret].
  apply emits_ask_bind; intros _. eapply emits_note; [constructor|].
  apply emits_ask_bind; intros now2. eapply emits_bind; [apply emits_supervise|].
  intros [[sv [|r]]|] p Hp; [by apply emits_ret| |by apply emits_ret].
  apply emits_ask_bind; intros _. apply emits_ret.
  destruct (job_outcome _ r) as [o|] eqn:Ho; [|done]. by eapply job_outcome_finishes.
Qed.

Lemma emits_run_recorded fuel job cap rp :
  emits SRecorded (run_recorded expected_generation heartbeat fuel job cap rp) (fun _ _ => True).
Proof.
  unfold run_recorded. apply emits_policy_current. intros [|]; cbn [negb]; [|by apply emits_ret].
  apply emits_send; [by apply emits_ret|]. intros now sent_at ans Hl Hd report.
  eexists. split; [by constructor|]. destruct ans as [ack|e]; [|by apply emits_ret].
  apply emits_policy_current. intros [|]; cbn [negb]; [|by apply emits_ret].
  set (rp' := mkReporter _ _ _ _ _).
  eapply emits_bind with (Q := fun done p => match done with
     | Some (_, Some o) => job_step enabled_cap prior expected_generation p (AFinish o) (SFinished o)
     | _ => True end).
  - destruct (cancel_requested ack); [|apply emits_run]. apply emits_ret. constructor.
  - intros [[rp2 [o|]]|] p Hp; [|by apply emits_ret..].
    eapply emits_bind; [by apply emits_finish_job|]. intros _ p' _. by apply emits_ret.
Qed.

Lemma emits_start_and_run fuel job cap rp :
  may_run enabled_cap prior ->
  emits SLeased (start_and_run expected_generation heartbeat fuel job cap rp) (fun _ _ => True).
Proof.
  intros Hrun. unfold start_and_run. apply emits_ask_bind; intros now. apply emits_ask_bind; intros tmp.
  apply emits_on_records. intros [u|e].
  - eapply emits_note; [by constructor|]. apply emits_run_recorded.
  - apply emits_send; [by apply emits_ret|]. intros ? ? ans ? ? report.
    exists SClosed. split; [constructor; auto|]. destruct ans; by apply emits_ret.
Qed.
End ordering.

Section handling.
Context {U : Uuid} {J : Json} {C : RecordCodec} {V : WorkerEnv}.
Variables (catalog : list Capability) (policy : JobPolicy) (expected_generation heartbeat : Z).

Definition quiet {A} (m : Run state A) : Prop := forall s s' a,
  m s = (s', a) -> recs s' = recs s /\ acts s' = acts s.

Lemma quiet_ask {A} (m : Run outside A) : quiet (ask m).
Proof. intros s s' a. unfold ask. destruct (m (env s)). by intros [= <- <-]. Qed.

Lemma quiet_bind {A B} (m : Run state A) (k : A -> Run state B) :
  quiet m -> (forall a, quiet (k a)) -> quiet (run_bind m k).
Proof.
  intros Hm Hk s s' b. unfold run_bind. destruct (m s) as [s1 a] eqn:E. intros E2.
  apply Hm in E as [? ?]. apply Hk in E2 as [? ?]. split; congruence.
Qed.

Lemma quiet_ret {A} (a : A) : quiet (run_ret a).
Proof. by intros s s' b [= <- <-]. Qed.

Lemma quiet_policy_current : quiet (policy_current expected_generation).
Proof. apply quiet_bind; [apply quiet_ask|intros; apply quiet_ret]. Qed.

Lemma quiet_new_reporter job : quiet (new_reporter job).
Proof. repeat (apply quiet_bind; [apply quiet_ask|intros]). apply quiet_ret. Qed.

Lemma handle_protocol fuel job s s' ok :
  handle catalog policy expected_generation heartbeat fuel job s = (s', ok) ->
  exists l p', acts s' = acts s ++ l /\
    steps (job_step (enabled catalog (lj_capability job) policy) (get (lj_id job) (recs s))
             expected_generation) SLeased l p'.
Proof.
  unfold handle. unfold run_bind at 1.
  destruct (policy_current expected_generation s) as [s1 cur] eqn:E1.
  apply quiet_policy_current in E1 as [R1 A1].
  destruct cur; cbn [negb]; [|intros [= <- <-]; exists [], SLeased; rewrite A1, app_nil_r; split; [done|constructor]].
  unfold run_bind at 1. destruct (new_reporter job s1) as [s2 rp] eqn:E2.
  apply quiet_new_reporter in E2 as [R2 A2]. rewrite <- A1, <- A2, <- R1, <- R2. clear s s1 A1 A2 R1 R2.
  set (en := enabled catalog (lj_capability job) policy) in *.
  set (pr := get (lj_id job) (recs s2)) in *.
  destruct en as [cap|] eqn:Hen.
  - unfold run_bind at 1, get_records. fold pr. intros E.
    assert (forall m, emits (job_step (Some cap) pr expected_generation) SLeased m (fun _ _ => True) ->
      m s2 = (s', ok) -> exists l p', acts s' = acts s2 ++ l /\
        steps (job_step (Some cap) pr expected_generation) SLeased l p') as Hfin.
    { intros m Hm Em. destruct (Hm _ _ _ Em) as (l & p' & ? & ? & _). eauto. }
    destruct pr as [record|] eqn:Hpr.
    + destruct (outcome record) as [o|] eqn:Ho.
      * revert E. apply Hfin. apply emits_send; [by apply emits_ret|].
        intros now sent_at ans Hl Hd report. exists (after_report ans).
        split; [by eapply step_resend|]. destruct ans; [|by apply emits_ret].
        eapply emits_bind; [apply emits_confirm_job|]. intros _ p' _. by apply emits_ret.
      * destruct (bool_decide (retry_class cap = Imperative)) eqn:Him; revert E; apply Hfin; bool_simpl.
        -- eapply emits_bind; [apply emits_finish_job; by econstructor|].
           intros _ p' _. by apply emits_ret.
        -- apply emits_start_and_run. exists cap. done.
    + revert E. apply Hfin, emits_start_and_run. by exists cap.
  - intros E. assert (emits (job_step None pr expected_generation) SLeased
      (let! _ := send rp Failed (failure (lit "capability is not enabled by the agent's local policy")) in
       run_ret true) (fun _ _ => True)) as Hm.
    { apply emits_send; [by apply emits_ret|]. intros now sent_at ans Hl Hd report.
      exists SClosed. split; [constructor; auto|]. destruct ans; by apply emits_ret. }
    destruct (Hm _ _ _ E) as (l & p' & ? & ? & _). eauto.
Qed.
End handling.

(** ** What the protocol implies *)

Section consequences.
Context {U : Uuid} {J : Json}.
Variables (en : option Capability) (prior : option JobRecord) (gen : Z).
Abbreviation jsteps := (steps (job_step en prior gen)).

Definition rank (p : stage) : nat :=
  match p with
  | SLeased => 0 | SRecorded => 1 | SAcked _ => 2 | SRunning _ => 3 | SGot _ _ _ => 4
  | SFinished _ => 5 | SAccepted => 6 | SClosed => 7
  end.

Lemma job_step_rank p a p' :
  job_step en prior gen p a p' -> (rank p < rank p')%nat \/ exists d, p = SRunning d /\ p' = SRunning d.
Proof.
  destruct 1; simpl; try (left; lia); try (right; eauto; fail);
    (destruct ans; simpl; left; lia).
Qed.

Lemma jsteps_rank p l p' : jsteps p l p' -> (rank p <= rank p')%nat.
Proof.
  induction 1 as [|p a p1 l p2 Hs Hl IH]; [done|].
  apply job_step_rank in Hs as [?|(d & -> & ->)]; lia.
Qed.

Lemma spawn_once p l p' g d : jsteps p l p' -> (3 <= rank p)%nat -> ASpawn g d ∉ l.
Proof.
  induction 1 as [|p a p1 l p2 Hs Hl IH]; intros Hr; [apply not_elem_of_nil|].
  apply not_elem_of_cons. split.
  - intros <-. inversion Hs; subst. simpl in Hr. lia.
  - apply IH. apply job_step_rank in Hs as [?|(e & -> & ->)]; lia.
Qed.

Lemma reach_acked l b :
  jsteps SLeased l (SAcked b) ->
  may_run en prior /\ exists c t rep ack,
    l = [ARecorded; AReport c t rep (Ok ack)] /\ jr_kind rep = Started /\ cancel_requested ack = b.
Proof.
  intros H. inversion H as [|? a p1 l1 ? Hs Hl]; subst.
  pose proof (jsteps_rank _ _ _ Hl) as Hr. simpl in Hr.
  inversion Hs; subst; simpl in Hr; try lia; [destruct ans; simpl in Hr; lia|].
  inversion Hl as [|? a2 p2 l2 ? Hs2 Hl2]; subst.
  pose proof (jsteps_rank _ _ _ Hl2) as Hr2. simpl in Hr2.
  inversion Hs2; subst. destruct ans as [ack|e]; simpl in Hr2; [|lia].
  inversion Hl2 as [|? a3 p3 l3 ? Hs3 Hl3]; subst.
  - split; [done|]. eauto 10.
  - pose proof (jsteps_rank _ _ _ Hl3) as Hr3. simpl in Hr3.
    apply job_step_rank in Hs3 as [Hr4|(d & [=] & _)]. simpl in Hr4. lia.
Qed.

(** What the acts so far say about where the job is. *)
Definition history (h : list act) (p : stage) : Prop :=
  match p with
  | SRunning d => exists g, ASpawn g d ∈ h
  | SGot d c r => (exists g, ASpawn g d ∈ h) /\ AResult c r ∈ h
  | SFinished o => AFinish o ∈ h /\
      (outcome_kind o = Succeeded -> exists g d c v, ASpawn g d ∈ h /\ AResult c (Ok v) ∈ h /\
         c <= d /\ payload o = json_obj [(lit "result", v)])
  | _ => True
  end.

Lemma history_step h p a p' : history h p -> job_step en prior gen p a p' -> history (h ++ [a]) p'.
Proof.
  intros Hh Hs. destruct Hs; cbn [history] in *; try done;
    try (unfold after_report; destruct ans; done).
  - split; [set_solver|done].
  - split; [set_solver|done].
  - exists gen. set_solver.
  - destruct Hh as [g Hg]. exists g. set_solver.
  - destruct Hh as [g Hg]. split; [exists g; set_solver|set_solver].
  - split; [set_solver|congruence].
  - destruct Hh as [[g Hg] Hr]. split; [set_solver|]. intros _.
    exists g, deadline, c, v. split; [set_solver|]. split; [set_solver|]. done.
  - split; [set_solver|congruence].
Qed.

Lemma history_steps l : forall h p p', history h p -> jsteps p l p' -> history (h ++ l) p'.
Proof.
  induction l as [|a l IH]; intros h p p' Hh Hl.
  - inversion Hl; subst. by rewrite app_nil_r.
  - inversion Hl as [|? ? p1 ? ? Hs Hl1]; subst.
    replace (h ++ a :: l) with ((h ++ [a]) ++ l) by (by rewrite <- app_assoc).
    eapply IH; [|exact Hl1]. by eapply history_step.
Qed.
End consequences.

(** ** Reports under one lease *)

Section leases.
Context {U : Uuid} {J : Json} {C : RecordCodec} {V : WorkerEnv}.
Variables (catalog : list Capability) (policy : JobPolicy) (expected_generation heartbeat : Z).
Variables (token : bytes).

(** The last sequence number, when the lease ends as far as the agent knows,
    and whether Renga has withdrawn it. *)
Record lease_phase := mkLease { ls_sequence : Z; ls_deadline : Z; ls_withdrawn : bool }.

Definition is_report (a : act) : bool := match a with AReport _ _ _ _ => true | _ => false end.

Inductive lease_step : lease_phase -> act -> lease_phase -> Prop :=
| lease_report n deadline c t rep ans :
    c < deadline -> jr_token rep = token -> jr_sequence rep = wrap 64 (n + 1) ->
    lease_step (mkLease n deadline false) (AReport c t rep ans)
      (match ans with
       | Ok _ => mkLease (jr_sequence rep) (t + LEASE) false
       | Err e => mkLease (jr_sequence rep) deadline (withdrawn e)
       end)
| lease_other p a : is_report a = false -> lease_step p a p.

Abbreviation emits := (emits lease_step).

(** The reporter and the phase agree. *)
Definition agrees (rp : Reporter) (p : lease_phase) : Prop :=
  rp_token rp = token /\ rp_sequence rp = ls_sequence p /\ lease_deadline rp = ls_deadline p /\
  (ls_withdrawn p = true -> lost rp = true).

Lemma agrees_set_lost rp p : agrees rp p -> agrees (set_lost rp) p.
Proof. intros (? & ? & ? & ?). by repeat split. Qed.

Lemma emits_other {B} p a (k : unit -> Run state B) Q :
  is_report a = false -> emits p (k tt) Q -> emits p (run_bind (note a) k) Q.
Proof. intros Ha. apply emits_note. by constructor. Qed.

Lemma emits_send_lease {B} p rp kind payload (k : Reporter * option ReportAck -> Run state B) Q :
  agrees rp p -> (forall rp' ack p', agrees rp' p' -> emits p' (k (rp', ack)) Q) ->
  emits p (run_bind (send rp kind payload) k) Q.
Proof.
  intros Ha Hk. apply emits_send; [by apply Hk, agrees_set_lost|].
  intros now sent_at ans Hl Hd report. destruct Ha as (Ht & Hs & Hdl & Hw).
  destruct p as [n dl wd]. simpl in *. destruct wd; [rewrite Hw in Hl; done|]. subst n dl.
  eexists. split; [by apply lease_report|]. destruct ans; by apply Hk.
Qed.

Lemma emits_confirm_lease p id : emits p (confirm_job id) (fun _ _ => True).
Proof.
  apply emits_ask_bind; intros now. apply emits_ask_bind; intros tmp.
  apply emits_other; [done|]. apply emits_on_records. intros r. by apply emits_ret.
Qed.

Lemma emits_finish_lease p job rp o : agrees rp p -> emits p (finish_job job rp o) (fun _ _ => True).
Proof.
  intros Ha. apply emits_ask_bind; intros now. apply emits_ask_bind; intros tmp.
  apply emits_other; [done|]. apply emits_on_records. intros r.
  destruct (lost rp); [by apply emits_ret|].
  apply emits_send_lease; [done|]. intros rp' [ack|] p' _; [apply emits_confirm_lease|by apply emits_ret].
Qed.

Lemma emits_take_lease p timeout deadline m :
  emits p (take_result timeout deadline m) (fun _ p' => p' = p).
Proof.
  destruct m as [c r| |]; cbn [take_result]; [|by apply emits_ret..].
  apply emits_other; [done|]. destruct (_ <=? _); [by apply emits_ret|].
  apply emits_ask_bind; intros _. by apply emits_ret.
Qed.

Abbreviation Qsv := (fun (r : supervision * option ending) p => agrees (sv_reporter (fst r)) p).

Lemma emits_beat_lease p timeout deadline sv :
  agrees (sv_reporter sv) p -> emits p (beat heartbeat timeout deadline sv) Qsv.
Proof.
  intros Ha. unfold beat. apply emits_send_lease; [done|]. intros rp ack p' Ha'.
  unfold after_beat. apply emits_if_ask, emits_if_ask. apply emits_ask_bind. intros [].
  { apply emits_ask_bind; intros _. apply emits_ask_bind; intros _. by apply emits_ret. }
  apply emits_ask_bind; intros now. apply emits_ask_bind; intros m.
  eapply emits_bind; [apply emits_take_lease|]. intros [r|] p2 ->; [by apply emits_ret|].
  destruct (_ <=? _); [|by apply emits_ret]. apply emits_ask_bind; intros _. by apply emits_ret.
Qed.

Lemma emits_supervise_once_lease p timeout deadline sv :
  agrees (sv_reporter sv) p -> emits p (supervise_once heartbeat timeout deadline sv) Qsv.
Proof.
  intros Ha. unfold supervise_once. apply emits_ask_bind; intros now. apply emits_ask_bind. intros [].
  { apply emits_ask_bind; intros _. apply emits_ask_bind; intros _. by apply emits_ret. }
  apply emits_if_ask. cbv zeta. set (sv' := if lease_deadline (sv_reporter sv) <=? now then
    mkSupervision (set_lost (sv_reporter sv)) (next_heartbeat sv) (sv_cancel_requested sv) else sv).
  assert (agrees (sv_reporter sv') p) as Ha'.
  { unfold sv'. destruct (_ <=? now); [by apply agrees_set_lost|done]. }
  clearbody sv'. destruct (deadline <=? now).
  { apply emits_ask_bind; intros _. by apply emits_ret. }
  eapply emits_bind with (Q := Qsv).
  { destruct (next_heartbeat sv' <=? now); [by apply emits_beat_lease|by apply emits_ret]. }
  intros [sv2 [e|]] p2 Ha2; [by apply emits_ret|].
  apply emits_ask_bind; intros now2. apply emits_ask_bind; intros m.
  eapply emits_bind; [apply emits_take_lease|]. intros got p3 ->. by apply emits_ret.
Qed.

Lemma emits_supervise_lease fuel timeout deadline : forall p sv,
  agrees (sv_reporter sv) p ->
  emits p (supervise heartbeat fuel timeout deadline sv)
    (fun r p' => match r with Some (sv', _) => agrees (sv_reporter sv') p' | None => True end).
Proof.
  induction fuel as [|fuel IH]; intros p sv Ha; cbn [supervise]; [by apply emits_ret|].
  eapply emits_bind; [by apply emits_supervise_once_lease|]. intros [sv2 [e|]] p2 Ha2.
  - by apply emits_ret.
  - by apply IH.
Qed.

Abbreviation Qrun := (fun (r : option (Reporter * option Outcome)) p =>
  match r with Some (rp, _) => agrees rp p | None => True end).

Lemma emits_run_lease p fuel job cap rp :
  agrees rp p -> emits p (run expected_generation heartbeat fuel job cap rp) Qrun.
Proof.
  intros Ha. unfold run. apply emits_ask_bind; intros now. apply emits_ask_bind; intros g.
  destruct (negb _); [by apply emits_ret|].
  apply emits_ask_bind; intros _. apply emits_other; [done|]. apply emits_ask_bind; intros now2.
  eapply emits_bind; [by apply emits_supervise_lease|].
  intros [[sv [|r]]|] p2 Ha2; [by apply emits_ret| |by apply emits_ret].
  apply emits_ask_bind; intros _. by apply emits_ret.
Qed.

Lemma emits_current_lease {B} p (k : bool -> Run state B) Q :
  (forall b, emits p (k b) Q) -> emits p (run_bind (policy_current expected_generation) k) Q.
Proof.
  intros Hk. eapply emits_bind with (Q := fun _ p' => p' = p); [|by intros b p' ->].
  apply emits_ask_bind. intros g. by apply emits_ret.
Qed.

Lemma emits_start_lease p fuel job cap rp :
  agrees rp p ->
  emits p (start_and_run expected_generation heartbeat fuel job cap rp) (fun _ _ => True).
Proof.
  intros Ha. unfold start_and_run. apply emits_ask_bind; intros now. apply emits_ask_bind; intros tmp.
  apply emits_on_records. intros [u|e].
  2: { apply emits_send_lease; [done|]. intros. by apply emits_ret. }
  apply emits_other; [done|]. unfold run_recorded. apply emits_current_lease.
  intros [|]; cbn [negb]; [|by apply emits_ret]. apply emits_send_lease; [done|].
  intros rp2 [ack|] p2 Ha2; [|by apply emits_ret]. apply emits_current_lease.
  intros [|]; cbn [negb]; [|by apply emits_ret].
  eapply emits_bind with (Q := Qrun).
  - destruct (cancel_requested ack); [by apply emits_ret|by apply emits_run_lease].
  - intros [[rp3 [o|]]|] p3 Ha3; [|by apply emits_ret..].
    eapply emits_bind; [by apply emits_finish_lease|]. intros _ p' _. by apply emits_ret.
Qed.

(** The lease as granted, by clocks read in the world [w]. *)
Definition granted (job : LeasedJob) (w : outside) : lease_phase :=
  let '(w, now) := instant_now w in
  let '(_, utc) := utc_now w in
  mkLease 0 (now + since (lease_expires_at job) utc) false.

Lemma handle_lease fuel job s s' ok :
  token = lease_token job ->
  handle catalog policy expected_generation heartbeat fuel job s = (s', ok) ->
  exists l w p', acts s' = acts s ++ l /\ steps lease_step (granted job w) l p'.
Proof.
  intros Htok H.
  enough (exists w, forall p, p = granted job w ->
    exists l p', acts s' = acts s ++ l /\ steps lease_step p l p') as (w & Hn).
  { destruct (Hn _ eq_refl) as (l & p' & ? & ?). exists l, w, p'. done. }
  revert H. unfold handle. unfold run_bind at 1.
  destruct (policy_current expected_generation s) as [s1 cur] eqn:E1.
  apply quiet_policy_current in E1 as [_ <-].
  destruct cur; cbn [negb].
  2: { intros [= <- <-]. exists (env s1). intros p _. exists [], p. rewrite app_nil_r. split; [done|constructor]. }
  unfold run_bind at 1. destruct (new_reporter job s1) as [s2 rp] eqn:E2.
  pose proof (quiet_new_reporter job _ _ _ E2) as [_ <-].
  intros H. exists (env s1). intros p Hp.
  assert (agrees rp p) as Ha.
  { rewrite Hp. unfold granted. unfold new_reporter, run_bind, ask in E2.
    destruct (instant_now (env s1)) as [w1 now]. cbn [env] in E2.
    destruct (utc_now w1) as [w2 utc]. injection E2 as _ <-. by repeat split. }
  clear Hp E2.
  assert (forall m, emits p m (fun _ _ => True) -> m s2 = (s', ok) ->
    exists l p', acts s' = acts s2 ++ l /\ steps lease_step p l p') as Hfin.
  { intros m Hm Em. destruct (Hm _ _ _ Em) as (l & p' & ? & ? & _). eauto. }
  destruct (enabled catalog (lj_capability job) policy) as [cap|]; revert H.
  - unfold run_bind at 1, get_records. destruct (get (lj_id job) (recs s2)) as [r|].
    + destruct (outcome r) as [o|]; [|destruct (bool_decide _)]; apply Hfin.
      * apply emits_send_lease; [done|]. intros rp2 [ack|] p2 Ha2.
        -- eapply emits_bind; [apply emits_confirm_lease|]. intros _ p' _. by apply emits_ret.
        -- by apply emits_ret.
      * eapply emits_bind; [by apply emits_finish_lease|]. intros _ p' _. by apply emits_ret.
      * by apply emits_start_lease.
    + apply Hfin. by apply emits_start_lease.
  - apply Hfin. apply emits_send_lease; [done|]. intros. by apply emits_ret.
Qed.
End leases.

(** ** The supervising loop ends *)

(** What the loop needs of the outside world: the clock never runs backwards,
    and waiting on the channel without a message takes the time asked for. *)
Class TimeLaws {U : Uuid} {J : Json} (V : WorkerEnv) := {
  time : outside -> Z;
  instant_reads : forall w, time w <= snd (instant_now w) <= time (fst (instant_now w));
  generation_later : forall w, time w <= time (fst (policy_generation w));
  spawn_later : forall cap v d w, time w <= time (fst (spawn cap v d w));
  stopped_later : forall w, time w <= time (fst (stopped w));
  report_later : forall id rep d w, time w <= time (fst (report_before id rep d w));
  cancel_later : forall w, time w <= time (fst (cancel_runner w));
  join_later : forall w, time w <= time (fst (join w));
  try_recv_later : forall w, time w <= time (fst (try_recv w));
  recv_later : forall d w, time w <= time (fst (recv_timeout d w));
  recv_waits : forall d w, snd (recv_timeout d w) = Nothing -> time w + d <= time (fst (recv_timeout d w)) }.

Section termination.
Context {U : Uuid} {J : Json} {V : WorkerEnv} {L : TimeLaws V}.
Variables (heartbeat : Z).

Definition clock (s : state) : Z := time (env s).

Definition later {A} (m : Run state A) : Prop := forall s, clock s <= clock (fst (m s)).

Lemma run_bind_fst {A B} (m : Run state A) (k : A -> Run state B) s :
  run_bind m k s = k (snd (m s)) (fst (m s)).
Proof. unfold run_bind. by destruct (m s). Qed.

Lemma later_bind {A B} (m : Run state A) (k : A -> Run state B) :
  later m -> (forall a, later (k a)) -> later (run_bind m k).
Proof. intros Hm Hk s. rewrite run_bind_fst. etrans; [apply Hm|apply Hk]. Qed.

Lemma later_ret {A} (a : A) : later (run_ret a).
Proof. intros s. simpl. lia. Qed.

Lemma later_note a : later (note a).
Proof. intros s. unfold clock. simpl. lia. Qed.

Lemma ask_fst {A} (m : Run outside A) s : clock (fst (ask m s)) = time (fst (m (env s))).
Proof. unfold ask. by destruct (m (env s)). Qed.

Lemma ask_snd {A} (m : Run outside A) s : snd (ask m s) = snd (m (env s)).
Proof. unfold ask. by destruct (m (env s)). Qed.

Lemma later_ask {A} (m : Run outside A) :
  (forall w, time w <= time (fst (m w))) -> later (ask m).
Proof. intros Hm s. rewrite ask_fst. apply Hm. Qed.

Lemma now_later : later (ask instant_now).
Proof. apply later_ask. intros w. pose proof (instant_reads w). lia. Qed.

Lemma now_reads s :
  clock s <= snd (ask instant_now s) <= clock (fst (ask instant_now s)).
Proof. rewrite ask_fst, ask_snd. apply instant_reads. Qed.

Lemma later_if_cancel (b : bool) : later (if b then ask cancel_runner else run_ret tt).
Proof. destruct b; [apply later_ask, cancel_later|apply later_ret]. Qed.

Lemma later_send rp kind payload : later (send rp kind payload).
Proof.
  unfold send. destruct (lost rp); [apply later_ret|].
  apply later_bind; [apply now_later|]. intros now. destruct (_ <=? _); [apply later_ret|].
  apply later_bind; [apply now_later|]. intros t.
  apply later_bind; [apply later_ask, report_later|]. intros [ack|e];
    (apply later_bind; [apply later_note|]; intros; apply later_ret).
Qed.

Lemma later_take_result timeout deadline m : later (take_result timeout deadline m).
Proof.
  destruct m as [c r| |]; cbn [take_result]; [|apply later_ret..].
  apply later_bind; [apply later_note|]. intros _. destruct (_ <=? _); [apply later_ret|].
  apply later_bind; [apply later_ask, cancel_later|]. intros. apply later_ret.
Qed.

Lemma take_nothing timeout deadline m s :
  snd (take_result timeout deadline m s) = None -> m = Nothing /\ fst (take_result timeout deadline m s) = s.
Proof.
  destruct m as [c r| |]; cbn [take_result]; [|done..].
  rewrite run_bind_fst. destruct (_ <=? _); [done|]. rewrite run_bind_fst. done.
Qed.

(** A heartbeat that does not end the loop moves the next one at least an
    interval beyond the time it began. *)
Lemma beat_continues timeout deadline sv s s' sv' :
  beat heartbeat timeout deadline sv s = (s', (sv', None)) ->
  clock s <= clock s' /\ clock s + heartbeat <= next_heartbeat sv'.
Proof.
  unfold beat. rewrite run_bind_fst. pose proof (later_send (sv_reporter sv) Progress (json_obj []) s) as H0.
  destruct (send _ _ _ s) as [s0 [rp ack]]. simpl in H0. cbn [fst snd]. unfold after_beat.
  rewrite run_bind_fst. match goal with |- context [fst ((if ?b then ask cancel_runner else run_ret tt) s0)] =>
    pose proof (later_if_cancel b s0) as H1; destruct ((if b then ask cancel_runner else run_ret tt) s0) as [s1 []] end.
  rewrite run_bind_fst. match goal with |- context [fst ((if ?b then ask cancel_runner else run_ret tt) ?x)] =>
    pose proof (later_if_cancel b x) as H2; destruct ((if b then ask cancel_runner else run_ret tt) x) as [s2 []] end.
  cbn [fst snd] in *. rewrite run_bind_fst. pose proof (later_ask stopped stopped_later s2) as H3.
  destruct (ask stopped s2) as [s3 []]; cbn [fst snd] in *; [by rewrite !run_bind_fst|].
  rewrite run_bind_fst. pose proof (now_reads s3) as H4.
  destruct (ask instant_now s3) as [s4 now]. cbn [fst snd] in *.
  rewrite run_bind_fst. pose proof (later_ask try_recv try_recv_later s4) as H5.
  destruct (ask try_recv s4) as [s5 m]. cbn [fst snd] in *.
  rewrite run_bind_fst. pose proof (later_take_result timeout deadline m s5) as H6.
  destruct (take_result timeout deadline m s5) as [s6 [r|]]; cbn [fst snd] in *; [done|].
  destruct (_ <=? _); [by rewrite run_bind_fst|]. intros [= <- <-]. cbn [next_heartbeat]. lia.
Qed.

(** One turn that does not end the loop. *)
Lemma supervise_once_continues timeout deadline sv s s' sv' :
  supervise_once heartbeat timeout deadline sv s = (s', (sv', None)) ->
  clock s <= clock s' /\ clock s < deadline /\
  (next_heartbeat sv < deadline /\ next_heartbeat sv + heartbeat <= next_heartbeat sv' \/
   next_heartbeat sv' = next_heartbeat sv /\ clock s < next_heartbeat sv /\
   (clock s + POLL <= clock s' \/ deadline <= clock s' \/ next_heartbeat sv <= clock s')).
Proof.
  unfold supervise_once. rewrite run_bind_fst. pose proof (now_reads s) as H0.
  destruct (ask instant_now s) as [s0 now]. cbn [fst snd] in *.
  rewrite run_bind_fst. pose proof (later_ask stopped stopped_later s0) as H1.
  destruct (ask stopped s0) as [s1 []]; cbn [fst snd] in *; [by rewrite !run_bind_fst|].
  rewrite run_bind_fst. cbv zeta.
  match goal with |- context [fst ((if ?b then ask cancel_runner else run_ret tt) s1)] =>
    pose proof (later_if_cancel b s1) as H2; destruct ((if b then ask cancel_runner else run_ret tt) s1) as [s2 []] end.
  cbn [fst snd] in *. set (sv1 := if lease_deadline (sv_reporter sv) <=? now then
    mkSupervision (set_lost (sv_reporter sv)) (next_heartbeat sv) (sv_cancel_requested sv) else sv).
  assert (next_heartbeat sv1 = next_heartbeat sv) as Hh by (unfold sv1; by destruct (_ <=? now)).
  clearbody sv1. destruct (Z.leb_spec deadline now) as [?|Hd]; [by rewrite run_bind_fst|].
  rewrite run_bind_fst.
  destruct ((if next_heartbeat sv1 <=? now then beat heartbeat timeout deadline sv1
             else run_ret (sv1, None)) s2) as [s3 [sv3 [e|]]] eqn:Eb; cbn [fst snd]; [done|].
  assert (clock s2 <= clock s3 /\
    (next_heartbeat sv < deadline /\ next_heartbeat sv + heartbeat <= next_heartbeat sv3 \/
     next_heartbeat sv3 = next_heartbeat sv /\ clock s < next_heartbeat sv)) as [H3 Hcase].
  { destruct (Z.leb_spec (next_heartbeat sv1) now) as [Hle|Hlt].
    - apply beat_continues in Eb. lia.
    - injection Eb as <- <-. lia. }
  rewrite run_bind_fst. pose proof (now_reads s3) as H4.
  destruct (ask instant_now s3) as [s4 now2]. cbn [fst snd] in *.
  rewrite run_bind_fst. set (wait := Z.min _ _).
  pose proof (later_ask (recv_timeout wait) (recv_later wait) s4) as H5.
  pose proof (recv_waits wait (env s4)) as H6.
  rewrite <- ask_snd, <- ask_fst in H6. change (time (env s4)) with (clock s4) in H6.
  destruct (ask (recv_timeout wait) s4) as [s5 m]. cbn [fst snd] in *.
  rewrite run_bind_fst. pose proof (take_nothing timeout deadline m s5) as H7.
  destruct (take_result timeout deadline m s5) as [s6 [r|]]; cbn [fst snd] in *; [done|].
  destruct (H7 eq_refl) as [-> ->]. specialize (H6 eq_refl). intros [= <- <-].
  unfold wait, since in H6. lia.
Qed.

(** How many more turns the loop can take: two for every heartbeat left
    before the deadline, one for every poll, one before the next heartbeat. *)
Definition turns_left (deadline now next : Z) : Z :=
  2 * ((Z.max 0 (deadline - next) + (heartbeat - 1)) / heartbeat)
  + (Z.max 0 (deadline - now) + (POLL - 1)) / POLL + (if now <? next then 1 else 0).

Lemma ceil_mono d x y : 0 < d -> x <= y -> (Z.max 0 x + (d - 1)) / d <= (Z.max 0 y + (d - 1)) / d.
Proof. intros Hd Hxy. apply Z.div_le_mono; lia. Qed.

Lemma ceil_drop d x y : 0 < d -> 0 < y -> x <= y - d ->
  (Z.max 0 x + (d - 1)) / d <= (Z.max 0 y + (d - 1)) / d - 1.
Proof.
  intros Hd Hy Hxy. pose proof (Z.div_add (Z.max 0 y + (d - 1)) (-1) d ltac:(lia)) as E.
  destruct (Z.le_gt_cases x 0) as [Hx|Hx].
  - rewrite (Z.max_l 0 x), Z.div_small by lia.
    assert (1 <= (Z.max 0 y + (d - 1)) / d) by (apply Z.div_le_lower_bound; lia). lia.
  - pose proof (Z.div_le_mono (Z.max 0 x + (d - 1)) (Z.max 0 y + (d - 1) + -1 * d) d). lia.
Qed.

Lemma turns_left_decreases timeout deadline sv s s' sv' :
  0 < heartbeat -> supervise_once heartbeat timeout deadline sv s = (s', (sv', None)) ->
  turns_left deadline (clock s') (next_heartbeat sv') < turns_left deadline (clock s) (next_heartbeat sv).
Proof.
  intros Hh H. apply supervise_once_continues in H as (Hc & Hd & H). unfold turns_left.
  assert (0 < POLL) as Hp by (unfold POLL, from_millis; lia).
  pose proof (ceil_mono POLL (deadline - clock s') (deadline - clock s) Hp ltac:(lia)) as HB.
  destruct H as [[Hn Hb]|(-> & Hlt & H)].
  - pose proof (ceil_drop heartbeat (deadline - next_heartbeat sv') (deadline - next_heartbeat sv)
      Hh ltac:(lia) ltac:(lia)) as HA.
    destruct (clock s' <? _), (clock s <? _); lia.
  - destruct (Z.ltb_spec (clock s) (next_heartbeat sv)) as [_|?]; [|lia].
    destruct H as [H|[H|H]].
    + pose proof (ceil_drop POLL (deadline - clock s') (deadline - clock s) Hp ltac:(lia) ltac:(lia)) as HB'.
      destruct (clock s' <? _); lia.
    + assert ((Z.max 0 (deadline - clock s') + (POLL - 1)) / POLL = 0) as ->.
      { rewrite Z.max_l by lia. apply Z.div_small. lia. }
      assert (1 <= (Z.max 0 (deadline - clock s) + (POLL - 1)) / POLL).
      { apply Z.div_le_lower_bound; lia. }
      destruct (clock s' <? _); lia.
    + destruct (Z.ltb_spec (clock s') (next_heartbeat sv)); lia.
Qed.

Lemma turns_left_nonneg deadline now next : 0 < heartbeat -> 0 <= turns_left deadline now next.
Proof.
  intros Hh. assert (0 < POLL) by (unfold POLL, from_millis; lia). unfold turns_left.
  assert (0 <= (Z.max 0 (deadline - next) + (heartbeat - 1)) / heartbeat) by (apply Z.div_pos; lia).
  assert (0 <= (Z.max 0 (deadline - now) + (POLL - 1)) / POLL) by (apply Z.div_pos; lia).
  destruct (_ <? _); lia.
Qed.

Lemma supervise_ends timeout deadline fuel : 0 < heartbeat -> forall sv s,
  turns_left deadline (clock s) (next_heartbeat sv) < Z.of_nat fuel ->
  is_Some (snd (supervise heartbeat fuel timeout deadline sv s)).
Proof.
  intros Hh. induction fuel as [|fuel IH]; intros sv s Hf.
  - pose proof (turns_left_nonneg deadline (clock s) (next_heartbeat sv) Hh). lia.
  - cbn [supervise]. rewrite run_bind_fst.
    destruct (supervise_once heartbeat timeout deadline sv s) as [s' [sv' [e|]]] eqn:E; [done|].
    cbn [fst snd]. apply IH. apply turns_left_decreases in E; [|done]. lia.
Qed.

(** Fuel enough for a job: two turns for every heartbeat and one for every
    poll that fit its timeout, and two more. *)
Definition run_fuel (job : LeasedJob) : nat :=
  let timeout := from_millis (Z.max (timeout_ms job) 1) in
  Z.to_nat (2 * ((timeout + (heartbeat - 1)) / heartbeat) + (timeout + (POLL - 1)) / POLL + 2).

Lemma run_returns gen fuel job cap rp s :
  0 < heartbeat -> (run_fuel job <= fuel)%nat ->
  is_Some (snd (run gen heartbeat fuel job cap rp s)).
Proof.
  intros Hh Hf. unfold run. rewrite run_bind_fst. pose proof (now_reads s) as H0.
  destruct (ask instant_now s) as [s0 now]. cbn [fst snd] in *. set (tm := Z.min _ _).
  rewrite run_bind_fst. pose proof (later_ask policy_generation generation_later s0) as H1.
  destruct (ask policy_generation s0) as [s1 g]. cbn [fst snd] in *.
  destruct (negb _); [done|]. rewrite run_bind_fst.
  pose proof (later_ask (spawn cap (parameters job) (now + tm)) (spawn_later _ _ _) s1) as H2.
  destruct (ask (spawn _ _ _) s1) as [s2 []]. cbn [fst snd] in *. rewrite run_bind_fst.
  pose proof (later_note (ASpawn g (now + tm)) s2) as H3.
  destruct (note _ s2) as [s3 []]. cbn [fst snd] in *. rewrite run_bind_fst.
  pose proof (now_reads s3) as H4. destruct (ask instant_now s3) as [s4 now2]. cbn [fst snd] in *.
  rewrite run_bind_fst.
  assert (is_Some (snd (supervise heartbeat fuel tm (now + tm) (mkSupervision rp (now2 + heartbeat) false) s4)))
    as [[sv e] Hs].
  { apply supervise_ends; [done|]. cbn [next_heartbeat].
    assert (tm <= from_millis (Z.max (timeout_ms job) 1)) as Htm by (unfold tm; lia).
    set (T := from_millis (Z.max (timeout_ms job) 1)) in *.
    assert (0 < T) as HT by (unfold T, from_millis; lia).
    assert (0 < POLL) as HP by (unfold POLL, from_millis; lia).
    pose proof (ceil_mono heartbeat (now + tm - (now2 + heartbeat)) T Hh ltac:(lia)) as HA.
    pose proof (ceil_mono POLL (now + tm - clock s4) T HP ltac:(lia)) as HB.
    rewrite (Z.max_r 0 T) in HA, HB by lia. unfold run_fuel in Hf. fold T in Hf.
    assert (0 <= (T + (heartbeat - 1)) / heartbeat) by (apply Z.div_pos; lia).
    assert (0 <= (T + (POLL - 1)) / POLL) by (apply Z.div_pos; lia).
    unfold turns_left. destruct (_ <? _); lia. }
  rewrite Hs. destruct e; [done|]. by rewrite run_bind_fst.
Qed.

Definition returns (m : Run state bool) : Prop := forall s, snd (m s) = true.

Lemma returns_ret : returns (run_ret true).
Proof. done. Qed.

Lemma returns_bind {A} (m : Run state A) (k : A -> Run state bool) :
  (forall a, returns (k a)) -> returns (run_bind m k).
Proof. intros Hk s. rewrite run_bind_fst. apply Hk. Qed.
End termination.

Section returning.
Context {U : Uuid} {J : Json} {C : RecordCodec} {V : WorkerEnv} {L : TimeLaws V}.
Variables (catalog : list Capability) (policy : JobPolicy) (expected_generation heartbeat : Z).

Lemma start_and_run_returns fuel job cap rp :
  0 < heartbeat -> (run_fuel heartbeat job <= fuel)%nat ->
  returns (start_and_run expected_generation heartbeat fuel job cap rp).
Proof.
  intros Hh Hf. unfold start_and_run. do 2 (apply returns_bind; intros). apply returns_bind.
  intros [u|e]; apply returns_bind; intros; [|apply returns_ret].
  unfold run_recorded. apply returns_bind. intros [|]; cbn [negb]; [|apply returns_ret].
  apply returns_bind. intros [rp2 [ack|]]; [|apply returns_ret].
  apply returns_bind. intros [|]; cbn [negb]; [|apply returns_ret].
  intros s. rewrite run_bind_fst. destruct (cancel_requested ack).
  - cbn [run_ret fst snd]. apply returns_bind. intros. apply returns_ret.
  - destruct (run_returns heartbeat expected_generation fuel job cap rp2 s Hh Hf) as [[rp3 o] ->].
    destruct o; [apply returns_bind; intros|]; apply returns_ret.
Qed.
End returning.

Section theorems.
Context {U : Uuid} {J : Json} {C : RecordCodec} {V : WorkerEnv}.
Variables (catalog : list Capability) (policy : JobPolicy) (expected_generation heartbeat : Z).
Abbreviation handle := (handle catalog policy expected_generation heartbeat).

(** C1. A capability runs only for a job it may run for: whatever Renga, the
    clocks, the disk and the running capability do while a leased job is
    handled, its thread is started at most once, under the policy generation
    in force, only if the policy enables the key, and only if the job is new
    to the record or was left unfinished by a capability that is not
    imperative; and by then the start has been recorded durably and Renga has
    acknowledged it without asking to cancel. *)
Theorem job_runs_only_when_recorded fuel job s s' ok pre g d post :
  handle fuel job s = (s', ok) -> acts s' = acts s ++ pre ++ ASpawn g d :: post ->
  g = expected_generation /\
  may_run (enabled catalog (lj_capability job) policy) (get (lj_id job) (recs s)) /\
  (exists c t rep ack, pre = [ARecorded; AReport c t rep (Ok ack)] /\
     jr_kind rep = Started /\ cancel_requested ack = false) /\
  (forall g' d', ASpawn g' d' ∉ post).
Proof.
  intros H Ha. apply handle_protocol in H as (l & p' & E & Hl). rewrite E in Ha.
  apply app_inv_head in Ha. subst l. apply steps_app_inv in Hl as (p1 & H1 & H2).
  inversion H2 as [|? ? p2 ? ? Hs Hr]; subst. inversion Hs; subst.
  apply reach_acked in H1 as [Hrun Hpre]. split; [done|]. split; [done|]. split; [done|].
  intros g' d'. eapply spawn_once; [exact Hr|]. simpl. lia.
Qed.

(** A redelivered job is not run again: if the record holds the job's
    outcome, or the job was left unfinished by an imperative capability, no
    thread is started and no start is recorded, whatever happens. *)
Theorem redelivered_job_is_not_rerun fuel job s s' ok r cap l g d :
  handle fuel job s = (s', ok) -> acts s' = acts s ++ l ->
  get (lj_id job) (recs s) = Some r -> enabled catalog (lj_capability job) policy = Some cap ->
  outcome r <> None \/ retry_class cap = Imperative ->
  (ASpawn g d ∉ l) /\ (ARecorded ∉ l).
Proof.
  intros H Ha Hr Hc Hno. apply handle_protocol in H as (l' & p' & E & Hl). rewrite E in Ha.
  apply app_inv_head in Ha. subst l'.
  assert (~ may_run (enabled catalog (lj_capability job) policy) (get (lj_id job) (recs s))) as Hrun.
  { intros (cap' & Hc' & Hr'). rewrite Hr in Hr'. rewrite Hc in Hc'. injection Hc' as <-.
    destruct Hr'. tauto. }
  split; intros (pre & post & ->)%list_elem_of_split;
    apply steps_app_inv in Hl as (p1 & H1 & H2); inversion H2 as [|? ? p2 ? ? Hs _]; subst;
    inversion Hs; subst; [|done].
  by apply reach_acked in H1 as [? _].
Qed.

(** A success is reported only if it is real: a [succeeded] report
    either repeats the recorded outcome of a redelivered job, or carries a
    result the capability's thread returned no later than its deadline, and
    that outcome was written to the record before the report was sent. *)
Theorem success_is_recorded_and_in_time fuel job s s' ok pre c t rep ans post :
  handle fuel job s = (s', ok) -> acts s' = acts s ++ pre ++ AReport c t rep ans :: post ->
  jr_kind rep = Succeeded ->
  (exists r o, get (lj_id job) (recs s) = Some r /\ outcome r = Some o /\
               outcome_kind o = Succeeded /\ jr_payload rep = payload o) \/
  (exists g deadline completed v,
     ASpawn g deadline ∈ pre /\ AResult completed (Ok v) ∈ pre /\ completed <= deadline /\
     jr_payload rep = json_obj [(lit "result", v)] /\
     AFinish (mkOutcome Succeeded (jr_payload rep)) ∈ pre).
Proof.
  intros H Ha Hk. apply handle_protocol in H as (l & p' & E & Hl). rewrite E in Ha.
  apply app_inv_head in Ha. subst l. apply steps_app_inv in Hl as (p1 & H1 & H2).
  inversion H2 as [|? ? p2 ? ? Hs _]; subst.
  pose proof (history_steps _ _ _ pre [] SLeased p1 I H1) as Hh. simpl in Hh.
  inversion Hs; subst; try congruence.
  - left. repeat eexists; eauto; congruence.
  - right. cbn [history] in Hh. destruct Hh as [Hf Hsucc].
    destruct Hsucc as (g & d & cc & v & Hg & Hr & Hle & Hp); [congruence|].
    exists g, d, cc, v. split; [done|]. split; [done|]. split; [done|]. split; [congruence|].
    destruct o as [ok_ po]. simpl in *. congruence.
Qed.

(** C26. Reports respect the lease: all reports on one leased job carry its
    token and the numbers 1, 2, 3, ...; each is sent at a moment before the
    lease runs out, as first granted or as last renewed sixty seconds from
    the start of an accepted report; and after Renga answers 401, 403 or 409
    nothing more is sent. *)
Theorem reports_respect_the_lease fuel job s s' ok :
  handle fuel job s = (s', ok) ->
  exists l w p, acts s' = acts s ++ l /\
    steps (lease_step (lease_token job)) (granted job w) l p.
Proof. by apply handle_lease. Qed.

(** C27. Handling a job ends: whatever the server and the capability do, as
    long as the clock does not run backwards and waiting takes the time asked
    for, the supervising loop leaves within a number of turns fixed by the
    job's timeout, the heartbeat and the poll interval, so [handle] returns. *)
Theorem handle_returns (L : TimeLaws V) fuel job s :
  0 < heartbeat -> (run_fuel heartbeat job <= fuel)%nat -> snd (handle fuel job s) = true.
Proof.
  intros Hh Hf. revert s. unfold Worker.handle. apply returns_bind.
  intros [|]; cbn [negb]; [|apply returns_ret]. apply returns_bind. intros rp.
  destruct (enabled catalog (lj_capability job) policy) as [cap|];
    apply returns_bind; intros; [|apply returns_ret].
  destruct (get (lj_id job) _) as [r|]; [|by apply start_and_run_returns].
  destruct (outcome r) as [o|].
  - apply returns_bind. intros [rp2 ack]. apply returns_bind. intros. apply returns_ret.
  - destruct (bool_decide _); [|by apply start_and_run_returns].
    apply returns_bind. intros. apply returns_ret.
Qed.
End theorems.

(** ** A small world, to evaluate the theorems on *)

Section sample.
#[local] Existing Instance tiny_uuid.
#[local] Existing Instance no_json.
#[local] Existing Instance tiny_codec.
Abbreviation id0 := (U0 : @uuid tiny_uuid).
Abbreviation id3 := (U3 : @uuid tiny_uuid).

(** Time is all there is; Renga acknowledges everything, and the capability
    answers at once. *)
#[local] Instance sample_env : WorkerEnv := {|
  outside := Z;
  instant_now := fun w => (w, w);
  utc_now := fun w => (w, w);
  new_uuid := fun w => (w, id3);
  policy_generation := fun w => (w, 7);
  stopped := fun w => (w, false);
  lease := fun _ _ w => (w, Ok []);
  report_before := fun _ _ _ w => (w + 1, Ok (mkAck false));
  spawn := fun _ _ _ w => (w, tt);
  cancel_runner := fun w => (w, tt);
  join := fun w => (w, tt);
  try_recv := fun w => (w, Nothing);
  recv_timeout := fun d w => (w + 1, Received w (Ok (JStr [1]))) |}.

#[local] Instance sample_time : TimeLaws sample_env.
Proof. refine {| time := fun w : outside => w |}; simpl; intros; (lia || discriminate). Defined.

Definition sample_capability : Capability :=
  mkCapability (lit "host.facts") 1 Observe Idempotent (from_secs 30) true.
Definition sample_job : LeasedJob :=
  mkLeased id0 (lit "host.facts@1") JNull 1 [9] (from_secs 60) 1000 100.
Definition sample_policy : JobPolicy := mkPolicy None.
Definition sample_state : state := mkState (0 : outside) (mkRecords (mkWorld ∅ [] false) []) [].

(** The record of one job of the same identifier that already ended. *)
Definition ended_record : JobRecord :=
  mkRecord id0 (lit "host.facts@1") Idempotent 0 (Some (mkOutcome Succeeded JNull)) false.
Definition redelivered_state : state :=
  mkState (0 : outside) (mkRecords (mkWorld ∅ [] false) [ended_record]) [].

Abbreviation sample_handle := (handle [sample_capability] sample_policy 7 HEARTBEAT 200 sample_job).

Lemma job_runs_only_when_recorded_witness :
  exists pre d post,
    acts (fst (sample_handle sample_state)) = pre ++ ASpawn 7 d :: post /\
    (exists c t rep ack, pre = [ARecorded; AReport c t rep (Ok ack)] /\
       jr_kind rep = Started /\ cancel_requested ack = false).
Proof.
  do 3 eexists. split.
  - instantiate (1 := drop 3 (acts (fst (sample_handle sample_state)))).
    instantiate (1 := from_millis 1000 + 1).
    instantiate (1 := take 2 (acts (fst (sample_handle sample_state)))).
    vm_compute. reflexivity.
  - eapply (job_runs_only_when_recorded [sample_capability] sample_policy 7 HEARTBEAT 200 sample_job
      sample_state _ _ (take 2 (acts (fst (sample_handle sample_state))))).
    + apply surjective_pairing.
    + vm_compute. reflexivity.
Defined.

Lemma redelivered_job_is_not_rerun_witness :
  ASpawn 7 5 ∉ acts (fst (sample_handle redelivered_state)).
Proof.
  refine (proj1 (redelivered_job_is_not_rerun [sample_capability] sample_policy 7 HEARTBEAT 200
    sample_job redelivered_state _ _ ended_record sample_capability _ 7 5 _ _ _ _ _)).
  - apply surjective_pairing.
  - reflexivity.
  - vm_compute. reflexivity.
  - vm_compute. reflexivity.
  - left. discriminate.
Defined.

Lemma success_is_recorded_and_in_time_witness :
  exists pre c t rep ans post,
    acts (fst (sample_handle sample_state)) = pre ++ AReport c t rep ans :: post /\
    exists g deadline completed v,
      ASpawn g deadline ∈ pre /\ AResult completed (Ok v) ∈ pre /\ completed <= deadline.
Proof.
  set (l := acts (fst (sample_handle sample_state))).
  assert (exists c t rep ans, l = take 5 l ++ AReport c t rep ans :: drop 6 l /\ jr_kind rep = Succeeded)
    as (c & t & rep & ans & E & Hk).
  { vm_compute. do 4 eexists. split; reflexivity. }
  exists (take 5 l), c, t, rep, ans, (drop 6 l). split; [exact E|].
  destruct (success_is_recorded_and_in_time [sample_capability] sample_policy 7 HEARTBEAT 200 sample_job
    sample_state _ _ (take 5 l) c t rep ans (drop 6 l) (surjective_pairing _) E Hk)
    as [(r & o & Hr & _)|(g & d & k & v & ? & ? & ? & _)].
  - discriminate.
  - exists g, d, k, v. auto.
Defined.

Lemma reports_respect_the_lease_witness :
  exists l w p, acts (fst (sample_handle sample_state)) = l /\
    steps (lease_step [9]) (granted sample_job w) l p.
Proof.
  destruct (reports_respect_the_lease [sample_capability] sample_policy 7 HEARTBEAT 200 sample_job
    sample_state _ _ (surjective_pairing _)) as (l & w & p & E & Hl).
  exists l, w, p. split; [exact E|exact Hl].
Defined.

Lemma handle_returns_witness : snd (sample_handle sample_state) = true.
Proof.
  apply (handle_returns [sample_capability] sample_policy 7 HEARTBEAT sample_time 200 sample_job sample_state).
  - vm_compute. reflexivity.
  - apply Nat.leb_le. vm_compute. reflexivity.
Defined.
End sample.
