(* ===== verification/Osquery.v ===== *)
(** * osquery/mod.rs: the client of osquery's extension manager

    A [Client] is the bytes it may still read from the socket, the bytes it has
    written, and the last sequence number.  Whether each write succeeds is the
    environment's, one answer a call.  [OsqueryApi] is what the queries use of a
    client; [client_api] is the implementation. *)

From Stdlib Require Import String.
From S2P Require Import Prelude Text Thrift.

Inductive Error :=
| OIo (e : option io_error)
| OProtocol (message : bytes)
| OStatus (code : Z) (message : bytes).

(** A row, column name to value. *)
Abbreviation Row := (gmap bytes bytes).

(** What the queries ask of osquery. *)
Class OsqueryApi := {
  client : Type;
  api_query : bytes -> Run client (result (list Row) Error);
  api_query_columns : bytes -> Run client (result (list bytes) Error);
  api_options : Run client (result Row Error) }.

Record Client := mkClient {
  incoming : stream;
  sent : bytes;
  write_faults : list bool;      (* whether the next writes fail *)
  c_seqid : Z }.

Definition call (method : bytes) (args : list (Z * Value)) : ST Client Error Value := fun c =>
  let id := swrap 32 (c_seqid c + 1) in
  match write_faults c with
  | true :: faults => (mkClient (incoming c) (sent c) faults id, Err (OIo None))
  | _ =>
      let sent := sent c ++ write_message CALL method id args in
      let '(rest, reply) := read_message (incoming c) in
      (mkClient rest sent (tl (write_faults c)) id,
       match reply with
       | Err e => Err (OIo (Some e))
       | Ok (header, body) =>
           if kind header =? EXCEPTION then
             let message := match (let+ v := field body 1 in as_str v) with Some m => m | None => [] end in
             Err (OProtocol (method ++ lit " raised: " ++ message))
           else if negb (kind header =? REPLY) || negb (str_eqb (name header) method)
                   || negb (seqid header =? id)
           then Err (OProtocol (lit "unexpected reply to " ++ method))
           else Ok body
       end)
  end.

Definition check_status (status : option Value) : result unit Error :=
  let? status := ok_or status (OProtocol (lit "reply has no status")) in
  match (let+ v := field status 1 in as_i32 v) with
  | Some code =>
      if code =? 0 then Ok tt
      else Err (OStatus code
                  (match (let+ v := field status 2 in as_str v) with Some m => m | None => [] end))
  | None => Err (OProtocol (lit "status has no code"))
  end.

(** Collecting pairs into a map: a later pair replaces an earlier one. *)
Definition collect_row (l : list (bytes * bytes)) : Row :=
  fold_left (fun m kv => <[fst kv := snd kv]> m) l ∅.

Definition row (v : Value) : result Row Error :=
  let? entries := ok_or (as_map v) (OProtocol (lit "a row is not a map")) in
  let? pairs := result_map (fun '(column, cell) =>
    match as_str column, as_str cell with
    | Some c, Some v => Ok (c, v)
    | _, _ => Err (OProtocol (lit "a row holds a non-string"))
    end) entries in
  Ok (collect_row pairs).

(** [ping]. *)
Definition ping : ST Client Error unit :=
  let* r := call (lit "ping") [] in
  st_of_result (check_status (field r 0)).

Definition response (method sql : bytes) : ST Client Error (list Row) :=
  let* r := call method [(1, VString sql)] in
  st_of_result (
    let? response := ok_or (field r 0) (OProtocol (method ++ lit " returned no response")) in
    let? _ := check_status (field response 1) in
    let? rows := match field response 2 with
                 | Some rows => ok_or (as_list rows) (OProtocol (method ++ lit " rows are not a list"))
                 | None => Ok []
                 end in
    result_map row rows).

Definition query (sql : bytes) : ST Client Error (list Row) := response (lit "query") sql.

(** [row.into_keys().next()] of an ordered map: the least key. *)
Definition first_key (r : Row) : option bytes :=
  fold_left (fun least k => match least with
                            | Some m => if bytes_leb m k then Some m else Some k
                            | None => Some k
                            end) (map fst (map_to_list r)) None.

Definition query_columns (sql : bytes) : ST Client Error (list bytes) :=
  let* rows := response (lit "getQueryColumns") sql in
  st_of_result (result_map (fun r => ok_or (first_key r) (OProtocol (lit "a column has no name"))) rows).

Definition options : ST Client Error Row :=
  let* r := call (lit "options") [] in
  st_of_result (
    let? options := ok_or (let+ v := field r 0 in as_map v) (OProtocol (lit "options returned no map")) in
    let? pairs := result_map (fun '(name, info) =>
      match as_str name, (let+ v := field info 1 in as_str v) with
      | Some n, Some v => Ok (n, v)
      | _, _ => Err (OProtocol (lit "malformed option"))
      end) options in
    Ok (collect_row pairs)).

(** ** The backend's status *)

Definition SOCKET_DEFAULT : bytes := lit "/var/osquery/osquery.em".
Definition PROBE_TIMEOUT : Z := from_secs 5.

Record OsqueryConfig := mkOsquery { osquery_enabled : bool; socket : bytes }.

Definition default_osquery : OsqueryConfig := mkOsquery true SOCKET_DEFAULT.

(** [from_raw] of the optional fields of the section; a path is absolute on
    unix when it starts with a slash. *)
Definition from_raw (raw : option (option bool * option bytes)) : result OsqueryConfig bytes :=
  let '(enabled, path) := match raw with Some r => r | None => (None, None) end in
  let socket := match path with Some s => s | None => SOCKET_DEFAULT end in
  if negb (starts_with (lit "/") socket) then Err (lit "osquery.socket must be an absolute path")
  else Ok (mkOsquery (match enabled with Some b => b | None => true end) socket).

Inductive BackendStatus :=
| Available (version : option bytes)
| NotPermitted
| NotPresent.

(** How [Client::connect] may fail. *)
Inductive connect_error := PermissionDenied | OtherConnectError.

(** [probe], with what connecting to the configured socket gives. *)
Definition probe (config : OsqueryConfig) (connect : result Client connect_error) : option BackendStatus :=
  if negb (osquery_enabled config) then None
  else
    match connect with
    | Err PermissionDenied => Some NotPermitted
    | Err OtherConnectError => Some NotPresent
    | Ok c =>
        match ping c with
        | (_, Err _) => Some NotPresent
        | (c, Ok _) =>
            let '(_, rows) := query (lit "SELECT version FROM osquery_info") c in
            Some (Available (
              let+ rows := ok rows in
              let+ row := head rows in
              let+ version := row !! lit "version" in
              if negb (bool_decide (version = [])) && (zlength version <=? 64) then Some version else None))
        end
    end.

#[export] Instance client_api : OsqueryApi := {|
  client := Client;
  api_query := query;
  api_query_columns := query_columns;
  api_options := options |}.

(** ** A daemon that answers *)

Definition cells (r : list (bytes * bytes)) : Value :=
  VMap STRING STRING (map (fun kv => (VString (fst kv), VString (snd kv))) r).

(** An [ExtensionResponse]: a status and rows. *)
Definition extension_response (code : Z) (message : bytes) (rows : list (list (bytes * bytes)))
  : list (Z * Value) :=
  [(0, VStruct [(1, VStruct [(1, VI32 code); (2, VString message)]); (2, VList MAP (map cells rows))])].

Definition utf8_row (r : list (bytes * bytes)) : Prop :=
  Forall (fun kv => utf8_valid (fst kv) = true /\ utf8_valid (snd kv) = true) r.

Lemma row_cells r : utf8_row r -> row (cells r) = Ok (collect_row r).
Proof.
  intros Hr. unfold row, cells. cbn [as_map ok_or result_bind].
  rewrite (result_map_ok _ (fun kv => match kv with (VString a, VString b) => (a, b) | _ => ([], []) end)).
  - cbn [result_bind]. rewrite map_map. cbn. f_equal. f_equal.
    rewrite <- (map_id r) at 2. apply map_ext. by intros [a b].
  - apply List.Forall_forall. intros kv Hin. apply in_map_iff in Hin as ([a b] & <- & Hin).
    unfold utf8_row in Hr. rewrite List.Forall_forall in Hr. destruct (Hr _ Hin) as [Ha Hb].
    cbn [fst snd] in *. cbn [as_str]. by rewrite !from_utf8_lossy_valid.
Qed.

Lemma rows_of_cells rows :
  Forall utf8_row rows -> result_map row (map cells rows) = Ok (map collect_row rows).
Proof. induction 1 as [|r rows Hr Hrows IH]; simpl; [done|]. by rewrite row_cells, IH. Qed.

Lemma check_status_response code message :
  utf8_valid message = true ->
  check_status (Some (VStruct [(1, VI32 code); (2, VString message)]))
  = if code =? 0 then Ok tt else Err (OStatus code message).
Proof.
  intros Hm. rewrite <- (from_utf8_lossy_valid message) at 2 by done. reflexivity.
Qed.

Lemma list_max_const {A} (f : A -> nat) n l : (forall x, f x <= n)%nat -> (list_max (map f l) <= n)%nat.
Proof. intros Hf. induction l as [|x l IH]; simpl; [lia|]. pose proof (Hf x). lia. Qed.

Lemma cells_depth r : (value_depth (cells r) <= 1)%nat.
Proof.
  cbn [cells value_depth]. rewrite map_map. apply list_max_const. intros [a b]. done.
Qed.

Lemma extension_response_depth code message rows :
  (value_depth (VStruct (extension_response code message rows)) <= MAX_DEPTH)%nat.
Proof.
  assert (list_max (map (fun w => S (value_depth w)) (map cells rows)) <= 2)%nat as H.
  { rewrite map_map. apply list_max_const. intros r. pose proof (cells_depth r). lia. }
  cbn [extension_response value_depth map list_max foldr]. unfold MAX_DEPTH. lia.
Qed.

(** Exactly one request goes out, and its reply is taken off the stream. *)
Lemma call_answered method args c reply rest e faults :
  let id := swrap 32 (c_seqid c + 1) in
  write_faults c = false :: faults ->
  utf8_valid method = true -> value_wf (VStruct reply) = true ->
  (value_depth (VStruct reply) <= MAX_DEPTH)%nat ->
  zlength (write_message REPLY method id reply) <= MAX_REPLY_BYTES ->
  incoming c = mkStream (write_message REPLY method id reply ++ rest) e ->
  call method args c
  = (mkClient (mkStream rest e) (sent c ++ write_message CALL method id args) faults id,
     Ok (VStruct reply)).
Proof.
  intros id Hf Hm Hwf Hd Hl Hi. unfold call. rewrite Hf. cbn [tl]. fold id. rewrite Hi.
  assert (in_s 32 id = true) as Hid.
  { apply in_s_spec. unfold id, swrap. change (2 ^ (32 - 1)) with (2 ^ 31).
    pose proof (Z.mod_pos_bound (c_seqid c + 1) (2 ^ 32) ltac:(lia)).
    destruct (Z.ltb_spec ((c_seqid c + 1) mod 2 ^ 32) (2 ^ 31)); lia. }
  rewrite read_written_message by done. cbn [kind name seqid].
  rewrite str_eqb_refl, !Z.eqb_refl. reflexivity.
Qed.

(** The osquery client: when the daemon answers the call just made with a
    status and rows of text, the client has sent exactly that one request, has
    consumed exactly that reply, and returns the rows in order if the status is
    zero and the daemon's error otherwise. *)
Theorem query_answered sql c code message rows rest e faults :
  let id := swrap 32 (c_seqid c + 1) in
  let reply := extension_response code message rows in
  write_faults c = false :: faults ->
  value_wf (VStruct reply) = true -> Forall utf8_row rows -> utf8_valid message = true ->
  zlength (write_message REPLY (lit "query") id reply) <= MAX_REPLY_BYTES ->
  incoming c = mkStream (write_message REPLY (lit "query") id reply ++ rest) e ->
  query sql c
  = (mkClient (mkStream rest e)
       (sent c ++ write_message CALL (lit "query") id [(1, VString sql)]) faults id,
     if code =? 0 then Ok (map collect_row rows) else Err (OStatus code message)).
Proof.
  intros id reply Hf Hwf Hrows Hmsg Hl Hi. unfold query, response, st_bind.
  erewrite call_answered; [|exact Hf|reflexivity|exact Hwf|apply extension_response_depth|exact Hl|exact Hi].
  unfold st_of_result. f_equal.
  transitivity (let? _ := check_status (Some (VStruct [(1, VI32 code); (2, VString message)])) in
                result_map row (map cells rows)); [reflexivity|].
  rewrite check_status_response by done. destruct (code =? 0); [|done]. cbn [result_bind].
  by rewrite rows_of_cells.
Qed.

Lemma query_answered_witness :
  let reply := extension_response 0 [] [[(lit "name", lit "sshd"); (lit "pid", lit "7")]] in
  let c := mkClient (mkStream (write_message REPLY (lit "query") 4 reply ++ [1; 2]) None) [] [false] 3 in
  query (lit "SELECT 1") c
  = (mkClient (mkStream [1; 2] None) (write_message CALL (lit "query") 4 [(1, VString (lit "SELECT 1"))]) [] 4,
     Ok [collect_row [(lit "name", lit "sshd"); (lit "pid", lit "7")]]).
Proof.
  intros reply c.
  apply (query_answered (lit "SELECT 1") c 0 [] [[(lit "name", lit "sshd"); (lit "pid", lit "7")]] [1; 2] None []).
  - reflexivity.
  - vm_compute. reflexivity.
  - repeat constructor.
  - reflexivity.
  - vm_compute. discriminate.
  - reflexivity.
Defined.
