(* ===== verification/OsquerySocket.v ===== *)
(** * osquery/mod.rs: the socket of a connection

    [Client::connect] and [Timed]: every read and write of a connection is given only
    the time left before one deadline, so a daemon that trickles a byte at a time cannot
    hold a caller.  The Unix socket is [UnixSocket], every answer of it arbitrary; the
    timeouts it is given are recorded.  [Prompt] says that it keeps them. *)

From Stdlib Require Import String.
From S2P Require Import Prelude Text Osquery.

#[local] Set Warnings "-notation-overridden".

(** [io::Error], by what the code looks at. *)
Inductive SocketError := Denied | TimedOut (message : bytes) | OtherSocketError (message : bytes).

Inductive direction := Reading | Writing.

Class UnixSocket := {
  sock : Type;
  sock_instant : Run sock Z;                                            (* [Instant::now] *)
  sock_new : Run sock (result unit SocketError);                        (* [Socket::new] *)
  sock_address : bytes -> result bytes SocketError;                     (* [SockAddr::unix] *)
  sock_connect : bytes -> Z -> Run sock (result unit SocketError);      (* [connect_timeout] *)
  sock_clone : Run sock (result unit SocketError);                      (* [try_clone] *)
  sock_set_timeout : direction -> Z -> Run sock (result unit SocketError);
  sock_read : Z -> Run sock (result bytes SocketError);                 (* at most so many bytes *)
  sock_write : bytes -> Run sock (result Z SocketError);
  sock_flush : Run sock (result unit SocketError) }.

Section socket.
Context {X : UnixSocket}.

(** A timeout given to the socket, with the reading of the clock it comes from. *)
Record grant := mkGrant { asked_at : Z; given : Z }.

Abbreviation S := (ST (sock * list grant) SocketError).

Definition on {A} (f : Run sock (result A SocketError)) : S A := fun s => let '(w, r) := f (fst s) in ((w, snd s), r).
Definition instant_now : S Z := fun s => let '(w, t) := sock_instant (fst s) in ((w, snd s), Ok t).
Definition grants (g : grant) : S unit := fun s => ((fst s, snd s ++ [g]), Ok tt).

(** [Timed::left], with the reading it made. *)
Definition left (deadline : Z) : S grant :=
  let* now := instant_now in
  let left := since deadline now in
  if left =? 0 then st_err (TimedOut (lit "osquery took too long")) else st_ret (mkGrant now left).

Definition set_timeout (d : direction) (deadline : Z) : S unit :=
  let* g := left deadline in
  let* _ := grants g in
  on (sock_set_timeout d (given g)).

Definition timed_read (deadline n : Z) : S bytes :=
  let* _ := set_timeout Reading deadline in on (sock_read n).
Definition timed_write (deadline : Z) (buf : bytes) : S Z :=
  let* _ := set_timeout Writing deadline in on (sock_write buf).
Definition timed_flush : S unit := on sock_flush.

(** [Client::connect]: the connection's deadline.  [None] is a deadline past the last
    instant, a panic. *)
Definition connect (socket : bytes) (timeout : Z) : S (option Z) :=
  let* now := instant_now in
  match checked_add_instant now timeout with
  | None => st_ret None
  | Some deadline =>
      let* _ := on sock_new in
      let* address := st_of_result (sock_address socket) in
      let* _ := on (sock_connect address timeout) in
      let* _ := on sock_clone in
      st_ret (Some deadline)
  end.

(** How the probe sees a failure to connect. *)
Definition connect_error_of (e : SocketError) : connect_error :=
  match e with Denied => PermissionDenied | _ => OtherConnectError end.

(** ** What a caller waits for *)

(** What the buffered reader and writer of a call ask of the socket, until it fails. *)
Inductive op := ORead (n : Z) | OWrite (buf : bytes) | OFlush.

Definition perform (deadline : Z) (o : op) : S unit :=
  match o with
  | ORead n => let* _ := timed_read deadline n in st_ret tt
  | OWrite buf => let* _ := timed_write deadline buf in st_ret tt
  | OFlush => timed_flush
  end.

Fixpoint perform_all (deadline : Z) (os : list op) : S unit :=
  match os with
  | [] => st_ret tt
  | o :: os' => let* _ := perform deadline o in perform_all deadline os'
  end.

(** The socket keeps its timeouts: a call returns within the one last set for its
    direction, [limit].  Reading the clock, setting a timeout and flushing (a Unix socket
    has nothing to flush) take no time of their own. *)
Class Prompt := {
  time : sock -> Z;
  limit : direction -> sock -> Z;
  instant_exact : forall s, let '(s', t) := sock_instant s in t = time s /\ time s' = t;
  set_exact : forall d n s, let '(s', r) := sock_set_timeout d n s in
    time s' = time s /\ (r = Ok tt -> limit d s' = n);
  read_prompt : forall n s, time (fst (sock_read n s)) <= time s + limit Reading s;
  write_prompt : forall buf s, time (fst (sock_write buf s)) <= time s + limit Writing s;
  flush_exact : forall s, time (fst (sock_flush s)) = time s }.
Context {P : Prompt}.

(** Each grant ends at the deadline, and by then the socket has returned. *)
Definition bounded (deadline start : Z) (before : list grant) (s : sock * list grant) : Prop :=
  (exists new, snd s = before ++ new /\ Forall (fun g => 0 < given g /\ asked_at g + given g = deadline) new) /\
  time (fst s) <= Z.max start deadline.

Definition keeps {A} (deadline start : Z) (before : list grant) (m : S A) : Prop :=
  forall s s' r, bounded deadline start before s -> m s = (s', r) -> bounded deadline start before s'.

Section within.
Context (deadline start : Z) (before : list grant).

Lemma keeps_bind {A B} (m : S A) (k : A -> S B) :
  keeps deadline start before m -> (forall a, keeps deadline start before (k a)) -> keeps deadline start before (st_bind m k).
Proof.
  intros Hm Hk s s' r Hs. unfold st_bind. destruct (m s) as [s1 [a|e]] eqn:E1.
  - by eapply Hk, Hm.
  - intros [= <- <-]. by eapply Hm.
Qed.
Lemma keeps_ret {A} (a : A) : keeps deadline start before (st_ret a).
Proof. by intros s s' r Hs [= <- <-]. Qed.

(** One operation under the timeout just set. *)
Lemma timed_keeps {A} d (call : Run sock (result A SocketError)) :
  (forall s, time (fst (call s)) <= time s + limit d s) ->
  keeps deadline start before (let* _ := set_timeout d deadline in on call).
Proof.
  intros Hc [w l] s' r [(new & Hl & Hn) Ht]. cbn [fst snd] in *. unfold set_timeout, left, instant_now, grants, on, st_bind. cbn [fst snd].
  pose proof (instant_exact w) as Hi. destruct (sock_instant w) as [w1 t]. destruct Hi as [-> H1]. cbn [fst snd].
  unfold since. destruct (Z.eqb_spec (Z.max 0 (deadline - time w)) 0).
  { intros [= <- <-]. split; [by exists new|]. cbn [fst]. lia. }
  cbn [st_ret fst snd given]. pose proof (set_exact d (Z.max 0 (deadline - time w)) w1) as Hs.
  destruct (sock_set_timeout _ _ w1) as [w2 r2]. destruct Hs as [H2 Hok].
  assert (exists n', l ++ [mkGrant (time w) (Z.max 0 (deadline - time w))] = before ++ n' /\
    Forall (fun g => 0 < given g /\ asked_at g + given g = deadline) n') as Hg.
  { eexists. rewrite Hl, <- app_assoc. split; [reflexivity|]. apply Forall_app. split; [done|]. repeat constructor; cbn; lia. }
  destruct r2 as [[]|e]; [|intros [= <- <-]; split; [done|cbn; lia]].
  cbn [fst snd]. specialize (Hc w2). destruct (call w2) as [w3 r3]. cbn [fst] in *. intros [= <- <-]. split; [done|]. cbn [fst].
  rewrite (Hok eq_refl) in Hc. lia.
Qed.

Lemma perform_keeps o : keeps deadline start before (perform deadline o).
Proof.
  destruct o as [n|buf|]; cbn [perform].
  - apply keeps_bind; [apply timed_keeps, read_prompt|intros ?; apply keeps_ret].
  - apply keeps_bind; [apply timed_keeps, write_prompt|intros ?; apply keeps_ret].
  - intros [w l] s' r [Hl Ht]. unfold timed_flush, on. cbn [fst snd]. pose proof (flush_exact w) as Hf.
    destruct (sock_flush w) as [w1 r1]. intros [= <- <-]. split; [done|]. cbn [fst] in *. lia.
Qed.

Lemma perform_all_keeps os : keeps deadline start before (perform_all deadline os).
Proof. induction os as [|o os IH]; cbn [perform_all]; [apply keeps_ret|]. apply keeps_bind; [apply perform_keeps|done]. Qed.
End within.

(** Whatever the daemon does and however a call reads and writes: the socket is only
    ever given timeouts that end at the connection's deadline, the timeout after
    connecting began, so no caller is held past it; and at the deadline and later a read or write
    fails without touching the socket. *)
Theorem osquery_calls_end (socket : bytes) (timeout deadline : Z) (os : list op) (w : sock) (s s' : sock * list grant) (r : result unit SocketError) :
  connect socket timeout (w, []) = (s, Ok (Some deadline)) ->
  perform_all deadline os s = (s', r) ->
  deadline = time w + timeout /\
  Forall (fun g => 0 < given g /\ asked_at g + given g = deadline) (snd s') /\
  time (fst s') <= Z.max (time (fst s)) deadline /\
  (deadline <= time (fst s') -> forall n buf, exists w',
     timed_read deadline n s' = ((w', snd s'), Err (TimedOut (lit "osquery took too long"))) /\
     timed_write deadline buf s' = ((w', snd s'), Err (TimedOut (lit "osquery took too long")))).
Proof.
  intros Hc Hp.
  assert (deadline = time w + timeout /\ snd s = []) as [Hd Hg].
  { revert Hc. unfold connect, instant_now, on, st_bind, st_of_result. cbn [fst snd]. pose proof (instant_exact w) as Hi.
    destruct (sock_instant w) as [w1 t]. destruct Hi as [-> _]. unfold checked_add_instant. destruct (_ <=? _); [|done]. cbn [fst snd].
    destruct (sock_new w1) as [w2 [[]|]]; [|done]. destruct (sock_address socket) as [addr|]; [|done]. cbn [fst snd].
    destruct (sock_connect addr timeout w2) as [w3 [[]|]]; [|done]. cbn [fst snd]. destruct (sock_clone w3) as [w4 [[]|]]; [|done].
    by intros [= <- <-]. }
  apply (perform_all_keeps deadline (time (fst s)) []) in Hp as [(new & Hn & Hf) Ht]; [|split; [by exists []|lia]].
  split; [done|]. split; [by rewrite Hn|]. split; [done|]. intros Hlate n buf.
  pose proof (instant_exact (fst s')) as Hi. exists (fst (sock_instant (fst s'))).
  unfold timed_read, timed_write, set_timeout, left, instant_now, st_bind. destruct (sock_instant (fst s')) as [w1 t].
  destruct Hi as [-> _]. unfold since. destruct (Z.eqb_spec (Z.max 0 (deadline - time (fst s'))) 0); [by split|lia].
Qed.
End socket.

(** ** A daemon that trickles, to evaluate the theorem on *)

Section sample.
(** The clock and the timeouts last set; each read takes two seconds, or the timeout. *)
#[local] Instance trickle : UnixSocket := {|
  sock := Z * (Z * Z);
  sock_instant := fun s => (s, fst s);
  sock_new := fun s => (s, Ok tt);
  sock_address := fun p => Ok p;
  sock_connect := fun _ _ s => (s, Ok tt);
  sock_clone := fun s => (s, Ok tt);
  sock_set_timeout := fun d n s => ((fst s, match d with Reading => (n, snd (snd s)) | Writing => (fst (snd s), n) end), Ok tt);
  sock_read := fun _ s => let took := Z.min (from_secs 2) (fst (snd s)) in
                          ((fst s + took, snd s), if took <? from_secs 2 then Err (OtherSocketError []) else Ok [0]);
  sock_write := fun b s => ((fst s + Z.min 0 (snd (snd s)), snd s), Ok (zlength b));
  sock_flush := fun s => (s, Ok tt) |}.

#[local] Instance trickle_prompt : Prompt.
Proof.
  refine {| time := fst; limit := fun d (s : @sock trickle) => match d with Reading => fst (snd s) | Writing => snd (snd s) end |};
    cbn; intros; try (destruct d); try (by split); try done; lia.
Defined.

Lemma osquery_calls_end_witness :
  let s := (((0, (0, 0)) : @sock trickle), [] : list grant) in
  exists s', perform_all (from_secs 5) [OWrite [1]; OFlush; ORead 1; ORead 1; ORead 1; ORead 1] s = (s', Err (OtherSocketError [])) /\
    fst (fst s') = from_secs 5 /\ map given (snd s') = [from_secs 5; from_secs 5; from_secs 3; from_secs 1] /\
    Forall (fun g => 0 < given g /\ asked_at g + given g = from_secs 5) (snd s').
Proof.
  eexists. split; [vm_compute; reflexivity|]. split; [vm_compute; reflexivity|]. split; [vm_compute; reflexivity|].
  refine (proj1 (proj2 (osquery_calls_end (lit "/var/osquery/osquery.em") (from_secs 5) (from_secs 5)
    [OWrite [1]; OFlush; ORead 1; ORead 1; ORead 1; ORead 1] (0, (0, 0)) ((0, (0, 0)), []) _ _ _ _))); vm_compute; reflexivity.
Defined.
End sample.
