(* ===== verification/Queries.v ===== *)
(** * jobs/queries/mod.rs: what the operational queries share

    [Bounded] result lists, clipped texts, osquery cells, and running a [Query]
    as a capability: osquery first where it is enabled, the native reading
    otherwise.  The size of an item's JSON is serde's, an argument. *)

From Stdlib Require Import String.
From S2P Require Import Prelude Text Interfaces Jobs Osquery.

Definition OSQUERY_SHARE : Z := 5.
Definition RESULT_BUDGET_BYTES : Z := 48 * 1024.

Inductive Sensitivity := SInventory | SSensitive.

#[export] Instance Sensitivity_eq_dec : EqDecision Sensitivity.
Proof. solve_decision. Defined.

Definition failed (reason : bytes) : JobFailure := Failed reason.

(** ** Bounded lists *)

Section bounded.
Context {T : Type}.
(** The length of [serde_json::to_vec(&item)], if it can be encoded. *)
Variable json_size : T -> option Z.

Record Bounded := mkBounded {
  items : list T;
  max_items : Z;
  budget : Z;
  used : Z;
  truncated : bool }.

Definition with_budget (max_items budget : Z) : Bounded :=
  mkBounded [] max_items (Z.min budget RESULT_BUDGET_BYTES) 0 false.
Definition bounded_new (max_items : Z) : Bounded := with_budget max_items RESULT_BUDGET_BYTES.

Definition item_size (item : T) : Z :=
  match json_size item with Some n => n + 1 | None => USIZE_MAX end.

Definition push (b : Bounded) (item : T) : Bounded * bool :=
  if truncated b then (b, false)
  else
    let size := item_size item in
    if (max_items b <=? zlength (items b)) || (budget b <? Z.min USIZE_MAX (used b + size))
    then (mkBounded (items b) (max_items b) (budget b) (used b) true, false)
    else (mkBounded (items b ++ [item]) (max_items b) (budget b) (used b + size) false, true).

Definition into_parts (b : Bounded) : list T * bool := (items b, truncated b).

(** The callers' loop: [for item in .. { if !list.push(item) { break; } }]. *)
Fixpoint push_all (b : Bounded) (l : list T) : Bounded :=
  match l with
  | [] => b
  | x :: l' => let '(b, fitted) := push b x in if (fitted : bool) then push_all b l' else b
  end.

(** What a bounded list maintains. *)
Definition bounded_ok (b : Bounded) : Prop :=
  used b = zsum (map item_size (items b)) /\ 0 <= used b <= budget b /\
  budget b <= RESULT_BUDGET_BYTES /\ zlength (items b) <= Z.max 0 (max_items b).

Hypothesis json_size_nonneg : forall x n, json_size x = Some n -> 0 <= n.

Lemma item_size_pos x : 0 < item_size x.
Proof.
  unfold item_size. destruct (json_size x) eqn:E; [apply json_size_nonneg in E; lia|].
  unfold USIZE_MAX. lia.
Qed.

Lemma push_ok b x : bounded_ok b -> bounded_ok (fst (push b x)).
Proof.
  intros (Hu & Hb & Hr & Hm). unfold push. destruct (truncated b); [done|].
  destruct (_ || _) eqn:Hfull; [done|]. bool_simpl. pose proof (item_size_pos x).
  assert (Z.min USIZE_MAX (used b + item_size x) = used b + item_size x) as E.
  { apply Z.min_r. unfold RESULT_BUDGET_BYTES, USIZE_MAX in *. lia. }
  unfold bounded_ok. cbn [fst used items budget max_items].
  rewrite map_app, zsum_app. unfold zlength in *. rewrite length_app. simpl. lia.
Qed.

Lemma push_all_spec l : forall b,
  bounded_ok b -> truncated b = false ->
  let b' := push_all b l in
  bounded_ok b' /\ budget b' = budget b /\ max_items b' = max_items b /\
  exists k, items b' = items b ++ take k l /\
    (truncated b' = false -> items b' = items b ++ l) /\
    (truncated b' = true -> exists x, l !! k = Some x /\
       (max_items b <= zlength (items b') \/ budget b < used b' + item_size x)).
Proof.
  induction l as [|x l IH]; intros b Hb Ht; cbn [push_all].
  - split; [done|]. split; [done|]. split; [done|]. exists O. cbn [take]. rewrite !app_nil_r. split; [done|].
    split; [done|]. by rewrite Ht.
  - pose proof (push_ok b x Hb) as Hp. unfold push in *. rewrite Ht in *.
    destruct (_ || _) eqn:Hfull.
    + split; [done|]. split; [done|]. split; [done|]. exists O. cbn [items take truncated used].
      rewrite app_nil_r. split; [done|]. split; [done|]. intros _. exists x. split; [done|].
      apply orb_true_iff in Hfull as [H|H]; bool_simpl; [by left|right]. lia.
    + cbn [fst] in Hp. set (b1 := mkBounded _ _ _ _ _) in *.
      destruct (IH b1 Hp eq_refl) as (H1 & H2 & H3 & k & H4 & H5 & H6).
      split; [done|]. split; [done|]. split; [done|].
      exists (S k). cbn [take lookup list_lookup]. cbn [b1 items] in H4, H5.
      rewrite <- app_assoc in H4, H5. split; [done|]. split; [done|]. exact H6.
Qed.
End bounded.

Arguments Bounded T : clear implicits.

(** ** Texts and cells *)

(** [value.chars().take(max).collect()]. *)
Definition clip (value : bytes) (max : nat) : bytes := concat (take max (char_chunks value)).

Lemma clip_short value max : (length (char_chunks value) <= max)%nat -> clip value max = value.
Proof. intros H. unfold clip. rewrite take_ge by done. apply concat_char_chunks. Qed.

Definition osquery_u64 (r : Row) (column : bytes) : option Z :=
  let+ v := r !! column in parse_uint U64_MAX v.

Definition osquery_text (r : Row) (column : bytes) : option bytes :=
  let+ v := r !! column in if bool_decide (v = []) then None else Some v.

(** ** Running a query as a capability *)

Section query.
Context {J : Json} {W : Type}.
Context (cancelled : Run W bool).

Record Query := mkQuery {
  q_name : bytes;
  sensitivity : Sensitivity;
  q_timeout : Z;
  uses_osquery : bool;
  answer : json -> Run W (result json JobFailure);
  (* from a connection with the given budget, if one can be made *)
  connect_and_answer : Z -> json -> Run W (option (result (option json) JobFailure)) }.

(** [QueryCapability] as a [Capability]. *)
Definition query_capability (q : Query) : Capability :=
  mkCapability (q_name q) 1 Observe Idempotent (q_timeout q) (bool_decide (sensitivity q = SInventory)).

Definition with_osquery (enabled : bool) (q : Query) (parameters : json)
  : Run W (result (option json) JobFailure) :=
  if negb enabled || negb (uses_osquery q) then run_ret (Ok None)
  else
    let budget := q_timeout q / OSQUERY_SHARE in
    let! answered := connect_and_answer q budget parameters in
    run_ret (match answered with Some r => r | None => Ok None end).

Definition run_query (enabled : bool) (q : Query) (parameters : json) : Run W (result json JobFailure) :=
  let! stop := cancelled in
  if (stop : bool) then run_ret (Err Cancelled)
  else
    let! first := with_osquery enabled q parameters in
    match first with
    | Err e => run_ret (Err e)
    | Ok (Some v) => run_ret (Ok v)
    | Ok None =>
        let! stop := cancelled in
        if (stop : bool) then run_ret (Err Cancelled) else answer q parameters
    end.
End query.

(** A bounded result list: pushing items until one does not fit keeps a
    prefix of them whose encoded size with separators stays within the budget
    and the result limit and whose number stays within the item limit; nothing
    is missing unless the list says it is truncated, and then the first missing
    item really did not fit. *)
Theorem bounded_list_complete_or_truncated {T} (json_size : T -> option Z) max_items budget l :
  (forall x n, json_size x = Some n -> 0 <= n) -> 0 <= budget -> 0 <= max_items ->
  let '(kept, cut) := into_parts (push_all json_size (with_budget max_items budget) l) in
  exists k, kept = take k l /\ zlength kept <= max_items /\
    zsum (map (item_size json_size) kept) <= Z.min budget RESULT_BUDGET_BYTES /\
    (cut = false -> kept = l) /\
    (cut = true -> exists x, l !! k = Some x /\
       (max_items <= zlength kept \/
        Z.min budget RESULT_BUDGET_BYTES < zsum (map (item_size json_size) kept) + item_size json_size x)).
Proof.
  intros Hj Hb Hm. assert (bounded_ok json_size (with_budget (T := T) max_items budget)) as H0.
  { unfold bounded_ok, with_budget, RESULT_BUDGET_BYTES. cbn [used items Queries.budget Queries.max_items].
    change (zlength (@nil T)) with 0. simpl. lia. }
  destruct (push_all_spec json_size Hj l (with_budget max_items budget) H0 eq_refl)
    as ((Hu & Hle & _ & Hlen) & Eb & Em & k & Hi & Hf & Ht).
  set (b0 := with_budget max_items budget) in *. set (b' := push_all json_size b0 l) in *.
  change (Queries.budget b0) with (Z.min budget RESULT_BUDGET_BYTES) in *.
  change (Queries.max_items b0) with max_items in *. change (items b0) with (@nil T) in *. cbn [app] in *.
  cbn [into_parts]. exists k.
  split; [done|]. split; [rewrite Em in Hlen; lia|]. split; [rewrite <- Hu, <- Eb; lia|]. split; [done|].
  intros Htr. rewrite <- Hu. by apply Ht.
Qed.

Lemma bounded_list_complete_or_truncated_witness :
  into_parts (push_all (fun x : Z => Some x) (with_budget 10 30) [5; 6; 40; 1]) = ([5; 6], true) /\
  zsum (map (item_size (fun x : Z => if x <? 0 then None else Some x)) [5; 6]) <= 30.
Proof.
  split; [vm_compute; reflexivity|].
  pose proof (bounded_list_complete_or_truncated (fun x : Z => if x <? 0 then None else Some x) 10 30 [5; 6; 40; 1])
    as H. destruct H as (k & _ & _ & H & _).
  - intros x n. destruct (Z.ltb_spec x 0); [discriminate|]. intros [= <-]. lia.
  - lia.
  - lia.
  - exact H.
Defined.
