(* ===== verification/Sql.v ===== *)
(** * jobs/queries/sql.rs: the operator's one SELECT

    [single_statement] scans bytes by index, as the source does.  [Lexes] is a
    declarative reading of the same text as comments, quoted names and strings,
    semicolons, parameters and other bytes; the scanner is proved to decide
    exactly what it says.  osquery is any [OsqueryApi]; the calls made on it are
    logged, and the theorems hold whatever it answers. *)

From Stdlib Require Import String.
From S2P Require Import Prelude Text Interfaces Jobs Osquery Queries.

Definition DENIED_TABLES : list bytes := map lit
  ["ai_agent_skills"; "augeas"; "carves"; "certificates"; "curl"; "curl_certificate";
   "deb_package_files"; "device_file"; "device_hash"; "device_partitions"; "elf_dynamic"; "elf_info";
   "elf_sections"; "elf_segments"; "elf_symbols"; "extended_attributes"; "file"; "hash";
   "homebrew_packages"; "lxd_images"; "lxd_instance_config"; "lxd_instance_devices"; "lxd_instances";
   "magic"; "npm_packages"; "process_envs"; "process_memory_map"; "process_namespaces";
   "process_open_files"; "process_open_sockets"; "processes"; "python_packages"; "sshd_config";
   "ycloud_instance_metadata"; "yara"; "yara_file"; "yara_process"]%string.

Definition MAX_SQL : Z := 4096.
Definition MAX_COLUMNS : nat := 256.
Definition MAX_COLUMN_NAME : nat := 128.
Definition MAX_ROWS : Z := 10000.
Definition MAX_CELL : nat := 1024.
Definition ENVELOPE_BYTES : Z := 64.

(** ** One statement *)

(** The index just past [terminator] at or after [from], or the end. *)
Definition closing (bs : bytes) (from : nat) (terminator : bytes) : nat :=
  match find_sub terminator (drop (Nat.min from (length bs)) bs) with
  | Some at_ => (from + at_ + length terminator)%nat
  | None => length bs
  end.

Definition parameter_refused : JobFailure :=
  failed (lit "invalid parameters: sql must not use parameters ($, :, @, #, or ?) outside quotes").
Definition second_statement : JobFailure := failed (lit "invalid parameters: sql must be one statement").

Definition is_parameter (b : Z) : bool :=
  (b =? 63) || (b =? 58) || (b =? 64) || (b =? 36) || (b =? 35).
Definition is_quote (b : Z) : bool := (b =? 39) || (b =? 34) || (b =? 96).

(** The loop; every token takes at least a byte, so the length is fuel enough. *)
Fixpoint scan (fuel : nat) (bs : bytes) (i : nat) (end_ : option nat) : result (option nat) JobFailure :=
  match fuel, bs !! i with
  | S fuel', Some b =>
      let continue_ next ignorable end_ :=
        match end_ with
        | Some _ => if negb ignorable then Err second_statement else scan fuel' bs next end_
        | None => scan fuel' bs next end_
        end in
      let next_is c := match bs !! S i with Some x => x =? c | None => false end in
      if (b =? 45) && next_is 45 then continue_ (closing bs (i + 2) [10]) true end_
      else if (b =? 47) && next_is 42 then continue_ (closing bs (i + 2) [42; 47]) true end_
      else if is_quote b then continue_ (closing bs (i + 1) [b]) false end_
      else if b =? 91 then continue_ (closing bs (i + 1) [93]) false end_
      else if b =? 59 then continue_ (S i) true (Some match end_ with Some e => e | None => i end)
      else if is_parameter b then Err parameter_refused
      else continue_ (S i) (is_ascii_whitespace b) end_
  | _, _ => Ok end_
  end.

Definition single_statement (sql : bytes) : result bytes JobFailure :=
  let? end_ := scan (S (length sql)) sql 0 None in
  Ok (take (match end_ with Some e => e | None => length sql end) sql).

(** The statement's first word, after any leading comments. *)
Fixpoint skip_comments (fuel : nat) (bs : bytes) (i : nat) : nat :=
  match fuel with
  | O => i
  | S fuel' =>
      match bs !! i, bs !! S i with
      | Some 45, Some 45 => skip_comments fuel' bs (closing bs (i + 2) [10])
      | Some 47, Some 42 => skip_comments fuel' bs (closing bs (i + 2) [42; 47])
      | Some b, _ => if is_ascii_whitespace b then skip_comments fuel' bs (S i) else i
      | None, _ => i
      end
  end.

Fixpoint take_alphabetic (s : bytes) : bytes :=
  match s with
  | b :: s' => if is_ascii_alphabetic b then b :: take_alphabetic s' else []
  | [] => []
  end.

Definition first_keyword (statement : bytes) : bytes :=
  take_alphabetic (drop (skip_comments (S (length statement)) statement 0) statement).

(** [sql]; [parse] is serde's reading of the parameters object. *)
Definition sql {J : Json} (parse : json -> result bytes JobFailure) (raw : json) : result bytes JobFailure :=
  let? text := if json_is_null raw then Ok [] else parse raw in
  if MAX_SQL <? chars_count text
  then Err (failed (lit "invalid parameters: sql must be at most 4096 characters"))
  else
    let? one := single_statement text in
    let statement := trim one in
    if bool_decide (statement = []) then Err (failed (lit "invalid parameters: sql must not be blank"))
    else
      let keyword := to_ascii_uppercase (first_keyword statement) in
      if negb (str_eqb keyword (lit "SELECT") || str_eqb keyword (lit "WITH"))
      then Err (failed (lit "refused by the agent's policy: sql must be a SELECT"))
      else Ok statement.

(** [Sql]'s native [answer]: the request is checked, and there is none. *)
Definition sql_answer {J : Json} (parse : json -> result bytes JobFailure) (raw : json) : result json JobFailure :=
  let? _ := sql parse raw in Err (failed (lit "osquery is not available on this host")).

(** ** Refusals *)

Definition cell (op : Row) (column default : bytes) : bytes :=
  match op !! column with Some v => v | None => default end.

Definition writes (op : Row) : bool :=
  let opcode := cell op (lit "opcode") [] in
  let p2 := cell op (lit "p2") (lit "0") in
  str_eqb opcode (lit "VUpdate") || str_eqb opcode (lit "VCreate") || str_eqb opcode (lit "VDestroy")
  || (str_eqb opcode (lit "Transaction") && negb (str_eqb p2 (lit "0"))).

Definition calls (op : Row) (name : bytes) : bool :=
  let opcode := cell op (lit "opcode") [] in
  let p4 := cell op (lit "p4") [] in
  (contains_sub (lit "Func") opcode || starts_with (lit "Agg") opcode)
  && match split_on 40 p4 with
     | called :: _ => eq_ignore_ascii_case (trim called) name
     | [] => false
     end.

Definition refuse_unsafe_program (program : list Row) : result unit JobFailure :=
  if existsb writes program
  then Err (failed (lit "refused by the agent's policy: sql must only read"))
  else if existsb (fun op => calls op (lit "sleep")) program
  then Err (failed (lit "refused by the agent's policy: sql must not call sleep()"))
  else Ok tt.

(** [FLAG_SPACE]: space, tab, newline, vertical tab, form feed, return. *)
Definition is_flag_space (b : Z) : bool :=
  (b =? 32) || (b =? 9) || (b =? 10) || (b =? 11) || (b =? 12) || (b =? 13).

Definition disabled_tables (options : Row) : list bytes :=
  match options !! lit "disable_tables" with
  | Some tables => map (trim_by is_flag_space) (split_on 44 tables)
  | None => []
  end.

Definition join_comma (names : list bytes) : bytes :=
  match names with
  | [] => []
  | n :: ns => n ++ concat (map (fun m => lit ", " ++ m) ns)
  end.

Definition refuse_unless_denied_tables_disabled (options : Row) : result unit JobFailure :=
  let disabled := disabled_tables options in
  let missing := List.filter (fun t => negb (existsb (str_eqb t) disabled)) DENIED_TABLES in
  match missing with
  | [] => Ok tt
  | _ => Err (failed (lit "refused by the agent's policy: osquery must run with --disable_tables covering "
                      ++ join_comma missing))
  end.

Definition refuse_unless_carving_disabled (options : Row) : result unit JobFailure :=
  match options !! lit "carver_disable_function" with
  | Some v => if str_eqb v (lit "true") then Ok tt
              else Err (failed (lit "refused by the agent's policy: osquery must run with --carver_disable_function"))
  | None => Err (failed (lit "refused by the agent's policy: osquery must run with --carver_disable_function"))
  end.

Definition osquery_failure (e : Error) : JobFailure :=
  match e with
  | OStatus _ message => failed (lit "osquery: " ++ clip message 256)
  | _ => failed (lit "osquery did not answer, or its answer was larger than the agent reads (16 MiB); narrow the query, for example with LIMIT")
  end.

(** ** The table reported *)

Section table.
(** Lengths of [serde_json::to_string] of a text and of a row of texts. *)
Variables (text_size : bytes -> option Z) (row_size : list bytes -> option Z).

Record answer_table := mkTable { columns : list bytes; t_rows : list (list bytes); t_truncated : bool }.

Definition longer (value : bytes) (max : nat) : bool := Nat.ltb max (length (char_chunks value)).

(** The loop over the column names: the header, its size and whether a name
    looked at was clipped. *)
Fixpoint take_header (names : list bytes) (header : list bytes) (size : Z) (clipped : bool)
  : list bytes * Z * bool :=
  match names with
  | [] => (header, size, clipped)
  | n :: names' =>
      let clipped := longer n MAX_COLUMN_NAME || clipped in
      let name := clip n MAX_COLUMN_NAME in
      let bytes := match text_size name with Some k => k + 1 | None => USIZE_MAX end in
      if RESULT_BUDGET_BYTES / 2 <? Z.min USIZE_MAX (size + bytes) then (header, size, clipped)
      else take_header names' (header ++ [name]) (size + bytes) clipped
  end.

(** The loop over the rows. *)
Fixpoint take_rows (names : list bytes) (rows : list Row) (b : Bounded (list bytes)) (clipped : bool)
  : Bounded (list bytes) * bool :=
  match rows with
  | [] => (b, clipped)
  | r :: rows' =>
      let cells := map (fun n => cell r n []) names in
      let clipped := existsb (fun v => longer v MAX_CELL) cells || clipped in
      let '(b, fitted) := push row_size b (map (fun v => clip v MAX_CELL) cells) in
      if (fitted : bool) then take_rows names rows' b clipped else (b, clipped)
  end.

Definition table (all_columns : list bytes) (rows : list Row) : answer_table :=
  let names := take MAX_COLUMNS all_columns in
  let '(header, header_bytes, clipped) :=
    take_header names [] ENVELOPE_BYTES (Nat.ltb MAX_COLUMNS (length all_columns)) in
  let dropped := Nat.ltb (length header) (length names) in
  let names := take (length header) names in
  let '(b, clipped) := take_rows names rows (with_budget MAX_ROWS (RESULT_BUDGET_BYTES - header_bytes)) clipped in
  let '(rows, cut) := into_parts b in
  mkTable header rows (clipped || cut || dropped).
End table.

(** ** Asking osquery *)

Section asking.
Context {J : Json} {O : OsqueryApi}.
Variables (parse : json -> result bytes JobFailure).
Variables (text_size : bytes -> option Z) (row_size : list bytes -> option Z).

Inductive osquery_call := COptions | CQuery (text : bytes) | CColumns (text : bytes).

(** The connection and the calls made on it, oldest first. *)
Record connection := mkConnection { conn : client; asked : list osquery_call }.

Definition on_client {A} (what : osquery_call) (m : Run client A) : Run connection A := fun s =>
  let '(c, a) := m (conn s) in (mkConnection c (asked s ++ [what]), a).

Definition answer_with_osquery (raw : json) : Run connection (result (option answer_table) JobFailure) :=
  match sql parse raw with
  | Err e => run_ret (Err e)
  | Ok text =>
      let! opts := on_client COptions api_options in
      match opts with
      | Err _ => run_ret (Ok None)
      | Ok opts =>
          match (let? _ := refuse_unless_denied_tables_disabled opts in refuse_unless_carving_disabled opts) with
          | Err e => run_ret (Err e)
          | Ok _ =>
              let! program := on_client (CQuery (lit "EXPLAIN " ++ text)) (api_query (lit "EXPLAIN " ++ text)) in
              match program with
              | Err e => run_ret (Err (osquery_failure e))
              | Ok program =>
                  match refuse_unsafe_program program with
                  | Err e => run_ret (Err e)
                  | Ok _ =>
                      let! names := on_client (CColumns text) (api_query_columns text) in
                      match names with
                      | Err e => run_ret (Err (osquery_failure e))
                      | Ok names =>
                          let! rows := on_client (CQuery text) (api_query text) in
                          match rows with
                          | Err e => run_ret (Err (osquery_failure e))
                          | Ok rows => run_ret (Ok (Some (table text_size row_size names rows)))
                          end
                      end
                  end
              end
          end
      end
  end.
End asking.

(** ** What a text is made of *)

Inductive token_kind := TComment | TQuoted | TSemicolon | TParameter | TSpace | TOther.

Abbreviation token := (token_kind * bytes)%type.

(** Bytes that start something longer or mean something by themselves. *)
Definition is_special (b : Z) : bool := is_quote b || (b =? 91) || (b =? 59) || is_parameter b.

(** A dash or slash that opens a comment before [rest]. *)
Definition opens_comment (b : Z) (rest : bytes) : bool :=
  match rest with
  | c :: _ => ((b =? 45) && (c =? 45)) || ((b =? 47) && (c =? 42))
  | [] => false
  end.

(** [text] runs to the first [terminator], or to the end when there is none. *)
Inductive Until (terminator : bytes) : bytes -> bytes -> bytes -> Prop :=
| until_found body rest :
    find_sub terminator (body ++ terminator ++ rest) = Some (length body) ->
    Until terminator (body ++ terminator ++ rest) (body ++ terminator) rest
| until_end body : find_sub terminator body = None -> Until terminator body body [].

Inductive Lexes : bytes -> list token -> Prop :=
| lex_nil : Lexes [] []
| lex_line s text rest ts :
    Until [10] s text rest -> Lexes rest ts -> Lexes (45 :: 45 :: s) ((TComment, 45 :: 45 :: text) :: ts)
| lex_block s text rest ts :
    Until [42; 47] s text rest -> Lexes rest ts -> Lexes (47 :: 42 :: s) ((TComment, 47 :: 42 :: text) :: ts)
| lex_quote q s text rest ts :
    is_quote q = true -> Until [q] s text rest -> Lexes rest ts -> Lexes (q :: s) ((TQuoted, q :: text) :: ts)
| lex_bracket s text rest ts :
    Until [93] s text rest -> Lexes rest ts -> Lexes (91 :: s) ((TQuoted, 91 :: text) :: ts)
| lex_semicolon rest ts : Lexes rest ts -> Lexes (59 :: rest) ((TSemicolon, [59]) :: ts)
| lex_parameter b rest ts :
    is_parameter b = true -> Lexes rest ts -> Lexes (b :: rest) ((TParameter, [b]) :: ts)
| lex_byte b rest ts :
    is_special b = false -> opens_comment b rest = false -> Lexes rest ts ->
    Lexes (b :: rest) ((if is_ascii_whitespace b then TSpace else TOther, [b]) :: ts).

Definition text_of (ts : list token) : bytes := concat (map snd ts).
Definition plain (t : token) : bool :=
  match fst t with TSemicolon | TParameter => false | _ => true end.
Definition ignorable (t : token) : bool :=
  match fst t with TComment | TSemicolon | TSpace => true | _ => false end.

Lemma find_sub_Some p s i :
  find_sub p s = Some i -> s = take i s ++ p ++ drop (i + length p) s.
Proof.
  revert i; induction s as [|x s IH]; intros i; cbn [find_sub];
    (destruct (starts_with p _) eqn:Hs; [intros [= <-]; apply starts_with_spec in Hs as [r Hr]|]).
  - destruct p; [done|discriminate].
  - done.
  - rewrite Hr. cbn [take app Nat.add]. by rewrite drop_app_length.
  - destruct (find_sub p s) as [j|] eqn:Hj; [|done]. intros [= <-]. cbn. f_equal. by apply IH.
Qed.

Lemma Until_closing terminator (pre s : bytes) :
  exists text rest, Until terminator s text rest /\ s = text ++ rest /\
    closing (pre ++ s) (length pre) terminator = (length pre + length text)%nat.
Proof.
  unfold closing. rewrite length_app, Nat.min_l by lia. rewrite drop_app_length.
  destruct (find_sub terminator s) as [i|] eqn:Hf.
  - pose proof (find_sub_Some _ _ _ Hf) as Hs. set (body := take i s) in *. set (rest := drop (i + length terminator) s) in *.
    assert (length body = i) as Hi.
    { apply (f_equal length) in Hs. rewrite !length_app in Hs. unfold body, rest in *.
      rewrite length_take, length_drop in *. destruct (Nat.le_gt_cases i (length s)); [lia|].
      exfalso. clear -Hf H. revert i Hf H. induction s as [|x s IH]; intros i; cbn [find_sub];
        destruct (starts_with terminator _); try (intros [= <-]; simpl; lia); try done.
      destruct (find_sub terminator s) as [j|]; [|done]. intros [= <-]. simpl. intros. eapply (IH j); [done|lia]. }
    exists (body ++ terminator), rest. split; [|split].
    + rewrite Hs. constructor. rewrite <- Hs, Hi. done.
    + by rewrite <- app_assoc.
    + rewrite length_app. lia.
  - exists s, []. rewrite app_nil_r. split; [by constructor|done].
Qed.

Lemma Until_split terminator s text rest : Until terminator s text rest -> s = text ++ rest.
Proof. destruct 1; [by rewrite <- app_assoc|by rewrite app_nil_r]. Qed.

Lemma Until_total terminator s : exists text rest, Until terminator s text rest.
Proof. destruct (Until_closing terminator [] s) as (text & rest & ? & _). eauto. Qed.

Lemma Until_det terminator s t1 r1 t2 r2 :
  Until terminator s t1 r1 -> Until terminator s t2 r2 -> t1 = t2 /\ r1 = r2.
Proof.
  intros H1 H2. inversion H1 as [b1 x1 F1|b1 F1]; subst.
  - inversion H2 as [b2 x2 F2 E|b2 F2]; subst.
    + rewrite E in F2. rewrite F1 in F2. injection F2 as F2.
      apply app_inj_1 in E as [-> E]; [|done]. apply app_inv_head in E as ->. done.
    + congruence.
  - inversion H2 as [b2 x2 F2|b2 F2]; subst; [congruence|done].
Qed.

Lemma Lexes_text s ts : Lexes s ts -> text_of ts = s.
Proof.
  unfold text_of. induction 1; cbn [map concat snd app]; try congruence;
    match goal with H : Until _ _ _ _ |- _ => apply Until_split in H end; subst; congruence.
Qed.

Lemma Lexes_total s : exists ts, Lexes s ts.
Proof.
  induction s as [s IH] using (induction_ltof1 _ (@length Z)). unfold ltof in IH.
  destruct s as [|b s]; [eexists; constructor|].
  assert (forall term x, (length x <= length s)%nat ->
    exists text rest ts, Until term x text rest /\ Lexes rest ts) as Huntil.
  { intros term x Hx. destruct (Until_total term x) as (text & rest & Hu). pose proof (Until_split _ _ _ _ Hu) as ->.
    rewrite length_app in Hx. destruct (IH rest) as [ts Hts]; [simpl; lia|]. eauto. }
  destruct (IH s) as [ts Hts]; [simpl; lia|].
  destruct (is_special b) eqn:Hsp.
  - unfold is_special in Hsp. destruct (is_quote b) eqn:Hq.
    { destruct (Huntil [b] s ltac:(lia)) as (text & rest & ts' & ? & ?). eexists. by eapply lex_quote. }
    destruct (Z.eqb_spec b 91) as [->|].
    { destruct (Huntil [93] s ltac:(lia)) as (text & rest & ts' & ? & ?). eexists. by eapply lex_bracket. }
    destruct (Z.eqb_spec b 59) as [->|]; [eexists; by apply lex_semicolon|].
    eexists. by apply lex_parameter.
  - destruct (opens_comment b s) eqn:Ho; [|eexists; by apply lex_byte].
    destruct s as [|c s']; [done|]. cbn [opens_comment] in Ho.
    apply orb_true_iff in Ho as [Ho|Ho]; bool_simpl; subst.
    + destruct (Huntil [10] s' ltac:(simpl; lia)) as (text & rest & ts' & ? & ?). eexists. by eapply lex_line.
    + destruct (Huntil [42; 47] s' ltac:(simpl; lia)) as (text & rest & ts' & ? & ?). eexists. by eapply lex_block.
Qed.

(** What the scanner decides of a text, token by token. *)
Fixpoint judge (ts : list token) (pos : nat) (end_ : option nat) : result (option nat) JobFailure :=
  match ts with
  | [] => Ok end_
  | t :: ts' =>
      match fst t with
      | TParameter => Err parameter_refused
      | TSemicolon => judge ts' (S pos) (Some match end_ with Some e => e | None => pos end)
      | _ =>
          match end_ with
          | Some _ => if negb (ignorable t) then Err second_statement
                      else judge ts' (pos + length (snd t)) end_
          | None => judge ts' (pos + length (snd t)) end_
          end
      end
  end.

Lemma quote_facts q : is_quote q = true -> (q =? 45) = false /\ (q =? 47) = false.
Proof. unfold is_quote. rewrite !orb_true_iff, !Z.eqb_eq. intros [[->| ->]| ->]; done. Qed.

Lemma parameter_facts b :
  is_parameter b = true ->
  (b =? 45) = false /\ (b =? 47) = false /\ is_quote b = false /\ (b =? 91) = false /\ (b =? 59) = false.
Proof.
  unfold is_parameter. rewrite !orb_true_iff, !Z.eqb_eq. intros [[[[->| ->]| ->]| ->]| ->]; done.
Qed.

(** A token whose end is sought from [n] bytes past its start. *)
Lemma scan_until fuel (pre head s : bytes) term text rest ts end_ ign :
  Until term s text rest -> Lexes rest ts ->
  (forall pre' end_, scan fuel (pre' ++ rest) (length pre') end_ = judge ts (length pre') end_) ->
  let pos := (length pre + length head)%nat in
  match end_ : option nat with
  | Some _ => if negb ign then Err second_statement
              else scan fuel (pre ++ head ++ s) (closing (pre ++ head ++ s) pos term) end_
  | None => scan fuel (pre ++ head ++ s) (closing (pre ++ head ++ s) pos term) end_
  end =
  match end_ with
  | Some _ => if negb ign then Err second_statement else judge ts (length pre + length (head ++ text)) end_
  | None => judge ts (length pre + length (head ++ text)) end_
  end.
Proof.
  intros Hu Hl IH pos. destruct (Until_closing term (pre ++ head) s) as (text' & rest' & Hu' & Hs & Hc).
  destruct (Until_det _ _ _ _ _ _ Hu Hu') as [<- <-].
  rewrite <- app_assoc, length_app in Hc. fold pos in Hc. rewrite Hc.
  assert (scan fuel (pre ++ head ++ s) (pos + length text) end_
          = judge ts (length pre + length (head ++ text)) end_) as E.
  { replace (pre ++ head ++ s) with ((pre ++ head ++ text) ++ rest) by (by rewrite Hs, <- !app_assoc).
    replace (pos + length text)%nat with (length (pre ++ head ++ text)) by (rewrite !length_app; unfold pos; lia).
    rewrite IH. by rewrite length_app. }
  destruct end_; [destruct ign|]; cbn [negb]; done.
Qed.

Lemma scan_judge fuel : forall (pre s : bytes) ts end_,
  Lexes s ts -> (length s < fuel)%nat ->
  scan fuel (pre ++ s) (length pre) end_ = judge ts (length pre) end_.
Proof.
  induction fuel as [|fuel IH]; intros pre s ts end_ Hl Hf; [lia|].
  assert (forall x, (pre ++ x) !! length pre = head x) as Hhd.
  { intros x. rewrite lookup_app_r, Nat.sub_diag by lia. by destruct x. }
  assert (forall b x, (pre ++ b :: x) !! S (length pre) = head x) as Hnext.
  { intros b x. rewrite lookup_app_r by lia. replace (S (length pre) - length pre)%nat with 1%nat by lia.
    by destruct x. }
  assert (forall b x ts end_, (length x < fuel)%nat -> Lexes x ts ->
    scan fuel (pre ++ b :: x) (S (length pre)) end_ = judge ts (length pre + 1) end_) as Hone.
  { intros b x ts0 e0 Hx Hlx. specialize (IH (pre ++ [b]) x ts0 e0 Hlx Hx).
    rewrite <- app_assoc, length_app in IH. simpl in IH. rewrite <- IH. f_equal. lia. }
  inversion Hl as [|x text rest ts' Hu Hr|x text rest ts' Hu Hr|q x text rest ts' Hq Hu Hr
    |x text rest ts' Hu Hr|rest ts' Hr|b rest ts' Hp Hr|b rest ts' Hsp Ho Hr]; subst; cbn [scan];
    rewrite Hhd; cbn [head].
  - done.
  - rewrite Hnext. cbn [head Z.eqb Pos.eqb andb]. cbn [judge fst snd].
    eapply (scan_until fuel pre [45; 45] x); [exact Hu|exact Hr|]. intros pre' e. apply IH; [done|].
    apply Until_split in Hu. subst x. simpl in Hf. rewrite length_app in Hf. lia.
  - rewrite Hnext. cbn [head Z.eqb Pos.eqb andb]. cbn [judge fst snd].
    eapply (scan_until fuel pre [47; 42] x); [exact Hu|exact Hr|]. intros pre' e. apply IH; [done|].
    apply Until_split in Hu. subst x. simpl in Hf. rewrite length_app in Hf. lia.
  - destruct (quote_facts q Hq) as [-> ->]. cbn [andb]. rewrite Hq. cbn [judge fst snd].
    eapply (scan_until fuel pre [q] x); [exact Hu|exact Hr|]. intros pre' e. apply IH; [done|].
    apply Until_split in Hu. subst x. simpl in Hf. rewrite length_app in Hf. lia.
  - cbn [Z.eqb Pos.eqb andb is_quote orb]. cbn [judge fst snd].
    eapply (scan_until fuel pre [91] x); [exact Hu|exact Hr|]. intros pre' e. apply IH; [done|].
    apply Until_split in Hu. subst x. simpl in Hf. rewrite length_app in Hf. lia.
  - cbn [Z.eqb Pos.eqb andb is_quote orb]. cbn [judge fst snd]. simpl in Hf.
    cbn [negb]. rewrite (Hone 59 rest ts') by (done || lia). by rewrite Nat.add_1_r.
  - destruct (parameter_facts b Hp) as (-> & -> & -> & -> & ->). cbn [andb]. by rewrite Hp.
  - unfold is_special in Hsp. bool_simpl. rewrite Hnext.
    assert ((b =? 45) && match head rest with Some y => y =? 45 | None => false end = false) as ->.
    { destruct rest as [|c rest]; [apply andb_false_r|]. cbn [opens_comment head] in *. bool_simpl. done. }
    assert ((b =? 47) && match head rest with Some y => y =? 42 | None => false end = false) as ->.
    { destruct rest as [|c rest]; [apply andb_false_r|]. cbn [opens_comment head] in *. bool_simpl. done. }
    assert (is_quote b = false) as -> by done. assert ((b =? 91) = false) as -> by (by apply Z.eqb_neq).
    assert ((b =? 59) = false) as -> by (by apply Z.eqb_neq). assert (is_parameter b = false) as -> by done.
    simpl in Hf. rewrite (Hone b rest ts') by (done || lia). cbn [judge].
    destruct (is_ascii_whitespace b); cbn [fst snd ignorable negb length]; done.
Qed.

Lemma judge_after ts : forall pos e r,
  judge ts pos (Some e) = Ok r <-> r = Some e /\ Forall (fun t => ignorable t = true) ts.
Proof.
  induction ts as [|[k x] ts IH]; intros pos e r; cbn [judge fst snd].
  - split; [intros [= <-]; split; [done|constructor]|by intros [-> _]].
  - rewrite list.Forall_cons. unfold ignorable at 1. cbn [fst].
    destruct k; cbn [negb ignorable fst]; rewrite ?IH; split; try done; try tauto;
      intros (_ & H & _); done.
Qed.

Lemma judge_before ts : forall pos r,
  judge ts pos None = Ok r <->
  (r = None /\ Forall (fun t => plain t = true) ts) \/
  (exists pre x post, ts = pre ++ (TSemicolon, x) :: post /\ Forall (fun t => plain t = true) pre /\
     Forall (fun t => ignorable t = true) post /\ r = Some (pos + length (text_of pre))%nat).
Proof.
  induction ts as [|[k x] ts IH]; intros pos r.
  { cbn [judge]. split; [intros [= <-]; by left|]. intros [[-> _]|(pre & y & post & E & _)]; [done|].
    by destruct pre. }
  assert (plain (k, x) = true ->
    judge ts (pos + length x) None = Ok r <->
    (r = None /\ Forall (fun t => plain t = true) ((k, x) :: ts)) \/
    (exists pre y post, (k, x) :: ts = pre ++ (TSemicolon, y) :: post /\ Forall (fun t => plain t = true) pre /\
       Forall (fun t => ignorable t = true) post /\ r = Some (pos + length (text_of pre))%nat)) as Hplain.
  { intros Hp. rewrite IH, list.Forall_cons. split.
    - intros [[-> ?]|(pre & y & post & -> & Hpre & Hpost & ->)]; [by left|]. right.
      exists ((k, x) :: pre), y, post. split; [done|]. split; [by constructor|]. split; [done|].
      unfold text_of. cbn [map concat snd]. rewrite length_app. f_equal. lia.
    - intros [(-> & _ & ?)|(pre & y & post & E & Hpre & Hpost & ->)]; [by left|]. right.
      destruct pre as [|t pre]; [injection E as -> -> ->; done|]. injection E as <- ->.
      inversion Hpre; subst. exists pre, y, post. split; [done|]. split; [done|]. split; [done|].
      unfold text_of. cbn [map concat snd]. rewrite length_app. f_equal. lia. }
  destruct k; cbn [judge fst snd]; try (by apply Hplain).
  - rewrite judge_after. split.
    + intros [-> Hi]. right. exists [], x, ts. split; [done|]. split; [constructor|]. split; [done|].
      unfold text_of. simpl. f_equal. lia.
    + intros [[_ H]|(pre & y & post & E & Hpre & Hpost & ->)]; [by inversion H|].
      destruct pre as [|t pre].
      * injection E as -> ->. split; [|done]. unfold text_of. simpl. f_equal. lia.
      * injection E as <- ->. inversion Hpre. done.
  - split; [done|]. intros [[_ H]|(pre & y & post & E & Hpre & _)]; [by inversion H|].
    destruct pre as [|t pre]; [done|]. injection E as <- _. by inversion Hpre.
Qed.

(** ** The trimmed statement reads the same *)

Lemma Lexes_drop_solo b s ts :
  is_special b = false -> (b =? 45) = false -> (b =? 47) = false ->
  Lexes (b :: s) ts -> exists k ts', ts = (k, [b]) :: ts' /\ Lexes s ts'.
Proof.
  intros Hsp H1 H2 Hl. inversion Hl; subst; try done; [| |eauto].
  - unfold is_special in Hsp. bool_simpl. congruence.
  - unfold is_special in Hsp. bool_simpl. congruence.
Qed.

(** A byte of a whitespace character stands for itself. *)
Definition solo (b : Z) : Prop := is_special b = false /\ (b =? 45) = false /\ (b =? 47) = false.

Lemma whitespace_solo c : is_whitespace_chunk c = true -> Forall solo c.
Proof.
  assert (forall b, 128 <= b -> solo b) as Hhigh.
  { intros b Hb. unfold solo, is_special, is_quote, is_parameter.
    repeat match goal with |- context [b =? ?k] => rewrite (proj2 (Z.eqb_neq b k)) by lia end. done. }
  assert (forall b, (9 <= b <= 13 \/ b = 32) -> solo b) as Hlow.
  { intros b Hb. unfold solo, is_special, is_quote, is_parameter.
    repeat match goal with |- context [b =? ?k] => rewrite (proj2 (Z.eqb_neq b k)) by lia end. done. }
  destruct c as [|a [|b [|d [|]]]]; cbn [is_whitespace_chunk]; try done;
    rewrite ?orb_true_iff, ?andb_true_iff, ?orb_true_iff, ?andb_true_iff, ?Z.leb_le, ?Z.eqb_eq; intros H;
    repeat constructor; (apply Hlow; lia) || (apply Hhigh; lia).
Qed.

Lemma find_sub_first p s i :
  find_sub p s = Some i <->
  starts_with p (drop i s) = true /\ (i <= length s)%nat /\
  forall j, (j < i)%nat -> starts_with p (drop j s) = false.
Proof.
  revert i. induction s as [|x s IH]; intros i; cbn [find_sub].
  - destruct (starts_with p []) eqn:Hs; split.
    + intros [= <-]. split; [done|]. split; [done|]. lia.
    + intros (_ & Hi & _). simpl in Hi. by replace i with O by lia.
    + done.
    + intros (H & Hi & _). simpl in Hi. replace i with O in H by lia. cbn [drop] in H. congruence.
  - destruct (starts_with p (x :: s)) eqn:Hs; split.
    + intros [= <-]. split; [done|]. split; [lia|]. lia.
    + intros (_ & _ & Hj). destruct i as [|i]; [done|]. specialize (Hj O ltac:(lia)). cbn [drop] in Hj. congruence.
    + destruct (find_sub p s) as [k|]; [|done]. intros [= <-].
      destruct (proj1 (IH k) eq_refl) as (H1 & H2 & H3). split; [done|]. split; [simpl; lia|].
      intros [|j] Hj; [done|]. apply H3. lia.
    + intros (H1 & H2 & H3). destruct i as [|i]; [cbn [drop] in H1; congruence|].
      rewrite (proj2 (IH i)); [done|]. split; [done|]. split; [simpl in H2; lia|].
      intros j Hj. apply (H3 (S j)). lia.
Qed.

Lemma starts_with_drop p s j :
  starts_with p (drop j s) = true -> (j <= length s)%nat -> (j + length p <= length s)%nat.
Proof.
  intros (r & E)%starts_with_spec Hj. apply (f_equal length) in E.
  rewrite length_drop, length_app in E. lia.
Qed.

Lemma starts_with_prefix p a b j :
  (j <= length a)%nat -> starts_with p (drop j a) = true -> starts_with p (drop j (a ++ b)) = true.
Proof.
  intros Hj (r & E)%starts_with_spec. apply starts_with_spec. exists (r ++ b).
  rewrite drop_app_le by done. by rewrite E, <- app_assoc.
Qed.

Lemma find_sub_prefix_None p a b : find_sub p (a ++ b) = None -> find_sub p a = None.
Proof.
  intros H. destruct (find_sub p a) as [i|] eqn:E; [|done]. exfalso.
  apply find_sub_first in E as (H1 & H2 & _). apply (starts_with_prefix p a b) in H1; [|done].
  assert (exists j, starts_with p (drop j (a ++ b)) = true /\ (j <= length (a ++ b))%nat /\
    forall k, (k < j)%nat -> starts_with p (drop k (a ++ b)) = false) as (j & Hj).
  { clear H. assert (i <= length (a ++ b))%nat as Hi by (rewrite length_app; lia).
    revert H1 Hi. generalize (a ++ b). clear. intros s H1 Hi.
    induction i as [i IH] using (induction_ltof1 _ id). unfold ltof, id in IH.
    destruct (decide (Forall (fun k => starts_with p (drop k s) = false) (seq 0 i))) as [Hf|Hf].
    - exists i. split; [done|]. split; [done|]. intros k Hk. rewrite List.Forall_forall in Hf.
      apply Hf, in_seq. lia.
    - apply not_Forall_Exists in Hf; [|intros k; apply _]. apply Exists_exists in Hf as (k & Hk & Hs).
      apply in_seq in Hk. cbn beta in Hs. apply not_false_iff_true in Hs.
      destruct (IH k) as (j & ?); [lia|done|lia|]. eauto. }
  apply find_sub_first in Hj. congruence.
Qed.

(** Cutting a text short keeps a token it contains whole, and leaves the one it
    cuts unterminated. *)
Lemma Until_prefix term s text rest a b :
  Until term s text rest -> s = a ++ b ->
  (exists a', a = text ++ a' /\ rest = a' ++ b /\ Until term a text a') \/ Until term a a [].
Proof.
  intros Hu Es. destruct Hu as [body r Hf|body Hf].
  2: { right. constructor. rewrite Es in Hf. by apply find_sub_prefix_None in Hf. }
  destruct (Nat.le_gt_cases (length (body ++ term)) (length a)) as [Hle|Hgt].
  - left. exists (drop (length (body ++ term)) a).
    assert (a = (body ++ term) ++ drop (length (body ++ term)) a) as Ea.
    { rewrite app_assoc in Es. rewrite <- (take_drop (length (body ++ term)) a) at 1. f_equal.
      apply (f_equal (take (length (body ++ term)))) in Es. rewrite take_app_length in Es.
      rewrite take_app_le in Es by done. done. }
    set (a' := drop _ a) in *. split; [done|]. split.
    { rewrite Ea, app_assoc, <- !app_assoc in Es. by apply app_inv_head, app_inv_head in Es. }
    rewrite Ea, <- app_assoc. constructor. apply find_sub_first. apply find_sub_first in Hf as (H1 & H2 & H3).
    split; [|split].
    + rewrite drop_app_length. apply starts_with_spec. eauto.
    + rewrite length_app. lia.
    + intros j Hj. destruct (starts_with term (drop j (body ++ term ++ a'))) eqn:E; [|done].
      apply (starts_with_prefix _ _ b) in E; [|rewrite length_app; lia].
      rewrite app_assoc, <- Ea, <- Es in E. by rewrite H3 in E.
  - right. constructor. destruct (find_sub term a) as [i|] eqn:E; [|done]. exfalso.
    apply find_sub_first in E as (H1 & H2 & _). pose proof (starts_with_drop _ _ _ H1 H2) as Hlen.
    apply (starts_with_prefix _ a b) in H1; [|done]. rewrite <- Es in H1.
    apply find_sub_first in Hf as (_ & _ & H3). rewrite length_app in Hgt.
    rewrite H3 in H1; [done|]. lia.
Qed.

Abbreviation all_plain := (Forall (fun t : token => plain t = true)).

Lemma Lexes_prefix s ts : Lexes s ts -> all_plain ts -> forall a b, s = a ++ b ->
  exists ts', Lexes a ts' /\ all_plain ts'.
Proof.
  assert (exists ts', Lexes [] ts' /\ all_plain ts') as Hnil by (exists []; split; constructor).
  assert (forall b, is_special b = false -> exists ts', Lexes [b] ts' /\ all_plain ts') as Hsolo.
  { intros b Hb. eexists. split; [by apply lex_byte; [| |constructor]|].
    repeat constructor. by destruct (is_ascii_whitespace b). }
  induction 1 as [|x text rest ts Hu Hr IH|x text rest ts Hu Hr IH|q x text rest ts Hq Hu Hr IH
    |x text rest ts Hu Hr IH|rest ts Hr IH|c rest ts Hp Hr IH|c rest ts Hsp Ho Hr IH];
    intros Hpl a b E; inversion Hpl as [|? ? Hp1 Hpl']; subst.
  - symmetry in E. apply app_nil in E as [-> _]. done.
  - destruct a as [|a1 [|a2 a]]; [done| |]; injection E as <-; [by apply Hsolo|]. subst.
    destruct (Until_prefix _ _ _ _ a b Hu) as [(a' & -> & -> & Hu')|Hu']; [done| |].
    + destruct (IH Hpl' a' b eq_refl) as (ts' & ? & ?). eexists. split; [by eapply lex_line|by constructor].
    + eexists. split; [eapply lex_line; [exact Hu'|constructor]|by repeat constructor].
  - destruct a as [|a1 [|a2 a]]; [done| |]; injection E as <-; [by apply Hsolo|]. subst.
    destruct (Until_prefix _ _ _ _ a b Hu) as [(a' & -> & -> & Hu')|Hu']; [done| |].
    + destruct (IH Hpl' a' b eq_refl) as (ts' & ? & ?). eexists. split; [by eapply lex_block|by constructor].
    + eexists. split; [eapply lex_block; [exact Hu'|constructor]|by repeat constructor].
  - destruct a as [|a1 a]; [done|]; injection E as <- E.
    destruct (Until_prefix _ _ _ _ a b Hu) as [(a' & -> & -> & Hu')|Hu']; [done| |].
    + destruct (IH Hpl' a' b eq_refl) as (ts' & ? & ?). eexists. split; [by eapply lex_quote|by constructor].
    + eexists. split; [eapply lex_quote; [done|exact Hu'|constructor]|by repeat constructor].
  - destruct a as [|a1 a]; [done|]; injection E as <- E.
    destruct (Until_prefix _ _ _ _ a b Hu) as [(a' & -> & -> & Hu')|Hu']; [done| |].
    + destruct (IH Hpl' a' b eq_refl) as (ts' & ? & ?). eexists. split; [by eapply lex_bracket|by constructor].
    + eexists. split; [eapply lex_bracket; [exact Hu'|constructor]|by repeat constructor].
  - discriminate.
  - discriminate.
  - destruct a as [|a1 a]; [done|]; injection E as <- ->.
    destruct (IH Hpl' a b eq_refl) as (ts' & ? & ?).
    exists ((if is_ascii_whitespace c then TSpace else TOther, [c]) :: ts'). split; [|by constructor].
    apply lex_byte; [done| |done]. destruct a; [done|]. exact Ho.
Qed.

Lemma Lexes_drop_solos w : Forall solo w -> forall s ts, Lexes (w ++ s) ts -> all_plain ts ->
  exists ts', Lexes s ts' /\ all_plain ts'.
Proof.
  induction 1 as [|b w (Hb1 & Hb2 & Hb3) Hw IH]; intros s ts Hl Hp; [eauto|].
  destruct (Lexes_drop_solo b (w ++ s) ts Hb1 Hb2 Hb3 Hl) as (k & ts' & -> & Hl').
  inversion Hp; subst. by eapply IH.
Qed.

Lemma drop_while_dropped {A} (p : A -> bool) l :
  exists d, l = d ++ drop_while p l /\ Forall (fun x => p x = true) d.
Proof.
  induction l as [|x l (d & E & Hd)]; cbn [drop_while]; [by exists []|].
  destruct (p x) eqn:Hx; [|by exists []]. exists (x :: d). split; [by rewrite E at 1|by constructor].
Qed.

Lemma trim_plain s ts : Lexes s ts -> all_plain ts -> exists ts', Lexes (trim s) ts' /\ all_plain ts'.
Proof.
  intros Hl Hp. unfold trim, trim_by.
  destruct (drop_while_dropped is_whitespace_chunk (char_chunks s)) as (d & Ed & Hd).
  set (l := drop_while is_whitespace_chunk (char_chunks s)) in *.
  destruct (drop_while_suffix is_whitespace_chunk (rev l)) as [e He].
  rewrite <- (concat_char_chunks s), Ed, concat_app in Hl.
  assert (Forall solo (concat d)) as Hsolo.
  { clear -Hd. induction Hd as [|c d Hc Hd IH]; simpl; [constructor|].
    apply Forall_app. split; [by apply whitespace_solo|done]. }
  destruct (Lexes_drop_solos _ Hsolo _ _ Hl Hp) as (ts1 & Hl1 & Hp1).
  apply (Lexes_prefix _ _ Hl1 Hp1 _ (concat (rev e))).
  rewrite <- concat_app, <- rev_app_distr, <- He, rev_involutive. done.
Qed.

Lemma Until_keep term x text a b : Until term x text (a ++ b) -> Until term (text ++ a) text a.
Proof.
  intros Hu. inversion Hu as [body r Hf|body Hf Ex Et En]; subst.
  - rewrite <- app_assoc. constructor. apply find_sub_first in Hf as (H1 & H2 & H3).
    apply find_sub_first. split; [|split].
    + rewrite drop_app_length. apply starts_with_spec. eauto.
    + rewrite length_app. lia.
    + intros j Hj. destruct (starts_with term (drop j (body ++ term ++ a))) eqn:Es; [|done].
      apply (starts_with_prefix _ _ b) in Es; [|rewrite length_app; lia].
      rewrite <- !app_assoc in Es. by rewrite H3 in Es.
  - symmetry in En. apply app_nil in En as [-> _]. rewrite app_nil_r. by constructor.
Qed.

(** The tokens before the first semicolon, read by themselves. *)
Lemma Lexes_cut s pre post : Lexes s (pre ++ post) -> all_plain pre ->
  exists ts, Lexes (text_of pre) ts /\ all_plain ts.
Proof.
  revert s. induction pre as [|t pre IH]; intros s Hl Hp; [exists []; split; constructor|].
  inversion Hp as [|? ? Hp1 Hpl']; subst. cbn [app] in Hl.
  assert (forall x term text rest, Until term x text rest -> Lexes rest (pre ++ post) ->
    exists ts, Until term (text ++ text_of pre) text (text_of pre) /\ Lexes (text_of pre) ts /\ all_plain ts) as Hu.
  { intros x term text rest Hu Hr. destruct (IH _ Hr Hpl') as (ts & Ht & Hpt). exists ts. split; [|done].
    pose proof (Lexes_text _ _ Hr) as Er. unfold text_of in Er. rewrite map_app, concat_app in Er. subst rest.
    by eapply Until_keep. }
  inversion Hl; subst; unfold text_of; cbn [map concat snd].
  all: change (concat (map snd pre)) with (text_of pre).
  - edestruct Hu as (ts & ? & ? & ?); [done..|]. eexists. split; [by eapply lex_line|by constructor].
  - edestruct Hu as (ts & ? & ? & ?); [done..|]. eexists. split; [by eapply lex_block|by constructor].
  - edestruct Hu as (ts & ? & ? & ?); [done..|]. eexists. split; [by eapply lex_quote|by constructor].
  - edestruct Hu as (ts & ? & ? & ?); [done..|]. eexists. split; [by eapply lex_bracket|by constructor].
  - discriminate.
  - discriminate.
  - edestruct IH as (ts & ? & ?); [done..|].
    exists ((if is_ascii_whitespace b then TSpace else TOther, [b]) :: ts). split; [|by constructor].
    apply lex_byte; [done| |done]. 
    match goal with H : Lexes _ (pre ++ post) |- _ => apply Lexes_text in H; unfold text_of in H;
      rewrite map_app, concat_app in H; change (concat (map snd pre)) with (text_of pre) in H; subst end.
    destruct (text_of pre); [done|]. done.
Qed.

(** ** What the checks let through *)

Lemma single_statement_judge text ts :
  Lexes text ts ->
  single_statement text =
  (let? e := judge ts 0 None in Ok (take (match e with Some e => e | None => length text end) text)).
Proof.
  intros Hl. unfold single_statement. pose proof (scan_judge (S (length text)) [] text ts None Hl) as H.
  cbn [app length] in H. rewrite H by (apply Nat.lt_succ_diag_r). done.
Qed.

Lemma single_statement_reads text s :
  single_statement text = Ok s ->
  exists pre post, Lexes text (pre ++ post) /\ s = text_of pre /\ all_plain pre /\
    Forall (fun t => ignorable t = true) post /\
    (post = [] \/ exists x rest, post = (TSemicolon, x) :: rest).
Proof.
  destruct (Lexes_total text) as [ts Hts]. rewrite (single_statement_judge _ _ Hts).
  destruct (judge ts 0 None) as [e|] eqn:Hj; cbn [result_bind]; [|done]. intros [= <-].
  pose proof (Lexes_text _ _ Hts) as Ht.
  apply judge_before in Hj as [[-> Hp]|(pre & x & post & -> & Hpre & Hpost & ->)].
  - exists ts, []. rewrite app_nil_r, Ht, firstn_all. split; [done|]. split; [done|]. split; [done|]. split; [constructor|by left].
  - exists pre, ((TSemicolon, x) :: post). split; [done|]. split; [|split; [done|]].
    + rewrite <- Ht. unfold text_of. rewrite map_app, concat_app. cbn [Nat.add].
      by rewrite take_app_length.
    + split; [by constructor|eauto].
Qed.

(** C29. The statement taken from a request is exactly the text before its first
    free semicolon: [single_statement] succeeds precisely when the text holds no
    parameter outside quotes and comments and nothing but comments, spaces and
    semicolons follows that first semicolon, for every text whatever its quoting,
    unterminated comments and strings included. *)
Theorem single_statement_exact (text s : bytes) :
  single_statement text = Ok s <->
  exists pre post, Lexes text (pre ++ post) /\ s = text_of pre /\ all_plain pre /\
    Forall (fun t => ignorable t = true) post /\
    (post = [] \/ exists x rest, post = (TSemicolon, x) :: rest).
Proof.
  split; [apply single_statement_reads|].
  intros (pre & post & Hl & -> & Hpre & Hpost & Hend).
  rewrite (single_statement_judge _ _ Hl). pose proof (Lexes_text _ _ Hl) as Ht.
  destruct Hend as [->|(x & rest & ->)].
  - rewrite app_nil_r in *. rewrite (proj2 (judge_before pre _ None)) by auto. cbn [result_bind].
    by rewrite firstn_all, Ht.
  - inversion Hpost; subst.
    rewrite (proj2 (judge_before _ _ (Some (length (text_of pre))))) by (right; eauto 8). cbn [result_bind].
    unfold text_of. rewrite map_app, concat_app. by rewrite take_app_length.
Qed.

Section accepted.
Context {J : Json}.

(** Whatever a request holds, the text [sql] accepts and hands to osquery
    is trimmed, not blank, no longer than the request allows, reads SELECT or WITH
    first, and holds neither a parameter nor a semicolon outside comments and
    quotes: it is one statement. *)
Theorem sql_is_one_select (parse : json -> result bytes JobFailure) (raw : json) (s : bytes)
  (Hs : sql parse raw = Ok s) :
  s <> [] /\ (exists ts, Lexes s ts /\ all_plain ts) /\
  (to_ascii_uppercase (first_keyword s) = lit "SELECT" \/ to_ascii_uppercase (first_keyword s) = lit "WITH") /\
  exists text, parse raw = Ok text /\ chars_count text <= MAX_SQL /\
    exists one, single_statement text = Ok one /\ s = trim one.
Proof.
  unfold sql in Hs.
  destruct (json_is_null raw) eqn:Hn.
  { cbn [result_bind] in Hs. vm_compute in Hs. discriminate. }
  destruct (parse raw) as [text|] eqn:Hp; cbn [result_bind] in Hs; [|done].
  destruct (MAX_SQL <? chars_count text) eqn:Hlen; [done|].
  destruct (single_statement text) as [one|] eqn:Ho; cbn [result_bind] in Hs; [|done].
  case_bool_decide as Hne; [done|].
  destruct (str_eqb _ (lit "SELECT") || _) eqn:Hk; cbn [negb] in Hs; [|done]. injection Hs as <-.
  split; [done|]. split; [|split].
  - apply single_statement_reads in Ho as (pre & post & Hl & -> & Hpre & _).
    destruct (Lexes_cut _ _ _ Hl Hpre) as (ts & ? & ?). by eapply trim_plain.
  - apply orb_true_iff in Hk as [Hk|Hk]; apply str_eqb_eq in Hk; auto.
  - exists text. split; [done|]. split; [lia|]. eauto.
Qed.
End accepted.

Lemma denied_tables_disabled options :
  refuse_unless_denied_tables_disabled options = Ok tt ->
  Forall (fun t => In t (disabled_tables options)) DENIED_TABLES.
Proof.
  unfold refuse_unless_denied_tables_disabled. destruct (List.filter _ _) eqn:Hf; [|done]. intros _.
  apply List.Forall_forall. intros t Ht.
  destruct (existsb (str_eqb t) (disabled_tables options)) eqn:He.
  - apply existsb_exists in He as (x & Hx & ->%str_eqb_eq). done.
  - assert (In t []) as []. rewrite <- Hf. apply filter_In. by rewrite He.
Qed.

Lemma carving_disabled options :
  refuse_unless_carving_disabled options = Ok tt ->
  options !! lit "carver_disable_function" = Some (lit "true").
Proof.
  unfold refuse_unless_carving_disabled. destruct (options !! _) as [v|]; [|done].
  destruct (str_eqb v (lit "true")) eqn:E; [|done]. by apply str_eqb_eq in E as ->.
Qed.

Lemma program_safe program :
  refuse_unsafe_program program = Ok tt ->
  Forall (fun op => writes op = false /\ calls op (lit "sleep") = false) program.
Proof.
  assert (forall p, existsb p program = false -> forall op, In op program -> p op = false) as Hno.
  { intros p Hp op Hop. destruct (p op) eqn:E; [|done]. rewrite <- Hp. symmetry. apply existsb_exists. eauto. }
  unfold refuse_unsafe_program. destruct (existsb writes program) eqn:Hw; [done|].
  destruct (existsb (fun op => calls op (lit "sleep")) program) eqn:Hc; [done|]. intros _.
  apply List.Forall_forall. intros op Hop.
  split; [exact (Hno _ Hw _ Hop)|exact (Hno _ Hc _ Hop)].
Qed.

Lemma explain_differs text : CQuery (lit "EXPLAIN " ++ text) <> CQuery text.
Proof.
  intros E. apply (f_equal (fun c => match c with CQuery t => length t | _ => O end)) in E.
  cbn beta iota in E. rewrite length_app in E. change (length (lit "EXPLAIN ")) with 8%nat in E. lia.
Qed.

Section asked_osquery.
Context {J : Json} {O : OsqueryApi}.
Variables (parse : json -> result bytes JobFailure).
Variables (text_size : bytes -> option Z) (row_size : list bytes -> option Z).

(** The gates a statement passes before osquery runs it: the options osquery
    reported and the program it explained. *)
Definition cleared (c : client) (text : bytes) : Prop :=
  exists c1 opts c2 program,
    api_options c = (c1, Ok opts) /\
    Forall (fun t => In t (disabled_tables opts)) DENIED_TABLES /\
    opts !! lit "carver_disable_function" = Some (lit "true") /\
    api_query (lit "EXPLAIN " ++ text) c1 = (c2, Ok program) /\
    Forall (fun op => writes op = false /\ calls op (lit "sleep") = false) program.

(** C28. Whatever osquery answers, and with any client: a refused request makes
    no call at all; an accepted one makes calls in the order options, EXPLAIN,
    columns, query, stopping at the first that does not permit the next; and the
    statement itself is run only when osquery reported every denied table and the
    carve function disabled and explained a program that neither writes nor calls
    sleep. *)
Theorem osquery_runs_only_cleared_statements (raw : json) (c : client) :
  let '(s', r) := answer_with_osquery parse text_size row_size raw (mkConnection c []) in
  (forall e, sql parse raw = Err e -> asked s' = [] /\ conn s' = c /\ r = Err e) /\
  (forall text, sql parse raw = Ok text ->
     (exists later, [COptions; CQuery (lit "EXPLAIN " ++ text); CColumns text; CQuery text]
                    = asked s' ++ later) /\
     (In (CQuery text) (asked s') -> cleared c text)).
Proof.
  unfold answer_with_osquery. destruct (sql parse raw) as [text|e].
  2: { cbn. split; [by intros ? [= ->]|done]. }
  pose proof (explain_differs text) as Hx.
  unfold run_bind, on_client. cbn [conn asked app].
  destruct (api_options c) as [c1 [opts|e]] eqn:Ho.
  2: { cbn. split; [done|]. intros ? [= <-]. split; [by eexists|]. intros [|[]]; done. }
  destruct (refuse_unless_denied_tables_disabled opts) as [[]|] eqn:H1; cbn [result_bind].
  2: { cbn. split; [done|]. intros ? [= <-]. split; [by eexists|]. intros [|[]]; done. }
  destruct (refuse_unless_carving_disabled opts) as [[]|] eqn:H2; cbn [result_bind].
  2: { cbn. split; [done|]. intros ? [= <-]. split; [by eexists|]. intros [|[]]; done. }
  cbn [conn asked app].
  destruct (api_query (lit "EXPLAIN " ++ text) c1) as [c2 [program|e]] eqn:Hp.
  2: { cbn [run_ret asked conn]. split; [done|]. intros ? [= <-]. split; [by eexists|].
       intros [|[|[]]]; [done|exfalso; by apply Hx]. }
  destruct (refuse_unsafe_program program) as [[]|] eqn:H3.
  2: { cbn [run_ret asked conn]. split; [done|]. intros ? [= <-]. split; [by eexists|].
       intros [|[|[]]]; [done|exfalso; by apply Hx]. }
  assert (cleared c text) as Hc.
  { exists c1, opts, c2, program. 
    split; [done|]. auto 10 using denied_tables_disabled, carving_disabled, program_safe. }
  cbn [conn asked app]. destruct (api_query_columns text c2) as [c3 [names|e]].
  2: { cbn [run_ret asked conn]. split; [done|]. intros ? [= <-]. split; [by eexists|done]. }
  cbn [conn asked app]. destruct (api_query text c3) as [c4 [rows|e]]; cbn [run_ret asked conn];
    (split; [done|]; intros ? [= <-]; split; [by exists []|done]).
Qed.
End asked_osquery.

(** ** The table is within its bounds, and whole unless it says otherwise *)

Section table_bounds.
Variables (text_size : bytes -> option Z) (row_size : list bytes -> option Z).
Hypothesis text_size_nonneg : forall x n, text_size x = Some n -> 0 <= n.
Hypothesis row_size_nonneg : forall x n, row_size x = Some n -> 0 <= n.

Abbreviation column_size := (item_size text_size).

Lemma half_budget : RESULT_BUDGET_BYTES / 2 = 24576.
Proof. reflexivity. Qed.

(** The header taken is a clipped prefix of the names within half the budget;
    when nothing was clipped and nothing is missing it is the names. *)
Lemma take_header_spec names : forall header size clipped,
  size = ENVELOPE_BYTES + zsum (map column_size header) -> 0 <= size <= RESULT_BUDGET_BYTES / 2 ->
  exists k header' size' clipped',
    take_header text_size names header size clipped = (header', size', clipped') /\
    header' = header ++ map (fun n => clip n MAX_COLUMN_NAME) (take k names) /\
    size' = ENVELOPE_BYTES + zsum (map column_size header') /\ size <= size' <= RESULT_BUDGET_BYTES / 2 /\
    (clipped' = false -> clipped = false /\ Forall (fun n => longer n MAX_COLUMN_NAME = false) (take k names)).
Proof.
  induction names as [|n names IH]; intros header size clipped Hs Hb; cbn [take_header].
  - exists O, header, size, clipped. cbn [take map]. rewrite app_nil_r. split; [done|]. split; [done|]. split; [done|].
    split; [lia|]. intros ->. split; [done|constructor].
  - pose proof (item_size_pos text_size text_size_nonneg (clip n MAX_COLUMN_NAME)) as Hpos.
    fold (column_size (clip n MAX_COLUMN_NAME)).
    destruct (RESULT_BUDGET_BYTES / 2 <? _) eqn:Hfull.
    + exists O, header, size, (longer n MAX_COLUMN_NAME || clipped). cbn [take map]. rewrite app_nil_r.
      split; [done|]. split; [done|]. split; [done|]. split; [lia|].
      intros Hc. apply orb_false_iff in Hc as [_ ->]. split; [done|constructor].
    + apply Z.ltb_ge in Hfull. destruct (IH (header ++ [clip n MAX_COLUMN_NAME])
        (size + column_size (clip n MAX_COLUMN_NAME)) (longer n MAX_COLUMN_NAME || clipped))
        as (k & h & sz & cl & E & Eh & Es & Hle & Hcl).
      * rewrite map_app, zsum_app. cbn [map zsum foldr]. lia.
      * rewrite half_budget in *. unfold USIZE_MAX in *. lia.
      * exists (S k), h, sz, cl. split; [done|]. cbn [take map].
        rewrite <- app_assoc in Eh. split; [done|]. split; [done|]. split; [lia|].
        intros Hc. destruct (Hcl Hc) as [Hor Hf]. apply orb_false_iff in Hor as [Hn ->]. split; [done|by constructor].
Qed.

Definition cells_of (names : list bytes) (r : Row) : list bytes := map (fun n => cell r n []) names.
Definition shown (names : list bytes) (r : Row) : list bytes := map (fun v => clip v MAX_CELL) (cells_of names r).

(** The row loop is the bounded list's own loop over the shown rows. *)
Lemma take_rows_spec names rows : forall b clipped,
  let '(b', clipped') := take_rows row_size names rows b clipped in
  b' = push_all row_size b (map (shown names) rows) /\
  (clipped' = false -> truncated b' = false ->
   clipped = false /\ Forall (fun r => Forall (fun v => longer v MAX_CELL = false) (cells_of names r)) rows).
Proof.
  induction rows as [|r rows IH]; intros b clipped; cbn [take_rows map push_all].
  { split; [done|]. intros -> _. split; [done|constructor]. }
  fold (cells_of names r). fold (shown names r).
  destruct (push row_size b (shown names r)) as [b1 fitted] eqn:Hp. destruct fitted.
  - specialize (IH b1 (existsb (fun v => longer v MAX_CELL) (cells_of names r) || clipped)).
    destruct (take_rows _ _ _ _ _) as [b2 cl]. destruct IH as [-> H]. split; [done|]. intros Hc Ht.
    destruct (H Hc Ht) as [Hor Hf]. apply orb_false_iff in Hor as [Hx ->]. split; [done|]. constructor; [|done].
    apply List.Forall_forall. intros v Hv. destruct (longer v MAX_CELL) eqn:E; [|done].
    rewrite <- Hx. symmetry. apply existsb_exists. eauto.
  - split; [done|]. intros _ Ht. unfold push in Hp. destruct (truncated b) eqn:Eb; [injection Hp as <-; congruence|].
    destruct (_ || _); injection Hp as <-; done.
Qed.

Lemma clip_not_longer v max : longer v max = false -> clip v max = v.
Proof. intros H%Nat.ltb_ge. by apply clip_short. Qed.

Lemma map_clip_id max vs : Forall (fun v => longer v max = false) vs -> map (fun v => clip v max) vs = vs.
Proof. induction 1 as [|v vs Hv Hvs IH]; simpl; [done|]. by rewrite clip_not_longer, IH. Qed.

(** The table reported for any osquery answer has at most 256 columns and
    10,000 rows, and its encoded columns and rows with the envelope stay within
    the result budget, so the answer can be posted; the columns reported begin
    with the answer's, and unless the table is marked truncated it has exactly
    the answer's columns and, for each of its rows, every cell unclipped. *)
Theorem table_bounded_and_faithful (all_columns : list bytes) (rows : list Row) :
  let t := table text_size row_size all_columns rows in
  (length (columns t) <= MAX_COLUMNS)%nat /\ zlength (t_rows t) <= MAX_ROWS /\
  ENVELOPE_BYTES + zsum (map column_size (columns t)) + zsum (map (item_size row_size) (t_rows t))
    <= RESULT_BUDGET_BYTES /\
  columns t = map (fun n => clip n MAX_COLUMN_NAME) (take (length (columns t)) all_columns) /\
  (t_truncated t = false ->
   columns t = all_columns /\ t_rows t = map (fun r => map (fun n => cell r n []) all_columns) rows).
Proof.
  unfold table.
  destruct (take_header_spec (take MAX_COLUMNS all_columns) [] ENVELOPE_BYTES
              (Nat.ltb MAX_COLUMNS (length all_columns)))
    as (k & h & sz & cl & E & Eh & Es & Hle & Hcl); [done|rewrite half_budget; unfold ENVELOPE_BYTES; lia|].
  rewrite half_budget in Hle. rewrite E. cbn [app] in Eh.
  assert (length h = Nat.min k (length (take MAX_COLUMNS all_columns))) as Hlen
    by (rewrite Eh, length_map, length_take; done).
  assert (take k (take MAX_COLUMNS all_columns) = take (length h) all_columns) as Etake.
  { rewrite Hlen, length_take, !take_take. rewrite <- (take_ge all_columns (Nat.max (length all_columns) 0)) at 1 by lia.
    rewrite take_take. f_equal. lia. }
  pose proof (take_rows_spec (take (length h) (take MAX_COLUMNS all_columns)) rows
    (with_budget MAX_ROWS (RESULT_BUDGET_BYTES - sz)) cl) as Hrows.
  destruct (take_rows _ _ _ _ _) as [b cl'] eqn:Er. destruct Hrows as [Hb Hcl'].
  assert (bounded_ok row_size (with_budget (T := list bytes) MAX_ROWS (RESULT_BUDGET_BYTES - sz))) as H0.
  { unfold bounded_ok, with_budget, RESULT_BUDGET_BYTES, MAX_ROWS, ENVELOPE_BYTES in *.
    cbn [used items Queries.budget Queries.max_items]. change (zlength (@nil (list bytes))) with 0. simpl. lia. }
  destruct (push_all_spec row_size row_size_nonneg (map (shown (take (length h) (take MAX_COLUMNS all_columns))) rows)
     _ H0 eq_refl) as ((Hu & Hused & _ & Hn) & Ebud & Emax & j & Hi & Hfull & _).
  rewrite <- Hb in *. unfold with_budget in Ebud, Emax, Hi, Hfull. cbn [Queries.budget Queries.max_items items app] in *.
  cbn [into_parts columns t_rows t_truncated].
  split; [rewrite Hlen, !length_take; lia|].
  split; [rewrite Emax in Hn; unfold MAX_ROWS in *; lia|].
  split; [rewrite <- Es, <- Hu; unfold ENVELOPE_BYTES, RESULT_BUDGET_BYTES in *; lia|].
  split; [by rewrite <- Etake|].
  intros Ht. rewrite !orb_false_iff in Ht. destruct Ht as [[-> Htr] Hd].
  destruct (Hcl' eq_refl Htr) as [-> Hcells]. destruct (Hcl eq_refl) as [Hcols Hnames].
  apply Nat.ltb_ge in Hcols, Hd. rewrite length_take in Hd.
  assert (take (length h) all_columns = all_columns) as Eall by (apply take_ge; lia).
  assert (take MAX_COLUMNS all_columns = all_columns) as Eall' by (apply take_ge; lia).
  rewrite Etake, Eall in Eh, Hnames. rewrite map_clip_id in Eh by done. split; [done|].
  rewrite (Hfull Htr), Eall', Eall in *. clear -Hcells.
  induction Hcells as [|r rows Hr Hrows IH]; simpl; [done|]. rewrite IH. f_equal. unfold shown.
  by apply map_clip_id.
Qed.
End table_bounds.

(** ** Requests to evaluate the theorems on *)

Section sample.
#[local] Instance texts : Json := json_of_table [].

(** A [Params] object's [sql]. *)
Definition sample_parse (raw : @json texts) : result bytes JobFailure :=
  match raw with JObj [(_, JStr s)] => Ok s | _ => Err (failed (lit "invalid parameters: ")) end.

Definition sample_request : @json texts :=
  JObj [(lit "sql", JStr (lit "-- who; /* is" ++ [10] ++ lit "  select ';$' , [a;b] from users ; -- ?"))].

Lemma sql_is_one_select_witness :
  let s := lit "-- who; /* is" ++ [10] ++ lit "  select ';$' , [a;b] from users" in
  sql sample_parse sample_request = Ok s /\ exists ts, Lexes s ts /\ all_plain ts.
Proof.
  intros s. assert (sql sample_parse sample_request = Ok s) as H by (vm_compute; reflexivity).
  split; [exact H|]. exact (proj1 (proj2 (sql_is_one_select sample_parse sample_request s H))).
Defined.

Example sql_refuses_parameters :
  sql sample_parse (JObj [(lit "sql", JStr (lit "select $1"))]) = Err parameter_refused /\
  sql sample_parse (JObj [(lit "sql", JStr (lit "select 1; select 2"))]) = Err second_statement /\
  sql sample_parse JNull = Err (failed (lit "invalid parameters: sql must not be blank")).
Proof. vm_compute. done. Qed.

Lemma table_bounded_and_faithful_witness :
  let size := fun x : bytes => Some (zlength x + 2) in
  let rsize := fun r : list bytes => Some (zsum (map (fun x => zlength x + 3) r)) in
  let rows := [collect_row [(lit "a", lit "1"); (lit "b", lit "2")]; collect_row [(lit "b", lit "3")]] in
  let t := table size rsize [lit "b"; lit "a"] rows in
  t = mkTable [lit "b"; lit "a"] [[lit "2"; lit "1"]; [lit "3"; []]] false /\
  ENVELOPE_BYTES + zsum (map (item_size size) (columns t)) + zsum (map (item_size rsize) (t_rows t))
    <= RESULT_BUDGET_BYTES.
Proof.
  intros size rsize rows t. split; [vm_compute; reflexivity|].
  refine (proj1 (proj2 (proj2 (table_bounded_and_faithful size rsize _ _ [lit "b"; lit "a"] rows)))).
  - intros x n [= <-]. unfold zlength. lia.
  - intros r n [= <-]. induction r as [|x r IH]; cbn [map]; unfold zsum in *; cbn [fold_right]; unfold zlength in *; lia.
Defined.
End sample.
