(* ===== verification/Answers.v ===== *)
(** * jobs/queries: what the native queries share

    Stable sorting by a key, removing repeats, lists cut to the result's bounds, a query's
    parameters, and running a program for its answer.  The size of a value's JSON text is
    serde_json's ([JsonText]). *)

From Stdlib Require Import String Sorted.
From S2P Require Import Prelude Text BTree JsonValue Command Jobs Queries.

(** ** [Vec::sort_by] and [Vec::dedup] *)

Section sort.
Context {A K : Type} {O : KeyOrder K}.
Variable key : A -> K.

(** [x] is not after [y]. *)
Definition not_after (x y : A) : bool := negb (key_ltb (key y) (key x)).

Fixpoint place (x : A) (l : list A) : list A :=
  match l with
  | [] => [x]
  | y :: l' => if not_after x y then x :: l else y :: place x l'
  end.
(** The sort is stable: an element stays before the later ones it equals. *)
Definition sort_by_key (l : list A) : list A := fold_right place [] l.

Definition in_order (x y : A) : Prop := not_after x y = true.

Lemma place_perm x l : place x l ≡ₚ x :: l.
Proof. induction l as [|y l IH]; cbn; [done|]. destruct (not_after x y); [done|]. rewrite IH. apply Permutation_swap. Qed.

Lemma sort_by_key_perm l : sort_by_key l ≡ₚ l.
Proof. induction l as [|x l IH]; cbn; [done|]. by rewrite place_perm, IH. Qed.

Lemma in_order_trans x y z : in_order x y -> in_order y z -> in_order x z.
Proof.
  unfold in_order, not_after. rewrite !negb_true_iff. intros H1 H2. destruct (key_ltb (key z) (key x)) eqn:E; [|done].
  destruct (key_ltb (key x) (key y)) eqn:F.
  - by rewrite (key_ltb_trans _ _ _ E F) in H2.
  - assert (key x = key y) as Exy by by apply key_ltb_total. rewrite Exy in E. congruence.
Qed.

Lemma place_sorted x l : StronglySorted in_order l -> StronglySorted in_order (place x l).
Proof.
  induction 1 as [|y l Hs IH Hy]; cbn; [repeat constructor|]. destruct (not_after x y) eqn:E.
  - constructor; [by constructor|]. constructor; [done|]. eapply List.Forall_impl; [|exact Hy]. intros z. by apply in_order_trans.
  - constructor; [done|]. rewrite place_perm. constructor; [|done]. unfold in_order, not_after in *.
    apply negb_false_iff in E. apply negb_true_iff. destruct (key_ltb (key x) (key y)) eqn:F; [|done].
    pose proof (key_ltb_trans _ _ _ E F) as Ht. by rewrite key_ltb_irrefl in Ht.
Qed.

Lemma sort_by_key_sorted l : StronglySorted in_order (sort_by_key l).
Proof. induction l as [|x l IH]; cbn; [constructor|]. by apply place_sorted. Qed.

Lemma place_filter (p : A -> bool) x l : (forall y, p x = true -> p y = true -> not_after x y = true) ->
  List.filter p (place x l) = List.filter p (x :: l).
Proof.
  intros Hp. induction l as [|y l IH]; cbn [place]; [done|]. destruct (not_after x y) eqn:E; [done|]. cbn [List.filter]. rewrite IH. cbn [List.filter].
  destruct (p x) eqn:Ex, (p y) eqn:Ey; try done. by rewrite Hp in E.
Qed.

(** Elements with equal keys keep their order. *)
Lemma sort_by_key_stable (k : K) l : List.filter (fun x => bool_decide (key x = k)) (sort_by_key l) = List.filter (fun x => bool_decide (key x = k)) l.
Proof.
  induction l as [|x l IH]; [done|]. cbn [sort_by_key fold_right]. fold (sort_by_key l). rewrite place_filter; [cbn [List.filter]; by rewrite IH|].
  intros y Ex%bool_decide_eq_true Ey%bool_decide_eq_true. unfold not_after. by rewrite Ex, Ey, key_ltb_irrefl.
Qed.
End sort.

Fixpoint dedup {A} `{EqDecision A} (l : list A) : list A :=
  match l with
  | [] => []
  | x :: l' => match l' with
               | y :: _ => if decide (x = y) then dedup l' else x :: dedup l'
               | [] => [x]
               end
  end.

Lemma elem_of_dedup {A} `{EqDecision A} (l : list A) x : x ∈ dedup l <-> x ∈ l.
Proof.
  induction l as [|y l IH]; [done|]. cbn [dedup]. destruct l as [|z l]; [done|]. destruct (decide (y = z)) as [->|].
  - rewrite IH. set_solver.
  - rewrite !elem_of_cons, IH. set_solver.
Qed.

Lemma dedup_forall {A} `{EqDecision A} (P : A -> Prop) (l : list A) : Forall P l -> Forall P (dedup l).
Proof. rewrite !list.Forall_forall. intros H x Hx. apply H. by rewrite <- elem_of_dedup. Qed.

Lemma dedup_sorted {A} `{EqDecision A} (R : A -> A -> Prop) (l : list A) : StronglySorted R l -> StronglySorted R (dedup l).
Proof.
  induction 1 as [|x l Hs IH Hx]; [constructor|]. cbn [dedup]. destruct l as [|y l]; [repeat constructor|]. destruct (decide (x = y)); [done|].
  constructor; [done|]. by apply dedup_forall.
Qed.

(** Where equal keys mean equal elements, a sorted list has no repeats left. *)
Lemma dedup_nodup {A K} `{EqDecision A} `{KeyOrder K} (key : A -> K) (l : list A) : (forall x y, key x = key y -> x = y) ->
  StronglySorted (in_order key) l -> NoDup (dedup l).
Proof.
  intros Hk. induction 1 as [|x l Hs IH Hx]; [constructor|]. cbn [dedup]. destruct l as [|y l]; [repeat constructor; set_solver|]. destruct (decide (x = y)); [done|].
  apply list.NoDup_cons. split; [|done]. rewrite elem_of_dedup. intros Hin.
  apply list.Forall_cons in Hx as [Hxy Hx]. inversion Hs as [|? ? _ Hy]; subst. apply elem_of_cons in Hin as [->|Hin]; [done|].
  rewrite list.Forall_forall in Hy. specialize (Hy x Hin). unfold in_order, not_after in *. apply negb_true_iff in Hxy, Hy.
  by apply n, Hk, key_ltb_total.
Qed.

Lemma sorted_take {A} (R : A -> A -> Prop) k l : StronglySorted R l -> StronglySorted R (take k l).
Proof.
  intros H. revert k. induction H as [|x l Hs IH Hx]; intros [|k]; cbn; [constructor..|]. constructor; [apply IH|].
  apply list.Forall_forall. intros y Hy. apply elem_of_take in Hy as (i & Hi & _). rewrite list.Forall_forall in Hx. by eapply Hx, list_elem_of_lookup_2.
Qed.

#[export] Instance option_order {A} {OA : KeyOrder A} : KeyOrder (option A).
Proof.
  refine {| key_ltb := fun a b => match a, b with _, None => false | None, Some _ => true | Some x, Some y => key_ltb x y end |}.
  - intros [a|] [b|] [c|]; try done. apply key_ltb_trans.
  - intros [a|]; [apply key_ltb_irrefl|done].
  - intros [a|] [b|]; try done. intros H1 H2. f_equal. by apply key_ltb_total.
Defined.

(** ** Cut lists *)

Class JsonText := {
  to_vec_len : Value -> option Z;             (* the length of [serde_json::to_vec] *)
  to_vec_len_nonneg : forall v n, to_vec_len v = Some n -> 0 <= n }.

Section cut.
Context {J : JsonText} {T : Type}.
Variable value_of : T -> Value.
Definition size_of (x : T) : option Z := to_vec_len (value_of x).

(** [Bounded::new], the loop of pushes and [into_parts]. *)
Definition cut (max : Z) (l : list T) : list T * bool := into_parts (push_all size_of (bounded_new max) l).

(** [kept] is what of [l] fits a result: all of it, unless it says it is cut. *)
Definition cut_ok (max : Z) (l kept : list T) (short : bool) : Prop :=
  (exists k, kept = take k l) /\ zlength kept <= max /\ zsum (map (item_size size_of) kept) <= RESULT_BUDGET_BYTES /\ (short = false -> kept = l).

Lemma cut_spec max l : 0 <= max -> cut_ok max l (fst (cut max l)) (snd (cut max l)).
Proof.
  intros Hm. pose proof (bounded_list_complete_or_truncated size_of max RESULT_BUDGET_BYTES l) as H. unfold cut, bounded_new.
  destruct (into_parts _) as [kept short]. destruct H as (k & H1 & H2 & H3 & H4 & _); [intros x n; apply to_vec_len_nonneg|vm_compute; discriminate|done|].
  unfold cut_ok. cbn [fst snd]. split; [by exists k|]. split; [done|]. split; [lia|done].
Qed.

Lemma cut_elem max l kept short x : cut_ok max l kept short -> x ∈ kept -> x ∈ l.
Proof. intros ((k & ->) & _) Hx. apply elem_of_take in Hx as (i & Hi & _). by eapply list_elem_of_lookup_2. Qed.
End cut.

(** ** Parameters *)

(** serde reads [T] from a value that is not null; it says why it cannot. *)
Definition parameters {T} (default : T) (from_value : Value -> result T bytes) (raw : Value) : result T JobFailure :=
  if is_null raw then Ok default else map_err (fun e => Failed (lit "invalid parameters: " ++ e)) (from_value raw).

(** ** Programs *)

Definition PROGRAM_OUTPUT_BYTES : Z := 32 * 1024 * 1024.

Section programs.
Context {P : Programs}.

(** A native reading: [Err None] would be a loop that did not end. *)
Abbreviation Reading := (ST (programs * list act) (option JobFailure)).
Definition fail {A} (e : JobFailure) : Reading A := st_err (Some e).
Definition cancelled : Reading bool := outside stopping.
Definition reported {A} (r : result A JobFailure) : Reading A := st_of_result (map_err Some r).

Definition run_program (argv : list bytes) (timeout : Z) (what : string) : Reading Output := fun s =>
  let '(s, r) := run_with_limits (turns timeout) argv timeout PROGRAM_OUTPUT_BYTES s in
  match r with
  | Err OutOfFuel => (s, Err None)
  | Err (Io e) =>
      (let* stop := cancelled in
       fail (if (stop : bool) then Cancelled
             else if bool_decide (e_kind e = NotFound) then failed (lit "could not read " ++ lit what ++ lit ": the program is not installed")
             else failed (lit "could not read " ++ lit what))) s
  | Ok output => if overflowed output then (s, Err (Some (failed (lit what ++ lit " are too large to read")))) else (s, Ok output)
  end.
End programs.

(** A small [JsonText]. *)
Definition tiny_json_text : JsonText.
Proof. refine {| to_vec_len := fun _ => Some 10 |}. intros v n [= <-]. lia. Defined.
