(* ===== verification/InventoryJob.v ===== *)
(** * jobs/inventory_collect.rs: an inventory on request

    The collection itself is the daemon's, an argument. *)

From Stdlib Require Import String.
From S2P Require Import Prelude Text JsonValue Jobs Interfaces.

(** No parameters, or an object without members. *)
Definition no_parameters (p : Value) : bool := is_null p || match p with VObject [] => true | _ => false end.

Section run.
Context {W : Type} {U : Uuid}.
Variable collect : Run W (result uuid bytes).
Variable cancelled : Run W bool.

Definition run (parameters : Value) : Run W (result Value JobFailure) := fun w =>
  if negb (no_parameters parameters) then (w, Err (Failed (lit "inventory.collect@1 takes no parameters")))
  else
    match collect w with
    | (w, Ok id) => (w, Ok (json_object [("observation_id"%string, VString (uuid_show id))]))
    | (w, Err reason) => let '(w, stop) := cancelled w in (w, Err (if (stop : bool) then Cancelled else Failed reason))
    end.

(** A request with parameters is refused and nothing is collected; any other is one
    collection, whose identifier is all it answers with. *)
Theorem inventory_job_reports_its_collection (parameters : Value) (w w' : W) (r : result Value JobFailure) : run parameters w = (w', r) ->
  if no_parameters parameters then
    match collect w with
    | (w1, Ok id) => w' = w1 /\ exists v, r = Ok v /\ get v (lit "observation_id") = Some (VString (uuid_show id))
    | (w1, Err reason) => w' = fst (cancelled w1) /\ r = Err (if snd (cancelled w1) then Cancelled else Failed reason)
    end
  else w' = w /\ exists reason, r = Err (Failed reason).
Proof.
  unfold run. destruct (no_parameters parameters); cbn [negb].
  - destruct (collect w) as [w1 [id|reason]].
    + intros E. split; [congruence|]. eexists. split; [symmetry; by eapply (f_equal snd) in E|]. reflexivity.
    + destruct (cancelled w1) as [w2 stop]. intros E. cbn [fst snd]. split; [congruence|]. by eapply (f_equal snd) in E.
  - intros E. split; [congruence|]. eexists. symmetry. by eapply (f_equal snd) in E.
Qed.
End run.
