(* ===== verification/Sockets.v ===== *)
(** * jobs/queries/listening_sockets.rs: who listens on this host

    What procfs lists is an argument ([Procfs]): the socket tables and the processes the
    agent may inspect. *)

From Stdlib Require Import String Sorted.
From S2P Require Import Prelude Text Ip BTree JsonValue Command Jobs Osquery Queries Answers.

Definition MAX_SOCKETS : Z := 4096.
Definition OSQUERY_SQL : bytes :=
  lit "SELECT lp.protocol, lp.address, lp.port, lp.pid, p.name FROM listening_ports AS lp LEFT JOIN processes AS p USING (pid) WHERE lp.family IN (2, 10) AND lp.protocol IN (6, 17)".

Record Listener := mkListener { l_protocol : bytes; l_local : SocketAddr; l_inode : Z }.
Record Socket := mkSocket { s_protocol : bytes; s_address : bytes; s_port : Z; s_process : option bytes; s_pid : option Z }.

#[export] Instance Socket_eq_dec : EqDecision Socket.
Proof. solve_decision. Defined.

(** ** procfs *)

Record TcpEntry := mkTcpEntry { t_listening : bool; t_address : SocketAddr; t_inode : Z }.
Record UdpEntry := mkUdpEntry { u_closed : bool; u_address : SocketAddr; u_remote_port : Z; u_inode : Z }.
Inductive FdTarget := FdSocket (inode : Z) | FdOther.
(** A process, its descriptors if they may be read, and its name. *)
Record Process := mkProcess { p_pid : Z; p_fds : option (list (option FdTarget)); p_comm : option bytes }.
Record Procfs := mkProcfs {
  tcp : option (list TcpEntry); tcp6 : option (list TcpEntry); udp : option (list UdpEntry); udp6 : option (list UdpEntry);
  all_processes : option (list (option Process)) }.

Definition or_none {A} (o : option (list A)) : list A := match o with Some l => l | None => [] end.
Definition flatten {A} (l : list (option A)) : list A := omap id l.

Definition tcp_listener (e : TcpEntry) : Listener := mkListener (lit "tcp") (t_address e) (t_inode e).
Definition udp_listener (e : UdpEntry) : Listener := mkListener (lit "udp") (u_address e) (u_inode e).
Definition read_listeners (p : Procfs) : result (list Listener) JobFailure :=
  match tcp p with
  | None => Err (failed (lit "could not read the socket tables"))
  | Some tcp4 =>
      Ok (map tcp_listener (List.filter t_listening (tcp4 ++ or_none (tcp6 p)))
          ++ map udp_listener (List.filter (fun e => u_closed e && (u_remote_port e =? 0)) (or_none (udp p) ++ or_none (udp6 p))))
  end.

(** [entry(inode).or_insert(owner)]. *)
Definition or_insert (owner : Z * bytes) (owners : gmap Z (Z * bytes)) (inode : Z) : gmap Z (Z * bytes) :=
  match owners !! inode with Some _ => owners | None => <[inode := owner]> owners end.
Definition socket_inodes (fds : list (option FdTarget)) : list Z := omap (fun t => match t with FdSocket i => Some i | FdOther => None end) (flatten fds).
Definition comm_of (p : Process) : bytes := match p_comm p with Some c => c | None => [] end.
Definition add_process (owners : gmap Z (Z * bytes)) (p : Process) : gmap Z (Z * bytes) :=
  match p_fds p with None => owners | Some fds => fold_left (or_insert (p_pid p, comm_of p)) (socket_inodes fds) owners end.

Section native.
Context {P : Programs}.

Fixpoint owners_loop (ps : list Process) (owners : gmap Z (Z * bytes)) : ST (programs * list act) (option JobFailure) (gmap Z (Z * bytes)) :=
  match ps with
  | [] => st_ret owners
  | p :: ps' =>
      let* stop := cancelled in
      if (stop : bool) then st_ret owners else owners_loop ps' (add_process owners p)
  end.
Definition read_owners (p : Procfs) : ST (programs * list act) (option JobFailure) (gmap Z (Z * bytes)) :=
  match all_processes p with None => st_ret ∅ | Some ps => owners_loop (flatten ps) ∅ end.
End native.

(** ** The answer *)

Definition text_or_null : option bytes -> Value := or_json VString.
Definition number (n : Z) : Value := VNumber (if n <? 0 then NegInt n else PosInt n).
Definition socket_value (s : Socket) : Value :=
  json_object [("protocol"%string, VString (s_protocol s)); ("address"%string, VString (s_address s)); ("port"%string, number (s_port s));
               ("process"%string, text_or_null (s_process s)); ("pid"%string, or_json number (s_pid s))].

Definition socket_of (owners : gmap Z (Z * bytes)) (l : Listener) : Socket :=
  let owner := owners !! l_inode l in
  mkSocket (l_protocol l) (show_ip (sa_ip (l_local l))) (sa_port (l_local l)) (option_map (fun o => clip (snd o) 64) owner) (option_map fst owner).

Definition order_key (s : Socket) : Z * (bytes * bytes) := (s_port s, (s_protocol s, s_address s)).
Definition wanted_port (port : option Z) (s : Socket) : bool := match port with None => true | Some p => s_port s =? p end.

Section answer.
Context {J : JsonText}.
Definition sockets_parts (sockets : list Socket) (port : option Z) : list Socket * bool :=
  cut socket_value MAX_SOCKETS (dedup (sort_by_key order_key (List.filter (wanted_port port) sockets))).
Definition sockets_answer (sockets : list Socket) (port : option Z) : Value :=
  let '(kept, short) := sockets_parts sockets port in
  json_object [("sockets"%string, VArray (map socket_value kept)); ("truncated"%string, VBool short)].
Definition answer (listeners : list Listener) (owners : gmap Z (Z * bytes)) (port : option Z) : Value :=
  sockets_answer (map (socket_of owners) listeners) port.

(** [i32::from_str]. *)
Definition parse_i32 (s : bytes) : option Z :=
  match s with
  | b :: s' => if b =? 45 then (if bool_decide (head s' = Some 43) then None else option_map Z.opp (parse_uint (2 ^ 31) s')) else parse_uint (2 ^ 31 - 1) s
  | [] => None
  end.

Definition socket_from_osquery (row : Row) : option Socket :=
  let+ p := row !! lit "protocol" in
  let+ protocol := (if str_eqb p (lit "6") then Some (lit "tcp") else if str_eqb p (lit "17") then Some (lit "udp") else None) in
  let+ pid_text := row !! lit "pid" in
  let pid := match parse_i32 pid_text with Some n => if 0 <? n then Some n else None | None => None end in
  let+ address := osquery_text row (lit "address") in
  let+ port := (let+ n := osquery_u64 row (lit "port") in if n <=? 65535 then Some n else None) in
  Some (mkSocket protocol (clip address 64) port
          (match pid with Some _ => option_map (fun n => clip n 64) (osquery_text row (lit "name")) | None => None end) pid).

Variable from_value : Value -> result (option Z) bytes.
Definition port_of (raw : Value) : result (option Z) JobFailure :=
  let? p := parameters None from_value raw in
  if bool_decide (p = Some 0) then Err (failed (lit "invalid parameters: port must be 1 to 65535")) else Ok p.

(** [Query::answer_with_osquery]. *)
Definition answer_with_osquery {Q : OsqueryApi} (raw : Value) : Run client (result (option Value) JobFailure) := fun c =>
  match port_of raw with
  | Err e => (c, Err e)
  | Ok port =>
      let '(c, rows) := api_query OSQUERY_SQL c in
      (c, Ok (match rows with Ok rows => Some (sockets_answer (omap socket_from_osquery rows) port) | Err _ => None end))
  end.

(** [Query::answer]. *)
Definition native_answer {P : Programs} (p : Procfs) (raw : Value) : ST (programs * list act) (option JobFailure) Value :=
  let* port := reported (port_of raw) in
  let* listeners := reported (read_listeners p) in
  let* stop := cancelled in
  if (stop : bool) then fail Cancelled
  else let* owners := read_owners p in st_ret (answer listeners owners port).
End answer.

(** ** What is reported is what procfs lists *)

(** [p]'s descriptors can be read and one of them is the socket [inode]. *)
Definition holds (p : Process) (inode : Z) : Prop := exists fds, p_fds p = Some fds /\ inode ∈ socket_inodes fds.

Lemma or_insert_fold owner js : forall owners i v, fold_left (or_insert owner) js owners !! i = Some v -> owners !! i = Some v \/ (i ∈ js /\ v = owner).
Proof.
  induction js as [|j js IH]; intros owners i v; cbn [fold_left]; [by left|]. intros [H|[H ->]]%IH; [|right; set_solver].
  unfold or_insert in H. destruct (owners !! j); [by left|]. apply lookup_insert_Some in H as [[-> <-]|[_ H]]; [right; set_solver|by left].
Qed.

Lemma add_process_sound owners p i v : add_process owners p !! i = Some v -> owners !! i = Some v \/ (holds p i /\ v = (p_pid p, comm_of p)).
Proof.
  unfold add_process, holds. destruct (p_fds p) as [fds|]; [|by left]. intros [H|[H ->]]%or_insert_fold; [by left|right]. split; [by exists fds|done].
Qed.

Section honest.
Context {P : Programs}.

Lemma owners_loop_sound ps : forall owners s s' r, owners_loop ps owners s = (s', r) ->
  exists all, r = Ok all /\ forall i v, all !! i = Some v -> owners !! i = Some v \/ exists p, p ∈ ps /\ holds p i /\ v = (p_pid p, comm_of p).
Proof.
  induction ps as [|p ps IH]; intros owners s s' r; cbn [owners_loop]; [intros [= <- <-]; eauto|].
  unfold st_bind, cancelled, outside. destruct (stopping (fst s)) as [w [|]]; [intros [= <- <-]; eauto|].
  intros (all & -> & H)%IH. exists all. split; [done|]. intros i v [Hi|(q & Hq & Hh)]%H; [|right; exists q; set_solver].
  apply add_process_sound in Hi as [Hi|Hi]; [by left|right]. exists p. set_solver.
Qed.

Definition owned (p : Procfs) (inode : Z) (process : option bytes) (pid : option Z) : Prop :=
  match pid with
  | Some n => exists ps q, all_processes p = Some ps /\ Some q ∈ ps /\ p_pid q = n /\ holds q inode /\ process = Some (clip (comm_of q) 64)
  | None => process = None
  end.

Lemma read_owners_sound p s s' r : read_owners p s = (s', r) -> exists all, r = Ok all /\
  forall i, owned p i (option_map (fun o => clip (snd o) 64) (all !! i)) (option_map fst (all !! i)).
Proof.
  unfold read_owners. destruct (all_processes p) as [ps|] eqn:Ep; [|intros [= <- <-]; eexists; split; [done|]; intros i; by rewrite lookup_empty].
  intros (all & -> & H)%owners_loop_sound. exists all. split; [done|]. intros i. specialize (H i). destruct (all !! i) as [v|]; [|done].
  destruct (H v eq_refl) as [H'|(q & Hq & Hh & ->)]; [by rewrite lookup_empty in H'|]. cbn. exists ps, q. rewrite Ep. split; [done|].
  split; [|done]. unfold flatten in Hq. by apply list_elem_of_omap in Hq as ([q'|] & Hin & [= ->]).
Qed.

(** A socket in an answer, of the listener [l]. *)
Definition reports (p : Procfs) (port : option Z) (s : Socket) (l : Listener) : Prop :=
  s_protocol s = l_protocol l /\ s_address s = show_ip (sa_ip (l_local l)) /\ s_port s = sa_port (l_local l) /\
  wanted_port port s = true /\ owned p (l_inode l) (s_process s) (s_pid s).

Context {J : JsonText}.
Variable from_value : Value -> result (option Z) bytes.

(** What [query.listening_sockets] answers natively is what procfs lists: every
    socket is a listening TCP or unconnected UDP socket of the tables on the wanted port,
    in order; a process is named only if the agent saw that process hold the socket; the
    list is within its limit, and unless it says it is cut, every such socket is there. *)
Theorem sockets_are_as_listed (p : Procfs) (raw v : Value) (s s' : programs * list act) :
  native_answer from_value p raw s = (s', Ok v) ->
  exists port listeners kept short, port_of from_value raw = Ok port /\ read_listeners p = Ok listeners /\
    v = json_object [("sockets"%string, VArray (map socket_value kept)); ("truncated"%string, VBool short)] /\
    StronglySorted (in_order order_key) kept /\ zlength kept <= MAX_SOCKETS /\
    Forall (fun k => exists l, l ∈ listeners /\ reports p port k l) kept /\
    (short = false -> forall l, l ∈ listeners -> match port with None => True | Some n => sa_port (l_local l) = n end ->
       exists k, k ∈ kept /\ reports p port k l).
Proof.
  unfold native_answer, reported. destruct (port_of from_value raw) as [port|e]; [|done]. unfold st_bind at 1. cbn [map_err st_of_result].
  destruct (read_listeners p) as [ls|e]; [|done]. unfold st_bind, st_of_result, cancelled, outside, fail, st_err, st_ret. cbn [fst snd map_err]. destruct (stopping (fst s)) as [w [|]]; [done|].
  destruct (read_owners p (w, snd s)) as [s1 r] eqn:Eo. apply read_owners_sound in Eo as (owners & -> & Hown).
  intros Hv. assert (v = answer ls owners port) as -> by congruence. clear Hv. unfold answer, sockets_answer, sockets_parts. set (all := List.filter (wanted_port port) (map (socket_of owners) ls)).
  set (sorted := dedup (sort_by_key order_key all)). pose proof (cut_spec socket_value MAX_SOCKETS sorted ltac:(unfold MAX_SOCKETS; lia)) as Hc.
  destruct (cut socket_value MAX_SOCKETS sorted) as [kept short]. cbn [fst snd] in Hc. exists port, ls, kept, short.
  assert (forall k, k ∈ sorted <-> exists l, l ∈ ls /\ k = socket_of owners l /\ wanted_port port k = true) as Hin.
  { intros k. unfold sorted, all. rewrite elem_of_dedup, sort_by_key_perm, list_elem_of_In, filter_In, <- list_elem_of_In, list_elem_of_fmap. naive_solver. }
  split; [done|]. split; [done|]. split; [done|]. pose proof Hc as ((k & Ek) & Hlen & _ & Hall). split; [|split; [done|split]].
  - rewrite Ek. apply sorted_take, dedup_sorted, sort_by_key_sorted.
  - apply list.Forall_forall. intros x Hx. eapply cut_elem in Hx; [|exact Hc]. apply Hin in Hx as (l & Hl & -> & Hw). exists l. split; [done|].
    unfold reports. cbn. repeat (split; [done|]). apply Hown.
  - intros -> l Hl Hp. exists (socket_of owners l). assert (wanted_port port (socket_of owners l) = true) as Hw.
    { destruct port as [n|]; [|done]. cbn. by apply Z.eqb_eq. }
    split; [rewrite Hall by done; apply Hin; eauto|]. unfold reports. repeat (split; [done|]). apply Hown.
Qed.
End honest.

Definition demo_procfs : Procfs :=
  mkProcfs (Some [mkTcpEntry true (mkSocketAddr (V4 127 0 0 1) 22) 7; mkTcpEntry false (mkSocketAddr (V4 127 0 0 1) 80) 8]) None None None
    (Some [None; Some (mkProcess 4 (Some [Some (FdSocket 7)]) (Some (lit "sshd")))]).
Definition demo_sockets : ST (programs (Programs := demo_machine) * list act) (option JobFailure) Value :=
  native_answer (J := tiny_json_text) (P := demo_machine) (fun _ => Ok None) demo_procfs VNull.

Lemma sockets_are_as_listed_witness : exists s v, demo_sockets (0, []) = (s, Ok v) /\
  exists kept, v = json_object [("sockets"%string, VArray (map socket_value kept)); ("truncated"%string, VBool false)] /\
    Forall (fun k => s_port k = 22) kept.
Proof.
  remember (demo_sockets (0, [])) as out eqn:E. pose proof E as E0. vm_compute in E0. destruct out as [s [v|e]]; [|discriminate E0].
  exists s, v. split; [reflexivity|]. symmetry in E.
  destruct (sockets_are_as_listed (J := tiny_json_text) (P := demo_machine) (fun _ => Ok None) demo_procfs VNull v (0, []) s E)
    as (port & ls & kept & short & Hp & Hl & Hv & _ & _ & Hk & _).
  exists kept. split.
  - rewrite Hv. destruct short; [|reflexivity]. exfalso. injection E0 as _ E1. rewrite Hv in E1. discriminate E1.
  - apply list.Forall_forall. intros k Hin. rewrite list.Forall_forall in Hk. destruct (Hk k Hin) as (l & Hll & _ & _ & Hport & _). rewrite Hport.
    injection Hl as <-. apply list_elem_of_singleton in Hll as ->. reflexivity.
Defined.
