(* ===== verification/Services.v ===== *)
(** * jobs/queries/services.rs: the service units of systemd

    Read over D-Bus through [busctl] with fixed arguments, or from osquery. *)

From Stdlib Require Import String Sorted.
From S2P Require Import Prelude Text BTree JsonValue Command Jobs Osquery Queries Answers Sockets.

Definition MAX_UNITS : Z := 4096.
Definition BUSCTL_TIMEOUT : Z := from_secs 10.
Definition OSQUERY_UNITS_SQL : bytes :=
  lit "SELECT id, description, load_state, active_state, sub_state, unit_file_state FROM systemd_units WHERE id LIKE '%.service'".
Definition manager_call (method : string) : list bytes :=
  [lit "--system"; lit "--json=short"; lit "call"; lit "org.freedesktop.systemd1"; lit "/org/freedesktop/systemd1"; lit "org.freedesktop.systemd1.Manager";
   lit method; lit "asas"; lit "0"; lit "1"; lit "*.service"].
Definition LIST_UNITS : list bytes := manager_call "ListUnitsByPatterns".
Definition LIST_UNIT_FILES : list bytes := manager_call "ListUnitFilesByPatterns".

Record Unit := mkUnit {
  unit_name : bytes; description : option bytes; load_state : bytes; active_state : bytes; sub_state : bytes; enabled_state : option bytes }.

#[export] Instance Unit_eq_dec : EqDecision Unit.
Proof. solve_decision. Defined.

Definition unit_value (u : Unit) : Value :=
  json_object [("name"%string, VString (unit_name u)); ("description"%string, text_or_null (description u)); ("load_state"%string, VString (load_state u));
               ("active_state"%string, VString (active_state u)); ("sub_state"%string, VString (sub_state u)); ("enabled_state"%string, text_or_null (enabled_state u))].

(** ** The answer *)

Definition nonempty (o : option bytes) : option bytes := let+ t := o in if bool_decide (t = []) then None else Some t.
Definition clipped (max : nat) (o : option bytes) : option bytes := option_map (fun t => clip t max) o.

(** The first member of a reply's data, if it is an array. *)
Definition reply_rows (reply : Value) : option (list Value) := as_array (at_index (member reply "data") 0).

(** [path.rsplit('/').next()]. *)
Definition after_slash (path : bytes) : option bytes := last_opt (split_on 47 path).
Definition enabled_row (row : Value) : option (bytes * bytes) :=
  let+ path := as_str (at_index row 0) in
  let+ name := after_slash path in
  let+ state := as_str (at_index row 1) in
  Some (name, state).
Definition enabled_of (files : Value) : Row := collect_row (omap enabled_row (or_none (reply_rows files))).

Definition unit_of (enabled : Row) (row : Value) : option Unit :=
  let field i := as_str (at_index row i) in
  let+ name := field 0%nat in
  let+ load := field 2%nat in
  let+ active := field 3%nat in
  let+ sub := field 4%nat in
  Some (mkUnit (clip name 256) (clipped 256 (nonempty (field 1%nat))) (clip load 32) (clip active 32) (clip sub 32) (clipped 32 (enabled !! name))).

Section answer.
Context {J : JsonText}.
Definition keep_unit (failed_only : bool) (u : Unit) : bool := negb failed_only || str_eqb (active_state u) (lit "failed").
Definition units_parts (units : list Unit) (failed_only : bool) : list Unit * bool :=
  cut unit_value MAX_UNITS (sort_by_key unit_name (List.filter (keep_unit failed_only) units)).
Definition units_answer (units : list Unit) (failed_only : bool) : Value :=
  let '(kept, short) := units_parts units failed_only in
  json_object [("units"%string, VArray (map unit_value kept)); ("truncated"%string, VBool short)].

Definition answer (units files : Value) (failed_only : bool) : result Value JobFailure :=
  match reply_rows units with
  | None => Err (failed (lit "systemd's unit list had an unexpected shape"))
  | Some rows => Ok (units_answer (omap (unit_of (enabled_of files)) rows) failed_only)
  end.

Definition unit_from_osquery (row : Row) : option Unit :=
  let text c := osquery_text row (lit c) in
  let+ name := text "id"%string in
  let+ load := text "load_state"%string in
  let+ active := text "active_state"%string in
  let+ sub := text "sub_state"%string in
  Some (mkUnit (clip name 256) (clipped 256 (text "description"%string)) (clip load 32) (clip active 32) (clip sub 32) (clipped 32 (text "unit_file_state"%string))).

Variable from_value : Value -> result bool bytes.

Definition answer_with_osquery {Q : OsqueryApi} (raw : Value) : Run client (result (option Value) JobFailure) := fun c =>
  match parameters false from_value raw with
  | Err e => (c, Err e)
  | Ok failed_only =>
      let '(c, rows) := api_query OSQUERY_UNITS_SQL c in
      (c, Ok (match rows with
              | Ok [] | Err _ => None
              | Ok rows => Some (units_answer (omap unit_from_osquery rows) failed_only)
              end))
  end.

Context {P : Programs} {D : SerdeJson}.
Definition busctl (args : list bytes) : ST (programs * list act) (option JobFailure) Value :=
  let* output := run_program (lit "busctl" :: args) BUSCTL_TIMEOUT "systemd's units" in
  if negb (success output) then fail (failed (lit "systemd refused the unit list over D-Bus"))
  else reported (map_err (fun _ => failed (lit "systemd's answer was not JSON")) (from_slice (stdout output))).

(** [Query::answer]: enablement is extra detail, and any failure to read it is dropped. *)
Definition native_answer (raw : Value) : ST (programs * list act) (option JobFailure) Value :=
  let* failed_only := reported (parameters false from_value raw) in
  let* units := busctl LIST_UNITS in
  let* files := st_catch (busctl LIST_UNIT_FILES) in
  reported (answer units (match files with Ok v => v | Err _ => VNull end) failed_only).
End answer.

(** ** Units are as systemd lists them *)

Lemma elem_of_sorted_filter {A K} `{KeyOrder K} (key : A -> K) (p : A -> bool) l x : x ∈ sort_by_key key (List.filter p l) <-> x ∈ l /\ p x = true.
Proof. rewrite sort_by_key_perm, !list_elem_of_In, filter_In. done. Qed.

Lemma collect_row_Some l : forall k v, collect_row l !! k = Some v -> (k, v) ∈ l.
Proof.
  unfold collect_row. induction l as [|[k' v'] l IH] using rev_ind; intros k v; [cbn; by rewrite lookup_empty|].
  rewrite fold_left_app. cbn [fold_left fst snd]. intros [[<- <-]|[_ H%IH]]%lookup_insert_Some; set_solver.
Qed.

Section exact.
Context {J : JsonText}.

(** What [query.services] answers: units of systemd's list, in the order of their
    names, with the states it gives; only failed ones when those were asked for; a unit's
    enablement only from a unit file of the same name; within the limit, and unless it
    says it is cut, every unit of the list that has a name and its states. *)
Theorem units_are_as_listed (units files v : Value) (failed_only : bool) : answer units files failed_only = Ok v ->
  exists rows kept short, reply_rows units = Some rows /\
    v = json_object [("units"%string, VArray (map unit_value kept)); ("truncated"%string, VBool short)] /\
    StronglySorted (in_order unit_name) kept /\ zlength kept <= MAX_UNITS /\
    Forall (fun u => (exists row, row ∈ rows /\ unit_of (enabled_of files) row = Some u) /\ (failed_only = true -> active_state u = lit "failed") /\
                     (forall e, enabled_state u = Some e -> exists r path name state, r ∈ or_none (reply_rows files) /\ as_str (at_index r 0) = Some path /\
                        after_slash path = Some name /\ as_str (at_index r 1) = Some state /\ unit_name u = clip name 256 /\ e = clip state 32)) kept /\
    (short = false -> forall row u, row ∈ rows -> unit_of (enabled_of files) row = Some u -> keep_unit failed_only u = true -> u ∈ kept).
Proof.
  unfold answer. destruct (reply_rows units) as [rows|]; [|done]. intros Hv. assert (v = units_answer (omap (unit_of (enabled_of files)) rows) failed_only) as -> by congruence.
  clear Hv. unfold units_answer, units_parts. set (sorted := sort_by_key unit_name _). pose proof (cut_spec unit_value MAX_UNITS sorted ltac:(unfold MAX_UNITS; lia)) as Hc.
  destruct (cut unit_value MAX_UNITS sorted) as [kept short]. cbn [fst snd] in Hc. exists rows, kept, short. split; [done|]. split; [done|].
  assert (forall u, u ∈ sorted <-> (exists row, row ∈ rows /\ unit_of (enabled_of files) row = Some u) /\ keep_unit failed_only u = true) as Hin.
  { intros u. unfold sorted. rewrite elem_of_sorted_filter, list_elem_of_omap. done. }
  pose proof Hc as ((k & Ek) & Hlen & _ & Hall). split; [rewrite Ek; apply sorted_take, sort_by_key_sorted|]. split; [done|]. split.
  - apply list.Forall_forall. intros u Hu. eapply cut_elem in Hu; [|exact Hc]. apply Hin in Hu as [(row & Hrow & Eu) Hk]. split; [eauto|]. split.
    + intros ->. unfold keep_unit in Hk. cbn in Hk. by apply bool_decide_eq_true in Hk.
    + intros e He. unfold unit_of in Eu.
      destruct (as_str (at_index row 0)) as [name|]; [|done]. destruct (as_str (at_index row 2)) as [l|]; [|done]. destruct (as_str (at_index row 3)) as [a|]; [|done].
      destruct (as_str (at_index row 4)) as [b|]; [|done]. cbn [mbind option_bind] in Eu. injection Eu as <-. cbn [enabled_state unit_name] in *. unfold clipped in He.
      match type of He with option_map _ ?x = _ => destruct x as [st|] eqn:En; [|done] end. injection He as <-. unfold enabled_of in En. apply collect_row_Some in En.
      apply list_elem_of_omap in En as (r & Hr & Er). unfold enabled_row in Er. destruct (as_str (at_index r 0)) as [path|] eqn:E0; [|done]. cbn in Er.
      destruct (after_slash path) as [nm|] eqn:E1; [|done]. cbn in Er. destruct (as_str (at_index r 1)) as [st'|] eqn:E2; [|done]. injection Er as -> ->.
      by exists r, path, name, st.
  - intros -> row u Hrow Eu Hk. rewrite Hall by done. apply Hin. eauto.
Qed.
End exact.

Definition demo_units : Value :=
  json_object [("data"%string, VArray [VArray [VArray (map (fun t => VString (lit t)) ["sshd.service"; "OpenSSH"; "loaded"; "active"; "running"]%string)]])].
Definition demo_files : Value :=
  json_object [("data"%string, VArray [VArray [VArray (map (fun t => VString (lit t)) ["/lib/systemd/sshd.service"; "enabled"]%string)]])].

Lemma units_are_as_listed_witness : exists v, answer (J := tiny_json_text) demo_units demo_files false = Ok v /\
  exists kept, v = json_object [("units"%string, VArray (map unit_value kept)); ("truncated"%string, VBool false)] /\
    map enabled_state kept = [Some (lit "enabled")].
Proof.
  destruct (answer (J := tiny_json_text) demo_units demo_files false) as [v|e] eqn:E; [|vm_compute in E; discriminate E].
  exists v. split; [reflexivity|].
  destruct (units_are_as_listed (J := tiny_json_text) demo_units demo_files v false E) as (rows & kept & short & Hr & Hv & _ & _ & _ & Hall).
  exists kept. vm_compute in E. injection E as E. pose proof Hv as Hv0. rewrite <- E in Hv0.
  destruct short; [discriminate Hv0|]. split; [exact Hv|].
  assert (exists u, kept = [u]) as [u ->].
  { injection Hv0 as Hv1. destruct kept as [|u [|]]; [discriminate Hv1|by exists u|discriminate Hv1]. }
  injection Hr as <-. specialize (Hall eq_refl _ _ (list_elem_of_here _ _) eq_refl eq_refl).
  apply list_elem_of_singleton in Hall. rewrite <- Hall. vm_compute. reflexivity.
Defined.
