(* ===== verification/Packages.v ===== *)
(** * jobs/queries/packages.rs: installed packages

    dpkg, apk and pacman databases are read from files, RPM's through [rpm] with a fixed
    format.  The files are an argument ([PackageFiles]); [lower] is [str::to_lowercase]. *)

From Stdlib Require Import String Sorted.
From S2P Require Import Prelude Text BTree JsonValue Command Jobs Osquery Queries Answers Sockets.

Definition MAX_PACKAGES : Z := 4096.
Definition MAX_DATABASE_BYTES : Z := 64 * 1024 * 1024.
Definition RPM_TIMEOUT : Z := from_secs 45.
Definition RPM_QUERY : list bytes := [lit "-qa"; lit "--qf"; lit "%{NAME}" ++ [9] ++ lit "%{EVR}" ++ [9] ++ lit "%{ARCH}" ++ [10]].
Definition OSQUERY_DEB_SQL : bytes := lit "SELECT name, version, arch FROM deb_packages WHERE status LIKE '% installed'".
Definition OSQUERY_RPM_SQL : bytes := lit "SELECT name, version, release, epoch, arch FROM rpm_packages".

Record Package := mkPackage { pkg_name : bytes; version : bytes; architecture : option bytes; manager : bytes }.

#[export] Instance Package_eq_dec : EqDecision Package.
Proof. solve_decision. Defined.

Definition package_value (p : Package) : Value :=
  json_object [("name"%string, VString (pkg_name p)); ("version"%string, VString (version p)); ("architecture"%string, text_or_null (architecture p));
               ("manager"%string, VString (manager p))].

Definition package (name version : bytes) (arch : option bytes) (manager : string) : Package :=
  mkPackage (clip name 256) (clip version 256) (let+ a := arch in if bool_decide (a = []) then None else Some (clip a 32)) (lit manager).

(** ** The databases *)

(** [str::split] at a string that is not empty; each piece takes a byte, so the text's
    length is fuel enough. *)
Fixpoint split_str_fuel (fuel : nat) (sep s : bytes) : list bytes :=
  match fuel with
  | O => [s]
  | S fuel' => match split_once_str sep s with Some (a, b) => a :: split_str_fuel fuel' sep b | None => [s] end
  end.
Definition split_str (sep s : bytes) : list bytes := split_str_fuel (length s) sep s.

Fixpoint first_of_lines {A} (f : bytes -> option A) (ls : list bytes) : option A :=
  match ls with [] => None | l :: ls' => match f l with Some a => Some a | None => first_of_lines f ls' end end.

Definition dpkg_field (stanza : bytes) (key : string) : option bytes :=
  option_map trim (first_of_lines (fun line => let+ rest := strip_prefix (lit key) line in strip_prefix (lit ":") rest) (lines stanza)).
Definition dpkg_stanza (stanza : bytes) : option Package :=
  let+ status := dpkg_field stanza "Status" in
  if ends_with (lit " installed") status then
    let+ name := dpkg_field stanza "Package" in
    let+ v := dpkg_field stanza "Version" in
    Some (package name v (dpkg_field stanza "Architecture") "dpkg")
  else None.
Definition parse_dpkg (text : bytes) : list Package := omap dpkg_stanza (split_str [10; 10] text).

Definition apk_field (stanza : bytes) (key : string) : option bytes := first_of_lines (strip_prefix (lit key)) (lines stanza).
Definition apk_stanza (stanza : bytes) : option Package :=
  let+ name := apk_field stanza "P:" in
  let+ v := apk_field stanza "V:" in
  Some (package name v (apk_field stanza "A:") "apk").
Definition parse_apk (text : bytes) : list Package := omap apk_stanza (split_str [10; 10] text).

(** The line after the one that is [key]. *)
Fixpoint line_after (key : bytes) (ls : list bytes) : option bytes :=
  match ls with [] => None | l :: ls' => if str_eqb l key then option_map trim (head ls') else line_after key ls' end.
Definition parse_pacman_desc (text : bytes) : option Package :=
  let+ name := line_after (lit "%NAME%") (lines text) in
  let+ v := line_after (lit "%VERSION%") (lines text) in
  Some (package name v (line_after (lit "%ARCH%") (lines text)) "pacman").

Definition rpm_line (line : bytes) : option Package :=
  match split_on 9 line with
  | name :: v :: rest => Some (package name v (let+ a := head rest in if str_eqb a (lit "(none)") then None else Some a) "rpm")
  | _ => None
  end.
Definition parse_rpm (text : bytes) : list Package := omap rpm_line (lines text).

(** ** Reading them *)

(** A file that can be opened, with what reading it to the end gives; directories; and the
    entries of pacman's. *)
Record PackageFiles := mkPackageFiles {
  open_file : bytes -> option (result bytes unit);
  is_dir : bytes -> bool;
  entries_in : bytes -> list bytes }.

Definition read_bounded (fs : PackageFiles) (path : bytes) : result (option bytes) JobFailure :=
  match open_file fs path with
  | None => Ok None
  | Some (Err _) => Err (failed (lit "could not read the package database"))
  | Some (Ok all) =>
      let bytes := take (Z.to_nat (MAX_DATABASE_BYTES + 1)) all in
      if MAX_DATABASE_BYTES <? zlength bytes then Err (failed (lit "the package database is too large to read")) else Ok (Some (from_utf8_lossy bytes))
  end.

Definition DPKG : bytes := lit "/var/lib/dpkg/status".
Definition APK : bytes := lit "/lib/apk/db/installed".
Definition PACMAN : bytes := lit "/var/lib/pacman/local".
Definition RPM_DIRS : list bytes := [lit "/var/lib/rpm"; lit "/usr/lib/sysimage/rpm"].

Section read.
Context {P : Programs}.
Variable fs : PackageFiles.

Definition rpm : ST (programs * list act) (option JobFailure) (list Package) :=
  let* output := run_program (lit "rpm" :: RPM_QUERY) RPM_TIMEOUT "the RPM packages" in
  if negb (success output) then fail (failed (lit "could not query the RPM database")) else st_ret (parse_rpm (from_utf8_lossy (stdout output))).

Definition desc_of (entry : bytes) : bytes := PACMAN ++ lit "/" ++ entry ++ lit "/desc".
Fixpoint pacman_loop (entries : list bytes) (found : list Package) : ST (programs * list act) (option JobFailure) (list Package) :=
  match entries with
  | [] => st_ret found
  | e :: entries' =>
      let* stop := cancelled in
      if (stop : bool) then fail Cancelled
      else
        let* text := reported (read_bounded fs (desc_of e)) in
        pacman_loop entries' (found ++ match text with Some t => match parse_pacman_desc t with Some p => [p] | None => [] end | None => [] end)
  end.

Definition parsed (parse : bytes -> list Package) (text : option bytes) : list Package := match text with Some t => parse t | None => [] end.
Definition is_some {A} (o : option A) : bool := match o with Some _ => true | None => false end.

Definition read_packages : ST (programs * list act) (option JobFailure) (list Package) :=
  let* dpkg := reported (read_bounded fs DPKG) in
  let* apk := reported (read_bounded fs APK) in
  let* pacman := (if is_dir fs PACMAN then pacman_loop (entries_in fs PACMAN) [] else st_ret []) in
  let* from_rpm := (if existsb (is_dir fs) RPM_DIRS then rpm else st_ret []) in
  let* stop := cancelled in
  if (stop : bool) then fail Cancelled
  else if negb (is_some dpkg || is_some apk || is_dir fs PACMAN || existsb (is_dir fs) RPM_DIRS)
  then fail (failed (lit "no supported package database (dpkg, rpm, apk, pacman)"))
  else st_ret (parsed parse_dpkg dpkg ++ parsed parse_apk apk ++ pacman ++ from_rpm).
End read.

(** ** The answer *)

Definition package_key (p : Package) : bytes * (bytes * (option bytes * bytes)) := (pkg_name p, (version p, (architecture p, manager p))).

Section answer.
Context {J : JsonText}.
Variable lower : bytes -> bytes.

Definition needle_of (name : option bytes) : option bytes := let+ n := option_map lower name in if bool_decide (n = []) then None else Some n.
Definition matches (needle : option bytes) (p : Package) : bool := match needle with None => true | Some n => contains_sub n (lower (pkg_name p)) end.
Definition packages_parts (packages : list Package) (name : option bytes) : list Package * bool :=
  cut package_value MAX_PACKAGES (dedup (sort_by_key package_key (List.filter (matches (needle_of name)) packages))).
Definition answer (packages : list Package) (name : option bytes) : Value :=
  let '(kept, short) := packages_parts packages name in
  json_object [("packages"%string, VArray (map package_value kept)); ("truncated"%string, VBool short)].

Definition rpm_package (row : Row) : option Package :=
  let text c := osquery_text row (lit c) in
  let+ v := text "version"%string in
  let evr := match text "epoch"%string, text "release"%string with
             | Some epoch, Some release => epoch ++ lit ":" ++ v ++ lit "-" ++ release
             | _, Some release => v ++ lit "-" ++ release
             | _, None => v
             end in
  let+ name := text "name"%string in
  Some (package name evr (text "arch"%string) "rpm").
Definition deb_package (row : Row) : option Package :=
  let text c := osquery_text row (lit c) in
  let+ name := text "name"%string in
  let+ v := text "version"%string in
  Some (package name v (text "arch"%string) "dpkg").

Variable from_value : Value -> result (option bytes) bytes.
Definition name_of (raw : Value) : result (option bytes) JobFailure :=
  let? name := parameters None from_value raw in
  match name with
  | Some n => if 128 <? chars_count n then Err (failed (lit "invalid parameters: name must be at most 128 characters")) else Ok name
  | None => Ok None
  end.

Definition answer_with_osquery {Q : OsqueryApi} (raw : Value) : Run client (result (option Value) JobFailure) := fun c =>
  match name_of raw with
  | Err e => (c, Err e)
  | Ok name =>
      let '(c, deb) := api_query OSQUERY_DEB_SQL c in
      match deb with
      | Err _ => (c, Ok None)
      | Ok deb =>
          let '(c, rpm) := api_query OSQUERY_RPM_SQL c in
          (c, Ok (match rpm with
                  | Err _ => None
                  | Ok rpm => match omap deb_package deb ++ omap rpm_package rpm with [] => None | ps => Some (answer ps name) end
                  end))
      end
  end.

Definition native_answer {P : Programs} (fs : PackageFiles) (raw : Value) : ST (programs * list act) (option JobFailure) Value :=
  let* name := reported (name_of raw) in
  let* packages := read_packages fs in
  st_ret (answer packages name).
End answer.

(** ** What is answered *)

Section exact.
Context {J : JsonText}.
Variable lower : bytes -> bytes.

Lemma package_key_inj p q : package_key p = package_key q -> p = q.
Proof. destruct p, q. by intros [= -> -> -> ->]. Qed.

(** The list of an answer: every package asked for once, in order, within the limit. *)
Lemma packages_parts_spec packages name kept short : packages_parts lower packages name = (kept, short) ->
  StronglySorted (in_order package_key) kept /\ NoDup kept /\ zlength kept <= MAX_PACKAGES /\
  Forall (fun p => p ∈ packages /\ matches lower (needle_of lower name) p = true) kept /\
  (short = false -> forall p, p ∈ packages -> matches lower (needle_of lower name) p = true -> p ∈ kept).
Proof.
  unfold packages_parts. set (sorted := dedup _). intros E. pose proof (cut_spec package_value MAX_PACKAGES sorted ltac:(unfold MAX_PACKAGES; lia)) as Hc.
  rewrite E in Hc. cbn [fst snd] in Hc. pose proof Hc as ((k & Ek) & Hlen & _ & Hall).
  assert (forall p, p ∈ sorted <-> p ∈ packages /\ matches lower (needle_of lower name) p = true) as Hin.
  { intros p. unfold sorted. by rewrite elem_of_dedup, sort_by_key_perm, list_elem_of_In, filter_In, <- list_elem_of_In. }
  split; [rewrite Ek; apply sorted_take, dedup_sorted, sort_by_key_sorted|]. split.
  { rewrite Ek. eapply sublist_NoDup; [|apply sublist_take]. apply (dedup_nodup package_key); [apply package_key_inj|apply sort_by_key_sorted]. }
  split; [done|]. split.
  - apply list.Forall_forall. intros p Hp. eapply cut_elem in Hp; [|exact Hc]. by apply Hin.
  - intros -> p H1 H2. rewrite Hall by done. by apply Hin.
Qed.
End exact.

Section complete.
Context {P : Programs} {J : JsonText}.
Variable lower : bytes -> bytes.
Variable from_value : Value -> result (option bytes) bytes.
Variable fs : PackageFiles.

(** [ps] has what [parse] reads in the whole file at [path], if there is one. *)
Definition includes (parse : bytes -> list Package) (path : bytes) (ps : list Package) : Prop :=
  match open_file fs path with
  | None => True
  | Some (Err _) => False
  | Some (Ok all) => zlength all <= MAX_DATABASE_BYTES /\ parse (from_utf8_lossy all) ⊆ ps
  end.

Lemma read_bounded_includes parse path text : read_bounded fs path = Ok text -> includes parse path (parsed parse text).
Proof.
  unfold read_bounded, includes. destruct (open_file fs path) as [[all|e]|]; [|done|done]. destruct (Z.ltb_spec MAX_DATABASE_BYTES (zlength (take (Z.to_nat (MAX_DATABASE_BYTES + 1)) all))) as [|H]; [done|].
  intros [= <-]. assert (zlength all <= MAX_DATABASE_BYTES) as Hl.
  { unfold zlength in *. rewrite length_take in H. unfold MAX_DATABASE_BYTES in *. lia. }
  split; [done|]. cbn [parsed]. rewrite take_ge; [done|]. unfold zlength in Hl. lia.
Qed.

Lemma includes_mono parse path ps qs : ps ⊆ qs -> includes parse path ps -> includes parse path qs.
Proof. unfold includes. destruct (open_file fs path) as [[all|e]|]; [|done|done]. intros H [H1 H2]. split; [done|]. by etrans. Qed.

Definition pacman_one (text : bytes) : list Package := match parse_pacman_desc text with Some p => [p] | None => [] end.

Lemma pacman_loop_includes es : forall found s s' ps, pacman_loop fs es found s = (s', Ok ps) ->
  found ⊆ ps /\ Forall (fun e => includes pacman_one (desc_of e) ps) es.
Proof.
  induction es as [|e es IH]; intros found s s' ps; cbn [pacman_loop]; [intros [= <- <-]; split; [done|constructor]|].
  unfold st_bind, cancelled, outside, fail, st_err, reported, st_of_result. cbn [fst snd]. destruct (stopping (fst s)) as [w [|]]; [done|].
  destruct (read_bounded fs (desc_of e)) as [text|er] eqn:E; [|done]. cbn [map_err]. intros [H1 H2]%IH. split; [set_solver|]. constructor; [|done].
  apply (read_bounded_includes pacman_one) in E. eapply includes_mono; [|exact E]. destruct text as [t|]; [|set_solver]. unfold parsed, pacman_one. set_solver.
Qed.

(** [query.packages] never answers from part of a database: when it answers natively,
    every dpkg, apk and pacman database that can be opened was read to its end, within the
    limit, and every package in them that was asked for is in the answer, once, in order,
    unless the answer says it is cut; an unreadable or too large one fails the query. *)
Theorem packages_from_whole_databases (raw v : Value) (s s' : programs * list act) : native_answer lower from_value fs raw s = (s', Ok v) ->
  exists name packages kept short, name_of from_value raw = Ok name /\
    v = json_object [("packages"%string, VArray (map package_value kept)); ("truncated"%string, VBool short)] /\
    includes parse_dpkg DPKG packages /\ includes parse_apk APK packages /\
    (is_dir fs PACMAN = true -> Forall (fun e => includes pacman_one (desc_of e) packages) (entries_in fs PACMAN)) /\
    StronglySorted (in_order package_key) kept /\ NoDup kept /\ zlength kept <= MAX_PACKAGES /\
    Forall (fun p => p ∈ packages /\ matches lower (needle_of lower name) p = true) kept /\
    (short = false -> forall p, p ∈ packages -> matches lower (needle_of lower name) p = true -> p ∈ kept).
Proof.
  unfold native_answer. destruct (name_of from_value raw) as [name|]; [|done]. intros H. apply st_bind_inv in H as (s1 & n & [= <- <-] & H).
  apply st_bind_inv in H as (s2 & packages & Hr & H). assert (v = answer lower packages name) as -> by (unfold st_ret in H; congruence). clear H.
  unfold answer. destruct (packages_parts lower packages name) as [kept short] eqn:Ep. apply packages_parts_spec in Ep. exists name, packages, kept, short.
  split; [done|]. split; [done|]. enough (includes parse_dpkg DPKG packages /\ includes parse_apk APK packages /\
    (is_dir fs PACMAN = true -> Forall (fun e => includes pacman_one (desc_of e) packages) (entries_in fs PACMAN))) as (? & ? & ?) by done. clear Ep.
  unfold read_packages in Hr. apply st_bind_inv in Hr as (t1 & dpkg & E1 & Hr). apply st_bind_inv in Hr as (t2 & apk & E2 & Hr).
  apply st_bind_inv in Hr as (t3 & pacman & E3 & Hr). apply st_bind_inv in Hr as (t4 & frpm & E4 & Hr). apply st_bind_inv in Hr as (t5 & stop & E5 & Hr).
  unfold reported, st_of_result in E1, E2. destruct (read_bounded fs DPKG) as [d|] eqn:Ed; [|done]. destruct (read_bounded fs APK) as [a|] eqn:Ea; [|done].
  injection E1 as <- <-. injection E2 as <- <-. destruct stop; [done|]. destruct (negb _); [done|]. injection Hr as _ <-.
  split; [eapply includes_mono; [|by eapply read_bounded_includes]; set_solver|]. split; [eapply includes_mono; [|by eapply read_bounded_includes]; set_solver|].
  intros Hd. rewrite Hd in E3. apply pacman_loop_includes in E3 as [_ E3]. eapply List.Forall_impl; [|exact E3]. intros e. apply includes_mono. set_solver.
Qed.
End complete.

(** ** What [rpm] prints is read back *)

(** A line of the format the agent asks [rpm] for. *)
Definition print_rpm (p : bytes * bytes * bytes) : bytes := let '(name, evr, arch) := p in name ++ [9] ++ evr ++ [9] ++ arch ++ [10].
Definition read_rpm (p : bytes * bytes * bytes) : Package :=
  let '(name, evr, arch) := p in package name evr (if str_eqb arch (lit "(none)") then None else Some arch) "rpm".
(** No tab or line end in a field. *)
Definition rpm_text (s : bytes) : Prop := (9 ∉ s) /\ (10 ∉ s) /\ (13 ∉ s).

Lemma split_on_clean c p q : c ∉ p -> split_on c (p ++ c :: q) = p :: split_on c q.
Proof.
  induction p as [|b p IH]; intros H; cbn [app split_on]; [by rewrite Z.eqb_refl|]. apply not_elem_of_cons in H as [Hb H].
  destruct (Z.eqb_spec b c) as [->|]; [done|]. by rewrite IH.
Qed.
Lemma split_on_none c p : c ∉ p -> split_on c p = [p].
Proof.
  induction p as [|b p IH]; intros H; cbn [split_on]; [done|]. apply not_elem_of_cons in H as [Hb H].
  destruct (Z.eqb_spec b c) as [->|]; [done|]. by rewrite IH.
Qed.

Lemma split_on_rpm_lines ls : Forall (fun l => 10 ∉ l) ls -> split_on 10 (concat (map (fun l => l ++ [10]) ls)) = ls ++ [[]].
Proof.
  induction 1 as [|l ls Hl _ IH]; [done|]. cbn [map concat]. rewrite <- app_assoc. cbn [app]. by rewrite split_on_clean, IH.
Qed.

Lemma strip_cr_clean l : (13 ∉ l) -> strip_cr l = l.
Proof.
  intros H. unfold strip_cr, strip_suffix. destruct (rev l) as [|b r] eqn:E.
  - cbn. done.
  - cbn [rev app strip_prefix]. destruct (Z.eqb_spec 13 b) as [<-|]; [|done]. exfalso. apply H. apply (f_equal (@rev Z)) in E. rewrite rev_involutive in E. rewrite E. cbn. set_solver.
Qed.

Lemma lines_of_lines ls : Forall (fun l => (10 ∉ l) /\ (13 ∉ l)) ls -> lines (concat (map (fun l => l ++ [10]) ls)) = ls.
Proof.
  intros H. unfold lines. rewrite split_on_rpm_lines by (eapply List.Forall_impl; [|exact H]; by intros ? []). rewrite last_opt_snoc, removelast_last.
  induction H as [|l ls [_ Hl] _ IH]; [done|]. cbn [map]. by rewrite IH, strip_cr_clean.
Qed.

(** What [rpm] prints in the format the agent gives it is read back: one package a
    line, in order, with its name, its version with epoch and release, and its
    architecture unless it has none. *)
Theorem rpm_round_trip (ps : list (bytes * bytes * bytes)) :
  Forall (fun p => rpm_text (fst (fst p)) /\ rpm_text (snd (fst p)) /\ rpm_text (snd p)) ps -> parse_rpm (concat (map print_rpm ps)) = map read_rpm ps.
Proof.
  intros H. unfold parse_rpm.
  replace (map print_rpm ps) with (map (fun l => l ++ [10]) (map (fun p : bytes * bytes * bytes => fst (fst p) ++ 9 :: snd (fst p) ++ 9 :: snd p) ps)).
  2: { rewrite map_map. apply map_ext. intros [[n e] a]. cbn [fst snd print_rpm]. rewrite <- app_assoc. cbn [app]. f_equal. f_equal. by rewrite <- app_assoc. }
  rewrite lines_of_lines.
  - induction H as [|[[n e] a] ps (Hn & He & Ha) _ IH]; [done|]. cbn [map omap list_omap fst snd] in *. unfold rpm_line at 1.
    rewrite split_on_clean, split_on_clean, split_on_none by (unfold rpm_text in *; tauto). cbn [head]. change (omap rpm_line) with (list_omap _ _ rpm_line).
    cbn [read_rpm]. rewrite <- IH. cbn. by destruct (str_eqb a _).
  - apply List.Forall_map. eapply List.Forall_impl; [|exact H]. intros [[n e] a] ((? & ? & ?) & (? & ? & ?) & (? & ? & ?)). cbn in *. split; set_solver.
Qed.

Lemma rpm_round_trip_witness :
  Forall (fun p => rpm_text (fst (fst p)) /\ rpm_text (snd (fst p)) /\ rpm_text (snd p)) [(lit "bash", lit "5.2-1", lit "x86_64"); (lit "gpg-pubkey", lit "1-2", lit "(none)")] /\
  parse_rpm (lit "bash" ++ [9] ++ lit "5.2-1" ++ [9] ++ lit "x86_64" ++ [10] ++ lit "gpg-pubkey" ++ [9] ++ lit "1-2" ++ [9] ++ lit "(none)" ++ [10]) =
  [mkPackage (lit "bash") (lit "5.2-1") (Some (lit "x86_64")) (lit "rpm"); mkPackage (lit "gpg-pubkey") (lit "1-2") None (lit "rpm")].
Proof.
  assert (Forall (fun p => rpm_text (fst (fst p)) /\ rpm_text (snd (fst p)) /\ rpm_text (snd p)) [(lit "bash", lit "5.2-1", lit "x86_64"); (lit "gpg-pubkey", lit "1-2", lit "(none)")]) as H.
  { apply (bool_decide_unpack _). vm_compute. exact I. }
  split; [exact H|]. exact (rpm_round_trip _ H).
Defined.

Definition demo_files : PackageFiles := mkPackageFiles (fun p => if str_eqb p DPKG then Some (Ok (lit "Package: a" ++ [10] ++ lit "Status: install ok installed" ++ [10] ++ lit "Version: 1" ++ [10])) else None) (fun _ => false) (fun _ => []).

Lemma packages_from_whole_databases_witness : exists s v,
  native_answer (P := demo_machine) (J := tiny_json_text) id (fun _ => Ok None) demo_files VNull (0, []) = (s, Ok v) /\
  exists packages, includes demo_files parse_dpkg DPKG packages.
Proof.
  destruct (native_answer (P := demo_machine) (J := tiny_json_text) id (fun _ => Ok None) demo_files VNull (0, [])) as [s [v|e]] eqn:E;
    [|vm_compute in E; discriminate E].
  exists s, v. split; [reflexivity|].
  destruct (packages_from_whole_databases (P := demo_machine) (J := tiny_json_text) id (fun _ => Ok None) demo_files VNull v (0, []) s E) as (name & ps & kept & short & _ & _ & H & _).
  exists ps. exact H.
Defined.
