(* ===== verification/DiskUsage.v ===== *)
(** * jobs/queries/disk_usage.rs: mounted filesystems

    A [statvfs] that blocks for good is left behind on its own thread.  The set [STALLED]
    that all queries share is modelled with its threads as a step relation ([probe_step]),
    and waiting for one probe as a loop over an arbitrary outside ([Probes]). *)

From Stdlib Require Import String Sorted.
From S2P Require Import Prelude Text BTree JsonValue Command Jobs Osquery Queries Answers Sockets.

Definition MAX_FILESYSTEMS : Z := 512.
Definition STATVFS_WAIT : Z := from_secs 5.
Definition POLL : Z := from_millis 50.
Definition OSQUERY_MOUNTS_SQL : bytes :=
  lit "SELECT path, device, type, blocks_size, blocks, blocks_free, blocks_available, inodes, inodes_free FROM mounts".
Definition VIRTUAL_TYPES : list bytes := map lit
  ["autofs"; "binfmt_misc"; "bpf"; "cgroup"; "cgroup2"; "configfs"; "debugfs"; "devpts"; "devtmpfs"; "efivarfs"; "fusectl"; "hugetlbfs"; "mqueue"; "nsfs";
   "proc"; "pstore"; "ramfs"; "rpc_pipefs"; "securityfs"; "selinuxfs"; "squashfs"; "sysfs"; "tracefs"; "tmpfs"]%string.
Definition is_virtual (fs_type : bytes) : bool := existsb (str_eqb fs_type) VIRTUAL_TYPES.

Record Filesystem := mkFilesystem {
  mount_point : bytes; device : bytes; fs_type : bytes; size_bytes : Z; used_bytes : Z; available_bytes : Z; inodes_total : option Z; inodes_used : option Z }.

(** [u64]s. *)
Record Usage := mkUsage { fragment_size : Z; blocks : Z; free : Z; available : Z; files : Z; files_free : Z }.

Definition filesystem_value (f : Filesystem) : Value :=
  json_object [("mount_point"%string, VString (mount_point f)); ("device"%string, VString (device f)); ("fs_type"%string, VString (fs_type f));
               ("size_bytes"%string, number (size_bytes f)); ("used_bytes"%string, number (used_bytes f)); ("available_bytes"%string, number (available_bytes f));
               ("inodes_total"%string, or_json number (inodes_total f)); ("inodes_used"%string, or_json number (inodes_used f))].

Definition saturating_mul (a b : Z) : Z := Z.min U64_MAX (a * b).
Definition saturating_sub (a b : Z) : Z := Z.max 0 (a - b).

Definition filesystem (mount_point device fs_type : bytes) (u : Usage) : Filesystem :=
  let bytes count := saturating_mul count (fragment_size u) in
  let inodes := if files u =? 0 then (None, None) else (Some (files u), Some (saturating_sub (files u) (files_free u))) in
  mkFilesystem (clip mount_point 512) (clip device 256) (clip fs_type 32) (bytes (blocks u)) (bytes (saturating_sub (blocks u) (free u))) (bytes (available u))
    (fst inodes) (snd inodes).

(** ** The answer *)

(** The loop before [list.push]: virtual and empty filesystems and repeated mount points
    are passed over. *)
Fixpoint storage (seen : gset bytes) (l : list Filesystem) : list Filesystem :=
  match l with
  | [] => []
  | f :: l' =>
      if is_virtual (fs_type f) || (size_bytes f =? 0) then storage seen l'
      else if bool_decide (mount_point f ∈ seen) then storage seen l'
      else f :: storage ({[mount_point f]} ∪ seen) l'
  end.

Section answer.
Context {J : JsonText}.
Definition answer (filesystems : list Filesystem) (stalled : bool) : Value :=
  let '(kept, short) := cut filesystem_value MAX_FILESYSTEMS (storage ∅ filesystems) in
  json_object [("filesystems"%string, VArray (map filesystem_value kept)); ("truncated"%string, VBool (short || stalled))].

Definition filesystem_from_osquery (row : Row) : option Filesystem :=
  let n c := match osquery_u64 row (lit c) with Some v => v | None => 0 end in
  let u := mkUsage (n "blocks_size"%string) (n "blocks"%string) (n "blocks_free"%string) (n "blocks_available"%string) (n "inodes"%string) (n "inodes_free"%string) in
  let+ path := osquery_text row (lit "path") in
  let device := match osquery_text row (lit "device") with Some d => d | None => [] end in
  let+ kind := osquery_text row (lit "type") in
  Some (filesystem path device kind u).

Variable from_value : Value -> result unit bytes.
Definition answer_with_osquery {Q : OsqueryApi} (raw : Value) : Run client (result (option Value) JobFailure) := fun c =>
  match parameters tt from_value raw with
  | Err e => (c, Err e)
  | Ok _ =>
      let '(c, rows) := api_query OSQUERY_MOUNTS_SQL c in
      (c, Ok (match rows with Ok rows => Some (answer (omap filesystem_from_osquery rows) false) | Err _ => None end))
  end.
End answer.

(** ** Waiting for one probe *)

Inductive Probe T := Done (v : T) | Stalled.
Arguments Done {T} v. Arguments Stalled {T}.
Inductive Received T := Got (v : T) | Timeout | Disconnected.
Arguments Got {T} v. Arguments Timeout {T}. Arguments Disconnected {T}.

Class Probes {P : Programs} := {
  insert_stalled : bytes -> Run programs bool;                       (* [STALLED.lock().insert(key)] *)
  start_probe : bytes -> Run programs unit;                          (* the thread and its channel *)
  recv_timeout : Z -> Run programs (Received (option Usage)) }.

Section probes.
Context {P : Programs} {B : Probes}.

Fixpoint receive (fuel : nat) (deadline : Z) : ST (programs * list act) (option JobFailure) (Probe (option Usage)) :=
  match fuel with
  | O => st_err None
  | S fuel' =>
      let* stop := cancelled in
      if (stop : bool) then fail Cancelled
      else
        let* now := outside instant in
        let left := since deadline now in
        if left =? 0 then st_ret Stalled
        else
          let* r := outside (recv_timeout (Z.min POLL left)) in
          match r with
          | Got v => st_ret (Done v)
          | Timeout => receive fuel' deadline
          | Disconnected => st_ret Stalled
          end
  end.

(** Turns that are enough when waiting lasts as long as asked. *)
Definition waits (wait : Z) : nat := S (S (Z.to_nat (wait / POLL))).

Definition bounded (key : bytes) (wait : Z) : ST (programs * list act) (option JobFailure) (Probe (option Usage)) :=
  let* fresh := outside (insert_stalled key) in
  if negb (fresh : bool) then st_ret Stalled
  else
    let* _ := outside (start_probe key) in
    let* now := outside instant in
    receive (waits wait) (now + wait).

(** A mount as PID 1's table lists it. *)
Record Mount := mkMount { mountpoint : bytes; m_device : option bytes; filesystem_type : bytes }.
(** [CString::new] refuses a NUL. *)
Definition probeable (m : Mount) : bool := negb (is_virtual (filesystem_type m)) && negb (existsb (Z.eqb 0) (mountpoint m)).
Definition mounted (m : Mount) (u : Usage) : Filesystem :=
  filesystem (mountpoint m) (match m_device m with Some d => d | None => [] end) (filesystem_type m) u.

Fixpoint mounts_loop (mounts : list Mount) (fss : list Filesystem) (stalled : bool) : ST (programs * list act) (option JobFailure) (list Filesystem * bool) :=
  match mounts with
  | [] => st_ret (fss, stalled)
  | m :: mounts' =>
      let* stop := cancelled in
      if (stop : bool) then fail Cancelled
      else if negb (probeable m) then mounts_loop mounts' fss stalled
      else
        let* probe := bounded (mountpoint m) STATVFS_WAIT in
        match probe with
        | Done (Some u) => mounts_loop mounts' (fss ++ [mounted m u]) stalled
        | Done None => mounts_loop mounts' fss stalled
        | Stalled => mounts_loop mounts' fss true
        end
  end.
Definition read_filesystems (mounts : option (list Mount)) : ST (programs * list act) (option JobFailure) (list Filesystem * bool) :=
  match mounts with
  | None => fail (failed (lit "could not read the mount table"))
  | Some ms => mounts_loop ms [] false
  end.

Definition native_answer {J : JsonText} (from_value : Value -> result unit bytes) (mounts : option (list Mount)) (raw : Value)
  : ST (programs * list act) (option JobFailure) Value :=
  let* _ := reported (parameters tt from_value raw) in
  let* r := read_filesystems mounts in
  st_ret (answer (fst r) (snd r)).
End probes.

(** ** A mount that does not answer holds one thread *)

(** [STALLED], and the threads that probe with whether they sent their answer. *)
Record shared := mkShared { sh_stalled : gset bytes; sh_threads : list (bytes * bool) }.

(** What any number of concurrent calls of [bounded] and their threads do to it. *)
Inductive probe_step : shared -> shared -> Prop :=
| step_begin key st th : key ∉ st -> probe_step (mkShared st th) (mkShared ({[key]} ∪ st) (th ++ [(key, false)]))
| step_refuse key st th : key ∈ st -> probe_step (mkShared st th) (mkShared st th)
| step_send key st th1 th2 : probe_step (mkShared st (th1 ++ (key, false) :: th2)) (mkShared st (th1 ++ (key, true) :: th2))
| step_remove key st th1 th2 : probe_step (mkShared st (th1 ++ (key, true) :: th2)) (mkShared (st ∖ {[key]}) (th1 ++ th2)).

Definition threads_ok (s : shared) : Prop := NoDup (map fst (sh_threads s)) /\ forall key, key ∈ sh_stalled s <-> key ∈ map fst (sh_threads s).

Lemma probe_step_ok s s' : probe_step s s' -> threads_ok s -> threads_ok s'.
Proof.
  intros [key st th Hk|key st th Hk|key st th1 th2|key st th1 th2] [H1 H2]; unfold threads_ok in *; cbn [sh_stalled sh_threads] in *; rewrite ?map_app in *; cbn [map fst] in *.
  - split; [|intros k; specialize (H2 k); set_solver]. apply list.NoDup_app. split; [done|]. split; [|apply NoDup_singleton]. intros k Hin Hs. apply list_elem_of_singleton in Hs as ->.
    by apply Hk, H2.
  - done.
  - done.
  - apply list.NoDup_app in H1 as (N1 & N2 & N3). apply list.NoDup_cons in N3 as [N3 N4]. split.
    + apply list.NoDup_app. split; [done|]. split; [|done]. intros k Hk Hk'. apply (N2 k Hk). set_solver.
    + intros k. specialize (H2 k). specialize (N2 k). destruct (decide (k = key)) as [->|]; set_solver.
Qed.

(** However queries overlap and whatever mounts never answer, a mount has at most one
    thread probing it, and exactly the mounts being probed are marked, so that none is
    asked again before its last probe returns. *)
Theorem one_thread_per_mount (s : shared) : rtc probe_step (mkShared ∅ []) s ->
  NoDup (map fst (sh_threads s)) /\ forall key, key ∈ sh_stalled s <-> key ∈ map fst (sh_threads s).
Proof.
  intros H. assert (threads_ok (mkShared ∅ [])) as H0 by (split; [constructor|set_solver]).
  change (threads_ok s). induction H as [|a b c Hs _ IH]; [done|]. apply IH. by eapply probe_step_ok.
Qed.

Lemma one_thread_per_mount_witness : exists s, rtc probe_step (mkShared ∅ []) s /\ sh_threads s = [(lit "/b", true)] /\
  NoDup (map fst (sh_threads s)).
Proof.
  assert (rtc probe_step (mkShared ∅ []) (mkShared (({[lit "/b"]} ∪ ({[lit "/a"]} ∪ ∅)) ∖ {[lit "/a"]}) [(lit "/b", true)])) as H.
  { eapply rtc_l; [apply (step_begin (lit "/a")); set_solver|]. eapply rtc_l; [apply (step_begin (lit "/b")); vm_compute; intros E; discriminate E|].
    eapply rtc_l; [exact (step_send (lit "/a") _ [] [(lit "/b", false)])|]. eapply rtc_l; [exact (step_send (lit "/b") _ [(lit "/a", true)] [])|].
    eapply rtc_l; [exact (step_remove (lit "/a") _ [] [(lit "/b", true)])|]. apply rtc_refl. }
  eexists. split; [exact H|]. split; [reflexivity|]. exact (proj1 (one_thread_per_mount _ H)).
Defined.

(** ** Waiting ends *)

Class ProbesPass {P : Programs} (B : Probes) (T : TimePasses P) := {
  recv_passes : forall d w, match recv_timeout d w with (w', Timeout) => time w + d <= time w' | (w', _) => time w <= time w' end }.

Section waiting.
Context {P : Programs} {B : Probes} {T : TimePasses P} {R : ProbesPass B T}.

Lemma receive_ends fuel deadline : forall s, (0 < fuel)%nat -> deadline - time (fst s) <= (Z.of_nat fuel - 1) * POLL -> snd (receive fuel deadline s) <> Err None.
Proof.
  induction fuel as [|fuel IH]; intros s Hp Hle; [lia|]. cbn [receive]. unfold st_bind, cancelled, outside, fail, st_err, st_ret. cbn [fst snd].
  pose proof (stopping_passes (fst s)) as H1. destruct (stopping (fst s)) as [w1 [|]]; [done|]. cbn [fst snd] in *.
  pose proof (instant_reads w1) as H2. destruct (instant w1) as [w2 now]. cbn [fst snd] in *. destruct (Z.eqb_spec (since deadline now) 0) as [|Hne]; [done|]. cbn [fst snd].
  pose proof (recv_passes (Z.min POLL (since deadline now)) w2) as H3. destruct (recv_timeout _ w2) as [w3 [v| |]]; [done| |done]. cbn [fst snd] in *.
  unfold since in *. change POLL with 50000000 in *. destruct fuel as [|fuel].
  - exfalso. lia.
  - apply IH; [lia|]. cbn [fst]. lia.
Qed.

(** Probing a mount ends within its time, whether the mount answers or not. *)
Theorem probing_ends (key : bytes) (wait : Z) (s : programs * list act) : 0 <= wait -> snd (bounded key wait s) <> Err None.
Proof.
  intros Hw. unfold bounded. destruct s as [w l]. rewrite bind_outside. destruct (snd (insert_stalled key w)); [|done]. cbn [negb]. rewrite bind_outside.
  set (w1 := fst (start_probe key (fst (insert_stalled key w)))). rewrite bind_outside. pose proof (instant_reads w1) as Hi. destruct (instant w1) as [w2 now]. cbn [fst snd].
  apply receive_ends; [unfold waits; lia|]. cbn [fst]. unfold waits. rewrite !Nat2Z.inj_succ, Z2Nat.id by (apply Z.div_pos; unfold POLL, from_millis; lia).
  change POLL with 50000000. pose proof (Z.mul_succ_div_gt wait 50000000 ltac:(lia)). lia.
Qed.
End waiting.

(** A machine on which no mount answers. *)
Definition demo_probes : @Probes demo_machine :=
  Build_Probes demo_machine (fun _ (t : Z) => (t, true)) (fun _ (t : Z) => (t, tt)) (fun d (t : Z) => (t + d, Timeout)).
Lemma demo_probes_pass : ProbesPass demo_probes demo_time.
Proof. constructor. intros d w. cbn. lia. Qed.

Lemma probing_ends_witness : 0 <= STATVFS_WAIT /\ snd (bounded (P := demo_machine) (B := demo_probes) (lit "/a") STATVFS_WAIT (0, [])) <> Err None.
Proof. split; [vm_compute; discriminate|]. apply (probing_ends (R := demo_probes_pass)). vm_compute. discriminate. Defined.

(** ** What is reported *)

Lemma storage_spec l : forall seen,
  NoDup (map mount_point (storage seen l)) /\
  Forall (fun f => f ∈ l /\ is_virtual (fs_type f) = false /\ size_bytes f <> 0 /\ mount_point f ∉ seen) (storage seen l) /\
  (forall f, f ∈ l -> is_virtual (fs_type f) = false -> size_bytes f <> 0 -> mount_point f ∈ seen \/ mount_point f ∈ map mount_point (storage seen l)).
Proof.
  induction l as [|f l IH]; intros seen; [split; [constructor|split; [constructor|]]; intros ? []%elem_of_nil|]. cbn [storage].
  destruct (is_virtual (fs_type f) || (size_bytes f =? 0)) eqn:E.
  - destruct (IH seen) as (H1 & H2 & H3). split; [done|]. split.
    + eapply List.Forall_impl; [|exact H2]. intros g (? & ? & ? & ?). repeat split; try done. by right.
    + intros g [->|Hg]%elem_of_cons Hv Hs; [|by apply H3]. rewrite Hv in E. cbn in E. lia.
  - apply orb_false_iff in E as [Ev Es]. case_bool_decide as Hm.
    + destruct (IH seen) as (H1 & H2 & H3). split; [done|]. split.
      * eapply List.Forall_impl; [|exact H2]. intros g (? & ? & ? & ?). repeat split; try done. by right.
      * intros g [->|Hg]%elem_of_cons Hv Hs; [by left|by apply H3].
    + destruct (IH ({[mount_point f]} ∪ seen)) as (H1 & H2 & H3). cbn [map]. split; [|split].
      * apply list.NoDup_cons. split; [|done]. intros Hin. apply list_elem_of_fmap in Hin as (g & Eg & Hg). rewrite list.Forall_forall in H2.
        destruct (H2 g Hg) as (_ & _ & _ & Hn). set_solver.
      * constructor; [repeat split; [by left|done|lia|done]|]. eapply List.Forall_impl; [|exact H2]. intros g (? & ? & ? & ?). repeat split; [by right|done|done|set_solver].
      * intros g [->|Hg]%elem_of_cons Hv Hs; [right; by left|]. destruct (H3 g Hg Hv Hs) as [H4|H4]; [|right; by right].
        apply elem_of_union in H4 as [->%elem_of_singleton|]; [right; by left|by left].
Qed.

Definition u64_usage (u : Usage) : Prop := 0 <= fragment_size u /\ 0 <= blocks u /\ 0 <= free u /\ 0 <= available u /\ 0 <= files u <= U64_MAX /\ 0 <= files_free u.
Definition numbers_ok (f : Filesystem) : Prop :=
  0 <= used_bytes f <= size_bytes f /\ size_bytes f <= U64_MAX /\ 0 <= available_bytes f <= U64_MAX /\
  match inodes_total f, inodes_used f with Some t, Some n => 0 <= n <= t /\ t <= U64_MAX | None, None => True | _, _ => False end.

Lemma filesystem_numbers mp d t u : u64_usage u -> numbers_ok (filesystem mp d t u).
Proof.
  intros (H1 & H2 & H3 & H4 & H5 & H6). unfold numbers_ok, filesystem, saturating_mul, saturating_sub. cbn. assert (0 <= U64_MAX) by (unfold U64_MAX; lia).
  assert (0 <= Z.max 0 (blocks u - free u) * fragment_size u <= blocks u * fragment_size u) by (split; [nia|apply Z.mul_le_mono_nonneg_r; lia]).
  assert (0 <= available u * fragment_size u) by nia. split; [lia|]. split; [lia|]. split; [lia|]. destruct (Z.eqb_spec (files u) 0); cbn; lia.
Qed.

Section honest.
Context {P : Programs} {B : Probes} {J : JsonText}.

Definition is_stalled {T} (p : Probe T) : bool := match p with Stalled => true | Done _ => false end.
Definition usage_of (o : Mount * Probe (option Usage)) : option Filesystem := match snd o with Done (Some u) => Some (mounted (fst o) u) | _ => None end.

(** One outcome for every mount that may hold storage, each from probing it. *)
Definition probed (mounts : list Mount) (outs : list (Mount * Probe (option Usage))) : Prop :=
  map fst outs = List.filter probeable mounts /\
  Forall (fun o => exists s1 s2, bounded (mountpoint (fst o)) STATVFS_WAIT s1 = (s2, Ok (snd o))) outs.

Lemma mounts_loop_spec ms : forall fss stalled s s' fss' stalled', mounts_loop ms fss stalled s = (s', Ok (fss', stalled')) ->
  exists outs, probed ms outs /\ fss' = fss ++ omap usage_of outs /\ stalled' = stalled || existsb (fun o => is_stalled (snd o)) outs.
Proof.
  induction ms as [|m ms IH]; intros fss stalled s s' fss' stalled'; cbn [mounts_loop].
  - intros [= <- <- <-]. exists []. cbn. rewrite app_nil_r, orb_false_r. split; [split; [done|constructor]|done].
  - intros (s1 & stop & _ & H)%st_bind_inv. destruct stop; [done|]. unfold probed. cbn [List.filter]. destruct (probeable m); cbn [negb] in H; [|by eapply IH].
    apply st_bind_inv in H as (s2 & p & Hp & H).
    assert (forall outs, probed ms outs -> map fst ((m, p) :: outs) = m :: List.filter probeable ms /\
              Forall (fun o => exists s1 s2, bounded (mountpoint (fst o)) STATVFS_WAIT s1 = (s2, Ok (snd o))) ((m, p) :: outs)) as Hc.
    { intros outs [H1 H2]. cbn [map fst]. rewrite H1. split; [done|]. constructor; [by exists s1, s2|done]. }
    destruct p as [[u|]|]; apply IH in H as (outs & Ho & -> & ->); eexists; (split; [by apply (Hc outs)|]); cbn; [by rewrite <- app_assoc|done|].
    split; [done|]. by rewrite orb_true_r.
Qed.

(** What [query.disk_usage] answers natively: filesystems that hold storage, each with
    the numbers its mount answered, a mount point once, used no more than their size; if a
    mount did not answer, or the list was cut, the answer says so, and otherwise every
    mount that answered is in it. *)
Theorem disk_usage_is_as_mounted (from_value : Value -> result unit bytes) (mounts : option (list Mount)) (raw v : Value) (s s' : programs * list act) :
  native_answer from_value mounts raw s = (s', Ok v) ->
  exists ms outs kept truncated, mounts = Some ms /\ probed ms outs /\
    v = json_object [("filesystems"%string, VArray (map filesystem_value kept)); ("truncated"%string, VBool truncated)] /\
    zlength kept <= MAX_FILESYSTEMS /\ NoDup (map mount_point kept) /\
    Forall (fun f => is_virtual (fs_type f) = false /\ size_bytes f <> 0 /\
                     exists m u, (m, Done (Some u)) ∈ outs /\ f = mounted m u /\ (u64_usage u -> numbers_ok f)) kept /\
    (truncated = false -> Forall (fun o => is_stalled (snd o) = false) outs /\
       forall m u, (m, Done (Some u)) ∈ outs -> is_virtual (fs_type (mounted m u)) = false -> size_bytes (mounted m u) <> 0 ->
         mount_point (mounted m u) ∈ map mount_point kept).
Proof.
  unfold native_answer. intros (s1 & [] & _ & H)%st_bind_inv. apply st_bind_inv in H as (s2 & [fss stalled] & Hr & H).
  assert (v = answer fss stalled) as -> by (unfold st_ret in H; cbn [fst snd] in H; congruence). clear H.
  unfold read_filesystems in Hr. destruct mounts as [ms|]; [|done]. apply mounts_loop_spec in Hr as (outs & Ho & Ef & ->). cbn [app orb] in *.
  unfold answer. pose proof (cut_spec filesystem_value MAX_FILESYSTEMS (storage ∅ fss) ltac:(unfold MAX_FILESYSTEMS; lia)) as Hc.
  destruct (cut filesystem_value MAX_FILESYSTEMS (storage ∅ fss)) as [kept short]. cbn [fst snd] in Hc. pose proof Hc as ((k & Ek) & Hlen & _ & Hall).
  destruct (storage_spec fss ∅) as (S1 & S2 & S3). exists ms, outs, kept. eexists. split; [done|]. split; [done|]. split; [reflexivity|]. split; [done|].
  assert (forall m u, (m, Done (Some u)) ∈ outs -> mounted m u ∈ fss) as Hin.
  { intros m u Hm. subst fss. apply list_elem_of_omap. by exists (m, Done (Some u)). }
  split; [|split].
  - rewrite Ek, <- firstn_map. eapply sublist_NoDup; [exact S1|]. apply sublist_take.
  - apply list.Forall_forall. intros f Hf. eapply cut_elem in Hf; [|exact Hc]. rewrite list.Forall_forall in S2. destruct (S2 f Hf) as (Hf' & Hv & Hs & _).
    split; [done|]. split; [done|]. subst fss. apply list_elem_of_omap in Hf' as ([m [[u|]|]] & Hm & E); try done. injection E as <-. exists m, u.
    split; [done|]. split; [done|]. apply filesystem_numbers.
  - intros [-> Hst]%orb_false_iff. split.
    + apply List.Forall_forall. intros o Hin'. destruct (is_stalled (snd o)) eqn:E; [|done]. assert (existsb (fun o => is_stalled (snd o)) outs = true) as X by (apply existsb_exists; eauto). congruence.
    + intros m u Hm Hv Hs. rewrite Hall by done. destruct (S3 (mounted m u) (Hin m u Hm) Hv Hs) as [H|H]; [set_solver|done].
Qed.
End honest.

(** A machine on which every mount answers. *)
Definition demo_answering : @Probes demo_machine :=
  Build_Probes demo_machine (fun _ (t : Z) => (t, true)) (fun _ (t : Z) => (t, tt)) (fun d (t : Z) => (t, Got (Some (mkUsage 4096 100 25 20 10 4)))).
Definition demo_mounts : list Mount := [mkMount (lit "/") (Some (lit "/dev/sda1")) (lit "ext4"); mkMount (lit "/proc") None (lit "proc")].

Lemma disk_usage_is_as_mounted_witness : exists s v,
  native_answer (P := demo_machine) (B := demo_answering) (J := tiny_json_text) (fun _ => Ok tt) (Some demo_mounts) VNull (0, []) = (s, Ok v) /\
  exists outs, probed (P := demo_machine) (B := demo_answering) demo_mounts outs.
Proof.
  destruct (native_answer (P := demo_machine) (B := demo_answering) (J := tiny_json_text) (fun _ => Ok tt) (Some demo_mounts) VNull (0, [])) as [s [v|e]] eqn:E;
    [|vm_compute in E; discriminate E].
  exists s, v. split; [reflexivity|].
  destruct (disk_usage_is_as_mounted (P := demo_machine) (B := demo_answering) (J := tiny_json_text) (fun _ => Ok tt) (Some demo_mounts) VNull v (0, []) s E)
    as (ms & outs & kept & truncated & [= <-] & H & _).
  exists outs. exact H.
Defined.
