(* ===== verification/TimeSync.v ===== *)
(** * jobs/queries/time_sync.rs: whether the clock is synchronized

    What [adjtimex] returns is an argument; the programs run over [Programs]. *)

From Stdlib Require Import String SpecFloat.
From S2P Require Import Prelude Text Floats BTree JsonValue Command Jobs Osquery Queries Answers Sockets.

#[local] Set Warnings "-notation-overridden".

Definition PROGRAM_TIMEOUT : Z := from_secs 5.
Definition NTP_SYNCHRONIZED : list bytes :=
  [lit "--system"; lit "--json=short"; lit "get-property"; lit "org.freedesktop.timedate1"; lit "/org/freedesktop/timedate1"; lit "org.freedesktop.timedate1"; lit "NTPSynchronized"].
Definition TIMESYNCD_SERVER : list bytes :=
  [lit "--system"; lit "--json=short"; lit "get-property"; lit "org.freedesktop.timesync1"; lit "/org/freedesktop/timesync1"; lit "org.freedesktop.timesync1.Manager"; lit "ServerName"].
Definition CHRONYC : list bytes := [lit "chronyc"; lit "-c"; lit "-n"; lit "tracking"].

Record Kernel := mkKernel { k_synchronized : bool; k_offset_us : Z; k_max_error_us : Z; k_estimated_error_us : Z }.
Record Daemon := mkDaemon { d_name : option bytes; d_source : option bytes; d_stratum : option Z; d_offset_us : option Z; d_synchronized : option bool }.
Definition no_daemon : Daemon := mkDaemon None None None None None.

(** ** The kernel's view *)

Definition STA_UNSYNC : Z := 64.
Definition STA_NANO : Z := 8192.
Definition TIME_ERROR : Z := 5.

(** [adjtimex]'s state and what it wrote. *)
Record Timex := mkTimex { tx_state : Z; tx_status : Z; tx_offset : Z; tx_maxerror : Z; tx_esterror : Z }.
Definition read_kernel (t : Timex) : option Kernel :=
  if tx_state t =? -1 then None
  else
    let offset_us := if negb (Z.land (tx_status t) STA_NANO =? 0) then Z.quot (tx_offset t) 1000 else tx_offset t in
    Some (mkKernel (negb (tx_state t =? TIME_ERROR) && (Z.land (tx_status t) STA_UNSYNC =? 0)) offset_us (tx_maxerror t) (tx_esterror t)).

(** ** The daemons *)

(** [f64::round]: half away from zero. *)
Definition f64_round (f : f64) : f64 :=
  match f with
  | S754_finite s m e =>
      if 0 <=? e then f
      else
        let q := (Zpos m + 2 ^ (- e - 1)) / 2 ^ (- e) in
        if q =? 0 then S754_zero s else f64_of_Z (if s then - q else q)
  | _ => f
  end.
Definition f64_neg (f : f64) : f64 := SFopp f.

Definition leap_synchronized (leap : option bytes) : option bool :=
  match option_map trim leap with
  | Some l => if existsb (str_eqb l) [lit "Normal"; lit "Insert second"; lit "Delete second"] then Some true
              else if str_eqb l (lit "Not synchronised") then Some false else None
  | None => None
  end.
Definition parse_chrony_tracking (output : bytes) : option Daemon :=
  let fields := split_on 44 (trim output) in
  if (length fields <? 5)%nat then None
  else
    let field i := match fields !! i with Some f => f | None => [] end in
    let+ seconds := parse_f64 (field 4%nat) in
    let source := if bool_decide (field 1%nat = []) then None else Some (field 1%nat) in
    Some (mkDaemon (Some (lit "chronyd")) source (parse_uint 255 (field 2%nat)) (Some (f64_as_i64 (f64_round (f64_mul (f64_neg seconds) (f64_of_Z 1000000)))))
            (leap_synchronized (fields !! 13%nat))).

Section daemons.
Context {P : Programs} {D : SerdeJson}.

(** [run_with_timeout(..).ok().filter(success)]. *)
Definition succeeded (argv : list bytes) : ST (programs * list act) (option JobFailure) (option bytes) := fun s =>
  let '(s, r) := run_with_timeout argv PROGRAM_TIMEOUT s in
  match r with
  | Err OutOfFuel => (s, Err None)
  | Err (Io _) => (s, Ok None)
  | Ok output => (s, Ok (if success output then Some (stdout output) else None))
  end.

Definition chrony : ST (programs * list act) (option JobFailure) (option Daemon) :=
  let* out := succeeded CHRONYC in
  st_ret (let+ o := out in parse_chrony_tracking (from_utf8_lossy o)).

Definition timesyncd : ST (programs * list act) (option JobFailure) (option Daemon) :=
  let* out := succeeded (lit "busctl" :: TIMESYNCD_SERVER) in
  match (let+ o := out in ok (from_slice o)) with
  | None => st_ret None
  | Some value =>
      let* sync := succeeded (lit "busctl" :: NTP_SYNCHRONIZED) in
      let synchronized := (let+ o := sync in let+ v := ok (from_slice o) in as_bool (member v "data")) in
      let source := (let+ t := as_str (member value "data") in if bool_decide (t = []) then None else Some t) in
      st_ret (Some (mkDaemon (Some (lit "systemd-timesyncd")) source None None synchronized))
  end.
End daemons.

(** ** The answer *)

Definition or_else {A} (a b : option A) : option A := match a with Some _ => a | None => b end.
Definition answer (kernel : option Kernel) (daemon : Daemon) : result Value JobFailure :=
  match or_else (option_map k_synchronized kernel) (d_synchronized daemon) with
  | None => Err (failed (lit "could not read the clock state: adjtimex was refused and no time daemon answered"))
  | Some synchronized =>
      Ok (json_object
            [("synchronized"%string, VBool synchronized); ("daemon"%string, text_or_null (d_name daemon));
             ("source"%string, text_or_null (option_map (fun s => clip s 256) (d_source daemon)));
             ("stratum"%string, or_json number (let+ s := d_stratum daemon in if s <=? 16 then Some s else None));
             ("offset_us"%string, or_json number (or_else (d_offset_us daemon) (option_map k_offset_us kernel)));
             ("max_error_us"%string, or_json number (option_map (fun k => Z.max 0 (k_max_error_us k)) kernel));
             ("estimated_error_us"%string, or_json number (option_map (fun k => Z.max 0 (k_estimated_error_us k)) kernel))])
  end.

Section native.
Context {P : Programs} {D : SerdeJson}.
Variable from_value : Value -> result unit bytes.
Definition native_answer (t : Timex) (raw : Value) : ST (programs * list act) (option JobFailure) Value :=
  let* _ := reported (parameters tt from_value raw) in
  let kernel := read_kernel t in
  let* c := chrony in
  let* daemon := (match c with Some d => st_ret (Some d) | None => timesyncd end) in
  let* stop := cancelled in
  if (stop : bool) then fail Cancelled else reported (answer kernel (match daemon with Some d => d | None => no_daemon end)).

(** The clock's state is never guessed: an answer says synchronized only because the
    kernel says so, or, where the kernel is not asked, because a time daemon does; the
    error estimates are the kernel's or missing. *)
Theorem clock_state_has_a_source (t : Timex) (raw v : Value) (s s' : programs * list act) : native_answer t raw s = (s', Ok v) ->
  exists daemon, answer (read_kernel t) daemon = Ok v /\
    match read_kernel t with
    | Some k => member v "synchronized" = VBool (k_synchronized k) /\ as_u64 (member v "max_error_us") = Some (Z.max 0 (k_max_error_us k))
    | None => exists b, d_synchronized daemon = Some b /\ d_name daemon <> None /\ member v "synchronized" = VBool b /\ member v "max_error_us" = VNull
    end.
Proof.
  unfold native_answer. intros (s1 & [] & _ & H)%st_bind_inv. apply st_bind_inv in H as (s2 & c & Hc & H). apply st_bind_inv in H as (s3 & o & Ho & H).
  apply st_bind_inv in H as (s4 & stop & _ & H). destruct stop; [done|]. unfold reported, st_of_result in H. set (daemon := match o with Some d => d | None => no_daemon end) in *.
  assert (d_synchronized daemon <> None -> d_name daemon <> None) as Hn.
  { unfold daemon. assert (forall d, o = Some d -> d_name d <> None) as Hd; [|destruct o as [d|]; [by intros _; apply Hd|done]].
    intros d ->. destruct c as [d'|].
    - unfold st_ret in Ho. injection Ho as _ <-. unfold chrony in Hc. apply st_bind_inv in Hc as (u & out & _ & Hc). unfold st_ret in Hc. injection Hc as _ Hc.
      destruct out as [out|]; [|done]. cbn [mbind option_bind] in Hc. unfold parse_chrony_tracking in Hc. destruct (_ <? 5)%nat; [done|]. destruct (parse_f64 _); [|done].
      cbn [mbind option_bind] in Hc. assert (d_name d' = Some (lit "chronyd")) as ->; [|done]. apply (f_equal (fun o => match o with Some x => d_name x | None => None end)) in Hc. by symmetry.
    - unfold timesyncd in Ho. apply st_bind_inv in Ho as (u & out & _ & Ho). destruct (let+ o := out in ok (from_slice o)); [|done].
      apply st_bind_inv in Ho as (u2 & sy & _ & Ho). unfold st_ret in Ho. apply (f_equal snd) in Ho. cbn [snd] in Ho.
      apply (f_equal (fun r => match r with Ok (Some x) => d_name x | _ => None end)) in Ho. cbn in Ho. rewrite <- Ho. done. }
  destruct (answer (read_kernel t) daemon) as [v'|e] eqn:E; [|done]. cbn [map_err] in H. assert (v' = v) as -> by congruence. exists daemon. split; [done|].
  unfold answer in E. destruct (read_kernel t) as [k|].
  - cbn [option_map or_else] in E. assert (Ev := f_equal (fun r => match r with Ok x => x | Err _ => VNull end) E). clear E. rewrite <- Ev. split; [reflexivity|].
    cbn -[Z.max]. unfold number. destruct (Z.ltb_spec (Z.max 0 (k_max_error_us k)) 0); [lia|done].
  - cbn [option_map or_else] in E. destruct (d_synchronized daemon) as [b|]; [|done]. exists b. split; [done|]. split; [by apply Hn|].
    assert (Ev := f_equal (fun r => match r with Ok x => x | Err _ => VNull end) E). rewrite <- Ev. split; reflexivity.
Qed.
End native.
