(* ===== verification/MountTable.v ===== *)
(** * collectors/filesystem_facts.rs: PID 1's mount table

    Parsing the table's lines is the procfs crate's; the bounds and the escapes are here. *)

From Stdlib Require Import String.
From S2P Require Import Prelude Text.

Definition MAX_MOUNTINFO_BYTES : Z := 1024 * 1024.
Definition MAX_MOUNT_RECORDS : Z := 4096.

Record FilesystemFacts := mkFilesystemFacts { fact_device : option bytes; fact_mountpoint : bytes; fact_type : bytes }.
(** A record as procfs parses it. *)
Record MountInfo := mkMountInfo { mount_source : option bytes; mount_at : bytes; mount_type : bytes }.

(** [str::replace]: every match from the left, not again in what is put in. *)
Fixpoint replace_fuel (fuel : nat) (from to s : bytes) : bytes :=
  match fuel with
  | O => s
  | S fuel' => match s with
               | [] => []
               | b :: s' => match strip_prefix from s with
                            | Some rest => to ++ replace_fuel fuel' from to rest
                            | None => b :: replace_fuel fuel' from to s'
                            end
               end
  end.
Definition replace (from to s : bytes) : bytes := replace_fuel (length s) from to s.

Definition SPACE : bytes := [92; 48; 52; 48].
Definition TAB : bytes := [92; 48; 49; 49].
Definition NEWLINE : bytes := [92; 48; 49; 50].
Definition BACKSLASH : bytes := [92; 49; 51; 52].

Definition decode_mount_field (value : bytes) : bytes :=
  replace BACKSLASH [92] (replace NEWLINE [10] (replace TAB [9] (replace SPACE [32] value))).

Definition project_mountinfo (m : list MountInfo) : list FilesystemFacts :=
  map (fun i => mkFilesystemFacts (option_map decode_mount_field (mount_source i)) (decode_mount_field (from_utf8_lossy (mount_at i))) (mount_type i)) m.

Section collect.
(** [MountInfos::from_buf_read]. *)
Variable parse : bytes -> result (list MountInfo) bytes.

(** What reading the file to its end gives. *)
Definition collect (file : result bytes bytes) : result (list FilesystemFacts) bytes :=
  let? all := file in
  let bytes := take (Z.to_nat (MAX_MOUNTINFO_BYTES + 1)) all in
  if MAX_MOUNTINFO_BYTES <? zlength bytes then Err (lit "PID 1 mountinfo exceeds collection byte limit")
  else
    let? records := parse bytes in
    if MAX_MOUNT_RECORDS <? zlength records then Err (lit "PID 1 mountinfo exceeds collection record limit") else Ok (project_mountinfo records).
End collect.

(** ** Escaped fields are read back *)

(** How Linux writes a field: whitespace and backslashes as octal escapes. *)
Definition escape_byte (b : Z) : bytes :=
  if b =? 32 then SPACE else if b =? 9 then TAB else if b =? 10 then NEWLINE else if b =? 92 then BACKSLASH else [b].
Definition escape_mount_field (s : bytes) : bytes := concat (map escape_byte s).

(** A byte that is no backslash, or a backslash with three digits. *)
Definition token (t : bytes) : Prop :=
  (exists b, t = [b] /\ b <> 92) \/ (exists x y z, t = [92; x; y; z] /\ x <> 92 /\ y <> 92 /\ z <> 92).
Definition escape (e : bytes) : Prop := exists x y z, e = [92; x; y; z] /\ x <> 92 /\ y <> 92 /\ z <> 92.
Definition subst_token (e to t : bytes) : bytes := if bool_decide (t = e) then to else t.

Lemma replace_step n e to b s : replace_fuel (S n) e to (b :: s) =
  match strip_prefix e (b :: s) with Some rest => to ++ replace_fuel n e to rest | None => b :: replace_fuel n e to s end.
Proof. done. Qed.
Lemma replace_skip n e to b s : escape e -> b <> 92 -> replace_fuel (S n) e to (b :: s) = b :: replace_fuel n e to s.
Proof. intros (x & y & z & -> & _) Hb. cbn [replace_fuel strip_prefix]. destruct (Z.eqb_spec 92 b); [done|reflexivity]. Qed.

Lemma replace_tokens e to ts : escape e -> Forall token ts -> forall fuel, (length (concat ts) <= fuel)%nat ->
  replace_fuel fuel e to (concat ts) = concat (map (subst_token e to) ts).
Proof.
  intros He Ht. induction Ht as [|t ts Ht _ IH]; intros fuel Hf; [by destruct fuel|]. cbn [concat map] in *. rewrite length_app in Hf.
  destruct Ht as [(b & -> & Hb)|(x & y & z & -> & Hx & Hy & Hz)]; cbn [app length] in *.
  - destruct fuel as [|fuel]; [lia|]. rewrite replace_skip by done. rewrite IH by lia. unfold subst_token at 2. rewrite bool_decide_eq_false_2; [done|].
    destruct He as (? & ? & ? & -> & _). done.
  - destruct fuel as [|[|[|[|fuel]]]]; try lia. unfold subst_token at 1. case_bool_decide as E.
    + subst e. rewrite replace_step. replace (strip_prefix [92; x; y; z] (92 :: x :: y :: z :: concat ts)) with (Some (concat ts)) by (cbn; by rewrite !Z.eqb_refl).
      f_equal. apply IH. lia.
    + assert (strip_prefix e (92 :: x :: y :: z :: concat ts) = None) as Hn.
      { destruct He as (x' & y' & z' & -> & _). cbn. destruct (Z.eqb_spec x' x), (Z.eqb_spec y' y), (Z.eqb_spec z' z); try done. by subst. }
      rewrite replace_step, Hn. cbn [app]. f_equal.
      rewrite !replace_skip by done. rewrite IH by lia. done.
Qed.

Lemma replace_all e to ts : escape e -> Forall token ts -> replace e to (concat ts) = concat (map (subst_token e to) ts).
Proof. intros He Ht. by apply replace_tokens. Qed.

Ltac an_escape := eexists _, _, _; split; [reflexivity|split_and!; discriminate].

Lemma subst_token_ok e b ts : b <> 92 -> Forall token ts -> Forall token (map (subst_token e [b]) ts).
Proof. intros Hb Ht. apply List.Forall_map. eapply List.Forall_impl; [|exact Ht]. intros t H. unfold subst_token. case_bool_decide; [|done]. left. by exists b. Qed.

(** Decoding a field of the mount table gives back what Linux escaped, whatever
    spaces, tabs, line ends, backslashes and texts that look like escapes it holds. *)
Theorem mount_fields_round_trip (s : bytes) : decode_mount_field (escape_mount_field s) = s.
Proof.
  assert (Forall token (map escape_byte s)) as Ht.
  { apply List.Forall_map, List.Forall_forall. intros b _. unfold escape_byte. destruct (Z.eqb_spec b 32), (Z.eqb_spec b 9), (Z.eqb_spec b 10), (Z.eqb_spec b 92); try (right; an_escape). left. by exists b. }
  unfold decode_mount_field, escape_mount_field. rewrite replace_all by (an_escape || done). assert (Ht1 := subst_token_ok SPACE 32 _ ltac:(done) Ht).
  rewrite replace_all by (an_escape || done). assert (Ht2 := subst_token_ok TAB 9 _ ltac:(done) Ht1). rewrite replace_all by (an_escape || done).
  assert (Ht3 := subst_token_ok NEWLINE 10 _ ltac:(done) Ht2). rewrite replace_all by (an_escape || done). rewrite !map_map. clear.
  induction s as [|b s IH]; [done|]. cbn [map concat]. rewrite IH. enough (subst_token BACKSLASH [92] (subst_token NEWLINE [10] (subst_token TAB [9] (subst_token SPACE [32] (escape_byte b)))) = [b]) as -> by done.
  unfold escape_byte. destruct (Z.eqb_spec b 32), (Z.eqb_spec b 9), (Z.eqb_spec b 10), (Z.eqb_spec b 92); subst; try reflexivity; try done.
  unfold subst_token. rewrite (bool_decide_eq_false_2 ([b] = SPACE)), (bool_decide_eq_false_2 ([b] = TAB)), (bool_decide_eq_false_2 ([b] = NEWLINE)), (bool_decide_eq_false_2 ([b] = BACKSLASH)) by discriminate.
  reflexivity.
Qed.
