(* ===== verification/NetworkFacts.v ===== *)
(** * collectors/network_facts.rs: the host's interfaces and addresses

    Interfaces and addresses come from two separate kernel dumps, which an arbitrary
    provider gives ([Dumps]); what the getifs crate reports of each is its own. *)

From Stdlib Require Import String Sorted.
From S2P Require Import Prelude Text Ip BTree Command Answers.

Definition MAX_ATTEMPTS : nat := 5.
Definition MAX_INTERFACES : Z := 4096.
Definition MAX_ADDRESSES : Z := 16384.

Inductive AddressFamily := FamilyIpv4 | FamilyIpv6.
Record NetworkAddress := mkNetworkAddress { na_ip : IpAddr; na_prefix : Z; na_family : AddressFamily }.
Record NetworkInterface := mkNetworkInterface {
  ni_name : bytes; ni_index : Z; ni_mac : option bytes; ni_mtu : option Z; ni_up : bool; ni_running : bool; ni_loopback : bool; ni_addresses : list NetworkAddress }.
Record RawInterface := mkRawInterface { ri_name : bytes; ri_index : Z; ri_mac : option bytes; ri_mtu : Z; ri_up : bool; ri_running : bool; ri_loopback : bool }.
Record RawAddress := mkRawAddress { ra_index : Z; ra_address : NetworkAddress }.

#[export] Instance AddressFamily_eq_dec : EqDecision AddressFamily.
Proof. solve_decision. Defined.
#[export] Instance NetworkAddress_eq_dec : EqDecision NetworkAddress.
Proof. solve_decision. Defined.
#[export] Instance NetworkInterface_eq_dec : EqDecision NetworkInterface.
Proof. solve_decision. Defined.

(** ** The derived orders *)

Definition bool_key (b : bool) : Z := if b then 1 else 0.
Definition family_key (f : AddressFamily) : Z := match f with FamilyIpv4 => 0 | FamilyIpv6 => 1 end.
Definition ip_key (ip : IpAddr) : Z * list Z := match ip with V4 a b c d => (0, [a; b; c; d]) | V6 g => (1, g) end.
Definition address_key (a : NetworkAddress) : (Z * list Z) * (Z * Z) := (ip_key (na_ip a), (na_prefix a, family_key (na_family a))).

(** Vectors, by their first difference. *)
Fixpoint lex_ltb {K} {O : KeyOrder K} (a b : list K) : bool :=
  match a, b with
  | _, [] => false
  | [], _ :: _ => true
  | x :: a', y :: b' => key_ltb x y || (bool_decide (x = y) && lex_ltb a' b')
  end.
#[local] Instance lex_order {K} {O : KeyOrder K} : KeyOrder (list K) | 100.
Proof.
  refine {| key_ltb := lex_ltb |}.
  - induction a as [|x a IH]; intros [|y b] [|z c]; cbn; try done. intros H1 H2. apply orb_true_iff in H1, H2. apply orb_true_iff.
    destruct H1 as [H1|[<-%bool_decide_eq_true H1']%andb_true_iff], H2 as [H2|[<-%bool_decide_eq_true H2']%andb_true_iff]; auto.
    + left. by eapply key_ltb_trans.
    + right. rewrite bool_decide_eq_true_2 by done. cbn. by eapply IH.
  - induction a as [|x a IH]; cbn; [done|]. by rewrite IH, key_ltb_irrefl, andb_false_r.
  - induction a as [|x a IH]; intros [|y b]; cbn; try done. intros [H1 H1']%orb_false_iff [H2 H2']%orb_false_iff.
    assert (x = y) as -> by by apply key_ltb_total. rewrite bool_decide_eq_true_2 in * by done. cbn in *. f_equal. by apply IH.
Defined.

Definition interface_key (i : NetworkInterface) : bytes * (Z * (option bytes * (option Z * (Z * (Z * (Z * list ((Z * list Z) * (Z * Z)))))))) :=
  (ni_name i, (ni_index i, (ni_mac i, (ni_mtu i, (bool_key (ni_up i), (bool_key (ni_running i), (bool_key (ni_loopback i), map address_key (ni_addresses i)))))))).

(** ** One snapshot *)

Definition by_index (m : gmap Z (list NetworkAddress)) (a : RawAddress) : gmap Z (list NetworkAddress) :=
  <[ra_index a := match m !! ra_index a with Some l => l | None => [] end ++ [ra_address a]]> m.

Definition with_addresses (i : RawInterface) (l : list NetworkAddress) : NetworkInterface :=
  mkNetworkInterface (ri_name i) (ri_index i) (match ri_mac i with Some m => if str_eqb m (lit "00:00:00:00:00:00") then None else Some m | None => None end)
    (if ri_mtu i =? 0 then None else Some (ri_mtu i)) (ri_up i) (ri_running i) (ri_loopback i) (sort_by_key address_key l).

(** The loop: each interface takes its addresses out of the map. *)
Fixpoint attach (ifs : list RawInterface) (m : gmap Z (list NetworkAddress)) : list NetworkInterface * gmap Z (list NetworkAddress) :=
  match ifs with
  | [] => ([], m)
  | i :: ifs' =>
      let own := match m !! ri_index i with Some l => l | None => [] end in
      let '(rest, unused) := attach ifs' (delete (ri_index i) m) in
      (with_addresses i own :: rest, unused)
  end.

Definition oversized (what : string) : IoError := mkIoError OtherKind (lit "network " ++ lit what ++ lit " dump exceeds collection limit").

(** ** What the getifs crate reports *)

(** [to_string] of its hardware addresses is ASCII. *)
Record GetifsInterface := mkGetifs { g_name : bytes; g_index : Z; g_mac : option bytes; g_mtu : Z; g_up : bool; g_running : bool; g_loopback : bool }.
Inductive IfNet := IfV4 (index a b c d prefix : Z) | IfV6 (index : Z) (groups : list Z) (prefix : Z).

Definition raw_interface (i : GetifsInterface) : RawInterface :=
  mkRawInterface (g_name i) (g_index i) (option_map to_ascii_lowercase (g_mac i)) (g_mtu i) (g_up i) (g_running i) (g_loopback i).
Definition raw_address (n : IfNet) : RawAddress :=
  match n with
  | IfV4 i a b c d prefix => mkRawAddress i (mkNetworkAddress (V4 a b c d) prefix FamilyIpv4)
  | IfV6 i groups prefix => mkRawAddress i (mkNetworkAddress (V6 groups) prefix FamilyIpv6)
  end.

(** [GetifsDumpProvider]: oversized dumps are refused before they are copied. *)
Definition getifs_interfaces {W} (dump : Run W (result (list GetifsInterface) IoError)) : ST W IoError (list RawInterface) :=
  let* l := (dump : ST W IoError (list GetifsInterface)) in
  if MAX_INTERFACES <? zlength l then st_err (oversized "interface") else st_ret (map raw_interface l).
Definition getifs_addresses {W} (dump : Run W (result (list IfNet) IoError)) : ST W IoError (list RawAddress) :=
  let* l := (dump : ST W IoError (list IfNet)) in
  if MAX_ADDRESSES <? zlength l then st_err (oversized "address") else st_ret (map raw_address l).

Section snapshots.
Context {W : Type}.
Variable interfaces : Run W (result (list RawInterface) IoError).
Variable addresses : Run W (result (list RawAddress) IoError).

Definition snapshot : ST W IoError (list NetworkInterface) :=
  let* ifs := (interfaces : ST W IoError (list RawInterface)) in
  if MAX_INTERFACES <? zlength ifs then st_err (oversized "interface")
  else
    let* raw := (addresses : ST W IoError (list RawAddress)) in
    if MAX_ADDRESSES <? zlength raw then st_err (oversized "address")
    else
      let '(result, unused) := attach ifs (fold_left by_index raw ∅) in
      if negb (bool_decide (unused = ∅)) then st_err (mkIoError Interrupted (lit "address references unknown interface index"))
      else st_ret (sort_by_key interface_key result).

Fixpoint attempts (n : nat) (previous : option (list NetworkInterface)) (last_error : option IoError) : ST W IoError (list NetworkInterface) := fun s =>
  match n with
  | O => (s, Err (match last_error with Some e => e | None => mkIoError OtherKind (lit "network snapshot remained unstable") end))
  | S n' =>
      match snapshot s with
      | (s, Ok current) => if bool_decide (previous = Some current) then (s, Ok current) else attempts n' (Some current) last_error s
      | (s, Err e) => if bool_decide (e_kind e = Interrupted) then attempts n' None (Some e) s else (s, Err e)
      end
  end.
Definition stable_snapshot : ST W IoError (list NetworkInterface) := attempts MAX_ATTEMPTS None None.
End snapshots.

(** [GetifsSource::collect]. *)
Definition getifs_collect {W} (interfaces : Run W (result (list GetifsInterface) IoError)) (addresses : Run W (result (list IfNet) IoError)) : ST W IoError (list NetworkInterface) :=
  stable_snapshot (getifs_interfaces interfaces) (getifs_addresses addresses).

(** ** No address is lost or misplaced *)

(** All addresses of a map. *)
Definition pool (m : gmap Z (list NetworkAddress)) : list NetworkAddress := concat (map snd (map_to_list m)).

Lemma pool_insert m i l : m !! i = None -> pool (<[i := l]> m) ≡ₚ l ++ pool m.
Proof. intros H. unfold pool. rewrite (map_to_list_insert m i l H). done. Qed.
Lemma pool_delete m i l : m !! i = Some l -> pool m ≡ₚ l ++ pool (delete i m).
Proof. intros H. rewrite <- (insert_delete_id m i l H) at 1. apply pool_insert, lookup_delete_eq. Qed.

Lemma pool_by_index raw : forall m, pool (fold_left by_index raw m) ≡ₚ map ra_address raw ++ pool m.
Proof.
  induction raw as [|a raw IH]; intros m; cbn [fold_left map]; [done|]. rewrite IH. unfold by_index. destruct (m !! ra_index a) as [l|] eqn:E.
  - rewrite <- insert_delete_eq, pool_insert by apply lookup_delete_eq. rewrite (pool_delete m _ l E). solve_Permutation.
  - rewrite pool_insert by done. cbn. solve_Permutation.
Qed.

Lemma by_index_sound raw : forall m i l a, fold_left by_index raw m !! i = Some l -> a ∈ l -> mkRawAddress i a ∈ raw \/ exists l', m !! i = Some l' /\ a ∈ l'.
Proof.
  induction raw as [|[j b] raw IH]; intros m i l a; cbn [fold_left]; [eauto|]. intros H Ha. destruct (IH _ _ _ _ H Ha) as [Hin|(l' & Hl & Hin)]; [left; set_solver|].
  unfold by_index in Hl. cbn in Hl. apply lookup_insert_Some in Hl as [[-> <-]|[_ Hl]]; [|eauto]. apply elem_of_app in Hin as [Hin|Hin].
  - destruct (m !! i) as [l'|]; [eauto|by apply elem_of_nil in Hin].
  - apply list_elem_of_singleton in Hin as ->. left. set_solver.
Qed.

Lemma attach_spec ifs : forall m r unused, attach ifs m = (r, unused) ->
  concat (map ni_addresses r) ++ pool unused ≡ₚ pool m /\
  Forall2 (fun i n => exists l, n = with_addresses i l /\ (l = [] \/ m !! ri_index i = Some l)) ifs r.
Proof.
  induction ifs as [|i ifs IH]; intros m r unused; cbn [attach]; [intros [= <- <-]; split; [done|constructor]|].
  destruct (attach ifs (delete (ri_index i) m)) as [r' unused'] eqn:E. intros [= <- <-]. apply IH in E as [H1 H2]. split.
  - cbn [map concat with_addresses ni_addresses]. rewrite sort_by_key_perm, <- app_assoc, H1. destruct (m !! ri_index i) as [l|] eqn:Em; [by rewrite (pool_delete m _ l Em)|].
    by rewrite delete_id.
  - constructor; [destruct (m !! ri_index i) as [l|] eqn:Em; [by exists l; auto|by exists []; auto]|]. eapply Forall2_impl; [|exact H2].
    intros j n (l & -> & [->|Hl]); [by exists []; auto|]. exists l. split; [done|]. right. by apply lookup_delete_Some in Hl as [_ Hl].
Qed.

Section honest.
Context {W : Type}.
Variable interfaces : Run W (result (list RawInterface) IoError).
Variable addresses : Run W (result (list RawAddress) IoError).

(** What one pair of dumps makes: within the limits, every interface with its own fields,
    every address once and on an interface with its index. *)
Definition faithful (ifs : list RawInterface) (raw : list RawAddress) (r : list NetworkInterface) : Prop :=
  zlength ifs <= MAX_INTERFACES /\ zlength raw <= MAX_ADDRESSES /\ StronglySorted (in_order interface_key) r /\
  concat (map ni_addresses r) ≡ₚ map ra_address raw /\
  (exists built, r ≡ₚ built /\ Forall2 (fun i n => exists l, n = with_addresses i l) ifs built) /\
  Forall (fun n => Forall (fun a => mkRawAddress (ni_index n) a ∈ raw) (ni_addresses n)) r.

Lemma snapshot_faithful s s' r : snapshot interfaces addresses s = (s', Ok r) ->
  exists s1 ifs raw, interfaces s = (s1, Ok ifs) /\ addresses s1 = (s', Ok raw) /\ faithful ifs raw r.
Proof.
  unfold snapshot. intros (s1 & ifs & E1 & H)%st_bind_inv. destruct (Z.ltb_spec MAX_INTERFACES (zlength ifs)) as [|L1]; [done|].
  apply st_bind_inv in H as (s2 & raw & E2 & H). destruct (Z.ltb_spec MAX_ADDRESSES (zlength raw)) as [|L2]; [done|].
  destruct (attach ifs (fold_left by_index raw ∅)) as [built unused] eqn:Ea. destruct (bool_decide_reflect (unused = ∅)) as [->|]; [|done]. injection H as <- <-.
  exists s1, ifs, raw. split; [done|]. split; [done|]. apply attach_spec in Ea as [H1 H2]. unfold faithful.
  assert (concat (map ni_addresses built) ≡ₚ map ra_address raw) as Hall.
  { rewrite pool_by_index in H1. unfold pool in H1. rewrite map_to_list_empty in H1. cbn in H1. by rewrite !app_nil_r in H1. }
  split; [done|]. split; [done|]. split; [apply sort_by_key_sorted|]. split; [by rewrite sort_by_key_perm|]. split.
  { exists built. split; [apply sort_by_key_perm|]. eapply Forall2_impl; [|exact H2]. intros i n (l & -> & _). by exists l. }
  rewrite sort_by_key_perm. apply list.Forall_forall. intros n Hn. apply list_elem_of_lookup in Hn as (k & Hk).
  apply (Forall2_lookup_r _ _ _ _ _ H2) in Hk as (i & _ & l & -> & Hl). cbn [ni_addresses with_addresses ni_index]. rewrite sort_by_key_perm.
  destruct Hl as [->|Hl]; [constructor|]. apply list.Forall_forall. intros a Ha. destruct (by_index_sound raw ∅ _ _ _ Hl Ha) as [|(l' & H & _)]; [done|]. by rewrite lookup_empty in H.
Qed.

Lemma attempts_spec n : forall previous last s s' r, attempts interfaces addresses n previous last s = (s', Ok r) ->
  (previous = Some r /\ snapshot interfaces addresses s = (s', Ok r)) \/
  exists s1 s2, snapshot interfaces addresses s1 = (s2, Ok r) /\ snapshot interfaces addresses s2 = (s', Ok r).
Proof.
  induction n as [|n IH]; intros previous last s s' r; cbn [attempts]; [done|]. destruct (snapshot interfaces addresses s) as [s1 [cur|e]] eqn:E.
  - case_bool_decide as Hp; [intros [= <- <-]; by left|]. intros [[[= ->] H]|H]%IH; right; eauto.
  - case_bool_decide; [|done]. intros [[[=] _]|Hs]%IH. by right.
Qed.

(** C16. A snapshot of the host's network is reported only if two adjacent pairs of dumps
    agreed on it exactly: it has the interfaces of the dump, every address of it once and
    on an interface with that address's index, in order and within the limits.  So an
    interface that comes or goes between two dumps never loses or misplaces an address. *)
Theorem network_snapshot_is_stable (s s' : W) (r : list NetworkInterface) : stable_snapshot interfaces addresses s = (s', Ok r) ->
  exists s1 s2 ifs1 raw1 ifs2 raw2, 
    (exists t, interfaces s1 = (t, Ok ifs1) /\ addresses t = (s2, Ok raw1)) /\ (exists t, interfaces s2 = (t, Ok ifs2) /\ addresses t = (s', Ok raw2)) /\
    faithful ifs1 raw1 r /\ faithful ifs2 raw2 r.
Proof.
  unfold stable_snapshot. intros [[[=] _]|(s1 & s2 & H1 & H2)]%attempts_spec.
  apply snapshot_faithful in H1 as (t1 & i1 & r1 & A1 & B1 & F1). apply snapshot_faithful in H2 as (t2 & i2 & r2 & A2 & B2 & F2).
  exists s1, s2, i1, r1, i2, r2. eauto 10.
Qed.
End honest.

Definition demo_address : NetworkAddress := mkNetworkAddress (V4 192 0 2 1) 24 FamilyIpv4.
Lemma network_snapshot_is_stable_witness : exists r,
  stable_snapshot (W := unit) (fun s => (s, Ok [mkRawInterface (lit "eth0") 2 None 1500 true true false])) (fun s => (s, Ok [mkRawAddress 2 demo_address])) tt = (tt, Ok r) /\
  exists ifs raw, faithful ifs raw r.
Proof.
  eexists. split; [vm_compute; reflexivity|].
  edestruct (network_snapshot_is_stable (W := unit) (fun s => (s, Ok [mkRawInterface (lit "eth0") 2 None 1500 true true false])) (fun s => (s, Ok [mkRawAddress 2 demo_address])) tt tt)
    as (s1 & s2 & ifs1 & raw1 & ifs2 & raw2 & _ & _ & H & _); [vm_compute; reflexivity|].
  exists ifs1, raw1. exact H.
Defined.
