(* ===== verification/SnmpConfig.v ===== *)
(** * snmp/config.rs: SNMP poller modules, and what all poller modules share

    Targets, collector IDs and the checks of a list of modules are used by the
    gNMI and BMC configurations too.  [debug] is the standard library's [{:?}] of
    a text, which only shapes error messages. *)

From Stdlib Require Import String.
From S2P Require Import Prelude Text.

Record Intervals := mkIntervals { interval_default : Z; interval_min : Z }.

Definition SWITCH_INTERVALS : Intervals := mkIntervals 900 60.
Definition SNMP_PORT : Z := 161.
Definition TIMEOUT_DEFAULT : Z := 5.
Definition TIMEOUT_MAX : Z := 60.
Definition CONCURRENCY_DEFAULT : Z := 4.
Definition CONCURRENCY_MAX : Z := 32.
Definition COLLECTOR_ID_MAX : Z := 64.
Definition TARGETS_MAX : Z := 1000.
Definition TARGET_ADDRESS_MAX : Z := 255.
Definition U16_MAX : Z := 65535.

(** A device address and UDP port, as configured. *)
Record Target := mkTarget { address : bytes; host : bytes; port : Z }.

#[export] Instance Target_eq_dec : EqDecision Target.
Proof. solve_decision. Defined.

Inductive AuthProtocol := Md5 | Sha | Sha224 | Sha256 | Sha384 | Sha512.
Inductive PrivacyProtocol := Des | Aes128 | Aes192 | Aes256.

Inductive Credentials :=
| V3 (username : bytes) (auth_protocol : AuthProtocol) (auth_password_file : bytes)
     (privacy_protocol : PrivacyProtocol) (privacy_password_file : bytes)
| V2c (community_file : bytes).

Record SnmpCollector := mkSnmp {
  snmp_id : bytes;
  snmp_targets : list Target;
  snmp_credentials : Credentials;
  snmp_interval : Z;
  snmp_timeout : Z;
  snmp_max_concurrent_targets : Z }.

Record RawSnmpCollector := mkRawSnmp {
  raw_id : option bytes;
  raw_targets : option (list bytes);
  raw_version : option bytes;
  raw_allow_v2c : option bool;
  raw_username : option bytes;
  raw_auth_protocol : option AuthProtocol;
  raw_auth_password_file : option bytes;
  raw_privacy_protocol : option PrivacyProtocol;
  raw_privacy_password_file : option bytes;
  raw_community_file : option bytes;
  raw_interval_seconds : option Z;
  raw_timeout_seconds : option Z;
  raw_max_concurrent_targets : option Z }.

Definition unwrap_or {A} (o : option A) (default : A) : A := match o with Some a => a | None => default end.
Definition is_some {A} (o : option A) : bool := match o with Some _ => true | None => false end.
(** [.filter(|value| !value.trim().is_empty())]. *)
Definition not_blank (o : option bytes) : option bytes :=
  let+ v := o in if bool_decide (trim v = []) then None else Some v.
Definition is_ascii_alphanumeric (b : Z) : bool := is_ascii_alphabetic b || is_ascii_digit b.
(** [(low..=high).contains(&n)]. *)
Definition within (low high n : Z) : bool := (low <=? n) && (n <=? high).

(** A text in double quotes. *)
Definition quoted (s : string) : bytes := 34 :: lit s ++ [34].

Definition valid_collector_id (id : bytes) : bool :=
  negb (bool_decide (id = []))
  && (zlength id <=? COLLECTOR_ID_MAX)
  && match head id with Some b => is_ascii_alphanumeric b | None => false end
  && match last_opt id with Some b => is_ascii_alphanumeric b | None => false end
  && forallb (fun b => is_ascii_alphanumeric b || (b =? 46) || (b =? 95) || (b =? 45)) id.

Definition id_message : bytes :=
  lit "id must be 1-64 letters, digits, '.', '_', or '-', starting and ending with a letter or digit".

(** [Target::parse_with_default_port]: [host], [host:port], an IPv6 literal, or
    [[ipv6]:port]. *)
Definition parse_with_default_port (addr : bytes) (default_port : Z) : option Target :=
  let trimmed := trim addr in
  if bool_decide (trimmed = []) || negb (str_eqb trimmed addr) || (TARGET_ADDRESS_MAX <? chars_count addr)
  then None
  else
    let+ hp :=
      match strip_prefix (lit "[") trimmed with
      | Some rest =>
          let+ hr := split_once 93 rest in
          let+ port :=
            match snd hr with
            | [] => Some default_port
            | rest => let+ p := strip_prefix (lit ":") rest in parse_uint U16_MAX p
            end in
          Some (fst hr, port)
      | None =>
          if Nat.ltb 1 (count_occ Z.eq_dec trimmed 58) then Some (trimmed, default_port)
          else
            match split_once 58 trimmed with
            | Some (host, p) => let+ port := parse_uint U16_MAX p in Some (host, port)
            | None => Some (trimmed, default_port)
            end
      end in
    let '(host, port) := hp in
    if bool_decide (host = []) || (port =? 0) || existsb is_whitespace_chunk (char_chunks host)
    then None
    else Some (mkTarget addr host port).

Definition parse_target (addr : bytes) : option Target := parse_with_default_port addr SNMP_PORT.

Section config.
Context (debug : bytes -> bytes).

(** [raw.into_iter().enumerate().map(..).collect()], where the closure parses an
    item and refuses one whose key was inserted in the [BTreeSet] before. *)
Fixpoint collect_distinct {R C K} `{EqDecision K} (parse : Z -> R -> result C bytes) (key : C -> K)
  (twice : Z -> R -> C -> bytes) (index : Z) (seen : list K) (raw : list R) : result (list C) bytes :=
  match raw with
  | [] => Ok []
  | r :: raw' =>
      let? c := parse index r in
      if bool_decide (key c ∈ seen) then Err (twice index r c)
      else
        let? rest := collect_distinct parse key twice (index + 1) (key c :: seen) raw' in
        Ok (c :: rest)
  end.

Definition targets (raw : list bytes) (default_port : Z) : result (list Target) bytes :=
  if bool_decide (raw = []) then Err (lit "targets must list at least one address")
  else if TARGETS_MAX <? zlength raw
  then Err (lit "targets must have at most " ++ show_u64 TARGETS_MAX ++ lit " entries")
  else collect_distinct
    (fun _ addr => ok_or (parse_with_default_port addr default_port)
                     (lit "target " ++ debug addr ++ lit " must be a host or host:port"))
    (fun target => (host target, port target))
    (fun _ addr _ => lit "target " ++ debug addr ++ lit " is listed twice") 0 [] raw.

Definition snmp_credentials_of (raw : RawSnmpCollector) : result Credentials bytes :=
  let version := unwrap_or (raw_version raw) (lit "3") in
  if str_eqb version (lit "3") then
    if is_some (raw_community_file raw) then Err (lit "community_file is only for version " ++ quoted "2c")
    else
      let? username := ok_or (not_blank (raw_username raw)) (lit "username is required for SNMPv3") in
      let? auth := ok_or (raw_auth_password_file raw) (lit "auth_password_file is required for SNMPv3") in
      let? privacy := ok_or (raw_privacy_password_file raw)
                        (lit "privacy_password_file is required for SNMPv3") in
      Ok (V3 username (unwrap_or (raw_auth_protocol raw) Sha256) auth
            (unwrap_or (raw_privacy_protocol raw) Aes128) privacy)
  else if str_eqb version (lit "2c") then
    if negb (bool_decide (raw_allow_v2c raw = Some true))
    then Err (lit "version " ++ quoted "2c" ++ lit " sends the community in clear text; set allow_v2c = true to use it")
    else if is_some (raw_username raw) || is_some (raw_auth_password_file raw)
            || is_some (raw_privacy_password_file raw)
    then Err (lit "SNMPv3 credentials are not used with version " ++ quoted "2c")
    else
      let? community := ok_or (raw_community_file raw) (lit "community_file is required for version " ++ quoted "2c") in
      Ok (V2c community)
  else Err (lit "version must be " ++ quoted "3" ++ lit " or " ++ quoted "2c" ++ lit ", not " ++ debug version).

(** The checks of intervals, timeouts and concurrency the poller modules share. *)
Definition checked_interval (value : option Z) (default min : Z) : result Z bytes :=
  let interval := unwrap_or value default in
  if interval <? min then Err (lit "interval_seconds must be at least " ++ show_u64 min)
  else Ok (from_secs interval).
Definition checked_timeout (value : option Z) (default max : Z) : result Z bytes :=
  let timeout := unwrap_or value default in
  if negb (within 1 max timeout) then Err (lit "timeout_seconds must be between 1 and " ++ show_u64 max)
  else Ok (from_secs timeout).
Definition checked_concurrency (value : option Z) (default max : Z) : result Z bytes :=
  let n := unwrap_or value default in
  if negb (within 1 max n) then Err (lit "max_concurrent_targets must be between 1 and " ++ show_u64 max)
  else Ok n.

Definition collector (raw : RawSnmpCollector) (intervals : Intervals) : result SnmpCollector bytes :=
  let? id := ok_or (raw_id raw) (lit "id is required") in
  if negb (valid_collector_id id) then Err id_message
  else
    let? ts := targets (unwrap_or (raw_targets raw) []) SNMP_PORT in
    let? credentials := snmp_credentials_of raw in
    let? interval := checked_interval (raw_interval_seconds raw) (interval_default intervals) (interval_min intervals) in
    let? timeout := checked_timeout (raw_timeout_seconds raw) TIMEOUT_DEFAULT TIMEOUT_MAX in
    let? concurrent := checked_concurrency (raw_max_concurrent_targets raw) CONCURRENCY_DEFAULT CONCURRENCY_MAX in
    Ok (mkSnmp id ts credentials interval timeout concurrent).

(** The loop over a section's tables that [from_raw_section] and the gNMI and BMC
    [from_raw] share: errors name the module by its position, and an ID is used
    once. *)
Definition each_module {R C} (section : bytes) (parse : R -> result C bytes) (id_of : C -> bytes)
  (raw : list R) : result (list C) bytes :=
  let name index := section ++ lit "[" ++ show_u64 index ++ lit "]" in
  collect_distinct (fun index r => map_err (fun error => name index ++ lit ": " ++ error) (parse r)) id_of
    (fun index _ c => name index ++ lit ": id " ++ debug (id_of c) ++ lit " is used twice") 0 [] raw.

Definition from_raw_section (raw : list RawSnmpCollector) (section : bytes) (intervals : Intervals)
  : result (list SnmpCollector) bytes :=
  each_module section (fun r => collector r intervals) snmp_id raw.

Definition from_raw (raw : list RawSnmpCollector) : result (list SnmpCollector) bytes :=
  from_raw_section raw (lit "collectors.snmp") SWITCH_INTERVALS.
End config.

(** ** What validation accepts *)

Lemma collect_distinct_spec {R C K} `{EqDecision K} (parse : Z -> R -> result C bytes) (good : R -> C -> Prop)
  (key : C -> K) twice raw :
  (forall i r c, parse i r = Ok c <-> good r c) -> (forall r c c', good r c -> good r c' -> c = c') ->
  forall index seen cs,
  collect_distinct parse key twice index seen raw = Ok cs <->
  Forall2 good raw cs /\ NoDup (map key cs) /\ Forall (fun c => key c ∉ seen) cs.
Proof.
  intros Hgood Hdet. induction raw as [|r raw IH]; intros index seen cs; cbn [collect_distinct].
  { split; [intros [= <-]; split; [constructor|]; split; constructor|]. intros (H & _). by inversion H. }
  destruct (parse index r) as [c|e] eqn:Ep; cbn [result_bind].
  2: { split; [done|]. intros (H & _). inversion H as [|? c ? cs' Hc _]; subst.
       apply (Hgood index) in Hc. congruence. }
  apply Hgood in Ep. case_bool_decide as Hin.
  { split; [done|]. intros (H & _ & Hs). inversion H as [|? c' ? cs' Hc _]; subst. inversion Hs; subst.
    by rewrite (Hdet _ _ _ Hc Ep) in *. }
  transitivity (exists rest, collect_distinct parse key twice (index + 1) (key c :: seen) raw = Ok rest /\ cs = c :: rest).
  { destruct (collect_distinct parse key twice (index + 1) _ raw) as [rest|e]; cbn [result_bind];
      [|by split; [|intros (? & ? & ?)]]. split; [intros [= <-]; eauto|by intros (? & [= ->] & ->)]. }
  setoid_rewrite IH. split.
  - intros (rest & (H2 & Hnd & Hout) & ->). rewrite List.Forall_forall in Hout.
    split; [by constructor|]. split.
    + cbn [map]. apply list.NoDup_cons. split; [|done]. intros (c' & E & Hc')%list_elem_of_fmap.
      apply (Hout c'); [by apply list_elem_of_In|]. rewrite E. set_solver.
    + constructor; [done|]. apply List.Forall_forall. intros x Hx. specialize (Hout x Hx). set_solver.
  - intros (H & Hnd & Hs). inversion H as [|? c' ? rest Hc H2]; subst. rewrite (Hdet _ _ _ Hc Ep) in *.
    exists rest. split; [|done]. cbn [map] in Hnd. apply list.NoDup_cons in Hnd as [Hni Hnd].
    inversion Hs as [|? ? _ Hs']; subst. rewrite List.Forall_forall in Hs'.
    split; [done|]. split; [done|]. apply List.Forall_forall. intros x Hx Hx'.
    apply elem_of_cons in Hx' as [E|Hx']; [|by apply (Hs' x Hx)]. apply Hni. rewrite <- E.
    apply list_elem_of_fmap_2. by apply list_elem_of_In.
Qed.

Lemma each_module_spec {R C} debug section (parse : R -> result C bytes) id_of raw cs :
  each_module debug section parse id_of raw = Ok cs <->
  Forall2 (fun r c => parse r = Ok c) raw cs /\ NoDup (map id_of cs).
Proof.
  unfold each_module. rewrite (collect_distinct_spec _ (fun r c => parse r = Ok c)).
  - split; [tauto|]. intros (? & ?). split; [done|]. split; [done|]. apply List.Forall_forall. intros x _ Hx. by inversion Hx.
  - intros i r c. destruct (parse r) as [c'|e]; cbn [map_err]; [|done]. split; intros [= ->]; done.
  - congruence.
Qed.

(** Targets are accepted exactly when there are 1 to 1,000 of them, each parses,
    and no two are the same host and port. *)
Lemma targets_spec debug raw default_port ts :
  targets debug raw default_port = Ok ts <->
  1 <= zlength raw <= TARGETS_MAX /\
  Forall2 (fun addr t => parse_with_default_port addr default_port = Some t) raw ts /\
  NoDup (map (fun t => (host t, port t)) ts).
Proof.
  unfold targets. case_bool_decide as Hne.
  { subst. split; [done|]. intros [[H _] _]. by vm_compute in H. }
  destruct (Z.ltb_spec TARGETS_MAX (zlength raw)).
  { split; [done|]. intros [? _]. lia. }
  assert (1 <= zlength raw) by (destruct raw; [done|unfold zlength; simpl; lia]).
  rewrite (collect_distinct_spec _ (fun addr t => parse_with_default_port addr default_port = Some t)).
  - split; [tauto|]. intros (_ & ? & ?). split; [done|]. split; [done|].
    apply List.Forall_forall. intros x _ Hx. by inversion Hx.
  - intros i r c. destruct (parse_with_default_port r default_port) as [c'|]; cbn [ok_or]; [|done].
    split; intros [= ->]; done.
  - congruence.
Qed.

(** What every accepted SNMP or PDU module satisfies. *)
Definition snmp_ok (intervals : Intervals) (c : SnmpCollector) : Prop :=
  valid_collector_id (snmp_id c) = true /\
  1 <= zlength (snmp_targets c) <= TARGETS_MAX /\ NoDup (map (fun t => (host t, port t)) (snmp_targets c)) /\
  from_secs (interval_min intervals) <= snmp_interval c /\
  from_secs 1 <= snmp_timeout c <= from_secs TIMEOUT_MAX /\
  1 <= snmp_max_concurrent_targets c <= CONCURRENCY_MAX.

Lemma checked_timeout_spec value default max t :
  checked_timeout value default max = Ok t -> from_secs 1 <= t <= from_secs max.
Proof.
  unfold checked_timeout, within. destruct (_ && _) eqn:E; cbn [negb]; [|done]. intros [= <-]. bool_simpl.
  unfold from_secs, NANOS. lia.
Qed.

Lemma checked_interval_spec value default min t :
  checked_interval value default min = Ok t -> from_secs min <= t.
Proof.
  unfold checked_interval. destruct (Z.ltb_spec (unwrap_or value default) min); [done|]. intros [= <-].
  unfold from_secs, NANOS. lia.
Qed.

Lemma checked_concurrency_spec value default max n :
  checked_concurrency value default max = Ok n -> 1 <= n <= max.
Proof. unfold checked_concurrency, within. destruct (_ && _) eqn:E; cbn [negb]; [|done]. intros [= <-]. bool_simpl. lia. Qed.

Lemma targets_ok debug raw p ts :
  targets debug raw p = Ok ts ->
  1 <= zlength ts <= TARGETS_MAX /\ NoDup (map (fun t => (host t, port t)) ts).
Proof.
  intros (Hl & H2 & Hnd)%targets_spec. split; [|done]. apply Forall2_length in H2. unfold zlength in *. lia.
Qed.

Lemma snmp_collector_ok debug raw intervals c : collector debug raw intervals = Ok c -> snmp_ok intervals c.
Proof.
  unfold collector. destruct (raw_id raw) as [id|]; cbn [ok_or result_bind]; [|done].
  destruct (valid_collector_id id) eqn:Hid; cbn [negb]; [|done].
  destruct (targets _ _ _) as [ts|] eqn:Et; cbn [result_bind]; [|done].
  destruct (snmp_credentials_of debug raw) as [cr|]; cbn [result_bind]; [|done].
  destruct (checked_interval _ _ _) as [iv|] eqn:Ei; cbn [result_bind]; [|done].
  destruct (checked_timeout _ _ _) as [tm|] eqn:Em; cbn [result_bind]; [|done].
  destruct (checked_concurrency _ _ _) as [cc|] eqn:Ec; cbn [result_bind]; [|done]. intros [= <-].
  apply targets_ok in Et as [? ?]. unfold snmp_ok. cbn [snmp_id snmp_targets snmp_interval snmp_timeout snmp_max_concurrent_targets].
  eauto 10 using checked_interval_spec, checked_timeout_spec, checked_concurrency_spec.
Qed.

(** ** Targets as operators write them *)

Lemma visible_app s t : visible s -> visible t -> visible (s ++ t).
Proof. intros ? ?. by apply Forall_app. Qed.

Lemma visible_show n : visible (show_u64 n).
Proof.
  eapply Forall_impl; [|apply show_u64_digits]. intros b H. unfold is_ascii_digit in H. bool_simpl. lia.
Qed.

Lemma visible_no_whitespace s : visible s -> existsb is_whitespace_chunk (char_chunks s) = false.
Proof.
  intros Hs. rewrite char_chunks_ascii by (by apply visible_ascii). pose proof (visible_chunks s Hs) as Hc.
  destruct (existsb _ _) eqn:E; [|done]. apply existsb_exists in E as (c & Hin & Hw).
  rewrite List.Forall_forall in Hc. by rewrite Hc in Hw.
Qed.

Lemma show_no_colon n : 58 ∉ show_u64 n.
Proof.
  intros Hin%list_elem_of_In. pose proof (show_u64_digits n) as H. rewrite List.Forall_forall in H.
  apply H in Hin. done.
Qed.

Lemma length_show n : (length (show_u64 n) <= 20)%nat.
Proof.
  unfold show_u64. assert (forall s, (length (strip_zeros s) <= length s)%nat) as H.
  { induction s as [|b [|x s] IH]; [done|done|]. cbn [strip_zeros]. destruct (b =? 48); [|done].
    cbn [strip_zeros] in IH. simpl in *. lia. }
  pose proof (H (digits 20 n)) as Hl. by rewrite length_digits in Hl.
Qed.

(** The checks on a whole address of visible characters come down to its length. *)
Lemma parse_visible addr :
  visible addr -> addr <> [] -> zlength addr <= TARGET_ADDRESS_MAX ->
  bool_decide (trim addr = []) || negb (str_eqb (trim addr) addr) || (TARGET_ADDRESS_MAX <? chars_count addr) = false.
Proof.
  intros Hv Hne Hl. rewrite trim_visible, str_eqb_refl by done. rewrite bool_decide_eq_false_2 by done.
  unfold chars_count. rewrite char_chunks_ascii by (by apply visible_ascii).
  unfold zlength in *. rewrite length_map. cbn [negb orb]. apply Z.ltb_ge. lia.
Qed.

Lemma count_colons s t : 58 ∉ s -> 58 ∉ t -> count_occ Z.eq_dec (s ++ 58 :: t) 58 = 1%nat.
Proof.
  intros Hs Ht. rewrite count_occ_app. cbn [count_occ]. destruct (Z.eq_dec 58 58); [|done].
  rewrite !(proj1 (count_occ_not_In Z.eq_dec _ _)); [done| |]; rewrite <- list_elem_of_In; done.
Qed.

(** Targets as operators write them are understood: a host name and port, a
    host name alone with the protocol's port, an IPv6 address in brackets with a
    port, and an IPv6 address alone, each keep exactly that host and port and the
    address as written. *)
Theorem target_forms_understood (h : bytes) (p default_port : Z) :
  visible h -> h <> [] -> zlength h <= 230 -> 1 <= p <= U16_MAX -> 1 <= default_port <= U16_MAX ->
  let host_port := h ++ lit ":" ++ show_u64 p in
  let bracketed := lit "[" ++ h ++ lit "]:" ++ show_u64 p in
  (58 ∉ h -> head h <> Some 91 ->
     parse_with_default_port host_port default_port = Some (mkTarget host_port h p) /\
     parse_with_default_port h default_port = Some (mkTarget h h default_port)) /\
  (93 ∉ h -> parse_with_default_port bracketed default_port = Some (mkTarget bracketed h p)) /\
  (Nat.ltb 1 (count_occ Z.eq_dec h 58) = true -> head h <> Some 91 ->
     parse_with_default_port h default_port = Some (mkTarget h h default_port)).
Proof.
  intros Hv Hne Hl Hp Hd host_port bracketed. pose proof (length_show p) as Hsp.
  assert (forall q, 1 <= q <= U16_MAX ->
    bool_decide (h = []) || (q =? 0) || existsb is_whitespace_chunk (char_chunks h) = false) as Hfinal.
  { intros q Hq. rewrite bool_decide_eq_false_2, visible_no_whitespace by done.
    rewrite (proj2 (Z.eqb_neq q 0)) by lia. done. }
  assert (head h <> Some 91 -> forall r, strip_prefix (lit "[") (h ++ r) = None) as Hbr.
  { intros Hh r. destruct h as [|x h']; [done|]. change (lit "[") with [91]. cbn [app strip_prefix].
    destruct (Z.eqb_spec 91 x) as [<-|]; [done|done]. }
  assert (parse_uint U16_MAX (show_u64 p) = Some p) as Hport
    by (apply parse_uint_show; unfold U16_MAX in *; lia).
  assert (head h <> Some 91 -> (58 ∉ h \/ Nat.ltb 1 (count_occ Z.eq_dec h 58) = true) ->
    parse_with_default_port h default_port = Some (mkTarget h h default_port)) as Halone.
  { intros Hh Hc. unfold parse_with_default_port. rewrite parse_visible by (done || unfold TARGET_ADDRESS_MAX; lia).
    cbv zeta. rewrite trim_visible by done. specialize (Hbr Hh []). rewrite app_nil_r in Hbr. rewrite Hbr.
    assert ((if Nat.ltb 1 (count_occ Z.eq_dec h 58) then Some (h, default_port)
             else match split_once 58 h with
                  | Some (host, q) => let+ port := parse_uint U16_MAX q in Some (host, port)
                  | None => Some (h, default_port)
                  end) = Some (h, default_port)) as ->.
    { destruct Hc as [Hc|Hc]; [|by rewrite Hc].
      rewrite (proj1 (count_occ_not_In Z.eq_dec _ _)) by (by rewrite <- list_elem_of_In). cbn [Nat.ltb Nat.leb].
      destruct (split_once 58 h) as [[a b]|] eqn:E; [|done]. apply split_once_Some in E as [E _].
      exfalso. apply Hc. rewrite E. apply elem_of_app. right. apply elem_of_cons. by left. }
    cbn [mbind option_bind]. by rewrite Hfinal. }
  split; [|split].
  - intros Hc Hh. split; [|by apply Halone; [|left]]. unfold parse_with_default_port, host_port.
    assert (visible (h ++ lit ":" ++ show_u64 p)) as Hv'.
    { repeat apply visible_app; [done|by repeat constructor|apply visible_show]. }
    rewrite parse_visible.
    2: done.
    2: by destruct h.
    2: { unfold zlength, TARGET_ADDRESS_MAX in *. rewrite !length_app.
         change (length (lit ":")) with 1%nat. lia. }
    cbv zeta. rewrite trim_visible by done. rewrite Hbr by done.
    change (lit ":" ++ show_u64 p) with (58 :: show_u64 p).
    rewrite count_colons by (done || apply show_no_colon). cbn [Nat.ltb Nat.leb].
    rewrite split_once_app by done. rewrite Hport. cbn [mbind option_bind]. by rewrite Hfinal.
  - intros Hc. unfold parse_with_default_port, bracketed.
    assert (visible (lit "[" ++ h ++ lit "]:" ++ show_u64 p)) as Hv'.
    { repeat apply visible_app; [by repeat constructor|done|by repeat constructor|apply visible_show]. }
    rewrite parse_visible; [|done|done|].
    2: { unfold zlength, TARGET_ADDRESS_MAX in *. rewrite !length_app.
         change (length (lit "[")) with 1%nat. change (length (lit "]:")) with 2%nat. lia. }
    cbv zeta. rewrite trim_visible by done. rewrite strip_prefix_app.
    change (lit "]:" ++ show_u64 p) with (93 :: lit ":" ++ show_u64 p). rewrite split_once_app by done.
    cbn [mbind option_bind fst snd]. change (lit ":" ++ show_u64 p) with (58 :: show_u64 p). cbv iota.
    change (strip_prefix (lit ":") (58 :: show_u64 p)) with (Some (show_u64 p)). cbn [mbind option_bind].
    rewrite Hport. cbn [mbind option_bind]. by rewrite Hfinal.
  - intros Hc Hh. by apply Halone; [|right].
Qed.

Lemma target_forms_understood_witness :
  parse_target (lit "switch-1:1161") = Some (mkTarget (lit "switch-1:1161") (lit "switch-1") 1161) /\
  parse_target (lit "[fe80::1]:162") = Some (mkTarget (lit "[fe80::1]:162") (lit "fe80::1") 162).
Proof.
  assert (forall s : bytes, forallb (fun b => (33 <=? b) && (b <? 128)) s = true -> visible s) as Hvis.
  { intros s H. apply List.Forall_forall. intros b Hb. rewrite forallb_forall in H. apply H in Hb.
    apply andb_true_iff in Hb as [?%Z.leb_le ?%Z.ltb_lt]. lia. }
  split.
  - destruct (target_forms_understood (lit "switch-1") 1161 SNMP_PORT) as [H _];
      [by apply Hvis|done|by vm_compute|by vm_compute|by vm_compute|].
    refine (proj1 (H _ _)); [|discriminate]. apply (bool_decide_unpack _). by vm_compute.
  - destruct (target_forms_understood (lit "fe80::1") 162 SNMP_PORT) as (_ & H & _);
      [by apply Hvis|done|by vm_compute|by vm_compute|by vm_compute|].
    apply H. apply (bool_decide_unpack _). by vm_compute.
Defined.
