(* ===== verification/GnmiConfig.v ===== *)
(** * gnmi/config.rs: gNMI poller modules

    Whether a text is a TLS server name is [rustls::pki_types]' to say. *)

From Stdlib Require Import String.
From S2P Require Import Prelude Text SnmpConfig.

Definition GNMI_PORT : Z := 9339.
Definition INTERVAL_DEFAULT : Z := 900.
Definition INTERVAL_MIN : Z := 60.
Definition TIMEOUT_DEFAULT : Z := 10.
Definition TIMEOUT_MAX : Z := 120.
Definition CONCURRENCY_DEFAULT : Z := 4.
Definition CONCURRENCY_MAX : Z := 32.

Record Credentials := mkCredentials { username : bytes; password_file : bytes }.
Record ClientIdentity := mkClientIdentity { cert_file : bytes; key_file : bytes }.

Inductive Transport :=
| Tls (ca_file : option bytes) (client_identity : option ClientIdentity) (server_name : option bytes)
| Plaintext.

Record GnmiCollector := mkGnmi {
  gnmi_id : bytes;
  gnmi_targets : list Target;
  gnmi_credentials : option Credentials;
  gnmi_transport : Transport;
  gnmi_interval : Z;
  gnmi_timeout : Z;
  gnmi_max_concurrent_targets : Z }.

Record RawGnmiCollector := mkRawGnmi {
  rg_id : option bytes;
  rg_targets : option (list bytes);
  rg_username : option bytes;
  rg_password_file : option bytes;
  rg_tls_ca_file : option bytes;
  rg_tls_client_cert_file : option bytes;
  rg_tls_client_key_file : option bytes;
  rg_tls_server_name : option bytes;
  rg_allow_plaintext : option bool;
  rg_interval_seconds : option Z;
  rg_timeout_seconds : option Z;
  rg_max_concurrent_targets : option Z }.

Section config.
Context (debug : bytes -> bytes) (server_name_valid : bytes -> bool).

Definition credentials_of (raw : RawGnmiCollector) : result (option Credentials) bytes :=
  match rg_username raw, rg_password_file raw with
  | Some u, Some f =>
      if bool_decide (trim u = []) then Err (lit "username and password_file must be set together")
      else Ok (Some (mkCredentials u f))
  | None, None => Ok None
  | _, _ => Err (lit "username and password_file must be set together")
  end.

Definition transport_of (raw : RawGnmiCollector) : result Transport bytes :=
  if bool_decide (rg_allow_plaintext raw = Some true) then
    if is_some (rg_tls_ca_file raw) || is_some (rg_tls_client_cert_file raw)
       || is_some (rg_tls_client_key_file raw) || is_some (rg_tls_server_name raw)
    then Err (lit "TLS settings are not used with allow_plaintext = true")
    else Ok Plaintext
  else
    let? client_identity :=
      match rg_tls_client_cert_file raw, rg_tls_client_key_file raw with
      | Some c, Some k => Ok (Some (mkClientIdentity c k))
      | None, None => Ok None
      | _, _ => Err (lit "tls_client_cert_file and tls_client_key_file must be set together")
      end in
    let? server_name :=
      match rg_tls_server_name raw with
      | Some name =>
          if server_name_valid name then Ok (Some name)
          else Err (lit "tls_server_name " ++ debug name ++ lit " is not a host name or address")
      | None => Ok None
      end in
    Ok (Tls (rg_tls_ca_file raw) client_identity server_name).

Definition collector (raw : RawGnmiCollector) : result GnmiCollector bytes :=
  let? id := ok_or (rg_id raw) (lit "id is required") in
  if negb (valid_collector_id id) then Err id_message
  else
    let? ts := targets debug (unwrap_or (rg_targets raw) []) GNMI_PORT in
    let? credentials := credentials_of raw in
    let? transport := transport_of raw in
    let? interval := checked_interval (rg_interval_seconds raw) INTERVAL_DEFAULT INTERVAL_MIN in
    let? timeout := checked_timeout (rg_timeout_seconds raw) TIMEOUT_DEFAULT TIMEOUT_MAX in
    let? concurrent := checked_concurrency (rg_max_concurrent_targets raw) CONCURRENCY_DEFAULT CONCURRENCY_MAX in
    Ok (mkGnmi id ts credentials transport interval timeout concurrent).

Definition from_raw (raw : list RawGnmiCollector) : result (list GnmiCollector) bytes :=
  each_module debug (lit "collectors.gnmi") collector gnmi_id raw.
End config.

(** What every accepted gNMI module satisfies: bounds, and no clear-text transport
    that was not asked for. *)
Definition gnmi_ok (raw : RawGnmiCollector) (c : GnmiCollector) : Prop :=
  valid_collector_id (gnmi_id c) = true /\
  1 <= zlength (gnmi_targets c) <= TARGETS_MAX /\ NoDup (map (fun t => (host t, port t)) (gnmi_targets c)) /\
  from_secs INTERVAL_MIN <= gnmi_interval c /\
  from_secs 1 <= gnmi_timeout c <= from_secs TIMEOUT_MAX /\
  1 <= gnmi_max_concurrent_targets c <= CONCURRENCY_MAX /\
  (gnmi_transport c = Plaintext -> rg_allow_plaintext raw = Some true).

Lemma gnmi_collector_ok debug server_name_valid raw c :
  collector debug server_name_valid raw = Ok c -> gnmi_ok raw c.
Proof.
  unfold collector. destruct (rg_id raw) as [id|]; cbn [ok_or result_bind]; [|done].
  destruct (valid_collector_id id) eqn:Hid; cbn [negb]; [|done].
  destruct (targets _ _ _) as [ts|] eqn:Et; cbn [result_bind]; [|done].
  destruct (credentials_of raw) as [cr|]; cbn [result_bind]; [|done].
  destruct (transport_of _ _ raw) as [tr|] eqn:Etr; cbn [result_bind]; [|done].
  destruct (checked_interval _ _ _) as [iv|] eqn:Ei; cbn [result_bind]; [|done].
  destruct (checked_timeout _ _ _) as [tm|] eqn:Em; cbn [result_bind]; [|done].
  destruct (checked_concurrency _ _ _) as [cc|] eqn:Ec; cbn [result_bind]; [|done]. intros [= <-].
  apply targets_ok in Et as [? ?]. unfold gnmi_ok.
  cbn [gnmi_id gnmi_targets gnmi_interval gnmi_timeout gnmi_max_concurrent_targets gnmi_transport].
  do 6 (split; [eauto using checked_interval_spec, checked_timeout_spec, checked_concurrency_spec|]).
  intros ->. revert Etr. unfold transport_of. case_bool_decide as Hp; [done|].
  destruct (match rg_tls_client_cert_file raw with Some _ => _ | None => _ end) as [ci|]; cbn [result_bind]; [|done].
  destruct (match rg_tls_server_name raw with Some _ => _ | None => _ end) as [sn|]; cbn [result_bind]; done.
Qed.
