(* ===== verification/LibvirtConfig.v ===== *)
(** * libvirt/config.rs: the hypervisor module *)

From Stdlib Require Import String.
From S2P Require Import Prelude Text SnmpConfig.

Definition ID_DEFAULT : bytes := lit "libvirt".
Definition URI_DEFAULT : bytes := lit "qemu:///system".
Definition INTERVAL_DEFAULT : Z := 300.
Definition INTERVAL_MIN : Z := 60.
Definition TIMEOUT_DEFAULT : Z := 10.
Definition TIMEOUT_MAX : Z := 60.
Definition URI_MAX : Z := 255.

Record LibvirtCollector := mkLibvirt {
  libvirt_id : bytes;
  libvirt_uri : bytes;
  libvirt_interval : Z;
  libvirt_timeout : Z }.

Record RawLibvirtCollector := mkRawLibvirt {
  rl_id : option bytes;
  rl_uri : option bytes;
  rl_interval_seconds : option Z;
  rl_timeout_seconds : option Z }.

(** [char::to_digit(16)] of an ASCII byte. *)
Definition hex_value (b : Z) : option Z :=
  if is_ascii_digit b then Some (b - 48)
  else if (97 <=? b) && (b <=? 102) then Some (b - 87)
  else if (65 <=? b) && (b <=? 70) then Some (b - 55)
  else None.

(** [u8::from_str_radix(pair, 16)] of two bytes; the standard library takes a
    leading plus sign. *)
Definition from_hex_pair (a b : Z) : option Z :=
  if a =? 43 then hex_value b
  else let+ x := hex_value a in let+ y := hex_value b in Some (16 * x + y).

(** The loop of [percent_decode]. *)
Fixpoint decode_escapes (s : bytes) : option bytes :=
  match s with
  | [] => Some []
  | 37 :: s' =>
      match s' with
      | a :: b :: rest =>
          let+ x := from_hex_pair a b in let+ decoded := decode_escapes rest in Some (x :: decoded)
      | _ => None
      end
  | c :: s' => let+ decoded := decode_escapes s' in Some (c :: decoded)
  end.

Definition percent_decode (text : bytes) : option bytes :=
  let+ decoded := decode_escapes text in from_utf8 decoded.

(** [str::rsplit_once] of an ASCII character. *)
Definition rsplit_once (c : Z) (s : bytes) : option (bytes * bytes) :=
  let+ ab := split_once c (rev s) in Some (rev (snd ab), rev (fst ab)).

(** [query.split(['&', ';'])]. *)
Definition split_parameters (query : bytes) : list bytes :=
  concat (map (split_on 59) (split_on 38 query)).

(** [text.split(c).next().unwrap_or("")]. *)
Definition before (c : Z) (s : bytes) : bytes := match split_on c s with p :: _ => p | [] => [] end.

Definition SECRET_WORDS : list bytes := [lit "pass"; lit "secret"; lit "token"].

Definition names_secret (parameter : bytes) : bool :=
  match percent_decode (before 61 parameter) with
  | None => true
  | Some name => existsb (fun word => contains_sub word (to_ascii_lowercase name)) SECRET_WORDS
  end.

Definition carries_secret (uri : bytes) : bool :=
  let '(before_query, query) := match split_once 63 uri with Some bq => bq | None => (uri, []) end in
  let authority := match split_once_str (lit "://") before_query with
                   | Some (_, rest) => before 47 rest
                   | None => []
                   end in
  let password := match rsplit_once 64 authority with
                  | Some (userinfo, _) =>
                      match percent_decode userinfo with
                      | None => true
                      | Some user => existsb (Z.eqb 58) user
                      end
                  | None => false
                  end in
  password || existsb names_secret (split_parameters query).

Definition collector (raw : RawLibvirtCollector) : result LibvirtCollector bytes :=
  let id := unwrap_or (rl_id raw) ID_DEFAULT in
  if negb (valid_collector_id id) then Err id_message
  else
    let uri := unwrap_or (rl_uri raw) URI_DEFAULT in
    if bool_decide (trim uri = []) || negb (str_eqb (trim uri) uri) || (URI_MAX <? zlength uri)
    then Err (lit "uri must be 1-255 characters without surrounding whitespace")
    else if starts_with (lit "-") uri then Err (lit "uri must not start with '-'")
    else if carries_secret uri
    then Err (lit "uri must not carry a password or secret; keep credentials in libvirt's own authentication files")
    else
      let? interval := checked_interval (rl_interval_seconds raw) INTERVAL_DEFAULT INTERVAL_MIN in
      let? timeout := checked_timeout (rl_timeout_seconds raw) TIMEOUT_DEFAULT TIMEOUT_MAX in
      Ok (mkLibvirt id uri interval timeout).

Definition from_raw (raw : option RawLibvirtCollector) : result (option LibvirtCollector) bytes :=
  match raw with
  | None => Ok None
  | Some r => map_err (fun error => lit "collectors.libvirt: " ++ error) (let? c := collector r in Ok (Some c))
  end.
