(* ===== verification/Routes.v ===== *)
(** * jobs/queries/routes.rs: the routing tables

    [ip] prints tables by name where [rt_tables] names them; the files it may read are an
    argument ([TableFiles]). *)

From Stdlib Require Import String Sorted.
From S2P Require Import Prelude Text Ip BTree JsonValue Command Jobs Osquery Queries LibvirtConfig Answers Sockets Services.

Definition MAX_ROUTES : Z := 4096.
Definition IP_TIMEOUT : Z := from_secs 10.
Definition IPV4_ROUTES : list bytes := [lit "-j"; lit "-4"; lit "route"; lit "show"; lit "table"; lit "all"].
Definition IPV6_ROUTES : list bytes := [lit "-j"; lit "-6"; lit "route"; lit "show"; lit "table"; lit "all"].
Definition VRFS : list bytes := [lit "-j"; lit "-d"; lit "link"; lit "show"; lit "type"; lit "vrf"].
Definition RT_TABLES_DIRS : list bytes := [lit "/usr/lib/iproute2"; lit "/usr/share/iproute2"; lit "/etc/iproute2"].
Definition ADDRESS_TYPES : list bytes := [lit "local"; lit "broadcast"; lit "anycast"; lit "multicast"].

Inductive Family := Ipv4 | Ipv6.
#[export] Instance Family_eq_dec : EqDecision Family.
Proof. solve_decision. Defined.

Record Route := mkRoute {
  r_table : Z; r_vrf : option bytes; r_family : bytes; r_destination : bytes; r_gateway : option bytes; r_interface : option bytes;
  r_metric : option Z; r_protocol : option bytes }.

Definition route_value (r : Route) : Value :=
  json_object [("table"%string, number (r_table r)); ("vrf"%string, text_or_null (r_vrf r)); ("family"%string, VString (r_family r));
               ("destination"%string, VString (r_destination r)); ("gateway"%string, text_or_null (r_gateway r)); ("interface"%string, text_or_null (r_interface r));
               ("metric"%string, or_json number (r_metric r)); ("protocol"%string, text_or_null (r_protocol r))].

(** ** The names of tables *)

Definition refused : JobFailure := failed (lit "could not read the routing tables").

(** Whitespace-separated words. *)
Fixpoint words_from (word : list bytes) (cs : list bytes) : list bytes :=
  match cs with
  | [] => match word with [] => [] | _ => [concat (rev word)] end
  | c :: cs' =>
      if is_whitespace_chunk c then match word with [] => words_from [] cs' | _ => concat (rev word) :: words_from [] cs' end
      else words_from (c :: word) cs'
  end.
Definition split_whitespace (s : bytes) : list bytes := words_from [] (char_chunks s).

(** [u32::from_str_radix(s, 16)]: at least one digit, a plus sign allowed. *)
Fixpoint hex_digits (acc : Z) (s : bytes) : option Z :=
  match s with
  | [] => Some acc
  | b :: s' => let+ d := hex_value b in let n := acc * 16 + d in if n <=? U32_MAX then hex_digits n s' else None
  end.
Definition parse_hex_u32 (s : bytes) : option Z :=
  let digits := match s with b :: s' => if b =? 43 then s' else s | [] => s end in
  match digits with [] => None | _ => hex_digits 0 digits end.

Definition parse_line (line : bytes) : option (bytes * Z) :=
  let+ code := head (split_on 35 line) in
  match split_whitespace code with
  | id :: fields =>
      let+ n := match strip_prefix (lit "0x") id with Some hex => parse_hex_u32 hex | None => parse_uint U32_MAX id end in
      let+ name := head fields in
      Some (name, n)
  | [] => None
  end.
Definition parse_rt_tables (text : bytes) : list (bytes * Z) := omap parse_line (lines text).

(** A directory's entries and a file's length and text, where they can be read. *)
Record TableFiles := mkTableFiles {
  list_conf : bytes -> list bytes;          (* the names in a directory *)
  length_of : bytes -> option Z;
  text_of : bytes -> option bytes }.        (* [read_to_string] *)

(** [Path::extension] of a file name. *)
Definition extension (name : bytes) : option bytes :=
  match rsplit_once 46 name with Some ([], _) => None | Some (_, ext) => Some ext | None => None end.
Definition is_conf (name : bytes) : bool := bool_decide (extension name = Some (lit "conf")) && negb (bool_decide (head name = Some 46)).

(** The files of one directory, in the order they are read. *)
Definition table_files (fs : TableFiles) (dir : bytes) : list bytes :=
  let confd := dir ++ lit "/rt_tables.d" in
  (dir ++ lit "/rt_tables") :: map (fun n => confd ++ lit "/" ++ n) (sort_by_key (fun n : bytes => n) (List.filter is_conf (list_conf fs confd))).
(** What one file names: nothing, if it is too large or cannot be read. *)
Definition names_in (fs : TableFiles) (file : bytes) : list (bytes * Z) :=
  match length_of fs file with
  | Some n => if n <=? 1024 * 1024 then match text_of fs file with Some text => parse_rt_tables text | None => [] end else []
  | None => []
  end.

Abbreviation names := (gmap bytes (option Z)).
(** [entry(name).or_insert(Some(id))], and [None] once two numbers differ. *)
Definition add_name (m : names) (e : bytes * Z) : names :=
  let entry := match m !! fst e with Some x => x | None => Some (snd e) end in
  <[fst e := if bool_decide (entry = Some (snd e)) then entry else None]> m.
Definition named (fs : TableFiles) (dirs : list bytes) : list (bytes * Z) := concat (map (names_in fs) (concat (map (table_files fs) dirs))).
Definition table_names (fs : TableFiles) (dirs : list bytes) : names := fold_left add_name (named fs dirs) ∅.

Definition plain_id (name : bytes) : option Z :=
  if str_eqb name (lit "main") then Some 254 else if str_eqb name (lit "local") then Some 255 else if str_eqb name (lit "default") then Some 253
  else parse_uint U32_MAX name.
Definition table_id (name : bytes) (m : names) : result Z JobFailure :=
  match plain_id name, m !! name with
  | Some plain, None => Ok plain
  | Some plain, Some (Some configured) =>
      if plain =? configured then Ok plain
      else Err (failed (lit "could not tell which routing table " ++ [34] ++ clip name 64 ++ [34] ++ lit " is: rt_tables names it with no number, or with more than one"))
  | None, Some (Some configured) => Ok configured
  | _, _ => Err (failed (lit "could not tell which routing table " ++ [34] ++ clip name 64 ++ [34] ++ lit " is: rt_tables names it with no number, or with more than one"))
  end.

(** ** The answer *)

Definition prefix (destination family : bytes) : bytes :=
  if str_eqb destination (lit "default") then (if str_eqb family (lit "ipv4") then lit "0.0.0.0/0" else lit "::/0")
  else if existsb (Z.eqb 47) destination then destination
  else if str_eqb family (lit "ipv4") then destination ++ lit "/32"
  else destination ++ lit "/128".

Definition to_u32 (n : Z) : option Z := if n <=? U32_MAX then Some n else None.
Definition vrf_row (link : Value) : option (Z * bytes) :=
  let+ n := as_u64 (member (member (member link "linkinfo") "info_data") "table") in
  let+ table := to_u32 n in
  let+ name := as_str (member link "ifname") in
  Some (table, name).
Definition vrf_by_table (vrfs : Value) : gmap Z bytes :=
  fold_left (fun m e => <[fst e := snd e]> m) (omap vrf_row (or_none (as_array vrfs))) ∅.

Definition is_address (entry : Value) : bool :=
  match as_str (member entry "type") with Some kind => existsb (str_eqb kind) ADDRESS_TYPES | None => false end.
Definition table_of (entry : Value) (m : names) : result (option Z) JobFailure :=
  match member entry "table" with
  | VNull => Ok (Some 254)
  | VString name => let? id := table_id name m in Ok (Some id)
  | VNumber n => Ok (let+ x := as_u64 (VNumber n) in to_u32 x)
  | _ => Ok None
  end.
Definition route_of (vrfs : gmap Z bytes) (family : bytes) (entry : Value) (table : Z) (destination : bytes) : Route :=
  let text key max := clipped max (as_str (member entry key)) in
  mkRoute table (clipped 64 (vrfs !! table)) family (clip (prefix destination family) 64) (text "gateway"%string 64%nat) (text "dev"%string 64%nat)
    (as_u64 (member entry "metric")) (text "protocol"%string 32%nat).

(** What one entry gives: nothing, a route, or a table that cannot be told. *)
Definition entry_route (vrfs : gmap Z bytes) (m : names) (family : bytes) (entry : Value) : result (option Route) JobFailure :=
  if is_address entry then Ok None
  else
    let? table := table_of entry m in
    Ok (let+ t := table in let+ d := as_str (member entry "dst") in Some (route_of vrfs family entry t d)).
Definition entries_of (tables : list (bytes * Value)) : list (bytes * Value) :=
  concat (map (fun t => map (fun e => (fst t, e)) (or_none (as_array (snd t)))) tables).

Definition route_key (r : Route) : Z * (bytes * bytes) := (r_table r, (r_family r, r_destination r)).

Section answer.
Context {J : JsonText}.
Definition routes_answer (routes : list Route) : Value :=
  let '(kept, short) := cut route_value MAX_ROUTES (sort_by_key route_key routes) in
  json_object [("routes"%string, VArray (map route_value kept)); ("truncated"%string, VBool short)].
Definition answer (tables : list (bytes * Value)) (vrfs : Value) (m : names) : result Value JobFailure :=
  let by_table := vrf_by_table vrfs in
  let? routes := result_map (fun e => entry_route by_table m (fst e) (snd e)) (entries_of tables) in
  Ok (routes_answer (omap id routes)).

Context {P : Programs} {D : SerdeJson}.
(** [None] when [ip] itself exits non-zero. *)
Definition ip (args : list bytes) : ST (programs * list act) (option JobFailure) (option Value) :=
  let* output := run_program (lit "ip" :: args) IP_TIMEOUT "the routing tables" in
  if negb (success output) then st_ret None
  else if forallb is_ascii_whitespace (stdout output) then st_ret (Some (VArray []))
  else match from_slice (stdout output) with
       | Ok v => st_ret (Some v)
       | Err _ => fail (failed (lit "ip's answer was not JSON"))
       end.

Variable from_value : Value -> result (option Family) bytes.

(** [Query::answer]. *)
Definition native_answer (fs : TableFiles) (raw : Value) : ST (programs * list act) (option JobFailure) Value :=
  let* family := reported (parameters None from_value raw) in
  let* ipv4 := (if bool_decide (family = Some Ipv6) then st_ret []
                else let* r := ip IPV4_ROUTES in
                     match r with Some v => st_ret [(lit "ipv4", v)] | None => fail refused end) in
  let* ipv6 := (if bool_decide (family = Some Ipv4) then st_ret []
                else let* r := ip IPV6_ROUTES in
                     match r with
                     | Some v => st_ret [(lit "ipv6", v)]
                     | None => if bool_decide (family = None) then st_ret [] else fail refused
                     end) in
  let* v := st_catch (ip VRFS) in
  let vrfs := match v with Ok (Some v) => v | _ => VNull end in
  reported (answer (ipv4 ++ ipv6) vrfs (table_names fs RT_TABLES_DIRS)).
End answer.

(** ** A table has one reading *)

(** What [name] may mean: a number or a reserved name, or what a file names it. *)
Definition reading (fs : TableFiles) (dirs : list bytes) (name : bytes) (id : Z) : Prop :=
  plain_id name = Some id \/ (name, id) ∈ named fs dirs.

Definition agreed (ids : list Z) : option (option Z) :=
  match ids with [] => None | i :: ids' => Some (if forallb (Z.eqb i) ids' then Some i else None) end.
Definition ids_of (name : bytes) (l : list (bytes * Z)) : list Z := omap (fun e => if bool_decide (fst e = name) then Some (snd e) else None) l.

Lemma agreed_snoc ids id : agreed (ids ++ [id]) =
  Some (let entry := match agreed ids with Some x => x | None => Some id end in if bool_decide (entry = Some id) then entry else None).
Proof.
  destruct ids as [|i ids]; cbn [app agreed]; [cbn; by rewrite bool_decide_eq_true_2|]. rewrite forallb_app. cbn [forallb]. rewrite andb_true_r.
  f_equal. destruct (forallb (Z.eqb i) ids); cbn [andb]; [|done]. destruct (Z.eqb_spec i id) as [->|Hne]; [by rewrite bool_decide_eq_true_2|].
  rewrite bool_decide_eq_false_2; [done|congruence].
Qed.

Lemma names_lookup l name : fold_left add_name l (∅ : names) !! name = agreed (ids_of name l).
Proof.
  induction l as [|[n id] l IH] using rev_ind; [apply lookup_empty|]. rewrite fold_left_app. cbn [fold_left]. unfold add_name, ids_of in *. cbn [fst snd].
  rewrite omap_app. cbn [omap list_omap fst snd]. destruct (decide (n = name)) as [->|Hne].
  - rewrite lookup_insert_eq, (bool_decide_eq_true_2 (name = name)) by done. rewrite agreed_snoc. by rewrite <- IH.
  - rewrite lookup_insert_ne, (bool_decide_eq_false_2 (n = name)) by done. by rewrite app_nil_r.
Qed.

Lemma elem_of_ids name l id : id ∈ ids_of name l <-> (name, id) ∈ l.
Proof.
  unfold ids_of. rewrite list_elem_of_omap. split.
  - intros ([n i] & H & E). cbn in E. case_bool_decide as Hn; [|done]. subst n. by injection E as ->.
  - intros H. exists (name, id). split; [done|]. cbn. by rewrite bool_decide_eq_true_2.
Qed.

Lemma agreed_spec ids :
  match agreed ids with
  | None => ids = []
  | Some (Some id) => id ∈ ids /\ Forall (eq id) ids
  | Some None => exists a b, a ∈ ids /\ b ∈ ids /\ a <> b
  end.
Proof.
  destruct ids as [|i ids]; cbn [agreed]; [done|]. destruct (forallb (Z.eqb i) ids) eqn:E.
  - split; [set_solver|]. constructor; [done|]. rewrite forallb_forall in E. apply List.Forall_forall. intros x Hx%E. by apply Z.eqb_eq.
  - apply not_true_iff_false in E. assert (exists b, b ∈ ids /\ i <> b) as (b & Hb & Hne); [|exists i, b; set_solver].
    destruct (decide (Forall (eq i) ids)) as [Ha|Hn].
    + exfalso. apply E, forallb_forall. intros x Hx. rewrite List.Forall_forall in Ha. apply Z.eqb_eq. by apply Ha.
    + apply not_Forall_Exists in Hn; [|apply _]. apply list.Exists_exists in Hn as (b & Hb & Hn). eauto.
Qed.

(** A routing table is reported under a number only if that is what its name can only
    mean: every reading of the name, as a number, as a reserved name and in every file
    that names it, is that number, and there is one.  Otherwise the query fails. *)
Theorem table_id_is_unambiguous (fs : TableFiles) (dirs : list bytes) (name : bytes) (id : Z) :
  table_id name (table_names fs dirs) = Ok id <-> (exists i, reading fs dirs name i) /\ forall i, reading fs dirs name i -> i = id.
Proof.
  unfold reading, table_id, table_names. rewrite names_lookup. setoid_rewrite <- elem_of_ids. set (ids := ids_of name (named fs dirs)).
  pose proof (agreed_spec ids) as H. destruct (plain_id name) as [p|], (agreed ids) as [[c|]|].
  - destruct H as [Hc Ha]. rewrite list.Forall_forall in Ha. destruct (Z.eqb_spec p c) as [->|Hne]; split.
    + intros [= ->]. split; [eauto|]. intros i [[= ->]|Hi]; [done|]. symmetry. by apply Ha.
    + intros [_ Hu]. f_equal. apply Hu. by left.
    + done.
    + intros [_ Hu]. exfalso. apply Hne. rewrite (Hu p), (Hu c); auto.
  - destruct H as (a & b & H1 & H2 & Hne). split; [done|]. intros [_ Hu]. exfalso. apply Hne. rewrite (Hu a), (Hu b); auto.
  - rewrite H. split.
    + intros [= ->]. split; [eauto|]. intros i [[= ->]|Hi]; [done|by apply elem_of_nil in Hi].
    + intros [_ Hu]. f_equal. apply Hu. by left.
  - destruct H as [Hc Ha]. rewrite list.Forall_forall in Ha. split.
    + intros [= ->]. split; [eauto|]. intros i [[=]|Hi]. symmetry. by apply Ha.
    + intros [_ Hu]. f_equal. apply Hu. by right.
  - destruct H as (a & b & H1 & H2 & Hne). split; [done|]. intros [_ Hu]. exfalso. apply Hne. rewrite (Hu a), (Hu b); auto.
  - rewrite H. split; [done|]. intros [(i & [[=]|Hi]) _]. by apply elem_of_nil in Hi.
Qed.

(** ** Routes are as [ip] prints them *)

Lemma result_map_Ok {A B E} (f : A -> result B E) l bs : result_map f l = Ok bs -> Forall2 (fun a b => f a = Ok b) l bs.
Proof.
  revert bs. induction l as [|a l IH]; intros bs; cbn [result_map]; [intros [= <-]; constructor|].
  intros (b & Hb & H)%result_bind_ok. apply result_bind_ok in H as (bs' & Hbs & [= <-]). constructor; [done|by apply IH].
Qed.

Lemma elem_of_entries f e tables : (f, e) ∈ entries_of tables <-> exists v es, (f, v) ∈ tables /\ as_array v = Some es /\ e ∈ es.
Proof.
  unfold entries_of. rewrite list_elem_of_In, in_concat. setoid_rewrite <- list_elem_of_In. split.
  - intros (x & Hx & H). apply list_elem_of_fmap in Hx as ([g v] & -> & Hin). apply list_elem_of_fmap in H as (e' & [= -> ->] & He). cbn in *.
    destruct (as_array v) as [es|] eqn:E; [|by apply elem_of_nil in He]. by exists v, es.
  - intros (v & es & Ht & E & He). eexists. split; [apply list_elem_of_fmap; exists (f, v); split; [reflexivity|done]|]. cbn. rewrite E. cbn.
    apply list_elem_of_fmap. by exists e.
Qed.

Section exact.
Context {J : JsonText}.

(** [entry] of [family] is a route, and [r] is that route. *)
Definition prints (vrfs : Value) (m : names) (family : bytes) (entry : Value) (r : Route) : Prop :=
  is_address entry = false /\ exists t d, table_of entry m = Ok (Some t) /\ as_str (member entry "dst") = Some d /\
    r = route_of (vrf_by_table vrfs) family entry t d.

(** What [query.routes] answers: the routes [ip] printed and no local, broadcast or
    multicast address, each in the table its name means, in order, within the limit;
    unless it says it is cut, all of them. *)
Theorem routes_are_as_printed (tables : list (bytes * Value)) (vrfs v : Value) (m : names) : answer tables vrfs m = Ok v ->
  exists kept short, v = json_object [("routes"%string, VArray (map route_value kept)); ("truncated"%string, VBool short)] /\
    StronglySorted (in_order route_key) kept /\ zlength kept <= MAX_ROUTES /\
    Forall (fun r => exists family printed es entry, (family, printed) ∈ tables /\ as_array printed = Some es /\ entry ∈ es /\ prints vrfs m family entry r) kept /\
    (short = false -> forall family printed es entry, (family, printed) ∈ tables -> as_array printed = Some es -> entry ∈ es -> is_address entry = false ->
       forall t d, table_of entry m = Ok (Some t) -> as_str (member entry "dst") = Some d -> route_of (vrf_by_table vrfs) family entry t d ∈ kept).
Proof.
  unfold answer. intros (rs & Hrs & Hv)%result_bind_ok. assert (v = routes_answer (omap id rs)) as -> by congruence. clear Hv.
  apply result_map_Ok in Hrs. unfold routes_answer. set (sorted := sort_by_key route_key (omap id rs)).
  pose proof (cut_spec route_value MAX_ROUTES sorted ltac:(unfold MAX_ROUTES; lia)) as Hc. destruct (cut route_value MAX_ROUTES sorted) as [kept short].
  cbn [fst snd] in Hc. exists kept, short. split; [done|]. pose proof Hc as ((k & Ek) & Hlen & _ & Hall).
  assert (forall r, r ∈ sorted <-> exists e, e ∈ entries_of tables /\ entry_route (vrf_by_table vrfs) m (fst e) (snd e) = Ok (Some r)) as Hin.
  { intros r. unfold sorted. rewrite sort_by_key_perm, list_elem_of_omap. split.
    - intros (o & Ho & Eo). cbv [id] in Eo. subst o. apply list_elem_of_lookup in Ho as (i & Hi). apply (Forall2_lookup_r _ _ _ _ _ Hrs) in Hi as (e & He & E).
      exists e. split; [by eapply list_elem_of_lookup_2|done].
    - intros (e & He & E). apply list_elem_of_lookup in He as (i & Hi). apply (Forall2_lookup_l _ _ _ _ _ Hrs) in Hi as (o & Ho & E').
      exists o. split; [by eapply list_elem_of_lookup_2|]. rewrite E in E'. by injection E' as <-. }
  split; [rewrite Ek; apply sorted_take, sort_by_key_sorted|]. split; [done|]. split.
  - apply list.Forall_forall. intros r Hr. eapply cut_elem in Hr; [|exact Hc]. apply Hin in Hr as ([f e] & He & E). apply elem_of_entries in He as (pv & es & H1 & H2 & H3).
    exists f, pv, es, e. split; [done|]. split; [done|]. split; [done|]. unfold prints, entry_route in *. cbn [fst snd] in E. destruct (is_address e); [done|]. split; [done|].
    destruct (table_of e m) as [[t|]|]; [|done|done]. cbn in E. destruct (as_str (member e "dst")) as [d|]; [|done]. exists t, d. split; [done|]. split; [done|]. cbn in E. congruence.
  - intros -> f pv es e H1 H2 H3 Ha t d Ht Hd. rewrite Hall by done. apply Hin. exists (f, e). split; [apply elem_of_entries; eauto|].
    unfold entry_route. cbn [fst snd]. rewrite Ha, Ht. cbn. by rewrite Hd.
Qed.
End exact.

Definition demo_routes : list (bytes * Value) :=
  [(lit "ipv4", VArray [json_object [("dst"%string, VString (lit "default")); ("dev"%string, VString (lit "eth0"))];
                        json_object [("type"%string, VString (lit "local")); ("dst"%string, VString (lit "192.0.2.5"))]])].

Lemma routes_are_as_printed_witness : exists v, answer (J := tiny_json_text) demo_routes VNull ∅ = Ok v /\
  exists kept, v = json_object [("routes"%string, VArray (map route_value kept)); ("truncated"%string, VBool false)] /\ zlength kept <= MAX_ROUTES.
Proof.
  destruct (answer (J := tiny_json_text) demo_routes VNull ∅) as [v|e] eqn:E; [|vm_compute in E; discriminate E]. exists v. split; [reflexivity|].
  destruct (routes_are_as_printed (J := tiny_json_text) demo_routes VNull v ∅ E) as (kept & short & Hv & _ & Hl & _).
  exists kept. split; [|exact Hl]. vm_compute in E. injection E as E. destruct short; [|exact Hv]. rewrite <- E in Hv. discriminate Hv.
Defined.
