(* ===== verification/BmcConfig.v ===== *)
(** * power/bmc/config.rs: Redfish BMC modules *)

From Stdlib Require Import String.
From S2P Require Import Prelude Text SnmpConfig LibvirtConfig.

(** [POWER_INTERVALS] of power/pdu/mod.rs. *)
Definition POWER_INTERVALS : Intervals := mkIntervals 60 30.
Definition HTTPS_PORT : Z := 443.
Definition TIMEOUT_DEFAULT : Z := 10.
Definition TIMEOUT_MAX : Z := 60.
Definition CONCURRENCY_DEFAULT : Z := 4.
Definition CONCURRENCY_MAX : Z := 32.

Record BmcTarget := mkBmcTarget { bmc_target : Target; pin : option bytes }.

Record BmcCollector := mkBmc {
  bmc_id : bytes;
  bmc_targets : list BmcTarget;
  bmc_username : bytes;
  bmc_password_file : bytes;
  bmc_ca_file : option bytes;
  bmc_interval : Z;
  bmc_timeout : Z;
  bmc_max_concurrent_targets : Z }.

Record RawBmcCollector := mkRawBmc {
  rb_id : option bytes;
  rb_targets : option (list bytes);
  rb_username : option bytes;
  rb_password_file : option bytes;
  rb_ca_file : option bytes;
  rb_pins : option (list (bytes * bytes));       (* a map, in key order *)
  rb_interval_seconds : option Z;
  rb_timeout_seconds : option Z;
  rb_max_concurrent_targets : option Z }.

(** [hex.chunks(2)], each read by [u8::from_str_radix]. *)
Fixpoint digest_of (hex : bytes) : option bytes :=
  match hex with
  | a :: b :: rest => let+ x := from_hex_pair a b in let+ xs := digest_of rest in Some (x :: xs)
  | _ => Some []
  end.

Definition fingerprint (text : bytes) : option bytes :=
  let text := trim text in
  let text := match split_once 61 text with
              | Some (prefix, rest) =>
                  if eq_ignore_ascii_case (trim prefix) (lit "sha256 fingerprint") then trim rest else text
              | None => text
              end in
  let text := match (if is_char_boundary text 7 then Some (take 7 text) else None) with
              | Some prefix => if eq_ignore_ascii_case prefix (lit "sha256:") then drop 7 text else text
              | None => text
              end in
  let hex := List.filter (fun b => negb (b =? 58)) text in
  if negb (Nat.eqb (length hex) 64) then None else digest_of hex.

(** [pins.remove(key)]. *)
Definition take_pin (pins : list (bytes * bytes)) (key : bytes) : option bytes * list (bytes * bytes) :=
  (option_map snd (find_by (fun e => str_eqb (fst e) key) pins),
   List.filter (fun e => negb (str_eqb (fst e) key)) pins).

Section config.
Context (debug : bytes -> bytes).

(** The loop that gives each target its pin; returns the pins no target took. *)
Fixpoint pin_targets (ts : list Target) (pins : list (bytes * bytes))
  : result (list BmcTarget * list (bytes * bytes)) bytes :=
  match ts with
  | [] => Ok ([], pins)
  | t :: ts' =>
      let '(given, pins) := take_pin pins (address t) in
      let? p := match given with
                | Some text =>
                    match fingerprint text with
                    | Some digest => Ok (Some digest)
                    | None => Err (lit "the pin for " ++ debug (address t)
                                   ++ lit " must be a SHA-256 fingerprint in hex")
                    end
                | None => Ok None
                end in
      let? rest := pin_targets ts' pins in
      Ok (mkBmcTarget t p :: fst rest, snd rest)
  end.

Definition collector (raw : RawBmcCollector) : result BmcCollector bytes :=
  let? id := ok_or (rb_id raw) (lit "id is required") in
  if negb (valid_collector_id id) then Err id_message
  else
    let? ts := targets debug (unwrap_or (rb_targets raw) []) HTTPS_PORT in
    let? pinned := pin_targets ts (unwrap_or (rb_pins raw) []) in
    match snd pinned with
    | (key, _) :: _ => Err (lit "pins names " ++ debug key ++ lit ", which is not a target")
    | [] =>
        let? username := ok_or (not_blank (rb_username raw)) (lit "username is required") in
        let? password_file := ok_or (rb_password_file raw) (lit "password_file is required") in
        let? interval := checked_interval (rb_interval_seconds raw) (interval_default POWER_INTERVALS)
                           (interval_min POWER_INTERVALS) in
        let? timeout := checked_timeout (rb_timeout_seconds raw) TIMEOUT_DEFAULT TIMEOUT_MAX in
        let? concurrent := checked_concurrency (rb_max_concurrent_targets raw) CONCURRENCY_DEFAULT CONCURRENCY_MAX in
        Ok (mkBmc id (fst pinned) username password_file (rb_ca_file raw) interval timeout concurrent)
    end.

Definition from_raw (raw : list RawBmcCollector) : result (list BmcCollector) bytes :=
  each_module debug (lit "collectors.bmc") collector bmc_id raw.
End config.
