(* ===== verification/ExportersConfig.v ===== *)
(** * exporters/mod.rs: which Prometheus exporters may be read *)

From Stdlib Require Import String.
From S2P Require Import Prelude Text Interfaces SnmpConfig.

Definition EXPORTERS_MAX : Z := 16.
Definition INTERVAL_DEFAULT : Z := 60.
Definition TIMEOUT_DEFAULT : Z := 10.
Definition TIMEOUT_MAX : Z := 30.
Definition MAX_RESPONSE_BYTES : Z := 8 * 1024 * 1024.
Definition MAX_SOURCE_CHARS : Z := 255.

Section config.
Context {L : UrlApi}.

Record RawExporter := mkRawExporter {
  re_url : option bytes;
  re_allow_remote : option bool;
  re_bearer_token_file : option bytes;
  re_interval_seconds : option Z;
  re_timeout_seconds : option Z }.

Record Endpoint := mkEndpoint {
  endpoint_url : url;
  allow_remote : bool;
  bearer_token_file : option bytes;
  endpoint_timeout : Z;
  max_bytes : Z }.

Record Exporter := mkExporter { endpoint : Endpoint; exporter_interval : Z }.

Definition source (e : Exporter) : bytes := url_as_str (endpoint_url (endpoint e)).

(** The body of the loop: the exporter of one table, after those before it. *)
Definition exporter_of (index : Z) (exporters : list Exporter) (raw : RawExporter) : result Exporter bytes :=
  let at_ := lit "exporters[" ++ show_u64 index ++ lit "]" in
  let? text := ok_or (re_url raw) (at_ ++ lit ".url is required") in
  let? u := ok_or (url_parse text) (at_ ++ lit ".url is not a URL") in
  if negb (str_eqb (url_scheme u) (lit "http") || str_eqb (url_scheme u) (lit "https"))
     || negb (is_some (url_host_str u))
  then Err (at_ ++ lit ".url must be an http or https URL with a host")
  else if negb (bool_decide (url_username u = [])) || is_some (url_password u) || is_some (url_query u)
  then Err (at_ ++ lit ".url must not carry credentials or a query; use bearer_token_file")
  else if MAX_SOURCE_CHARS <? chars_count (url_as_str u)
  then Err (at_ ++ lit ".url must be at most " ++ show_u64 MAX_SOURCE_CHARS ++ lit " characters")
  else
    let remote := unwrap_or (re_allow_remote raw) false in
    if is_some (re_bearer_token_file raw) && negb remote
    then Err (at_ ++ lit ".bearer_token_file is only for a remote endpoint (allow_remote = true)")
    else
      let interval := unwrap_or (re_interval_seconds raw) INTERVAL_DEFAULT in
      if negb (within 10 3600 interval)
      then Err (at_ ++ lit ".interval_seconds must be between 10 and 3600")
      else
        let timeout := unwrap_or (re_timeout_seconds raw) TIMEOUT_DEFAULT in
        if negb (within 1 TIMEOUT_MAX timeout) || (interval <=? timeout)
        then Err (at_ ++ lit ".timeout_seconds must be between 1 and " ++ show_u64 TIMEOUT_MAX
                  ++ lit " and shorter than the interval")
        else if existsb (fun e => bool_decide (endpoint_url (endpoint e) = u)) exporters
        then Err (at_ ++ lit ".url " ++ url_as_str u ++ lit " is configured twice")
        else Ok (mkExporter (mkEndpoint u remote (re_bearer_token_file raw) (from_secs timeout) MAX_RESPONSE_BYTES)
                   (from_secs interval)).

Fixpoint from_raw_loop (index : Z) (exporters : list Exporter) (raw : list RawExporter)
  : result (list Exporter) bytes :=
  match raw with
  | [] => Ok exporters
  | r :: raw' =>
      let? e := exporter_of index exporters r in
      from_raw_loop (index + 1) (exporters ++ [e]) raw'
  end.

Definition from_raw (raw : list RawExporter) : result (list Exporter) bytes :=
  if EXPORTERS_MAX <? zlength raw
  then Err (lit "exporters must have at most " ++ show_u64 EXPORTERS_MAX ++ lit " entries")
  else from_raw_loop 0 [] raw.

(** What every accepted exporter satisfies. *)
Definition exporter_ok (e : Exporter) : Prop :=
  let u := endpoint_url (endpoint e) in
  (url_scheme u = lit "http" \/ url_scheme u = lit "https") /\ url_host_str u <> None /\
  url_username u = [] /\ url_password u = None /\ url_query u = None /\
  chars_count (source e) <= MAX_SOURCE_CHARS /\
  (bearer_token_file (endpoint e) <> None -> allow_remote (endpoint e) = true) /\
  from_secs 1 <= endpoint_timeout (endpoint e) < exporter_interval e /\
  exporter_interval e <= from_secs 3600.

Lemma exporter_of_ok index exporters raw e :
  exporter_of index exporters raw = Ok e ->
  exporter_ok e /\ endpoint_url (endpoint e) ∉ map (fun x => endpoint_url (endpoint x)) exporters.
Proof.
  unfold exporter_of. destruct (re_url raw) as [text|]; cbn [ok_or result_bind]; [|done].
  destruct (url_parse text) as [u|]; cbn [ok_or result_bind]; [|done].
  destruct (_ || negb (is_some (url_host_str u))) eqn:H1; [done|].
  destruct (negb (bool_decide (url_username u = [])) || _ || _) eqn:H2; [done|].
  destruct (MAX_SOURCE_CHARS <? _) eqn:H3; [done|].
  destruct (is_some (re_bearer_token_file raw) && _) eqn:H4; [done|].
  destruct (negb (within 10 3600 _)) eqn:H5; [done|].
  destruct (negb (within 1 TIMEOUT_MAX _) || _) eqn:H6; [done|].
  destruct (existsb _ exporters) eqn:H7; [done|]. intros [= <-].
  apply orb_false_iff in H1 as [H1 H1']. apply negb_false_iff in H1, H1'.
  apply orb_true_iff in H1. rewrite !str_eqb_eq in H1.
  apply orb_false_iff in H2 as [H2 H2c]. apply orb_false_iff in H2 as [H2a H2b].
  apply negb_false_iff, bool_decide_eq_true in H2a. unfold within in H5, H6.
  apply negb_false_iff in H5. apply orb_false_iff in H6 as [H6 H6']. apply negb_false_iff in H6. bool_simpl.
  split.
  - unfold exporter_ok, source. cbn [endpoint endpoint_url bearer_token_file allow_remote endpoint_timeout exporter_interval].
    split; [done|]. split; [by destruct (url_host_str u)|]. split; [done|].
    split; [by destruct (url_password u)|]. split; [by destruct (url_query u)|]. split; [lia|].
    split; [|unfold from_secs, NANOS; lia].
    intros Hb. destruct (re_bearer_token_file raw); [|done]. cbn [is_some andb] in H4.
    by apply negb_false_iff in H4.
  - cbn [endpoint endpoint_url]. intros (x & E & Hx)%list_elem_of_fmap.
    assert (existsb (fun e => bool_decide (endpoint_url (endpoint e) = u)) exporters = true); [|congruence].
    apply existsb_exists. exists x. split; [by apply list_elem_of_In|]. by apply bool_decide_eq_true.
Qed.

Lemma from_raw_ok raw es :
  from_raw raw = Ok es ->
  Forall exporter_ok es /\ NoDup (map (fun e => endpoint_url (endpoint e)) es) /\ zlength es <= EXPORTERS_MAX.
Proof.
  unfold from_raw. destruct (Z.ltb_spec EXPORTERS_MAX (zlength raw)) as [|Hl]; [done|]. intros E.
  assert (forall raw index acc, from_raw_loop index acc raw = Ok es ->
    Forall exporter_ok acc -> NoDup (map (fun e => endpoint_url (endpoint e)) acc) ->
    Forall exporter_ok es /\ NoDup (map (fun e => endpoint_url (endpoint e)) es) /\
    length es = (length acc + length raw)%nat) as Hloop.
  { clear. intros raw. induction raw as [|r raw IH]; intros index acc; cbn [from_raw_loop].
    - intros [= <-] ? ?. split; [done|]. split; [done|]. simpl. lia.
    - destruct (exporter_of index acc r) as [e|] eqn:Ee; cbn [result_bind]; [|done]. intros E Ha Hn.
      apply exporter_of_ok in Ee as [Hok Hni]. destruct (IH _ _ E) as (H1 & H2 & H3).
      + apply Forall_app. split; [done|by constructor].
      + rewrite map_app. apply list.NoDup_app. split; [done|]. split; [|apply NoDup_singleton].
        intros x Hx Hx'%list_elem_of_singleton. by subst.
      + split; [done|]. split; [done|]. rewrite H3, length_app. simpl. lia. }
  destruct (Hloop raw 0 [] E) as (H1 & H2 & H3); [constructor|constructor|].
  split; [done|]. split; [done|]. unfold zlength in *. rewrite H3. simpl. lia.
Qed.
End config.
