(* ===== verification/Config.v ===== *)
(** * config.rs: the agent's configuration

    TOML text, then [RENGA_*] overrides, then validation, which begins by
    loading or creating the installation identity (Identity.v).  The TOML reader
    is a parameter, and so are the operating system's error texts. *)

From Stdlib Require Import String.
From S2P Require Import Prelude Text Fs Processes Interfaces Identity Jobs Transport Osquery.
From S2P Require Import SnmpConfig GnmiConfig LibvirtConfig BmcConfig ExportersConfig.

Definition INVENTORY_DEFAULT : Z := 3600.
Definition CHECKIN_DEFAULT : Z := 60.
Definition CHECKIN_MAX : Z := 60.
Definition REFRESH_DEFAULT : Z := 300.
Definition TIMEOUT_DEFAULT : Z := 20.
Definition RETRIES_DEFAULT : Z := 5.
Definition TIMEOUT_MAX : Z := 20.
Definition RETRIES_MAX : Z := 5.
Definition LABELS_MAX : Z := 32.
Definition LABEL_KEY_MAX : Z := 63.
Definition LABEL_VALUE_MAX : Z := 255.
Definition JOBS_ENABLED_MAX : Z := 64.

Section config.
Context {U : Uuid} {L : UrlApi}.

(** Labels are a [BTreeMap]: its entries in key order. *)
Record Config := mkConfig {
  config_path : bytes;
  renga_url : bytes;
  allow_insecure_http : bool;
  intake_api_key : bytes;
  installation_id : uuid;
  inventory_interval : Z;
  checkin_interval : Z;
  config_refresh_interval : Z;
  request_timeout : Z;
  max_retry_attempts : Z;
  labels : list (bytes * bytes);
  jobs : JobPolicy;
  snmp : list SnmpCollector;
  gnmi : list GnmiCollector;
  libvirt : option LibvirtCollector;
  power : list SnmpCollector;
  bmc : list BmcCollector;
  exporters : list Exporter;
  osquery : OsqueryConfig }.

Record RawCollectors := mkRawCollectors {
  rc_snmp : option (list RawSnmpCollector);
  rc_gnmi : option (list RawGnmiCollector);
  rc_libvirt : option RawLibvirtCollector;
  rc_power : option (list RawSnmpCollector);
  rc_bmc : option (list RawBmcCollector) }.

Definition no_collectors : RawCollectors := mkRawCollectors None None None None None.

(** [raw_jobs] is [RawJobs]' only field, [enabled]. *)
Record RawConfig := mkRaw {
  r_renga_url : option bytes;
  r_allow_insecure_http : option bool;
  r_intake_api_key : option bytes;
  r_installation_id : option bytes;
  r_inventory_interval_seconds : option Z;
  r_checkin_interval_seconds : option Z;
  r_config_refresh_interval_seconds : option Z;
  r_request_timeout_seconds : option Z;
  r_max_retry_attempts : option Z;
  r_labels : option (list (bytes * bytes));
  r_jobs : option (option (list bytes));
  r_collectors : option RawCollectors;
  r_exporters : option (list RawExporter);
  r_osquery : option (option bool * option bytes) }.

Definition no_config : RawConfig :=
  mkRaw None None None None None None None None None None None None None None.

Context (debug : bytes -> bytes) (server_name_valid : bytes -> bool).

(** ** Pieces *)

Definition required (value : option bytes) (name : bytes) : result bytes bytes :=
  ok_or (not_blank value) (name ++ lit " is required").

Definition duration (value : option Z) (default : Z) (name : bytes) : result Z bytes :=
  let seconds := unwrap_or value default in
  if seconds =? 0 then Err (name ++ lit " must be greater than zero") else Ok (from_secs seconds).

Definition checkin_duration (value : option Z) : result Z bytes :=
  let? d := duration value CHECKIN_DEFAULT (lit "checkin_interval_seconds") in
  if CHECKIN_MAX <? as_secs d
  then Err (lit "checkin_interval_seconds must not exceed " ++ show_u64 CHECKIN_MAX)
  else Ok d.

(** [str::trim_end_matches] of an ASCII character. *)
Definition trim_end_matches (c : Z) (s : bytes) : bytes := rev (drop_while (Z.eqb c) (rev s)).

Definition valid_label_key (key : bytes) : bool :=
  negb (bool_decide (key = []))
  && (zlength key <=? LABEL_KEY_MAX)
  && match head key with Some b => is_ascii_alphanumeric b | None => false end
  && match last_opt key with Some b => is_ascii_alphanumeric b | None => false end
  && forallb (fun b => is_ascii_alphanumeric b || (b =? 46) || (b =? 95) || (b =? 45) || (b =? 47)) key.

(** The loop of [validate_labels]. *)
Fixpoint check_labels (ls : list (bytes * bytes)) : result unit bytes :=
  match ls with
  | [] => Ok tt
  | (key, value) :: ls' =>
      if negb (valid_label_key key)
      then Err (lit "label key " ++ debug key ++ lit " must be 1-63 letters, digits, '.', '_', '-', or '/', starting and ending with a letter or digit")
      else if LABEL_VALUE_MAX <? chars_count value
      then Err (lit "label " ++ debug key ++ lit " must be at most 255 characters")
      else check_labels ls'
  end.

Definition validate_labels (ls : list (bytes * bytes)) : result (list (bytes * bytes)) bytes :=
  if LABELS_MAX <? zlength ls then Err (lit "labels must have at most 32 entries")
  else let? _ := check_labels ls in Ok ls.

Definition job_policy (enabled : option (list bytes)) : result JobPolicy bytes :=
  match enabled with
  | None => Ok (mkPolicy None)
  | Some entries =>
      if JOBS_ENABLED_MAX <? zlength entries
      then Err (lit "jobs.enabled must have at most 64 entries")
      else
        let? selectors := result_map (fun entry =>
          ok_or (parse_selector entry)
            (lit "jobs.enabled entry " ++ debug entry ++ lit " must be a capability name such as "
             ++ quoted "inventory.collect" ++ lit " or a name@version key such as "
             ++ quoted "inventory.collect@1")) entries in
        Ok (mkPolicy (Some selectors))
  end.

(** [modules.iter().find(|c| taken.iter().any(|t| t.id == c.id))], as an error. *)
Definition no_clash {C} (id_of : C -> bytes) (taken : list bytes) (message : bytes -> bytes) (cs : list C)
  : result unit bytes :=
  match find_by (fun c => existsb (str_eqb (id_of c)) taken) cs with
  | Some c => Err (message (id_of c))
  | None => Ok tt
  end.

Definition clash (section what : bytes) (id : bytes) : bytes :=
  section ++ lit ": id " ++ debug id ++ lit " is already used by " ++ what.

Definition option_ids (l : option LibvirtCollector) : list bytes :=
  match l with Some c => [libvirt_id c] | None => [] end.

(** ** Validation *)

(** The collector sections, with the checks that no ID is used twice. *)
Definition collectors_of (raw : RawCollectors)
  : result (list SnmpCollector * list GnmiCollector * option LibvirtCollector
            * list SnmpCollector * list BmcCollector) bytes :=
  let? sn := SnmpConfig.from_raw debug (unwrap_or (rc_snmp raw) []) in
  let? gn := GnmiConfig.from_raw debug server_name_valid (unwrap_or (rc_gnmi raw) []) in
  let? _ := no_clash gnmi_id (map snmp_id sn) (clash (lit "collectors.gnmi") (lit "an SNMP module")) gn in
  let? lv := LibvirtConfig.from_raw (rc_libvirt raw) in
  let lv_list := match lv with Some c => [c] | None => [] end in
  let? _ := no_clash libvirt_id (map snmp_id sn) (clash (lit "collectors.libvirt") (lit "an SNMP module")) lv_list in
  let? _ := no_clash libvirt_id (map gnmi_id gn) (clash (lit "collectors.libvirt") (lit "a gNMI module")) lv_list in
  let? pw := from_raw_section debug (unwrap_or (rc_power raw) []) (lit "collectors.power") POWER_INTERVALS in
  let? _ := no_clash snmp_id (map snmp_id sn ++ map gnmi_id gn ++ option_ids lv)
              (clash (lit "collectors.power") (lit "another collector module")) pw in
  let? bm := BmcConfig.from_raw debug (unwrap_or (rc_bmc raw) []) in
  let? _ := no_clash bmc_id (map snmp_id sn ++ map snmp_id pw ++ map gnmi_id gn ++ option_ids lv)
              (clash (lit "collectors.bmc") (lit "another collector module")) bm in
  Ok (sn, gn, lv, pw, bm).

(** [from_raw] after the identity is known. *)
Definition validate (path : bytes) (identity : uuid) (raw : RawConfig) : result Config bytes :=
  let? given_url := required (r_renga_url raw) (lit "renga_url") in
  let url := trim_end_matches 47 given_url in
  let insecure := unwrap_or (r_allow_insecure_http raw) false in
  if negb (starts_with (lit "https://") url || (insecure && starts_with (lit "http://") url))
  then Err (lit "renga_url must use HTTPS (HTTP requires allow_insecure_http = true)")
  else
    let retries := unwrap_or (r_max_retry_attempts raw) RETRIES_DEFAULT in
    if negb (within 1 RETRIES_MAX retries)
    then Err (lit "max_retry_attempts must be between 1 and " ++ show_u64 RETRIES_MAX)
    else
      let? timeout := duration (r_request_timeout_seconds raw) TIMEOUT_DEFAULT (lit "request_timeout_seconds") in
      if TIMEOUT_MAX <? as_secs timeout
      then Err (lit "request_timeout_seconds must not exceed " ++ show_u64 TIMEOUT_MAX)
      else
        let? ls := validate_labels (unwrap_or (r_labels raw) []) in
        let? policy := job_policy (unwrap_or (r_jobs raw) None) in
        let? cs := collectors_of (unwrap_or (r_collectors raw) no_collectors) in
        let '(sn, gn, lv, pw, bm) := cs in
        let? key := required (r_intake_api_key raw) (lit "intake_api_key") in
        let? inventory := duration (r_inventory_interval_seconds raw) INVENTORY_DEFAULT
                            (lit "inventory_interval_seconds") in
        let? checkin := checkin_duration (r_checkin_interval_seconds raw) in
        let? refresh := duration (r_config_refresh_interval_seconds raw) REFRESH_DEFAULT
                          (lit "config_refresh_interval_seconds") in
        let? ex := ExportersConfig.from_raw (unwrap_or (r_exporters raw) []) in
        let? oq := Osquery.from_raw (r_osquery raw) in
        Ok (mkConfig path url insecure key identity inventory checkin refresh timeout retries ls policy
              sn gn lv pw bm ex oq).

Context (show_io : io_kind -> bytes) (dir_display : bytes).

(** [Config::from_raw]; [tmp] and [fresh] are the identity's [Uuid::new_v4]s. *)
Definition from_raw (tmp fresh : uuid) (path : bytes) (raw : RawConfig) : prog (result Config bytes) :=
  let& identity := load_or_create show_io dir_display tmp fresh (r_installation_id raw) in
  Ret (validate path identity raw).

(** ** Loading *)

(** [env::var]. *)
Context (env : bytes -> option bytes).

Definition string_env (key : bytes) (set : option bytes -> RawConfig -> RawConfig) (raw : RawConfig) : RawConfig :=
  match env key with Some v => set (Some v) raw | None => raw end.

Definition number_env (max : Z) (key : bytes) (set : option Z -> RawConfig -> RawConfig) (raw : RawConfig)
  : result RawConfig bytes :=
  match env key with
  | Some v =>
      let? n := ok_or (parse_uint max v) (key ++ lit " must be a positive integer") in
      Ok (set (Some n) raw)
  | None => Ok raw
  end.

Definition set_url v r := mkRaw v (r_allow_insecure_http r) (r_intake_api_key r) (r_installation_id r)
  (r_inventory_interval_seconds r) (r_checkin_interval_seconds r) (r_config_refresh_interval_seconds r)
  (r_request_timeout_seconds r) (r_max_retry_attempts r) (r_labels r) (r_jobs r) (r_collectors r)
  (r_exporters r) (r_osquery r).
Definition set_insecure v r := mkRaw (r_renga_url r) v (r_intake_api_key r) (r_installation_id r)
  (r_inventory_interval_seconds r) (r_checkin_interval_seconds r) (r_config_refresh_interval_seconds r)
  (r_request_timeout_seconds r) (r_max_retry_attempts r) (r_labels r) (r_jobs r) (r_collectors r)
  (r_exporters r) (r_osquery r).
Definition set_key v r := mkRaw (r_renga_url r) (r_allow_insecure_http r) v (r_installation_id r)
  (r_inventory_interval_seconds r) (r_checkin_interval_seconds r) (r_config_refresh_interval_seconds r)
  (r_request_timeout_seconds r) (r_max_retry_attempts r) (r_labels r) (r_jobs r) (r_collectors r)
  (r_exporters r) (r_osquery r).
Definition set_identity v r := mkRaw (r_renga_url r) (r_allow_insecure_http r) (r_intake_api_key r) v
  (r_inventory_interval_seconds r) (r_checkin_interval_seconds r) (r_config_refresh_interval_seconds r)
  (r_request_timeout_seconds r) (r_max_retry_attempts r) (r_labels r) (r_jobs r) (r_collectors r)
  (r_exporters r) (r_osquery r).
Definition set_inventory v r := mkRaw (r_renga_url r) (r_allow_insecure_http r) (r_intake_api_key r)
  (r_installation_id r) v (r_checkin_interval_seconds r) (r_config_refresh_interval_seconds r)
  (r_request_timeout_seconds r) (r_max_retry_attempts r) (r_labels r) (r_jobs r) (r_collectors r)
  (r_exporters r) (r_osquery r).
Definition set_checkin v r := mkRaw (r_renga_url r) (r_allow_insecure_http r) (r_intake_api_key r)
  (r_installation_id r) (r_inventory_interval_seconds r) v (r_config_refresh_interval_seconds r)
  (r_request_timeout_seconds r) (r_max_retry_attempts r) (r_labels r) (r_jobs r) (r_collectors r)
  (r_exporters r) (r_osquery r).
Definition set_refresh v r := mkRaw (r_renga_url r) (r_allow_insecure_http r) (r_intake_api_key r)
  (r_installation_id r) (r_inventory_interval_seconds r) (r_checkin_interval_seconds r) v
  (r_request_timeout_seconds r) (r_max_retry_attempts r) (r_labels r) (r_jobs r) (r_collectors r)
  (r_exporters r) (r_osquery r).
Definition set_timeout v r := mkRaw (r_renga_url r) (r_allow_insecure_http r) (r_intake_api_key r)
  (r_installation_id r) (r_inventory_interval_seconds r) (r_checkin_interval_seconds r)
  (r_config_refresh_interval_seconds r) v (r_max_retry_attempts r) (r_labels r) (r_jobs r) (r_collectors r)
  (r_exporters r) (r_osquery r).
Definition set_retries v r := mkRaw (r_renga_url r) (r_allow_insecure_http r) (r_intake_api_key r)
  (r_installation_id r) (r_inventory_interval_seconds r) (r_checkin_interval_seconds r)
  (r_config_refresh_interval_seconds r) (r_request_timeout_seconds r) v (r_labels r) (r_jobs r) (r_collectors r)
  (r_exporters r) (r_osquery r).

(** The [RENGA_*] overrides, in the source's order. *)
Definition apply_env (raw : RawConfig) : result RawConfig bytes :=
  let raw := string_env (lit "RENGA_URL") set_url raw in
  let raw := string_env (lit "RENGA_INTAKE_API_KEY") set_key raw in
  let raw := string_env (lit "RENGA_INSTALLATION_ID") set_identity raw in
  let? raw :=
    match env (lit "RENGA_ALLOW_INSECURE_HTTP") with
    | Some v =>
        if str_eqb v (lit "true") then Ok (set_insecure (Some true) raw)
        else if str_eqb v (lit "false") then Ok (set_insecure (Some false) raw)
        else Err (lit "RENGA_ALLOW_INSECURE_HTTP must be exactly true or false")
    | None => Ok raw
    end in
  let? raw := number_env U64_MAX (lit "RENGA_INVENTORY_INTERVAL_SECONDS") set_inventory raw in
  let? raw := number_env U64_MAX (lit "RENGA_CHECKIN_INTERVAL_SECONDS") set_checkin raw in
  let? raw := number_env U64_MAX (lit "RENGA_CONFIG_REFRESH_INTERVAL_SECONDS") set_refresh raw in
  let? raw := number_env U64_MAX (lit "RENGA_REQUEST_TIMEOUT_SECONDS") set_timeout raw in
  number_env U32_MAX (lit "RENGA_MAX_RETRY_ATTEMPTS") set_retries raw.

(** [Config::load]; [file] is what [fs::read_to_string] of [path] returns, and
    [parse_toml] the TOML reader. *)
Definition load (parse_toml : bytes -> option RawConfig) (file : result bytes io_kind) (tmp fresh : uuid)
  (path : bytes) : prog (result Config bytes) :=
  match (let? raw := match file with
                     | Ok text => ok_or (parse_toml text) (lit "invalid config TOML in " ++ path)
                     | Err NotFound => Ok no_config
                     | Err e => Err (lit "cannot read config " ++ path ++ lit ": " ++ show_io e)
                     end in
         apply_env raw) with
  | Err e => Ret (Err e)
  | Ok raw => from_raw tmp fresh path raw
  end.
End config.

(** ** What an accepted configuration promises *)

Section promises.
Context {U : Uuid} {L : UrlApi}.

(** Every collector stream's ID. *)
Definition stream_ids (c : Config) : list bytes :=
  map snmp_id (snmp c) ++ map gnmi_id (gnmi c) ++ option_ids (libvirt c)
  ++ map snmp_id (power c) ++ map bmc_id (bmc c).

(** The server's lease on what an agent reported. *)
Definition SERVER_LEASE : Z := from_secs 90.

Definition config_ok (c : Config) : Prop :=
  (starts_with (lit "https://") (renga_url c) = true \/
   allow_insecure_http c = true /\ starts_with (lit "http://") (renga_url c) = true) /\
  trim (intake_api_key c) <> [] /\
  1 <= max_retry_attempts c <= RETRIES_MAX /\
  from_secs 1 <= request_timeout c <= from_secs TIMEOUT_MAX /\
  request_timeout c <= DELIVERY_BUDGET /\
  from_secs 1 <= checkin_interval c /\ checkin_interval c + DELIVERY_BUDGET < SERVER_LEASE /\
  from_secs 1 <= inventory_interval c /\ from_secs 1 <= config_refresh_interval c /\
  zlength (labels c) <= LABELS_MAX /\
  Forall (fun l => valid_label_key (fst l) = true /\ chars_count (snd l) <= LABEL_VALUE_MAX) (labels c) /\
  (forall selectors, enabled_selectors (jobs c) = Some selectors -> zlength selectors <= JOBS_ENABLED_MAX) /\
  NoDup (stream_ids c) /\
  Forall (snmp_ok SWITCH_INTERVALS) (snmp c) /\ Forall (snmp_ok POWER_INTERVALS) (power c) /\
  Forall exporter_ok (exporters c).

(** Numbers of a raw configuration are unsigned. *)
Definition unsigned (o : option Z) : Prop := match o with Some n => 0 <= n | None => True end.
Definition raw_unsigned (r : RawConfig) : Prop :=
  unsigned (r_inventory_interval_seconds r) /\ unsigned (r_checkin_interval_seconds r) /\
  unsigned (r_config_refresh_interval_seconds r) /\ unsigned (r_request_timeout_seconds r).

Lemma duration_ok value default name d :
  unsigned value -> 0 <= default -> duration value default name = Ok d -> from_secs 1 <= d.
Proof.
  intros Hu Hd. unfold duration. destruct (Z.eqb_spec (unwrap_or value default) 0) as [|Hn]; [done|].
  intros [= <-]. assert (0 <= unwrap_or value default) by (by destruct value).
  unfold from_secs, NANOS. lia.
Qed.

Lemma check_labels_ok debug ls :
  check_labels debug ls = Ok tt ->
  Forall (fun l => valid_label_key (fst l) = true /\ chars_count (snd l) <= LABEL_VALUE_MAX) ls.
Proof.
  induction ls as [|[k v] ls IH]; cbn [check_labels]; [constructor|].
  destruct (valid_label_key k) eqn:Hk; cbn [negb]; [|done].
  destruct (Z.ltb_spec LABEL_VALUE_MAX (chars_count v)); [done|]. intros E. constructor; [done|auto].
Qed.

Lemma result_map_length {A B E} (f : A -> result B E) l r : result_map f l = Ok r -> length r = length l.
Proof.
  revert r. induction l as [|x l IH]; intros r; cbn [result_map]; [by intros [= <-]|].
  intros (b & _ & H)%result_bind_ok. apply result_bind_ok in H as (bs & H & [= <-]). simpl. by rewrite (IH bs).
Qed.

Lemma no_clash_ok {C} (id_of : C -> bytes) taken message cs :
  no_clash id_of taken message cs = Ok tt -> forall x, x ∈ map id_of cs -> x ∉ taken.
Proof.
  unfold no_clash. destruct (find_by _ cs) eqn:Hf; [done|]. intros _ x (c & -> & Hc)%list_elem_of_fmap Hin.
  pose proof (proj1 (find_by_None _ _) Hf) as Hn. rewrite List.Forall_forall in Hn.
  assert (existsb (str_eqb (id_of c)) taken = true) as E.
  { apply existsb_exists. exists (id_of c). split; [by apply list_elem_of_In|apply str_eqb_refl]. }
  apply list_elem_of_In in Hc. specialize (Hn c Hc). cbn beta in Hn. congruence.
Qed.

Lemma each_module_good {R C} debug section (parse : R -> result C bytes) id_of raw cs (P : C -> Prop) :
  (forall r c, parse r = Ok c -> P c) ->
  each_module debug section parse id_of raw = Ok cs -> NoDup (map id_of cs) /\ Forall P cs.
Proof.
  intros HP (H2 & Hnd)%each_module_spec. split; [done|]. clear Hnd.
  induction H2 as [|r c raw cs Hr _ IH]; constructor; eauto.
Qed.

(** Sections whose modules do not clash with those before have distinct IDs
    together. *)
Lemma collectors_distinct debug server_name_valid raw sn gn lv pw bm :
  collectors_of debug server_name_valid raw = Ok (sn, gn, lv, pw, bm) ->
  NoDup (map snmp_id sn ++ map gnmi_id gn ++ option_ids lv ++ map snmp_id pw ++ map bmc_id bm) /\
  Forall (snmp_ok SWITCH_INTERVALS) sn /\ Forall (snmp_ok POWER_INTERVALS) pw.
Proof.
  unfold collectors_of. intros (sn' & Esn & H)%result_bind_ok. apply result_bind_ok in H as (gn' & Egn & H).
  apply result_bind_ok in H as ([] & Cgn & H). apply result_bind_ok in H as (lv' & _ & H).
  apply result_bind_ok in H as ([] & Clv1 & H). apply result_bind_ok in H as ([] & Clv2 & H).
  apply result_bind_ok in H as (pw' & Epw & H). apply result_bind_ok in H as ([] & Cpw & H).
  apply result_bind_ok in H as (bm' & Ebm & H). apply result_bind_ok in H as ([] & Cbm & [= <- <- <- <- <-]).
  apply (each_module_good _ _ _ _ _ _ (snmp_ok SWITCH_INTERVALS)) in Esn as [Dsn Gsn];
    [|intros r c; apply snmp_collector_ok].
  apply (each_module_good _ _ _ _ _ _ (fun _ => True)) in Egn as [Dgn _]; [|done].
  apply (each_module_good _ _ _ _ _ _ (snmp_ok POWER_INTERVALS)) in Epw as [Dpw Gpw];
    [|intros r c; apply snmp_collector_ok].
  apply (each_module_good _ _ _ _ _ _ (fun _ => True)) in Ebm as [Dbm _]; [|done].
  split; [|done].
  pose proof (no_clash_ok _ _ _ _ Cgn) as Ngn. pose proof (no_clash_ok _ _ _ _ Cpw) as Npw.
  pose proof (no_clash_ok _ _ _ _ Cbm) as Nbm.
  assert (forall x, x ∈ option_ids lv' -> x ∉ map snmp_id sn' /\ x ∉ map gnmi_id gn') as Nlv.
  { intros x Hx. destruct lv' as [c|]; [|by inversion Hx]. split;
      [apply (no_clash_ok _ _ _ _ Clv1)|apply (no_clash_ok _ _ _ _ Clv2)]; exact Hx. }
  assert (NoDup (option_ids lv')) as Dlv by (destruct lv'; repeat constructor; by intros ?%elem_of_nil).
  clear -Dsn Dgn Dpw Dbm Dlv Ngn Npw Nbm Nlv.
  assert (forall l k : list bytes, NoDup l -> NoDup k -> (forall x, x ∈ k -> x ∉ l) -> NoDup (l ++ k)) as Happ.
  { intros l k Hl Hk Hd. apply list.NoDup_app. split; [done|]. split; [|done]. intros x Hx Hx'. by apply (Hd x). }
  repeat apply Happ; try done; intros x Hx; rewrite ?elem_of_app in Hx.
  - intros Hx'. apply (Nbm x Hx). rewrite !elem_of_app. tauto.
  - intros Hx'. destruct Hx as [Hx|Hx]; [apply (Npw x Hx)|apply (Nbm x Hx)]; rewrite !elem_of_app; tauto.
  - intros Hx'. destruct Hx as [Hx|[Hx|Hx]]; [by apply Nlv in Hx as [_ ?]|apply (Npw x Hx)|apply (Nbm x Hx)];
      rewrite !elem_of_app; tauto.
  - intros Hx'. destruct Hx as [Hx|[Hx|[Hx|Hx]]];
      [by apply (Ngn x)|by apply Nlv in Hx as [? _]|apply (Npw x Hx)|apply (Nbm x Hx)];
      rewrite !elem_of_app; tauto.
Qed.

Lemma required_ok value name v : required value name = Ok v -> trim v <> [].
Proof.
  unfold required, not_blank. destruct value as [x|]; cbn [mbind option_bind ok_or]; [|done].
  case_bool_decide; cbn [ok_or]; [done|]. by intros [= <-].
Qed.

Lemma checkin_duration_ok value d :
  unsigned value -> checkin_duration value = Ok d -> from_secs 1 <= d /\ d + DELIVERY_BUDGET < SERVER_LEASE.
Proof.
  intros Hu. unfold checkin_duration. intros (d' & Hd & H)%result_bind_ok.
  destruct (Z.ltb_spec CHECKIN_MAX (as_secs d')) as [|Hle]; [done|]. injection H as <-.
  pose proof Hd as Hd1. apply duration_ok in Hd1; [|done|done]. split; [done|].
  unfold duration in Hd. destruct (unwrap_or value CHECKIN_DEFAULT =? 0); [done|]. injection Hd as <-.
  unfold as_secs, from_secs in Hle. rewrite Z.div_mul in Hle by done.
  unfold DELIVERY_BUDGET, SERVER_LEASE, from_secs, CHECKIN_MAX, NANOS in *. lia.
Qed.

Lemma validate_ok debug snv path identity raw c :
  raw_unsigned raw -> validate debug snv path identity raw = Ok c -> config_ok c.
Proof.
  intros (Hu1 & Hu2 & Hu3 & Hu4). unfold validate. intros (url & Hurl & H)%result_bind_ok.
  destruct (starts_with (lit "https://") _ || _) eqn:Hscheme; cbn [negb] in H; [|done].
  destruct (within 1 RETRIES_MAX _) eqn:Hretries; cbn [negb] in H; [|done].
  apply result_bind_ok in H as (timeout & Ht & H).
  destruct (Z.ltb_spec TIMEOUT_MAX (as_secs timeout)) as [|Hmax]; [done|].
  apply result_bind_ok in H as (ls & Hls & H). apply result_bind_ok in H as (policy & Hpolicy & H).
  apply result_bind_ok in H as ([[[[sn gn] lv] pw] bm] & Hcs & H).
  apply result_bind_ok in H as (key & Hkey & H). apply result_bind_ok in H as (inv & Hinv & H).
  apply result_bind_ok in H as (checkin & Hcheckin & H). apply result_bind_ok in H as (refresh & Hrefresh & H).
  apply result_bind_ok in H as (ex & Hex & H). apply result_bind_ok in H as (oq & _ & [= <-]).
  assert (from_secs 1 <= timeout) as Ht1 by (by eapply duration_ok in Ht).
  assert (timeout <= from_secs TIMEOUT_MAX) as Ht2.
  { unfold duration in Ht. destruct (_ =? 0); [done|]. injection Ht as <-. unfold as_secs, from_secs in *.
    rewrite Z.div_mul in Hmax by done. unfold NANOS. lia. }
  apply collectors_distinct in Hcs as (Hnd & Hsn & Hpw). apply checkin_duration_ok in Hcheckin as [Hc1 Hc2]; [|done].
  unfold within in Hretries. unfold config_ok, stream_ids. cbn [renga_url allow_insecure_http intake_api_key max_retry_attempts
    request_timeout checkin_interval inventory_interval config_refresh_interval labels jobs snmp gnmi libvirt power bmc exporters].
  split; [apply orb_true_iff in Hscheme as [?|?]; bool_simpl; auto|].
  split; [by eapply required_ok|]. split; [bool_simpl; lia|]. split; [done|].
  split; [unfold DELIVERY_BUDGET, TIMEOUT_MAX, from_secs, NANOS in *; lia|]. split; [done|]. split; [done|].
  split; [by eapply duration_ok in Hinv|]. split; [by eapply duration_ok in Hrefresh|].
  unfold validate_labels in Hls. destruct (Z.ltb_spec LABELS_MAX (zlength (unwrap_or (r_labels raw) []))); [done|].
  apply result_bind_ok in Hls as ([] & Hcl & [= <-]). split; [done|]. split; [by eapply check_labels_ok|].
  split; [|split; [done|]; split; [done|]; split; [done|]; by apply ExportersConfig.from_raw_ok in Hex as [? _]].
  intros selectors Hsel. unfold job_policy in Hpolicy. destruct (unwrap_or (r_jobs raw) None) as [entries|].
  - destruct (Z.ltb_spec JOBS_ENABLED_MAX (zlength entries)); [done|].
    apply result_bind_ok in Hpolicy as (sel & Hsel' & [= <-]). cbn in Hsel. injection Hsel as <-.
    apply result_map_length in Hsel'. unfold zlength in *. lia.
  - injection Hpolicy as <-. done.
Qed.

Lemma run_alone_try_ok {A B E} (p : prog (result A E)) (f : A -> prog (result B E)) : forall os d d' b,
  run_alone (try_bind p f) os d = (d', Ok b) ->
  exists os' d1 a, run_alone (f a) os' d1 = (d', Ok b).
Proof.
  induction p as [[a|e]|T c k IH]; intros os d d' b; unfold try_bind in *; cbn [prog_bind run_alone].
  - eauto.
  - done.
  - destruct (exec c _ d) as [d1 r]. apply IH.
Qed.

Lemma number_env_unsigned env max key set raw raw' :
  0 <= max -> (forall n r, 0 <= n -> raw_unsigned r -> raw_unsigned (set (Some n) r)) ->
  raw_unsigned raw -> number_env env max key set raw = Ok raw' -> raw_unsigned raw'.
Proof.
  intros Hm Hset Hr. unfold number_env. destruct (env key) as [v|]; [|by intros [= <-]].
  intros (n & Hn & [= <-])%result_bind_ok. destruct (parse_uint max v) as [m|] eqn:E; [|done].
  injection Hn as <-. apply parse_uint_range in E; [|done]. apply Hset; [lia|done].
Qed.

Lemma apply_env_unsigned env raw raw' : raw_unsigned raw -> apply_env env raw = Ok raw' -> raw_unsigned raw'.
Proof.
  intros Hr. unfold apply_env. intros (r1 & H1 & H)%result_bind_ok.
  apply result_bind_ok in H as (r2 & H2 & H). apply result_bind_ok in H as (r3 & H3 & H).
  apply result_bind_ok in H as (r4 & H4 & H). apply result_bind_ok in H as (r5 & H5 & H6).
  assert (raw_unsigned r1) as Hr1.
  { revert H1. unfold string_env. repeat case_match; intros [= <-]; exact Hr. }
  assert (forall n r, 0 <= n -> raw_unsigned r -> raw_unsigned (set_inventory (Some n) r) /\
    raw_unsigned (set_checkin (Some n) r) /\ raw_unsigned (set_refresh (Some n) r) /\
    raw_unsigned (set_timeout (Some n) r) /\ raw_unsigned (set_retries (Some n) r)) as Hset.
  { intros n r Hn (? & ? & ? & ?). unfold raw_unsigned. cbn. tauto. }
  eapply number_env_unsigned in H2; [|unfold U64_MAX; lia|intros n r; apply Hset|done].
  eapply number_env_unsigned in H3; [|unfold U64_MAX; lia|intros n r; apply Hset|done].
  eapply number_env_unsigned in H4; [|unfold U64_MAX; lia|intros n r; apply Hset|done].
  eapply number_env_unsigned in H5; [|unfold U64_MAX; lia|intros n r; apply Hset|done].
  eapply number_env_unsigned in H6; [|unfold U32_MAX; lia|intros n r; apply Hset|done]. done.
Qed.

(** C31. Every configuration [load] accepts, whatever the file, the environment
    and the file-system calls do, keeps the promises the rest of the agent relies
    on: HTTPS unless plain HTTP was allowed, a key, at least one and at most five
    attempts, a request timeout inside the delivery budget, a check-in interval
    that with that budget stays below the server's lease, positive intervals,
    valid labels, and no two collector modules of any kind with one stream ID. *)
Theorem loaded_config_ok debug snv show_io dir_display env parse_toml file tmp fresh path os d d' c :
  (forall text raw, parse_toml text = Some raw -> raw_unsigned raw) ->
  run_alone (load debug snv show_io dir_display env parse_toml file tmp fresh path) os d = (d', Ok c) ->
  config_ok c.
Proof.
  intros Htoml. unfold load. destruct (let? raw := _ in apply_env env raw) as [raw|e] eqn:Eraw; [|done].
  assert (raw_unsigned raw) as Hraw.
  { apply result_bind_ok in Eraw as (r0 & Hr0 & Henv). eapply apply_env_unsigned; [|exact Henv].
    destruct file as [text|[]]; [|injection Hr0 as <-; done|done|done].
    destruct (parse_toml text) eqn:E; [|done]. injection Hr0 as <-. by eapply Htoml. }
  intros (os' & d1 & u & H)%run_alone_try_ok. cbn [run_alone] in H. injection H as _ H. by eapply validate_ok.
Qed.
End promises.

(** ** A small configuration, to evaluate the theorem on *)

Section sample.
#[local] Existing Instance tiny_uuid.
#[local] Existing Instance tiny_url.
Abbreviation id0 := (U0 : @uuid tiny_uuid).
Abbreviation id1 := (U1 : @uuid tiny_uuid).

Definition sample_snmp (id : bytes) : RawSnmpCollector :=
  mkRawSnmp (Some id) (Some [lit "10.0.0.1"; lit "10.0.0.2:1161"]) None None (Some (lit "renga")) None
    (Some (lit "/a")) None (Some (lit "/p")) None None None None.

Definition sample_collectors : RawCollectors :=
  mkRawCollectors (Some [sample_snmp (lit "core")]) None (Some (mkRawLibvirt None None None None))
    (Some [sample_snmp (lit "pdus")]) None.

Definition sample_toml (collectors : RawCollectors) (_ : bytes) : option RawConfig :=
  Some (mkRaw (Some (lit "https://renga.test/")) None (Some (lit "secret")) None None (Some 45) None None None
          (Some [(lit "team", lit "storage")]) None (Some collectors) None None).

Definition sample_env (key : bytes) : option bytes :=
  if str_eqb key (lit "RENGA_MAX_RETRY_ATTEMPTS") then Some (lit "3") else None.

Definition sample_load collectors :=
  load id (fun _ => true) (fun _ => []) [] sample_env (sample_toml collectors) (Ok []) id0 id1 [].

Lemma loaded_config_ok_witness :
  exists c, snd (run_alone (sample_load sample_collectors) [] (mkDir None 0 ∅)) = Ok c /\
    max_retry_attempts c = 3 /\ stream_ids c = [lit "core"; lit "libvirt"; lit "pdus"] /\ config_ok c.
Proof.
  assert (exists c, snd (run_alone (sample_load sample_collectors) [] (mkDir None 0 ∅)) = Ok c /\
    max_retry_attempts c = 3 /\ stream_ids c = [lit "core"; lit "libvirt"; lit "pdus"]) as (c & Hc & H1 & H2)
    by (eexists; vm_compute; repeat split; reflexivity).
  exists c. split; [exact Hc|]. split; [exact H1|]. split; [exact H2|].
  destruct (run_alone (sample_load sample_collectors) [] (mkDir None 0 ∅)) as [d r] eqn:E.
  cbn [snd] in Hc. subst r.
  apply (loaded_config_ok id (fun _ => true) (fun _ => []) [] sample_env (sample_toml sample_collectors) (Ok []) id0 id1 []
           [] (mkDir None 0 ∅) d c); [|exact E].
  intros text raw [= <-]. unfold raw_unsigned. cbn. lia.
Defined.

Example stream_ids_used_once :
  snd (run_alone (sample_load (mkRawCollectors (Some [sample_snmp (lit "core")]) None None
                                 (Some [sample_snmp (lit "core")]) None)) [] (mkDir None 0 ∅))
  = Err (lit "collectors.power: id core is already used by another collector module").
Proof. vm_compute. reflexivity. Qed.
End sample.
