(* ===== verification/Client.v ===== *)
(** * transport.rs: the HTTP client

    URLs, credentials, deadlines the server asked for, moves it reported, and the
    requests for check-ins, observations, telemetry, leases, claims and reports.
    The network is any [Net]; every request sent is logged with its time.  The
    [Arc]s that clones and replacements of a client share (the moved flag and the
    retry deadlines, created and shared together) are cells of a store, and a
    client holds the index of its cell. *)

From Stdlib Require Import String.
From S2P Require Import Prelude Text Interfaces Identity Transport SnmpConfig Config.

Definition CHECKIN_PATH : bytes := lit "/api/v1/agent/checkins".
Definition OBSERVATION_PATH : bytes := lit "/api/v1/observations".
Definition TELEMETRY_PATH : bytes := lit "/api/v1/telemetry".
Definition JOB_LEASE_PATH : bytes := lit "/api/v1/agent/jobs/lease".
Definition HOME_PATH : bytes := lit "/api/v1/agent/home".
Definition INSTALLATION_ID_HEADER : bytes := lit "x-renga-installation-id".
Definition AUTHORIZATION : bytes := lit "authorization".
Definition CONTENT_TYPE : bytes := lit "content-type".
Definition JSON_TYPE : bytes := lit "application/json".

Inductive method := Get | Post.

(** ** Origins *)

Section urls.
Context {L : UrlApi}.

Definition origin_url (value : bytes) (allow_insecure : bool) (name : bytes) : result url TransportError :=
  let has_explicit_authority :=
    match split_once_str (lit "://") value with
    | Some (_, authority) => negb (bool_decide (authority = [])) && negb (starts_with (lit "/") authority)
    | None => false
    end in
  let? u := ok_or (url_parse value) (transport_error (lit "invalid " ++ name) Permanent) in
  if str_eqb (url_scheme u) (lit "http") && negb allow_insecure
  then Err (transport_error (name ++ lit " must use HTTPS unless insecure HTTP is explicitly enabled") Permanent)
  else if negb has_explicit_authority
          || negb (str_eqb (url_scheme u) (lit "http") || str_eqb (url_scheme u) (lit "https"))
          || negb (is_some (url_host_str u))
          || negb (bool_decide (url_username u = []))
          || is_some (url_password u) || is_some (url_query u) || is_some (url_fragment u)
          || negb (str_eqb (url_path u) (lit "/"))
  then Err (transport_error (name ++ lit " must be an HTTP(S) origin without credentials, path, query, or fragment")
              Permanent)
  else Ok u.

Definition endpoint_url (base : url) (path : bytes) : result url TransportError :=
  ok_or (url_join base path) (transport_error (lit "cannot construct Renga API endpoint URL") Permanent).
End urls.

(** ** The network *)

Record request {L : UrlApi} := mkRequest {
  req_method : method;
  req_url : url;
  req_headers : list (bytes * bytes);
  req_body : bytes;
  req_timeout : Z }.
Arguments request L : clear implicits.
Arguments mkRequest {L}.

(** What reqwest says of a request that got no response. *)
Record send_error := mkSendError { is_timeout : bool; is_connect : bool; is_request : bool; send_text : bytes }.

Class Net {L : UrlApi} := {
  net : Type;
  net_now : net -> Z;                                        (* [Instant::now] *)
  net_wall : net -> Z;                                       (* [Utc::now], nanoseconds *)
  net_send : request L -> net -> net * result response send_error;
  net_sleep : Z -> net -> net;                               (* [thread::sleep] *)
  net_cancelled : net -> bool }.                             (* the daemon's shutdown *)

(** One request as it went: when it was sent, what came back, and what the two clocks said
    then. *)
Record exchange {L : UrlApi} := mkExchange {
  ex_at : Z;
  ex_request : request L;
  ex_received : Z;
  ex_wall : Z;
  ex_answer : result response send_error }.
Arguments exchange L : clear implicits.
Arguments mkExchange {L}.

(** What clones and replacements of a client share. *)
Record Signal := mkSignal { sig_moved : bool; retry_deadlines : gmap bytes Z }.
Definition no_signal : Signal := mkSignal false ∅.

Section client.
Context {J : Json} {U : Uuid} {L : UrlApi} {K : Ed25519} {B : Base64} {N : Net}.
(** Formatting and parsing of other crates: [describe] and [parse_rfc2822] as in
    Transport.v, [header_value] is [HeaderValue::from_str], [build] is building the
    TLS configuration and the reqwest client. *)
Context (describe : Z -> bytes -> bytes) (parse_rfc2822 : bytes -> option Z)
        (header_value : bytes -> option bytes) (build : Z -> result unit TransportError).

(** The network, the store of shared cells, and the requests sent so far. *)
Record agent := mkAgent { outside : net; signals : list Signal; sent : list (exchange L) }.

Definition now (s : agent) : Z := net_now (outside s).
Definition sleep (d : Z) (s : agent) : agent := mkAgent (net_sleep d (outside s)) (signals s) (sent s).
Definition shutdown (s : agent) : bool := net_cancelled (outside s).

Definition send (rq : request L) (s : agent) : agent * result response TransportError :=
  let '(o, r) := net_send rq (outside s) in
  (mkAgent o (signals s) (sent s ++ [mkExchange (now s) rq (net_now o) (net_wall o) r]),
   map_err (fun e => request_error (is_timeout e) (is_connect e) (is_request e) (send_text e)) r).

(** ** Clients *)

Record ClientSettings := mkSettings {
  home : url;
  key : bytes;
  installation : uuid;
  timeout : Z;
  attempts : Z }.

Definition settings_new (config : Config) (h : url) : result ClientSettings TransportError :=
  let? origin := origin_url (url_as_str h) (allow_insecure_http config) (lit "home URL") in
  Ok (mkSettings origin (intake_api_key config) (installation_id config) (request_timeout config)
        (max_retry_attempts config)).

Record HttpClient := mkClient {
  settings : ClientSettings;
  checkin_url : url;
  observation_url : url;
  telemetry_url : url;
  lease_url : url;
  authorization : bytes;
  installation_header : bytes;
  client_key : option InstallationKey;
  signal : nat }.

Definition from_settings (st : ClientSettings) : ST agent TransportError HttpClient := fun s =>
  match (let? checkin := endpoint_url (home st) CHECKIN_PATH in
         let? observation := endpoint_url (home st) OBSERVATION_PATH in
         let? telemetry := endpoint_url (home st) TELEMETRY_PATH in
         let? lease := endpoint_url (home st) JOB_LEASE_PATH in
         let? auth := ok_or (header_value (lit "Bearer " ++ key st))
                        (transport_error (lit "invalid intake API key") Permanent) in
         let? id := ok_or (header_value (uuid_show (installation st)))
                      (transport_error (lit "invalid installation ID") Permanent) in
         let? _ := build (timeout st) in
         Ok (mkClient st checkin observation telemetry lease auth id None (length (signals s)))) with
  | Ok c => (mkAgent (outside s) (signals s ++ [no_signal]) (sent s), Ok c)
  | Err e => (s, Err e)
  end.

Definition for_home (config : Config) (h : url) : ST agent TransportError HttpClient :=
  let* st := st_of_result (settings_new config h) in from_settings st.

Definition client_new (config : Config) : ST agent TransportError HttpClient :=
  let* base := st_of_result (origin_url (renga_url config) (allow_insecure_http config) (lit "Renga server URL")) in
  for_home config base.

(** Equality of settings is derived, field by field. *)
Definition settings_eqb (a b : ClientSettings) : bool :=
  bool_decide (home a = home b) && str_eqb (key a) (key b)
  && bool_decide (installation a = installation b) && (timeout a =? timeout b) && (attempts a =? attempts b).

Definition sends_like (c other : HttpClient) : bool :=
  settings_eqb (settings c) (settings other)
  && bool_decide (option_map public_key (client_key c) = option_map public_key (client_key other)).

Definition with_installation_key (c : HttpClient) (k : InstallationKey) : HttpClient :=
  mkClient (settings c) (checkin_url c) (observation_url c) (telemetry_url c) (lease_url c) (authorization c)
    (installation_header c) (Some k) (signal c).

Definition sharing_moved_signal (c previous : HttpClient) : HttpClient :=
  if bool_decide (home (settings c) = home (settings previous))
  then mkClient (settings c) (checkin_url c) (observation_url c) (telemetry_url c) (lease_url c) (authorization c)
         (installation_header c) (client_key c) (signal previous)
  else c.

(** ** What clients share *)

Definition signal_of (c : HttpClient) (s : agent) : Signal :=
  match signals s !! signal c with Some g => g | None => no_signal end.
Definition update_signal (c : HttpClient) (f : Signal -> Signal) (s : agent) : agent :=
  mkAgent (outside s) (alter f (signal c) (signals s)) (sent s).

Definition take_moved (c : HttpClient) : Run agent bool := fun s =>
  (update_signal c (fun g => mkSignal false (retry_deadlines g)) s, sig_moved (signal_of c s)).

Definition noting_moved {T} (c : HttpClient) (r : result T TransportError) : Run agent (result T TransportError) :=
  fun s => (match r with
            | Err e => if err_moved e then update_signal c (fun g => mkSignal true (retry_deadlines g)) s else s
            | Ok _ => s
            end, r).

Definition retry_class (u : url) : bytes :=
  let path := url_path u in
  if str_eqb path OBSERVATION_PATH then lit "observations"
  else if str_eqb path TELEMETRY_PATH then lit "telemetry"
  else if str_eqb path CHECKIN_PATH then lit "checkins"
  else if str_eqb path JOB_LEASE_PATH then lit "leases"
  else if ends_with (lit "/claims") path then lit "claims"
  else lit "reports".

Definition check_retry_deadline (c : HttpClient) (u : url) (s : agent) : result unit TransportError :=
  match retry_deadlines (signal_of c s) !! retry_class u with
  | Some deadline =>
      if now s <? deadline
      then Err (mkError (lit "server requested retry later") Transient (Some TOO_MANY_REQUESTS) (Some deadline)
                  false false)
      else Ok tt
  | None => Ok tt
  end.

Definition note_deadline (class : bytes) (deadline : Z) (g : Signal) : Signal :=
  mkSignal (sig_moved g)
    (<[class := match retry_deadlines g !! class with Some d => Z.max d deadline | None => deadline end]>
       (retry_deadlines g)).

Definition remember_retry_deadline {T} (c : HttpClient) (u : url) (r : result T TransportError)
  : Run agent (result T TransportError) := fun s =>
  (match r with
   | Err e => match retry_not_before e with
              | Some deadline => update_signal c (note_deadline (retry_class u) deadline) s
              | None => s
              end
   | Ok _ => s
   end, r).

(** ** Posting *)

Definition credentials (c : HttpClient) : list (bytes * bytes) :=
  [(AUTHORIZATION, authorization c); (INSTALLATION_ID_HEADER, installation_header c)].

(** One attempt: refused before the server's deadline, else sent and read. *)
Definition attempt_post {T} (c : HttpClient) (u : url) (body : result bytes bytes) (tmo : Z)
  (read : agent -> response -> result T TransportError) (s : agent) : agent * result T TransportError :=
  match check_retry_deadline c u s with
  | Err e => (s, Err e)
  | Ok _ =>
      match body with
      | Err text => (s, Err (request_error false false false text))
      | Ok body =>
          match send (mkRequest Post u (credentials c ++ [(CONTENT_TYPE, JSON_TYPE)]) body tmo) s with
          | (s1, Err e) => (s1, Err e)
          | (s1, Ok r) => remember_retry_deadline c u (read s1 r) s1
          end
      end
  end.

(** [unreachable!] after a loop of no attempts is [None]. *)
Definition noting {T} (c : HttpClient) (sr : agent * option (result T TransportError))
  : agent * option (result T TransportError) :=
  match sr with
  | (s, Some r) => let '(s, r) := noting_moved c r s in (s, Some r)
  | (s, None) => (s, None)
  end.

Definition read_result (s : agent) (r : response) : result unit TransportError :=
  response_result describe parse_rfc2822 (net_wall (outside s)) (now s) r.
Definition read_body (s : agent) (r : response) : result bytes TransportError :=
  response_body describe parse_rfc2822 (net_wall (outside s)) (now s) r.

Definition post_encoded_while (c : HttpClient) (u : url) (body : bytes) (cancelled : agent -> bool) (s : agent)
  : agent * option (result unit TransportError) :=
  let tmo := Z.min (timeout (settings c)) DELIVERY_BUDGET in
  noting c (retry now (attempt_post c u (Ok body) tmo read_result) sleep cancelled tmo (attempts (settings c)) s).

Definition post_encoded_observation (c : HttpClient) (body : bytes) :=
  post_encoded_while c (observation_url c) body shutdown.
(** [cancelled] is the job's own cancellation. *)
Definition post_encoded_observation_with_cancellation (c : HttpClient) (body : bytes) (cancelled : agent -> bool) :=
  post_encoded_while c (observation_url c) body (fun s => shutdown s || cancelled s).

Definition post_encoded_telemetry (c : HttpClient) (body : bytes) (s : agent)
  : agent * option (result unit TransportError) :=
  let '(s, r) := post_encoded_while c (telemetry_url c) body shutdown s in
  (s, option_map (map_err (fun e =>
        if collector_kind_conflict e
        then mkError (message e) PayloadRejected (err_status e) (retry_not_before e) (err_moved e) true
        else e)) r).

Definition post_reading_with_budget (c : HttpClient) (u : url) (value : result bytes bytes) (budget : Z) (s : agent)
  : agent * option (result bytes TransportError) :=
  let budget := Z.min budget DELIVERY_BUDGET in
  let tmo := Z.min (timeout (settings c)) budget in
  noting c (retry_with_budget now
    (fun s => if budget =? 0
              then (s, Err (transport_error (lit "job lease delivery budget expired") Transient))
              else attempt_post c u value tmo read_body s)
    sleep shutdown tmo budget (attempts (settings c)) s).

Definition post_reading (c : HttpClient) (u : url) (value : result bytes bytes) :=
  post_reading_with_budget c u value DELIVERY_BUDGET.

(** Parsing a successful answer; [decode] is serde's, with its error text. *)
Definition parsed {T} (decode : bytes -> result T bytes) (r : result bytes TransportError) : result T TransportError :=
  let? body := r in
  map_err (fun e => transport_error (lit "cannot parse server response: " ++ e) Permanent) (decode body).

Definition post_json {T} (c : HttpClient) (u : url) (value : result bytes bytes) (decode : bytes -> result T bytes)
  (s : agent) : agent * option (result T TransportError) :=
  let '(s, r) := post_reading c u value s in (s, option_map (parsed decode) r).

(** A body the agent cannot read still means the check-in was accepted. *)
Definition post_checkin {T} (c : HttpClient) (value : result bytes bytes) (decode : bytes -> result T bytes) (default : T)
  (s : agent) : agent * option (result T TransportError) :=
  let '(s, r) := post_reading c (checkin_url c) value s in
  (s, option_map (fun r => let? body := r in
                           Ok (match decode body with Ok a => a | Err _ => default end)) r).

Definition events_path (job : uuid) : bytes := lit "/api/v1/agent/jobs/" ++ uuid_show job ++ lit "/events".

Definition post_job_report_before {T} (c : HttpClient) (job : uuid) (report : result bytes bytes) (deadline : Z)
  (decode : bytes -> result T bytes) (s : agent) : agent * option (result T TransportError) :=
  match endpoint_url (home (settings c)) (events_path job) with
  | Err e => (s, Some (Err e))
  | Ok u =>
      let '(s, r) := post_reading_with_budget c u report (since deadline (now s)) s in
      (s, option_map (parsed decode) r)
  end.

Definition post_job_report {T} (c : HttpClient) (job : uuid) (report : result bytes bytes)
  (decode : bytes -> result T bytes) (s : agent) : agent * option (result T TransportError) :=
  match endpoint_url (home (settings c)) (events_path job) with
  | Err e => (s, Some (Err e))
  | Ok u => post_json c u report decode s
  end.
End client.

(** ** Leasing jobs *)

Definition MAX_OBSERVATION_BYTES : Z := 256000.

Section leasing.
Context {J : Json} {U : Uuid} {L : UrlApi} {K : Ed25519} {B : Base64} {N : Net}.
Context (describe : Z -> bytes -> bytes) (parse_rfc2822 : bytes -> option Z).

Record JobOffer := mkOffer {
  offer_job_id : uuid;
  offer_capability : bytes;
  offer_lease_token : bytes;
  offer_nonce : bytes;
  resource_id : uuid;
  binding_version : Z;
  offer_expires_at : Z }.                        (* nanoseconds of wall-clock time *)

(** [JobOffer::message]: what the installation key signs. *)
Definition offer_message (o : JobOffer) (installation_id : uuid) : bytes :=
  lit "renga-job-lease-v1" ++ [10] ++ uuid_show (offer_job_id o) ++ [10] ++ offer_lease_token o ++ [10]
  ++ offer_nonce o ++ [10] ++ uuid_show installation_id ++ [10] ++ uuid_show (resource_id o) ++ [10]
  ++ show_u64 (binding_version o) ++ [10].

Record JobClaim := mkClaim { claim_token : bytes; claim_nonce : bytes; claim_signature : bytes }.

(** serde's encodings of what is sent and decodings of what is answered. *)
Context {leased : Type}.
Context (encode_lease : list bytes -> Z -> result bytes bytes)
        (decode_lease : bytes -> result (list leased * list JobOffer) bytes)
        (encode_claim : JobClaim -> result bytes bytes) (decode_leased : bytes -> result leased bytes).

Definition claims_path (job : uuid) : bytes := lit "/api/v1/agent/jobs/" ++ uuid_show job ++ lit "/claims".

Definition claim_offer (c : HttpClient) (o : JobOffer) (s : agent)
  : agent * option (result leased TransportError) :=
  match client_key c with
  | None => (s, Some (Err (transport_error (lit "no installation key to claim a privileged job") Permanent)))
  | Some k =>
      match endpoint_url (home (settings c)) (claims_path (offer_job_id o)) with
      | Err e => (s, Some (Err e))
      | Ok u =>
          let claim := mkClaim (offer_lease_token o) (offer_nonce o)
                         (url_safe_no_pad (sign k (offer_message o (installation (settings c))))) in
          let budget := since (offer_expires_at o) (net_wall (outside s)) in
          let '(s, r) := post_reading_with_budget describe parse_rfc2822 c u (encode_claim claim) budget s in
          (s, option_map (parsed decode_leased) r)
      end
  end.

(** The loop over the offers: one that cannot be claimed is only logged. *)
Fixpoint claim_offers (c : HttpClient) (offers : list JobOffer) (jobs : list leased) (s : agent)
  : agent * option (list leased) :=
  match offers with
  | [] => (s, Some jobs)
  | o :: offers' =>
      match claim_offer c o s with
      | (s, Some (Ok job)) => claim_offers c offers' (jobs ++ [job]) s
      | (s, Some (Err _)) => claim_offers c offers' jobs s
      | (s, None) => (s, None)
      end
  end.

Definition lease_jobs (c : HttpClient) (capabilities : list bytes) (limit : Z) (s : agent)
  : agent * option (result (list leased) TransportError) :=
  match post_json describe parse_rfc2822 c (lease_url c) (encode_lease capabilities limit) decode_lease s with
  | (s, Some (Ok (jobs, offers))) =>
      let '(s, r) := claim_offers c offers jobs s in (s, option_map Ok r)
  | (s, Some (Err e)) => (s, Some (Err e))
  | (s, None) => (s, None)
  end.

(** ** Observations *)

(** [encoded] is serde's encoding, if it has one. *)
Definition encode_observation (encoded : option bytes) : result bytes TransportError :=
  let? body := ok_or encoded (transport_error (lit "cannot serialize observation payload") PayloadRejected) in
  if MAX_OBSERVATION_BYTES <? zlength body
  then Err (transport_error (lit "encoded observation exceeds 256000-byte limit (encoded size: "
                             ++ show_u64 (zlength body) ++ lit " bytes)") PayloadRejected)
  else Ok body.

Definition post_observation (c : HttpClient) (encoded : option bytes) (s : agent)
  : agent * option (result unit TransportError) :=
  match encode_observation encoded with
  | Err e => (s, Some (Err e))
  | Ok body => post_encoded_observation describe parse_rfc2822 c body s
  end.

(** The fields of [ObservationAccepted] the check reads; times in nanoseconds. *)
Record ObservationAccepted := mkAccepted {
  accepted_status : bytes;
  accepted_duplicate : bool;
  accepted_observation_id : bytes;
  accepted_observed_at : Z;
  receipt_position : Z }.

Definition invalid_receipt : TransportError :=
  transport_error (lit "server did not return a matching durable observation receipt") Permanent.

Definition validate_observation_receipt (decode_accepted : bytes -> option ObservationAccepted)
  (parse_rfc3339 : bytes -> option Z) (status : Z) (submitted response : bytes) : result unit TransportError :=
  let? accepted := ok_or (decode_accepted response) invalid_receipt in
  let? submitted := ok_or (json_from_slice submitted) invalid_receipt in
  let field name := let+ v := json_get submitted name in json_as_str v in
  let? observed_at := ok_or (let+ v := field (lit "observed_at") in parse_rfc3339 v) invalid_receipt in
  if negb (str_eqb (accepted_status accepted) (lit "accepted"))
     || negb (((status =? ACCEPTED) && negb (accepted_duplicate accepted))
              || ((status =? OK_STATUS) && accepted_duplicate accepted))
     || (receipt_position accepted =? 0)
     || negb (bool_decide (field (lit "observation_id") = Some (accepted_observation_id accepted)))
     || negb (as_millis observed_at =? as_millis (accepted_observed_at accepted))
     || match (let+ source := json_get submitted (lit "source") in json_get source (lit "source_id")) with
        | Some id => negb (json_is_null id)
        | None => false
        end
  then Err invalid_receipt
  else Ok tt.
End leasing.

(** ** Asking for the home *)

Section home.
Context {J : Json} {U : Uuid} {L : UrlApi} {N : Net}.
Context (describe : Z -> bytes -> bytes) (parse_rfc2822 : bytes -> option Z)
        (build : Z -> result unit TransportError).
(** [url.query_pairs_mut().append_pair(..)], and [AgentHome]'s [home]. *)
Context (append_pair : url -> bytes -> bytes -> url) (decode_home : bytes -> result bytes bytes).

Definition fetch_home (config : Config) (deployment : bytes) (s : agent) : agent * option (result url TransportError) :=
  match (let? base := origin_url (renga_url config) (allow_insecure_http config) (lit "Renga server URL") in
         let? u := endpoint_url base HOME_PATH in
         let? _ := build (request_timeout config) in
         Ok (append_pair u (lit "deployment") deployment)) with
  | Err e => (s, Some (Err e))
  | Ok u =>
      let '(s, r) := retry now
        (fun s => match send (mkRequest Get u [] [] (request_timeout config)) s with
                  | (s1, Err e) => (s1, Err e)
                  | (s1, Ok r) => (s1, read_body describe parse_rfc2822 s1 r)
                  end)
        sleep shutdown (request_timeout config) (max_retry_attempts config) s in
      (s, option_map (fun r =>
            let? body := r in
            let? h := map_err (fun e => transport_error (lit "cannot parse home response: " ++ e) Permanent)
                        (decode_home body) in
            origin_url h (allow_insecure_http config) (lit "home URL")) r)
  end.
End home.

(** ** What every post keeps *)

(** What holds of every state the retry loop goes through, and of the error it
    ends with. *)
Lemma retry_invariant {S T} (clock : S -> Z) (op : S -> S * result T TransportError) slp cancelled rt budget
  (I : S -> Prop) (E : TransportError -> S -> Prop) :
  (forall s s' r, I s -> op s = (s', r) -> I s' /\ forall e, r = Err e -> E e s') ->
  (forall d s, I s -> I (slp d s)) -> (forall d e s, E e s -> E e (slp d s)) ->
  (forall s, E cancelled_error s) ->
  forall n s s' r, I s -> retry_with_budget clock op slp cancelled rt budget n s = (s', r) ->
  I s' /\ forall e, r = Some (Err e) -> E e s'.
Proof.
  intros Hop Hsl Hse Hce n. unfold retry_with_budget. intros s. revert s.
  assert (forall fuel left e s s' r, I s -> E e s -> backoff slp cancelled fuel left s = (s', r) -> I s' /\ E e s') as Hback.
  { induction fuel as [|fuel IH]; intros left e s s' r HI HE; cbn [backoff]; destruct (left <=? 0);
      try (by intros [= <- <-]). destruct (cancelled s); [by intros [= <- <-]|]. apply IH; auto. }
  assert (forall left started delay s s' r, I s ->
    retry_loop clock op slp cancelled rt budget left started delay s = (s', r) ->
    I s' /\ forall e, r = Some (Err e) -> E e s') as Hloop.
  { induction left as [|left IH]; intros started delay s s' r HI; cbn [retry_loop].
    { intros [= <- <-]. done. }
    destruct (cancelled s); [intros [= <- <-]; split; [done|]; intros e [= <-]; apply Hce|].
    destruct (op s) as [s1 [v|error]] eqn:Eo; destruct (Hop _ _ _ HI Eo) as [HI1 HE1].
    { intros [= <- <-]. done. }
    specialize (HE1 error eq_refl).
    destruct (_ || Nat.eqb left 0); [intros [= <- <-]; split; [done|]; by intros e [= <-]|].
    destruct (budget <? _); [intros [= <- <-]; split; [done|]; by intros e [= <-]|].
    destruct (backoff _ _ _ _ s1) as [s2 [[]|]] eqn:Eb; destruct (Hback _ _ _ _ _ _ HI1 HE1 Eb) as [HI2 HE2].
    - destruct (budget <? _); [intros [= <- <-]; split; [done|]; by intros e [= <-]|]. by apply IH.
    - intros [= <- <-]. split; [done|]. intros e [= <-]. apply Hce.
    - intros [= <- <-]. done. }
  intros s s' r HI Hr. by eapply Hloop.
Qed.

Section keeps.
Context {J : Json} {U : Uuid} {L : UrlApi} {K : Ed25519} {B : Base64} {N : Net}.
Context (describe : Z -> bytes -> bytes) (parse_rfc2822 : bytes -> option Z).

(** The deadline the server last set for the class of [u]. *)
Definition deadline (c : HttpClient) (u : url) (s : agent) : option Z :=
  retry_deadlines (signal_of c s) !! retry_class u.

Definition no_earlier (before after : option Z) : Prop :=
  forall d, before = Some d -> exists d', after = Some d' /\ d <= d'.

(** The time an answer asks to wait until: its [Retry-After], unless it is a success. *)
Definition asked_to_wait (x : exchange L) : option Z :=
  match ex_answer x with
  | Ok r => if is_success (resp_status r) then None
            else let+ v := resp_retry_after r in retry_after parse_rfc2822 (ex_wall x) (ex_received x) v
  | Err _ => None
  end.

(** A request of a post: to [u], with this client's credentials. *)
Definition own_request (c : HttpClient) (u : url) (x : exchange L) : Prop :=
  req_method (ex_request x) = Post /\ req_url (ex_request x) = u /\
  req_headers (ex_request x) = credentials c ++ [(CONTENT_TYPE, JSON_TYPE)].

(** Each request of a log waited until [d], and until each answer before it asked for. *)
Fixpoint patient (d : option Z) (l : list (exchange L)) : Prop :=
  match l with
  | [] => True
  | x :: l' => (forall t, d = Some t -> t <= ex_at x) /\ patient d l' /\
               forall y t, y ∈ l' -> asked_to_wait x = Some t -> t <= ex_at y
  end.

(** The requests of a post: to [u] only, with this client's credentials only, none
    before the deadline on record when it began or named by an answer since, which is on
    record afterwards; and what it may change of the store. *)
Record posted (c : HttpClient) (u : url) (s s' : agent) : Prop := mkPosted {
  posted_log : exists new, sent s' = sent s ++ new /\ Forall (own_request c u) new /\
    patient (deadline c u s) new /\
    Forall (fun x => no_earlier (asked_to_wait x) (deadline c u s')) new;
  posted_deadline : no_earlier (deadline c u s) (deadline c u s');
  posted_classes : forall k, k <> retry_class u ->
    retry_deadlines (signal_of c s') !! k = retry_deadlines (signal_of c s) !! k;
  posted_cells : forall i, i <> signal c -> signals s' !! i = signals s !! i;
  posted_store : length (signals s') = length (signals s) }.

(** An error that names a deadline has it on record. *)
Definition recorded (c : HttpClient) (u : url) (e : TransportError) (s : agent) : Prop :=
  forall d, retry_not_before e = Some d -> no_earlier (Some d) (deadline c u s).

Lemma no_earlier_refl o : no_earlier o o.
Proof. intros d ->. exists d. split; [done|lia]. Qed.

Lemma no_earlier_trans a b c : no_earlier a b -> no_earlier b c -> no_earlier a c.
Proof.
  intros H1 H2 d Hd. destruct (H1 d Hd) as (d1 & E1 & ?). destruct (H2 d1 E1) as (d2 & E2 & ?).
  exists d2. split; [done|lia].
Qed.

Lemma posted_refl c u s : posted c u s s.
Proof.
  constructor; try done; [|apply no_earlier_refl]. exists []. rewrite app_nil_r. split_and!; [done|constructor|done|constructor].
Qed.

Lemma patient_snoc d l x :
  patient d l -> (forall t, d = Some t -> t <= ex_at x) ->
  (forall y t, y ∈ l -> asked_to_wait y = Some t -> t <= ex_at x) -> patient d (l ++ [x]).
Proof.
  intros Hp Hd Hx. induction l as [|z l IH]; cbn [app patient] in *.
  { split_and!; [done|done|]. intros y t Hy. by apply not_elem_of_nil in Hy. }
  destruct Hp as (H1 & H2 & H3). split_and!; [done|apply IH; [done|]|].
  - intros y t Hy. apply Hx. by right.
  - intros y t [Hy| ->%list_elem_of_singleton]%elem_of_app; [by apply H3|]. apply Hx. by left.
Qed.

(** Recording later deadlines keeps those of a log on record. *)
Lemma kept_on_record (l : list (exchange L)) o o' :
  no_earlier o o' -> Forall (fun x => no_earlier (asked_to_wait x) o) l -> Forall (fun x => no_earlier (asked_to_wait x) o') l.
Proof. intros Ho. apply Forall_impl. intros x Hx. by eapply no_earlier_trans. Qed.

Lemma signal_of_update c f s :
  (signal c < length (signals s))%nat -> signal_of c (update_signal c f s) = f (signal_of c s).
Proof.
  intros Hr. unfold signal_of, update_signal. cbn [signals]. rewrite list_lookup_alter_eq.
  destruct (lookup_lt_is_Some_2 _ _ Hr) as [g ->]. done.
Qed.

(** What noting a deadline or a move changes: nothing but this client's cell, in which
    deadlines only grow, and only for this kind of request. *)
Record noted (c : HttpClient) (u : url) (s s' : agent) : Prop := mkNoted {
  noted_sent : sent s' = sent s;
  noted_deadline : no_earlier (deadline c u s) (deadline c u s');
  noted_classes : forall k, k <> retry_class u ->
    retry_deadlines (signal_of c s') !! k = retry_deadlines (signal_of c s) !! k;
  noted_cells : forall i, i <> signal c -> signals s' !! i = signals s !! i;
  noted_store : length (signals s') = length (signals s) }.

Lemma noted_refl c u s : noted c u s s.
Proof. constructor; try done. apply no_earlier_refl. Qed.

Lemma posted_noted c u s0 s s' : posted c u s0 s -> noted c u s s' -> posted c u s0 s'.
Proof.
  intros [(new & El & Ho & Hp & Hr) Hdl Hcl Hce Hst] [Ns Nd Nc Nl Nt]. constructor.
  - exists new. rewrite Ns. split_and!; [done..|]. by eapply kept_on_record.
  - by eapply no_earlier_trans.
  - intros k Hk. rewrite Nc by done. by apply Hcl.
  - intros i Hi. rewrite Nl by done. by apply Hce.
  - congruence.
Qed.

(** Updating the client's own cell. *)
Lemma update_noted c u g s :
  (signal c < length (signals s))%nat ->
  no_earlier (deadline c u s) (retry_deadlines (g (signal_of c s)) !! retry_class u) ->
  (forall k, k <> retry_class u -> retry_deadlines (g (signal_of c s)) !! k = retry_deadlines (signal_of c s) !! k) ->
  noted c u s (update_signal c g s).
Proof.
  intros Hr Hd Hk. pose proof (signal_of_update c g s Hr) as Eg. constructor; [done| | | |].
  - unfold deadline at 2. by rewrite Eg.
  - intros k Hne. rewrite Eg. by apply Hk.
  - intros i Hi. unfold update_signal. cbn [signals]. by apply list_lookup_alter_ne.
  - unfold update_signal. cbn [signals]. by rewrite length_alter.
Qed.

Lemma remember_noted {T} c u s (r : result T TransportError) s' r' :
  (signal c < length (signals s))%nat -> remember_retry_deadline c u r s = (s', r') ->
  r' = r /\ noted c u s s' /\ forall e, r = Err e -> recorded c u e s'.
Proof.
  intros Hr. unfold remember_retry_deadline. intros [= <- <-]. split; [done|].
  destruct r as [v|e]; [split; [apply noted_refl|by intros e [=]]|].
  destruct (retry_not_before e) as [dl|] eqn:Edl.
  2: { split; [apply noted_refl|]. intros e' [= <-] d Hd. congruence. }
  split.
  - apply update_noted; [done| |].
    + intros d Hd. unfold note_deadline. cbn [retry_deadlines]. rewrite lookup_insert_eq.
      unfold deadline in Hd. rewrite Hd. eexists. split; [done|lia].
    + intros k Hk. unfold note_deadline. cbn [retry_deadlines]. by rewrite lookup_insert_ne.
  - intros e' [= <-] d Hd. rewrite Edl in Hd. injection Hd as <-. intros d [= <-].
    unfold deadline. rewrite signal_of_update by done. unfold note_deadline. cbn [retry_deadlines].
    rewrite lookup_insert_eq. eexists. split; [done|]. destruct (retry_deadlines _ !! _); lia.
Qed.

(** One more request, sent no earlier than the deadline on record, whose own is then noted. *)
Lemma posted_exchange c u s0 s s1 s' x :
  posted c u s0 s -> check_retry_deadline c u s = Ok tt ->
  sent s1 = sent s ++ [x] -> signals s1 = signals s -> ex_at x = now s -> own_request c u x ->
  noted c u s1 s' -> no_earlier (asked_to_wait x) (deadline c u s') -> posted c u s0 s'.
Proof.
  intros [(new & El & Ho & Hp & Hr) Hdl Hcl Hce Hst] Hc Es Esig Et Hown [Ns Nd Nc Nl Nt] Hx.
  assert (signal_of c s1 = signal_of c s) as Esi by (unfold signal_of; by rewrite Esig).
  assert (forall t, deadline c u s = Some t -> t <= ex_at x) as Hlate.
  { intros t Ht. unfold check_retry_deadline in Hc. unfold deadline in Ht. rewrite Ht in Hc. rewrite Et.
    destruct (Z.ltb_spec (now s) t); [done|lia]. }
  assert (no_earlier (deadline c u s) (deadline c u s')) as Hnd.
  { unfold deadline at 1. rewrite <- Esi. exact Nd. }
  constructor.
  - exists (new ++ [x]). split_and!.
    + by rewrite Ns, Es, El, app_assoc.
    + apply Forall_app. split; [done|]. by constructor.
    + apply patient_snoc; [done| |].
      * intros t Ht. destruct (Hdl t Ht) as (t' & Ht' & ?). specialize (Hlate t' Ht'). lia.
      * intros y t Hy Ht. rewrite List.Forall_forall in Hr.
        destruct (Hr y (proj1 (list_elem_of_In _ _) Hy) t Ht) as (t' & Ht' & ?). specialize (Hlate t' Ht'). lia.
    + apply Forall_app. split; [by eapply kept_on_record|]. by constructor.
  - by eapply no_earlier_trans.
  - intros k Hk. rewrite Nc by done. rewrite Esi. by apply Hcl.
  - intros i Hi. rewrite Nl by done. rewrite Esig. by apply Hce.
  - congruence.
Qed.

(** A reader that reports the deadline of every answer that asks to wait. *)
Definition reports_wait {T} (read : agent -> response -> result T TransportError) : Prop :=
  forall s r x t, ex_answer x = Ok r -> ex_received x = now s -> ex_wall x = net_wall (outside s) ->
  asked_to_wait x = Some t -> exists e, read s r = Err e /\ retry_not_before e = Some t.

Lemma read_result_reports : reports_wait (read_result describe parse_rfc2822).
Proof.
  intros s r x t Ea Er Ew. unfold asked_to_wait. rewrite Ea, Er, Ew. unfold read_result, response_result.
  destruct (is_success (resp_status r)); [done|]. intros Ht. eexists. split; [done|exact Ht].
Qed.

Lemma read_body_reports : reports_wait (read_body describe parse_rfc2822).
Proof.
  intros s r x t Ea Er Ew. unfold asked_to_wait. rewrite Ea, Er, Ew. unfold read_body, response_body.
  destruct (is_success (resp_status r)); [done|]. intros Ht. eexists. split; [done|exact Ht].
Qed.

Lemma attempt_posted {T} c u body tmo (read : agent -> response -> result T TransportError) s0 s s' r :
  (signal c < length (signals s0))%nat -> reports_wait read -> posted c u s0 s ->
  attempt_post c u body tmo read s = (s', r) ->
  posted c u s0 s' /\ forall e, r = Err e -> recorded c u e s'.
Proof.
  intros Hr Hread Hp. assert (signal c < length (signals s))%nat as Hr' by (by rewrite (posted_store _ _ _ _ Hp)).
  unfold attempt_post. destruct (check_retry_deadline c u s) as [[]|e] eqn:Hc.
  2: { intros [= <- <-]. split; [done|]. intros e' [= <-] d Hd. unfold check_retry_deadline in Hc.
       destruct (retry_deadlines (signal_of c s) !! retry_class u) as [dl|] eqn:Edl; [|done].
       destruct (now s <? dl); [|done]. injection Hc as <-. cbn in Hd. injection Hd as <-.
       unfold deadline. rewrite Edl. apply no_earlier_refl. }
  destruct body as [body|text].
  2: { intros [= <- <-]. split; [done|]. intros e [= <-] d. discriminate. }
  unfold send. destruct (net_send _ (outside s)) as [o ans]. set (x := mkExchange _ _ _ _ _).
  destruct ans as [resp|err]; cbn [map_err].
  - set (s1 := mkAgent o (signals s) (sent s ++ [x])). intros H.
    destruct (remember_noted c u s1 _ s' r Hr' H) as (-> & Hn & Hrec). split; [|done].
    eapply (posted_exchange c u s0 s s1 s' x); try done.
    intros t Ht. destruct (Hread s1 resp x t) as (e & Ee & Et); [done..|]. by apply (Hrec e Ee t Et).
  - intros [= <- <-]. split; [|intros e [= <-] d; discriminate].
    eapply (posted_exchange c u s0 s (mkAgent o (signals s) (sent s ++ [x])) _ x); [done..|apply noted_refl|done].
Qed.

Lemma noting_posted {T} c u s0 s (r : option (result T TransportError)) s' r' :
  (signal c < length (signals s))%nat -> posted c u s0 s ->
  (forall e, r = Some (Err e) -> recorded c u e s) -> noting c (s, r) = (s', r') ->
  r' = r /\ posted c u s0 s' /\ (forall e, r = Some (Err e) -> recorded c u e s') /\
  sig_moved (signal_of c s') = (sig_moved (signal_of c s) || match r with Some (Err e) => err_moved e | _ => false end).
Proof.
  intros Hr Hp Hrec. unfold noting, noting_moved.
  destruct r as [[v|e]|]; [|destruct (err_moved e) eqn:Em|]; intros [= <- <-]; try (by rewrite orb_false_r).
  set (g := fun x => mkSignal true (retry_deadlines x)).
  assert (noted c u s (update_signal c g s)) as Hn by (apply update_noted; [done|apply no_earlier_refl|done]).
  split; [done|]. split; [by eapply posted_noted|]. split.
  - intros e' [= <-] d Hd. eapply no_earlier_trans; [by apply (Hrec e eq_refl d Hd)|apply Hn].
  - by rewrite signal_of_update, orb_true_r.
Qed.

Lemma posted_sleep c u s0 d s : posted c u s0 s -> posted c u s0 (sleep d s).
Proof. intros []. by constructor. Qed.

Lemma noting_pair {T} c (x : agent * option (result T TransportError)) : noting c x = noting c (fst x, snd x).
Proof. by destruct x. Qed.

(** A retried post, whatever its reader. *)
Lemma retried_posted {T} c u (op : agent -> agent * result T TransportError) cancelled rt budget n s s' r :
  (signal c < length (signals s))%nat ->
  (forall s1 s2 r, posted c u s s1 -> op s1 = (s2, r) ->
     posted c u s s2 /\ forall e, r = Err e -> recorded c u e s2) ->
  (forall s1 s2 r, op s1 = (s2, r) -> sig_moved (signal_of c s2) = sig_moved (signal_of c s1)) ->
  noting c (retry_with_budget now op sleep cancelled rt budget n s) = (s', r) ->
  posted c u s s' /\
  (forall e, r = Some (Err e) -> recorded c u e s') /\
  sig_moved (signal_of c s') = (sig_moved (signal_of c s) || match r with Some (Err e) => err_moved e | _ => false end).
Proof.
  intros Hr Hop Hmv. destruct (retry_with_budget _ _ _ _ _ _ _ s) as [s1 r1] eqn:E1. intros Hn.
  destruct (retry_invariant now op sleep cancelled rt budget
    (fun x => posted c u s x /\ sig_moved (signal_of c x) = sig_moved (signal_of c s)) (recorded c u)) with
    (n := n) (s := s) (s' := s1) (r := r1) as [[Hp Hm] He]; try done.
  - intros x y ry [Hx Hmx] Ey. destruct (Hop x y ry Hx Ey) as [Hy Hey]. split; [split; [done|]|done].
    by rewrite (Hmv x y ry Ey).
  - intros d x [Hx Hmx]. split; [by apply posted_sleep|done].
  - split; [apply posted_refl|done].
  - destruct (noting_posted c u s s1 r1 s' r) as (-> & ? & ? & Hmoved); try done.
    { by rewrite (posted_store _ _ _ _ Hp). }
    rewrite Hmoved, Hm. done.
Qed.

Lemma attempt_moved {T} c u body tmo (read : agent -> response -> result T TransportError) s s' r :
  attempt_post c u body tmo read s = (s', r) -> sig_moved (signal_of c s') = sig_moved (signal_of c s).
Proof.
  unfold attempt_post. destruct (check_retry_deadline c u s); [|by intros [= <- <-]].
  destruct body as [body|]; [|by intros [= <- <-]]. unfold send.
  destruct (net_send _ (outside s)) as [o [resp|err]]; cbn [map_err]; [|by intros [= <- <-]].
  unfold remember_retry_deadline. intros [= <- <-].
  destruct (read _ resp) as [v|e]; [done|]. destruct (retry_not_before e) as [dl|]; [|done].
  unfold signal_of, update_signal. cbn [signals]. rewrite list_lookup_alter_eq.
  by destruct (signals s !! signal c).
Qed.

(** C32. Every post, whatever the server and the network do, sends only to its own
    endpoint, with this client's credentials, and never before the time the server
    asked this kind of request to wait until: neither the deadline on record when the
    post began, nor the [Retry-After] of any answer the post itself got.  Every deadline
    an answer names is on record afterwards, never moved earlier, and deadlines of the
    other kinds of request and other clients' state are untouched; and the shared moved
    flag is raised exactly when the post ends with the server saying the organization
    moved. *)
Theorem posts_keep_server_deadlines (c : HttpClient) (s : agent) (Hc : (signal c < length (signals s))%nat) :
  (forall u body cancelled, let '(s', r) := post_encoded_while describe parse_rfc2822 c u body cancelled s in
     posted c u s s' /\ (forall e, r = Some (Err e) -> recorded c u e s') /\
     sig_moved (signal_of c s') = (sig_moved (signal_of c s)
                                   || match r with Some (Err e) => err_moved e | _ => false end)) /\
  (forall u value budget, let '(s', r) := post_reading_with_budget describe parse_rfc2822 c u value budget s in
     posted c u s s' /\ (forall e, r = Some (Err e) -> recorded c u e s') /\
     sig_moved (signal_of c s') = (sig_moved (signal_of c s)
                                   || match r with Some (Err e) => err_moved e | _ => false end)).
Proof.
  split.
  - intros u body cancelled. destruct (post_encoded_while _ _ _ _ _ _ _) as [s' r] eqn:E.
    eapply retried_posted; [done| | |exact E].
    + intros s1 s2 r2 Hp Eo. eapply attempt_posted; [done|apply read_result_reports|done|exact Eo].
    + intros s1 s2 r2 Eo. by eapply attempt_moved.
  - intros u value budget. destruct (post_reading_with_budget _ _ _ _ _ _ _) as [s' r] eqn:E.
    eapply retried_posted; [done| | |exact E].
    + intros s1 s2 r2 Hp Eo. cbn beta in Eo. destruct (Z.min budget DELIVERY_BUDGET =? 0).
      * injection Eo as <- <-. split; [done|]. intros e [= <-] d. discriminate.
      * eapply attempt_posted; [done|apply read_body_reports|done|exact Eo].
    + intros s1 s2 r2 Eo. cbn beta in Eo. destruct (Z.min budget DELIVERY_BUDGET =? 0).
      * by injection Eo as <- <-.
      * by eapply attempt_moved.
Qed.
End keeps.

(** ** Origins, replacements and claims *)

Section more.
Context {J : Json} {U : Uuid} {L : UrlApi} {K : Ed25519} {B : Base64} {N : Net}.

(** Exactly which texts are taken for a server's address. *)
Theorem origin_url_exact (value name : bytes) (allow : bool) (u : url) :
  origin_url value allow name = Ok u <->
  url_parse value = Some u /\
  (url_scheme u = lit "https" \/ url_scheme u = lit "http" /\ allow = true) /\
  (exists scheme authority, split_once_str (lit "://") value = Some (scheme, authority) /\
     authority <> [] /\ starts_with (lit "/") authority = false) /\
  url_host_str u <> None /\ url_username u = [] /\ url_password u = None /\ url_query u = None /\
  url_fragment u = None /\ url_path u = lit "/".
Proof.
  unfold origin_url. destruct (url_parse value) as [u'|]; cbn [ok_or result_bind];
    [|by split; [|intros (? & _)]].
  set (authority := match split_once_str (lit "://") value with Some (_, a) => _ | None => false end).
  assert (authority = true <-> exists scheme a, split_once_str (lit "://") value = Some (scheme, a) /\
     a <> [] /\ starts_with (lit "/") a = false) as Hauth.
  { unfold authority. destruct (split_once_str (lit "://") value) as [[sc a]|].
    - rewrite andb_true_iff, !negb_true_iff, bool_decide_eq_false. split; [intros [? ?]; eauto|].
      by intros (? & ? & [= -> ->] & ? & ?).
    - split; [done|]. by intros (? & ? & ? & _). }
  rewrite <- Hauth.
  assert (forall A (o : option A), is_some o = false <-> o = None) as Hn by (by intros A []).
  assert (forall A (o : option A), is_some o = true <-> o <> None) as Hs by (by intros A []).
  destruct (str_eqb (url_scheme u') (lit "http") && negb allow) eqn:Hins.
  { split; [done|]. intros ([= ->] & Hsch & _). apply andb_true_iff in Hins as [Hh Ha].
    apply str_eqb_eq in Hh. apply negb_true_iff in Ha. destruct Hsch as [E|[_ E]]; [|congruence].
    rewrite Hh in E. discriminate. }
  assert ((str_eqb (url_scheme u') (lit "http") || str_eqb (url_scheme u') (lit "https")) = true <->
    url_scheme u' = lit "https" \/ url_scheme u' = lit "http" /\ allow = true) as Hsch.
  { rewrite orb_true_iff, !str_eqb_eq. apply andb_false_iff in Hins as [H|H].
    - split; [intros [E|?]; [apply str_eqb_eq in E; congruence|tauto]|tauto].
    - apply negb_false_iff in H. tauto. }
  match goal with |- context [if ?b then Err _ else Ok _] => destruct b eqn:Hbad end.
  - split; [done|]. intros ([= ->] & H1 & H2 & H3 & H4 & H5 & H6 & H7 & H8). exfalso.
    apply Hsch in H1. apply Hs in H3. apply Hn in H5, H6, H7. apply (bool_decide_eq_true_2 _) in H4.
    apply str_eqb_eq in H8. rewrite H1, H2, H3, H4, H5, H6, H7, H8 in Hbad. discriminate.
  - rewrite !orb_false_iff, !negb_false_iff in Hbad. destruct Hbad as [[[[[[[H2 H1] H3] H4] H5] H6] H7] H8].
    apply Hsch in H1. apply Hs in H3. apply Hn in H5, H6, H7. apply bool_decide_eq_true in H4. apply str_eqb_eq in H8.
    split; [intros [= <-]; tauto|]. by intros ([= ->] & _).
Qed.

(** A worker that still holds the previous client of the same home reports a move
    that the replacement's owner sees. *)
Lemma replacement_hears_moves {T} (previous replacement : HttpClient) e (s : agent) :
  home (settings replacement) = home (settings previous) ->
  (signal previous < length (signals s))%nat -> err_moved e = true ->
  let c := sharing_moved_signal replacement previous in
  let s' := fst (noting_moved previous (Err e : result T TransportError) s) in
  snd (take_moved c s') = true /\ snd (take_moved c (fst (take_moved c s'))) = false.
Proof.
  intros Hh Hr He c s'. assert (signal c = signal previous) as Ec.
  { unfold c, sharing_moved_signal. by rewrite bool_decide_eq_true_2. }
  assert (forall x, signal_of c x = signal_of previous x) as Es by (intros x; unfold signal_of; by rewrite Ec).
  assert (s' = update_signal previous (fun g => mkSignal true (retry_deadlines g)) s) as Es'
    by (unfold s', noting_moved; cbn [fst]; by rewrite He).
  unfold take_moved. cbn [snd fst]. split.
  - rewrite Es, Es', signal_of_update by done. done.
  - rewrite signal_of_update; [done|]. rewrite Ec, Es'. unfold update_signal. cbn [signals]. by rewrite length_alter.
Qed.

(** A line ends at its line feed. *)
Lemma line_inj (a b x y : bytes) : 10 ∉ a -> 10 ∉ b -> a ++ [10] ++ x = b ++ [10] ++ y -> a = b /\ x = y.
Proof.
  revert b. induction a as [|c a IH]; intros [|d b] Ha Hb E; cbn [app] in E.
  - by injection E.
  - injection E as <- _. exfalso. apply Hb. by left.
  - injection E as -> _. exfalso. apply Ha. by left.
  - injection E as <- E. rewrite not_elem_of_cons in Ha, Hb.
    destruct (IH b) as [-> ->]; tauto || done.
Qed.

Lemma uuid_show_no_newline (u : uuid) : 10 ∉ uuid_show u.
Proof.
  intros H%list_elem_of_In. pose proof (uuid_show_chars u) as Hc. rewrite List.Forall_forall in Hc.
  apply Hc in H. done.
Qed.

Lemma show_no_newline n : 10 ∉ show_u64 n.
Proof.
  intros H%list_elem_of_In. pose proof (show_u64_digits n) as Hd. rewrite List.Forall_forall in Hd.
  apply Hd in H. done.
Qed.

(** What is signed to claim an offer names one offer and one installation: no two
    different claims share a signature. *)
Theorem offer_message_inj (o o' : JobOffer) (i i' : uuid) :
  10 ∉ offer_lease_token o -> 10 ∉ offer_lease_token o' -> 10 ∉ offer_nonce o -> 10 ∉ offer_nonce o' ->
  0 <= binding_version o <= U64_MAX -> 0 <= binding_version o' <= U64_MAX ->
  offer_message o i = offer_message o' i' ->
  offer_job_id o = offer_job_id o' /\ offer_lease_token o = offer_lease_token o' /\
  offer_nonce o = offer_nonce o' /\ i = i' /\ resource_id o = resource_id o' /\
  binding_version o = binding_version o'.
Proof.
  intros Ht Ht' Hn Hn' Hb Hb' E. unfold offer_message in E. apply app_inv_head, app_inv_head in E.
  apply line_inj in E as [E1 E]; [|apply uuid_show_no_newline..].
  apply line_inj in E as [E2 E]; [|done..]. apply line_inj in E as [E3 E]; [|done..].
  apply line_inj in E as [E4 E]; [|apply uuid_show_no_newline..].
  apply line_inj in E as [E5 E]; [|apply uuid_show_no_newline..].
  apply app_inv_tail in E. apply uuid_show_inj in E1, E4, E5.
  apply show_u64_inj in E; [|unfold U64_MAX in *; lia..]. done.
Qed.
End more.

(** ** A server that throttles, to evaluate the theorem on *)

Section sample.
#[local] Existing Instance tiny_uuid.
#[local] Existing Instance tiny_url.
#[local] Existing Instance tiny_ed25519.
#[local] Instance no_json : Json := json_of_table [].

(** A clock and the answers to come. *)
#[local] Instance script : Net := {|
  net := Z * list response;
  net_now := fst;
  net_wall := fst;
  net_send := fun _ o => match snd o with
                         | r :: rs => ((fst o, rs), Ok r)
                         | [] => (o, Err (mkSendError true false false []))
                         end;
  net_sleep := fun d o => (fst o + d, snd o);
  net_cancelled := fun _ => false |}.

Definition sample_client : HttpClient :=
  mkClient (mkSettings (lit "https://home") (lit "k") (U0 : @uuid tiny_uuid) (from_secs 20) 5)
    (lit "https://home/api/v1/agent/checkins") (lit "https://home/api/v1/observations")
    (lit "https://home/api/v1/telemetry") (lit "https://home/api/v1/agent/jobs/lease")
    (lit "Bearer k") [48] None 0.

(** The server answers 429 and asks for 100 seconds. *)
Definition throttled : agent :=
  mkAgent (0 : Z, [mkResponse 429 (Some (lit "100")) [] None; mkResponse 200 None [] None] : list response) [no_signal] [].

Definition sample_post (s : agent) : agent * option (result unit TransportError) :=
  post_encoded_while (fun _ _ => []) (fun _ => None) sample_client (observation_url sample_client) [] shutdown s.

(** It asks for three seconds, which fit the budget, and then accepts. *)
Definition slowed : agent :=
  mkAgent (0 : Z, [mkResponse 503 (Some (lit "3")) [] None; mkResponse 200 None [] None] : list response) [no_signal] [].

Lemma posts_keep_server_deadlines_witness :
  let s1 := fst (sample_post throttled) in
  let s2 := fst (sample_post slowed) in
  length (sent s1) = 1%nat /\
  deadline sample_client (observation_url sample_client) s1 = Some (from_secs 100) /\
  length (sent (fst (sample_post s1))) = 1%nat /\
  map ex_at (sent s2) = [0; from_secs 3] /\
  posted (fun _ => None) sample_client (observation_url sample_client) slowed s2.
Proof.
  do 4 (split; [vm_compute; reflexivity|]).
  pose proof (proj1 (posts_keep_server_deadlines (fun _ _ => []) (fun _ => None) sample_client slowed
                       (Nat.lt_succ_diag_r 0)) (observation_url sample_client) [] shutdown) as H.
  unfold sample_post. destruct (post_encoded_while _ _ _ _ _ _ _) as [s1 r1]. exact (proj1 H).
Defined.
End sample.
