(* ===== verification/Home.v ===== *)
(** * home.rs: the deployment the agent's requests go to

    The answer of [renga_url] is kept in a file of the state directory.  The disk
    is Fs.v's and the network Client.v's; serde's reading and writing of the file
    is an interface with its round trip. *)

From Stdlib Require Import String.
From S2P Require Import Prelude Text Fs Interfaces Transport SnmpConfig Config Client.

Definition HOME_FILE : bytes := lit "home.json".
Definition INTAKE_KEY_PREFIX : bytes := lit "renga_intake_".
Definition SECRET_LENGTH : nat := 43.

(** ** Deployment identifiers *)

Definition valid_deployment_id (value : bytes) : bool :=
  within 1 16 (zlength value)
  && forallb (fun b => is_ascii_lowercase b || is_ascii_digit b || (b =? 45)) value
  && negb (bool_decide (head value = Some 45))
  && negb (bool_decide (last_opt value = Some 45)).

Definition deployment_id (intake_api_key : bytes) : option bytes :=
  let+ rest := strip_prefix INTAKE_KEY_PREFIX intake_api_key in
  let+ separator := (if Nat.ltb (length rest) (SECRET_LENGTH + 1) then None
                     else Some (length rest - (SECRET_LENGTH + 1))%nat) in
  let+ parts := split_at_checked rest separator in
  let '(identifier, secret) := parts in
  if starts_with (lit "_") secret && valid_deployment_id identifier then Some identifier else None.

Section home.
Context {J : Json} {U : Uuid} {L : UrlApi} {N : Net}.

Record Home := mkHome {
  asked_url : bytes;
  deployment : bytes;
  home_url : url;
  resolved_at : Z }.

(** serde's [Home] as JSON. *)
Class HomeCodec := {
  encode_home : Home -> option bytes;
  decode_home : bytes -> option Home;
  decode_encode_home : forall h b, encode_home h = Some b -> decode_home b = Some h }.
Context {C : HomeCodec}.

Record HomeError := mkHomeError { home_message : bytes; home_kind : FailureKind }.

Definition state_error (message : bytes) : HomeError := mkHomeError message Permanent.
Definition home_transient (e : HomeError) : bool := bool_decide (home_kind e = Transient).
Definition from_transport (e : TransportError) : HomeError :=
  mkHomeError (lit "cannot resolve home: " ++ message e) (failure e).

Definition unwrap_default (o : option bytes) : bytes := match o with Some b => b | None => [] end.

Definition answers (h : Home) (config : Config) : bool :=
  str_eqb (asked_url h) (renga_url config)
  && str_eqb (deployment h) (unwrap_default (deployment_id (intake_api_key config)))
  && is_ok (origin_url (url_as_str (home_url h)) (allow_insecure_http config) (lit "home URL")).

(** ** The file *)

Context (show_io : io_kind -> bytes) (display : bytes).   (* [path.display()] of the file *)

Definition load_home : ST world HomeError (option Home) := fun w =>
  match symlink_metadata HOME_FILE w with
  | (w, Err NotFound) => (w, Ok None)
  | (w, Err e) => (w, Err (state_error (lit "cannot inspect persisted home " ++ display ++ lit ": " ++ show_io e)))
  | (w, Ok f) =>
      if negb (bool_decide (file_kind f = Regular))
      then (w, Err (state_error (lit "persisted home " ++ display ++ lit " is not a regular file")))
      else
        match read_file HOME_FILE w with
        | (w, Err e) => (w, Err (state_error (lit "cannot read persisted home " ++ display ++ lit ": " ++ show_io e)))
        | (w, Ok bs) => (w, Ok (decode_home bs))
        end
  end.

Definition persisted (config : Config) : ST world HomeError (option Home) :=
  let* h := load_home in
  st_ret (let+ h := h in if answers h config then Some h else None).

(** [tmp] is the [Uuid::new_v4] of the temporary name, [now] the time of writing. *)
Definition persist_home (tmp : uuid) (now : Z) (h : Home) : ST world HomeError unit := fun w =>
  match create_dir_all w with
  | (w, Err e) => (w, Err (state_error (lit "cannot create state directory " ++ display ++ lit ": " ++ show_io e)))
  | (w, Ok _) =>
      let temporary := lit ".home-" ++ uuid_show tmp in
      let cannot e := Err (state_error (lit "cannot persist home: " ++ show_io e)) in
      match (let* _ := create_new now temporary in
             let* body := st_of_result (ok_or (encode_home h) OtherError) in
             let* _ := write_and_sync now temporary body in
             let* _ := rename temporary HOME_FILE in
             sync_dir) w with
      | (w, Ok _) => (w, Ok tt)
      | (w, Err e) => (fst (remove_file temporary w), cannot e)
      end
  end.

Definition discard_home : ST world HomeError unit := fun w =>
  match remove_file HOME_FILE w with
  | (w, Err NotFound) | (w, Ok _) => (w, Ok tt)
  | (w, Err e) => (w, Err (state_error (lit "cannot discard persisted home: " ++ show_io e)))
  end.

(** ** Resolving *)

Context (describe : Z -> bytes -> bytes) (parse_rfc2822 : bytes -> option Z)
        (build : Z -> result unit TransportError).
Context (append_pair : url -> bytes -> bytes -> url) (decode_answer : bytes -> result bytes bytes).

(** The network and the disk. *)
Record place := mkPlace { online : agent; state_directory : world }.

(** [None] is the unreachable end of a retry loop of no attempts. *)
Definition fetch (config : Config) (s : agent) : agent * option (result Home HomeError) :=
  let deployment := unwrap_default (deployment_id (intake_api_key config)) in
  let '(s, r) := fetch_home describe parse_rfc2822 build append_pair decode_answer config deployment s in
  (s, option_map (fun r => let? u := map_err from_transport r in
                           Ok (mkHome (renga_url config) deployment u (net_wall (outside s)))) r).

Definition resolve (tmp : uuid) (now : Z) (config : Config) (p : place)
  : place * option (result Home HomeError) :=
  match persisted config (state_directory p) with
  | (w, Err e) => (mkPlace (online p) w, Some (Err e))
  | (w, Ok (Some h)) => (mkPlace (online p) w, Some (Ok h))
  | (w, Ok None) =>
      match fetch config (online p) with
      | (s, None) => (mkPlace s w, None)
      | (s, Some (Err e)) => (mkPlace s w, Some (Err e))
      | (s, Some (Ok h)) =>
          match persist_home tmp now h w with
          | (w, Err e) => (mkPlace s w, Some (Err e))
          | (w, Ok _) => (mkPlace s w, Some (Ok h))
          end
      end
  end.
End home.

(** ** What resolving guarantees *)

Lemma length_nat_lt (n m : nat) : Nat.ltb n m = false -> (m <= n)%nat.
Proof. apply Nat.ltb_ge. Qed.

(** The identifier is found by the secret's length, whatever the secret holds. *)
Theorem deployment_id_exact (intake_api_key identifier : bytes) :
  deployment_id intake_api_key = Some identifier <->
  exists secret, intake_api_key = INTAKE_KEY_PREFIX ++ identifier ++ lit "_" ++ secret /\
    length secret = SECRET_LENGTH /\ valid_deployment_id identifier = true.
Proof.
  unfold deployment_id. split.
  - destruct (strip_prefix INTAKE_KEY_PREFIX intake_api_key) as [rest|] eqn:Ep; [|done]. cbn [mbind option_bind].
    apply strip_prefix_Some in Ep as ->.
    destruct (Nat.ltb (length rest) (SECRET_LENGTH + 1)) eqn:Hl; [done|]. cbn [mbind option_bind].
    apply length_nat_lt in Hl. unfold split_at_checked. destruct (is_char_boundary rest _); [|done].
    cbn [mbind option_bind]. set (n := (length rest - (SECRET_LENGTH + 1))%nat).
    destruct (starts_with (lit "_") (drop n rest)) eqn:Hs; [|done].
    destruct (valid_deployment_id (take n rest)) eqn:Hv; [|done]. intros [= <-].
    apply starts_with_spec in Hs as [secret Hs]. exists secret. split; [|split; [|done]].
    + by rewrite <- Hs, take_drop.
    + apply (f_equal length) in Hs. rewrite length_drop, length_app in Hs. change (length (lit "_")) with 1%nat in Hs.
      unfold n in Hs. lia.
  - intros (secret & -> & Hlen & Hv). rewrite strip_prefix_app. cbn [mbind option_bind].
    rewrite !length_app, Hlen. change (length (lit "_")) with 1%nat.
    destruct (Nat.ltb_spec (length identifier + (1 + SECRET_LENGTH)) (SECRET_LENGTH + 1)) as [H|_]; [lia|].
    cbn [mbind option_bind]. replace (length identifier + (1 + SECRET_LENGTH) - (SECRET_LENGTH + 1))%nat
      with (length identifier) by lia.
    unfold split_at_checked, is_char_boundary. rewrite lookup_app_r, Nat.sub_diag by lia.
    change ((lit "_" ++ secret) !! 0%nat) with (Some 95). cbn [is_continuation negb andb Z.leb Z.compare Pos.compare Pos.compare_cont].
    cbn [mbind option_bind]. rewrite take_app_length, drop_app_length, Hv.
    assert (starts_with (lit "_") (lit "_" ++ secret) = true) as -> by (apply starts_with_spec; eauto). done.
Qed.

Section guarantees.
Context {J : Json} {U : Uuid} {L : UrlApi} {N : Net} {C : HomeCodec}.
Context (show_io : io_kind -> bytes) (display : bytes).
Context (describe : Z -> bytes -> bytes) (parse_rfc2822 : bytes -> option Z)
        (build : Z -> result unit TransportError).
Context (append_pair : url -> bytes -> bytes -> url) (decode_answer : bytes -> result bytes bytes).

(** A request that carries no credential. *)
Definition anonymous (x : exchange L) : Prop :=
  let rq := ex_request x in req_method rq = Get /\ req_headers rq = [] /\ req_body rq = [].

Definition asked_anonymously (s s' : agent) : Prop :=
  exists new, sent s' = sent s ++ new /\ Forall anonymous new.

Lemma asked_refl s : asked_anonymously s s.
Proof. exists []. rewrite app_nil_r. split; [done|constructor]. Qed.

Lemma fetch_home_anonymous config d s s' r :
  fetch_home describe parse_rfc2822 build append_pair decode_answer config d s = (s', r) ->
  asked_anonymously s s' /\
  forall u, r = Some (Ok u) -> exists text, origin_url text (allow_insecure_http config) (lit "home URL") = Ok u.
Proof.
  unfold fetch_home. destruct (let? base := _ in _) as [u0|e].
  2: { intros [= <- <-]. split; [apply asked_refl|done]. }
  destruct (retry _ _ _ _ _ _ s) as [s1 r1] eqn:E. intros [= <- <-]. split.
  - unfold retry in E. eapply (retry_invariant _ _ _ _ _ _ (asked_anonymously s) (fun _ _ => True)) in E;
      [by destruct E| | | | |apply asked_refl]; try done.
    intros x y ry (new & Ex & Hx). unfold send. destruct (net_send _ (outside x)) as [o [resp|err]]; cbn [map_err];
      intros [= <- <-]; (split; [|done]); cbn [sent];
      (eexists; rewrite Ex, <- app_assoc; split; [reflexivity|]; apply Forall_app; split; [done|]; by repeat constructor).
  - intros u. destruct r1 as [[body|e]|]; cbn [option_map result_bind]; try done.
    destruct (decode_answer body) as [text|]; cbn [map_err result_bind]; [|done]. intros [= H]. eauto.
Qed.

Definition home_on_disk (w : world) (h : Home) : Prop :=
  exists c t, files w !! HOME_FILE = Some (mkFile Regular c t) /\ decode_home c = Some h.

Lemma load_home_spec w w' r :
  keeps HOME_FILE w -> load_home show_io display w = (w', r) ->
  keeps HOME_FILE w' /\ files w' !! HOME_FILE = files w !! HOME_FILE /\
  forall h, r = Ok (Some h) -> home_on_disk w' h.
Proof.
  intros Hk. unfold load_home. destruct (symlink_metadata HOME_FILE w) as [w1 r1] eqn:E1.
  apply fs_call_spares with (n := HOME_FILE) in E1 as [K1 F1]; [|done|done].
  destruct r1 as [f|[]]; try (by intros [= <- <-]).
  destruct (negb _); [by intros [= <- <-]|].
  destruct (read_file HOME_FILE w1) as [w2 r2] eqn:E2. pose proof E2 as E2'.
  apply fs_call_spares with (n := HOME_FILE) in E2 as [K2 F2]; [|done|done].
  destruct r2 as [c|]; intros [= <- <-]; (split; [done|]); (split; [congruence|]); [|done].
  intros h [= Hd]. unfold read_file, fs_call in E2'. destruct (next_event w1) as [w3 [k|]]; [done|].
  destruct (files w3 !! HOME_FILE) as [[[] c' t]|] eqn:Ef; try done. injection E2' as <- <-. by exists c', t.
Qed.

Lemma persist_home_spec tmp now h w w' r :
  keeps HOME_FILE w -> persist_home show_io display tmp now h w = (w', r) ->
  keeps HOME_FILE w' /\ (r = Ok tt -> home_on_disk w' h).
Proof.
  intros Hk. unfold persist_home. destruct (create_dir_all w) as [w1 r1] eqn:E1.
  apply fs_call_spares with (n := HOME_FILE) in E1 as [K1 F1]; [|done|done].
  destruct r1; [|by intros [= <- <-]].
  assert (forall tmp, lit ".home-" ++ uuid_show tmp <> HOME_FILE) as Hne by (intros x; discriminate).
  set (t := lit ".home-" ++ uuid_show tmp) in *. assert (t <> HOME_FILE) as Ht by apply Hne.
  destruct (encode_home h) as [body|] eqn:Eh.
  - destruct ((let* _ := create_new now t in _) w1) as [w2 r2] eqn:E2.
    assert ((let* _ := create_new now t in let* _ := write_and_sync now t body in
             let* _ := rename t HOME_FILE in sync_dir) w1 = (w2, r2)) as E2'.
    { rewrite <- E2. unfold st_bind. destruct (create_new now t w1) as [? []]; done. }
    apply replace_keeps in E2' as [K2 F2]; [|done..].
    destruct r2 as [[]|e].
    + intros [= <- <-]. split; [done|]. intros _. destruct F2 as [tm F2]. exists body, tm.
      split; [done|]. by apply decode_encode_home.
    + destruct (remove_file t w2) as [w3 r3] eqn:E3. intros [= <- <-].
      apply remove_file_spares with (n := HOME_FILE) in E3 as [K3 F3]; [|done..]. done.
  - unfold st_bind at 1. destruct (create_new now t w1) as [w2 r2] eqn:E2.
    apply create_new_spares with (n := HOME_FILE) in E2 as [K2 F2]; [|done..].
    assert (forall e, (fst (remove_file t w2), Err e : result unit HomeError) = (w', r) ->
      keeps HOME_FILE w' /\ (r = Ok tt -> home_on_disk w' h)) as Hrem.
    { intros e. destruct (remove_file t w2) as [w3 r3] eqn:E3. intros [= <- <-].
      apply remove_file_spares with (n := HOME_FILE) in E3 as [K3 F3]; [|done..]. done. }
    destruct r2; apply Hrem.
Qed.

(** Whatever fails and whatever other processes remove, persisting leaves the file
    as it was, gone, or the whole new home. *)
Lemma persist_home_writes tmp now h w w' r :
  persist_home show_io display tmp now h w = (w', r) ->
  files w' !! HOME_FILE = files w !! HOME_FILE \/ files w' !! HOME_FILE = None \/
  exists body t, encode_home h = Some body /\ files w' !! HOME_FILE = Some (mkFile Regular body t).
Proof.
  unfold persist_home. set (t := lit ".home-" ++ uuid_show tmp). assert (t <> HOME_FILE) as Ht by discriminate.
  set (body := match encode_home h with Some b => b | None => [] end).
  assert (forall old w1 w2 r2, atomic HOME_FILE old body w1 -> remove_file t w1 = (w2, r2) -> atomic HOME_FILE old body w2) as Hrem.
  { intros old w1 w2 r2 Ha E. apply remove_file_touches in E. eapply atomic_touches; [exact Ha| |exact E]. congruence. }
  destruct (create_dir_all w) as [w1 r1] eqn:E1.
  assert (files w1 !! HOME_FILE = files w !! HOME_FILE \/ files w1 !! HOME_FILE = None) as H1.
  { assert (touches (fun _ => False) w w1) as T1 by (eapply fs_call_read; [|exact E1]; done). by apply T1; intros []. }
  destruct r1 as [[]|e]; [|intros [= <- <-]; destruct H1; auto].
  destruct (encode_home h) as [b|] eqn:Eb.
  - assert (atomic HOME_FILE (files w !! HOME_FILE) b w1) as A1 by (destruct H1; [by left|by right; left]).
    assert (forall w2, atomic HOME_FILE (files w !! HOME_FILE) b w2 ->
      files w2 !! HOME_FILE = files w !! HOME_FILE \/ files w2 !! HOME_FILE = None \/
      exists body t, Some b = Some body /\ files w2 !! HOME_FILE = Some (mkFile Regular body t)) as Hdone.
    { intros w2 [?|[?|[tm ?]]]; [by left|by right; left|]. right; right. by exists b, tm. }
    destruct ((let* _ := create_new now t in _) w1) as [w2 r2] eqn:E2.
    assert ((let* _ := create_new now t in let* _ := write_and_sync now t b in
             let* _ := rename t HOME_FILE in sync_dir) w1 = (w2, r2)) as E2'.
    { rewrite <- E2. unfold st_bind. destruct (create_new now t w1) as [? []]; done. }
    eapply replace_atomic in E2'; [|done|exact A1]. destruct r2 as [[]|e].
    + intros [= <- <-]. by apply Hdone.
    + destruct (remove_file t w2) as [w3 r3] eqn:E3. intros [= <- <-]. apply Hdone. by eapply Hrem.
  - unfold st_bind at 1. destruct (create_new now t w1) as [w2 r2] eqn:E2. apply create_new_touches in E2.
    assert (forall e, (fst (remove_file t w2), Err e : result unit HomeError) = (w', r) ->
      files w' !! HOME_FILE = files w !! HOME_FILE \/ files w' !! HOME_FILE = None \/
      exists body t, None = Some body /\ files w' !! HOME_FILE = Some (mkFile Regular body t)) as Hend.
    { intros e. destruct (remove_file t w2) as [w3 r3] eqn:E3. intros [= <- <-]. apply remove_file_touches in E3.
      pose proof (touches_trans _ _ _ _ E2 E3 HOME_FILE) as [E|E]; [congruence|rewrite E; destruct H1; auto|auto]. }
    destruct r2; apply Hend.
Qed.

(** [url::Url] prints an address with a host as [scheme://authority..]. *)
Hypothesis prints_authority : forall u, url_host_str u <> None ->
  exists scheme authority, split_once_str (lit "://") (url_as_str u) = Some (scheme, authority) /\
    authority <> [] /\ starts_with (lit "/") authority = false.

Lemma fetch_answers config s s' h :
  fetch describe parse_rfc2822 build append_pair decode_answer config s = (s', Some (Ok h)) ->
  answers h config = true.
Proof.
  unfold fetch. destruct (fetch_home _ _ _ _ _ config _ s) as [s1 r] eqn:E. intros [= <- Hr].
  apply fetch_home_anonymous in E as [_ Hu]. destruct r as [[u|e]|]; try done. injection Hr as <-.
  destruct (Hu u eq_refl) as [text Ho]. unfold answers. cbn [asked_url deployment home_url].
  rewrite !str_eqb_refl. cbn [andb]. apply origin_url_exact in Ho as (_ & Hs & _ & Hh & H1 & H2 & H3 & H4 & H5).
  assert (origin_url (url_as_str u) (allow_insecure_http config) (lit "home URL") = Ok u) as ->; [|done].
  apply origin_url_exact. split; [apply url_parse_as_str|]. split; [done|]. split; [by apply prints_authority|done].
Qed.

Lemma load_home_calm w h : calm w -> home_on_disk w h -> load_home show_io display w = (w, Ok (Some h)).
Proof.
  intros Hw (c & t & Hf & Hd). unfold load_home, symlink_metadata. rewrite fs_call_calm by done. rewrite Hf.
  change (negb (bool_decide (file_kind (mkFile Regular c t) = Regular))) with false. cbv iota.
  rewrite (read_file_calm HOME_FILE c t w Hw Hf). by rewrite Hd.
Qed.

(** The part of [resolve] after no home was found in the file. *)
Lemma fetched_and_kept tmp now config s w p' r :
  keeps HOME_FILE w ->
  match fetch describe parse_rfc2822 build append_pair decode_answer config s with
  | (s, None) => (mkPlace s w, None)
  | (s, Some (Err e)) => (mkPlace s w, Some (Err e))
  | (s, Some (Ok h)) =>
      match persist_home show_io display tmp now h w with
      | (w, Err e) => (mkPlace s w, Some (Err e))
      | (w, Ok _) => (mkPlace s w, Some (Ok h))
      end
  end = (p', r) ->
  asked_anonymously s (online p') /\ keeps HOME_FILE (state_directory p') /\
  forall h, r = Some (Ok h) -> answers h config = true /\ home_on_disk (state_directory p') h.
Proof.
  intros Hk. destruct (fetch describe parse_rfc2822 build append_pair decode_answer config s) as [s1 o] eqn:Ef.
  assert (asked_anonymously s s1) as Hs.
  { unfold fetch in Ef. destruct (fetch_home _ _ _ _ _ config _ s) as [s2 r2] eqn:E2. injection Ef as <- _.
    by apply fetch_home_anonymous in E2 as [? _]. }
  destruct o as [[h|e]|]; [|by intros [= <- <-]|by intros [= <- <-]].
  apply fetch_answers in Ef.
  destruct (persist_home show_io display tmp now h w) as [w2 r2] eqn:Ep.
  apply persist_home_spec in Ep as [Hk2 Hd]; [|done].
  destruct r2 as [[]|e]; intros [= <- <-]; (split; [done|]); (split; [done|]); [|done]. intros h' [= <-]. auto.
Qed.

Lemma resolve_spec tmp now config p p' r :
  keeps HOME_FILE (state_directory p) ->
  resolve show_io display describe parse_rfc2822 build append_pair decode_answer tmp now config p = (p', r) ->
  asked_anonymously (online p) (online p') /\ keeps HOME_FILE (state_directory p') /\
  forall h, r = Some (Ok h) -> answers h config = true /\ home_on_disk (state_directory p') h.
Proof.
  intros Hk. unfold resolve, persisted, st_bind.
  destruct (load_home show_io display (state_directory p)) as [w1 r1] eqn:El.
  apply load_home_spec in El as (K1 & _ & Hd); [|done].
  destruct r1 as [o|e]; cbn [st_ret]; [|intros [= <- <-]; by split; [apply asked_refl|]].
  destruct o as [h|]; cbn [mbind option_bind]; [|by apply fetched_and_kept].
  destruct (answers h config) eqn:Ha; [|by apply fetched_and_kept].
  intros [= <- <-]. split; [apply asked_refl|]. split; [done|]. intros h' [= <-]. split; [done|by apply Hd].
Qed.

Lemma resolve_returns tmp now config p :
  1 <= max_retry_attempts config ->
  snd (resolve show_io display describe parse_rfc2822 build append_pair decode_answer tmp now config p) <> None.
Proof.
  intros Ha. unfold resolve. destruct (persisted show_io display config (state_directory p)) as [w [[h|]|e]]; [done| |done].
  unfold fetch, fetch_home. destruct (let? base := _ in _) as [u|e]; [|done].
  match goal with |- context [retry ?a ?b ?c ?d ?e ?f ?g] =>
    pose proof (retry_returns a b c d e f g Ha) as Hr; destruct (retry a b c d e f g) as [s [r|]]; [|done] end.
  cbn [option_map]. destruct (let? u := _ in _) as [h|e]; [|done].
  by destruct (persist_home show_io display tmp now h w) as [? []].
Qed.

(** Resolving the home asks [renga_url] without any credential, so the intake
    key never reaches an address that is only a resolver.  Whatever calls fail, a
    home it returns answers the configuration (its address, its key's deployment,
    an origin it may send to) and is in the file; and once it is, every later
    undisturbed start with that configuration returns it without any request. *)
Theorem resolved_home_answers_and_lasts (tmp : uuid) (now : Z) (config : Config) (p : place) :
  keeps HOME_FILE (state_directory p) ->
  let '(p', r) := resolve show_io display describe parse_rfc2822 build append_pair decode_answer tmp now config p in
  asked_anonymously (online p) (online p') /\
  (forall h, r = Some (Ok h) -> answers h config = true /\ home_on_disk (state_directory p') h) /\
  (forall h q tmp' now', calm (state_directory q) -> home_on_disk (state_directory q) h -> answers h config = true ->
     resolve show_io display describe parse_rfc2822 build append_pair decode_answer tmp' now' config q = (q, Some (Ok h))).
Proof.
  intros Hk. destruct (resolve _ _ _ _ _ _ _ tmp now config p) as [p' r] eqn:E.
  apply resolve_spec in E as (H1 & _ & H2); [|done].
  split; [done|]. split; [done|]. intros h [s w] tmp' now' Hc Hd Ha. unfold resolve, persisted, st_bind.
  cbn [state_directory online] in *. rewrite (load_home_calm w h Hc Hd). cbn [st_ret mbind option_bind].
  by rewrite Ha.
Qed.
End guarantees.

(** ** A resolver, to evaluate the theorem on *)

Section sample.
#[local] Existing Instance tiny_uuid.
#[local] Existing Instance tiny_url.
#[local] Existing Instance script.
#[local] Instance no_json : Json := json_of_table [].

Abbreviation id0 := (U0 : @uuid tiny_uuid).

(** A file format that knows one home. *)
Definition tiny_home : Home := mkHome (lit "https://r") [] (lit "https://home/" : @url tiny_url) 7.
Definition is_tiny (h : Home) : bool :=
  str_eqb (asked_url h) (lit "https://r") && str_eqb (deployment h) []
  && str_eqb (home_url h) (lit "https://home/") && (resolved_at h =? 7).

#[local] Lemma tiny_home_law h b :
  (if is_tiny h then Some [1] else None) = Some b -> (if str_eqb b [1] then Some tiny_home else None) = Some h.
Proof.
  destruct (is_tiny h) eqn:E; [|done]. intros [= <-]. cbn. unfold is_tiny in E.
  rewrite !andb_true_iff, !str_eqb_eq, Z.eqb_eq in E. destruct h as [a d u t]. cbn in E.
  destruct E as [[[-> ->] ->] ->]. done.
Qed.

#[local] Instance tiny_home_codec : HomeCodec :=
  {| encode_home := fun h => if is_tiny h then Some [1] else None;
     decode_home := fun b => if str_eqb b [1] then Some tiny_home else None;
     decode_encode_home := tiny_home_law |}.

Definition tiny_config : Config :=
  mkConfig [] (lit "https://r") false (lit "k") id0 0 0 0 (from_secs 20) 3 [] (Jobs.mkPolicy None)
    [] [] None [] [] [] Osquery.default_osquery.

Definition nowhere : place :=
  mkPlace (mkAgent (7 : Z, [mkResponse 200 None [] None] : list response) [] []) (mkWorld ∅ [] false).

Definition tiny_resolve : place -> place * option (result Home HomeError) :=
  resolve (fun _ => []) [] (fun _ _ => []) (fun _ => None) (fun _ => Ok tt) (fun u _ _ => u)
    (fun _ => Ok (lit "https://home/")) id0 0 tiny_config.

Lemma tiny_prints_authority (u : @url tiny_url) : url_host_str u <> None ->
  exists scheme authority, split_once_str (lit "://") (url_as_str u) = Some (scheme, authority) /\
    authority <> [] /\ starts_with (lit "/") authority = false.
Proof.
  cbn [url_host_str tiny_url url_as_str].
  destruct (split_once_str (lit "://") u) as [[sc rest]|]; [|done]. intros Hh. exists sc, rest. split; [done|].
  destruct rest as [|b rest]; [done|]. split; [done|]. change (lit "/") with [47]. unfold starts_with.
  cbn [strip_prefix]. destruct (Z.eqb_spec 47 b) as [<-|]; [|done]. exfalso. apply Hh. reflexivity.
Qed.

Lemma resolved_home_answers_and_lasts_witness :
  let '(p', r) := tiny_resolve nowhere in
  r = Some (Ok tiny_home) /\ length (sent (online p')) = 1%nat /\ asked_anonymously (online nowhere) (online p') /\
  home_on_disk (state_directory p') tiny_home.
Proof.
  assert (snd (tiny_resolve nowhere) = Some (Ok tiny_home)) as H1 by (vm_compute; reflexivity).
  assert (length (sent (online (fst (tiny_resolve nowhere)))) = 1%nat) as H2 by (vm_compute; reflexivity).
  pose proof (resolved_home_answers_and_lasts (fun _ => []) [] (fun _ _ => []) (fun _ => None) (fun _ => Ok tt)
    (fun u _ _ => u) (fun _ => Ok (lit "https://home/"))) as H.
  specialize (H tiny_prints_authority id0 0 tiny_config nowhere). fold tiny_resolve in H.
  destruct (tiny_resolve nowhere) as [p' r]. cbn [fst snd] in *. subst r.
  destruct H as (Ha & Hd & _); [constructor|].
  split; [reflexivity|]. split; [exact H2|]. split; [exact Ha|]. exact (proj2 (Hd tiny_home eq_refl)).
Defined.
End sample.
