(* ===== verification/Delivery.v ===== *)
(** * main.rs: delivering observations and telemetry

    The two on-disk queues a running agent shares between its threads, and what
    the inventory, the flush, the collector sinks and a single run do with them.
    [Queue] is the queue; here it is opened on demand, filled and drained against
    a transport.

    One call reads the clock, the cancellation and the lock several times, and
    posts several times.  [surroundings] gives each of these readings a value, so
    a theorem for every [surroundings] holds whatever other threads, the clock
    and the server do meanwhile.  Log lines are left out; [report_queue] stays,
    because it reads the directory. *)

From Stdlib Require Import String.
From S2P Require Import Prelude Text Fs Interfaces Transport Queue QueueSpec Client.

Definition TELEMETRY_PER_FLUSH : Z := 120.
Definition QUEUE_LOCK_POLL : Z := from_millis 25.

(** [Option<DiskQueue>] beside the directory it opens. *)
Inductive slot :=
| Closed (w : world)
| Opened (q : DiskQueue).

Record DeliveryQueue := mkDelivery {
  queue : slot;
  telemetry : slot;
  direct : list (bytes * result unit TransportError) }.   (* posts past the queue: a log of the model *)

Definition set_queue (s : slot) (d : DeliveryQueue) : DeliveryQueue := mkDelivery s (telemetry d) (direct d).
Definition set_telemetry (s : slot) (d : DeliveryQueue) : DeliveryQueue := mkDelivery (queue d) s (direct d).
Definition log_direct (b : bytes) (r : result unit TransportError) (d : DeliveryQueue) : DeliveryQueue :=
  mkDelivery (queue d) (telemetry d) (direct d ++ [(b, r)]).

(** [monitor.latest()]: the monitor outlives attempts to open, and only an open
    queue publishes to it. *)
Definition latest (s : slot) : option QueueHealth :=
  match s with Opened q => monitor q | Closed _ => None end.

(** What one call meets. *)
Record surroundings := mkSurroundings {
  busy : nat -> bool;                  (* whether the n-th [try_lock] finds the queue taken *)
  stop_waiting : nat -> bool;          (* cancellation, asked before the n-th [try_lock] *)
  stop_locked : bool;                  (* cancellation once the queue is owned *)
  stop_direct : bool;                  (* cancellation before a post past the queue *)
  stop_draining : nat -> bool;         (* cancellation in the n-th round of draining observations *)
  stop_telemetry : nat -> bool;        (* cancellation in the n-th round of draining telemetry *)
  directory_ok : QueueKind -> bool;    (* whether the queue's path is a directory *)
  now_open : Z; now_enqueue : Z; now_drain : Z; now_telemetry : Z;
  post : nat -> bytes -> result unit TransportError;               (* the n-th observation posted *)
  post_telemetry : nat -> bytes -> result unit TransportError }.   (* the n-th batch posted *)

Section delivery.
Context {U : Uuid}.

Inductive DeliveryError :=
| DCancelled                                          (* "observation delivery cancelled" *)
| DCollect (message : bytes)
| DQueue (e : QueueError)
| DTransport (e : TransportError)
| DQueuedForRetry (id : uuid) (e : TransportError)
| DQueuedBehind (id : uuid) (e : TransportError)
| DQueuedCancelled (id : uuid).

Variable env : surroundings.

(** [DeliveryQueue::open]: opens the queue unless it is open. *)
Definition open_slot (kind : QueueKind) (s : slot) : slot * result DiskQueue QueueError :=
  match s with
  | Opened q => (s, Ok q)
  | Closed w =>
      let '(q, r) := open kind (default_limits kind) (directory_ok env kind) (now_open env) w in
      match r with
      | Ok _ => (Opened q, Ok q)
      | Err e => (Closed (disk q), Err e)
      end
  end.

Definition ready (d : DeliveryQueue) : DeliveryQueue * result DiskQueue QueueError :=
  let '(s, r) := open_slot Observations (queue d) in (set_queue s d, r).
Definition telemetry_ready (d : DeliveryQueue) : DeliveryQueue * result DiskQueue QueueError :=
  let '(s, r) := open_slot Telemetry (telemetry d) in (set_telemetry s d, r).

(** [DeliveryQueue::new]: a queue that cannot be opened stays closed. *)
Definition delivery_new (observations batches : world) : DeliveryQueue :=
  let d := mkDelivery (Closed observations) (Closed batches) [] in
  let '(d, _) := ready d in
  let '(d, _) := telemetry_ready d in
  d.

(** [delivery.ready().and_then(|queue| queue.enqueue(..))]. *)
Definition enqueue_observation (tmp id : uuid) (body : bytes) (d : DeliveryQueue)
  : DeliveryQueue * result unit QueueError :=
  match ready d with
  | (d, Err e) => (d, Err e)
  | (d, Ok q) => let '(q, r) := enqueue tmp id body (now_enqueue env) q in (set_queue (Opened q) d, r)
  end.

Definition enqueue_batch (tmp id : uuid) (body : bytes) (d : DeliveryQueue)
  : DeliveryQueue * result unit QueueError :=
  match telemetry_ready d with
  | (d, Err e) => (d, Err e)
  | (d, Ok q) => let '(q, r) := enqueue tmp id body (now_enqueue env) q in (set_telemetry (Opened q) d, r)
  end.

(** The loop of [lock_until_cancelled] from the [n]-th poll on: [None] when the
    fuel runs out, [Some false] when cancelled, [Some true] when owned. *)
Fixpoint lock_from (fuel n : nat) : option bool :=
  match fuel with
  | O => None
  | S fuel' =>
      if stop_waiting env n then Some false
      else if busy env n then lock_from fuel' (S n)
      else Some true
  end.

Definition lock_until_cancelled (fuel : nat) : option bool := lock_from fuel 0.

(** [report_queue]: the health is read and logged. *)
Definition report_queue : queue_m unit :=
  let* _ := st_catch health in st_ret tt.

(** The closure's [outcome]: the last answer for an entry equal to [body]. *)
Definition outcome_for (body : bytes) (log : list (bytes * result unit TransportError))
  : option (result unit TransportError) :=
  fold_left (fun acc o => if str_eqb (fst o) body then Some (snd o) else acc) log None.

(** What the last drain of [q'] offered, [q] being the queue before it. *)
Definition offered_since (q q' : DiskQueue) : list (bytes * result unit TransportError) :=
  drop (length (offers q)) (offers q').

Definition deliver_observation (fuel : nat) (tmp id : uuid) (body : bytes) (d : DeliveryQueue)
  : DeliveryQueue * option (result uuid DeliveryError) :=
  match lock_until_cancelled fuel with
  | None => (d, None)
  | Some false => (d, Some (Err DCancelled))
  | Some true =>
      if stop_locked env then (d, Some (Err DCancelled))
      else
        match enqueue_observation tmp id body d with
        | (d, Err _) =>
            if stop_direct env then (d, Some (Err DCancelled))
            else
              let r := post env 0 body in
              (log_direct body r d,
               Some (match r with Ok _ => Ok id | Err e => Err (DTransport e) end))
        | (d, Ok _) =>
            match ready d with
            | (d, Err e) => (d, Some (Err (DQueue e)))
            | (d, Ok q) =>
                match drain (now_drain env) (stop_draining env) (post env) q with
                | (q', Err e) => (set_queue (Opened q') d, Some (Err (DQueue e)))
                | (q', Ok drained) =>
                    let outcome := outcome_for body (offered_since q q') in
                    let '(q'', _) := report_queue q' in
                    (set_queue (Opened q'') d,
                     Some (match outcome with
                           | Some (Ok _) => Ok id
                           | Some (Err e) =>
                               if bool_decide (failure e = PayloadRejected)
                               then Err (DTransport e) else Err (DQueuedForRetry id e)
                           | None =>
                               match blocked drained with
                               | Some e => Err (DQueuedBehind id e)
                               | None => Err (DQueuedCancelled id)
                               end
                           end))
                end
            end
        end
  end.

(** [send_inventory]: [collected] is what the collectors and the encoder made;
    the queue is asked for only when the observation fits and the agent runs. *)
Definition send_inventory (collected : result (uuid * option bytes) bytes) (stopped : bool) (fuel : nat)
    (tmp : uuid) (d : DeliveryQueue) : DeliveryQueue * option (result uuid DeliveryError) :=
  match collected with
  | Err m => (d, Some (Err (DCollect m)))
  | Ok (id, encoded) =>
      match encode_observation encoded with
      | Err e => (d, Some (Err (DTransport e)))
      | Ok body =>
          if stopped then (d, Some (Err DCancelled)) else deliver_observation fuel tmp id body d
      end
  end.

(** The sinks of the collector modules: a report that cannot be queued is dropped. *)
Definition queue_sink (fuel : nat) (tmp id : uuid) (body : bytes) (d : DeliveryQueue) : DeliveryQueue :=
  match lock_until_cancelled fuel with
  | Some true => fst (enqueue_observation tmp id body d)
  | _ => d
  end.
Definition telemetry_sink (fuel : nat) (tmp id : uuid) (body : bytes) (d : DeliveryQueue) : DeliveryQueue :=
  match lock_until_cancelled fuel with
  | Some true => fst (enqueue_batch tmp id body d)
  | _ => d
  end.

(** The second half of [flush], once no observation is blocked. *)
Definition flush_telemetry (d : DeliveryQueue) : DeliveryQueue * result unit DeliveryError :=
  match telemetry_ready d with
  | (d, Err e) => (d, Err (DQueue e))
  | (d, Ok q) =>
      match drain_at_most (now_telemetry env) TELEMETRY_PER_FLUSH (stop_telemetry env) (post_telemetry env) q with
      | (q, Err e) => (set_telemetry (Opened q) d, Err (DQueue e))
      | (q, Ok drained) =>
          let '(q, _) := report_queue q in
          (set_telemetry (Opened q) d,
           match blocked drained with
           | Some e => if is_cancelled e then Ok tt else Err (DTransport e)
           | None => Ok tt
           end)
      end
  end.

Definition flush (d : DeliveryQueue) : DeliveryQueue * result unit DeliveryError :=
  match ready d with
  | (d, Err e) => (d, Err (DQueue e))
  | (d, Ok q) =>
      match drain (now_drain env) (stop_draining env) (post env) q with
      | (q, Err e) => (set_queue (Opened q) d, Err (DQueue e))
      | (q, Ok drained) =>
          let '(q, _) := report_queue q in
          let d := set_queue (Opened q) d in
          match blocked drained with
          | Some e => (d, if is_cancelled e then Ok tt else Err (DTransport e))
          | None => flush_telemetry d
          end
      end
  end.
End delivery.

(** ** A single run *)

(** [deliver_startup] and [aggregated_result]: both operations run, and every
    failure is reported. *)
Definition deliver_startup (checkin inventory : result unit bytes) : list bytes :=
  omap (fun nr => match snd nr with
                  | Ok _ => None
                  | Err e => Some (fst nr ++ lit ": " ++ e)
                  end)
    [(lit "check-in", checkin); (lit "inventory", inventory)].

Fixpoint join_str (sep : bytes) (ps : list bytes) : bytes :=
  match ps with
  | [] => []
  | [p] => p
  | p :: ps' => p ++ sep ++ join_str sep ps'
  end.

Definition aggregated_result (failures : list bytes) : result unit bytes :=
  match failures with [] => Ok tt | _ => Err (join_str (lit "; ") failures) end.

(** ** What a drain offers, whatever the machine does *)

Definition quiet {A} (m : queue_m A) : Prop := forall q q' r, m q = (q', r) -> offers q' = offers q.

Create HintDb quiet.

Lemma no_offer_ret {A} (a : A) : quiet (st_ret a).
Proof. by intros q q' r [= <- <-]. Qed.
Lemma quiet_err {A} e : quiet (st_err e : queue_m A).
Proof. by intros q q' r [= <- <-]. Qed.
Lemma quiet_get : quiet st_get.
Proof. by intros q q' r [= <- <-]. Qed.
Lemma no_offer_bind {A B} (m : queue_m A) (k : A -> queue_m B) :
  quiet m -> (forall a, quiet (k a)) -> quiet (st_bind m k).
Proof.
  intros Hm Hk q q' r. unfold st_bind. destruct (m q) as [q1 [a|e]] eqn:E; intros H.
  - rewrite (Hk _ _ _ _ H). by eapply Hm.
  - injection H as <- <-. by eapply Hm.
Qed.
Lemma quiet_catch {A} (m : queue_m A) : quiet m -> quiet (st_catch m).
Proof.
  intros Hm q q' r. unfold st_catch. destruct (m q) as [q1 r1] eqn:E. intros [= <- <-]. by eapply Hm.
Qed.
Lemma quiet_on_disk {A} (m : fs A) : quiet (on_disk m).
Proof. intros q q' r. unfold on_disk. destruct (m (disk q)). by intros [= <- <-]. Qed.
Lemma quiet_counters f : quiet (st_modify (set_counters f)).
Proof. by intros q q' r [= <- <-]. Qed.
Lemma quiet_monitor h : quiet (st_modify (set_monitor h)).
Proof. by intros q q' r [= <- <-]. Qed.
#[local] Hint Resolve no_offer_ret quiet_err quiet_get quiet_catch quiet_on_disk quiet_counters quiet_monitor : quiet.

Ltac quiet :=
  repeat (intros; first [apply no_offer_bind | progress eauto with quiet
                        | match goal with |- quiet (match ?x with _ => _ end) => destruct x end]).

Section offered.
Context {U : Uuid}.

Lemma quiet_on_disk_or {A} a (m : fs A) : quiet (on_disk_or a m).
Proof. unfold on_disk_or. quiet. Qed.
#[local] Hint Resolve quiet_on_disk_or : quiet.
Lemma quiet_collect names : quiet (collect names).
Proof. induction names as [|n names IH]; cbn [collect]; quiet. Qed.
#[local] Hint Resolve quiet_collect : quiet.
Lemma quiet_entries : quiet entries.
Proof. unfold entries. quiet. Qed.
#[local] Hint Resolve quiet_entries : quiet.
Lemma quiet_health : quiet health.
Proof. unfold health. quiet. Qed.
#[local] Hint Resolve quiet_health : quiet.
Lemma quiet_publish : quiet publish_health.
Proof. unfold publish_health. quiet. Qed.
Lemma quiet_report : quiet report_queue.
Proof. unfold report_queue. quiet. Qed.
Lemma quiet_remove n : quiet (remove n).
Proof. unfold remove. quiet. Qed.
#[local] Hint Resolve quiet_publish quiet_remove : quiet.
Lemma quiet_expire_loop es : quiet (expire_loop es).
Proof. induction es as [|e es IH]; cbn [expire_loop]; quiet. Qed.
#[local] Hint Resolve quiet_expire_loop : quiet.
Lemma quiet_expire es now : quiet (expire es now).
Proof. unfold expire. quiet. Qed.

(** The answers of one drain: all settled, but perhaps the last, which blocks it. *)
Record paced (limit : Z) (log : list (bytes * result unit TransportError)) (b : option TransportError) : Prop :=
  mkPaced {
    paced_limit : zlength log <= limit;
    paced_settled : b = None -> Forall (fun o => settled (snd o) = true) log;
    paced_blocked : forall e, b = Some e -> exists l x, log = l ++ [(x, Err e)] /\
      settled (Err e) = false /\ Forall (fun o => settled (snd o) = true) l }.

Lemma paced_nil limit : 0 <= limit -> paced limit [] None.
Proof. by constructor. Qed.

Lemma paced_cons limit o log b :
  settled (snd o) = true -> paced (limit - 1) log b -> paced limit (o :: log) b.
Proof.
  intros Ho [H1 H2 H3]. constructor.
  - unfold zlength in *. cbn [length]. lia.
  - intros Hb. by constructor; [|apply H2].
  - intros e He. destruct (H3 e He) as (l & x & -> & ? & ?). exists (o :: l), x. split; [done|]. by split; [|constructor].
Qed.

Lemma paced_last limit x e : 1 <= limit -> settled (Err e) = false -> paced limit [(x, Err e)] (Some e).
Proof.
  intros Hl He. constructor; [done|done|]. intros e' [= <-]. by exists [], x.
Qed.

(** A quiet computation before the rest of a drain. *)
Lemma quiet_then {A B} (m : queue_m A) (k : A -> queue_m B) q q' r :
  quiet m -> st_bind m k q = (q', r) ->
  (exists a q1, offers q1 = offers q /\ k a q1 = (q', r)) \/ (offers q' = offers q /\ exists e, r = Err e).
Proof.
  intros Hm. unfold st_bind. destruct (m q) as [q1 [a|e]] eqn:E; intros H.
  - left. exists a, q1. split; [by eapply Hm|done].
  - injection H as <- <-. right. split; [by eapply Hm|eauto].
Qed.

Definition drains (limit : Z) (d : Drained) (q q' : DiskQueue) (r : result Drained QueueError) : Prop :=
  exists log b, offers q' = offers q ++ log /\ paced limit log b /\ (forall d', r = Ok d' -> blocked d' = b).

Lemma drains_quiet limit d q q' e : 0 <= limit -> offers q' = offers q -> drains limit d q q' (Err e).
Proof. intros Hl Ho. exists [], None. rewrite app_nil_r. by split_and!; [|apply paced_nil|]. Qed.

Lemma drain_loop_drains cancelled deliver limit es : forall round offered d q q' r,
  offered <= limit -> blocked d = None ->
  drain_loop cancelled deliver limit round offered d es q = (q', r) ->
  drains (limit - offered) d q q' r.
Proof.
  induction es as [|e es IH]; intros round offered d q q' r Ho Hb; cbn [drain_loop].
  { intros [= <- <-]. exists [], None. rewrite app_nil_r. split; [done|]. split; [apply paced_nil; lia|].
    by intros d' [= <-]. }
  destruct (cancelled round || (limit <=? offered)) eqn:Hc.
  { intros [= <- <-]. exists [], None. rewrite app_nil_r. split; [done|]. split; [apply paced_nil; lia|].
    by intros d' [= <-]. }
  apply orb_false_iff in Hc as [_ Hc%Z.leb_gt]. intros H. apply quiet_then in H as [(body & q1 & E1 & H)|(E1 & x & ->)];
    [|by apply drains_quiet; [lia|]|apply quiet_on_disk].
  assert (forall m : queue_m unit, quiet m -> forall q0, offers q0 = offers q ->
    st_bind m (fun _ => drain_loop cancelled deliver limit (S round) offered d es) q0 = (q', r) ->
    drains (limit - offered) d q q' r) as Hskip.
  { intros m Hm q0 E0 H0. apply quiet_then in H0 as [([] & q2 & E2 & H0)|(E2 & x & ->)];
      [|by apply drains_quiet; [lia|congruence]|done].
    apply IH in H0; [|done..]. destruct H0 as (log & b & Hl & ? & ?). exists log, b.
    by rewrite Hl, E2, E0. }
  assert (forall o q0 (m : queue_m unit) d0, settled (snd o) = true -> offers q0 = offers q ++ [o] -> quiet m ->
    blocked d0 = None ->
    st_bind m (fun _ => drain_loop cancelled deliver limit (S round) (offered + 1) d0 es) q0 = (q', r) ->
    drains (limit - offered) d q q' r) as Hnext.
  { intros o q0 m d0 Hs E0 Hm Hd0 H0.
    apply quiet_then in H0 as [([] & q2 & E2 & H0)|(E2 & x & ->)]; [| |done].
    - apply IH in H0; [|lia|done]. destruct H0 as (log & b & Hl & ? & ?). exists (o :: log), b.
      rewrite Hl, E2, E0, <- app_assoc. split; [done|]. split; [|done]. apply paced_cons; [done|].
      by replace (limit - offered - 1) with (limit - (offered + 1)) by lia.
    - exists [o], None. rewrite E2, E0. split; [done|]. split; [|done].
      apply paced_cons; [done|apply paced_nil; lia]. }
  assert (forall o q0, settled (snd o) = true -> offers q0 = offers q ++ [o] -> forall x,
    drains (limit - offered) d q q0 (Err x)) as Hlast.
  { intros o q0 Hs E0 x. exists [o], None. split; [done|]. split; [|done].
    apply paced_cons; [done|apply paced_nil; lia]. }
  assert (forall rm f, quiet (if (rm : bool) then st_modify (set_counters f) else st_ret tt)) as Hcount.
  { intros [] f; [apply quiet_counters|apply no_offer_ret]. }
  destruct body as [body|[]].
  2: by apply (Hskip publish_health (quiet_publish) q1).
  2, 3: apply quiet_then in H as [(rm & q2 & E2 & H)|(E2 & x & ->)];
      [|by apply drains_quiet; [lia|congruence]|apply quiet_remove];
    apply quiet_then in H as [(? & q3 & E3 & H)|(E3 & x & ->)];
    [apply (Hskip publish_health (quiet_publish) q3); [congruence|done]
    |apply drains_quiet; [lia|congruence]|apply Hcount].
  unfold st_bind at 1, st_modify in H. destruct (deliver _ body) as [u|err] eqn:Hd.
  - apply quiet_then in H as [(? & q2 & E2 & H)|(E2 & x & ->)]; [| |apply quiet_remove].
    + eapply (Hnext (body, Ok u) q2 publish_health); [done| |apply quiet_publish| |exact H]; [|done].
      rewrite E2. cbn. by rewrite E1.
    + apply (Hlast (body, Ok u)); [done|]. rewrite E2. cbn. by rewrite E1.
  - destruct (bool_decide _) eqn:Hk.
    2: { injection H as <- <-. exists [(body, Err err)], (Some err). cbn. rewrite E1. split; [done|].
         split; [apply paced_last; [lia|done]|]. by intros d' [= <-]. }
    apply quiet_then in H as [(rm & q2 & E2 & H)|(E2 & x & ->)]; [| |apply quiet_remove].
    + apply quiet_then in H as [(? & q3 & E3 & H)|(E3 & x & ->)]; [| |apply Hcount].
      * eapply (Hnext (body, Err err) q3 publish_health); [done| |apply quiet_publish| |exact H]; [|done].
        rewrite E3, E2. cbn. by rewrite E1.
      * apply (Hlast (body, Err err)); [done|]. rewrite E3, E2. cbn. by rewrite E1.
    + apply (Hlast (body, Err err)); [done|]. rewrite E2. cbn. by rewrite E1.
Qed.

Lemma drain_drains now limit cancelled deliver q q' r :
  0 <= limit -> drain_at_most now limit cancelled deliver q = (q', r) -> drains limit (mkDrained 0 0 None) q q' r.
Proof.
  intros Hl H. unfold drain_at_most in H.
  apply quiet_then in H as [(es & q1 & E1 & H)|(E1 & x & ->)]; [|by apply drains_quiet|apply quiet_entries].
  apply quiet_then in H as [(es' & q2 & E2 & H)|(E2 & x & ->)];
    [|by apply drains_quiet; [|congruence]|apply quiet_expire].
  unfold st_bind at 1 in H. destruct (drain_loop _ _ _ _ _ _ _ q2) as [q3 [d|x]] eqn:E.
  - apply drain_loop_drains in E; [|done..]. destruct E as (log & b & E3 & Hp & Hd).
    rewrite Z.sub_0_r in Hp. exists log, b.
    apply quiet_then in H as [([] & q4 & E4 & H)|(E4 & x & ->)]; [| |apply quiet_publish].
    + injection H as <- <-. rewrite E4, E3, E2, E1. split_and!; [done..|]. intros d' [= <-]. by apply Hd.
    + by rewrite E4, E3, E2, E1.
  - apply drain_loop_drains in E; [|done..]. injection H as <- <-. destruct E as (log & b & E3 & Hp & Hd).
    rewrite Z.sub_0_r in Hp. exists log, b. by rewrite E3, E2, E1.
Qed.
End offered.

(** ** Opening on demand offers nothing *)

Definition offers_of (s : slot) : list (bytes * result unit TransportError) :=
  match s with Opened q => offers q | Closed _ => [] end.

Section theorems.
Context {U : Uuid}.

Lemma quiet_remove_abandoned now names : quiet (remove_abandoned now names).
Proof.
  induction names as [|n names IH]; cbn [remove_abandoned]; [apply no_offer_ret|].
  destruct (_ && _); [|done]. apply no_offer_bind; [apply quiet_on_disk|]. intros [f|k]; [|done].
  destruct (_ <? _); [|done]. apply no_offer_bind; [apply quiet_remove|done].
Qed.

Lemma open_offers kind lim is_dir now w : offers (fst (open kind lim is_dir now w)) = [].
Proof.
  unfold open. match goal with |- offers (fst (?m ?q)) = _ => enough (quiet m) as H end.
  { match goal with |- offers (fst ?x) = _ => destruct x as [q' r] eqn:E end. cbn [fst]. by rewrite (H _ _ _ E). }
  do 2 (apply no_offer_bind; [apply quiet_on_disk_or|intros _]).
  destruct (negb is_dir); [apply quiet_err|].
  do 2 (apply no_offer_bind; [apply quiet_on_disk_or|intros _]).
  apply no_offer_bind; [|intros _].
  { apply no_offer_bind; [apply quiet_on_disk_or|apply quiet_remove_abandoned]. }
  apply no_offer_bind; [apply quiet_entries|intros es].
  apply no_offer_bind; [by intros q q' r [= <- <-]|intros _; apply quiet_publish].
Qed.

Lemma open_slot_offers env kind s s' r :
  open_slot env kind s = (s', r) ->
  offers_of s' = offers_of s /\ (forall q, r = Ok q -> s' = Opened q).
Proof.
  unfold open_slot. destruct s as [w|q]; [|intros [= <- <-]; by split; [|intros q' [= <-]]].
  pose proof (open_offers kind (default_limits kind) (directory_ok env kind) (now_open env) w) as Ho.
  destruct (open _ _ _ _ _) as [q r1]. cbn [fst] in Ho. destruct r1; intros [= <- <-]; cbn; rewrite ?Ho; split; try done. by intros q' [= <-].
Qed.

Lemma ready_offers env d d' r :
  ready env d = (d', r) ->
  offers_of (queue d') = offers_of (queue d) /\ telemetry d' = telemetry d /\ direct d' = direct d /\
  (forall q, r = Ok q -> queue d' = Opened q).
Proof.
  unfold ready. destruct (open_slot _ _ _) as [s r1] eqn:E. intros [= <- <-].
  by apply open_slot_offers in E as [??].
Qed.

Lemma telemetry_ready_offers env d d' r :
  telemetry_ready env d = (d', r) ->
  offers_of (telemetry d') = offers_of (telemetry d) /\ queue d' = queue d /\ direct d' = direct d /\
  (forall q, r = Ok q -> telemetry d' = Opened q).
Proof.
  unfold telemetry_ready. destruct (open_slot _ _ _) as [s r1] eqn:E. intros [= <- <-].
  by apply open_slot_offers in E as [??].
Qed.

Lemma flush_telemetry_paced env d d' r :
  flush_telemetry env d = (d', r) ->
  queue d' = queue d /\ direct d' = direct d /\
  exists log b, offers_of (telemetry d') = offers_of (telemetry d) ++ log /\ paced TELEMETRY_PER_FLUSH log b /\
    (r = Ok tt -> forall e, b = Some e -> is_cancelled e = true).
Proof.
  unfold flush_telemetry. destruct (telemetry_ready env d) as [d1 [q|x]] eqn:E1;
    apply telemetry_ready_offers in E1 as (Eo & Eq & Ed & Es).
  2: { intros [= <- <-]. split_and!; [done..|]. exists [], None. rewrite app_nil_r. split_and!; [done| |done].
       by apply paced_nil. }
  rewrite (Es q eq_refl) in Eo. cbn [offers_of] in Eo.
  destruct (drain_at_most _ _ _ _ q) as [q2 [drained|x]] eqn:E2; apply drain_drains in E2; try done;
    destruct E2 as (log & b & El & Hp & Hb).
  2: { intros [= <- <-]. split_and!; [done..|]. exists log, b. cbn. by rewrite El, Eo. }
  destruct (report_queue q2) as [q3 u] eqn:E3. apply quiet_report in E3. intros [= <- <-].
  split_and!; [done..|]. exists log, b. cbn. rewrite E3, El, Eo. split_and!; [done..|].
  rewrite (Hb _ eq_refl). intros Hr e ->. by destruct (is_cancelled e).
Qed.

(** Whatever the disk, the clock and the server do, a flush offers queued
    observations before any telemetry, goes on only while each is accepted or
    rejected for good, leaves telemetry alone once an observation is blocked,
    offers at most [TELEMETRY_PER_FLUSH] batches, never posts past the queues,
    and succeeds only if nothing but cancellation blocked it. *)
Theorem flush_observations_first (env : surroundings) (d : DeliveryQueue) :
  let '(d', r) := flush env d in
  exists observations blocked_at batches blocked_batch,
    offers_of (queue d') = offers_of (queue d) ++ observations /\
    offers_of (telemetry d') = offers_of (telemetry d) ++ batches /\
    paced USIZE_MAX observations blocked_at /\ paced TELEMETRY_PER_FLUSH batches blocked_batch /\
    (is_Some blocked_at -> telemetry d' = telemetry d) /\
    direct d' = direct d /\
    (r = Ok tt -> forall e, blocked_at = Some e \/ blocked_batch = Some e -> is_cancelled e = true).
Proof.
  destruct (flush env d) as [d' r] eqn:E. unfold flush in E.
  destruct (ready env d) as [d1 [q|x]] eqn:E1; apply ready_offers in E1 as (Eo & Et & Ed & Es).
  2: { injection E as <- <-. exists [], None, [], None. rewrite Eo, Et, !app_nil_r.
       split_and!; try done; by apply paced_nil. }
  rewrite (Es q eq_refl) in Eo. cbn [offers_of] in Eo. unfold drain in E.
  destruct (drain_at_most _ _ _ _ q) as [q2 [drained|x]] eqn:E2; apply drain_drains in E2; try done;
    destruct E2 as (log & b & El & Hp & Hb).
  2: { injection E as <- <-. exists log, b, [], None. cbn. rewrite El, Eo, Et, app_nil_r.
       split_and!; try done; by apply paced_nil. }
  destruct (report_queue q2) as [q3 u] eqn:E3. apply quiet_report in E3. specialize (Hb _ eq_refl).
  destruct (blocked drained) as [e|]; subst b.
  - injection E as <- <-. exists log, (Some e), [], None. cbn. rewrite E3, El, Eo, Et, app_nil_r.
    split_and!; try done; try (by apply paced_nil).
    destruct (is_cancelled e) eqn:He; [|done]. intros _ e' [[= <-]|?]; done.
  - apply flush_telemetry_paced in E as (Eq & Ed' & batches & b & Eb & Hpb & Hr).
    exists log, None, batches, b. rewrite Eq, Eb, Ed'. cbn. rewrite E3, El, Eo, Et.
    split_and!; try done; try (by intros [? ?]). intros Hok e [?|He]; [done|]. by apply Hr.
Qed.

(** ** One observation *)

Lemma outcome_for_snoc body log o :
  outcome_for body (log ++ [o]) = if str_eqb (fst o) body then Some (snd o) else outcome_for body log.
Proof. unfold outcome_for. by rewrite fold_left_app. Qed.

Lemma outcome_for_Some body log r : outcome_for body log = Some r -> (body, r) ∈ log.
Proof.
  induction log as [|[b r'] log IH] using rev_ind; [done|]. rewrite outcome_for_snoc. cbn [fst snd].
  destruct (str_eqb b body) eqn:Hb.
  - apply str_eqb_eq in Hb as ->. intros [= <-]. apply elem_of_app. right. by apply list_elem_of_singleton.
  - intros H%IH. apply elem_of_app. by left.
Qed.

Lemma outcome_for_None body log : body ∉ map fst log -> outcome_for body log = None.
Proof.
  intros Hn. destruct (outcome_for body log) as [r|] eqn:E; [|done]. apply outcome_for_Some in E.
  destruct Hn. by apply (list_elem_of_fmap_2 fst) in E.
Qed.

Lemma offered_since_app q q' log : offers q' = offers q ++ log -> offered_since q q' = log.
Proof. intros E. unfold offered_since. by rewrite E, drop_app_length. Qed.

Lemma enqueue_quiet tmp id body now : quiet (enqueue tmp id body now).
Proof.
  unfold enqueue. apply no_offer_bind; [apply quiet_get|intros q]. destruct (_ <? _); [apply quiet_err|].
  apply no_offer_bind; [apply quiet_entries|intros listed]. apply no_offer_bind; [apply quiet_expire|intros es].
  apply no_offer_bind; [apply quiet_get|intros q1].
  assert (forall l a b, quiet (make_room l a b (zlength body))) as Hr.
  { induction l as [|e l IH]; intros a b; cbn [make_room]; [apply no_offer_ret|].
    apply no_offer_bind; [apply quiet_get|intros q2]. destruct (_ && _); [apply no_offer_ret|].
    apply no_offer_bind; [apply quiet_remove|intros []]; (apply no_offer_bind; [|intros _; apply no_offer_bind; [|intros _]]);
      auto using quiet_counters, no_offer_ret, quiet_publish. }
  apply no_offer_bind; [apply Hr|intros _]. apply no_offer_bind; [|intros w].
  { apply quiet_catch. unfold write_atomically. apply no_offer_bind.
    - apply quiet_catch. do 3 (apply no_offer_bind; [apply quiet_on_disk_or|intros _]). apply quiet_on_disk_or.
    - intros []; [apply no_offer_ret|]. apply no_offer_bind; [apply quiet_on_disk|intros _; apply quiet_err]. }
  apply no_offer_bind; [|intros _].
  { destruct (is_ok w); [by intros q2 q3 r [= <- <-]|apply no_offer_ret]. }
  apply no_offer_bind; [apply quiet_publish|intros _]. by intros q2 q3 r [= <- <-].
Qed.

(** What a new observation meets on an undisturbed machine: room for it, a fresh
    temporary name, and no queued copy of it. *)
Record deliverable (env : surroundings) (tmp id : uuid) (body : bytes) (q : DiskQueue) : Prop := mkDeliverable {
  dv_calm : calm_queue q;
  dv_tidy : tidy (files (disk q));
  dv_sequences : sequences_fit q;
  dv_time : as_secs (since (now_enqueue env) 0) < 10 ^ 12;
  dv_temporary : files (disk q) !! (TEMPORARY_PREFIX ++ uuid_show tmp) = None;
  dv_size : zlength body <= max_bytes (limits q);
  dv_new : body ∉ map (body_of (files (disk q))) (entries_of (files (disk q)));
  dv_fresh : age (new_entry q id body (now_enqueue env)) (now_drain env) <= max_age (limits q) }.

Lemma enqueued_bodies id body now q e :
  tidy (files (disk q)) -> sequences_fit q -> as_secs (since now 0) < 10 ^ 12 ->
  e ∈ kept now (zlength body) q ->
  body_of (files (disk (enqueued id body now q))) e = body_of (files (disk q)) e /\
  e ∈ entries_of (files (disk q)).
Proof.
  intros Ht Hs Hnow He. pose proof (elem_of_current _ _ _ _ (elem_of_kept _ _ _ _ He)) as Hq.
  split; [|done]. apply trimmed_body in He as (f & Hf & Hf'). unfold body_of.
  rewrite enqueued_files, lookup_insert_ne; [by rewrite Hf, Hf'|].
  intros E. rewrite <- E in Hf. cbn [new_entry e_name] in Hf.
  rewrite new_name_free in Hf; [done..|]. split; [|by apply next_of_bound].
  destruct Hs as [? _]. unfold next_of. lia.
Qed.

(** Where an observation queued last stands in what a drain offered. *)
Lemma last_offer (bs : list bytes) body (log : list (bytes * result unit TransportError)) :
  map fst log `prefix_of` (bs ++ [body]) -> body ∉ bs ->
  ((body ∉ map fst log) /\ (length log <= length bs)%nat) \/
  exists log0 r, log = log0 ++ [(body, r)] /\ length log0 = length bs /\ outcome_for body log = Some r.
Proof.
  intros [k Hk] Hb. destruct k as [|x k] using rev_ind.
  - right. rewrite app_nil_r in Hk. destruct log as [|[b r] log] using rev_ind.
    { by destruct bs. }
    rewrite map_app in Hk. apply app_inj_tail in Hk as [-> Hx]. cbn in Hx. subst b.
    exists log, r. rewrite length_map, outcome_for_snoc. cbn [fst snd]. by rewrite str_eqb_refl.
  - left. rewrite app_assoc in Hk. apply app_inj_tail in Hk as [-> _].
    split; [by intros H; apply Hb, elem_of_app; left|]. rewrite length_app, length_map. lia.
Qed.

Lemma report_calm q : calm_queue q -> report_queue q = (q, Ok tt).
Proof. intros Hq. unfold report_queue, health, st_catch, st_bind. by rewrite entries_calm. Qed.

Lemma current_snoc lim now es e :
  age e now <= max_age lim -> current lim now (es ++ [e]) = current lim now es ++ [e].
Proof.
  intros H. unfold current. rewrite List.filter_app. cbn [List.filter]. unfold too_old.
  by replace (max_age lim <? age e now) with false by (symmetry; apply Z.ltb_ge; lia).
Qed.

(** Queued under its own name, whole. *)
Definition still_queued (q q' : DiskQueue) (id : uuid) (body : bytes) (now : Z) : Prop :=
  new_entry q id body now ∈ entries_of (files (disk q')) /\
  body_of (files (disk q')) (new_entry q id body now) = body.

Definition gone (q' : DiskQueue) (body : bytes) : Prop :=
  body ∉ map (body_of (files (disk q'))) (entries_of (files (disk q'))).

(** What the answer of [deliver_observation] says of the observation. *)
Definition answer_tells (env : surroundings) (q q' : DiskQueue) (id : uuid) (body : bytes)
    (res : result uuid DeliveryError) : Prop :=
  let log := offered_since q q' in
  match res with
  | Ok i => i = id /\ (body, Ok tt) ∈ log /\ gone q' body
  | Err (DTransport e) => failure e = PayloadRejected /\ (body, Err e) ∈ log /\ gone q' body
  | Err (DQueuedForRetry i e) =>
      i = id /\ (body, Err e) ∈ log /\ still_queued q q' id body (now_enqueue env)
  | Err (DQueuedBehind i e) =>
      i = id /\ (body ∉ map fst log) /\ (exists b, last_opt log = Some (b, Err e)) /\
      still_queued q q' id body (now_enqueue env)
  | Err (DQueuedCancelled i) =>
      i = id /\ (body ∉ map fst log) /\ still_queued q q' id body (now_enqueue env)
  | _ => False
  end.

Lemma still_queued_drop q q' id body now es k :
  entries_of (files (disk q')) = drop k (es ++ [new_entry q id body now]) -> (k <= length es)%nat ->
  files (disk q') ⊆ files (disk (enqueued id body now q)) -> still_queued q q' id body now.
Proof.
  intros Hv Hk Hsub.
  assert (new_entry q id body now ∈ entries_of (files (disk q'))) as Hin.
  { rewrite Hv, drop_app_le by done. apply elem_of_app. right. by apply list_elem_of_singleton. }
  split; [done|]. apply elem_of_entries_of in Hin as (f & Hf & _). unfold body_of. rewrite Hf.
  eapply lookup_weaken in Hf; [|exact Hsub]. rewrite enqueued_files, lookup_insert_eq in Hf.
  by injection Hf as <-.
Qed.

(** The drain of a queue whose last entry is the new observation. *)
Lemma drained_tells env tmp id body q :
  deliverable env tmp id body q ->
  exists q' d, drain (now_drain env) (stop_draining env) (post env) (enqueued id body (now_enqueue env) q) = (q', Ok d) /\
    calm_queue q' /\ offers q' = offers q ++ offered_since q q' /\
    answer_tells env q q' id body
      match outcome_for body (offered_since q q') with
      | Some (Ok _) => Ok id
      | Some (Err e) => if bool_decide (failure e = PayloadRejected)
                        then Err (DTransport e) else Err (DQueuedForRetry id e)
      | None => match blocked d with Some e => Err (DQueuedBehind id e) | None => Err (DQueuedCancelled id) end
      end.
Proof.
  intros [Hq Ht Hs Hnow Htmp Hsize Hnew Hfresh]. set (t1 := now_enqueue env) in *.
  set (q1 := enqueued id body t1 q).
  assert (calm_queue q1) as Hq1 by exact (trimmed_calm t1 (zlength body) q Hq).
  assert (limits q1 = limits q /\ offers q1 = offers q) as [Hl1 Ho1].
  { destruct (trimmed_fixed t1 (zlength body) q) as (? & _ & ?). done. }
  assert (enqueue tmp id body t1 q = (q1, Ok tt)) as _ by (by apply enqueue_calm).
  pose proof (enqueued_view id body t1 q Ht Hs Hnow (next_of_bound _ _ Hs)) as Hv1. fold q1 in Hv1.
  destruct (drain_calm (now_drain env) USIZE_MAX (stop_draining env) (post env) q1 Hq1)
    as (q' & Hr & Hv & Ho & _ & Hc & Hsub & _).
  rewrite Hv1, Hl1, current_snoc in Hr, Hv, Ho by done. rewrite map_app in Hr, Hv, Ho. cbn [map] in Hr, Hv, Ho.
  set (es := current (limits q) (now_drain env) (kept t1 (zlength body) q)) in *.
  set (e := new_entry q id body t1) in *.
  assert (body_of (files (disk q1)) e = body) as Hbe.
  { unfold body_of, q1. by rewrite enqueued_files, lookup_insert_eq. }
  rewrite Hbe in Hr, Hv, Ho. set (bs := map (body_of (files (disk q1))) es) in *.
  assert (body ∉ bs) as Hbs.
  { unfold bs. intros (x & Hx & Hin)%list_elem_of_fmap. apply elem_of_current in Hin.
    destruct (enqueued_bodies id body t1 q x Ht Hs Hnow Hin) as [Eb Hin']. apply Hnew.
    rewrite Hx. fold q1 in Eb. rewrite Eb. by apply list_elem_of_fmap_2. }
  set (log := offer_all _ _ _ _ _ _) in *.
  assert (offered_since q q' = log) as Elog by (apply offered_since_app; by rewrite Ho, Ho1).
  exists q', (tally (mkDrained 0 0 None) log). split; [done|]. split; [done|].
  split; [by rewrite Elog, Ho, Ho1|]. rewrite Elog. unfold answer_tells. rewrite Elog.
  pose proof (offer_all_prefix (stop_draining env) (post env) USIZE_MAX (bs ++ [body]) 0 0) as Hp. fold log in Hp.
  destruct (offer_all_shape (stop_draining env) (post env) USIZE_MAX (bs ++ [body]) 0 0) as (l & tl & El & Hl & Htl).
  fold log in El. rewrite El in Hv. rewrite (settle_count_app l tl Hl Htl) in Hv.
  destruct (tally_app l tl (mkDrained 0 0 None) Hl Htl eq_refl) as (_ & _ & Hb). rewrite <- El in Hb.
  destruct (last_offer bs body log) as [[Hno Hlen]|(log0 & r & El0 & Hlen & Eout)]; [done|done| |].
  - rewrite (outcome_for_None body log Hno).
    assert (length l <= length es)%nat as Hle.
    { unfold bs in Hlen. rewrite El, length_app, length_map in Hlen. lia. }
    pose proof (still_queued_drop q q' id body t1 es (length l) Hv Hle Hsub) as Hst.
    rewrite Hb. destruct Htl as [->|(b & x & -> & _)]; [done|].
    split_and!; [done..| |done]. exists b. rewrite El. apply last_opt_snoc.
  - rewrite Eout. assert ((body, r) ∈ log) as Hin by (by apply outcome_for_Some).
    assert (length bs = length es) as Hbl by (unfold bs; by rewrite length_map).
    destruct Htl as [->|(b & x & -> & Hx)].
    + rewrite app_nil_r in El. assert (settled r = true) as Hset.
      { rewrite <- El, El0 in Hl. apply Forall_app in Hl as [_ Hl]. by apply Forall_inv in Hl. }
      assert (gone q' body) as Hgone.
      { unfold gone. rewrite Hv, <- El, El0, drop_ge; [by inversion 1|].
        rewrite !length_app. cbn [length]. lia. }
      destruct r as [[]|x]; [done|]. cbn [settled] in Hset. rewrite Hset. by bool_simpl.
    + rewrite El0 in El. apply app_inj_tail in El as [<- [= _ ->]]. cbn [settled] in Hx. rewrite Hx.
      split_and!; [done..|]. by apply (still_queued_drop q q' id body t1 es (length log0)); [|lia|].
Qed.

(** C10. On an undisturbed machine the answer to delivering a new observation
    tells the truth about it: success means the server accepted exactly this
    body and it is no longer queued; a rejection for good means the server
    rejected it and it is gone; any other answer means it is still in the queue
    under its own name, whole, and says whether the server was asked and what
    held it up.  The delivery returns, posts nothing past the queue, and does
    not touch telemetry. *)
Theorem observation_delivered_or_kept (env : surroundings) (fuel : nat) (tmp id : uuid) (body : bytes)
    (d : DeliveryQueue) (q : DiskQueue) :
  queue d = Opened q -> deliverable env tmp id body q ->
  lock_until_cancelled env fuel = Some true -> stop_locked env = false ->
  exists q' res, deliver_observation env fuel tmp id body d = (set_queue (Opened q') d, Some res) /\
    offers q' = offers q ++ offered_since q q' /\ answer_tells env q q' id body res.
Proof.
  intros Eq Hd Hlock Hstop. destruct (drained_tells env tmp id body q Hd) as (q' & dr & Edr & Hc & Ho & Htell).
  destruct Hd. assert (offers (enqueued id body (now_enqueue env) q) = offers q) as Eo.
  { by destruct (trimmed_fixed (now_enqueue env) (zlength body) q) as (_ & _ & ?). }
  exists q'. eexists. split; [|split; [exact Ho|exact Htell]].
  unfold deliver_observation, enqueue_observation, ready. rewrite Hlock, Hstop, Eq. cbn [open_slot].
  rewrite enqueue_calm by done. cbn [queue set_queue open_slot]. rewrite Edr, report_calm by done.
  unfold offered_since. rewrite Eo. done.
Qed.

Lemma enqueue_observation_quiet env tmp id body d d' r :
  enqueue_observation env tmp id body d = (d', r) ->
  offers_of (queue d') = offers_of (queue d) /\ direct d' = direct d /\ telemetry d' = telemetry d.
Proof.
  unfold enqueue_observation. destruct (ready env d) as [d0 [q0|x]] eqn:E0;
    apply ready_offers in E0 as (Eo & Et & Ed & Es); [|by intros [= <- <-]].
  destruct (enqueue _ _ _ _ q0) as [q2 r2] eqn:E2. apply enqueue_quiet in E2. intros [= <- <-].
  rewrite (Es q0 eq_refl) in Eo. cbn in *. by rewrite E2.
Qed.

(** The posts of one delivery, and when its answer is a success. *)
Definition honest (env : surroundings) (id : uuid) (body : bytes) (d d' : DeliveryQueue)
    (r : option (result uuid DeliveryError)) : Prop :=
  exists offered posted,
    offers_of (queue d') = offers_of (queue d) ++ offered /\ direct d' = direct d ++ posted /\
    telemetry d' = telemetry d /\
    (posted = [] \/ offered = [] /\ posted = [(body, post env 0 body)]) /\
    (forall i, r = Some (Ok i) -> i = id /\ (body, Ok tt) ∈ offered ++ posted).

Lemma honest_quiet env id body d d' e :
  offers_of (queue d') = offers_of (queue d) /\ direct d' = direct d /\ telemetry d' = telemetry d ->
  honest env id body d d' (Some (Err e)).
Proof. intros (? & ? & ?). exists [], []. rewrite !app_nil_r. split_and!; auto. done. Qed.

Lemma honest_direct env id body d d' :
  offers_of (queue d') = offers_of (queue d) /\ direct d' = direct d /\ telemetry d' = telemetry d ->
  honest env id body d (log_direct body (post env 0 body) d')
    (Some (match post env 0 body with Ok _ => Ok id | Err e => Err (DTransport e) end)).
Proof.
  intros (Ho & Hd & Ht). exists [], [(body, post env 0 body)]. cbn. rewrite Ho, Hd, Ht, app_nil_r.
  split_and!; auto. destruct (post env 0 body) as [[]|]; [|done]. intros i [= <-].
  split; [done|]. by apply list_elem_of_singleton.
Qed.

(** C11. Whatever the disk, other threads, the clock and the server do, an
    observation is reported delivered only when the server accepted exactly its
    bytes in this call, from the queue or, if it could not be queued, in one
    direct post; telemetry is never touched, and nothing at all happens once the
    agent is stopped before it owns the queue. *)
Theorem delivered_only_if_accepted (env : surroundings) (fuel : nat) (tmp id : uuid) (body : bytes) (d : DeliveryQueue) :
  let '(d', r) := deliver_observation env fuel tmp id body d in
  (honest env id body d d' r \/ r = None /\ d' = d) /\
  (lock_until_cancelled env fuel = Some false \/ stop_locked env = true -> d' = d).
Proof.
  destruct (deliver_observation env fuel tmp id body d) as [d' r] eqn:E. unfold deliver_observation in E.
  destruct (lock_until_cancelled env fuel) as [[]|] eqn:Hlock.
  2, 3: injection E as <- <-; split; [|done]; first [by right | left; by apply honest_quiet].
  destruct (stop_locked env) eqn:Hstop; [injection E as <- <-; split; [left; by apply honest_quiet|done]|].
  split; [left|by intros [?|?]].
  destruct (enqueue_observation env tmp id body d) as [d1 r1] eqn:E1.
  apply enqueue_observation_quiet in E1 as (Ho1 & Hd1 & Ht1).
  destruct r1 as [[]|x].
  2: { destruct (stop_direct env); injection E as <- <-; [by apply honest_quiet|by apply honest_direct]. }
  destruct (ready env d1) as [d2 [q|x]] eqn:E2; apply ready_offers in E2 as (Eo & Et & Ed & Es).
  2: { injection E as <- <-. apply honest_quiet. split_and!; congruence. }
  rewrite (Es q eq_refl) in Eo. cbn [offers_of] in Eo. unfold drain in E.
  destruct (drain_at_most _ _ _ _ q) as [q' [dr|x]] eqn:E3; apply drain_drains in E3; try done;
    destruct E3 as (log & b & El & _ & _).
  2: { injection E as <- <-. exists log, []. cbn. rewrite El, Eo, Ho1, Ed, Hd1, Et, Ht1, app_nil_r.
       split_and!; auto; done. }
  destruct (report_queue q') as [q'' u] eqn:E4. apply quiet_report in E4. injection E as <- <-.
  exists log, []. cbn. rewrite E4, El, Eo, Ho1, Ed, Hd1, Et, Ht1, !app_nil_r. split_and!; auto.
  rewrite (offered_since_app q q' log El). destruct (outcome_for body log) as [[[]|x]|] eqn:Eout.
  - intros i [= <-]. split; [done|]. by apply outcome_for_Some.
  - by destruct (bool_decide _).
  - by destruct (blocked dr).
Qed.
End theorems.

(** ** A queue of two entries, to evaluate the theorem on *)

Section sample.
#[local] Existing Instance tiny_uuid.
Abbreviation id2 := (U2 : @uuid tiny_uuid).
Abbreviation id3 := (U3 : @uuid tiny_uuid).

Definition sample_env : surroundings :=
  mkSurroundings (fun n => Nat.ltb n 2) (fun _ => false) false false (fun _ => false) (fun _ => false) (fun _ => true)
    (from_secs 300) (from_secs 300) (from_secs 301) (from_secs 302)
    (fun n _ => if Nat.eqb n 1 then Err (transport_error (lit "busy") Transient) else Ok tt) (fun _ _ => Ok tt).

Definition sample_delivery : DeliveryQueue := mkDelivery (Opened sample) (Closed (disk sample)) [].

Lemma observation_delivered_or_kept_witness :
  exists q' res, deliver_observation sample_env 5 id3 id2 [7; 8] sample_delivery
                 = (set_queue (Opened q') sample_delivery, Some res) /\
    answer_tells sample_env sample q' id2 [7; 8] res.
Proof.
  destruct (observation_delivered_or_kept sample_env 5 id3 id2 [7; 8] sample_delivery sample)
    as (q' & res & E & _ & Ht).
  - reflexivity.
  - constructor.
    + done.
    + exact sample_tidy.
    + exact sample_fits.
    + vm_compute. reflexivity.
    + vm_compute. reflexivity.
    + vm_compute. discriminate.
    + apply (bool_decide_unpack _). vm_compute. exact I.
    + vm_compute. discriminate.
  - reflexivity.
  - reflexivity.
  - exists q', res. split; [exact E|exact Ht].
Defined.
End sample.
