(* ===== verification/Payload.v ===== *)
(** * payload.rs: the documents the agent sends

    The records of [payload.rs] and what serde makes of them: [wire] is a JSON
    document, and one [_wire] function per type follows its derive attributes
    (field order, [rename], [skip_serializing_if], [flatten], [tag]).  Uuids
    serialise as their text; chrono's text of a time is the parameter
    [rfc3339]; [f64] is IEEE binary64.  Turning a document into bytes is
    serde_json's and stays outside. *)

From Stdlib Require Import String SpecFloat.
From S2P Require Import Prelude Text Interfaces Queue Osquery.

#[local] Set Warnings "-register-all".

Inductive wire :=
| WNull
| WBool (b : bool)
| WInt (z : Z)
| WFloat (f : spec_float)
| WStr (s : bytes)
| WArr (l : list wire)
| WObj (fields : list (bytes * wire)).

(** A writer to evaluate the model with, in serde_json's compact layout; it does not
    escape, and writes every number that is not an integer as zero. *)
Fixpoint compact (w : wire) : bytes :=
  let fix items (l : list wire) : bytes :=
    match l with [] => [] | [w] => compact w | w :: l' => compact w ++ [44] ++ items l' end in
  let fix members (l : list (bytes * wire)) : bytes :=
    match l with
    | [] => []
    | [(n, w)] => [34] ++ n ++ [34; 58] ++ compact w
    | (n, w) :: l' => [34] ++ n ++ [34; 58] ++ compact w ++ [44] ++ members l'
    end in
  match w with
  | WNull => lit "null"
  | WBool b => lit (if b then "true" else "false")
  | WInt z => (if z <? 0 then [45] else []) ++ show_u64 (Z.abs z)
  | WFloat _ => lit "0.0"
  | WStr s => [34] ++ s ++ [34]
  | WArr l => [91] ++ items l ++ [93]
  | WObj l => [123] ++ members l ++ [125]
  end.
Definition written (w : wire) : option bytes := Some (compact w).

(** ** Fields *)

Definition field (name : string) (w : wire) : list (bytes * wire) := [(lit name, w)].
(** [skip_serializing_if = "Option::is_none"]. *)
Definition opt_field {A} (name : string) (f : A -> wire) (o : option A) : list (bytes * wire) :=
  match o with Some a => field name (f a) | None => [] end.
(** [skip_serializing_if = "Vec::is_empty"]. *)
Definition vec_field {A} (name : string) (f : A -> wire) (l : list A) : list (bytes * wire) :=
  match l with [] => [] | _ => field name (WArr (map f l)) end.
(** [skip_serializing_if = "std::ops::Not::not"]. *)
Definition flag_field (name : string) (b : bool) : list (bytes * wire) :=
  if b then field name (WBool true) else [].
Definition nullable {A} (f : A -> wire) (o : option A) : wire :=
  match o with Some a => f a | None => WNull end.

(** ** Host observations *)

Record HostAttributes := mkHostAttributes {
  ha_hostname : option bytes; ha_fqdn : option bytes; ha_vendor : option bytes;
  ha_model : option bytes; ha_asset_tag : option bytes }.

Definition no_attributes : HostAttributes := mkHostAttributes None None None None None.

Record Identifiers := mkIdentifiers {
  i_hostname : bytes; i_fqdn : option bytes; i_machine_id : option bytes;
  i_dmi_uuid : option bytes; i_serial_number : option bytes; i_mac_address : list bytes }.

Record Address := mkAddress { a_address : bytes; a_kind : option bytes; a_scope : option bytes }.

Inductive TaggingMode := Tagged | Untagged.
Record VlanMembership := mkVlan { vid : Z; tagging_mode : TaggingMode }.

Record Neighbor := mkNeighbor {
  protocol : bytes; remote_chassis_id : bytes; remote_chassis_id_kind : bytes;
  remote_port_id : bytes; remote_port_id_kind : bytes;
  remote_system_name : option bytes; remote_port_description : option bytes; ttl_seconds : Z }.

Record Interface := mkInterface {
  if_name : bytes; if_kind : bytes; if_status : bytes; if_mac_address : option bytes;
  if_mtu : option Z; if_speed_mbps : option Z; if_addresses : option (list Address);
  if_vlan_mode : option bytes; if_vlans : option (list VlanMembership); if_neighbors : option (list Neighbor) }.

(** [attributes] is a [BTreeMap]: its keys are distinct. *)
Record Component := mkComponent { c_kind : bytes; c_attributes : list (bytes * wire) }.

Record ServerResource := mkServer {
  s_identifiers : Identifiers; s_attributes : option HostAttributes;
  s_interfaces : option (list Interface); s_components : list Component; s_labels : list (bytes * bytes) }.

(** ** Collector reports *)

Inductive Reachability := Reachable | Unreachable.
Record TargetStatus := mkTargetStatus { ts_address : bytes; ts_status : Reachability; ts_error : option bytes }.
Record HypervisorStatus := mkHypervisorStatus { hs_id : bytes; hs_status : Reachability; hs_error : option bytes }.
Inductive ReportScope := Targets (targets : list TargetStatus) | Hypervisor (hypervisor : HypervisorStatus).

Inductive CollectorKind := BmcPower | PowerPoller | SwitchPoller | VmProvider.
Definition kind_str (k : CollectorKind) : bytes :=
  match k with
  | BmcPower => lit "bmc_power"
  | PowerPoller => lit "power_poller"
  | SwitchPoller => lit "switch_poller"
  | VmProvider => lit "vm_provider"
  end.
Record Collector := mkCollector { col_id : bytes; col_kind : CollectorKind }.

Inductive CollectorResourceKind := KPdu | KServer | KSwitch | KVm.
Record CollectorIdentifiers := mkCollectorIdentifiers {
  ci_hostname : option bytes; ci_serial_number : option bytes; ci_dmi_uuid : option bytes;
  ci_mac_address : list bytes }.

Definition no_identifiers : CollectorIdentifiers := mkCollectorIdentifiers None None None [].

Inductive DomainState := Running | Idle | Paused | ShuttingDown | Shutoff | Crashed | Pmsuspended | UnknownState.
Inductive DomainInterfaceType := Bridge | Network | Direct | User | OtherType.
Record DomainDisk := mkDisk {
  dd_target : bytes; dd_device : option bytes; dd_bus : option bytes; dd_format : option bytes; dd_source : option bytes }.
Record DomainInterface := mkDomainInterface {
  di_mac_address : bytes; di_kind : DomainInterfaceType; di_source : option bytes; di_model : option bytes;
  di_target : option bytes }.
Record VmDomain := mkDomain {
  vm_name : bytes; vm_state : DomainState; vm_persistent : option bool; vm_vcpus : option Z;
  vm_memory_mib : option Z; vm_disks : list DomainDisk; vm_interfaces : list DomainInterface }.

Record CollectorResource := mkResource {
  cr_kind : CollectorResourceKind; cr_target : option bytes; cr_identifiers : CollectorIdentifiers;
  cr_attributes : option HostAttributes; cr_interfaces : option (list Interface); cr_domain : option VmDomain }.

Record SectionCompleteness := mkSections { interface_vlans : bool; interface_neighbors : bool }.
Definition no_sections : SectionCompleteness := mkSections false false.
Definition sections_empty (s : SectionCompleteness) : bool := negb (interface_vlans s) && negb (interface_neighbors s).

(** ** Telemetry *)

Definition MAX_TELEMETRY_BYTES : Z := 512000.

Record SampleComponent := mkSampleComponent { sc_kind : bytes; sc_name : bytes }.
Record SampleWindow := mkWindow { w_start : Z; w_end : Z }.
Record SampleMapping := mkMapping { m_name : bytes; m_version : Z }.
Record TelemetrySample := mkSample {
  t_target : option bytes; t_sensor : bytes; t_boundary : bytes; t_quantity : bytes; t_unit : option bytes;
  t_component : option SampleComponent; t_leg : option bytes; t_coverage : option bytes; t_status : bytes;
  t_origin : bytes; t_value : option spec_float; t_state : option bytes; t_window : SampleWindow;
  t_event_at : Z; t_mapping : SampleMapping; t_fresh_for_seconds : Z }.
Record TelemetryCollector := mkTelemetryCollector { tc_id : bytes; tc_kind : bytes }.

(** ** Check-ins *)

Record PresentedKey := mkPresented { algorithm : bytes; presented_public_key : bytes }.
Definition ed25519_presented (public_key : bytes) : PresentedKey := mkPresented (lit "ed25519") public_key.
Record PowerSourceReport := mkPowerSource { ps_source : bytes; ps_status : bytes }.
Record QueryBackends := mkBackends { qb_osquery : option BackendStatus }.

Record QueueReport := mkQueueReport {
  qr_entries : Z; qr_bytes : Z; qr_oldest_age_seconds : option Z; qr_dropped_for_space : Z; qr_expired : Z;
  qr_rejected : Z; qr_unreadable : Z; qr_dropped_earliest : option Z; qr_dropped_latest : option Z }.

Definition queue_report (health : QueueHealth) (now : Z) : QueueReport :=
  let age at_ := as_secs (since now at_) in
  let dropped := dropped_range (h_counters health) in
  mkQueueReport (h_entries health) (h_bytes health) (as_secs <$> oldest_age health now)
    (dropped_for_space (h_counters health)) (expired (h_counters health)) (rejected (h_counters health))
    (unreadable (h_counters health)) ((fun r => age (fst r)) <$> dropped) ((fun r => age (snd r)) <$> dropped).

Record AgentMetadata := mkMetadata {
  agent_version : bytes; observation_queue : option QueueReport; telemetry_queue : option QueueReport;
  power_sources : option (list PowerSourceReport); query_backends : option QueryBackends }.
Record CheckIn := mkCheckIn {
  capabilities : list bytes; metadata : AgentMetadata; presented_key : option PresentedKey }.

(** [env!("CARGO_PKG_VERSION")] is [version]. *)
Definition checkin_new (version : bytes) (caps : list bytes) (q : option QueueReport) : CheckIn :=
  mkCheckIn caps (mkMetadata version q None None None) None.
Definition with_telemetry_queue (r : option QueueReport) (c : CheckIn) : CheckIn :=
  let m := metadata c in
  mkCheckIn (capabilities c)
    (mkMetadata (agent_version m) (observation_queue m) r (power_sources m) (query_backends m)) (presented_key c).
Definition with_power_sources (r : option (list PowerSourceReport)) (c : CheckIn) : CheckIn :=
  let m := metadata c in
  mkCheckIn (capabilities c)
    (mkMetadata (agent_version m) (observation_queue m) (telemetry_queue m) r (query_backends m)) (presented_key c).
Definition with_osquery (o : option BackendStatus) (c : CheckIn) : CheckIn :=
  let m := metadata c in
  mkCheckIn (capabilities c)
    (mkMetadata (agent_version m) (observation_queue m) (telemetry_queue m) (power_sources m) (Some (mkBackends o)))
    (presented_key c).
Definition with_key (k : PresentedKey) (c : CheckIn) : CheckIn :=
  mkCheckIn (capabilities c) (metadata c) (Some k).

Inductive KeyApproval := Pending | Approved.
Record KeyStatus := mkKeyStatus { key_fingerprint : bytes; key_approval : KeyApproval }.
Record CheckInAck := mkAck { jobs_waiting : option bool; ack_key : option KeyStatus }.

(** ** Serialisation *)

Definition host_attributes_wire (h : HostAttributes) : wire :=
  WObj (opt_field "hostname" WStr (ha_hostname h) ++ opt_field "fqdn" WStr (ha_fqdn h)
        ++ opt_field "vendor" WStr (ha_vendor h) ++ opt_field "model" WStr (ha_model h)
        ++ opt_field "asset_tag" WStr (ha_asset_tag h)).

Definition identifiers_wire (i : Identifiers) : wire :=
  WObj (field "hostname" (WStr (i_hostname i)) ++ opt_field "fqdn" WStr (i_fqdn i)
        ++ opt_field "machine_id" WStr (i_machine_id i) ++ opt_field "dmi_uuid" WStr (i_dmi_uuid i)
        ++ opt_field "serial_number" WStr (i_serial_number i) ++ vec_field "mac_address" WStr (i_mac_address i)).

Definition address_wire (a : Address) : wire :=
  WObj (field "address" (WStr (a_address a)) ++ opt_field "kind" WStr (a_kind a) ++ opt_field "scope" WStr (a_scope a)).

Definition tagging_str (t : TaggingMode) : bytes :=
  match t with Tagged => lit "tagged" | Untagged => lit "untagged" end.
Definition vlan_wire (v : VlanMembership) : wire :=
  WObj (field "vid" (WInt (vid v)) ++ field "tagging_mode" (WStr (tagging_str (tagging_mode v)))).

Definition neighbor_wire (n : Neighbor) : wire :=
  WObj (field "protocol" (WStr (protocol n)) ++ field "remote_chassis_id" (WStr (remote_chassis_id n))
        ++ field "remote_chassis_id_kind" (WStr (remote_chassis_id_kind n))
        ++ field "remote_port_id" (WStr (remote_port_id n))
        ++ field "remote_port_id_kind" (WStr (remote_port_id_kind n))
        ++ opt_field "remote_system_name" WStr (remote_system_name n)
        ++ opt_field "remote_port_description" WStr (remote_port_description n)
        ++ field "ttl_seconds" (WInt (ttl_seconds n))).

Definition interface_wire (i : Interface) : wire :=
  WObj (field "name" (WStr (if_name i)) ++ field "kind" (WStr (if_kind i)) ++ field "status" (WStr (if_status i))
        ++ opt_field "mac_address" WStr (if_mac_address i) ++ opt_field "mtu" WInt (if_mtu i)
        ++ opt_field "speed_mbps" WInt (if_speed_mbps i)
        ++ opt_field "addresses" (fun l => WArr (map address_wire l)) (if_addresses i)
        ++ opt_field "vlan_mode" WStr (if_vlan_mode i)
        ++ opt_field "vlans" (fun l => WArr (map vlan_wire l)) (if_vlans i)
        ++ opt_field "neighbors" (fun l => WArr (map neighbor_wire l)) (if_neighbors i)).

(** [Component]'s own [Serialize]: an attribute named [kind] gives way. *)
Definition component_wire (c : Component) : wire :=
  WObj (field "kind" (WStr (c_kind c))
        ++ List.filter (fun kv => negb (str_eqb (fst kv) (lit "kind"))) (c_attributes c)).

(** A [BTreeMap] of strings: an object with its keys. *)
Definition labels_wire (l : list (bytes * bytes)) : wire := WObj (map (fun kv => (fst kv, WStr (snd kv))) l).

(** [skip_serializing_if = "BTreeMap::is_empty"]. *)
Definition labels_field (l : list (bytes * bytes)) : list (bytes * wire) :=
  match l with [] => [] | _ => field "labels" (labels_wire l) end.

Definition server_wire (s : ServerResource) : wire :=
  WObj (field "kind" (WStr (lit "server")) ++ field "identifiers" (identifiers_wire (s_identifiers s))
        ++ opt_field "attributes" host_attributes_wire (s_attributes s)
        ++ opt_field "interfaces" (fun l => WArr (map interface_wire l)) (s_interfaces s)
        ++ field "components" (WArr (map component_wire (s_components s)))
        ++ labels_field (s_labels s)).

Definition with_labels (l : list (bytes * bytes)) (s : ServerResource) : ServerResource :=
  mkServer (s_identifiers s) (s_attributes s) (s_interfaces s) (s_components s) l.

Definition reachability_str (r : Reachability) : bytes :=
  match r with Reachable => lit "reachable" | Unreachable => lit "unreachable" end.
Definition target_status_wire (t : TargetStatus) : wire :=
  WObj (field "address" (WStr (ts_address t)) ++ field "status" (WStr (reachability_str (ts_status t)))
        ++ opt_field "error" WStr (ts_error t)).
Definition hypervisor_status_wire (h : HypervisorStatus) : wire :=
  WObj (field "id" (WStr (hs_id h)) ++ field "status" (WStr (reachability_str (hs_status h)))
        ++ opt_field "error" WStr (hs_error h)).
(** [tag = "scope"], flattened into the report. *)
Definition scope_fields (s : ReportScope) : list (bytes * wire) :=
  match s with
  | Targets ts => field "scope" (WStr (lit "targets")) ++ field "targets" (WArr (map target_status_wire ts))
  | Hypervisor h => field "scope" (WStr (lit "hypervisor")) ++ field "hypervisor" (hypervisor_status_wire h)
  end.
Definition collector_wire (c : Collector) : wire :=
  WObj (field "id" (WStr (col_id c)) ++ field "kind" (WStr (kind_str (col_kind c)))).

Definition resource_kind_str (k : CollectorResourceKind) : bytes :=
  match k with KPdu => lit "pdu" | KServer => lit "server" | KSwitch => lit "switch" | KVm => lit "vm" end.
Definition collector_identifiers_wire (i : CollectorIdentifiers) : wire :=
  WObj (opt_field "hostname" WStr (ci_hostname i) ++ opt_field "serial_number" WStr (ci_serial_number i)
        ++ opt_field "dmi_uuid" WStr (ci_dmi_uuid i) ++ vec_field "mac_address" WStr (ci_mac_address i)).

Definition domain_state_str (s : DomainState) : bytes :=
  match s with
  | Running => lit "running" | Idle => lit "idle" | Paused => lit "paused" | ShuttingDown => lit "shutting_down"
  | Shutoff => lit "shutoff" | Crashed => lit "crashed" | Pmsuspended => lit "pmsuspended"
  | UnknownState => lit "unknown"
  end.
Definition interface_type_str (t : DomainInterfaceType) : bytes :=
  match t with
  | Bridge => lit "bridge" | Network => lit "network" | Direct => lit "direct" | User => lit "user"
  | OtherType => lit "other"
  end.
Definition disk_wire (d : DomainDisk) : wire :=
  WObj (field "target" (WStr (dd_target d)) ++ opt_field "device" WStr (dd_device d) ++ opt_field "bus" WStr (dd_bus d)
        ++ opt_field "format" WStr (dd_format d) ++ opt_field "source" WStr (dd_source d)).
Definition domain_interface_wire (d : DomainInterface) : wire :=
  WObj (field "mac_address" (WStr (di_mac_address d)) ++ field "type" (WStr (interface_type_str (di_kind d)))
        ++ opt_field "source" WStr (di_source d) ++ opt_field "model" WStr (di_model d)
        ++ opt_field "target" WStr (di_target d)).
Definition domain_wire (d : VmDomain) : wire :=
  WObj (field "name" (WStr (vm_name d)) ++ field "state" (WStr (domain_state_str (vm_state d)))
        ++ opt_field "persistent" WBool (vm_persistent d) ++ opt_field "vcpus" WInt (vm_vcpus d)
        ++ opt_field "memory_mib" WInt (vm_memory_mib d) ++ field "disks" (WArr (map disk_wire (vm_disks d)))
        ++ field "interfaces" (WArr (map domain_interface_wire (vm_interfaces d)))).
Definition resource_wire (r : CollectorResource) : wire :=
  WObj (field "kind" (WStr (resource_kind_str (cr_kind r))) ++ opt_field "target" WStr (cr_target r)
        ++ field "identifiers" (collector_identifiers_wire (cr_identifiers r))
        ++ opt_field "attributes" host_attributes_wire (cr_attributes r)
        ++ opt_field "interfaces" (fun l => WArr (map interface_wire l)) (cr_interfaces r)
        ++ opt_field "domain" domain_wire (cr_domain r)).
Definition sections_wire (s : SectionCompleteness) : wire :=
  WObj (flag_field "interface_vlans" (interface_vlans s) ++ flag_field "interface_neighbors" (interface_neighbors s)).

Definition queue_report_wire (q : QueueReport) : wire :=
  WObj (field "entries" (WInt (qr_entries q)) ++ field "bytes" (WInt (qr_bytes q))
        ++ field "oldest_age_seconds" (nullable WInt (qr_oldest_age_seconds q))
        ++ field "dropped_for_space" (WInt (qr_dropped_for_space q)) ++ field "expired" (WInt (qr_expired q))
        ++ field "rejected" (WInt (qr_rejected q)) ++ field "unreadable" (WInt (qr_unreadable q))
        ++ opt_field "dropped_earliest_age_seconds" WInt (qr_dropped_earliest q)
        ++ opt_field "dropped_latest_age_seconds" WInt (qr_dropped_latest q)).
Definition power_source_wire (p : PowerSourceReport) : wire :=
  WObj (field "source" (WStr (ps_source p)) ++ field "status" (WStr (ps_status p))).
(** [tag = "status", rename_all = "snake_case"]. *)
Definition backend_wire (b : BackendStatus) : wire :=
  WObj (match b with
        | Available version => field "status" (WStr (lit "available")) ++ opt_field "version" WStr version
        | NotPermitted => field "status" (WStr (lit "not_permitted"))
        | NotPresent => field "status" (WStr (lit "not_present"))
        end).
Definition metadata_wire (m : AgentMetadata) : wire :=
  WObj (field "agent_version" (WStr (agent_version m))
        ++ opt_field "observation_queue" queue_report_wire (observation_queue m)
        ++ opt_field "telemetry_queue" queue_report_wire (telemetry_queue m)
        ++ opt_field "power_sources" (fun l => WArr (map power_source_wire l)) (power_sources m)
        ++ opt_field "query_backends" (fun b => WObj (opt_field "osquery" backend_wire (qb_osquery b))) (query_backends m)).
Definition presented_key_wire (k : PresentedKey) : wire :=
  WObj (field "algorithm" (WStr (algorithm k)) ++ field "public_key" (WStr (presented_public_key k))).
Definition checkin_wire (c : CheckIn) : wire :=
  WObj (field "capabilities" (WArr (map WStr (capabilities c))) ++ field "metadata" (metadata_wire (metadata c))
        ++ opt_field "installation_key" presented_key_wire (presented_key c)).

Section documents.
Context {U : Uuid}.
Variable rfc3339 : Z -> bytes.

Record Observation := mkObservation {
  observation_id : uuid; observed_at : Z; source_id : option bytes; resource : ServerResource }.
(** [Observation::new], with the fresh identifier and the time it reads. *)
Definition observation_new (id : uuid) (now : Z) (s : ServerResource) : Observation := mkObservation id now None s.
Definition observation_with_labels (l : list (bytes * bytes)) (o : Observation) : Observation :=
  mkObservation (observation_id o) (observed_at o) (source_id o) (with_labels l (resource o)).
Definition observation_wire (o : Observation) : wire :=
  WObj (field "observation_id" (WStr (uuid_show (observation_id o)))
        ++ field "observed_at" (WStr (rfc3339 (observed_at o)))
        ++ field "source" (WObj (field "kind" (WStr (lit "host_agent")) ++ opt_field "source_id" WStr (source_id o)))
        ++ field "resources" (WArr [server_wire (resource o)])).

Record ScopedReport := mkReport {
  report_id : uuid; report_at : Z; scope : ReportScope; collector : Collector; complete : bool;
  resources : list CollectorResource; section_completeness : SectionCompleteness }.
Definition report_new (id : uuid) (now : Z) (c : Collector) (s : ReportScope) (complete : bool)
    (rs : list CollectorResource) : ScopedReport := mkReport id now s c complete rs no_sections.
Definition with_section_completeness (s : SectionCompleteness) (r : ScopedReport) : ScopedReport :=
  mkReport (report_id r) (report_at r) (scope r) (collector r) (complete r) (resources r) s.
Definition report_wire (r : ScopedReport) : wire :=
  WObj (field "observation_id" (WStr (uuid_show (report_id r))) ++ field "observed_at" (WStr (rfc3339 (report_at r)))
        ++ scope_fields (scope r) ++ field "collector" (collector_wire (collector r))
        ++ field "complete" (WBool (complete r)) ++ field "resources" (WArr (map resource_wire (resources r)))
        ++ (if sections_empty (section_completeness r) then []
            else field "section_completeness" (sections_wire (section_completeness r)))).

Definition sample_wire (t : TelemetrySample) : wire :=
  WObj (opt_field "target" WStr (t_target t) ++ field "sensor" (WStr (t_sensor t))
        ++ field "boundary" (WStr (t_boundary t)) ++ field "quantity" (WStr (t_quantity t))
        ++ opt_field "unit" WStr (t_unit t)
        ++ opt_field "component" (fun c => WObj (field "kind" (WStr (sc_kind c)) ++ field "name" (WStr (sc_name c))))
             (t_component t)
        ++ opt_field "leg" WStr (t_leg t) ++ opt_field "coverage" WStr (t_coverage t)
        ++ field "status" (WStr (t_status t)) ++ field "origin" (WStr (t_origin t))
        ++ opt_field "value" WFloat (t_value t) ++ opt_field "state" WStr (t_state t)
        ++ field "window" (WObj (field "start" (WStr (rfc3339 (w_start (t_window t))))
                                 ++ field "end" (WStr (rfc3339 (w_end (t_window t))))))
        ++ field "event_at" (WStr (rfc3339 (t_event_at t)))
        ++ field "mapping" (WObj (field "name" (WStr (m_name (t_mapping t)))
                                  ++ field "version" (WInt (m_version (t_mapping t)))))
        ++ field "fresh_for_seconds" (WInt (t_fresh_for_seconds t))).

Record TelemetryBatch := mkBatch {
  version : Z; replay_id : uuid; batch_collector : option TelemetryCollector; samples : list TelemetrySample }.
Definition batch_host (id : uuid) (l : list TelemetrySample) : TelemetryBatch := mkBatch 1 id None l.
Definition batch_of_collector (id : uuid) (cid : bytes) (kind : CollectorKind) (l : list TelemetrySample)
  : TelemetryBatch := mkBatch 1 id (Some (mkTelemetryCollector cid (kind_str kind))) l.
Definition batch_wire (b : TelemetryBatch) : wire :=
  WObj (field "version" (WInt (version b)) ++ field "replay_id" (WStr (uuid_show (replay_id b)))
        ++ opt_field "collector" (fun c => WObj (field "id" (WStr (tc_id c)) ++ field "kind" (WStr (tc_kind c))))
             (batch_collector b)
        ++ field "samples" (WArr (map sample_wire (samples b)))).
End documents.

(** ** Every document has distinct keys *)

Fixpoint distinct (w : wire) : Prop :=
  match w with
  | WArr l => fold_right (fun x P => distinct x /\ P) True l
  | WObj fields => NoDup (map fst fields) /\ fold_right (fun kv P => distinct (snd kv) /\ P) True fields
  | _ => True
  end.

Lemma distinct_arr l : distinct (WArr l) <-> Forall distinct l.
Proof. cbn. induction l as [|x l IH]; cbn; [by split|]. rewrite list.Forall_cons, <- IH. done. Qed.

Lemma distinct_obj_iff fields :
  distinct (WObj fields) <-> NoDup (map fst fields) /\ Forall (fun kv => distinct (snd kv)) fields.
Proof.
  cbn. apply and_iff_compat_l. induction fields as [|x l IH]; cbn; [by split|].
  rewrite list.Forall_cons, <- IH. done.
Qed.

(** The fields [fs] have keys among [names], in that order, and sound values. *)
Definition fields_among (names : list bytes) (fs : list (bytes * wire)) : Prop :=
  sublist (map fst fs) names /\ Forall (fun kv => distinct (snd kv)) fs.

Lemma among_app n1 n2 f1 f2 : fields_among n1 f1 -> fields_among n2 f2 -> fields_among (n1 ++ n2) (f1 ++ f2).
Proof.
  intros [S1 F1] [S2 F2]. split; [rewrite map_app; by apply sublist_app|]. by apply Forall_app.
Qed.
Lemma among_field name w : distinct w -> fields_among [lit name] (field name w).
Proof. intros H. split; [done|]. by repeat constructor. Qed.
Lemma among_nil n : fields_among n [].
Proof. split; [apply sublist_nil_l|constructor]. Qed.
Lemma among_opt {A} name (f : A -> wire) o :
  (forall a, o = Some a -> distinct (f a)) -> fields_among [lit name] (opt_field name f o).
Proof. intros H. destruct o as [a|]; [|apply among_nil]. by apply among_field, H. Qed.
Lemma among_vec {A} name (f : A -> wire) l :
  Forall (fun a => distinct (f a)) l -> fields_among [lit name] (vec_field name f l).
Proof.
  intros H. destruct l as [|a l]; [apply among_nil|]. apply among_field, distinct_arr. by apply Forall_map.
Qed.
Lemma among_flag name b : fields_among [lit name] (flag_field name b).
Proof. destruct b; [by apply among_field|apply among_nil]. Qed.
Lemma among_obj names fs : fields_among names fs -> NoDup names -> distinct (WObj fs).
Proof.
  intros [S F] N. apply distinct_obj_iff. split; [|done]. by eapply sublist_NoDup.
Qed.
Lemma distinct_map {A} (f : A -> wire) l : (forall a, distinct (f a)) -> distinct (WArr (map f l)).
Proof. intros H. apply distinct_arr, Forall_map, Forall_true. intros x. apply H. Qed.

Create HintDb wires.
#[local] Hint Extern 1 (distinct (WStr _)) => exact I : wires.
#[local] Hint Extern 1 (distinct (WInt _)) => exact I : wires.
#[local] Hint Extern 1 (distinct (WBool _)) => exact I : wires.
#[local] Hint Extern 1 (distinct (WFloat _)) => exact I : wires.

(** A record's object: each field by its shape, its names distinct by computation. *)
Ltac wires :=
  eapply among_obj;
  [ repeat first [ eassumption | apply among_app
                 | apply among_field; [] | apply among_opt; intros ? _ | apply among_vec | apply among_flag ];
    try solve [auto with wires | apply Forall_true; auto with wires | apply distinct_map; auto with wires]
  | try solve [cbn [app]; apply (bool_decide_unpack _); vm_compute; exact I] ].

Lemma host_attributes_ok h : distinct (host_attributes_wire h).
Proof. wires. Qed.
Lemma identifiers_ok i : distinct (identifiers_wire i).
Proof. wires. Qed.
Lemma address_ok a : distinct (address_wire a).
Proof. wires. Qed.
Lemma vlan_ok v : distinct (vlan_wire v).
Proof. wires. Qed.
Lemma neighbor_ok n : distinct (neighbor_wire n).
Proof. wires. Qed.
#[local] Hint Resolve host_attributes_ok identifiers_ok address_ok vlan_ok neighbor_ok distinct_map : wires.
Lemma interface_ok i : distinct (interface_wire i).
Proof. wires. Qed.
Lemma target_status_ok t : distinct (target_status_wire t).
Proof. wires. Qed.
Lemma hypervisor_status_ok h : distinct (hypervisor_status_wire h).
Proof. wires. Qed.
Lemma collector_ok c : distinct (collector_wire c).
Proof. wires. Qed.
Lemma collector_identifiers_ok i : distinct (collector_identifiers_wire i).
Proof. wires. Qed.
Lemma disk_ok d : distinct (disk_wire d).
Proof. wires. Qed.
Lemma domain_interface_ok d : distinct (domain_interface_wire d).
Proof. wires. Qed.
#[local] Hint Resolve interface_ok target_status_ok hypervisor_status_ok collector_ok collector_identifiers_ok
  disk_ok domain_interface_ok : wires.
Lemma domain_ok d : distinct (domain_wire d).
Proof. wires. Qed.
#[local] Hint Resolve domain_ok : wires.
Lemma resource_ok r : distinct (resource_wire r).
Proof. wires. Qed.
Lemma sections_ok s : distinct (sections_wire s).
Proof. wires. Qed.
Lemma queue_report_ok q : distinct (queue_report_wire q).
Proof.
  wires. destruct (qr_oldest_age_seconds q); exact I.
Qed.
Lemma power_source_ok p : distinct (power_source_wire p).
Proof. wires. Qed.
Lemma backend_ok b : distinct (backend_wire b).
Proof. destruct b; wires. Qed.
#[local] Hint Resolve resource_ok sections_ok queue_report_ok power_source_ok backend_ok : wires.
Lemma metadata_ok m : distinct (metadata_wire m).
Proof. wires. wires. Qed.
Lemma presented_key_ok k : distinct (presented_key_wire k).
Proof. wires. Qed.
#[local] Hint Resolve metadata_ok presented_key_ok : wires.

(** What a [BTreeMap] of attributes or labels guarantees. *)
Definition component_sound (c : Component) : Prop :=
  NoDup (map fst (c_attributes c)) /\ Forall (fun kv => distinct (snd kv)) (c_attributes c).
Definition server_sound (s : ServerResource) : Prop :=
  Forall component_sound (s_components s) /\ NoDup (map fst (s_labels s)).

Lemma component_ok c : component_sound c -> distinct (component_wire c).
Proof.
  intros [Hn Hf]. apply distinct_obj_iff. cbn [app map field fst]. split.
  - apply list.NoDup_cons. split.
    + intros (kv & E & Hin)%list_elem_of_fmap. apply list_elem_of_In, filter_In in Hin as [_ Hk].
      rewrite <- E in Hk. by rewrite str_eqb_refl in Hk.
    + eapply sublist_NoDup; [exact Hn|]. clear. induction (c_attributes c) as [|kv l IH]; cbn; [done|].
      destruct (negb _); cbn; [by apply sublist_skip|by apply sublist_cons].
  - constructor; [exact I|]. apply List.Forall_forall. intros kv [Hin _]%filter_In.
    rewrite List.Forall_forall in Hf. by apply Hf.
Qed.

Lemma labels_ok (l : list (bytes * bytes)) :
  NoDup (map fst l) -> fields_among [lit "labels"] (labels_field l).
Proof.
  intros Hl. unfold labels_field. destruct l as [|kv l]; [apply among_nil|]. apply among_field, distinct_obj_iff.
  rewrite map_map. split; [done|]. apply Forall_map, Forall_true. done.
Qed.

Lemma server_ok s : server_sound s -> distinct (server_wire s).
Proof.
  intros [Hc Hl]. pose proof (labels_ok _ Hl) as Hlabels.
  assert (distinct (WArr (map component_wire (s_components s)))).
  { apply distinct_arr, Forall_map. eapply Forall_impl; [apply component_ok|exact Hc]. }
  wires.
Qed.

Section documents_ok.
Context {U : Uuid}.
Variable rfc3339 : Z -> bytes.

Lemma sample_ok t : distinct (sample_wire rfc3339 t).
Proof. wires. all: wires. Qed.
#[local] Hint Resolve sample_ok : wires.

Lemma scope_among s : fields_among [lit "scope"; lit "targets"; lit "hypervisor"] (scope_fields s).
Proof.
  destruct s as [ts|h]; split; cbn [scope_fields field app map fst].
  - by repeat constructor.
  - constructor; [exact I|constructor; [|constructor]]. apply distinct_map. auto with wires.
  - by repeat constructor.
  - constructor; [exact I|constructor; [|constructor]]. apply hypervisor_status_ok.
Qed.

Lemma report_ok r : distinct (report_wire rfc3339 r).
Proof.
  pose proof (scope_among (scope r)).
  assert (fields_among [lit "section_completeness"]
    (if sections_empty (section_completeness r) then []
     else field "section_completeness" (sections_wire (section_completeness r)))).
  { destruct (sections_empty _); [apply among_nil|apply among_field; auto with wires]. }
  wires.
Qed.

(** Every document the agent sends is an object whose keys are distinct, at
    every depth: the flattened scope of a report never collides with its other
    fields, and a component's attribute called [kind] never overrides its kind.
    (Attributes and labels come from ordered maps, which have distinct keys.) *)
Theorem documents_have_distinct_keys (o : Observation) (r : ScopedReport) (b : TelemetryBatch) (c : CheckIn) :
  server_sound (resource o) ->
  distinct (observation_wire rfc3339 o) /\ distinct (report_wire rfc3339 r) /\
  distinct (batch_wire rfc3339 b) /\ distinct (checkin_wire c).
Proof.
  intros Ho. split_and!.
  - pose proof (server_ok _ Ho). assert (distinct (WArr [server_wire (resource o)])) by (apply distinct_arr; auto).
    wires. wires.
  - apply report_ok.
  - wires. wires.
  - wires.
Qed.
End documents_ok.

Section sample_documents.
#[local] Existing Instance tiny_uuid.
Abbreviation id0 := (U0 : @uuid tiny_uuid).

Definition sample_server : ServerResource :=
  mkServer (mkIdentifiers (lit "h") None None None None []) None None
    [mkComponent (lit "cpu") [(lit "kind", WInt 1); (lit "model", WStr (lit "m"))]] [(lit "rack", lit "r1")].

Lemma documents_have_distinct_keys_witness :
  distinct (observation_wire (fun _ => []) (observation_new id0 0 sample_server)).
Proof.
  apply (documents_have_distinct_keys (fun _ => []) (observation_new id0 0 sample_server)
    (report_new id0 0 (mkCollector [] VmProvider) (Targets []) true []) (batch_host id0 []) (checkin_new [] [] None)).
  split; [|apply (bool_decide_unpack _); vm_compute; exact I].
  constructor; [|constructor]. split; [apply (bool_decide_unpack _); vm_compute; exact I|].
  repeat constructor.
Defined.
End sample_documents.
