(* ===== verification/LinuxHost.v ===== *)
(** * collectors/linux.rs, system_facts.rs: the inventory of a Linux host

    A host's files are those below the collector's root ([Host]), the same for the whole
    of one collection.  The sysinfo and getifs crates report what they report ([Sysinfo],
    the dumps of [NetworkFacts]); programs run as [Command] runs them.  The length of a
    document's JSON text is serde_json's ([WireText]). *)

From Stdlib Require Import String.
From S2P Require Import Prelude Text Ip BTree SnmpConfig Smbios SmbiosSnapshot MountTable Payload NetworkFacts Command.

#[local] Set Warnings "-notation-overridden".

Definition MAX_DISK_COMPONENTS : Z := 128.
Definition MAX_FILESYSTEM_COMPONENTS : Z := 512.
Definition MAX_POWER_SUPPLY_COMPONENTS : Z := 32.
Definition MAX_POWER_SUPPLY_COMPONENT_BYTES : Z := 64000.

(** ** Portable facts *)

Record OsFacts := mkOsFacts { os_name : option bytes; os_version : option bytes; os_kernel : option bytes; os_architecture : option bytes }.
Record CpuFacts := mkCpuFacts { logical_count : option Z; physical_count : option Z; brand : option bytes }.
Inductive DiskMedium := Hdd | Ssd | UnknownMedium.
Record DiskFacts := mkDiskFacts { df_name : bytes; df_medium : DiskMedium; df_total_bytes : option Z; df_mount_point : option bytes }.
Record SystemFacts := mkSystemFacts {
  sf_os : OsFacts; sf_hostname : option bytes; sf_cpu : CpuFacts; sf_total_memory_bytes : option Z; sf_disks : option (list DiskFacts) }.

(** What the sysinfo crate reports. *)
Inductive DiskKind := HDD | SSD | OtherDisk.
Record SysinfoDisk := mkSysinfoDisk { sd_name : bytes; sd_kind : DiskKind; sd_total_space : Z; sd_mount_point : bytes }.
Record Sysinfo := mkSysinfo {
  si_name : option bytes; si_os_version : option bytes; si_kernel_version : option bytes; si_cpu_arch : bytes; si_host_name : option bytes;
  si_cpus : list bytes; si_physical_core_count : option Z; si_total_memory : Z; si_disks : list SysinfoDisk }.

Definition filled (s : bytes) : option bytes := match s with [] => None | _ => Some s end.
Definition positive (n : Z) : option Z := if 0 <? n then Some n else None.

Definition disk_facts (d : SysinfoDisk) : DiskFacts :=
  mkDiskFacts (from_utf8_lossy (sd_name d)) (match sd_kind d with HDD => Hdd | SSD => Ssd | OtherDisk => UnknownMedium end)
    (positive (sd_total_space d)) (Some (from_utf8_lossy (sd_mount_point d))).

Definition sysinfo_facts (s : Sysinfo) : SystemFacts :=
  let disks := map disk_facts (si_disks s) in
  mkSystemFacts (mkOsFacts (si_name s) (si_os_version s) (si_kernel_version s) (filled (si_cpu_arch s))) (si_host_name s)
    (mkCpuFacts (match si_cpus s with [] => None | cpus => Some (zlength cpus) end) (si_physical_core_count s)
                (match si_cpus s with [] => None | first :: _ => filled first end))
    (positive (si_total_memory s))
    (match disks with [] => None | _ => Some disks end).

(** ** The host's files *)

Record Host := mkHost {
  file_at : bytes -> option bytes;            (* [None] where it cannot be read *)
  exists_at : bytes -> bool;
  is_socket_at : bytes -> bool;
  snapshots : gmap bytes entry }.             (* below [SNAPSHOT_DIRECTORY] *)

Definition BOOT_ID_PATH : bytes := lit "/proc/sys/kernel/random/boot_id".
Definition relative (path : bytes) : bytes := drop_while (fun b => b =? 47) path.
(** [fs::read_to_string]. *)
Definition read_to_string (h : Host) (path : bytes) : option bytes := let+ raw := file_at h path in from_utf8 raw.
Definition read (h : Host) (path : bytes) : option bytes := let+ v := read_to_string h (relative path) in normalize_value v.
Definition read_at (h : Host) (path : string) : option bytes := read h (lit path).

(** ** Components *)

Definition is_wnull (w : wire) : bool := match w with WNull => true | _ => false end.
Definition component (kind : string) (values : list (string * wire)) : Component :=
  mkComponent (lit kind) (bt_of_list (map (fun kv : string * wire => (lit (fst kv), snd kv)) (List.filter (fun kv => negb (is_wnull (snd kv))) values))).

Definition opt_str : option bytes -> wire := nullable WStr.
Definition opt_int : option Z -> wire := nullable WInt.
Definition opt_bool : option bool -> wire := nullable WBool.

Definition collection_status (collector : string) (discovered_count emitted_count : Z) : Component :=
  component "collection_status"
    [("collector", WStr (lit collector)); ("discovered_count", WInt discovered_count); ("emitted_count", WInt emitted_count); ("truncated", WBool true)]%string.

Definition bounded_components (collector : string) (limit discovered_count : Z) (components : list Component) : list Component :=
  take (Z.to_nat limit) components ++ (if limit <? discovered_count then [collection_status collector discovered_count limit] else []).

Definition first_of_two {A} (a b : option A) : option A := match a with Some _ => a | None => b end.
Definition and_normalize (o : option bytes) : option bytes := let+ v := o in normalize_value v.

Definition disk_component (d : DiskFacts) : Component :=
  component "disk"
    [("name", opt_str (first_of_two (normalize_value (df_name d)) (and_normalize (df_mount_point d))));
     ("medium", WStr (match df_medium d with Hdd => lit "hdd" | Ssd => lit "ssd" | UnknownMedium => lit "unknown" end));
     ("size_bytes", opt_int (df_total_bytes d));
     ("mountpoint", opt_str (df_mount_point d))]%string.

Definition collect_disks (disks : option (list DiskFacts)) : list Component :=
  match disks with
  | None => []
  | Some disks => bounded_components "disk" MAX_DISK_COMPONENTS (zlength disks) (map disk_component disks)
  end.

Definition filesystem_component (f : FilesystemFacts) : Component :=
  component "filesystem" [("device", opt_str (fact_device f)); ("mountpoint", WStr (fact_mountpoint f)); ("filesystem_type", WStr (fact_type f))]%string.

Definition collect_filesystems (source : result (list FilesystemFacts) bytes) : list Component :=
  match source with
  | Err _ => []
  | Ok fs => bounded_components "filesystem" MAX_FILESYSTEM_COMPONENTS (zlength fs) (map filesystem_component fs)
  end.

(** ** Power supplies *)

Definition power_supply_component (p : PowerSupply) : Component :=
  component "power_supply"
    [("source", WStr (lit "smbios")); ("name", opt_str (supply_name p)); ("location", opt_str (location p)); ("group", opt_int (group p));
     ("manufacturer", opt_str (manufacturer p)); ("model", opt_str (model p)); ("serial_number", opt_str (serial_number p));
     ("asset_tag", opt_str (asset_tag p)); ("revision", opt_str (revision p)); ("max_power_watts", opt_int (max_power_watts p));
     ("hot_replaceable", opt_bool (hot_replaceable p)); ("present", opt_bool (present p)); ("unplugged", opt_bool (unplugged p));
     ("status", opt_str (Smbios.status p))]%string.

(** The length of compact JSON, for documents whose text needs no escaping. *)
Definition plain_byte (b : Z) : bool := (32 <=? b) && (b <? 127) && negb (b =? 34) && negb (b =? 92).
Definition plain_str (s : bytes) : option Z := if forallb plain_byte s then Some (zlength s + 2) else None.
Definition spread (l : list (option Z)) : option Z :=
  fold_right (fun o acc => let+ n := o in let+ m := acc in Some (n + m)) (Some (2 + Z.max 0 (zlength l - 1))) l.
Fixpoint plain_len (w : wire) : option Z :=
  match w with
  | WNull => Some 4
  | WBool b => Some (if b then 4 else 5)
  | WInt z => if (0 <=? z) && (z <? 2 ^ 64) then Some (zlength (show_u64 z)) else None
  | WFloat _ => None
  | WStr s => plain_str s
  | WArr l => spread (map plain_len l)
  | WObj fs => spread (map (fun kv => let+ n := plain_str (fst kv) in let+ m := plain_len (snd kv) in Some (n + 1 + m)) fs)
  end.

Class WireText := {
  encoded_len : wire -> Z;                    (* [serde_json::to_vec(..).len()] *)
  encoded_plain : forall w n, plain_len w = Some n -> encoded_len w = n }.

Section power_supplies.
Context {E : WireText}.

Definition encoded_components_len (l : list Component) : Z := encoded_len (WArr (map component_wire l)).

(** The first loop. *)
Fixpoint emit_supplies (supplies : list PowerSupply) (emitted : list Component) : list Component :=
  match supplies with
  | [] => emitted
  | s :: rest =>
      let more := emitted ++ [power_supply_component s] in
      if MAX_POWER_SUPPLY_COMPONENT_BYTES <? encoded_components_len more then emitted else emit_supplies rest more
  end.

(** The second: the status goes in, at the cost of the last supplies. *)
Fixpoint reserve_status (fuel : nat) (discovered_count : Z) (emitted : list Component) : option (list Component) :=
  match fuel with
  | O => None
  | S fuel' =>
      let more := emitted ++ [collection_status "smbios_power_supplies" discovered_count (zlength emitted)] in
      if encoded_components_len more <=? MAX_POWER_SUPPLY_COMPONENT_BYTES then Some more
      else reserve_status fuel' discovered_count (removelast emitted)
  end.

(** [None] would be the second loop not ending. *)
Definition collect_power_supplies (supplies : list PowerSupply) : option (list Component) :=
  let emitted := emit_supplies (take (Z.to_nat MAX_POWER_SUPPLY_COMPONENTS) supplies) [] in
  if zlength emitted <? zlength supplies then reserve_status (S (length emitted)) (zlength supplies) emitted
  else Some emitted.
End power_supplies.

(** ** Interfaces *)

Definition project_address (a : NetworkAddress) : Address :=
  mkAddress (show_ip (na_ip a) ++ [47] ++ show_u64 (na_prefix a)) (Some (match na_family a with FamilyIpv4 => lit "ipv4" | FamilyIpv6 => lit "ipv6" end)) None.
Definition project_interface (f : NetworkInterface) : Interface :=
  mkInterface (ni_name f) (if ni_loopback f then lit "loopback" else lit "unknown") (if ni_up f then lit "up" else lit "down") (ni_mac f) (ni_mtu f) None
    (Some (map project_address (ni_addresses f))) None None None.
Definition project_interfaces (facts : list NetworkInterface) : list Interface := map project_interface facts.

(** The separator is a colon. *)
Definition parse_ethernet_mac (value : bytes) : option bytes :=
  let octets := split_on 58 (trim value) in
  if negb (Nat.eqb (length octets) 6) || existsb (fun o => negb (Nat.eqb (length o) 2) || negb (forallb is_ascii_hexdigit o)) octets then None
  else
    let normalized := to_ascii_lowercase (join 58 octets) in
    if str_eqb normalized (lit "00:00:00:00:00:00") then None else Some normalized.

Definition net_base (name : bytes) : bytes := lit "sys/class/net/" ++ name.
(** The hardware address as the kernel's file has it. *)
Definition sysfs_mac (h : Host) (name : bytes) : option bytes := let+ v := read h (net_base name ++ lit "/address") in parse_ethernet_mac v.

Definition enrich_interface (h : Host) (i : Interface) : Interface :=
  let base := net_base (if_name i) in
  let mac := match if_mac_address i with
             | Some mac => if bool_decide (sysfs_mac h (if_name i) = Some mac) then Some mac else None
             | None => None
             end in
  let speed := let+ v := read h (base ++ lit "/speed") in let+ n := parse_uint U32_MAX v in positive n in
  let kind := if str_eqb (if_kind i) (lit "loopback") then if_kind i
              else if exists_at h (base ++ lit "/device") then lit "ethernet" else lit "virtual" in
  mkInterface (if_name i) kind (if_status i) mac (if_mtu i) speed (if_addresses i) (if_vlan_mode i) (if_vlans i) (if_neighbors i).
Definition enrich_interfaces (h : Host) (l : list Interface) : list Interface := map (enrich_interface h) l.

(** The addresses that identify the host. *)
Definition identifying_macs (interfaces : option (list Interface)) : list bytes :=
  omap if_mac_address
    (List.filter (fun i => str_eqb (if_kind i) (lit "ethernet"))
      (List.filter (fun i => negb (str_eqb (if_status i) (lit "not_present"))) (match interfaces with Some l => l | None => [] end))).

(** ** Firmware *)

Definition unset_uuid (uuid : bytes) : bool :=
  let digits := List.filter (fun b => negb (b =? 45)) uuid in
  forallb (fun b => b =? 48) digits || forallb (fun b => to_ascii_lowercase1 b =? 102) digits.

Section smbios.
Context {M : ManifestCodec}.
Variable hyphenated : bytes -> bytes.         (* the uuid crate's text of sixteen bytes *)

Definition smbios_tables (h : Host) : Tables :=
  match load (snapshots h) (file_at h (relative BOOT_ID_PATH)) with
  | Ok s => Smbios.parse hyphenated (entry_point s) (table s)
  | Err _ => mkTables None []
  end.
End smbios.

(** ** Virtualization *)

Inductive VirtDetection := VirtNone | Detected (value : bytes) | VirtUnknown.
#[export] Instance VirtDetection_eq_dec : EqDecision VirtDetection.
Proof. solve_decision. Defined.

(** The first provider one of whose markers the firmware's names contain. *)
Definition PROVIDERS : list (list bytes * bytes) :=
  [([lit "qemu"; lit "libvirt"; lit "kvm"], lit "kvm"); ([lit "vmware"], lit "vmware"); ([lit "virtualbox"; lit "innotek"], lit "virtualbox");
   ([lit "hyper-v"], lit "hyper-v"); ([lit "xen"], lit "xen"); ([lit "amazon ec2"; lit "amazon.com"], lit "aws");
   ([lit "google compute engine"; lit "google"], lit "gcp"); ([lit "microsoft corporation virtual machine"], lit "azure");
   ([lit "digitalocean"], lit "digitalocean"); ([lit "openstack"], lit "openstack"); ([lit "parallels"], lit "parallels"); ([lit "bhyve"], lit "bhyve")].

Definition text_of (o : option bytes) : bytes := match o with Some s => s | None => [] end.
Definition dmi_text (h : Host) : bytes :=
  to_ascii_lowercase (text_of (read_at h "sys/class/dmi/id/sys_vendor") ++ [32] ++ text_of (read_at h "sys/class/dmi/id/product_name")).
Definition fallback_provider (h : Host) : option bytes :=
  option_map snd (find_by (fun e => existsb (fun v => contains_sub v (dmi_text h)) (fst e)) PROVIDERS).

Definition container_fallback (h : Host) : bool :=
  exists_at h (lit ".dockerenv") || exists_at h (lit "run/.containerenv")
  || match read_at h "proc/1/cgroup" with
     | Some cgroup => existsb (fun m => contains_sub m cgroup) [lit "/docker/"; lit "/containerd/"; lit "/kubepods/"; lit "/libpod/"]
     | None => false
     end.
Definition container_host (h : Host) : bool :=
  existsb (is_socket_at h) [lit "run/docker.sock"; lit "var/run/docker.sock"; lit "run/containerd/containerd.sock"; lit "run/podman/podman.sock"].

Definition detected (d : VirtDetection) : option bytes := match d with Detected v => Some v | _ => None end.
Definition virt_environment (h : Host) (container vm : VirtDetection) : bytes :=
  if bool_decide (detected container <> None) || container_fallback h then lit "container_guest"
  else if bool_decide (first_of_two (detected vm) (fallback_provider h) <> None) then lit "vm_guest"
  else if bool_decide (container = VirtNone) && bool_decide (vm = VirtNone) then lit "bare_metal"
  else lit "unknown".

Definition virtualization_record (h : Host) (container vm : VirtDetection) : Component :=
  component "virtualization"
    [("environment", WStr (virt_environment h container vm)); ("provider", opt_str (first_of_two (detected vm) (fallback_provider h)));
     ("container_type", opt_str (detected container)); ("container_host", opt_bool (if container_host h then Some true else None))]%string.

(** ** The collection *)

Section collect.
Context {P : Programs} {E : WireText} {M : ManifestCodec}.
Variable hyphenated : bytes -> bytes.

(** A collection fails with its [CollectError]; [Err None] would be a loop that did not end. *)
Abbreviation Collecting := (ST (programs * list act) (option bytes)).

(** [command::run(..).ok()]. *)
Definition run_ok (argv : list bytes) : Collecting (option Output) := fun s =>
  match run argv s with
  | (s', Ok o) => (s', Ok (Some o))
  | (s', Err OutOfFuel) => (s', Err None)
  | (s', Err (Io _)) => (s', Ok None)
  end.

Definition detection (o : Output) : VirtDetection :=
  match from_utf8 (stdout o) with
  | None => VirtUnknown
  | Some value =>
      let value := trim value in
      if str_eqb value (lit "none") && (bool_decide (Command.status o = Some 0) || bool_decide (Command.status o = Some 1)) then VirtNone
      else if success o && negb (bool_decide (value = [])) then Detected value
      else VirtUnknown
  end.
(** [SystemdVirtDetector::detect]. *)
Definition detect (category : string) : Collecting VirtDetection :=
  let* o := run_ok [lit "systemd-detect-virt"; lit category] in
  st_ret (match o with Some o => detection o | None => VirtUnknown end).
Definition container : Collecting VirtDetection := detect "--container".
Definition vm : Collecting VirtDetection := detect "--vm".

Definition virtualization_component (h : Host) (container vm : Collecting VirtDetection) : Collecting Component :=
  let* c := container in
  let* v := vm in
  st_ret (virtualization_record h c v).

(** [hostname -f], if it names a domain. *)
Definition fqdn_of (o : Output) : option bytes :=
  if success o then
    let+ text := from_utf8 (stdout o) in
    let+ s := normalize_value text in
    if existsb (fun b => b =? 46) s then Some s else None
  else None.
Definition fqdn : Collecting (option bytes) :=
  let* o := run_ok [lit "hostname"; lit "-f"] in
  st_ret (let+ o := o in fqdn_of o).

Definition NO_HOSTNAME : bytes := lit "Linux host has no usable /etc/hostname; observation cannot be matched".
Definition hostname_of (h : Host) (facts : SystemFacts) : option bytes :=
  first_of_two (read_at h "etc/hostname") (and_normalize (sf_hostname facts)).

Definition opt_unless (p : bytes -> bool) (o : option bytes) : option bytes := let+ v := o in if p v then None else Some v.

Definition os_component (o : OsFacts) : Component :=
  component "os" [("name", opt_str (os_name o)); ("version", opt_str (os_version o)); ("kernel", opt_str (os_kernel o)); ("architecture", opt_str (os_architecture o))]%string.
Definition cpu_component (c : CpuFacts) : Component :=
  component "cpu" [("logical_count", opt_int (logical_count c)); ("physical_count", opt_int (physical_count c)); ("model", opt_str (brand c))]%string.
Definition memory_components (total : option Z) : list Component :=
  match total with Some bytes => [component "memory" [("total_bytes", WInt bytes)]%string] | None => [] end.

(** [network_source.collect().ok()], with the host's files beside it. *)
Definition host_interfaces (h : Host) (network : Run programs (result (list NetworkInterface) IoError)) : Collecting (option (list Interface)) :=
  let* r := outside network in
  st_ret (match r with Ok facts => Some (enrich_interfaces h (project_interfaces facts)) | Err _ => None end).

Definition resource_of (h : Host) (hostname : bytes) (fqdn : option bytes) (interfaces : option (list Interface)) (system : SystemInformation)
  (components : list Component) : ServerResource :=
  mkServer
    (mkIdentifiers hostname fqdn (read_at h "etc/machine-id")
       (first_of_two (opt_unless unset_uuid (read_at h "sys/class/dmi/id/product_uuid")) (sys_uuid system))
       (first_of_two (read_at h "sys/class/dmi/id/product_serial") (sys_serial_number system))
       (identifying_macs interfaces))
    (Some (mkHostAttributes (Some hostname) fqdn (read_at h "sys/class/dmi/id/sys_vendor") (read_at h "sys/class/dmi/id/product_name")
             (read_at h "sys/class/dmi/id/chassis_asset_tag")))
    interfaces components [].

Definition collect_from_with_sources (h : Host) (network : Run programs (result (list NetworkInterface) IoError)) (container vm : Collecting VirtDetection)
  (facts : SystemFacts) (filesystems : result (list FilesystemFacts) bytes) : Collecting ServerResource :=
  match hostname_of h facts with
  | None => st_err (Some NO_HOSTNAME)
  | Some hostname =>
      let* fqdn := fqdn in
      let* interfaces := host_interfaces h network in
      let* virtualization := virtualization_component h container vm in
      let smbios := smbios_tables hyphenated h in
      let* supplies := st_of_result (ok_or (collect_power_supplies (power_supplies smbios)) None) in
      let components :=
        [os_component (sf_os facts); cpu_component (sf_cpu facts)] ++ memory_components (sf_total_memory_bytes facts)
        ++ collect_disks (sf_disks facts) ++ collect_filesystems filesystems ++ [virtualization] ++ supplies in
      st_ret (resource_of h hostname fqdn interfaces (match system smbios with Some i => i | None => mkSystem None None end) components)
  end.

(** [collect]: the running host; [mounts] is what reading pid 1's mount table gives,
    and [parse_mountinfo] the procfs crate's reader of it. *)
Definition collect (parse_mountinfo : bytes -> result (list MountInfo) bytes) (h : Host) (interfaces : Run programs (result (list GetifsInterface) IoError)) (addresses : Run programs (result (list IfNet) IoError))
  (sysinfo : Sysinfo) (mounts : result bytes bytes) : Collecting ServerResource :=
  collect_from_with_sources h (getifs_collect interfaces addresses) container vm (sysinfo_facts sysinfo) (MountTable.collect parse_mountinfo mounts).
End collect.

(** ** The power supplies fit their budget *)

Section supplies.
Context {E : WireText}.

#[local] Ltac plain := repeat match goal with |- context [plain_str ?x] => let v := eval vm_compute in (plain_str x) in change (plain_str x) with v end.

Lemma status_fits d e : 0 <= d < 2 ^ 64 -> 0 <= e < 2 ^ 64 -> encoded_components_len [collection_status "smbios_power_supplies" d e] <= MAX_POWER_SUPPLY_COMPONENT_BYTES.
Proof.
  intros Hd He. unfold encoded_components_len. cbn [map].
  match goal with |- context [component_wire ?c] => let v := eval vm_compute in (component_wire c) in change (component_wire c) with v end.
  erewrite encoded_plain.
  2:{ cbn [plain_len map spread fold_right fst snd]. plain. rewrite !(proj2 (Z.leb_le 0 _)), !(proj2 (Z.ltb_lt _ (2 ^ 64))) by lia. cbn [andb]. unfold spread. cbn [fold_right zlength length]. reflexivity. }
  pose proof (length_show d). pose proof (length_show e). unfold MAX_POWER_SUPPLY_COMPONENT_BYTES, zlength. cbn [length]. lia.
Qed.

Lemma nothing_fits : encoded_components_len [] <= MAX_POWER_SUPPLY_COMPONENT_BYTES.
Proof. unfold encoded_components_len. rewrite (encoded_plain _ 2) by done. done. Qed.

(** What the first loop has emitted: a prefix of the supplies, within the budget. *)
Lemma emit_supplies_spec supplies : forall emitted, encoded_components_len emitted <= MAX_POWER_SUPPLY_COMPONENT_BYTES ->
  exists k, (k <= length supplies)%nat /\ emit_supplies supplies emitted = emitted ++ map power_supply_component (take k supplies) /\
    encoded_components_len (emit_supplies supplies emitted) <= MAX_POWER_SUPPLY_COMPONENT_BYTES /\
    ((k < length supplies)%nat -> MAX_POWER_SUPPLY_COMPONENT_BYTES < encoded_components_len (emitted ++ map power_supply_component (take (S k) supplies))).
Proof.
  induction supplies as [|s rest IH]; intros emitted Hfit; cbn [emit_supplies].
  - exists 0%nat. cbn. rewrite app_nil_r. repeat split; [lia|done|lia].
  - destruct (_ <? _) eqn:Hlt.
    + exists 0%nat. cbn. rewrite app_nil_r. repeat split; [lia|done|]. by intros _; apply Z.ltb_lt.
    + apply Z.ltb_ge in Hlt. destruct (IH _ Hlt) as (k & Hk & -> & Hb & Hm). exists (S k). cbn [length take map]. rewrite <- !app_assoc in *.
      repeat split; [lia|done|]. intros Hk'. exact (Hm ltac:(lia)).
Qed.

Lemma reserve_status_S fuel d emitted : reserve_status (S fuel) d emitted =
  let more := emitted ++ [collection_status "smbios_power_supplies" d (zlength emitted)] in
  if encoded_components_len more <=? MAX_POWER_SUPPLY_COMPONENT_BYTES then Some more else reserve_status fuel d (removelast emitted).
Proof. done. Qed.

Lemma reserve_status_spec d : 0 <= d < 2 ^ 64 -> forall (shown : list PowerSupply), zlength shown <= d ->
  exists k out, (k <= length shown)%nat /\ reserve_status (S (length shown)) d (map power_supply_component shown) = Some out /\
    out = map power_supply_component (take k shown) ++ [collection_status "smbios_power_supplies" d (Z.of_nat k)] /\
    encoded_components_len out <= MAX_POWER_SUPPLY_COMPONENT_BYTES.
Proof.
  intros Hd shown. induction shown as [|s shown IH] using rev_ind; intros Hl.
  - exists 0%nat. eexists. split; [done|]. cbn [length reserve_status map]. change ([] ++ ?l) with l.
    rewrite (proj2 (Z.leb_le _ _)) by (apply status_fits; [done|by vm_compute]). split; [done|]. split; [done|]. apply status_fits; [done|by vm_compute].
  - rewrite length_app, Nat.add_1_r, reserve_status_S. cbn zeta. unfold zlength in *. rewrite length_map, length_app in *. cbn [length] in *. destruct (_ <=? _) eqn:Hle.
    + exists (length (shown ++ [s])). eexists. rewrite length_app. cbn [length]. split; [lia|]. split; [done|]. split; [|by apply Z.leb_le].
      rewrite firstn_all2 by (rewrite length_app; cbn; lia). done.
    + rewrite map_app. cbn [map]. rewrite removelast_last. destruct (IH ltac:(lia)) as (k & out & Hk & -> & -> & Hb).
      exists k. eexists. split; [lia|]. split; [done|]. rewrite take_app_le by lia. done.
Qed.

Lemma power_supplies_bounded (supplies : list PowerSupply) : zlength supplies < 2 ^ 64 ->
  exists k out, collect_power_supplies supplies = Some out /\ Z.of_nat k <= MAX_POWER_SUPPLY_COMPONENTS /\
    encoded_components_len out <= MAX_POWER_SUPPLY_COMPONENT_BYTES /\
    (if zlength supplies <=? Z.of_nat k then out = map power_supply_component supplies
     else out = map power_supply_component (take k supplies) ++ [collection_status "smbios_power_supplies" (zlength supplies) (Z.of_nat k)]).
Proof.
  intros Hl. unfold collect_power_supplies. set (n := Z.to_nat MAX_POWER_SUPPLY_COMPONENTS).
  destruct (emit_supplies_spec (take n supplies) [] nothing_fits) as (k & Hk & Ee & Hb & _). rewrite Ee in *. cbn [app] in *. rewrite length_take in Hk.
  rewrite take_take, Nat.min_l in * by lia. unfold zlength in *. rewrite !length_map, length_take in *. assert (Z.of_nat n = 32) as Hn by done.
  assert (Z.of_nat k <= MAX_POWER_SUPPLY_COMPONENTS) by (change MAX_POWER_SUPPLY_COMPONENTS with 32; lia). destruct (_ <? _) eqn:Hlt.
  - apply Z.ltb_lt in Hlt. replace (Nat.min k (length supplies)) with (length (take k supplies)) by (rewrite length_take; lia).
    destruct (reserve_status_spec (Z.of_nat (length supplies)) ltac:(lia) (take k supplies)) as (j & out & Hj & -> & -> & Hb'); [unfold zlength; rewrite length_take; lia|].
    rewrite length_take in Hj. exists j. eexists. split; [done|]. split; [lia|]. split; [done|]. rewrite (proj2 (Z.leb_gt _ _)) by lia.
    rewrite take_take, Nat.min_l by lia. done.
  - apply Z.ltb_ge in Hlt. exists k. eexists. split; [done|]. split; [done|]. split; [done|]. rewrite (proj2 (Z.leb_le _ _)) by lia. rewrite firstn_all2 by lia. done.
Qed.

Lemma supplies_end supplies : zlength supplies < 2 ^ 64 -> exists out, collect_power_supplies supplies = Some out.
Proof. intros H. destruct (power_supplies_bounded supplies H) as (k & out & -> & _). by eexists. Qed.

(** Collecting the power supplies ends; what it reports stays within its count and its
    encoded size for every table, and it is all of the supplies, or a prefix of them
    followed by a status with the true counts. *)
Theorem power_supplies_fit (supplies : list PowerSupply) : zlength supplies < 2 ^ 64 ->
  exists k out, collect_power_supplies supplies = Some out /\ Z.of_nat k <= MAX_POWER_SUPPLY_COMPONENTS /\
    encoded_components_len out <= MAX_POWER_SUPPLY_COMPONENT_BYTES /\
    (if zlength supplies <=? Z.of_nat k then out = map power_supply_component supplies
     else out = map power_supply_component (take k supplies) ++ [collection_status "smbios_power_supplies" (zlength supplies) (Z.of_nat k)]).
Proof. apply power_supplies_bounded. Qed.
End supplies.

(** ** What identifies the host is confirmed *)

Lemma normalize_value_filled v w : normalize_value v = Some w -> w <> [].
Proof. unfold normalize_value. destruct (_ || _) eqn:Hp; [done|]. intros [= <-]. apply orb_false_iff in Hp as [Hp _]. by destruct (trim v). Qed.

Definition is_lower_hex (b : Z) : bool := is_ascii_digit b || ((97 <=? b) && (b <=? 102)).
(** Six octets of two lowercase hexadecimal digits, not all zero. *)
Definition mac_text (m : bytes) : Prop :=
  length (split_on 58 m) = 6%nat /\ Forall (fun o => length o = 2%nat /\ forallb is_lower_hex o = true) (split_on 58 m) /\ m <> lit "00:00:00:00:00:00".

Lemma split_on_map (f : Z -> Z) c s : (forall b, f b = c <-> b = c) -> split_on c (map f s) = map (map f) (split_on c s).
Proof.
  intros Hf. induction s as [|b s IH]; cbn [map split_on]; [done|]. destruct (Z.eqb_spec (f b) c) as [E|E], (Z.eqb_spec b c) as [E'|E'].
  - by rewrite IH.
  - by apply (proj1 (Hf b)) in E.
  - by apply (proj2 (Hf b)) in E'.
  - rewrite IH. by destruct (split_on c s).
Qed.

Lemma existsb_none {A} (p : A -> bool) l : existsb p l = false -> Forall (fun x => p x = false) l.
Proof. induction l as [|x l IH]; cbn [existsb]; [constructor|]. intros [Hx Hl]%orb_false_iff. constructor; auto. Qed.

Lemma lowercase_hex b : is_ascii_hexdigit b = true -> is_lower_hex (to_ascii_lowercase1 b) = true.
Proof. unfold is_ascii_hexdigit, is_lower_hex, to_ascii_lowercase1, is_ascii_uppercase, is_ascii_digit. destruct ((65 <=? b) && (b <=? 90)) eqn:E; lia. Qed.

Lemma parse_ethernet_mac_text v m : parse_ethernet_mac v = Some m -> mac_text m.
Proof.
  unfold parse_ethernet_mac. rewrite join_split_on. destruct (_ || _) eqn:Hp; [done|]. destruct (str_eqb _ _) eqn:Hz; [done|]. intros [= <-].
  apply orb_false_iff in Hp as [Hl Hp]. apply negb_false_iff, Nat.eqb_eq in Hl. unfold mac_text, to_ascii_lowercase.
  rewrite split_on_map by (intros b; unfold to_ascii_lowercase1, is_ascii_uppercase; destruct ((65 <=? b) && (b <=? 90)) eqn:?; lia).
  split; [by rewrite length_map|]. split; [|by apply bool_decide_eq_false in Hz].
  apply list.Forall_forall. intros o (o' & -> & Ho)%list_elem_of_fmap. rewrite length_map.
  apply existsb_none in Hp. rewrite list.Forall_forall in Hp. apply Hp, orb_false_iff in Ho as [H2 Hh].
  apply negb_false_iff in H2, Hh. split; [by apply Nat.eqb_eq|]. rewrite forallb_forall in *. intros b (a & <- & Ha)%in_map_iff. by apply lowercase_hex, Hh.
Qed.

(** *** Unset UUIDs *)

(** A lowercase digit; bytes have no negative halves. *)
Definition hex_digit (d : Z) : Z := if d <? 0 then 63 else if d <? 10 then 48 + d else 87 + d.
Definition hex_byte (b : Z) : bytes := [hex_digit (b / 16); hex_digit (b mod 16)].

Lemma hex_digits_all (p : Z -> bool) bs : forallb p (concat (map hex_byte bs)) = true -> Forall (fun b => p (hex_digit (b / 16)) = true /\ p (hex_digit (b mod 16)) = true) bs.
Proof.
  induction bs as [|b bs IH]; cbn [map concat hex_byte app forallb]; [constructor|]. rewrite !andb_true_iff. intros (H1 & H2 & H3). constructor; auto.
Qed.

Lemma hex_digit_zero d : (hex_digit d =? 48) = true -> d = 0.
Proof. unfold hex_digit. destruct (Z.ltb_spec d 0), (Z.ltb_spec d 10); lia. Qed.
Lemma hex_digit_ones d : (to_ascii_lowercase1 (hex_digit d) =? 102) = true -> d = 15.
Proof. unfold hex_digit, to_ascii_lowercase1, is_ascii_uppercase. destruct (Z.ltb_spec d 0), (Z.ltb_spec d 10), ((65 <=? _) && _) eqn:?; lia. Qed.

Section uuids.
Variable hyphenated : bytes -> bytes.
(** The uuid crate writes two lowercase digits for each byte, and hyphens. *)
Hypothesis hyphenated_digits : forall bs, length bs = 16%nat -> List.filter (fun b => negb (b =? 45)) (hyphenated bs) = concat (map hex_byte bs).

Lemma smbios_uuid_set bs version u : uuid hyphenated bs version = Some u -> unset_uuid u = false.
Proof.
  unfold uuid. destruct (_ || _) eqn:Hs; [done|]. destruct (Nat.eqb_spec (length bs) 16) as [Hl|]; [|done]. cbn [negb]. intros [= <-].
  apply orb_false_iff in Hs as [Hz Hf]. set (ordered := if version_ge _ _ then _ else _).
  assert (ordered ≡ₚ bs) as Hp.
  { subst ordered. destruct (version_ge _ _); [|done].
    rewrite <- !Permutation_rev. change 8%nat with (6 + 2)%nat. rewrite <- drop_drop, take_drop. change 6%nat with (4 + 2)%nat. by rewrite <- drop_drop, !take_drop. }
  unfold unset_uuid. rewrite hyphenated_digits by by rewrite Hp.
  apply orb_false_iff; split; apply not_true_is_false; intros H%hex_digits_all; rewrite Hp in H; [apply not_true_iff_false in Hz; apply Hz|apply not_true_iff_false in Hf; apply Hf];
    apply forallb_forall; intros b Hb%list_elem_of_In; rewrite list.Forall_forall in H; destruct (H b Hb) as [H1 H2]; apply Z.eqb_eq.
  - apply hex_digit_zero in H1, H2. pose proof (Z.div_mod b 16). lia.
  - apply hex_digit_ones in H1, H2. pose proof (Z.div_mod b 16). lia.
Qed.

Lemma smbios_system_uuid entry table i u : system (Smbios.parse hyphenated entry table) = Some i -> sys_uuid i = Some u -> unset_uuid u = false.
Proof.
  unfold Smbios.parse. set (P := fun t => forall i u, system t = Some i -> sys_uuid i = Some u -> unset_uuid u = false).
  assert (forall rs t, P t -> P (fold_left (parse_record hyphenated (parse_version entry)) rs t)) as H.
  { induction rs as [|r rs IH]; intros t Ht; cbn [fold_left]; [done|]. apply IH. unfold parse_record. destruct (_ && _).
    - intros i' u'. cbn [system]. intros [= <-]. cbn [system_information sys_uuid].
      destruct (parse_version entry) as [v|]; [|done]. unfold mbind, option_bind. case_match; [|done]. apply smbios_uuid_set.
    - destruct (kind r =? POWER_SUPPLY); [|done]. by destruct (power_supply r). }
  intros Hs Hu. eapply H; [|exact Hs|exact Hu]. by intros i' u' [=].
Qed.
End uuids.

Section identity.
Context {P : Programs} {E : WireText} {M : ManifestCodec}.
Variable hyphenated : bytes -> bytes.
Hypothesis hyphenated_digits : forall bs, length bs = 16%nat -> List.filter (fun b => negb (b =? 45)) (hyphenated bs) = concat (map hex_byte bs).
Abbreviation Collecting := (ST (programs * list act) (option bytes)).

Lemma identifying_mac h ifs m : m ∈ identifying_macs (Some (enrich_interfaces h ifs)) ->
  mac_text m /\ exists i, i ∈ enrich_interfaces h ifs /\ if_kind i = lit "ethernet" /\ if_mac_address i = Some m /\ sysfs_mac h (if_name i) = Some m.
Proof.
  intros (i & Hi & Hm)%list_elem_of_omap. apply list_elem_of_In, filter_In in Hi as [Hi Hk]. apply filter_In in Hi as [Hi _]. apply bool_decide_eq_true in Hk.
  apply list_elem_of_In in Hi. pose proof Hi as (j & Ej & _)%list_elem_of_fmap.
  assert (sysfs_mac h (if_name i) = Some m) as Hs.
  { rewrite Ej in Hm |- *. cbn [enrich_interface if_mac_address if_name] in *. destruct (if_mac_address j) as [mac|]; [|done]. by case_bool_decide; simplify_eq. }
  split; [|by exists i]. unfold sysfs_mac in Hs. destruct (read h _) as [v|]; [|done]. by eapply parse_ethernet_mac_text.
Qed.

(** A report, from what the collection found. *)
Lemma collected h network container vm facts filesystems s s' r :
  collect_from_with_sources hyphenated h network container vm facts filesystems s = (s', Ok r) ->
  exists name fqdn interfaces virtualization supplies,
    hostname_of h facts = Some name /\
    (interfaces = None \/ exists ifs, interfaces = Some (enrich_interfaces h (project_interfaces ifs))) /\
    (exists c v, virtualization = virtualization_record h c v) /\
    collect_power_supplies (power_supplies (smbios_tables hyphenated h)) = Some supplies /\
    r = resource_of h name fqdn interfaces (match system (smbios_tables hyphenated h) with Some i => i | None => mkSystem None None end)
          ([os_component (sf_os facts); cpu_component (sf_cpu facts)] ++ memory_components (sf_total_memory_bytes facts)
           ++ collect_disks (sf_disks facts) ++ collect_filesystems filesystems ++ [virtualization] ++ supplies).
Proof.
  unfold collect_from_with_sources. destruct (hostname_of h facts) as [name|] eqn:Hn; [|done].
  intros (s1 & fqdn & _ & (s2 & ifs & Hi & (s3 & virt & Hv & (s4 & supplies & Hs & H)%st_bind_inv)%st_bind_inv)%st_bind_inv)%st_bind_inv.
  exists name, fqdn, ifs, virt, supplies. split; [done|]. split; [|split; [|split]].
  - apply st_bind_inv in Hi as (s5 & [facts'|e] & _ & Hi); [right; exists facts'|left]; unfold st_ret in Hi; congruence.
  - apply st_bind_inv in Hv as (s5 & c & _ & (s6 & v & _ & Hv)%st_bind_inv). exists c, v. unfold st_ret in Hv. congruence.
  - unfold st_of_result, ok_or in Hs. destruct (collect_power_supplies _); [|done]. congruence.
  - unfold st_ret in H. congruence.
Qed.

(** C15. The identity a collection reports is one the host confirms: a host name that is not
    blank, from its file or the system; hardware addresses that the kernel's own file gives
    six octets of for an Ethernet interface of the report; and no UUID of firmware that
    never set one, from sysfs or from the SMBIOS snapshot. *)
Theorem host_identity_is_confirmed (h : Host) (network : Run programs (result (list NetworkInterface) IoError)) (container vm : Collecting VirtDetection)
  (facts : SystemFacts) (filesystems : result (list FilesystemFacts) bytes) s s' r :
  collect_from_with_sources hyphenated h network container vm facts filesystems s = (s', Ok r) ->
  (hostname_of h facts = Some (i_hostname (s_identifiers r)) /\ i_hostname (s_identifiers r) <> []) /\
  Forall (fun mac => mac_text mac /\ exists ifs i, s_interfaces r = Some ifs /\ i ∈ ifs /\ if_kind i = lit "ethernet" /\ if_mac_address i = Some mac /\ sysfs_mac h (if_name i) = Some mac)
    (i_mac_address (s_identifiers r)) /\
  (forall u, i_dmi_uuid (s_identifiers r) = Some u -> unset_uuid u = false).
Proof.
  intros (name & fqdn & ifs & virt & supplies & Hn & Hi & _ & _ & ->)%collected. cbn [resource_of s_identifiers i_hostname i_mac_address i_dmi_uuid s_interfaces].
  split; [split; [done|]|split].
  - unfold hostname_of, first_of_two, read_at, read, and_normalize in Hn.
    destruct (let+ v := _ in normalize_value v) as [w|] eqn:Hr in Hn.
    + destruct (read_to_string _ _) as [t|]; [|done]. apply normalize_value_filled in Hr. congruence.
    + destruct (sf_hostname facts) as [t|]; [|done]. by apply normalize_value_filled in Hn.
  - apply list.Forall_forall. intros m Hm. destruct Hi as [->|(l & ->)]; [by apply elem_of_nil in Hm|].
    apply identifying_mac in Hm as (Ht & i & Hi). split; [done|]. by exists (enrich_interfaces h (project_interfaces l)), i.
  - intros u. unfold first_of_two, opt_unless. destruct (read_at h _) as [v|] eqn:Hv; [cbn [mbind option_bind]; destruct (unset_uuid v) eqn:Hu|]; cbn [mbind option_bind].
    2:{ congruence. }
    all: unfold smbios_tables; destruct (load _ _) as [sn|e]; [|done]; cbn [system]; destruct (system _) as [i|] eqn:Hs; [|done]; intros Hsu; by eapply smbios_system_uuid.
Qed.
End identity.

(** ** Only a missing name fails a collection *)

Section degrades.
Context {P : Programs} {T : TimePasses P} {E : WireText} {M : ManifestCodec}.
Variable hyphenated : bytes -> bytes.

Lemma run_ok_ends argv s : exists s' o, run_ok argv s = (s', Ok o).
Proof.
  unfold run_ok, run, run_with_timeout. pose proof (limits_end argv COLLECTOR_COMMAND_TIMEOUT MAX_OUTPUT_BYTES s ltac:(done)) as H.
  destruct (run_with_limits _ _ _ _ _) as [s' [o|[|e]]]; [by eexists _, _|done|by eexists _, _].
Qed.
Lemma detect_ends category s : exists s' d, detect category s = (s', Ok d).
Proof. unfold detect, st_bind. destruct (run_ok_ends [lit "systemd-detect-virt"; lit category] s) as (s' & o & ->). by eexists _, _. Qed.

(** C18. With a host name, a collection ends with a report: programs that hang, fail or are
    missing, an unstable network, an unreadable mount table and firmware tables of any
    size only leave facts out.  Without one it fails, before running anything. *)
Theorem collection_degrades (parse_mountinfo : bytes -> result (list MountInfo) bytes) (h : Host) interfaces addresses (sysinfo : Sysinfo) mounts s :
  zlength (power_supplies (smbios_tables hyphenated h)) < 2 ^ 64 ->
  match hostname_of h (sysinfo_facts sysinfo) with
  | Some name => exists s' r, collect hyphenated parse_mountinfo h interfaces addresses sysinfo mounts s = (s', Ok r) /\ i_hostname (s_identifiers r) = name
  | None => collect hyphenated parse_mountinfo h interfaces addresses sysinfo mounts s = (s, Err (Some NO_HOSTNAME))
  end.
Proof.
  intros Hl. unfold collect, collect_from_with_sources. destruct (hostname_of h (sysinfo_facts sysinfo)) as [name|]; [|done].
  unfold st_bind at 1, fqdn at 1, st_bind at 1. destruct (run_ok_ends [lit "hostname"; lit "-f"] s) as (s1 & o1 & ->). cbn [st_ret].
  unfold st_bind at 1, host_interfaces, st_bind at 1, outside at 1. destruct (getifs_collect interfaces addresses (fst s1)) as [w r2]. cbn [st_ret].
  unfold st_bind at 1, virtualization_component, st_bind at 1. destruct (detect_ends "--container" (w, snd s1)) as (s3 & c & E3). unfold container. rewrite E3.
  unfold st_bind at 1. destruct (detect_ends "--vm" s3) as (s4 & v & E4). unfold vm. rewrite E4. cbn [st_ret].
  destruct (supplies_end (power_supplies (smbios_tables hyphenated h)) Hl) as (out & ->). by eexists _, _.
Qed.
End degrades.

(** ** Where the host runs *)

Lemma fallback_named h : (exists markers p m, (markers, p) ∈ PROVIDERS /\ m ∈ markers /\ contains_sub m (dmi_text h) = true) <-> fallback_provider h <> None.
Proof.
  unfold fallback_provider. split.
  - intros (markers & p & m & Hp & Hm & Hc) H. destruct (find_by _ _) eqn:Hf in H; [done|]. rewrite find_by_None in Hf. rewrite list.Forall_forall in Hf.
    specialize (Hf _ Hp). cbn [fst] in Hf. apply existsb_none in Hf. rewrite list.Forall_forall in Hf. specialize (Hf _ Hm). cbn in Hf. congruence.
  - destruct (find_by _ _) as [[markers p]|] eqn:Hf; [|done]. intros _. apply find_by_Some in Hf as [Hp (m & Hm & Hc)%existsb_exists].
    exists markers, p, m. split; [done|]. split; [by apply list_elem_of_In|done].
Qed.

(** The environment a report names: a container where one is detected or shows, else a
    virtual machine where a provider is detected or the firmware names one, else bare metal
    only where both detections are negative, and unknown otherwise. *)
Theorem environment_is_as_detected (h : Host) (container vm : VirtDetection) :
  let guest := (exists t, container = Detected t) \/ container_fallback h = true in
  let virtual := (exists p, vm = Detected p) \/ (exists markers p m, (markers, p) ∈ PROVIDERS /\ m ∈ markers /\ contains_sub m (dmi_text h) = true) in
  (virt_environment h container vm = lit "container_guest" <-> guest) /\
  (virt_environment h container vm = lit "vm_guest" <-> ~ guest /\ virtual) /\
  (virt_environment h container vm = lit "bare_metal" <-> ~ guest /\ ~ virtual /\ container = VirtNone /\ vm = VirtNone).
Proof.
  intros guest virtual.
  assert (guest <-> bool_decide (detected container <> None) || container_fallback h = true) as Hg.
  { subst guest. rewrite orb_true_iff, bool_decide_eq_true. destruct container as [|t|]; cbn [detected]; naive_solver. }
  assert (virtual <-> bool_decide (first_of_two (detected vm) (fallback_provider h) <> None) = true) as Hv.
  { subst virtual. rewrite bool_decide_eq_true, fallback_named. destruct vm as [|p|]; cbn [detected first_of_two]; naive_solver. }
  rewrite Hg, Hv. unfold virt_environment. destruct (_ || _); [naive_solver|]. destruct (bool_decide (first_of_two _ _ <> None)); [naive_solver|].
  do 2 case_bool_decide; naive_solver.
Qed.

(** ** The report is a document without repeated names *)

Definition scalar (w : wire) : bool := match w with WArr _ | WObj _ => false | _ => true end.
Lemma component_is_sound kind values : forallb (fun kv => scalar (snd kv)) values = true -> component_sound (component kind values).
Proof.
  intros H. split; cbn [component c_attributes]; [apply bt_sorted_nodup, bt_of_list_sorted|]. apply list.Forall_forall.
  intros kv (kv' & -> & Hk)%bt_of_list_elem%list_elem_of_fmap. apply list_elem_of_In, filter_In in Hk as [Hk _]. rewrite forallb_forall in H. specialize (H _ Hk). cbn [snd].
  by destruct (snd kv').
Qed.

Lemma scalar_nullable {A} (f : A -> wire) o : (forall a, scalar (f a) = true) -> scalar (nullable f o) = true.
Proof. intros H. destruct o; [apply H|done]. Qed.

#[local] Ltac sound := apply component_is_sound; cbn [forallb snd]; unfold opt_str, opt_int, opt_bool; rewrite ?scalar_nullable by done; reflexivity.

Lemma bounded_components_sound collector limit n l : Forall component_sound l -> Forall component_sound (bounded_components collector limit n l).
Proof. intros H. apply Forall_app. split; [by apply Forall_take|]. destruct (_ <? _); [|constructor]. constructor; [sound|constructor]. Qed.
Lemma all_sound {A} (f : A -> Component) l : (forall a, component_sound (f a)) -> Forall component_sound (map f l).
Proof. intros H. apply Forall_map. by apply List.Forall_forall. Qed.

(** How many components a report may hold. *)
Definition MAX_COMPONENTS : Z := 2 + 1 + (MAX_DISK_COMPONENTS + 1) + (MAX_FILESYSTEM_COMPONENTS + 1) + 1 + (MAX_POWER_SUPPLY_COMPONENTS + 1).
Lemma bounded_components_length collector limit n l : 0 <= limit -> zlength (bounded_components collector limit n l) <= limit + 1.
Proof. intros H. unfold bounded_components, zlength. rewrite length_app, length_take. destruct (_ <? _); cbn [length]; lia. Qed.
Lemma disks_length disks : zlength (collect_disks disks) <= MAX_DISK_COMPONENTS + 1.
Proof. destruct disks; [by apply bounded_components_length|done]. Qed.
Lemma filesystems_length fs : zlength (collect_filesystems fs) <= MAX_FILESYSTEM_COMPONENTS + 1.
Proof. destruct fs; [by apply bounded_components_length|done]. Qed.

Section documents.
Context {P : Programs} {E : WireText} {M : ManifestCodec}.
Variable hyphenated : bytes -> bytes.

(** Whatever the host reports, a collection's document repeats no name in an object, and
    holds no more components than its collectors' limits and their statuses. *)
Theorem host_report_is_bounded (h : Host) network container vm (facts : SystemFacts) filesystems s s' r :
  zlength (power_supplies (smbios_tables hyphenated h)) < 2 ^ 64 ->
  collect_from_with_sources hyphenated h network container vm facts filesystems s = (s', Ok r) ->
  server_sound r /\ zlength (s_components r) <= MAX_COMPONENTS.
Proof.
  intros Hl (name & fqdn & ifs & virt & supplies & _ & _ & (c & v & ->) & Hs & ->)%collected. cbn [resource_of s_components s_labels].
  destruct (power_supplies_bounded _ Hl) as (k & out & Eo & Hk & _ & Ho). assert (out = supplies) as -> by congruence.
  assert (Forall component_sound supplies /\ zlength supplies <= MAX_POWER_SUPPLY_COMPONENTS + 1) as [Hss Hsl].
  { assert (forall l, Forall component_sound (map power_supply_component l)) as Hp by (intros l; apply all_sound; intros p; sound).
    destruct (Z.leb_spec (zlength (power_supplies (smbios_tables hyphenated h))) (Z.of_nat k)) as [Hle|Hgt]; rewrite Ho.
    - split; [done|]. unfold zlength in *. rewrite length_map. lia.
    - split; [apply Forall_app; split; [done|]; constructor; [sound|constructor]|]. unfold zlength in *. rewrite length_app, length_map, length_take. cbn [length]. lia. }
  split; [split; [|constructor]|].
  - apply Forall_app; split; [by repeat (apply list.Forall_cons; split; [sound|])|]. apply Forall_app; split; [|apply Forall_app; split; [|apply Forall_app; split; [|apply Forall_app; split; [|done]]]].
    + destruct (sf_total_memory_bytes facts); [|constructor]. constructor; [sound|constructor].
    + destruct (sf_disks facts); [|constructor]. apply bounded_components_sound, all_sound. intros d. sound.
    + destruct filesystems; [|constructor]. apply bounded_components_sound, all_sound. intros d. sound.
    + apply list.Forall_cons; split; [sound|constructor].
  - pose proof (disks_length (sf_disks facts)). pose proof (filesystems_length filesystems). unfold zlength, MAX_COMPONENTS in *. rewrite !length_app. cbn [length].
    assert (length (memory_components (sf_total_memory_bytes facts)) <= 1)%nat by (destruct (sf_total_memory_bytes facts); cbn; lia). lia.
Qed.
End documents.

(** ** A host *)

Definition demo_text : WireText.
Proof. refine {| encoded_len := fun w => match plain_len w with Some n => n | None => 0 end |}. by intros w n ->. Defined.
(** Digits only: hyphens do not count. *)
Definition demo_hyphenated (bs : bytes) : bytes := concat (map hex_byte bs).
Lemma demo_hyphenated_digits bs : length bs = 16%nat -> List.filter (fun b => negb (b =? 45)) (demo_hyphenated bs) = concat (map hex_byte bs).
Proof.
  intros _. unfold demo_hyphenated. induction bs as [|b bs IH]; [done|]. cbn [map concat hex_byte app List.filter]. rewrite IH.
  assert (forall d, (hex_digit d =? 45) = false) as Hd by (intros d; unfold hex_digit; destruct (Z.ltb_spec d 0), (Z.ltb_spec d 10); lia). by rewrite !Hd.
Qed.

Definition demo_files : list (bytes * bytes) :=
  [(lit "etc/hostname", lit "web-1"); (lit "sys/class/net/eth0/address", lit "52:54:00:AA:BB:01"); (lit "sys/class/net/eth0/speed", lit "1000");
   (lit "sys/class/dmi/id/product_uuid", lit "00000000-0000-0000-0000-000000000000")].
Definition demo_host : Host :=
  mkHost (fun p => option_map snd (find_by (fun e => str_eqb (fst e) p) demo_files)) (str_eqb (lit "sys/class/net/eth0/device")) (fun _ => false) ∅.
Definition demo_network : Run Z (result (list NetworkInterface) IoError) := fun w =>
  (w, Ok [mkNetworkInterface (lit "eth0") 2 (Some (lit "52:54:00:aa:bb:01")) (Some 1500) true true false [mkNetworkAddress (V4 192 0 2 1) 24 FamilyIpv4]]).
Definition no_facts : SystemFacts := mkSystemFacts (mkOsFacts None None None None) None (mkCpuFacts None None None) None None.
Definition no_sysinfo : Sysinfo := mkSysinfo None None None [] None [] None 0 [].

Lemma power_supplies_fit_witness : exists out,
  collect_power_supplies (E := demo_text) (replicate 33 (mkSupply None None None None None None None None None None None None None)) = Some out /\ length out = 33%nat.
Proof.
  destruct (power_supplies_fit (E := demo_text) (replicate 33 (mkSupply None None None None None None None None None None None None None))) as (k & out & Hc & _).
  { vm_compute. reflexivity. }
  exists out. split; [exact Hc|]. revert Hc. vm_compute. intros [= <-]. reflexivity.
Defined.

Lemma host_identity_is_confirmed_witness : exists s r,
  collect_from_with_sources (P := demo_machine) (E := demo_text) (M := demo_codec) demo_hyphenated demo_host demo_network (container (P := demo_machine)) (vm (P := demo_machine))
    no_facts (Err []) (0, []) = (s, Ok r) /\ i_mac_address (s_identifiers r) = [lit "52:54:00:aa:bb:01"] /\ mac_text (lit "52:54:00:aa:bb:01").
Proof.
  eexists _, _. split; [vm_compute; reflexivity|]. split; [reflexivity|].
  edestruct (host_identity_is_confirmed (P := demo_machine) (E := demo_text) (M := demo_codec) demo_hyphenated demo_hyphenated_digits demo_host demo_network
    (container (P := demo_machine)) (vm (P := demo_machine)) no_facts (Err []) (0, [])) as (_ & H & _); [vm_compute; reflexivity|].
  apply list.Forall_cons in H as [[Hm _] _]. exact Hm.
Defined.

Lemma collection_degrades_witness : exists s r,
  collect (P := demo_machine) (E := demo_text) (M := demo_codec) demo_hyphenated (fun _ => Err []) demo_host
    (fun w => (w, Err (mkIoError OtherKind []))) (fun w => (w, Err (mkIoError OtherKind []))) no_sysinfo (Err []) (0, []) = (s, Ok r) /\ i_hostname (s_identifiers r) = lit "web-1".
Proof.
  pose proof (collection_degrades (T := demo_time) (E := demo_text) (M := demo_codec) demo_hyphenated (fun _ => Err []) demo_host
    (fun w => (w, Err (mkIoError OtherKind []))) (fun w => (w, Err (mkIoError OtherKind []))) no_sysinfo (Err []) (0, [])) as H.
  apply H. vm_compute. reflexivity.
Defined.

Lemma host_report_is_bounded_witness : exists s r,
  collect_from_with_sources (P := demo_machine) (E := demo_text) (M := demo_codec) demo_hyphenated demo_host demo_network (container (P := demo_machine)) (vm (P := demo_machine))
    no_facts (Err []) (0, []) = (s, Ok r) /\ zlength (s_components r) = 3 /\ server_sound r.
Proof.
  eexists _, _. split; [vm_compute; reflexivity|]. split; [reflexivity|].
  edestruct (host_report_is_bounded (P := demo_machine) (E := demo_text) (M := demo_codec) demo_hyphenated demo_host demo_network
    (container (P := demo_machine)) (vm (P := demo_machine)) no_facts (Err []) (0, [])) as [H _]; [vm_compute; reflexivity|vm_compute; reflexivity|exact H].
Defined.
