(* ===== verification/MacosHost.v ===== *)
(** * collectors/macos.rs: the inventory of a macOS host

    The platform's facts come from programs ([Command]); mounted filesystems from
    [getfsstat], an outside that answers what it answers.  serde_json's reader
    ([SerdeJson]) and Unicode lower case are parameters. *)

From Stdlib Require Import String.
From S2P Require Import Prelude Text Ip BTree JsonValue Payload NetworkFacts Command LinuxHost.

#[local] Set Warnings "-notation-overridden".

Record PlatformFacts := mkPlatformFacts {
  product_name : option bytes; pf_model : option bytes; platform_uuid : option bytes; pf_serial_number : option bytes;
  pf_fqdn : option bytes; vm_present : option bool }.

Record FilesystemFacts := mkFilesystemFacts { mf_device : bytes; mf_mountpoint : bytes; mf_type : bytes }.

Definition normalize (value : bytes) : option bytes := filled (trim value).

(** The quote is byte 34. *)
Definition quoted_property (output : bytes) (key : string) : option bytes :=
  let prefix := [34] ++ lit key ++ [34] ++ lit " = " ++ [34] in
  head (omap (fun line => let+ value := strip_prefix prefix (trim line) in let+ value := strip_suffix [34] value in normalize value) (lines output)).

Definition hardware_model (p : PlatformFacts) : option bytes :=
  match product_name p, pf_model p with
  | Some product, Some model => if str_eqb product model then Some product else Some (product ++ lit " (" ++ model ++ lit ")")
  | Some product, None => Some product
  | None, model => model
  end.

Section platform.
Context {P : Programs} {S : SerdeJson}.
Abbreviation Collecting := (ST (programs * list act) (option bytes)).

Definition system_profiler_product_name (output : bytes) : option bytes :=
  match from_slice output with
  | Err _ => None
  | Ok v => let+ data := get v (lit "SPHardwareDataType") in let+ items := as_array data in let+ first := head items in
            let+ name := get first (lit "machine_name") in let+ s := as_str name in normalize s
  end.

(** [NativePlatformSource::output]. *)
Definition output (argv : list bytes) : Collecting (option bytes) :=
  let* o := run_ok argv in
  st_ret (let+ o := o in if success o then from_utf8 (stdout o) else None).

Definition vm_flag (value : bytes) : option bool :=
  if str_eqb (trim value) (lit "0") then Some false else if str_eqb (trim value) (lit "1") then Some true else None.

(** [NativePlatformSource::collect]. *)
Definition platform_facts : Collecting PlatformFacts :=
  let* ioreg := output [lit "/usr/sbin/ioreg"; lit "-rd1"; lit "-c"; lit "IOPlatformExpertDevice"] in
  let ioreg := text_of ioreg in
  let* profile := output [lit "/usr/sbin/system_profiler"; lit "SPHardwareDataType"; lit "-json"] in
  let* model := output [lit "/usr/sbin/sysctl"; lit "-n"; lit "hw.model"] in
  let* hostname := output [lit "/bin/hostname"; lit "-f"] in
  let* vmm := output [lit "/usr/sbin/sysctl"; lit "-n"; lit "kern.hv_vmm_present"] in
  st_ret (mkPlatformFacts (let+ o := profile in system_profiler_product_name o) (let+ m := model in normalize m)
    (quoted_property ioreg "IOPlatformUUID") (quoted_property ioreg "IOPlatformSerialNumber")
    (let+ h := hostname in let+ h := normalize h in if existsb (fun b => b =? 46) h then Some h else None)
    (let+ v := vmm in vm_flag v)).
End platform.

(** ** Mounted filesystems *)

(** An entry of [getfsstat]: three buffers ended by a nul. *)
Record Statfs := mkStatfs { f_mntfromname : bytes; f_mntonname : bytes; f_fstypename : bytes }.

Fixpoint take_while {A} (p : A -> bool) (l : list A) : list A := match l with x :: l' => if p x then x :: take_while p l' else [] | [] => [] end.
Definition c_string (value : bytes) : option bytes :=
  let+ s := from_utf8 (take_while (fun b => negb (b =? 0)) value) in filled s.

Definition invalid_mount (what : string) : IoError := mkIoError OtherKind (lit "mount has no " ++ lit what).
Definition statfs_facts (m : Statfs) : result FilesystemFacts IoError :=
  let? device := ok_or (c_string (f_mntfromname m)) (invalid_mount "device") in
  let? mountpoint := ok_or (c_string (f_mntonname m)) (invalid_mount "mountpoint") in
  let? fs_type := ok_or (c_string (f_fstypename m)) (invalid_mount "filesystem type") in
  Ok (mkFilesystemFacts device mountpoint fs_type).

Fixpoint all_facts (l : list Statfs) : result (list FilesystemFacts) IoError :=
  match l with [] => Ok [] | m :: l' => let? f := statfs_facts m in let? fs := all_facts l' in Ok (f :: fs) end.

Section mounts.
Context {W : Type}.
(** [getfsstat] with no buffer and with one of so many bytes: the count it returns, and the entries it wrote. *)
Variable getfsstat_count : Run W (result Z IoError).
Variable getfsstat : Z -> Run W (result (Z * list Statfs) IoError).
Variable SIZEOF_STATFS : Z.

Definition mounted_filesystem_count : ST W (option IoError) Z := fun w => let '(w, r) := getfsstat_count w in (w, map_err Some r).

Definition fits_int (capacity : Z) : option Z :=
  let size := capacity * SIZEOF_STATFS in
  if (size <=? U64_MAX) && (size <=? 2 ^ 31 - 1) then Some size else None.

(** The entries beyond the count are not initialized, and not looked at. *)
Definition read_mounted_filesystems (capacity : Z) : ST W (option IoError) (list Statfs) :=
  let* byte_size := st_of_result (ok_or (fits_int capacity) (Some (mkIoError OtherKind (lit "filesystem buffer is too large")))) in
  let* r := (fun w => let '(w, r) := getfsstat byte_size w in (w, map_err Some r)) in
  let '(count, entries) := (r : Z * list Statfs) in
  if capacity <? count then st_err (Some (mkIoError OtherKind (lit "filesystem count exceeds allocated buffer")))
  else st_ret (take (Z.to_nat count) entries).

(** The loop; [Err None] is its fuel. *)
Fixpoint load_filesystem_stats (fuel : nat) : ST W (option IoError) (list Statfs) :=
  match fuel with
  | O => st_err None
  | S fuel' =>
      let* expected := mounted_filesystem_count in
      let* mounts := read_mounted_filesystems expected in
      let* now := mounted_filesystem_count in
      if now <=? zlength mounts then st_ret mounts else load_filesystem_stats fuel'
  end.

Definition darwin_filesystems (fuel : nat) : ST W (option IoError) (list FilesystemFacts) :=
  let* mounts := load_filesystem_stats fuel in
  st_of_result (map_err Some (all_facts mounts)).
End mounts.

(** ** The collection *)

Definition interface_kind (f : NetworkInterface) : bytes :=
  if ni_loopback f then lit "loopback" else if starts_with (lit "en") (ni_name f) then lit "ethernet" else lit "virtual".
(** The same as on Linux. *)
Definition ethernet_mac : bytes -> option bytes := parse_ethernet_mac.
Definition project_interface (f : NetworkInterface) : Interface :=
  mkInterface (ni_name f) (interface_kind f) (if ni_up f then lit "up" else lit "down") (let+ m := ni_mac f in ethernet_mac m) (ni_mtu f) None
    (Some (map project_address (ni_addresses f))) None None None.
Definition project_interfaces (facts : list NetworkInterface) : list Interface := map project_interface facts.
Definition identifying_macs (interfaces : option (list Interface)) : list bytes :=
  omap if_mac_address (List.filter (fun i => str_eqb (if_kind i) (lit "ethernet")) (match interfaces with Some l => l | None => [] end)).

Definition disk_component (d : DiskFacts) : Component :=
  component "disk"
    [("name", opt_str (normalize (df_name d)));
     ("medium", WStr (match df_medium d with Hdd => lit "hdd" | Ssd => lit "ssd" | UnknownMedium => lit "unknown" end));
     ("size_bytes", opt_int (df_total_bytes d));
     ("mountpoint", opt_str (df_mount_point d))]%string.
Definition collect_disks (disks : option (list DiskFacts)) : list Component :=
  match disks with
  | None => []
  | Some disks => bounded_components "disk" MAX_DISK_COMPONENTS (zlength disks) (map disk_component disks)
  end.
Definition filesystem_component (f : FilesystemFacts) : Component :=
  component "filesystem" [("device", WStr (mf_device f)); ("mountpoint", WStr (mf_mountpoint f)); ("filesystem_type", WStr (mf_type f))]%string.
Definition collect_filesystems (source : result (list FilesystemFacts) IoError) : list Component :=
  match source with
  | Err _ => []
  | Ok fs => bounded_components "filesystem" MAX_FILESYSTEM_COMPONENTS (zlength fs) (map filesystem_component fs)
  end.

Definition os_component (o : OsFacts) : Component :=
  component "os" [("name", WStr (lit "macOS")); ("version", opt_str (os_version o)); ("kernel", opt_str (os_kernel o)); ("architecture", opt_str (os_architecture o))]%string.

Section collect.
Context {P : Programs} {S : SerdeJson}.
Variable to_lowercase : bytes -> bytes.       (* [str::to_lowercase], Unicode's *)
Abbreviation Collecting := (ST (programs * list act) (option bytes)).

Definition vm_provider (p : PlatformFacts) : option bytes :=
  if bool_decide (vm_present p = Some true) then
    let model := to_lowercase (text_of (pf_model p)) in
    Some (if contains_sub (lit "virtualmac") model then lit "apple" else if contains_sub (lit "vmware") model then lit "vmware"
          else if contains_sub (lit "parallels") model then lit "parallels" else lit "unknown")
  else None.
Definition virtualization_component (p : PlatformFacts) : Component :=
  component "virtualization"
    [("environment", WStr (match vm_present p with Some true => lit "vm_guest" | Some false => lit "bare_metal" | None => lit "unknown" end));
     ("provider", opt_str (vm_provider p))]%string.

Definition and_normalized (o : option bytes) : option bytes := let+ v := o in normalize v.

Definition resource_of (hostname : bytes) (p : PlatformFacts) (interfaces : option (list Interface)) (components : list Component) : ServerResource :=
  mkServer (mkIdentifiers hostname (pf_fqdn p) (platform_uuid p) None (pf_serial_number p) (identifying_macs interfaces))
    (Some (mkHostAttributes (Some hostname) (pf_fqdn p) (Some (lit "Apple Inc.")) (hardware_model p) None))
    interfaces components [].

Definition collect_from_sources (system : SystemFacts) (platform : Collecting PlatformFacts) (network : Run programs (result (list NetworkInterface) IoError))
  (filesystems : Run programs (result (list FilesystemFacts) (option IoError))) : Collecting ServerResource :=
  let* p := platform in
  match and_normalized (sf_hostname system) with
  | None => st_err (Some (lit "macOS host has no usable hostname"))
  | Some hostname =>
      let* r := outside network in
      let interfaces := match r with Ok facts => Some (project_interfaces facts) | Err _ => None end in
      let* fs := outside filesystems in
      match fs with
      | Err None => st_err None
      | _ =>
          let fs := match fs with Ok l => Ok l | Err (Some e) => Err e | Err None => Ok [] end in
          let components :=
            [os_component (sf_os system); cpu_component (sf_cpu system)] ++ memory_components (sf_total_memory_bytes system)
            ++ collect_disks (sf_disks system) ++ collect_filesystems fs ++ [virtualization_component p] in
          st_ret (resource_of hostname p interfaces components)
      end
  end.

(** [collect]: the running host; [fuel] bounds the loop over its mounts. *)
Definition collect (size : Z) (count : Run programs (result Z IoError)) (stat : Z -> Run programs (result (Z * list Statfs) IoError)) (fuel : nat)
  (interfaces : Run programs (result (list GetifsInterface) IoError)) (addresses : Run programs (result (list IfNet) IoError)) (sysinfo : Sysinfo) : Collecting ServerResource :=
  collect_from_sources (sysinfo_facts sysinfo) platform_facts (getifs_collect interfaces addresses) (darwin_filesystems count stat size fuel).
End collect.

(** ** The list of mounts is whole *)

(** A kernel whose mounts change finitely often: [changes] bounds how often they still will. *)
Record Settles {W} (count : Run W (result Z IoError)) (stat : Z -> Run W (result (Z * list Statfs) IoError)) (size : Z) := {
  mounted : W -> list Statfs;
  changes : W -> nat;
  steady (w w' : W) := (changes w' <= changes w)%nat /\ (changes w' = changes w -> mounted w' = mounted w);
  count_settles : forall w, snd (count w) = Ok (zlength (mounted w)) /\ steady w (fst (count w));
  stat_settles : forall n w, snd (stat n w) = (let k := Z.min (zlength (mounted w)) (n / size) in Ok (k, take (Z.to_nat k) (mounted w))) /\ steady w (fst (stat n w)) }.

Section whole.
Context {W : Type} (count : Run W (result Z IoError)) (stat : Z -> Run W (result (Z * list Statfs) IoError)) (size : Z).
Hypothesis size_pos : 0 < size.
Variable K : Settles count stat size.
Abbreviation mounted := (mounted count stat size K).
Abbreviation changes := (changes count stat size K).
Abbreviation steady := (steady count stat size K).

Lemma steady_trans w1 w2 w3 : steady w1 w2 -> steady w2 w3 -> steady w1 w3.
Proof. intros [H1 H1'] [H2 H2']. split; [lia|]. intros E. rewrite H2', H1'; [done|lia|lia]. Qed.

Lemma counted w : exists w', mounted_filesystem_count count w = (w', Ok (zlength (mounted w))) /\ steady w w'.
Proof.
  unfold mounted_filesystem_count. destruct (count_settles _ _ _ K w) as [H1 H2]. destruct (count w) as [w' r]. cbn [fst snd] in *. subst r. by exists w'.
Qed.

(** A read of as many mounts as there were: too large a buffer, or the mounts. *)
Lemma read_whole w c : 0 <= c -> exists w', steady w w' /\
  ((exists e, read_mounted_filesystems stat size c w = (w', Err (Some e))) \/
   read_mounted_filesystems stat size c w = (w', Ok (take (Z.to_nat (Z.min (zlength (mounted w)) c)) (mounted w)))).
Proof.
  intros Hc. unfold read_mounted_filesystems. destruct (fits_int size c) as [b|] eqn:Hf; cbn [ok_or].
  2:{ exists w. split; [by split|]. left. by eexists. }
  assert (b = c * size) as ->. { unfold fits_int in Hf. destruct (_ && _); [|done]. by injection Hf. }
  destruct (stat_settles _ _ _ K (c * size) w) as [H1 H2]. unfold st_bind, st_of_result. destruct (stat (c * size) w) as [w' r]. cbn [fst snd] in *. subst r.
  exists w'. split; [done|]. right. cbn [map_err]. rewrite Z.div_mul by lia. rewrite (proj2 (Z.ltb_ge _ _)) by lia. unfold st_ret. by rewrite take_take, Nat.min_id.
Qed.

(** Once the mounts settle the loop ends: with an error, or with a list no shorter than the
    number of mounts counted after it was read. *)
Theorem mount_list_is_whole (w : W) : exists w' r, load_filesystem_stats count stat size (S (changes w)) w = (w', r) /\
  match r with Ok l => exists w1, count w1 = (w', Ok (zlength (mounted w1))) /\ zlength (mounted w1) <= zlength l | Err e => e <> None end.
Proof.
  remember (changes w) as n eqn:Hn. assert (changes w <= n)%nat as Hle by lia. clear Hn. revert w Hle.
  assert (forall m w, (changes w < m)%nat -> exists w' r, load_filesystem_stats count stat size m w = (w', r) /\
    match r with Ok l => exists w1, count w1 = (w', Ok (zlength (mounted w1))) /\ zlength (mounted w1) <= zlength l | Err e => e <> None end) as H.
  { induction m as [|m IH]; intros w Hm; [lia|]. cbn [load_filesystem_stats].
    destruct (counted w) as (w1 & E1 & S1). rewrite (st_bind_ok _ _ _ _ _ E1).
    destruct (read_whole w1 (zlength (mounted w)) ltac:(unfold zlength; lia)) as (w2 & S2 & [(e & E2)|E2]).
    { unfold st_bind at 1. rewrite E2. by eexists _, _. }
    rewrite (st_bind_ok _ _ _ _ _ E2). set (l := take _ _). destruct (counted w2) as (w3 & E3 & S3). rewrite (st_bind_ok _ _ _ _ _ E3).
    destruct (Z.leb_spec (zlength (mounted w2)) (zlength l)) as [Hl|Hl].
    - eexists _, _. split; [reflexivity|]. exists w2. split; [|done]. unfold mounted_filesystem_count in E3.
      destruct (count_settles _ _ _ K w2) as [C _]. destruct (count w2) as [w3' r]. cbn [snd] in C. subst r. cbn in E3. congruence.
    - apply IH. pose proof (steady_trans _ _ _ (steady_trans _ _ _ S1 S2) S3) as [H3 _]. destruct (Nat.eq_dec (changes w3) (changes w)) as [Ec|]; [|lia]. exfalso.
      destruct S1 as [L1 M1], S2 as [L2 M2], S3 as [L3 M3]. rewrite M2, M1 in Hl by lia. subst l. rewrite M1 in Hl by lia. rewrite Z.min_id in Hl.
      unfold zlength in Hl. rewrite length_take in Hl. lia. }
  intros w Hle. apply H. lia.
Qed.
End whole.

(** ** What identifies the host *)

Section identity.
Context {P : Programs} {S : SerdeJson}.
Variable to_lowercase : bytes -> bytes.

Lemma normalize_filled v w : normalize v = Some w -> w <> [].
Proof. unfold normalize, filled. destruct (trim v); [done|]. by intros [= <-]. Qed.

#[local] Ltac sound := apply component_is_sound; cbn [forallb snd]; unfold opt_str, opt_int; rewrite ?scalar_nullable by done; reflexivity.
Lemma macos_components_sound name p ifs system fs : server_sound (resource_of name p ifs
  ([os_component (sf_os system); cpu_component (sf_cpu system)] ++ memory_components (sf_total_memory_bytes system)
   ++ collect_disks (sf_disks system) ++ collect_filesystems fs ++ [virtualization_component to_lowercase p])).
Proof.
  split; [|constructor]. cbn [resource_of s_components].
  apply Forall_app; split; [by repeat (apply list.Forall_cons; split; [sound|])|]. apply Forall_app; split; [|apply Forall_app; split; [|apply Forall_app; split]].
  - destruct (sf_total_memory_bytes system); [|constructor]. constructor; [sound|constructor].
  - destruct (sf_disks system); [|constructor]. apply bounded_components_sound, all_sound. intros d. sound.
  - destruct fs; [|constructor]. apply bounded_components_sound, all_sound. intros d. sound.
  - apply list.Forall_cons; split; [sound|constructor].
Qed.

(** A report names the host, and only hardware addresses of six octets of interfaces named
    as built-in ports, loopback apart, identify it; its document repeats no name. *)
Theorem macos_identity_is_confirmed (system : SystemFacts) platform network filesystems s s' r :
  collect_from_sources to_lowercase system platform network filesystems s = (s', Ok r) ->
  i_hostname (s_identifiers r) <> [] /\ and_normalized (sf_hostname system) = Some (i_hostname (s_identifiers r)) /\
  Forall (fun mac => mac_text mac /\ exists facts f, s_interfaces r = Some (project_interfaces facts) /\ f ∈ facts /\
            ni_loopback f = false /\ starts_with (lit "en") (ni_name f) = true /\ if_mac_address (project_interface f) = Some mac) (i_mac_address (s_identifiers r)) /\
  server_sound r.
Proof.
  unfold collect_from_sources. intros (s1 & p & _ & H)%st_bind_inv. destruct (and_normalized _) as [name|] eqn:Hn; [|done].
  apply st_bind_inv in H as (s2 & nw & _ & (s3 & fs & _ & H)%st_bind_inv).
  set (ifs := match nw with Ok facts => Some (project_interfaces facts) | Err _ => None end) in H.
  assert (exists fs', r = resource_of name p ifs ([os_component (sf_os system); cpu_component (sf_cpu system)] ++ memory_components (sf_total_memory_bytes system)
    ++ collect_disks (sf_disks system) ++ collect_filesystems fs' ++ [virtualization_component to_lowercase p])) as (fs' & ->).
  { destruct fs as [l|[e|]]; unfold st_ret, st_err in H; [exists (Ok l)|exists (Err e)|done]; congruence. }
  cbn [resource_of s_identifiers i_hostname i_mac_address s_interfaces]. split; [|split; [done|split]].
  - unfold and_normalized in Hn. destruct (sf_hostname system); [|done]. by eapply normalize_filled.
  - apply list.Forall_forall. intros m. subst ifs. destruct nw as [facts|e]; [|by intros ?%elem_of_nil]. cbn [identifying_macs].
    intros (i & Hi & Hm)%list_elem_of_omap. apply list_elem_of_In, filter_In in Hi as [Hi Hk]. apply bool_decide_eq_true in Hk. apply list_elem_of_In, list_elem_of_fmap in Hi as (f & -> & Hf).
    split. { cbn [project_interface if_mac_address] in Hm. destruct (ni_mac f) as [v|]; [|done]. by eapply parse_ethernet_mac_text. }
    exists facts, f. split; [done|]. split; [done|]. cbn [project_interface if_kind] in Hk. unfold interface_kind in Hk. destruct (ni_loopback f); [done|]. by destruct (starts_with _ _).
  - apply macos_components_sound.
Qed.
End identity.

(** A kernel with one mount. *)
Definition one_mount : Statfs := mkStatfs (lit "/dev/disk1") (lit "/") (lit "apfs").
Definition one_count : Run unit (result Z IoError) := fun w => (w, Ok 1).
Definition one_stat (n : Z) : Run unit (result (Z * list Statfs) IoError) := fun w => let k := Z.min 1 (n / 8) in (w, Ok (k, take (Z.to_nat k) [one_mount])).
Definition one_settles : Settles one_count one_stat 8.
Proof. refine (Build_Settles unit one_count one_stat 8 (fun _ => [one_mount]) (fun _ => 0%nat) _ _); done. Defined.

Lemma mount_list_is_whole_witness : 0 < 8 /\ exists w' l, load_filesystem_stats one_count one_stat 8 1 tt = (w', Ok l) /\ 1 <= zlength l.
Proof.
  split; [reflexivity|]. destruct (mount_list_is_whole one_count one_stat 8 ltac:(reflexivity) one_settles tt) as (w' & r & E & H).
  destruct r as [l|e]; [|vm_compute in E; discriminate E]. exists w', l. split; [exact E|]. destruct H as (w1 & _ & H). exact H.
Defined.
