(* ===== verification/Batching.v ===== *)
(** * Batching: splitting what is too large to send

    Switch reports and power telemetry leave the agent in batches that must stay
    under a size limit.  Both modules keep a stack of pending batches, encode the
    top one, and halve it when it comes out too large.  The loop is the same, so
    it is here, over any encoder; [SwitchReport] and [PowerCollector] use it. *)

From S2P Require Import Prelude.

Section batching.
Context {A B : Type}.
(** The [k]-th call of the encoder: a fresh identifier and the clock make calls
    differ. *)
Variable encode : nat -> list A -> option B.

(** [chunks(n)] for a positive [n]; the list's length is fuel enough. *)
Fixpoint chunks_fuel (fuel n : nat) (l : list A) : list (list A) :=
  match fuel, l with
  | S fuel', _ :: _ => take n l :: chunks_fuel fuel' n (drop n l)
  | _, _ => []
  end.
Definition chunks (n : nat) (l : list A) : list (list A) := chunks_fuel (length l) n l.

(** The loop: [pending] is the stack, its top first; the result lists the batches
    encoded, in the order they were.  A batch that cannot be split any more is
    left out.  [None] when the fuel runs out. *)
Fixpoint halve (fuel k : nat) (pending : list (list A)) : option (nat * list (list A * B)) :=
  match pending with
  | [] => Some (k, [])
  | batch :: pending' =>
      match fuel with
      | O => None
      | S fuel' =>
          match encode k batch with
          | Some b =>
              let+ (k', sent) := halve fuel' (S k) pending' in Some (k', (batch, b) :: sent)
          | None =>
              if Nat.ltb 1 (length batch) then
                let half := (length batch / 2)%nat in
                halve fuel' (S k) (take half batch :: drop half batch :: pending')
              else halve fuel' (S k) pending'
          end
      end
  end.

(** Turns the loop may need: one per batch, and one more per split. *)
Definition turns (pending : list (list A)) : nat :=
  fold_right (fun b n => S (2 * length b) + n)%nat O pending.

Lemma half_bounds n : (1 < n)%nat -> (0 < n / 2 < n)%nat.
Proof. intros H. split; [apply Nat.div_str_pos; lia|apply Nat.div_lt; lia]. Qed.

(** The potential that falls with every turn: [2n - 1] for a batch of [n], at
    least one. *)
Definition weight (b : list A) : nat := S (2 * length b - 2).
Definition weights (pending : list (list A)) : nat := fold_right (fun b n => weight b + n)%nat O pending.

Lemma weights_turns pending : (weights pending <= turns pending)%nat.
Proof. unfold weights, turns, weight. induction pending as [|b p IH]; cbn [fold_right]; lia. Qed.

(** Everything is sent once and in order, unless it is an item that does not fit
    on its own. *)
Lemma halve_complete fuel : forall k pending,
  (weights pending <= fuel)%nat ->
  exists k' sent dropped, halve fuel k pending = Some (k', sent) /\
    Forall (fun s => exists i, encode i (fst s) = Some (snd s)) sent /\
    concat (map fst sent) `sublist_of` concat pending /\
    (forall a, a ∈ dropped -> exists i, encode i [a] = None) /\
    concat pending ≡ₚ concat (map fst sent) ++ dropped /\
    (dropped = [] -> concat (map fst sent) = concat pending).
Proof.
  induction fuel as [|fuel IH]; intros k [|batch pending] Hw; cbn [halve].
  1, 3: exists k, [], []; split_and!; try done; by intros a Ha; inversion Ha.
  { unfold weights, weight in Hw. cbn [fold_right] in Hw. lia. }
  destruct (encode k batch) as [b|] eqn:E.
  - destruct (IH (S k) pending) as (k' & sent & dropped & -> & He & Hs & Hd & Hp & Heq).
    { unfold weights, weight in *. cbn [fold_right] in Hw. lia. }
    exists k', ((batch, b) :: sent), dropped. cbn [mbind option_bind map fst concat]. split_and!; try done.
    + constructor; [by exists k|done].
    + by apply sublist_app.
    + by rewrite <- app_assoc, Hp.
    + intros H. by rewrite (Heq H).
  - destruct (Nat.ltb 1 (length batch)) eqn:Hl.
    + apply Nat.ltb_lt in Hl. pose proof (half_bounds _ Hl) as Hh. set (half := (length batch / 2)%nat) in *.
      destruct (IH (S k) (take half batch :: drop half batch :: pending)) as (k' & sent & dropped & ? & ? & Hs & ? & Hp & Heq).
      { unfold weights, weight in *. cbn [fold_right] in *. rewrite length_take, length_drop. lia. }
      cbn [concat] in *. rewrite (app_assoc (take half batch)), take_drop in Hs, Hp, Heq. exists k', sent, dropped. done.
    + apply Nat.ltb_ge in Hl. destruct (IH (S k) pending) as (k' & sent & dropped & -> & He & Hs & Hd & Hp & Heq).
      { unfold weights, weight in *. cbn [fold_right] in Hw. lia. }
      destruct batch as [|a [|? ?]]; [by exists k', sent, dropped| |cbn in Hl; lia].
      exists k', sent, (a :: dropped). cbn [concat app]. split_and!; try done.
      * by apply sublist_cons.
      * intros x [->|Hx]%elem_of_cons; [by exists k|by apply Hd].
      * rewrite Hp. by apply Permutation_middle.
Qed.

Lemma concat_chunks_fuel fuel n : forall l, (0 < n)%nat -> (length l <= fuel)%nat -> concat (chunks_fuel fuel n l) = l.
Proof.
  induction fuel as [|fuel IH]; intros [|a l] Hn Hl; cbn [chunks_fuel concat]; try done; [cbn in Hl; lia|].
  rewrite IH; [by rewrite take_drop|done|]. rewrite length_drop. cbn in *. lia.
Qed.

Lemma concat_chunks n l : (0 < n)%nat -> concat (chunks n l) = l.
Proof. intros Hn. by apply concat_chunks_fuel. Qed.

Lemma chunks_bounds n l c : (0 < n)%nat -> c ∈ chunks n l -> (0 < length c <= n)%nat.
Proof.
  intros Hn. unfold chunks. generalize (length l) at 1. intros fuel. revert l.
  induction fuel as [|fuel IH]; intros [|a l]; cbn [chunks_fuel]; try by inversion 1.
  intros [->|H]%elem_of_cons; [|by eapply IH]. rewrite length_take. cbn [length]. lia.
Qed.
End batching.
