(* ===== verification/SwitchReport.v ===== *)
(** * switch_report.rs: from polled switches to reports

    A module polls its targets, turns the outcomes into complete reports within
    the observation size limit, and hands them to the queue.  [to_vec] is
    [serde_json::to_vec]; the [k]-th report built carries the identifier and the
    time [stamp k], since every call draws a fresh UUID and reads the clock. *)

From Stdlib Require Import String.
From S2P Require Import Prelude Text Interfaces Queries Payload Batching Client.

Definition NEIGHBOR_TTL_POLLS : Z := 3.
Definition MAX_STRING_CHARS : nat := 255.
Definition TARGET_ENTRY_BYTES : Z := 96.
Definition REPORT_ENVELOPE_BYTES : Z := 1024.

Record Sections := mkRead { read_neighbors : bool; read_vlans : bool }.

Record TargetOutcome := mkOutcome {
  address : bytes;
  outcome : result (CollectorResource * Sections) bytes }.

(** Saturating arithmetic of [u32]. *)
Definition neighbor_ttl (interval : Z) : Z :=
  let seconds := as_secs interval in
  let seconds := if seconds <=? U32_MAX then seconds else U32_MAX in
  Z.min (Z.min (seconds * NEIGHBOR_TTL_POLLS) U32_MAX) 65535.

(** [poll_each] for one target: a stopped module reads nothing more. *)
Definition poll_one (stopped : bool) (addr : bytes) (read : result (CollectorResource * Sections) bytes)
  : TargetOutcome :=
  mkOutcome addr (if stopped then Err (lit "polling was cancelled") else read).

(** [chars().take(MAX_STRING_CHARS).collect()]. *)
Definition cut (s : bytes) : bytes := Queries.clip s MAX_STRING_CHARS.

Section reports.
Context {U : Uuid}.
Variables (rfc3339 : Z -> bytes) (to_vec : wire -> option bytes) (stamp : nat -> uuid * Z).

(** ** One report *)

Definition status_of (o : TargetOutcome) : TargetStatus :=
  match outcome o with
  | Ok _ => mkTargetStatus (address o) Reachable None
  | Err e => mkTargetStatus (address o) Unreachable (Some (cut e))
  end.

Definition resources_of (os : list TargetOutcome) : list CollectorResource :=
  omap (fun o => match outcome o with Ok (r, _) => Some r | Err _ => None end) os.

(** The accumulators of [encode]: whether any switch was reached, and what all of
    those answered. *)
Definition sections_of (os : list TargetOutcome) : SectionCompleteness :=
  let '(reached, neighbors, vlans) :=
    fold_left (fun acc o => match outcome o with
                            | Ok (_, s) => let '(_, n, v) := acc in (true, n && read_neighbors s, v && read_vlans s)
                            | Err _ => acc
                            end) os (false, true, true) in
  mkSections (reached && vlans) (reached && neighbors).

Definition report_of (k : nat) (collector_id : bytes) (os : list TargetOutcome) : ScopedReport :=
  with_section_completeness (sections_of os)
    (report_new (fst (stamp k)) (snd (stamp k)) (mkCollector collector_id SwitchPoller)
       (Targets (map status_of os)) true (resources_of os)).

Definition encode (collector_id : bytes) (k : nat) (os : list TargetOutcome) : option (uuid * bytes) :=
  match os with
  | [] => None
  | _ =>
      let report := report_of k collector_id os in
      let+ body := to_vec (report_wire rfc3339 report) in
      if zlength body <=? MAX_OBSERVATION_BYTES then Some (report_id report, body) else None
  end.

Definition encoded_size (o : TargetOutcome) : Z :=
  let resource := match outcome o with
                  | Ok (r, _) => match to_vec (resource_wire r) with Some b => zlength b | None => 0 end
                  | Err e => zlength e
                  end in
  resource + zlength (address o) + TARGET_ENTRY_BYTES.

Definition too_large : bytes := lit "the switch's report exceeds 256000 bytes".

(** Each call builds one report unless the target was not read. *)
Definition within_limit (collector_id : bytes) (k : nat) (o : TargetOutcome) : nat * TargetOutcome :=
  match outcome o with
  | Err _ => (k, o)
  | Ok _ => (S k, match encode collector_id k [o] with
                  | Some _ => o
                  | None => mkOutcome (address o) (Err too_large)
                  end)
  end.

(** ** All reports *)

(** [batches.last_mut().push(outcome)]. *)
Fixpoint push_last {A} (a : A) (batches : list (list A)) : list (list A) :=
  match batches with
  | [] => []
  | [b] => [b ++ [a]]
  | b :: batches' => b :: push_last a batches'
  end.

Fixpoint pack (collector_id : bytes) (k : nat) (batches : list (list TargetOutcome)) (used : Z)
    (os : list TargetOutcome) : nat * list (list TargetOutcome) :=
  match os with
  | [] => (k, batches)
  | o :: os' =>
      let budget := MAX_OBSERVATION_BYTES - REPORT_ENVELOPE_BYTES in
      let '(k, o) := within_limit collector_id k o in
      let size := encoded_size o in
      if (budget <? used + size) || match batches with [] => true | _ => false end
      then pack collector_id k (batches ++ [[o]]) size os'
      else pack collector_id k (push_last o batches) (used + size) os'
  end.

(** [reports], the stack's top being the last batch: what was encoded, with the
    outcomes each report holds. *)
Definition sent_reports (collector_id : bytes) (k : nat) (os : list TargetOutcome)
  : option (nat * list (list TargetOutcome * (uuid * bytes))) :=
  let '(k, batches) := pack collector_id k [] 0 os in
  halve (encode collector_id) (turns batches) k (rev batches).

Definition reports (collector_id : bytes) (k : nat) (os : list TargetOutcome) : option (nat * list (uuid * bytes)) :=
  let+ (k, sent) := sent_reports collector_id k os in Some (k, rev (map snd sent)).

(** ** Coverage *)

Lemma push_last_concat {A} (a : A) batches :
  batches <> [] -> concat (push_last a batches) = concat batches ++ [a].
Proof.
  intros H. induction batches as [|b [|b' bs] IH]; [done| |].
  - cbn. by rewrite !app_nil_r.
  - change (push_last a (b :: b' :: bs)) with (b :: push_last a (b' :: bs)). cbn [concat].
    rewrite IH by done. cbn [concat]. by rewrite <- !app_assoc.
Qed.

(** What [within_limit] makes of the outcomes, one after the other. *)
Fixpoint limited (collector_id : bytes) (k : nat) (os : list TargetOutcome) : list TargetOutcome :=
  match os with
  | [] => []
  | o :: os' => let '(k, o) := within_limit collector_id k o in o :: limited collector_id k os'
  end.

Lemma within_limit_address collector_id k o : address (snd (within_limit collector_id k o)) = address o.
Proof. unfold within_limit. destruct (outcome o); [|done]. by destruct (encode _ _ _). Qed.

Lemma limited_addresses collector_id os : forall k, map address (limited collector_id k os) = map address os.
Proof.
  induction os as [|o os IH]; intros k; [done|]. cbn [limited].
  pose proof (within_limit_address collector_id k o). destruct (within_limit _ k o) as [k' o'].
  cbn [map snd] in *. by rewrite IH, H.
Qed.

Lemma pack_concat collector_id os : forall k batches used,
  concat (snd (pack collector_id k batches used os)) = concat batches ++ limited collector_id k os.
Proof.
  induction os as [|o os IH]; intros k batches used; cbn [pack limited snd]; [by rewrite app_nil_r|].
  destruct (within_limit collector_id k o) as [k' o'].
  destruct ((_ <? _) || _) eqn:Hb; rewrite IH.
  - rewrite concat_app. cbn [concat]. by rewrite app_nil_r, <- app_assoc.
  - rewrite push_last_concat, <- app_assoc; [done|]. destruct batches; [|done]. by rewrite orb_true_r in Hb.
Qed.

Lemma turns_rev {A} (l : list (list A)) : turns (rev l) = turns l.
Proof.
  assert (forall a b : list (list A), turns (a ++ b) = (turns a + turns b)%nat) as Happ.
  { induction a as [|x a IH]; intros b; [done|]. unfold turns in *. cbn [app fold_right]. rewrite IH. lia. }
  induction l as [|x l IH]; [done|]. cbn [rev]. rewrite Happ, IH. unfold turns. cbn [fold_right]. lia.
Qed.

Lemma concat_rev_perm {A} (l : list (list A)) : concat (rev l) ≡ₚ concat l.
Proof.
  induction l as [|x l IH]; [done|]. cbn [rev concat]. rewrite concat_app. cbn [concat].
  rewrite app_nil_r, IH. apply Permutation_app_comm.
Qed.

Lemma sent_reports_spec collector_id k os :
  exists k' sent dropped, sent_reports collector_id k os = Some (k', sent) /\
    Forall (fun s => exists i, encode collector_id i (fst s) = Some (snd s)) sent /\
    (forall o, o ∈ dropped -> exists i, encode collector_id i [o] = None) /\
    limited collector_id k os ≡ₚ concat (map fst sent) ++ dropped.
Proof.
  unfold sent_reports. destruct (pack collector_id k [] 0 os) as [k1 batches] eqn:Ep.
  pose proof (pack_concat collector_id os k [] 0) as Hc. rewrite Ep in Hc. cbn [snd concat app] in Hc.
  destruct (halve_complete (encode collector_id) (turns batches) k1 (rev batches))
    as (k' & sent & dropped & E & He & _ & Hd & Hp & _).
  { rewrite <- turns_rev. apply weights_turns. }
  exists k', sent, dropped. split_and!; try done. by rewrite <- Hp, concat_rev_perm, Hc.
Qed.

Lemma encode_inv collector_id k os r :
  encode collector_id k os = Some r ->
  os <> [] /\ fst r = fst (stamp k) /\ to_vec (report_wire rfc3339 (report_of k collector_id os)) = Some (snd r) /\
  zlength (snd r) <= MAX_OBSERVATION_BYTES.
Proof.
  unfold encode. destruct os as [|o os]; [done|].
  destruct (to_vec _) as [body|] eqn:E; cbn [mbind option_bind]; [|done].
  destruct (Z.leb_spec (zlength body) MAX_OBSERVATION_BYTES); [|done]. intros [= <-]. done.
Qed.

(** A report on this target alone, with the [i]-th identifier and time, cannot be
    sent: it does not encode, or it is over the limit. *)
Definition cannot_send (collector_id : bytes) (i : nat) (o : TargetOutcome) : Prop :=
  match to_vec (report_wire rfc3339 (report_of i collector_id [o])) with
  | Some body => MAX_OBSERVATION_BYTES < zlength body
  | None => True
  end.

Lemma encode_one_none collector_id i o : encode collector_id i [o] = None <-> cannot_send collector_id i o.
Proof.
  unfold encode, cannot_send. destruct (to_vec _) as [body|]; cbn [mbind option_bind]; [|done].
  destruct (Z.leb_spec (zlength body) MAX_OBSERVATION_BYTES); split; intros; try done; lia.
Qed.

(** What a target is reported as: the outcome itself, or unreachable when a report on
    the switch alone could not be sent. *)
Definition reported_as (collector_id : bytes) (o o' : TargetOutcome) : Prop :=
  o' = o \/ exists r i, outcome o = Ok r /\ cannot_send collector_id i o /\ o' = mkOutcome (address o) (Err too_large).

Lemma limited_reported collector_id os : forall k, Forall2 (reported_as collector_id) os (limited collector_id k os).
Proof.
  induction os as [|o os IH]; intros k; cbn [limited]; [constructor|]. unfold within_limit.
  destruct (outcome o) as [r|e] eqn:Eo; [|constructor; [by left|apply IH]].
  destruct (encode collector_id k [o]) eqn:Ek; (constructor; [|apply IH]); [by left|].
  right. exists r, k. split_and!; [done|by apply encode_one_none|done].
Qed.

End reports.

(** A report claims a section complete only when it reached a switch and every
    switch it reached answered that section. *)
Lemma sections_of_exact os :
  let reached := omap (fun o => ok (outcome o)) os in
  interface_neighbors (sections_of os) = negb (bool_decide (reached = [])) && forallb (fun r => read_neighbors (snd r)) reached /\
  interface_vlans (sections_of os) = negb (bool_decide (reached = [])) && forallb (fun r => read_vlans (snd r)) reached.
Proof.
  intros reached. unfold sections_of.
  assert (forall r n v, fold_left (fun acc o => match outcome o with
      | Ok (_, s) => let '(_, n, v) := acc in (true, n && read_neighbors s, v && read_vlans s)
      | Err _ => acc end) os (r, n, v)
    = (r || negb (bool_decide (reached = [])), n && forallb (fun x => read_neighbors (snd x)) reached,
       v && forallb (fun x => read_vlans (snd x)) reached)) as H.
  { subst reached. induction os as [|o os IH]; intros r n v; cbn [fold_left omap list_omap].
    - cbn. by rewrite orb_false_r, !andb_true_r.
    - destruct (outcome o) as [[x s]|e]; cbn [ok]; rewrite IH; [|done]. cbn.
      by rewrite orb_true_r, <- !andb_assoc. }
  by rewrite H.
Qed.

(** ** Concrete encoders *)

Section samples.
#[local] Existing Instance tiny_uuid.
Abbreviation id0 := (U0 : @uuid tiny_uuid).

Definition sample_resource : CollectorResource := mkResource KSwitch None no_identifiers None None None.
Definition sample_outcomes : list TargetOutcome :=
  [mkOutcome (lit "a") (Ok (sample_resource, mkRead true false)); mkOutcome (lit "b") (Err (lit "no answer"))].

(** Written as JSON, both targets fit one report. *)
Example small_poll_one_report :
  exists k body, reports (fun _ => lit "2026-01-01T00:00:00Z") written (fun _ => (id0, 0)) (lit "c") 0 sample_outcomes
    = Some (k, [(id0, body)]).
Proof. eexists _, _. vm_compute. reflexivity. Qed.

(** The text of a time is longer when it has a fraction.  A switch whose report is
    exactly at the limit when it is measured no longer fits when the report is
    built a moment later, and its target is then in no report. *)
Definition at_the_limit (w : wire) : option bytes :=
  match w with
  | WObj (_ :: (_, WStr time) :: _) => Some (replicate (Z.to_nat 255999 + length time) 0)
  | _ => Some []
  end.

Theorem longer_time_loses_target :
  reports (fun t => replicate (Z.to_nat t) 48) at_the_limit (fun k => (id0, if Nat.eqb k 0 then 1 else 2)) (lit "c") 0
    [mkOutcome (lit "a") (Ok (sample_resource, mkRead true true))] = Some (2%nat, []).
Proof. vm_compute. reflexivity. Qed.
End samples.
