(* ===== verification/PowerCollector.v ===== *)
(** * power/collector.rs and power/mod.rs: power readings as telemetry

    What the PDU and BMC modules share: a poll's outcomes become telemetry
    batches and, when the targets show something new or a quarter of an hour has
    passed, inventory reports.  [Known] is what each target last served; it is
    sent as failed when the target stops answering.  [PowerSources] is the map of
    source statuses that check-ins report.  Readings are IEEE binary64. *)

From Stdlib Require Import String SpecFloat.
From stdpp Require Import sorting.
From S2P Require Import Prelude Text Floats Interfaces Payload Batching Client SwitchReport Queue.

Definition INVENTORY_INTERVAL : Z := from_secs 900.
Definition TARGETS_PER_REPORT : nat := 100.
Definition SAMPLES_PER_BATCH : nat := 1000.
Definition MAX_FRESH_FOR_SECONDS : Z := 86400.
Definition FRESH_FOR_SECONDS : Z := 300.

Inductive Measurement := Value (f : spec_float) | State (s : bytes) | FailedRead.

Record Reading := mkReading {
  sensor : bytes; boundary : bytes; quantity : bytes; component : option (bytes * bytes);
  leg : option bytes; measurement : Measurement }.

Definition unit_of (r : Reading) : option bytes :=
  if str_eqb (quantity r) (lit "real_power") then Some (lit "W")
  else if str_eqb (quantity r) (lit "apparent_power") then Some (lit "VA")
  else if str_eqb (quantity r) (lit "current") then Some (lit "A")
  else if str_eqb (quantity r) (lit "power_factor") then Some (lit "1")
  else None.

Definition coverage_of (r : Reading) : option bytes :=
  if str_eqb (boundary r) (lit "feed") then Some (lit "complete") else None.

Record Device := mkDevice {
  mapping : bytes; mapping_version : Z; device_resource : CollectorResource; readings : list Reading }.

Inductive TargetError := TUnreachable (m : bytes) | TNotPermitted (m : bytes) | TUnsupported (m : bytes).

Definition error_message (e : TargetError) : bytes :=
  match e with TUnreachable m | TNotPermitted m | TUnsupported m => m end.

Record Outcome := mkPolled { p_address : bytes; read_at : Z; p_result : result Device TargetError }.

Definition source_status (os : list Outcome) : bytes :=
  let any p := existsb (fun o => p (p_result o)) os in
  if any is_ok then lit "available"
  else if any (fun r => match r with Err (TNotPermitted _) => true | _ => false end) then lit "not_permitted"
  else if any (fun r => match r with Err (TUnsupported _) => true | _ => false end) then lit "not_present"
  else lit "unreachable".

Definition source (kind : CollectorKind) (collector_id : bytes) : bytes := kind_str kind ++ lit "/" ++ collector_id.

(** ** Power sources *)

Abbreviation PowerSources := (gmap bytes bytes).

Definition publish (src st : bytes) (m : PowerSources) : PowerSources := <[src := st]> m.
Definition retain (keep : bytes -> bool) (m : PowerSources) : PowerSources :=
  filter (fun kv => keep (fst kv) = true) m.
(** The map's order: names by their bytes. *)
Definition by_name (a b : bytes * bytes) : Prop := bytes_leb (fst a) (fst b) = true.
#[export] Instance by_name_dec : RelDecision by_name.
Proof. intros a b. unfold by_name. apply bool_eq_dec. Defined.

(** In the map's order of names; [None] before the first sample. *)
Definition source_reports (m : PowerSources) : option (list PowerSourceReport) :=
  if bool_decide (m = ∅) then None
  else Some (map (fun kv => mkPowerSource (fst kv) (snd kv))
               (merge_sort by_name (map_to_list m))).

Definition retain_sources (kind : CollectorKind) (ids : list bytes) (m : PowerSources) : PowerSources :=
  let prefix := kind_str kind ++ lit "/" in
  let configured := map (source kind) ids in
  retain (fun name => negb (starts_with prefix name) || existsb (fun k => str_eqb k name) configured) m.

(** ** Samples *)

Definition sample (target : bytes) (r : Reading) (m : SampleMapping) (failed : bool) (at_ fresh : Z) : TelemetrySample :=
  let '(status, value, state) :=
    if failed then (lit "failed", None, None)
    else match measurement r with
         | Value f => if is_finite f then (lit "valid", Some f, None) else (lit "failed", None, None)
         | State s => (lit "valid", None, Some s)
         | FailedRead => (lit "failed", None, None)
         end in
  mkSample (Some target) (sensor r) (boundary r) (quantity r) (unit_of r)
    ((fun c => mkSampleComponent (fst c) (snd c)) <$> component r) (leg r) (coverage_of r) status (lit "native")
    value state (mkWindow at_ at_) at_ m fresh.

Definition fresh_for_seconds (interval : Z) : Z :=
  let s := Z.min (Z.min (as_secs interval * 3) U64_MAX + as_secs FLUSH_INTERVAL) U64_MAX in
  let s := Z.max FRESH_FOR_SECONDS (Z.min s MAX_FRESH_FOR_SECONDS) in
  if s <=? U32_MAX then s else U32_MAX.

(** What each target last served, by address. *)
Abbreviation Known := (gmap bytes (bytes * Z * list Reading)).

Definition forget_others (os : list Outcome) (known : Known) : Known :=
  filter (fun kv => existsb (fun o => str_eqb (p_address o) (fst kv)) os = true) known.

(** The loop of [batches] that gathers the samples. *)
Fixpoint gather (os : list Outcome) (known : Known) (fresh : Z) : Known * list TelemetrySample :=
  match os with
  | [] => (known, [])
  | o :: os' =>
      match p_result o with
      | Ok d =>
          let '(known', rest) := gather os' (<[p_address o := (mapping d, mapping_version d, readings d)]> known) fresh in
          (known', map (fun r => sample (p_address o) r (mkMapping (mapping d) (mapping_version d)) false (read_at o) fresh)
                     (readings d) ++ rest)
      | Err _ =>
          match known !! p_address o with
          | Some (m, v, rs) =>
              let '(known', rest) := gather os' known fresh in
              (known', map (fun r => sample (p_address o) r (mkMapping m v) true (read_at o) fresh) rs ++ rest)
          | None => gather os' known fresh
          end
      end
  end.

Section collector.
Context {U : Uuid}.
Variables (rfc3339 : Z -> bytes) (to_vec : wire -> option bytes) (stamp : nat -> uuid * Z).

Definition encode_batch (c : Collector) (k : nat) (l : list TelemetrySample) : option TelemetryBatch :=
  let batch := batch_of_collector (fst (stamp k)) (col_id c) (col_kind c) l in
  match to_vec (batch_wire rfc3339 batch) with
  | Some body => if zlength body <=? MAX_TELEMETRY_BYTES then Some batch else None
  | None => None
  end.

(** [batches]; [k] counts the batches built before. *)
Definition batches (c : Collector) (k : nat) (os : list Outcome) (known : Known) (fresh : Z)
  : Known * option (nat * list TelemetryBatch) :=
  let '(known, samples) := gather os (forget_others os known) fresh in
  let pending := chunks SAMPLES_PER_BATCH samples in
  (known, let+ (k, sent) := halve (encode_batch c) (turns pending) k pending in Some (k, map snd sent)).

(** ** Inventory reports *)

Definition outcome_status (o : Outcome) : TargetStatus :=
  match p_result o with
  | Ok _ => mkTargetStatus (p_address o) Reachable None
  | Err e => mkTargetStatus (p_address o) Unreachable (Some (cut (error_message e)))
  end.

Definition outcome_resource (o : Outcome) : option CollectorResource :=
  match p_result o with
  | Ok d =>
      let r := device_resource d in
      Some (mkResource (cr_kind r) (Some (p_address o)) (cr_identifiers r) (cr_attributes r) (cr_interfaces r) (cr_domain r))
  | Err _ => None
  end.

Definition device_report (k : nat) (c : Collector) (os : list Outcome) : ScopedReport :=
  report_new (fst (stamp k)) (snd (stamp k)) c (Targets (map outcome_status os)) true (omap outcome_resource os).

Fixpoint encode_reports (k : nat) (c : Collector) (pieces : list (list Outcome)) : nat * list (uuid * bytes) :=
  match pieces with
  | [] => (k, [])
  | piece :: pieces' =>
      let report := device_report k c piece in
      let '(k', rest) := encode_reports (S k) c pieces' in
      (k', match to_vec (report_wire rfc3339 report) with
           | Some body => if zlength body <=? MAX_OBSERVATION_BYTES then (report_id report, body) :: rest else rest
           | None => rest
           end)
  end.

Definition device_reports (k : nat) (c : Collector) (os : list Outcome) : nat * list (uuid * bytes) :=
  encode_reports k c (chunks TARGETS_PER_REPORT os).

Definition shown (os : list Outcome) : list (bytes * option bytes) :=
  map (fun o => (p_address o, match p_result o with Ok d => to_vec (resource_wire (device_resource d)) | Err _ => None end)) os.

(** ** What [run] keeps from poll to poll *)

Record module := mkModule {
  known : Known;
  reported : option (Z * list (bytes * option bytes));    (* when and what was last reported *)
  sources : PowerSources;                                 (* the statuses shared with check-ins *)
  built : nat }.                                          (* batches and reports built so far *)

(** When the devices were last reported as they are now; without it a report is due at once. *)
Definition reported_as_shown (m : module) (os : list Outcome) : option Z :=
  let+ (at_, before) := reported m in if bool_decide (before = shown os) then Some at_ else None.
Definition inventory_due (at_ : option Z) (now : Z) : bool :=
  match at_ with None => true | Some at_ => INVENTORY_INTERVAL <=? since now at_ end.

(** The batches a poll queues: each is encoded again to be handed over. *)
Definition encoded_batches (l : list TelemetryBatch) : list (uuid * bytes) :=
  omap (fun b => (fun body => (replay_id b, body)) <$> to_vec (batch_wire rfc3339 b)) l.

(** After a poll that was not cancelled: its status is published and its readings are
    batched for the telemetry sink. *)
Definition poll_turn (c : Collector) (interval : Z) (os : list Outcome) (m : module) : option (module * list (uuid * bytes)) :=
  let sources := publish (source (col_kind c) (col_id c)) (source_status os) (sources m) in
  let '(known', r) := batches c (built m) os (known m) (fresh_for_seconds interval) in
  let+ (k, bs) := r in
  Some (mkModule known' (reported m) sources k, encoded_batches bs).

(** The reports of a poll for which they are due, and, when they were handed over at
    [now], what is noted. *)
Definition inventory_turn (c : Collector) (os : list Outcome) (m : module) : list (uuid * bytes) * (Z -> module) :=
  let '(k, rs) := device_reports (built m) c os in
  (rs, fun now => mkModule (known m) (Some (now, shown os)) (sources m) k).
End collector.

(** ** What a poll sends *)

(** A target's samples, given what it last served. *)
Definition samples_for (known : Known) (fresh : Z) (o : Outcome) : list TelemetrySample :=
  match p_result o with
  | Ok d => map (fun r => sample (p_address o) r (mkMapping (mapping d) (mapping_version d)) false (read_at o) fresh) (readings d)
  | Err _ => match known !! p_address o with
             | Some (m, v, rs) => map (fun r => sample (p_address o) r (mkMapping m v) true (read_at o) fresh) rs
             | None => []
             end
  end.

(** What a target is known to serve after the poll. *)
Definition served (known : Known) (o : Outcome) : option (bytes * Z * list Reading) :=
  match p_result o with
  | Ok d => Some (mapping d, mapping_version d, readings d)
  | Err _ => known !! p_address o
  end.

Lemma gather_spec fresh os : forall known known' samples,
  NoDup (map p_address os) -> gather os known fresh = (known', samples) ->
  samples = concat (map (samples_for known fresh) os) /\
  (forall o, o ∈ os -> known' !! p_address o = served known o) /\
  (forall a, a ∉ map p_address os -> known' !! a = known !! a).
Proof.
  induction os as [|o os IH]; intros known known' samples Hn; cbn [gather map concat].
  { intros [= <- <-]. split_and!; [done|by inversion 1|done]. }
  apply list.NoDup_cons in Hn as [Ho Hn].
  assert (forall k1 rest head, gather os k1 fresh = (known', rest) -> samples = head ++ rest ->
    (forall a, a <> p_address o -> k1 !! a = known !! a) -> k1 !! p_address o = served known o ->
    head = samples_for known fresh o ->
    samples = samples_for known fresh o ++ concat (map (samples_for known fresh) os) /\
    (forall x, x ∈ o :: os -> known' !! p_address x = served known x) /\
    (forall a, a ∉ p_address o :: map p_address os -> known' !! a = known !! a)) as Hstep.
  { intros k1 rest head E -> Hk Hk1 ->. destruct (IH _ _ _ Hn E) as (-> & Hs & Hf).
    assert (forall x, x ∈ os -> p_address x <> p_address o) as Hne.
    { intros x Hx Hxo. apply Ho. rewrite <- Hxo. by apply list_elem_of_fmap_2. }
    split_and!.
    - f_equal. f_equal. apply map_ext_in. intros x Hx%list_elem_of_In. unfold samples_for.
      by rewrite (Hk (p_address x)) by (by apply Hne).
    - intros x [->|Hx]%elem_of_cons; [by rewrite Hf|]. rewrite Hs by done. unfold served.
      by rewrite (Hk (p_address x)) by (by apply Hne).
    - intros a [Hao Ha]%not_elem_of_cons. by rewrite Hf, Hk. }
  unfold samples_for at 1, served in Hstep. destruct (p_result o) as [d|e] eqn:Er.
  - destruct (gather os (<[_ := _]> known) fresh) as [k2 rest] eqn:E. intros [= <- <-].
    eapply Hstep; [exact E|done|intros a Ha; by rewrite lookup_insert_ne|by rewrite lookup_insert_eq|done].
  - destruct (known !! p_address o) as [[[m v] rs]|] eqn:Ek.
    + destruct (gather os known fresh) as [k2 rest] eqn:E. intros [= <- <-].
      by eapply Hstep; [exact E|..].
    + intros E. by eapply (Hstep known samples []); [exact E|..].
Qed.

Lemma forget_lookup (os : list Outcome) (known : Known) (o : Outcome) :
  o ∈ os -> forget_others os known !! p_address o = known !! p_address o.
Proof.
  intros Ho. unfold forget_others. destruct (known !! p_address o) as [x|] eqn:E.
  - apply map_lookup_filter_Some. split; [done|]. cbn. apply existsb_exists. exists o.
    split; [by apply list_elem_of_In|apply str_eqb_refl].
  - apply map_lookup_filter_None. by left.
Qed.

Section telemetry.
Context {U : Uuid}.
Variables (rfc3339 : Z -> bytes) (to_vec : wire -> option bytes) (stamp : nat -> uuid * Z).

Lemma encode_batch_inv c k l b :
  encode_batch rfc3339 to_vec stamp c k l = Some b ->
  b = batch_of_collector (fst (stamp k)) (col_id c) (col_kind c) l /\
  exists body, to_vec (batch_wire rfc3339 b) = Some body /\ zlength body <= MAX_TELEMETRY_BYTES.
Proof.
  unfold encode_batch. destruct (to_vec _) as [body|] eqn:E; [|done].
  destruct (Z.leb_spec (zlength body) MAX_TELEMETRY_BYTES); [|done]. intros [= <-]. eauto.
Qed.

(** A sample of a reading that was not read carries no number and no state. *)
Lemma failed_sample target r m at_ fresh :
  t_status (sample target r m true at_ fresh) = lit "failed" /\
  t_value (sample target r m true at_ fresh) = None /\ t_state (sample target r m true at_ fresh) = None.
Proof. done. Qed.

(** A batch of this sample alone, with the [i]-th identifier, cannot be sent. *)
Definition cannot_batch (c : Collector) (i : nat) (t : TelemetrySample) : Prop :=
  match to_vec (batch_wire rfc3339 (batch_of_collector (fst (stamp i)) (col_id c) (col_kind c) [t])) with
  | Some body => MAX_TELEMETRY_BYTES < zlength body
  | None => True
  end.

Lemma encode_batch_none c i t : encode_batch rfc3339 to_vec stamp c i [t] = None -> cannot_batch c i t.
Proof.
  unfold encode_batch, cannot_batch. destruct (to_vec _) as [body|]; [|done].
  by destruct (Z.leb_spec (zlength body) MAX_TELEMETRY_BYTES).
Qed.

(** [t] is what a target sends for a reading it gave: a finite number or a state as it
    is, anything else as failed. *)
Definition sends_reading (o : Outcome) (r : Reading) (t : TelemetrySample) : Prop :=
  t_target t = Some (p_address o) /\ t_sensor t = sensor r /\ t_quantity t = quantity r /\ t_event_at t = read_at o /\
  ((t_status t = lit "valid" /\
    ((exists f, measurement r = Value f /\ is_finite f = true /\ t_value t = Some f /\ t_state t = None) \/
     (exists s, measurement r = State s /\ t_value t = None /\ t_state t = Some s))) \/
   (t_status t = lit "failed" /\ t_value t = None /\ t_state t = None /\
    (measurement r = FailedRead \/ exists f, measurement r = Value f /\ is_finite f = false))).

Lemma sample_sends o r m fresh : sends_reading o r (sample (p_address o) r m false (read_at o) fresh).
Proof.
  unfold sends_reading, sample. destruct (measurement r) as [f|s|]; [destruct (is_finite f) eqn:Hf|..]; cbn; eauto 15.
Qed.


(** A valid number is finite, and a reading is current for five minutes to a day. *)
Lemma sample_value target r m failed at_ fresh f :
  t_value (sample target r m failed at_ fresh) = Some f ->
  is_finite f = true /\ failed = false /\ measurement r = Value f /\ t_status (sample target r m failed at_ fresh) = lit "valid".
Proof.
  unfold sample. destruct failed; [done|]. destruct (measurement r) as [g|s|]; [|done..].
  destruct (is_finite g) eqn:Hg; cbn [t_value t_status]; [|done]. by intros [= <-].
Qed.

Lemma fresh_for_bounds interval : FRESH_FOR_SECONDS <= fresh_for_seconds interval <= MAX_FRESH_FOR_SECONDS.
Proof.
  unfold fresh_for_seconds, FRESH_FOR_SECONDS, MAX_FRESH_FOR_SECONDS, U32_MAX.
  match goal with |- context [if ?b then _ else _] => destruct b eqn:Hb end; bool_simpl; lia.
Qed.
End telemetry.

Section sample_poll.
#[local] Existing Instance tiny_uuid.
Abbreviation id0 := (U0 : @uuid tiny_uuid).

Definition meter : Reading := mkReading (lit "inlet") (lit "feed") (lit "real_power") None None (Value (S754_zero false)).
Definition silent : list Outcome := [mkPolled (lit "pdu") 5 (Err (TUnreachable (lit "no answer")))].

End sample_poll.
