(* ===== verification/Hwmon.v ===== *)
(** * power/hwmon.rs and power/mod.rs: the host's own power sensors

    A scan reads files of sysfs.  It asks about each path at most once, so what it
    sees is a function of the path: [sysfs].  Paths are texts joined with a slash. *)

From Stdlib Require Import String SpecFloat.
From stdpp Require Import sorting.
From S2P Require Import Prelude Text Floats Interfaces Payload Queue PowerCollector.

#[local] Set Warnings "-notation-overridden".

Definition MAPPING : bytes := lit "hwmon".
Definition MAPPING_VERSION : Z := 1.
Definition MAX_INTERVAL_MS : Z := 86400000.
Definition MAX_SENSOR_CHARS : Z := 255.
Definition SAMPLE_INTERVAL : Z := from_secs 60.

Definition SUPPLY_NAMES : list bytes :=
  map lit ["cffps1"; "cffps2"; "dps920ab"; "ibm_cffps1"; "ibm_cffps2"; "ipsps1"; "pfe1100"; "pfe3000"; "yh5151e"; "ym2151e"]%string.

Inductive Boundary := HostInput | SupplyInput | SupplyOutput.
#[export] Instance Boundary_eq_dec : EqDecision Boundary.
Proof. solve_decision. Defined.
Definition boundary_str (b : Boundary) : bytes :=
  match b with HostInput => lit "host_input" | SupplyInput => lit "supply_input" | SupplyOutput => lit "supply_output" end.

Record SensorError := mkSensorError { s_message : bytes; s_denied : bool }.
Record HwReading := mkHwReading {
  hw_sensor : bytes; hw_boundary : Boundary; hw_watts : result f64 SensorError; hw_window : Z }.
Inductive Availability := Available | NotPermitted | NotPresent.
Definition availability_str (a : Availability) : bytes :=
  match a with Available => lit "available" | NotPermitted => lit "not_permitted" | NotPresent => lit "not_present" end.
Record Scan := mkScan { readings : list HwReading; availability : Availability }.

(** An [io::Error]: whether its kind is [PermissionDenied], and its text. *)
Record sys_error := mkSysError { permission_denied : bool; sys_text : bytes }.
Record sysfs := mkSysfs {
  list_dir : bytes -> result (list bytes) sys_error;       (* names, in any order *)
  read_text : bytes -> result bytes sys_error;             (* [fs::read_to_string] *)
  exists_ : bytes -> bool;
  canonicalize : bytes -> result bytes sys_error }.

Definition join_path (dir name : bytes) : bytes := dir ++ lit "/" ++ name.

Section scan.
(** What sysfs shows, [{:?}] of a text, and [str::parse::<u32>]'s limits are std's. *)
Context (fs : sysfs) (quoted : bytes -> bytes).

Definition read_trimmed (path : bytes) : result bytes sys_error :=
  let? v := read_text fs path in Ok (trim v).

(** A missing file as [None], keeping permission errors. *)
Definition optional {A} (r : result A sys_error) : result (option A) sys_error :=
  match r with
  | Ok v => Ok (Some v)
  | Err e => if permission_denied e then Err e else Ok None
  end.

Definition attributes (chip : bytes) : result (option (bytes * bytes)) sys_error :=
  let? own := optional (read_trimmed (join_path chip (lit "name"))) in
  match own with
  | Some name => Ok (Some (chip, name))
  | None =>
      let dir := join_path chip (lit "device") in
      let? parent := optional (read_trimmed (join_path dir (lit "name"))) in
      Ok (option_map (fun name => (dir, name)) parent)
  end.

(** The first of [files] with a non-empty ACPI path. *)
Fixpoint acpi_path (files : list bytes) : result (option bytes) sys_error :=
  match files with
  | [] => Ok None
  | file :: files' =>
      let? path := optional (read_trimmed file) in
      match path with
      | Some (b :: p) => Ok (Some (lit "acpi:" ++ b :: p))
      | _ => acpi_path files'
      end
  end.

Definition firmware_node (chip : bytes) : result (option bytes) sys_error :=
  let device := join_path chip (lit "device") in
  let? node := optional (canonicalize fs (join_path device (lit "of_node"))) in
  let dt := match node with
            | Some n => match split_once_str (lit "/devicetree/base/") (from_utf8_lossy n) with
                        | Some (_, b :: p) => Some (lit "dt:" ++ b :: p)
                        | _ => None
                        end
            | None => None
            end in
  match dt with
  | Some d => Ok (Some d)
  | None => acpi_path [join_path (join_path device (lit "firmware_node")) (lit "path"); join_path device (lit "path")]
  end.

Definition channel (file : bytes) : option Z :=
  match strip_prefix (lit "power") file with
  | None => None
  | Some rest =>
      match split_once 95 rest with
      | None => None
      | Some (number, kind) =>
          if str_eqb kind (lit "input") || str_eqb kind (lit "average") then parse_uint U32_MAX number else None
      end
  end.

Definition boundary (driver : bytes) (label : option bytes) : option Boundary :=
  if negb (existsb (str_eqb driver) SUPPLY_NAMES) then None
  else match label with
       | None => None
       | Some l =>
           let l := to_ascii_lowercase l in
           if starts_with (lit "pin") l then Some SupplyInput
           else if starts_with (lit "pout") l then Some SupplyOutput
           else None
       end.

Definition cannot_read (file : bytes) (e : sys_error) : SensorError :=
  mkSensorError (lit "cannot read " ++ file ++ lit ": " ++ sys_text e) (permission_denied e).

Definition interval (file : bytes) : result Z SensorError :=
  let? ms := map_err (cannot_read file) (read_trimmed file) in
  match parse_uint U64_MAX ms with
  | Some n => if (1 <=? n) && (n <=? MAX_INTERVAL_MS) then Ok (from_millis n)
              else Err (mkSensorError (file ++ lit " is not an averaging interval from 1 to 86400000 ms: " ++ quoted ms) false)
  | None => Err (mkSensorError (file ++ lit " is not an averaging interval from 1 to 86400000 ms: " ++ quoted ms) false)
  end.

(** [microwatts as f64 / 1_000_000.0]. *)
Definition microwatts (n : Z) : f64 := f64_div (f64_of_Z n) (f64_of_Z 1000000).

Definition watts_in (file : bytes) : result f64 SensorError :=
  let? text := map_err (cannot_read file) (read_trimmed file) in
  match parse_uint U64_MAX text with
  | Some n => Ok (microwatts n)
  | None => Err (mkSensorError (file ++ lit " is not a power reading: " ++ quoted text) false)
  end.

Definition reading (dir prefix sensor : bytes) (b : Boundary) : HwReading :=
  let average := join_path dir (prefix ++ lit "_average") in
  if exists_ fs average then
    match interval (join_path dir (prefix ++ lit "_average_interval")) with
    | Ok window => mkHwReading sensor b (watts_in average) window
    | Err e => mkHwReading sensor b (Err e) 0
    end
  else mkHwReading sensor b (watts_in (join_path dir (prefix ++ lit "_input"))) 0.

Fixpoint insert_sorted (n : Z) (l : list Z) : list Z :=
  match l with
  | [] => [n]
  | m :: l' => if n <? m then n :: l else if n =? m then l else m :: insert_sorted n l'
  end.
(** [sort_unstable] and [dedup]. *)
Definition sorted_channels (l : list Z) : list Z := fold_right insert_sorted [] l.

(** The loop over the channels of a chip. *)
Fixpoint channel_readings (dir name device : bytes) (channels : list Z) : result (list HwReading) sys_error :=
  match channels with
  | [] => Ok []
  | n :: channels' =>
      let prefix := lit "power" ++ show_u64 n in
      let? label := optional (read_trimmed (join_path dir (prefix ++ lit "_label"))) in
      let? rest := channel_readings dir name device channels' in
      match boundary name label with
      | None => Ok rest
      | Some b =>
          let sensor := name ++ lit "/" ++ device ++ lit "/" ++ prefix in
          if MAX_SENSOR_CHARS <? chars_count sensor then Ok rest
          else Ok (reading dir prefix sensor b :: rest)
      end
  end.

Definition chip_readings (chip : bytes) : result (list HwReading) sys_error :=
  let? found := attributes chip in
  match found with
  | None => Ok []
  | Some (dir, name) =>
      if negb (existsb (str_eqb name) SUPPLY_NAMES) then Ok []
      else
        let? node := firmware_node chip in
        match node with
        | None => Ok []
        | Some device =>
            let? files := list_dir fs dir in
            channel_readings dir name device (sorted_channels (omap (fun f => channel (from_utf8_lossy f)) files))
        end
  end.

(** The loop over the chips: the readings, and whether anything was refused. *)
Fixpoint chips_readings (chips : list bytes) : list HwReading * bool :=
  match chips with
  | [] => ([], false)
  | chip :: chips' =>
      let '(rest, denied) := chips_readings chips' in
      match chip_readings chip with
      | Ok l => (l ++ rest, denied)
      | Err e => (rest, permission_denied e || denied)
      end
  end.

Definition path_le (a b : bytes) : Prop := bytes_leb a b = true.
#[local] Instance path_le_dec a b : Decision (path_le a b).
Proof. unfold path_le. apply _. Defined.

Definition scan (root : bytes) : Scan :=
  match list_dir fs root with
  | Err e => mkScan [] (if permission_denied e then NotPermitted else NotPresent)
  | Ok names =>
      let '(found, denied) := chips_readings (merge_sort path_le (map (join_path root) names)) in
      mkScan found
        (if existsb (fun r => is_ok (hw_watts r)) found then Available
         else if denied || existsb (fun r => match hw_watts r with Err e => s_denied e | Ok _ => false end) found
              then NotPermitted else NotPresent)
  end.

(** ** The host's batch *)

Context {U : Uuid} (rfc3339 : Z -> bytes) (to_vec : wire -> option bytes).

(** [to_sample]; [now] counts nanoseconds, and [now - window] is always representable. *)
Definition host_sample (r : HwReading) (now : Z) : TelemetrySample :=
  let '(status, value) := match hw_watts r with Ok w => (lit "valid", Some w) | Err _ => (lit "failed", None) end in
  mkSample None (hw_sensor r) (boundary_str (hw_boundary r)) (lit "real_power") (Some (lit "W")) None None None
    status (lit "native") value None (mkWindow (now - hw_window r) now) now
    (mkMapping MAPPING MAPPING_VERSION) FRESH_FOR_SECONDS.

Definition host_batch (id : uuid) (l : list HwReading) (now : Z) : TelemetryBatch :=
  batch_host id (map (fun r => host_sample r now) l).

(** [sample]: the status published, and the batch given to the sink, if any. *)
Definition sample_host (root : bytes) (id : uuid) (now : Z) (sources : PowerSources) : PowerSources * option (uuid * bytes) :=
  let s := scan root in
  (publish MAPPING (availability_str (availability s)) sources,
   match readings s with
   | [] => None
   | l => match to_vec (batch_wire rfc3339 (host_batch id l now)) with
          | Some body => if zlength body <=? MAX_TELEMETRY_BYTES then Some (id, body) else None
          | None => None
          end
   end).

(** ** What a scan guarantees *)

(** A wattage is the number of microwatts in one file: the average's, over the
    interval its driver declares, if there is an average, and the input's otherwise. *)
Definition honest_watts (dir prefix : bytes) (r : HwReading) : Prop :=
  forall w, hw_watts r = Ok w ->
    exists file text n, read_text fs file = Ok text /\ parse_uint U64_MAX (trim text) = Some n /\ w = microwatts n /\
      if exists_ fs (join_path dir (prefix ++ lit "_average"))
      then file = join_path dir (prefix ++ lit "_average") /\
           interval (join_path dir (prefix ++ lit "_average_interval")) = Ok (hw_window r) /\ 0 < hw_window r
      else file = join_path dir (prefix ++ lit "_input") /\ hw_window r = 0.

Lemma interval_bounds file w : interval file = Ok w -> from_millis 1 <= w <= from_millis MAX_INTERVAL_MS.
Proof.
  unfold interval. intros H. apply result_bind_ok in H as (ms & _ & H).
  destruct (parse_uint U64_MAX ms) as [n|]; [|done]. destruct ((1 <=? n) && (n <=? MAX_INTERVAL_MS)) eqn:Hn; [|done].
  injection H as <-. apply andb_true_iff in Hn as [H1 H2]. unfold from_millis. lia.
Qed.

Lemma watts_in_ok file w : watts_in file = Ok w ->
  exists text n, read_text fs file = Ok text /\ parse_uint U64_MAX (trim text) = Some n /\ w = microwatts n.
Proof.
  unfold watts_in, read_trimmed. destruct (read_text fs file) as [text|e]; [|done]. cbn.
  destruct (parse_uint U64_MAX (trim text)) as [n|] eqn:En; [|done]. intros [= <-]. by exists text, n.
Qed.

Lemma reading_honest dir prefix sensor b :
  let r := reading dir prefix sensor b in
  hw_sensor r = sensor /\ hw_boundary r = b /\ 0 <= hw_window r <= from_millis MAX_INTERVAL_MS /\ honest_watts dir prefix r.
Proof.
  unfold reading, honest_watts. destruct (exists_ fs (join_path dir (prefix ++ lit "_average"))).
  - destruct (interval _) as [w|e] eqn:Ei; cbn [hw_sensor hw_boundary hw_window hw_watts].
    + pose proof (interval_bounds _ _ Ei) as Hw. unfold from_millis in *. split_and!; try done; try lia.
      intros x Hx. apply watts_in_ok in Hx as (text & n & ? & ? & ?). eexists _, text, n. split_and!; try done. lia.
    + split_and!; try done.
  - cbn [hw_sensor hw_boundary hw_window hw_watts]. split_and!; try done.
    intros x Hx. apply watts_in_ok in Hx as (text & n & ? & ? & ?). by eexists _, text, n.
Qed.

(** One sensor of a supply: named by the driver, the device's place in the firmware
    and the channel. *)
Definition supply_reading (r : HwReading) : Prop :=
  exists dir name device n,
    let prefix := lit "power" ++ show_u64 n in
    name ∈ SUPPLY_NAMES /\ hw_sensor r = name ++ lit "/" ++ device ++ lit "/" ++ prefix /\
    chars_count (hw_sensor r) <= MAX_SENSOR_CHARS /\ hw_boundary r <> HostInput /\
    0 <= hw_window r <= from_millis MAX_INTERVAL_MS /\ honest_watts dir prefix r.

Lemma boundary_supply driver label b : boundary driver label = Some b -> driver ∈ SUPPLY_NAMES /\ b <> HostInput.
Proof.
  unfold boundary. destruct (existsb (str_eqb driver) SUPPLY_NAMES) eqn:He; [|done]. cbn [negb].
  apply existsb_exists in He as (x & Hx & ->%str_eqb_eq). destruct label as [l|]; [|done].
  intros Hb. split; [by apply list_elem_of_In|].
  destruct (starts_with (lit "pin") _); [by injection Hb as <-|].
  destruct (starts_with (lit "pout") _); [by injection Hb as <-|done].
Qed.

Lemma channel_readings_supply dir name device channels : forall l,
  channel_readings dir name device channels = Ok l -> Forall supply_reading l.
Proof.
  induction channels as [|n channels IH]; intros l Hl; cbn [channel_readings] in Hl; [by injection Hl as <-|].
  apply result_bind_ok in Hl as (label & _ & Hl). apply result_bind_ok in Hl as (rest & Hr & Hl). specialize (IH rest Hr).
  destruct (boundary name label) as [b|] eqn:Hb; [|by injection Hl as <-].
  destruct (MAX_SENSOR_CHARS <? _) eqn:Hc; [by injection Hl as <-|]. injection Hl as <-. constructor; [|done].
  apply boundary_supply in Hb as [Hname Hb].
  pose proof (reading_honest dir (lit "power" ++ show_u64 n) (name ++ lit "/" ++ device ++ lit "/" ++ lit "power" ++ show_u64 n) b) as Hh.
  set (r := reading _ _ _ _) in *. destruct Hh as (Hs & Hbd & Hw & Hh). exists dir, name, device, n.
  split_and!; try done; [|by rewrite Hbd| |]; try apply Hw. rewrite Hs. apply Z.ltb_ge in Hc. done.
Qed.

Lemma chip_readings_supply chip l : chip_readings chip = Ok l -> Forall supply_reading l.
Proof.
  unfold chip_readings. intros H. apply result_bind_ok in H as ([[dir name]|] & _ & H); [|by injection H as <-].
  destruct (negb _); [by injection H as <-|]. apply result_bind_ok in H as ([device|] & _ & H); [|by injection H as <-].
  apply result_bind_ok in H as (files & _ & H). by eapply channel_readings_supply.
Qed.

Lemma chips_readings_supply chips : Forall supply_reading (fst (chips_readings chips)).
Proof.
  induction chips as [|chip chips IH]; cbn [chips_readings]; [constructor|].
  destruct (chips_readings chips) as [rest denied]. cbn [fst] in IH.
  destruct (chip_readings chip) as [l|e] eqn:E1; [|done]. cbn [fst]. apply list.Forall_app. split; [|done].
  by eapply chip_readings_supply.
Qed.

Definition refused (s : Scan) : Prop := exists r e, r ∈ readings s /\ hw_watts r = Err e /\ s_denied e = true.

(** What a scan of the host's sensors reports: only sensors of known power
    supplies, never the host's input; each number is what one file holds, an
    average only over the interval its driver declares (1 ms to a day) and never
    passed off as instantaneous; the source is available exactly when something
    was read, and called not permitted only if a permission was refused. *)
Theorem hwmon_reports_only_what_it_read (root : bytes) :
  let s := scan root in
  Forall supply_reading (readings s) /\
  (availability s = Available <-> exists r w, r ∈ readings s /\ hw_watts r = Ok w) /\
  (refused s -> availability s <> NotPresent) /\
  (forall e, list_dir fs root = Err e -> readings s = [] /\ (availability s = NotPermitted <-> permission_denied e = true)).
Proof.
  unfold scan, refused. destruct (list_dir fs root) as [names|e].
  2: { cbn. split; [constructor|]. split; [|split].
       - destruct (permission_denied e); split; try done; by intros (? & ? & ?%not_elem_of_nil & _).
       - by intros (? & ? & ?%not_elem_of_nil & _).
       - intros ? [= <-]. split; [done|]. by destruct (permission_denied e). }
  pose proof (chips_readings_supply (merge_sort path_le (map (join_path root) names))) as Hs.
  destruct (chips_readings _) as [found denied]. cbn [fst] in Hs. cbn [readings availability].
  split; [done|]. split; [|split].
  - destruct (existsb (fun r => is_ok (hw_watts r)) found) eqn:He.
    + apply existsb_exists in He as (r & Hr & Hok). split; [|done]. intros _. destruct (hw_watts r) as [w|] eqn:Ew; [|done].
      exists r, w. split; [by apply list_elem_of_In|done].
    + split; [by destruct (denied || _)|]. intros (r & w & Hr & Hw). exfalso.
      assert (existsb (fun r => is_ok (hw_watts r)) found = true) by (apply existsb_exists; exists r; rewrite Hw; split; [by apply list_elem_of_In|done]).
      congruence.
  - intros (r & e & Hr & He & Hd). destruct (existsb _ found); [done|].
    assert (existsb (fun r => match hw_watts r with Err e => s_denied e | Ok _ => false end) found = true) as ->
      by (apply existsb_exists; exists r; rewrite He; split; [by apply list_elem_of_In|done]).
    by rewrite orb_true_r.
  - done.
Qed.
End scan.
