(* ===== verification/Exposition.v ===== *)
(** * exporters/text.rs: a bounded reader of the Prometheus text format

    Texts are bytes of UTF-8; the characters the format gives a meaning to are
    ASCII, so cutting at them cuts between characters.  The [BTreeMap] of a
    sample's labels is a finite map. *)

From Stdlib Require Import String SpecFloat.
From S2P Require Import Prelude Text Floats.

#[local] Set Warnings "-notation-overridden".

Record Limits := mkLimits { max_series : Z; max_labels : Z; max_samples : Z }.
Definition default_limits : Limits := mkLimits 50000 32 2000.

Record Sample := mkPromSample { name : bytes; labels_of : gmap bytes bytes; value : f64 }.

Definition trim_start (s : bytes) : bytes := concat (drop_while is_whitespace_chunk (char_chunks s)).

Definition is_name_start (b : Z) : bool := is_ascii_alphabetic b || (b =? 95) || (b =? 58).
Definition is_name_char (b : Z) : bool := is_name_start b || is_ascii_digit b.
Definition valid_name (n : bytes) : bool :=
  match n with [] => false | b :: n' => is_name_start b && forallb is_name_char n' end.

Definition parse_value (v : bytes) : option f64 :=
  if str_eqb v (lit "+Inf") then Some (S754_infinity false)
  else if str_eqb v (lit "-Inf") then Some (S754_infinity true)
  else if str_eqb v (lit "NaN") then Some S754_nan
  else parse_f64 v.

(** The inner loop of [labels]: the value up to its closing quote, and what follows. *)
Fixpoint quoted_value (s : bytes) : result (bytes * bytes) bytes :=
  let push c r := let? r := r in Ok (c :: fst r, snd r) in
  match s with
  | [] => Err (lit "unterminated label value")
  | c :: s' =>
      if c =? 34 then Ok ([], s')
      else if c =? 92 then
        match s' with
        | [] => Err (lit "invalid escape in label value")
        | e :: s'' =>
            if e =? 110 then push 10 (quoted_value s'')
            else if e =? 92 then push 92 (quoted_value s'')
            else if e =? 34 then push 34 (quoted_value s'')
            else Err (lit "invalid escape in label value")
        end
      else push c (quoted_value s')
  end.

Definition skip_comma (rest : bytes) : bytes := match strip_prefix [44] rest with Some r => r | None => rest end.

(** One label: its name and value, and what follows it and a comma. *)
Definition label (rest : bytes) : result (bytes * bytes * bytes) bytes :=
  match split_once 61 rest with
  | None => Err (lit "unterminated labels")
  | Some (before, after) =>
      let n := trim before in
      if negb (valid_name n) || existsb (Z.eqb 58) n then Err (lit "invalid label name")
      else
        match strip_prefix [34] (trim_start after) with
        | None => Err (lit "label value is not quoted")
        | Some after =>
            let? v := quoted_value after in
            Ok (n, fst v, skip_comma (trim_start (snd v)))
        end
  end.

(** [labels], from the labels already read; [None] when the fuel runs out. *)
Fixpoint labels (fuel : nat) (max : Z) (acc : gmap bytes bytes) (rest : bytes) : option (result (gmap bytes bytes * bytes) bytes) :=
  match fuel with
  | O => None
  | S fuel' =>
      let rest := trim_start rest in
      match strip_prefix [125] rest with
      | Some after => Some (Ok (acc, after))
      | None =>
          match label rest with
          | Err e => Some (Err e)
          | Ok (n, v, rest') =>
              if Z.of_nat (size acc) =? max then Some (Err (lit "more than " ++ show_u64 max ++ lit " labels"))
              else labels fuel' max (<[n := v]> acc) rest'
          end
      end
  end.

Definition is_delimiter (b : Z) : bool := (b =? 123) || is_ascii_whitespace b.
Fixpoint break (p : Z -> bool) (s : bytes) : bytes * bytes :=
  match s with
  | [] => ([], [])
  | b :: s' => if p b then ([], s) else let '(l, r) := break p s' in (b :: l, r)
  end.
(** [split_ascii_whitespace().next()]. *)
Definition first_word (s : bytes) : option bytes :=
  match fst (break is_ascii_whitespace (drop_while is_ascii_whitespace s)) with [] => None | w => Some w end.

Definition at_line (number : nat) (m : bytes) : bytes := lit "line " ++ show_u64 (Z.of_nat number) ++ lit ": " ++ m.

(** A trimmed line that is neither empty nor a comment: [None] if its metric is not
    wanted. *)
Definition sample_line (number : nat) (limits : Limits) (wanted : bytes -> bool) (line : bytes)
  : option (result (option Sample) bytes) :=
  match break is_delimiter line with
  | (_, []) => Some (Err (at_line number (lit "no value")))
  | (n, rest) =>
      if negb (valid_name n) then Some (Err (at_line number (lit "invalid metric name")))
      else if negb (wanted n) then Some (Ok None)
      else
        match match strip_prefix [123] rest with
              | Some inside => labels (S (length inside)) (max_labels limits) ∅ inside
              | None => Some (Ok (∅, rest))
              end with
        | None => None
        | Some (Err e) => Some (Err (at_line number e))
        | Some (Ok (ls, rest)) =>
            Some (match first_word rest with
                  | None => Err (at_line number (lit "no value"))
                  | Some w => match parse_value w with
                              | None => Err (at_line number (lit "invalid value"))
                              | Some v => Ok (Some (mkPromSample n ls v))
                              end
                  end)
        end
  end.

(** The loop over the lines, [samples] being those kept so far. *)
Fixpoint parse_lines (number : nat) (series : Z) (limits : Limits) (wanted : bytes -> bool) (samples : list Sample)
    (ls : list bytes) : option (result (list Sample) bytes) :=
  match ls with
  | [] => Some (Ok samples)
  | line :: ls' =>
      let line := trim line in
      if bool_decide (line = []) || starts_with [35] line then parse_lines (S number) series limits wanted samples ls'
      else if max_series limits <? series + 1
      then Some (Err (lit "more than " ++ show_u64 (max_series limits) ++ lit " series"))
      else
        match sample_line number limits wanted line with
        | None => None
        | Some (Err e) => Some (Err e)
        | Some (Ok None) => parse_lines (S number) (series + 1) limits wanted samples ls'
        | Some (Ok (Some s)) =>
            if zlength samples =? max_samples limits
            then Some (Err (lit "more than " ++ show_u64 (max_samples limits) ++ lit " mapped samples"))
            else parse_lines (S number) (series + 1) limits wanted (samples ++ [s]) ls'
        end
  end.

Definition parse (text : bytes) (limits : Limits) (wanted : bytes -> bool) : option (result (list Sample) bytes) :=
  parse_lines 1 0 limits wanted [] (lines text).

(** ** Reading always ends *)

Lemma length_drop_while {A} (p : A -> bool) l : (length (drop_while p l) <= length l)%nat.
Proof. destruct (drop_while_suffix p l) as [d Hd]. rewrite Hd at 2. rewrite length_app. lia. Qed.

Lemma length_trim_start s : (length (trim_start s) <= length s)%nat.
Proof.
  unfold trim_start. destruct (drop_while_suffix is_whitespace_chunk (char_chunks s)) as [d Hd].
  rewrite <- (concat_char_chunks s) at 2. rewrite Hd at 2. rewrite concat_app, length_app. lia.
Qed.

(** Induction over a text in steps of one or two bytes. *)
Lemma bytes_ind2 (P : bytes -> Prop) :
  P [] -> (forall c, P [c]) -> (forall c d s, P s -> P (d :: s) -> P (c :: d :: s)) -> forall s, P s.
Proof.
  intros H0 H1 H2 s. enough (P s /\ forall c, P (c :: s)) by tauto.
  induction s as [|d s [IH1 IH2]]; [auto|]. split; [apply IH2|]. intros c. by apply H2; [|apply IH2].
Qed.

Lemma quoted_value_shorter s : forall v rest, quoted_value s = Ok (v, rest) -> (length rest < length s)%nat.
Proof.
  induction s as [|c|c d s IH1 IH2] using bytes_ind2; intros v rest; cbn [quoted_value].
  - done.
  - destruct (c =? 34); [intros [= <- <-]; cbn; lia|]. by destruct (c =? 92).
  - destruct (c =? 34); [intros [= <- <-]; cbn; lia|]. destruct (c =? 92).
    + assert (forall e, (let? r := quoted_value s in Ok (e :: fst r, snd r)) = Ok (v, rest) -> (length rest < length (c :: d :: s))%nat) as H.
      { intros e H. apply result_bind_ok in H as ([v' r'] & Hq & [= <- <-]). apply IH1 in Hq. cbn [fst snd length] in *. lia. }
      destruct (d =? 110); [apply H|]. destruct (d =? 92); [apply H|]. destruct (d =? 34); [apply H|done].
    + intros H. apply result_bind_ok in H as ([v' r'] & Hq & [= <- <-]). apply IH2 in Hq. cbn [fst snd length] in *. lia.
Qed.

Lemma strip_prefix_length p s r : strip_prefix p s = Some r -> length s = (length p + length r)%nat.
Proof. intros ->%strip_prefix_Some. by rewrite length_app. Qed.

Lemma length_skip_comma s : (length (skip_comma s) <= length s)%nat.
Proof. unfold skip_comma. destruct (strip_prefix [44] s) as [x|] eqn:Ex; [apply strip_prefix_length in Ex|]; lia. Qed.

Lemma label_shorter rest n v rest' : label rest = Ok (n, v, rest') -> (length rest' < length rest)%nat.
Proof.
  unfold label. destruct (split_once 61 rest) as [[before after]|] eqn:Es; [|done].
  apply split_once_Some in Es as [-> _]. destruct (negb _ || _); [done|].
  destruct (strip_prefix [34] (trim_start after)) as [after'|] eqn:Ep; [|done]. apply strip_prefix_length in Ep.
  intros H. apply result_bind_ok in H as ([v' r'] & Hq & [= <- <- <-]). apply quoted_value_shorter in Hq.
  pose proof (length_trim_start after). pose proof (length_trim_start r'). cbn [fst snd] in *. rewrite length_app. cbn [length] in *.
  pose proof (length_skip_comma (trim_start r')). lia.
Qed.

Lemma labels_total fuel max : forall acc rest, (length rest < fuel)%nat -> is_Some (labels fuel max acc rest).
Proof.
  induction fuel as [|fuel IH]; intros acc rest Hf; [lia|]. cbn [labels]. pose proof (length_trim_start rest).
  destruct (strip_prefix [125] (trim_start rest)); [done|]. destruct (label (trim_start rest)) as [[[n v] r]|e] eqn:El; [|done].
  destruct (_ =? _); [done|]. apply label_shorter in El. apply IH. lia.
Qed.

Lemma sample_line_total number limits wanted line : is_Some (sample_line number limits wanted line).
Proof.
  unfold sample_line. destruct (break is_delimiter line) as [n [|b rest]]; [done|].
  destruct (negb (valid_name n)); [done|]. destruct (negb (wanted n)); [done|].
  assert (is_Some (match strip_prefix [123] (b :: rest) with
      | Some inside => labels (S (length inside)) (max_labels limits) ∅ inside
      | None => Some (Ok (∅, b :: rest)) end)) as [x ->].
  { destruct (strip_prefix [123] (b :: rest)); [apply labels_total; lia|done]. }
  by destruct x as [[ls r]|e].
Qed.

Lemma parse_lines_total limits wanted ls : forall number series samples, is_Some (parse_lines number series limits wanted samples ls).
Proof.
  induction ls as [|line ls IH]; intros number series samples; cbn [parse_lines]; [done|].
  destruct (_ || _); [apply IH|]. destruct (_ <? _); [done|].
  destruct (sample_line_total number limits wanted (trim line)) as [[[s|]|e] ->]; [|apply IH|done].
  destruct (_ =? _); [done|apply IH].
Qed.

(** ** What is kept is bounded *)

Definition sound_sample (limits : Limits) (wanted : bytes -> bool) (s : Sample) : Prop :=
  wanted (name s) = true /\ valid_name (name s) = true /\ Z.of_nat (size (labels_of s)) <= max_labels limits /\
  forall n v, labels_of s !! n = Some v -> valid_name n = true /\ 58 ∉ n.

Lemma existsb_eqb c l : existsb (Z.eqb c) l = false -> c ∉ l.
Proof.
  intros H Hin. assert (existsb (Z.eqb c) l = true); [|congruence].
  apply existsb_exists. exists c. split; [by apply list_elem_of_In|apply Z.eqb_refl].
Qed.

Lemma labels_sound fuel max : forall acc rest ls r,
  Z.of_nat (size acc) <= max -> (forall n v, acc !! n = Some v -> valid_name n = true /\ 58 ∉ n) ->
  labels fuel max acc rest = Some (Ok (ls, r)) ->
  Z.of_nat (size ls) <= max /\ forall n v, ls !! n = Some v -> valid_name n = true /\ 58 ∉ n.
Proof.
  induction fuel as [|fuel IH]; intros acc rest ls r Hs Hn; [done|]. cbn [labels].
  destruct (strip_prefix [125] (trim_start rest)); [by intros [= <- <-]|].
  destruct (label (trim_start rest)) as [[[n v] r']|e] eqn:El; [|done].
  destruct (Z.eqb_spec (Z.of_nat (size acc)) max) as [|Hne]; [done|]. apply IH.
  - pose proof (map_size_insert n v acc) as Hsz. destruct (acc !! n); cbn in Hsz; lia.
  - intros n' v' [[<- <-]|[_ Hn']]%lookup_insert_Some; [|by eapply Hn].
    unfold label in El. destruct (split_once 61 (trim_start rest)) as [[before after]|]; [|done].
    destruct (negb _ || _) eqn:Hv; [done|]. apply orb_false_iff in Hv as [Hv Hc].
    destruct (strip_prefix [34] _); [|done]. apply result_bind_ok in El as ([? ?] & _ & [= <- <- <-]).
    split; [by apply negb_false_iff|by apply existsb_eqb].
Qed.

Lemma sample_line_sound number limits wanted line s :
  0 <= max_labels limits -> sample_line number limits wanted line = Some (Ok (Some s)) -> sound_sample limits wanted s.
Proof.
  intros Hm. unfold sample_line. destruct (break is_delimiter line) as [n [|b rest]]; [done|].
  destruct (valid_name n) eqn:Hv; [|done]. destruct (wanted n) eqn:Hw; [|done]. cbn [negb].
  destruct (strip_prefix [123] (b :: rest)) as [inside|].
  - destruct (labels _ _ ∅ inside) as [[[ls r]|e]|] eqn:El; [|done..].
    apply labels_sound in El as [Hsz Hn]; [|by rewrite map_size_empty|intros ? ?; by rewrite lookup_empty].
    destruct (first_word r); [|done]. destruct (parse_value _); [|done]. intros [= <-]. done.
  - destruct (first_word _); [|done]. destruct (parse_value _); [|done]. intros [= <-].
    split; [done|]. split; [done|]. cbn. rewrite map_size_empty. split; [done|]. intros ? ?. by rewrite lookup_empty.
Qed.

Lemma parse_lines_sound limits wanted ls : forall number series samples out,
  0 <= max_labels limits -> 0 <= series -> zlength samples <= Z.min series (max_samples limits) ->
  Forall (sound_sample limits wanted) samples ->
  parse_lines number series limits wanted samples ls = Some (Ok out) ->
  Forall (sound_sample limits wanted) out /\ zlength out <= max_samples limits /\ (zlength out <= Z.max series (max_series limits)).
Proof.
  induction ls as [|line ls IH]; intros number series samples out Hl Hs Hlen Hall; cbn [parse_lines].
  { intros [= <-]. split; [done|]. lia. }
  destruct (_ || _); [by apply IH|]. destruct (Z.ltb_spec (max_series limits) (series + 1)); [done|].
  destruct (sample_line number limits wanted (trim line)) as [[[s|]|e]|] eqn:El; [|..|done|done].
  - destruct (Z.eqb_spec (zlength samples) (max_samples limits)); [done|]. intros E1.
    eapply IH in E1 as (? & ? & ?); [split; [done|]; lia|done|lia|..].
    + unfold zlength in *. rewrite length_app. cbn. lia.
    + apply list.Forall_app. split; [done|]. constructor; [|constructor]. by eapply sample_line_sound.
  - intros E1. eapply IH in E1 as (? & ? & ?); [split; [done|]; lia|done|lia|lia|done].
Qed.

(** Whatever an exporter answers, reading it ends, and what is kept is within
    the limits: at most so many samples, each of a wanted metric with a valid name
    and at most so many labels with valid names. *)
Theorem exposition_bounded (text : bytes) (limits : Limits) (wanted : bytes -> bool) :
  0 <= max_labels limits -> 0 <= max_samples limits -> 0 <= max_series limits ->
  exists r, parse text limits wanted = Some r /\
  forall out, r = Ok out ->
    zlength out <= max_samples limits /\ zlength out <= max_series limits /\ Forall (sound_sample limits wanted) out.
Proof.
  intros H1 H2 H3. unfold parse. destruct (parse_lines_total limits wanted (lines text) 1 0 []) as [r Hr]. exists r.
  split; [done|]. intros out ->. eapply parse_lines_sound in Hr as (? & ? & ?); [split; [done|]; split; [lia|done]|done|lia|..].
  - unfold zlength. cbn [length]. lia.
  - constructor.
Qed.

(** ** Reading back what was written *)

(** How an exporter writes a sample: label values are escaped. *)
Fixpoint escape (v : bytes) : bytes :=
  match v with
  | [] => []
  | c :: v' => (if c =? 10 then [92; 110] else if c =? 92 then [92; 92] else if c =? 34 then [92; 34] else [c]) ++ escape v'
  end.
Fixpoint render_labels (ls : list (bytes * bytes)) : bytes :=
  match ls with
  | [] => [125]
  | (n, v) :: ls' => n ++ [61; 34] ++ escape v ++ [34] ++ match ls' with [] => [] | _ => [44] end ++ render_labels ls'
  end.
Record written := mkWritten { w_name : bytes; w_labels : list (bytes * bytes); w_text : bytes; w_value : f64 }.
Definition render (w : written) : bytes := w_name w ++ [123] ++ render_labels (w_labels w) ++ [32] ++ w_text w.
Definition sample_of (w : written) : Sample := mkPromSample (w_name w) (list_to_map (w_labels w)) (w_value w).

Record writable (limits : Limits) (wanted : bytes -> bool) (w : written) : Prop := mkWritable {
  wr_name : valid_name (w_name w) = true;
  wr_wanted : wanted (w_name w) = true;
  wr_labels : Forall (fun l => valid_name (fst l) = true /\ (58 ∉ fst l) /\ is_ascii (snd l) = true) (w_labels w);
  wr_distinct : NoDup (map fst (w_labels w));
  wr_count : zlength (w_labels w) <= max_labels limits;
  wr_visible : visible (w_text w) /\ w_text w <> [];
  wr_value : parse_value (w_text w) = Some (w_value w) }.

Lemma quoted_escape v rest : quoted_value (escape v ++ 34 :: rest) = Ok (v, rest).
Proof.
  induction v as [|c v IH]; [done|]. cbn [escape].
  destruct (Z.eqb_spec c 10) as [->|H10]; [cbn [app quoted_value]; cbn [Z.eqb Pos.eqb]; by rewrite IH|].
  destruct (Z.eqb_spec c 92) as [->|H92]; [cbn [app quoted_value]; cbn [Z.eqb Pos.eqb]; by rewrite IH|].
  destruct (Z.eqb_spec c 34) as [->|H34]; [cbn [app quoted_value]; cbn [Z.eqb Pos.eqb]; by rewrite IH|].
  cbn [app quoted_value]. rewrite (proj2 (Z.eqb_neq c 34) H34), (proj2 (Z.eqb_neq c 92) H92). by rewrite IH.
Qed.

Lemma not_space b : 33 <= b -> b < 128 -> is_whitespace_chunk [b] = false.
Proof. intros. cbn [is_whitespace_chunk]. apply orb_false_iff. split; [apply andb_false_iff; right; lia|lia]. Qed.

(** In ASCII, a text whose first byte is visible has nothing to trim at the front. *)
Lemma trim_start_visible b s : 33 <= b < 128 -> is_ascii s = true -> trim_start (b :: s) = b :: s.
Proof.
  intros Hb Hs. unfold trim_start. rewrite char_chunks_ascii; cbn [is_ascii forallb map drop_while].
  - rewrite not_space by lia. cbn [concat app]. by rewrite concat_singletons.
  - apply andb_true_iff. split; [lia|exact Hs].
Qed.

Lemma trim_visible_ends b m c : 33 <= b < 128 -> is_ascii m = true -> 33 <= c < 128 -> trim (b :: m ++ [c]) = b :: m ++ [c].
Proof.
  intros Hb Hm Hc. unfold trim, trim_by. rewrite char_chunks_ascii.
  2: { cbn [is_ascii forallb]. unfold is_ascii in *. rewrite forallb_app. cbn [forallb]. rewrite Hm. lia. }
  cbn [map drop_while]. rewrite not_space by lia. rewrite map_app. cbn [map rev]. rewrite rev_app_distr. cbn [rev app drop_while].
  rewrite not_space by lia. cbn [rev]. rewrite !rev_app_distr. cbn [rev app]. rewrite rev_involutive. cbn [concat app].
  by rewrite concat_app, concat_singletons.
Qed.

Lemma name_char_bounds b : is_name_char b = true -> 33 <= b < 123 /\ b <> 61 /\ b <> 34 /\ b <> 35 /\ b <> 44 /\ b <> 10.
Proof.
  unfold is_name_char, is_name_start, is_ascii_alphabetic, is_ascii_lowercase, is_ascii_uppercase, is_ascii_digit. intros H.
  lia.
Qed.

Lemma valid_name_chars n : valid_name n = true -> Forall (fun b => is_name_char b = true) n /\ n <> [].
Proof.
  destruct n as [|b n]; [done|]. cbn [valid_name]. intros [Hb Hn]%andb_true_iff. split; [|done]. constructor.
  - unfold is_name_char. by rewrite Hb.
  - apply List.Forall_forall. by apply forallb_forall.
Qed.

Lemma name_visible n : Forall (fun b => is_name_char b = true) n -> visible n.
Proof. intros H. eapply Forall_impl; [|exact H]. intros b Hb. apply name_char_bounds in Hb. lia. Qed.

Lemma name_without c n : is_name_char c = false -> Forall (fun b => is_name_char b = true) n -> c ∉ n.
Proof. intros Hc Hn Hin. rewrite list.Forall_forall in Hn. apply Hn in Hin. congruence. Qed.

Lemma escape_ascii v : is_ascii v = true -> is_ascii (escape v) = true /\ 10 ∉ escape v.
Proof.
  unfold is_ascii. induction v as [|c v IH]; [split; [done|by apply not_elem_of_nil]|]. cbn [forallb escape]. intros [Hc Hv]%andb_true_iff.
  destruct (IH Hv) as [H1 H2]. rewrite forallb_app, H1, not_elem_of_app, andb_true_r.
  destruct (Z.eqb_spec c 10); [split; [done|]; split; [set_solver|done]|].
  destruct (Z.eqb_spec c 92); [split; [done|]; split; [set_solver|done]|].
  destruct (Z.eqb_spec c 34); [split; [done|]; split; [set_solver|done]|].
  cbn [forallb]. rewrite Hc. split; [done|]. split; [set_solver|done].
Qed.

Definition label_ok (l : bytes * bytes) : Prop := valid_name (fst l) = true /\ (58 ∉ fst l) /\ is_ascii (snd l) = true.

Lemma is_ascii_app a b : is_ascii (a ++ b) = is_ascii a && is_ascii b.
Proof. apply forallb_app. Qed.

Lemma render_labels_ascii ls : Forall label_ok ls -> is_ascii (render_labels ls) = true /\ 10 ∉ render_labels ls.
Proof.
  induction 1 as [|[n v] ls (Hn & _ & Hv) _ [IH1 IH2]]; [split; [done|set_solver]|]. cbn [render_labels fst snd] in *.
  apply valid_name_chars in Hn as [Hn _]. pose proof (visible_ascii n (name_visible n Hn)) as Hna.
  destruct (escape_ascii v Hv) as [He1 He2]. rewrite !is_ascii_app, Hna, He1, IH1, !not_elem_of_app.
  split; [by destruct ls|]. split; [by apply name_without|]. split; [set_solver|]. split; [done|].
  split; [set_solver|]. split; [|done]. destruct ls; set_solver.
Qed.

Lemma label_written n v more :
  label_ok (n, v) -> is_ascii more = true -> (exists b m, more = b :: m /\ 33 <= b < 128) ->
  label (n ++ [61; 34] ++ escape v ++ [34] ++ more) = Ok (n, v, skip_comma more).
Proof.
  intros (Hn & Hc & Hv) Hm (b & m & -> & Hb). cbn [fst snd] in *. unfold label. pose proof Hn as [Hch _]%valid_name_chars.
  cbn [app]. rewrite split_once_app by (by apply name_without). rewrite trim_visible by (by apply name_visible). rewrite Hn. cbn [negb orb].
  assert (existsb (Z.eqb 58) n = false) as ->.
  { destruct (existsb (Z.eqb 58) n) eqn:E; [|done]. apply existsb_exists in E as (x & Hx & <-%Z.eqb_eq). destruct Hc. by apply list_elem_of_In. }
  rewrite trim_start_visible; [|lia|].
  2: { rewrite is_ascii_app, (proj1 (escape_ascii v Hv)). exact Hm. }
  change (strip_prefix [34] (34 :: escape v ++ 34 :: b :: m)) with (strip_prefix [34] ([34] ++ (escape v ++ 34 :: b :: m))).
  rewrite strip_prefix_app, quoted_escape. cbn [result_bind fst snd].
  rewrite trim_start_visible; [done|lia|]. cbn [is_ascii forallb] in Hm. by apply andb_true_iff in Hm as [_ Hm].
Qed.

Lemma render_labels_head ls : Forall label_ok ls -> exists b m, render_labels ls = b :: m /\ 33 <= b < 128 /\
  (b = 44 -> False) /\ (ls <> [] -> b <> 125).
Proof.
  destruct 1 as [|[n v] ls (Hn & _ & _) _]; [exists 125, []; split; [done|]; split; [lia|]; split; [lia|done]|].
  cbn [fst] in Hn. apply valid_name_chars in Hn as [Hn Hne]. destruct n as [|b n]; [done|].
  cbn [render_labels]. rewrite <- app_comm_cons. eexists b, _. split; [done|]. inversion Hn as [|? ? Hb _]; subst.
  pose proof Hb as (H1 & H2 & H3 & H4 & H5)%name_char_bounds. split; [lia|]. split; [lia|]. intros _. lia.
Qed.

Lemma labels_written max rest ls : forall fuel acc,
  Forall label_ok ls -> NoDup (map fst ls) -> (forall n, n ∈ map fst ls -> acc !! n = None) ->
  Z.of_nat (size acc) + zlength ls <= max -> (length ls < fuel)%nat -> is_ascii rest = true ->
  labels fuel max acc (render_labels ls ++ rest) = Some (Ok (list_to_map ls ∪ acc, rest)).
Proof.
  induction ls as [|[n v] ls IH]; intros fuel acc Hok Hnd Hacc Hsz Hf Hr; (destruct fuel as [|fuel]; [cbn in Hf; lia|]); cbn [labels].
  { cbn [render_labels]. cbn [app]. rewrite trim_start_visible by (done || lia).
    change (125 :: rest) with ([125] ++ rest). rewrite strip_prefix_app. cbn [list_to_map foldr]. by rewrite (left_id_L ∅ (∪)). }
  pose proof Hok as [Ho1 Ho2]%list.Forall_cons. pose proof Hnd as [Hn1 Hn2]%list.NoDup_cons. cbn [fst map] in *.
  destruct (render_labels_head _ Hok) as (b & m & Hbm & Hb & _ & H125). destruct (render_labels_ascii _ Hok) as [Hasc _].
  rewrite Hbm in Hasc. cbn [is_ascii forallb] in Hasc. apply andb_true_iff in Hasc as [_ Hasc].
  rewrite Hbm. cbn [app]. rewrite trim_start_visible; [|lia|by rewrite is_ascii_app, Hr, andb_true_r].
  assert (strip_prefix [125] (b :: m ++ rest) = None) as ->.
  { cbn [strip_prefix]. destruct (Z.eqb_spec 125 b); [|done]. destruct H125; [done|lia]. }
  change (b :: m ++ rest) with ((b :: m) ++ rest). rewrite <- Hbm. cbn [render_labels].
  set (more := match ls with [] => [] | _ => [44] end ++ render_labels ls ++ rest).
  replace ((n ++ [61; 34] ++ escape v ++ [34] ++ match ls with [] => [] | _ => [44] end ++ render_labels ls) ++ rest)
    with (n ++ [61; 34] ++ escape v ++ [34] ++ more) by (unfold more; by rewrite <- !app_assoc).
  destruct (render_labels_head _ Ho2) as (b2 & m2 & Hbm2 & Hb2 & Hcomma & _).
  destruct (render_labels_ascii _ Ho2) as [Hasc2 _].
  rewrite label_written; [|done| |].
  - cbv iota. rewrite (proj2 (Z.eqb_neq _ _)) by (unfold zlength in Hsz; cbn [length] in Hsz; lia).
    assert (skip_comma more = render_labels ls ++ rest) as ->.
    { unfold more, skip_comma. destruct ls as [|l ls].
      - cbn [app]. rewrite Hbm2. cbn [app strip_prefix]. destruct (Z.eqb_spec 44 b2); [exfalso; lia|done].
      - change ([44] ++ render_labels (l :: ls) ++ rest) with ([44] ++ (render_labels (l :: ls) ++ rest)). by rewrite strip_prefix_app. }
    rewrite IH; [|exact Ho2|exact Hn2| | | |exact Hr].
    + do 3 f_equal. cbn [list_to_map foldr fst snd]. rewrite <- insert_union_r; [by rewrite insert_union_l|].
      by apply not_elem_of_list_to_map_1.
    + intros n' Hn'. rewrite lookup_insert_ne; [apply Hacc; set_solver|]. intros ->. done.
    + rewrite map_size_insert, Hacc by set_solver. unfold zlength in *. cbn [length] in Hsz. lia.
    + cbn in Hf. lia.
  - unfold more. rewrite !is_ascii_app, Hasc2, Hr. by destruct ls.
  - unfold more. rewrite Hbm2. destruct ls as [|l ls]; cbn [app]; eexists _, _; (split; [reflexivity|]); lia.
Qed.

Lemma break_app p a b s : Forall (fun x => p x = false) a -> p b = true -> break p (a ++ b :: s) = (a, b :: s).
Proof. induction 1 as [|x a Hx _ IH]; intros Hb; cbn [app break]; [by rewrite Hb|]. rewrite Hx. by rewrite (IH Hb). Qed.

Lemma break_all p a : Forall (fun x => p x = false) a -> break p a = (a, []).
Proof. induction 1 as [|x a Hx _ IH]; cbn [break]; [done|]. by rewrite Hx, IH. Qed.

Lemma visible_not_space s : visible s -> Forall (fun b => is_ascii_whitespace b = false) s.
Proof. intros H. eapply Forall_impl; [|exact H]. cbv beta. intros b Hb. unfold is_ascii_whitespace. lia. Qed.

Lemma first_word_visible s : visible s -> s <> [] -> first_word (32 :: s) = Some s.
Proof.
  intros Hs Hne. unfold first_word. pose proof (visible_not_space s Hs) as Hw. cbn [drop_while].
  change (is_ascii_whitespace 32) with true. cbv iota. rewrite drop_while_none by done. rewrite break_all by done. by destruct s.
Qed.

Section written.
Context (limits : Limits) (wanted : bytes -> bool).

Lemma visible_last s : visible s -> s <> [] -> exists m c, s = m ++ [c] /\ 33 <= c < 128 /\ is_ascii m = true.
Proof.
  intros Hs Hne. destruct s as [|c m _] using rev_ind; [done|]. exists m, c. unfold visible in Hs.
  apply list.Forall_app in Hs as [Hm Hc]. split; [done|]. inversion Hc; subst. split; [done|]. by apply visible_ascii.
Qed.

Lemma render_shape w : writable limits wanted w ->
  exists b m c, render w = b :: m ++ [c] /\ 33 <= b < 128 /\ b <> 35 /\ 33 <= c < 128 /\ is_ascii m = true /\ 10 ∉ render w.
Proof.
  intros [Hn _ Hl _ _ [Hv Hne] _]. apply valid_name_chars in Hn as [Hn Hnn].
  assert (Forall label_ok (w_labels w)) as Hok by done. destruct (render_labels_ascii _ Hok) as [Ha H10].
  destruct (visible_last _ Hv Hne) as (m & c & Hm & Hc & Hma).
  assert (10 ∉ render w) as Hnl.
  { unfold render. rewrite !not_elem_of_app. split; [by apply name_without|]. split; [set_solver|]. split; [done|]. split; [set_solver|].
    intros Hin. unfold visible in Hv. rewrite list.Forall_forall in Hv. apply Hv in Hin. lia. }
  pose proof (visible_ascii _ (name_visible _ Hn)) as Hna. destruct (w_name w) as [|b n] eqn:En; [done|].
  inversion Hn as [|? ? Hb _]; subst. pose proof Hb as (? & ? & ? & ? & ?)%name_char_bounds.
  exists b, (n ++ [123] ++ render_labels (w_labels w) ++ [32] ++ m), c.
  split; [unfold render; rewrite En, Hm; by rewrite <- !app_assoc|]. split; [lia|]. split; [lia|]. split; [done|]. split; [|done].
  cbn [is_ascii forallb] in Hna. apply andb_true_iff in Hna as [_ Hna]. unfold is_ascii in *. rewrite !forallb_app, Hna, Ha, Hma. done.
Qed.

Lemma sample_line_written number w : writable limits wanted w ->
  sample_line number limits wanted (render w) = Some (Ok (Some (sample_of w))).
Proof.
  intros [Hn Hw Hl Hd Hc [Hv Hne] Hp]. unfold sample_line, render. pose proof Hn as [Hch _]%valid_name_chars.
  cbn [app]. rewrite break_app; [|eapply Forall_impl; [|exact Hch]|done].
  2: { cbv beta. intros b Hb. apply name_char_bounds in Hb. unfold is_delimiter, is_ascii_whitespace. lia. }
  cbv iota. rewrite Hn, Hw. cbn [negb].
  change (strip_prefix [123] (123 :: render_labels (w_labels w) ++ 32 :: w_text w))
    with (strip_prefix [123] ([123] ++ (render_labels (w_labels w) ++ 32 :: w_text w))). rewrite strip_prefix_app.
  rewrite labels_written; [|done|done|done| | |].
  - cbv iota beta. rewrite (right_id_L ∅ (∪)), first_word_visible by done. by rewrite Hp.
  - by rewrite map_size_empty.
  - rewrite length_app. enough (length (w_labels w) < length (render_labels (w_labels w)))%nat by lia. clear.
    induction (w_labels w) as [|[n v] ls IH]; cbn [render_labels length]; [lia|]. rewrite !length_app. cbn [length]. lia.
  - cbn [is_ascii forallb]. apply andb_true_iff. split; [done|by apply visible_ascii].
Qed.

Lemma parse_lines_written ws : forall number series samples,
  Forall (writable limits wanted) ws ->
  series + zlength ws <= max_series limits -> zlength samples + zlength ws <= max_samples limits ->
  parse_lines number series limits wanted samples (map render ws) = Some (Ok (samples ++ map sample_of ws)).
Proof.
  induction ws as [|w ws IH]; intros number series samples Hall Hs Hm; cbn [map parse_lines]; [by rewrite app_nil_r|].
  apply list.Forall_cons in Hall as [Hw Hall]. destruct (render_shape w Hw) as (b & m & c & Hr & Hb & H35 & Hc & Hasc & _).
  assert (trim (render w) = render w) as -> by (rewrite Hr; by apply trim_visible_ends).
  unfold zlength in *. cbn [length] in *.
  rewrite bool_decide_eq_false_2 by (by rewrite Hr). assert (starts_with [35] (render w) = false) as ->.
  { rewrite Hr. unfold starts_with. cbn [strip_prefix]. by rewrite (proj2 (Z.eqb_neq 35 b)). }
  cbn [orb]. rewrite (proj2 (Z.ltb_ge _ _)) by lia. rewrite sample_line_written by done.
  unfold zlength. rewrite (proj2 (Z.eqb_neq _ _)) by lia. rewrite IH; [by rewrite <- app_assoc|done|lia|].
  rewrite length_app. cbn [length]. lia.
Qed.

Lemma split_on_lines ws : Forall (fun l => 10 ∉ l) ws ->
  split_on 10 (concat (map (fun l => l ++ [10]) ws)) = ws ++ [[]].
Proof.
  induction 1 as [|l ws Hl _ IH]; [done|]. cbn [map concat]. rewrite <- app_assoc. cbn [app].
  assert (forall x s, 10 ∉ x -> split_on 10 (x ++ 10 :: s) = x :: split_on 10 s) as Hsplit.
  { clear. intros x s. induction x as [|c x IHx]; intros Hx; cbn [app split_on]; [done|].
    rewrite not_elem_of_cons in Hx. destruct Hx as [Hc Hx]. rewrite (IHx Hx). destruct (Z.eqb_spec c 10); [lia|done]. }
  rewrite Hsplit by done. by rewrite IH.
Qed.

Lemma lines_written ws : Forall (writable limits wanted) ws ->
  lines (concat (map (fun w => render w ++ [10]) ws)) = map render ws.
Proof.
  intros Hall. unfold lines. rewrite <- (map_map render (fun l => l ++ [10])). rewrite split_on_lines.
  2: { apply List.Forall_map. eapply Forall_impl; [|exact Hall]. cbv beta. intros w Hw. by destruct (render_shape w Hw) as (? & ? & ? & ? & ? & ? & ? & ? & ?). }
  rewrite last_opt_snoc, removelast_last. rewrite <- (map_id (map render ws)) at 2. apply map_ext_in. intros l (w & <- & Hw)%in_map_iff.
  rewrite List.Forall_forall in Hall. destruct (render_shape w (Hall w Hw)) as (b & m & c & Hr & _ & _ & Hc & _ & _).
  unfold strip_cr. destruct (strip_suffix [13] (render w)) as [x|] eqn:E; [|done]. apply strip_suffix_Some in E.
  rewrite Hr, app_comm_cons in E. apply app_inj_tail in E as [_ ->]. lia.
Qed.

(** What an exporter writes is what the agent reads: samples with valid names,
    escaped label values and readable numbers, one per line, are read back exactly,
    in order, as long as they are within the limits. *)
Theorem exposition_round_trip (ws : list written) :
  Forall (writable limits wanted) ws -> zlength ws <= max_series limits -> zlength ws <= max_samples limits ->
  parse (concat (map (fun w => render w ++ [10]) ws)) limits wanted = Some (Ok (map sample_of ws)).
Proof.
  intros Hall Hs Hm. unfold parse. rewrite lines_written by done. rewrite parse_lines_written; [done|done|lia|]. unfold zlength in *. cbn. lia.
Qed.
End written.

(** An exporter's answer with a comment, an escaped label and a value in exponent form. *)
Definition sample_written : list written :=
  [mkWritten (lit "ipmi_power_watts") [(lit "id", lit "7"); (lit "name", [80; 83; 34; 92; 10])] (lit "1.5e2") (f64_of_Z 150);
   mkWritten (lit "up") [] (lit "+Inf") (S754_infinity false)].

Lemma exposition_round_trip_witness :
  Forall (writable default_limits (fun _ => true)) sample_written /\
  parse (concat (map (fun w => render w ++ [10]) sample_written)) default_limits (fun _ => true)
  = Some (Ok (map sample_of sample_written)).
Proof.
  assert (Forall (writable default_limits (fun _ => true)) sample_written) as Hw.
  { repeat constructor; try (vm_compute; reflexivity); try (vm_compute; discriminate);
      try (apply (bool_decide_unpack _); vm_compute; exact I); try (cbn; lia). }
  split; [exact Hw|]. apply exposition_round_trip; [exact Hw|vm_compute; discriminate|vm_compute; discriminate].
Defined.
