(* ===== verification/ExporterMapping.v ===== *)
(** * exporters/mapping.rs: which exporter metrics are power readings

    [BTreeMap]s are finite maps; the one that is iterated is listed by key. *)

From Stdlib Require Import String SpecFloat.
From stdpp Require Import sorting.
From S2P Require Import Prelude Text Floats Exposition Hwmon.

#[local] Set Warnings "-notation-overridden".

Definition NODE_EXPORTER : bytes := lit "node_exporter".
Definition IPMI_EXPORTER : bytes := lit "ipmi_exporter".
Definition MAPPING_VERSION : Z := 1.
Definition NODE_CHIP_NAMES : bytes := lit "node_hwmon_chip_names".
Definition NODE_SENSOR_LABEL : bytes := lit "node_hwmon_sensor_label".
Definition NODE_AVERAGE_INTERVAL : bytes := lit "node_hwmon_power_average_interval_seconds".
Definition IPMI_DCMI : bytes := lit "ipmi_dcmi_power_consumption_watts".
Definition IPMI_POWER : bytes := lit "ipmi_power_watts".
Definition IPMI_STATE : bytes := lit "ipmi_sensor_state".

Inductive Measurement := Watts (w : option f64) | State (s : option bytes).
Definition quantity (m : Measurement) : bytes := match m with Watts _ => lit "real_power" | State _ => lit "state" end.
Definition unreadable (m : Measurement) : Measurement := match m with Watts _ => Watts None | State _ => State None end.

Record Reading := mkReading {
  mapping : bytes; sensor : bytes; r_boundary : Boundary; supply : option bytes; measurement : Measurement;
  window_seconds : f64 }.

Definition MAX_WINDOW_SECONDS : f64 := f64_of_Z 86400.
Definition MIN_WINDOW_SECONDS : f64 := f64_div (f64_of_Z 1) (f64_of_Z 1000).
Definition f64_zero : f64 := f64_of_Z 0.

Inductive element := Input | Average.

Definition node_power_element (n : bytes) : option element :=
  match strip_prefix (lit "node_hwmon_power") n with
  | None => None
  | Some rest =>
      match match strip_suffix (lit "_watts") rest with Some e => Some e | None => strip_suffix (lit "_watt") rest end with
      | None => None
      | Some e => if bool_decide (e = []) || str_eqb e (lit "_input") then Some Input
                  else if str_eqb e (lit "_average") then Some Average
                  else None
      end
  end.

Definition wanted (n : bytes) : bool :=
  existsb (str_eqb n) [NODE_CHIP_NAMES; NODE_SENSOR_LABEL; NODE_AVERAGE_INTERVAL; IPMI_DCMI; IPMI_POWER; IPMI_STATE]
  || match node_power_element n with Some _ => true | None => false end.

(** A finite, non-negative wattage; anything else is not a reading. *)
Definition watts (v : f64) : option f64 := if is_finite v && f64_leb f64_zero v then Some v else None.

Definition supply_state (v : f64) : option bytes :=
  if f64_eqb v (f64_of_Z 0) then Some (lit "ok")
  else if f64_eqb v (f64_of_Z 1) then Some (lit "warning")
  else if f64_eqb v (f64_of_Z 2) then Some (lit "failed")
  else None.

(** ** Supplies *)

Definition is_alphanumeric (b : Z) : bool := is_ascii_alphabetic b || is_ascii_digit b.
(** The non-empty pieces between characters that are not letters or digits. *)
Fixpoint words_from (current : bytes) (s : bytes) : list bytes :=
  let flush := match current with [] => [] | _ => [rev current] end in
  match s with
  | [] => flush
  | b :: s' => if is_alphanumeric b then words_from (b :: current) s' else flush ++ words_from [] s'
  end.
Definition words (s : bytes) : list bytes := words_from [] s.

Definition any_of (ws : list bytes) (l : list string) : bool := existsb (fun w => existsb (fun x => str_eqb w (lit x)) l) ws.

Definition supply_sensor (n : bytes) : option (bytes * option Boundary) :=
  let upper := to_ascii_uppercase (trim n) in
  match match strip_prefix (lit "PSU") upper with Some r => Some r | None => strip_prefix (lit "PS") upper end with
  | None => None
  | Some rest =>
      let rest := trim_start rest in
      let '(digits, after) := break (fun b => negb (is_ascii_digit b)) rest in
      match digits with
      | [] => None
      | _ =>
          let ws := words after in
          let direction := if any_of ws ["IN"; "INPUT"; "PIN"]%string then Some SupplyInput
                           else if any_of ws ["OUT"; "OUTPUT"; "POUT"]%string then Some SupplyOutput
                           else None in
          let number := drop_while (Z.eqb 48) digits in
          Some (lit "PSU" ++ match number with [] => lit "0" | _ => number end, direction)
      end
  end.

(** ** node_exporter *)

Definition label_or_empty (s : Sample) (key : string) : bytes :=
  match labels_of s !! lit key with Some v => v | None => [] end.
Definition chip_sensor (s : Sample) : bytes * bytes := (label_or_empty s "chip", label_or_empty s "sensor").

Definition drivers (samples : list Sample) : gmap bytes bytes :=
  fold_left (fun m s => if str_eqb (name s) NODE_CHIP_NAMES
                        then <[label_or_empty s "chip" := label_or_empty s "chip_name"]> m else m) samples ∅.
Definition keyed (n : bytes) (samples : list Sample) : gmap (bytes * bytes) Sample :=
  fold_left (fun m s => if str_eqb (name s) n then <[chip_sensor s := s]> m else m) samples ∅.
(** An averaged reading replaces the instantaneous one for the same sensor. *)
Definition note_power (m : gmap (bytes * bytes) (element * Sample)) (s : Sample) : gmap (bytes * bytes) (element * Sample) :=
  match node_power_element (name s) with
  | Some Average => <[chip_sensor s := (Average, s)]> m
  | Some Input => match m !! chip_sensor s with None => <[chip_sensor s := (Input, s)]> m | Some _ => m end
  | None => m
  end.
Definition power (samples : list Sample) : gmap (bytes * bytes) (element * Sample) := fold_left note_power samples ∅.

Definition key_le (a b : (bytes * bytes) * (element * Sample)) : Prop :=
  let '((a1, a2), (b1, b2)) := (fst a, fst b) in
  (if str_eqb a1 b1 then bytes_leb a2 b2 else bytes_leb a1 b1) = true.
#[local] Instance key_le_dec a b : Decision (key_le a b).
Proof. unfold key_le. destruct a as [[a1 a2] ?], b as [[b1 b2] ?]. cbn. apply _. Defined.

Definition in_window (v : f64) : bool := f64_leb MIN_WINDOW_SECONDS v && f64_leb v MAX_WINDOW_SECONDS.

(** The watts and averaging period of one sensor. *)
Definition node_measure (intervals : gmap (bytes * bytes) Sample) (k : bytes * bytes) (e : element) (s : Sample) : option f64 * f64 :=
  match e with
  | Average => match intervals !! k with
               | Some i => if in_window (value i) then (watts (value s), value i) else (None, f64_zero)
               | None => (None, f64_zero)
               end
  | Input => (watts (value s), f64_zero)
  end.

Definition node_reading (dr : gmap bytes bytes) (ls intervals : gmap (bytes * bytes) Sample)
    (entry : (bytes * bytes) * (element * Sample)) : option Reading :=
  let '(k, (e, s)) := entry in
  match dr !! fst k with
  | None => None
  | Some driver =>
      let sensor_label := match ls !! k with Some l => labels_of l !! lit "label" | None => None end in
      match boundary driver sensor_label with
      | None => None
      | Some b =>
          let '(w, window) := node_measure intervals k e s in
          Some (mkReading NODE_EXPORTER (NODE_EXPORTER ++ lit "/" ++ fst k ++ lit "/" ++ snd k) b None (Watts w) window)
      end
  end.

Definition node_exporter (samples : list Sample) : list Reading :=
  omap (node_reading (drivers samples) (keyed NODE_SENSOR_LABEL samples) (keyed NODE_AVERAGE_INTERVAL samples))
    (merge_sort key_le (map_to_list (power samples))).

(** ** ipmi_exporter *)

Definition ipmi_sensor (s : Sample) : bytes := IPMI_EXPORTER ++ lit "/sensor/" ++ label_or_empty s "id".

Definition ipmi_reading (s : Sample) : option Reading :=
  if str_eqb (name s) IPMI_DCMI then
    Some (mkReading IPMI_EXPORTER (IPMI_EXPORTER ++ lit "/dcmi") HostInput None (Watts (watts (value s))) f64_zero)
  else if str_eqb (name s) IPMI_POWER then
    match supply_sensor (label_or_empty s "name") with
    | Some (sup, Some direction) =>
        Some (mkReading IPMI_EXPORTER (ipmi_sensor s) direction (Some sup) (Watts (watts (value s))) f64_zero)
    | _ => None
    end
  else if str_eqb (name s) IPMI_STATE && bool_decide (labels_of s !! lit "type" = Some (lit "Power Supply")) then
    match supply_sensor (label_or_empty s "name") with
    | Some (sup, _) =>
        Some (mkReading IPMI_EXPORTER (ipmi_sensor s) SupplyInput (Some sup) (State (supply_state (value s))) f64_zero)
    | None => None
    end
  else None.

Definition ipmi_exporter (samples : list Sample) : list Reading := omap ipmi_reading samples.

(** [mapping::map]. *)
Definition map_samples (samples : list Sample) : list Reading := node_exporter samples ++ ipmi_exporter samples.

(** ** Dropping other metrics early changes nothing *)

Lemma fold_left_filter {X Y} (p : Y -> bool) (f : X -> Y -> X) l : forall x,
  (forall x y, p y = false -> f x y = x) -> fold_left f (List.filter p l) x = fold_left f l x.
Proof.
  induction l as [|y l IH]; intros x Hf; [done|]. cbn. destruct (p y) eqn:Hp; cbn; [by apply IH|]. rewrite Hf by done. by apply IH.
Qed.

Lemma omap_filter {X Y} (p : X -> bool) (f : X -> option Y) l :
  (forall x, p x = false -> f x = None) -> omap f (List.filter p l) = omap f l.
Proof.
  intros Hf. induction l as [|x l IH]; [done|]. cbn. destruct (p x) eqn:Hp; cbn; [by rewrite IH|]. by rewrite Hf.
Qed.

Definition is_wanted (s : Sample) : bool := wanted (name s).

Lemma unwanted s : is_wanted s = false ->
  Forall (fun n => str_eqb (name s) n = false) [NODE_CHIP_NAMES; NODE_SENSOR_LABEL; NODE_AVERAGE_INTERVAL; IPMI_DCMI; IPMI_POWER; IPMI_STATE] /\
  node_power_element (name s) = None.
Proof.
  unfold is_wanted, wanted. intros [H1 H2]%orb_false_iff. split; [|by destruct (node_power_element _)].
  apply List.Forall_forall. intros n Hn. destruct (str_eqb (name s) n) eqn:E; [|done]. exfalso.
  assert (existsb (str_eqb (name s)) [NODE_CHIP_NAMES; NODE_SENSOR_LABEL; NODE_AVERAGE_INTERVAL; IPMI_DCMI; IPMI_POWER; IPMI_STATE] = true); [|congruence].
  apply existsb_exists. by exists n.
Qed.

(** The reader may drop every metric the mapping does not want: the readings are
    the same as if the mapping saw the whole answer. *)
Theorem wanted_is_enough (samples : list Sample) : map_samples (List.filter is_wanted samples) = map_samples samples.
Proof.
  assert (forall s, is_wanted s = false -> forall n,
    n ∈ [NODE_CHIP_NAMES; NODE_SENSOR_LABEL; NODE_AVERAGE_INTERVAL; IPMI_DCMI; IPMI_POWER; IPMI_STATE] -> str_eqb (name s) n = false) as Hn.
  { intros s [Hall _]%unwanted n Hin. rewrite list.Forall_forall in Hall. by apply Hall. }
  unfold map_samples, node_exporter, ipmi_exporter. f_equal.
  - unfold drivers, keyed, power. rewrite !fold_left_filter; [done|..]; intros m s Hs.
    + unfold note_power. by destruct (unwanted s Hs) as [_ ->].
    + by rewrite Hn by (done || set_solver).
    + by rewrite Hn by (done || set_solver).
    + by rewrite Hn by (done || set_solver).
  - apply omap_filter. intros s Hs. unfold ipmi_reading. by rewrite !Hn by (done || set_solver).
Qed.

(** ** What a mapped reading is *)

Lemma watts_some v w : watts v = Some w -> w = v /\ is_finite v = true /\ f64_leb f64_zero v = true.
Proof. unfold watts. destruct (is_finite v && f64_leb f64_zero v) eqn:H; [|done]. intros [= <-]. by apply andb_true_iff in H. Qed.

Lemma power_from samples k e s : power samples !! k = Some (e, s) -> s ∈ samples /\ node_power_element (name s) = Some e /\ chip_sensor s = k.
Proof.
  assert (forall l m, (forall k e s, m !! k = Some (e, s) -> s ∈ l /\ node_power_element (name s) = Some e /\ chip_sensor s = k) ->
    forall rest k e s, fold_left note_power rest m !! k = Some (e, s) -> s ∈ l ++ rest /\ node_power_element (name s) = Some e /\ chip_sensor s = k) as H.
  { intros l m Hm rest. revert l m Hm. induction rest as [|x rest IH]; intros l m Hm k' e' s' Hl; [rewrite app_nil_r; by apply Hm|].
    cbn in Hl. replace (l ++ x :: rest) with ((l ++ [x]) ++ rest) by by rewrite <- app_assoc. eapply IH; [|exact Hl].
    intros k2 e2 s2. unfold note_power.
    assert (m !! k2 = Some (e2, s2) -> s2 ∈ l ++ [x] /\ node_power_element (name s2) = Some e2 /\ chip_sensor s2 = k2) as Hold.
    { intros H. apply Hm in H as (? & ? & ?). split; [set_solver|done]. }
    assert (forall e3, node_power_element (name x) = Some e3 -> <[chip_sensor x := (e3, x)]> m !! k2 = Some (e2, s2) ->
      s2 ∈ l ++ [x] /\ node_power_element (name s2) = Some e2 /\ chip_sensor s2 = k2) as Hnew.
    { intros e3 He [[<- [= <- <-]]|[_ H]]%lookup_insert_Some; [|by apply Hold]. split; [set_solver|done]. }
    destruct (node_power_element (name x)) as [[]|] eqn:Ex; [|by apply Hnew|by apply Hold].
    destruct (m !! chip_sensor x); [by apply Hold|by apply Hnew]. }
  intros Hp. apply (H [] ∅); [|exact Hp]. intros ? ? ?. by rewrite lookup_empty.
Qed.

Definition averaged (s : Sample) : bool := match node_power_element (name s) with Some Average => true | _ => false end.

(** A wattage comes from one sample, finite and not negative; an averaged one only
    with a usable averaging period, any other with none. *)
Definition honest_reading (samples : list Sample) (r : Reading) : Prop :=
  match measurement r with
  | Watts (Some w) =>
      exists s, s ∈ samples /\ value s = w /\ is_finite w = true /\ f64_leb f64_zero w = true /\
                if averaged s then in_window (window_seconds r) = true else window_seconds r = f64_zero
  | Watts None => True
  | State (Some st) => st ∈ [lit "ok"; lit "warning"; lit "failed"] /\ window_seconds r = f64_zero
  | State None => window_seconds r = f64_zero
  end.

Lemma node_reading_honest samples dr ls intervals k e s r :
  s ∈ samples -> node_power_element (name s) = Some e ->
  node_reading dr ls intervals (k, (e, s)) = Some r -> honest_reading samples r.
Proof.
  intros Hs He. unfold node_reading. destruct (dr !! fst k); [|done]. destruct (boundary _ _) as [b|]; [|done].
  destruct (node_measure intervals k e s) as [w window] eqn:Em. intros [= <-]. cbn. destruct w as [w|]; [|done].
  unfold node_measure in Em. destruct e.
  - injection Em as Ew <-. apply watts_some in Ew as (-> & Hf & Hl). exists s. split_and!; try done. unfold averaged. by rewrite He.
  - destruct (intervals !! k) as [i|]; [|done]. destruct (in_window (value i)) eqn:Hi; [|done]. injection Em as Ew <-.
    apply watts_some in Ew as (-> & Hf & Hl). exists s. split_and!; try done. unfold averaged. by rewrite He.
Qed.

Lemma ipmi_reading_honest samples s r : s ∈ samples -> ipmi_reading s = Some r -> honest_reading samples r.
Proof.
  intros Hs. assert (forall n, str_eqb (name s) n = true -> node_power_element n = None -> averaged s = false) as Hav.
  { intros n Hn%str_eqb_eq Hp. unfold averaged. by rewrite Hn, Hp. }
  assert (forall m sn b sup, averaged s = false -> honest_reading samples (mkReading m sn b sup (Watts (watts (value s))) f64_zero)) as Hw.
  { intros m sn b sup Ha. unfold honest_reading. cbn. destruct (watts (value s)) as [w|] eqn:Ew; [|done].
    apply watts_some in Ew as (-> & ? & ?). exists s. rewrite Ha. done. }
  unfold ipmi_reading. destruct (str_eqb (name s) IPMI_DCMI) eqn:E1; [intros [= <-]; apply Hw; by eapply Hav|].
  destruct (str_eqb (name s) IPMI_POWER) eqn:E2.
  { destruct (supply_sensor _) as [[sup [d|]]|]; [|done..]. intros [= <-]. apply Hw. by eapply Hav. }
  destruct (_ && _); [|done]. destruct (supply_sensor _) as [[sup d]|]; [|done]. intros [= <-]. unfold honest_reading. cbn.
  unfold supply_state. destruct (f64_eqb _ _); [set_solver|]. destruct (f64_eqb _ _); [set_solver|]. by destruct (f64_eqb _ _); [set_solver|].
Qed.

(** The mapping makes nothing up: every wattage is the value of a sample the
    exporter served, finite and not negative; an averaged one is passed on only
    with an averaging period between a millisecond and a day, and never as an
    instantaneous one; a supply's state is one of three. *)
Theorem mapped_readings_honest (samples : list Sample) : Forall (honest_reading samples) (map_samples samples).
Proof.
  apply list.Forall_app. split; apply list.Forall_forall; intros r Hr.
  - apply list_elem_of_omap in Hr as ([k [e s]] & Hin & Hr).
    rewrite merge_sort_Permutation in Hin. apply elem_of_map_to_list in Hin. apply power_from in Hin as (Hs & He & _).
    by eapply node_reading_honest.
  - apply list_elem_of_omap in Hr as (s & Hs & Hr). by eapply ipmi_reading_honest.
Qed.
