(* ===== verification/Modules.v ===== *)
(** * The collector modules' lifecycles

    [snmp/worker.rs], [gnmi/worker.rs], [libvirt/worker.rs], [exporters/mod.rs]
    ([Scrapers]), [power/pdu/mod.rs] and [power/bmc/mod.rs] ([Pollers]), and the
    polling loop of [switch_report.rs].

    Every module thread is told to stop through a [Cancellation] of its own.
    [cells] is the store of these flags, one per cancellation created, with the
    settings it was created for; a [Cancellation] is its place in the store.  The
    settings are any type with decidable equality, as the code compares them. *)

From stdpp Require Import sorting.
From S2P Require Import Prelude.

Section modules.
Context {C : Type} `{!EqDecision C}.

(** A cancellation: what it was made for, and whether it was cancelled. *)
Record cell := mkCell { made_for : list C; stopped : bool }.
Abbreviation cells := (list cell).

Definition fresh_cell (cs : list C) (s : cells) : cells * nat := (s ++ [mkCell cs false], length s).
Definition cancel_cell (i : nat) (s : cells) : cells := alter (fun c => mkCell (made_for c) true) i s.

(** ** snmp/worker.rs *)

Abbreviation running := (list (C * nat)).

(** [Vec::swap_remove]: the last element takes the place of the one removed. *)
Definition swap_remove {A} (i : nat) (l : list A) : list A :=
  match l !! i, last_opt l with
  | Some _, Some x => take (length l - 1) (<[i := x]> l)
  | _, _ => l
  end.

(** The loop of [reload_with] over the new collectors: kept modules, collectors to
    start, and what is left of the previous ones. *)
Fixpoint sort_out (collectors : list C) (previous kept : running) (starting : list C)
  : running * running * list C :=
  match collectors with
  | [] => (previous, kept, starting)
  | c :: collectors' =>
      match position (fun m => bool_decide (fst m = c)) previous with
      | Some i =>
          match previous !! i with
          | Some m => sort_out collectors' (swap_remove i previous) (kept ++ [m]) starting
          | None => sort_out collectors' previous kept starting
          end
      | None => sort_out collectors' previous kept (starting ++ [c])
      end
  end.

Fixpoint stop_all (l : running) (s : cells) : cells :=
  match l with [] => s | (_, i) :: l' => stop_all l' (cancel_cell i s) end.

Fixpoint start_all (l : list C) (kept : running) (s : cells) : running * cells :=
  match l with
  | [] => (kept, s)
  | c :: l' => let '(s, i) := fresh_cell [c] s in start_all l' (kept ++ [(c, i)]) s
  end.

(** [Modules::reload]: superseded modules stop before their replacements start. *)
Definition reload (collectors : list C) (m : running) (s : cells) : running * cells :=
  let '(previous, kept, starting) := sort_out collectors m [] [] in
  start_all starting kept (stop_all previous s).

Definition modules_start (collectors : list C) (s : cells) : running * cells := reload collectors [] s.
Definition modules_stop (m : running) (s : cells) : cells := stop_all m s.

(** ** gNMI modules, scrapers and pollers: one cancellation for all *)

Record group := mkGroup { members : list C; group_stop : nat }.

Definition group_start (cs : list C) (s : cells) : group * cells :=
  let '(s, i) := fresh_cell cs s in (mkGroup cs i, s).
Definition group_drop (g : group) (s : cells) : cells := cancel_cell (group_stop g) s.

(** What a reload does with a group: it is replaced only if its settings changed,
    and the old one is told to stop first. *)
Definition group_reload (cs : list C) (g : group) (s : cells) : group * cells :=
  if bool_decide (members g = cs) then (g, s) else group_start cs (group_drop g s).

(** ** libvirt/worker.rs: at most one module, and the threads it replaced *)

Record Module := mkLibvirt {
  lv_collector : option C;
  lv_stop : nat;
  lv_thread : option nat;          (* the cancellation its thread was given *)
  retired : list nat }.

Definition settings_list (o : option C) : list C := match o with Some c => [c] | None => [] end.

(** [spawned] says whether the operating system started the thread. *)
Definition module_start (spawned : bool) (o : option C) (s : cells) : Module * cells :=
  let '(s, i) := fresh_cell (settings_list o) s in
  (mkLibvirt o i (match o with Some _ => if spawned then Some i else None | None => None end) [], s).

(** [finished] says which threads have ended. *)
Definition restart (spawned : bool) (finished : nat -> bool) (o : option C) (m : Module) (s : cells) : Module * cells :=
  let s := cancel_cell (lv_stop m) s in
  let retired := List.filter (fun t => negb (finished t))
    (retired m ++ match lv_thread m with Some t => [t] | None => [] end) in
  let '(s, i) := fresh_cell (settings_list o) s in
  (mkLibvirt o i (match o with Some _ => if spawned then Some i else None | None => None end) retired, s).

(** [shutdown]: the threads it joins, in order. *)
Definition shutdown (m : Module) (s : cells) : list nat * cells :=
  (match lv_thread m with Some t => [t] | None => [] end ++ retired m, cancel_cell (lv_stop m) s).

(** ** What reloads guarantee *)

(** The modules running and the store agree: each running module has its own
    cancellation, made for its settings and not cancelled, and every cancellation
    of another module has been cancelled. *)
Record agree (m : running) (s : cells) : Prop := mkAgree {
  agree_nodup : NoDup (map snd m);
  agree_running : forall c i, (c, i) ∈ m -> s !! i = Some (mkCell [c] false);
  agree_others : forall i x, s !! i = Some x -> i ∉ map snd m -> stopped x = true }.

Lemma swap_remove_perm {A} i (l : list A) x :
  l !! i = Some x -> l ≡ₚ x :: swap_remove i l.
Proof.
  intros Hi. unfold swap_remove. rewrite Hi. destruct l as [|y l' _] using rev_ind; [done|].
  rewrite last_opt_snoc, length_app. cbn [length]. replace (length l' + 1 - 1)%nat with (length l') by lia.
  destruct (decide (i = length l')) as [->|Hne].
  - rewrite list_lookup_middle in Hi by done. injection Hi as ->.
    rewrite insert_app_r_alt, Nat.sub_diag by done. cbn. rewrite take_app_length.
    by rewrite Permutation_app_comm.
  - assert (i < length l')%nat as Hlt.
    { apply lookup_lt_Some in Hi. rewrite length_app in Hi. cbn in Hi. lia. }
    rewrite lookup_app_l in Hi by done. rewrite insert_app_l by done.
    rewrite take_app_length' by (by rewrite length_insert).
    rewrite <- (take_drop_middle l' i x Hi) at 1. rewrite insert_take_drop by done.
    rewrite <- !app_assoc. cbn [app]. rewrite <- Permutation_middle. apply perm_skip.
    apply Permutation_app_head. by rewrite Permutation_app_comm.
Qed.

(** [sort_out] splits the previous modules into those kept, whose settings are
    among the collectors, and the rest, and finds what must start. *)
Lemma sort_out_perm collectors : forall previous kept starting previous' kept' starting',
  sort_out collectors previous kept starting = (previous', kept', starting') ->
  kept ++ previous ≡ₚ kept' ++ previous' /\
  map fst kept' ++ starting' ≡ₚ (map fst kept ++ starting) ++ collectors.
Proof.
  induction collectors as [|c cs IH]; intros previous kept starting p' k' s'; cbn [sort_out].
  { intros [= <- <- <-]. by rewrite app_nil_r. }
  destruct (position _ previous) as [i|] eqn:Hp.
  - apply position_Some in Hp as ([c' j] & Hi & Hc & _). cbn in Hc. bool_simpl. subst c'. rewrite Hi.
    intros E. apply IH in E as [H1 H2]. split.
    + rewrite <- H1, <- app_assoc. apply Permutation_app_head, (swap_remove_perm i previous (c, j) Hi).
    + rewrite H2, map_app, <- !app_assoc. cbn [map fst app]. apply Permutation_app_head.
      by rewrite Permutation_middle.
  - intros E. apply IH in E as [H1 H2]. split; [done|]. rewrite H2, <- !app_assoc. done.
Qed.

(** A module whose settings are still wanted keeps running. *)
Lemma sort_out_keeps collectors : forall previous kept starting previous' kept' starting',
  NoDup (map fst previous) ->
  sort_out collectors previous kept starting = (previous', kept', starting') ->
  forall c i, (c, i) ∈ kept \/ (c, i) ∈ previous /\ c ∈ collectors -> (c, i) ∈ kept'.
Proof.
  induction collectors as [|c0 cs IH]; intros previous kept starting p' k' s' Hn; cbn [sort_out].
  { intros [= <- <- <-] c i [?|[_ H]]; [done|by inversion H]. }
  destruct (position _ previous) as [j|] eqn:Hp.
  - apply position_Some in Hp as ([c' i'] & Hj & Hc & _). cbn in Hc. bool_simpl. subst c'. rewrite Hj.
    pose proof (swap_remove_perm j previous _ Hj) as Hperm.
    assert (NoDup (map fst (swap_remove j previous))) as Hn'.
    { rewrite Hperm in Hn. cbn [map] in Hn. by apply list.NoDup_cons in Hn as [_ ?]. }
    intros E c i H. apply (IH _ _ _ _ _ _ Hn' E c i).
    destruct H as [H|[Hin Hcs]]; [left; apply elem_of_app; by left|].
    rewrite Hperm in Hin. apply elem_of_cons in Hin as [[= -> ->]|Hin].
    { left. apply elem_of_app. right. by apply list_elem_of_singleton. }
    apply elem_of_cons in Hcs as [->|Hcs]; [|by right].
    exfalso. rewrite Hperm in Hn. cbn [map fst] in Hn. apply list.NoDup_cons in Hn as [Hn _].
    apply Hn. by apply (list_elem_of_fmap_2 fst) in Hin.
  - apply position_None in Hp. intros E c i [H|[Hin Hcs]]; apply (IH _ _ _ _ _ _ Hn E c i); [by left|].
    apply elem_of_cons in Hcs as [->|Hcs]; [|by right].
    rewrite List.Forall_forall in Hp. specialize (Hp (c0, i)). cbn in Hp.
    rewrite bool_decide_eq_true_2 in Hp by done. by apply list_elem_of_In, Hp in Hin.
Qed.

Lemma stop_all_lookup l : forall s i,
  stop_all l s !! i = (fun c => if bool_decide (i ∈ map snd l) then mkCell (made_for c) true else c) <$> s !! i.
Proof.
  induction l as [|[c j] l IH]; intros s i; cbn [stop_all map snd].
  { rewrite bool_decide_eq_false_2 by (by inversion 1). by destruct (s !! i). }
  rewrite IH. unfold cancel_cell. destruct (decide (j = i)) as [->|Hne].
  - rewrite list_lookup_alter_eq, (bool_decide_eq_true_2 (i ∈ i :: _)) by left.
    destruct (s !! i) as [x|]; [|done]. cbn. by destruct (bool_decide _).
  - rewrite list_lookup_alter_ne by done. destruct (s !! i) as [x|]; [|done]. cbn. f_equal.
    destruct (bool_decide (i ∈ map snd l)) eqn:Hb; bool_simpl.
    + rewrite bool_decide_eq_true_2; [done|by right].
    + rewrite bool_decide_eq_false_2; [done|]. by intros [?|?]%elem_of_cons.
Qed.

Lemma stop_all_length l : forall s, length (stop_all l s) = length s.
Proof. induction l as [|[c j] l IH]; intros s; [done|]. cbn [stop_all]. rewrite IH. apply length_alter. Qed.

Lemma start_all_agree l : forall kept s,
  agree kept s -> let '(m, s') := start_all l kept s in
  agree m s' /\ map fst m = map fst kept ++ l /\ kept `prefix_of` m /\ (forall i, (i < length s)%nat -> s' !! i = s !! i).
Proof.
  induction l as [|c l IH]; intros kept s Ha; cbn [start_all].
  { by rewrite app_nil_r. }
  cbn [fresh_cell]. specialize (IH (kept ++ [(c, length s)]) (s ++ [mkCell [c] false])).
  destruct Ha as [Hn Hr Ho].
  assert (length s ∉ map snd kept) as Hfresh.
  { intros ((c' & i) & E & Hin)%list_elem_of_fmap. cbn [snd] in E. apply Hr, lookup_lt_Some in Hin. lia. }
  assert (agree (kept ++ [(c, length s)]) (s ++ [mkCell [c] false])) as Ha'.
  { constructor.
    - rewrite map_app. apply list.NoDup_app. split; [done|]. split; [|apply NoDup_singleton].
      intros x Hx Hx'%list_elem_of_singleton. by subst x.
    - intros c' i [Hin|[= -> ->]%list_elem_of_singleton]%elem_of_app.
      + by apply lookup_app_l_Some, Hr.
      + by rewrite lookup_app_r, Nat.sub_diag.
    - intros i x Hi Hnot. rewrite map_app in Hnot. apply not_elem_of_app in Hnot as [Hnot Hlast].
      apply lookup_app_Some in Hi as [Hi|[Hge Hi]]; [by eapply Ho|].
      destruct (i - length s)%nat as [|n] eqn:Hd; [|done]. exfalso. apply Hlast, list_elem_of_singleton. cbn. lia. }
  specialize (IH Ha'). destruct (start_all l _ _) as [m s']. destruct IH as (H1 & H2 & H3 & H4).
  split_and!; [done| | |].
  - rewrite H2, map_app, <- app_assoc. done.
  - etransitivity; [|exact H3]. by eexists.
  - intros i Hi. rewrite H4 by (rewrite length_app; lia). by rewrite lookup_app_l.
Qed.

Lemma stop_some_agree (m kept previous : running) s :
  agree m s -> m ≡ₚ kept ++ previous -> agree kept (stop_all previous s).
Proof.
  intros [Hn Hr Ho] Hm.
  assert (NoDup (map snd kept ++ map snd previous)) as Hn' by (by rewrite <- map_app, <- Hm).
  apply list.NoDup_app in Hn' as (Hk & Hd & _). constructor; [done| |].
  - intros c i Hin. assert (i ∉ map snd previous) as Hi.
    { apply Hd. by apply (list_elem_of_fmap_2 snd) in Hin. }
    rewrite stop_all_lookup, bool_decide_eq_false_2 by done.
    rewrite (Hr c i); [done|]. rewrite Hm. apply elem_of_app. by left.
  - intros i x. rewrite stop_all_lookup. destruct (s !! i) as [y|] eqn:Hy; [|done]. cbn. intros [= <-] Hi.
    destruct (bool_decide (i ∈ map snd previous)) eqn:Hb; [done|]. bool_simpl. eapply Ho; [exact Hy|].
    by rewrite Hm, map_app, not_elem_of_app.
Qed.

Lemma reload_agree (collectors : list C) (m : running) (s : cells) :
  agree m s ->
  let '(m', s') := reload collectors m s in
  agree m' s' /\ map fst m' ≡ₚ collectors /\
  (NoDup (map fst m) -> forall c i, (c, i) ∈ m -> c ∈ collectors -> (c, i) ∈ m') /\
  (forall c i, (c, i) ∈ m -> (c, i) ∉ m' -> s' !! i = Some (mkCell [c] true)).
Proof.
  intros Ha. unfold reload. destruct (sort_out collectors m [] []) as [[previous kept] starting] eqn:E.
  pose proof (sort_out_perm _ _ _ _ _ _ _ E) as [H1 H2]. cbn [app map] in H1, H2.
  pose proof (start_all_agree starting kept _ (stop_some_agree m kept previous s Ha H1)) as H3.
  destruct (start_all starting kept _) as [m' s']. destruct H3 as (Ha' & Hf & Hp & Hs).
  split_and!; [done|by rewrite Hf| |].
  - intros Hn c i Hin Hc. eapply elem_of_prefix; [|exact Hp].
    eapply (sort_out_keeps _ _ _ _ _ _ _ Hn E). by right.
  - intros c i Hin Hnot. assert ((c, i) ∈ previous) as Hpr.
    { rewrite H1 in Hin. apply elem_of_app in Hin as [Hk|?]; [|done]. destruct Hnot. by eapply elem_of_prefix. }
    destruct Ha as [_ Hr _]. specialize (Hr c i Hin).
    rewrite Hs by (rewrite stop_all_length; by eapply lookup_lt_Some).
    rewrite stop_all_lookup, Hr, bool_decide_eq_true_2; [done|]. by apply (list_elem_of_fmap_2 snd) in Hpr.
Qed.

Lemma reload_runs (collectors : list C) (m : running) (s : cells) :
  agree m s -> let '(m', s') := reload collectors m s in agree m' s' /\ map fst m' ≡ₚ collectors.
Proof.
  intros Ha. pose proof (reload_agree collectors m s Ha) as H. destruct (reload collectors m s). tauto.
Qed.

(** Putting new SNMP modules into effect: afterwards exactly the configured
    modules run, each with a cancellation of its own that nobody has cancelled;
    every other module that ever ran has been told to stop; and a module whose
    settings did not change is the same one as before, so it keeps its schedule. *)
Theorem reload_runs_exactly (collectors : list C) (m : running) (s : cells) :
  agree m s ->
  let '(m', s') := reload collectors m s in
  agree m' s' /\ map fst m' ≡ₚ collectors /\
  (NoDup (map fst m) -> forall c i, (c, i) ∈ m -> c ∈ collectors -> (c, i) ∈ m') /\
  (forall c i, (c, i) ∈ m -> (c, i) ∉ m' -> s' !! i = Some (mkCell [c] true)).
Proof.
  intros Ha. by apply reload_agree.
Qed.

(** [lone cs i s]: the cancellation [i] was made for [cs] and nobody cancelled it,
    and every other cancellation of the store has been cancelled. *)
Definition all_stopped (s : cells) : Prop := forall j x, s !! j = Some x -> stopped x = true.
Definition lone (cs : list C) (i : nat) (s : cells) : Prop :=
  s !! i = Some (mkCell cs false) /\ forall j x, s !! j = Some x -> j <> i -> stopped x = true.

Lemma lone_cancelled cs i s : lone cs i s -> all_stopped (cancel_cell i s).
Proof.
  intros [_ Ho] j x. unfold cancel_cell. destruct (decide (i = j)) as [->|Hne].
  - rewrite list_lookup_alter_eq. destruct (s !! j); [|done]. by intros [= <-].
  - rewrite list_lookup_alter_ne by done. intros Hj. by eapply Ho.
Qed.

Lemma lone_fresh cs s : all_stopped s -> lone cs (length s) (s ++ [mkCell cs false]).
Proof.
  intros Ha. split; [by rewrite lookup_app_r, Nat.sub_diag|]. intros j x Hj Hne.
  apply lookup_app_Some in Hj as [Hj|[Hge Hj]]; [by eapply Ha|].
  apply lookup_lt_Some in Hj. cbn in Hj. lia.
Qed.

(** A group is replaced only when its settings changed, and never runs beside its
    replacement: the old one is told to stop before the new one starts. *)
Lemma group_reload_lone cs g s :
  lone (members g) (group_stop g) s ->
  let '(g', s') := group_reload cs g s in
  members g' = cs /\ lone cs (group_stop g') s' /\
  (members g = cs -> g' = g /\ s' = s).
Proof.
  intros Hg. unfold group_reload. destruct (bool_decide (members g = cs)) eqn:Hb; bool_simpl.
  { subst cs. split_and!; done. }
  unfold group_start, group_drop, fresh_cell. cbn [members group_stop].
  split_and!; [done| |done]. by eapply lone_fresh, lone_cancelled.
Qed.

(** The libvirt module: it has the only cancellation nobody cancelled; its thread,
    when the operating system could start one, is told by that cancellation; it has
    none without a collector; and each thread it replaced has been told to stop. *)
Record alone (o : option C) (m : Module) (s : cells) : Prop := mkAlone {
  alone_collector : lv_collector m = o;
  alone_stop : lone (settings_list o) (lv_stop m) s;
  alone_thread : forall t, lv_thread m = Some t -> t = lv_stop m /\ is_Some o;
  alone_retired : forall t, t ∈ retired m -> exists x, s !! t = Some x /\ stopped x = true }.

Lemma module_start_alone spawned o : let '(m, s) := module_start spawned o [] in alone o m s.
Proof.
  unfold module_start, fresh_cell. constructor; cbn; [done| | |].
  - by apply (lone_fresh _ []).
  - intros t. by destruct o, spawned; intros [= <-].
  - intros t H. by inversion H.
Qed.

Lemma restart_alone spawned finished o o' m s :
  alone o m s -> let '(m', s') := restart spawned finished o' m s in alone o' m' s'.
Proof.
  intros [Hc Hs Ht Hr]. unfold restart, fresh_cell. cbn. pose proof (lone_cancelled _ _ _ Hs) as Ha.
  assert (forall t x, s !! t = Some x -> exists y,
            (cancel_cell (lv_stop m) s ++ [mkCell (settings_list o') false]) !! t = Some y /\ stopped y = true) as Hold.
  { intros t x Hx. destruct (cancel_cell (lv_stop m) s !! t) as [y|] eqn:Hy.
    - exists y. split; [by apply lookup_app_l_Some|by eapply Ha].
    - apply lookup_ge_None in Hy. apply lookup_lt_Some in Hx. unfold cancel_cell in Hy. rewrite length_alter in Hy. lia. }
  constructor; cbn; [done|by apply lone_fresh| |].
  - intros t. by destruct o', spawned; intros [= <-].
  - intros t (Hin & _)%list_elem_of_In%filter_In. apply list_elem_of_In, elem_of_app in Hin as [Hin|Hin].
    + apply Hr in Hin as (x & Hx & _). by eapply Hold.
    + destruct (lv_thread m) as [t'|] eqn:Et; [|by inversion Hin]. apply list_elem_of_singleton in Hin as ->.
      destruct (Ht t' eq_refl) as [-> _]. destruct Hs as [Hs _]. by eapply Hold.
Qed.

(** Every libvirt thread still running when the agent shuts down is waited for: a
    restart retires the running thread, and forgets only threads that ended. *)
Lemma restart_keeps_threads spawned finished o m s t :
  let threads m := match lv_thread m with Some t => [t] | None => [] end ++ retired m in
  t ∈ threads m -> finished t = false -> t ∈ threads (fst (restart spawned finished o m s)).
Proof.
  intros threads Ht Hf. unfold threads, restart. cbn [fresh_cell fst lv_thread retired].
  apply elem_of_app. right. apply list_elem_of_In, filter_In. split; [|by rewrite Hf].
  apply list_elem_of_In. unfold threads in Ht. apply elem_of_app in Ht as [Ht|Ht]; apply elem_of_app; [by right|by left].
Qed.
End modules.

(** ** Three modules, one of them changed *)

Definition two_running : list (Z * nat) := [(1, 0%nat); (2, 1%nat)].
Definition two_cells : list (@cell Z) := [mkCell [1] false; mkCell [2] false].

Lemma reload_runs_exactly_witness :
  let '(m', s') := reload [2; 3] two_running two_cells in
  map fst m' ≡ₚ [2; 3] /\ (2, 1%nat) ∈ m' /\ s' !! 0%nat = Some (mkCell [1] true).
Proof.
  assert (agree two_running two_cells) as Ha.
  { constructor.
    - apply (bool_decide_unpack _). vm_compute. exact I.
    - intros c i [[= -> ->]|[[= -> ->]|H]%elem_of_cons]%elem_of_cons; [done..|by inversion H].
    - intros [|[|i]] x Hi Hnot; [destruct Hnot; left|destruct Hnot; right; left|done]. }
  pose proof (reload_runs_exactly [2; 3] two_running two_cells Ha) as H.
  destruct (reload [2; 3] two_running two_cells) as [m' s'] eqn:E. destruct H as (_ & Hp & Hk & Hs).
  split_and!.
  - exact Hp.
  - apply Hk; [apply (bool_decide_unpack _); vm_compute; exact I|right; left|left].
  - apply (Hs 1 0%nat); [left|]. vm_compute in E. injection E as <- <-.
    apply (bool_decide_unpack _). vm_compute. exact I.
Defined.
