(* ===== verification/Daemon.v ===== *)
(** * main.rs: the daemon

    [run_configured] after start-up: one scheduler thread that checks in, starts
    inventories, flushes and job passes on other threads, reloads the
    configuration, and follows the organization when its home says it moved.

    The state is what the function's local variables hold, with the state
    directory and the shared cells of the HTTP clients.  A thread started
    elsewhere is represented by what it was given ([Pass], [DeliveryTask],
    [Resolution], the client of a listener).  What it does meanwhile, the clock,
    shutdown, the configuration file and the server are [DaemonEnv], an abstract
    world whose every answer is arbitrary.  An instant that overflows panics, as
    [Instant + Duration] does. *)

From Stdlib Require Import String.
From S2P Require Import Prelude Text Fs Interfaces Identity Transport Jobs Osquery SnmpConfig GnmiConfig LibvirtConfig.
From S2P Require Import BmcConfig ExportersConfig Config Client Home Payload PowerCollector Queue Scheduler Modules.

#[local] Set Warnings "-notation-overridden".

Definition INVENTORY_DEFER : Z := from_secs 1.
Definition FLUSH_DEFER : Z := from_secs 1.
Definition HOME_RETRY_INITIAL : Z := from_secs 5.
Definition HOME_RETRY_MAX : Z := from_secs 300.
Definition RELOCATION_RETRY_INITIAL : Z := from_secs 30.
Definition RELOCATION_RETRY_MAX : Z := from_secs 900.
Definition DAEMON_RELOCATION_RETRY : Z := RELOCATION_RETRY_INITIAL.
Definition RELOAD_DEFER : Z := from_secs 1.

(** ** Equality of settings, as the code compares them *)

#[export] Instance Selector_eq_dec : EqDecision Selector.
Proof. solve_decision. Defined.
#[export] Instance JobPolicy_eq_dec : EqDecision JobPolicy.
Proof. solve_decision. Defined.
#[export] Instance OsqueryConfig_eq_dec : EqDecision OsqueryConfig.
Proof. solve_decision. Defined.
#[export] Instance AuthProtocol_eq_dec : EqDecision AuthProtocol.
Proof. solve_decision. Defined.
#[export] Instance PrivacyProtocol_eq_dec : EqDecision PrivacyProtocol.
Proof. solve_decision. Defined.
#[export] Instance snmp_Credentials_eq_dec : EqDecision SnmpConfig.Credentials.
Proof. solve_decision. Defined.
#[export] Instance SnmpCollector_eq_dec : EqDecision SnmpCollector.
Proof. solve_decision. Defined.
#[export] Instance gnmi_Credentials_eq_dec : EqDecision GnmiConfig.Credentials.
Proof. solve_decision. Defined.
#[export] Instance ClientIdentity_eq_dec : EqDecision ClientIdentity.
Proof. solve_decision. Defined.
#[export] Instance gnmi_Transport_eq_dec : EqDecision GnmiConfig.Transport.
Proof. solve_decision. Defined.
#[export] Instance GnmiCollector_eq_dec : EqDecision GnmiCollector.
Proof. solve_decision. Defined.
#[export] Instance LibvirtCollector_eq_dec : EqDecision LibvirtCollector.
Proof. solve_decision. Defined.
#[export] Instance BmcTarget_eq_dec : EqDecision BmcTarget.
Proof. solve_decision. Defined.
#[export] Instance BmcCollector_eq_dec : EqDecision BmcCollector.
Proof. solve_decision. Defined.
#[export] Instance Endpoint_eq_dec {L : UrlApi} : EqDecision Endpoint.
Proof. solve_decision. Defined.
#[export] Instance Exporter_eq_dec {L : UrlApi} : EqDecision Exporter.
Proof. solve_decision. Defined.

(** ** Relocation *)

Record Relocation := mkRelocation { not_before : Z; delay : Z }.

Definition relocation_new (now first_delay : Z) : Relocation := mkRelocation now first_delay.
Definition relocation_due (r : Relocation) (now : Z) : bool := not_before r <=? now.
(** [back_off], without the delay it returns for the log. *)
Definition back_off (now : Z) (r : Relocation) : option Relocation :=
  let+ at_ := checked_add_instant now (delay r) in
  Some (mkRelocation at_ (Z.min (delay r * 2) RELOCATION_RETRY_MAX)).

(** ** Deliveries *)

Inductive DeliveryTask := TInventory | TFlush.
#[export] Instance DeliveryTask_eq_dec : EqDecision DeliveryTask.
Proof. solve_decision. Defined.

Definition next_flush (running : option DeliveryTask) : Z :=
  match running with
  | Some TInventory => FLUSH_DEFER
  | Some TFlush | None => FLUSH_INTERVAL
  end.

(** ** Job catalogue *)

Definition query (name : string) (timeout : Z) (default : bool) : Capability :=
  mkCapability (lit name) 1 Observe Idempotent timeout default.

Definition inventory_collect : Capability :=
  mkCapability (lit "inventory.collect") 1 Observe Idempotent (from_secs 300) (default_enabled Observe).

(** [queries::catalog] on Linux. *)
Definition queries_catalog : list Capability :=
  [query "query.listening_sockets" (from_secs 30) false; query "query.services" (from_secs 30) false;
   query "query.disk_usage" (from_secs 30) true; query "query.routes" (from_secs 30) true;
   query "query.time_sync" (from_secs 30) true; query "query.packages" (from_secs 60) false;
   query "query.sql" (from_secs 30) false].

Definition job_catalog : list Capability := inventory_collect :: queries_catalog.

(** [collectors::capabilities()] on the platforms the agent ships for. *)
Definition job_capabilities (catalog : list Capability) (policy : JobPolicy) : list bytes :=
  [lit "host.inventory"] ++ enabled_keys catalog policy.

Definition leases_now (checkin : result CheckInAck bytes) : bool :=
  match checkin with
  | Ok ack => negb (bool_decide (jobs_waiting ack = Some false))
  | Err _ => true
  end.

Section daemon.
Context {J : Json} {U : Uuid} {L : UrlApi} {K : Ed25519} {B : Base64} {N : Net} {C : HomeCodec}.
Context (show_io : io_kind -> bytes) (display : bytes) (header_value : bytes -> option bytes)
        (build : Z -> result unit TransportError) (version : bytes).

(** ** State *)

Inductive Purpose := PReload (config : Config) | PRelocation.

(** [fetching] is the configuration whose address is asked. *)
Record Resolution := mkResolution { purpose : Purpose; fetching : Config }.

(** [Resolution::spawn]: the thread asks the address of the configuration a reload is for, or
    of the one in effect. *)
Definition spawn_resolution (p : Purpose) (c : Config) : Resolution :=
  mkResolution p (match p with PReload new_config => new_config | PRelocation => c end).

(** What a job pass was built from. *)
Record Pass := mkPass {
  pass_client : HttpClient; pass_labels : list (bytes * bytes); pass_jobs : JobPolicy; pass_osquery : OsqueryConfig;
  pass_generation : Z }.

(** The collector modules with their cancellations. *)
Record collectors := mkCollectors {
  m_snmp : list (SnmpCollector * nat); c_snmp : list (@cell SnmpCollector);
  m_gnmi : @group GnmiCollector; c_gnmi : list (@cell GnmiCollector);
  m_libvirt : @Module LibvirtCollector; c_libvirt : list (@cell LibvirtCollector);
  m_exporters : @group Exporter; c_exporters : list (@cell Exporter);
  m_pdus : @group SnmpCollector; c_pdus : list (@cell SnmpCollector);
  m_bmcs : @group BmcCollector; c_bmcs : list (@cell BmcCollector);
  m_sources : PowerSources }.

Record daemon := mkDaemon {
  config : Config;
  current_home : Home;
  client : HttpClient;
  sched : Scheduler;
  relocation : option Relocation;
  resolution : option Resolution;
  listener : option HttpClient;        (* the client its endpoint comes from *)
  job_worker : option Pass;
  delivery_worker : option DeliveryTask;
  generation : Z;
  modules : collectors;
  shared : agent;
  directory : world }.

(** The world outside this thread. *)
Class DaemonEnv := {
  outer : Type;
  instant_now : outer -> outer * Z;
  stop_asked : outer -> outer * bool;
  load_config : outer -> outer * result Config bytes;
  queue_health : outer -> outer * (option QueueHealth * option QueueHealth);
  wall_now : outer -> outer * Z;
  osquery_probe : OsqueryConfig -> outer -> outer * option BackendStatus;
  checkin_answer : HttpClient -> Payload.CheckIn -> outer -> outer * result CheckInAck bytes;
  delivery_finished : outer -> outer * bool;
  pass_finished : outer -> outer * bool;
  notice_taken : outer -> outer * bool;
  resolution_finished : outer -> outer * bool;
  resolution_result : outer -> outer * result Home bytes;
  libvirt_spawned : outer -> outer * bool;
  libvirt_finished : outer -> outer * (nat -> bool);
  fresh_uuid : outer -> outer * uuid;
  meanwhile : agent -> outer -> outer * agent;          (* what other threads did to the shared cells *)
  sleeping : Z -> outer -> outer }.
Context {E : DaemonEnv}.

Inductive panic := InstantOverflow.

Abbreviation D := (ST (daemon * outer) panic).

Definition ask {A} (f : outer -> outer * A) : D A := fun s => let '(w, a) := f (snd s) in ((fst s, w), Ok a).
Definition get : D daemon := fun s => (s, Ok (fst s)).
Definition modify (f : daemon -> daemon) : D unit := fun s => ((f (fst s), snd s), Ok tt).
Definition or_panic {A} (o : option A) : D A :=
  match o with Some a => st_ret a | None => st_err InstantOverflow end.

Definition set_sched (x : Scheduler) (d : daemon) : daemon :=
  mkDaemon (config d) (current_home d) (client d) x (relocation d) (resolution d) (listener d) (job_worker d)
    (delivery_worker d) (generation d) (modules d) (shared d) (directory d).
Definition set_relocation (x : option Relocation) (d : daemon) : daemon :=
  mkDaemon (config d) (current_home d) (client d) (sched d) x (resolution d) (listener d) (job_worker d)
    (delivery_worker d) (generation d) (modules d) (shared d) (directory d).
Definition set_resolution (x : option Resolution) (d : daemon) : daemon :=
  mkDaemon (config d) (current_home d) (client d) (sched d) (relocation d) x (listener d) (job_worker d)
    (delivery_worker d) (generation d) (modules d) (shared d) (directory d).
Definition set_job_worker (x : option Pass) (d : daemon) : daemon :=
  mkDaemon (config d) (current_home d) (client d) (sched d) (relocation d) (resolution d) (listener d) x
    (delivery_worker d) (generation d) (modules d) (shared d) (directory d).
Definition set_delivery (x : option DeliveryTask) (d : daemon) : daemon :=
  mkDaemon (config d) (current_home d) (client d) (sched d) (relocation d) (resolution d) (listener d) (job_worker d)
    x (generation d) (modules d) (shared d) (directory d).
Definition set_modules (x : collectors) (d : daemon) : daemon :=
  mkDaemon (config d) (current_home d) (client d) (sched d) (relocation d) (resolution d) (listener d) (job_worker d)
    (delivery_worker d) (generation d) x (shared d) (directory d).
Definition set_shared (x : agent) (d : daemon) : daemon :=
  mkDaemon (config d) (current_home d) (client d) (sched d) (relocation d) (resolution d) (listener d) (job_worker d)
    (delivery_worker d) (generation d) (modules d) x (directory d).
Definition set_directory (x : world) (d : daemon) : daemon :=
  mkDaemon (config d) (current_home d) (client d) (sched d) (relocation d) (resolution d) (listener d) (job_worker d)
    (delivery_worker d) (generation d) (modules d) (shared d) x.
(** [config = new_config; home = new_home]. *)
Definition set_config_home (c : Config) (h : Home) (d : daemon) : daemon :=
  mkDaemon c h (client d) (sched d) (relocation d) (resolution d) (listener d) (job_worker d)
    (delivery_worker d) (generation d) (modules d) (shared d) (directory d).
(** [client = new_client; policy_generation.advance(); listener = ..]: the [u64]
    wraps. *)
Definition set_client (c : HttpClient) (l : option HttpClient) (d : daemon) : daemon :=
  mkDaemon (config d) (current_home d) c (sched d) (relocation d) (resolution d) l (job_worker d)
    (delivery_worker d) (wrap 64 (generation d + 1)) (modules d) (shared d) (directory d).

(** ** Clients and listeners *)

(** [client_for]: the new client shares the current one's cells for the same home. *)
Definition client_for (c : Config) (h : Home) (key : InstallationKey) : D (result HttpClient TransportError) := fun s =>
  let d := fst s in
  let '(a, r) := for_home header_value build c (home_url h) (shared d) in
  ((set_shared a d, snd s),
   Ok (match r with
       | Ok new => Ok (sharing_moved_signal (with_installation_key new key) (client d))
       | Err e => Err e
       end)).

Definition reload_changes_jobs (old : Config) (old_client : HttpClient) (new : Config) (new_client : HttpClient) : bool :=
  negb (sends_like old_client new_client) || negb (bool_decide (labels old = labels new))
  || negb (bool_decide (jobs old = jobs new)) || negb (bool_decide (osquery old = osquery new)).

Definition start_listener (c : HttpClient) (cfg : Config) : option HttpClient :=
  if bool_decide (enabled_keys job_catalog (jobs cfg) = []) then None else Some c.

(** ** Threads *)

Definition job_pass_running : D bool :=
  let* d := get in
  match job_worker d with
  | None => st_ret false
  | Some _ => let* finished := ask pass_finished in st_ret (negb finished)
  end.

Definition spawn_job_pass : D unit :=
  let* running := job_pass_running in
  if (running : bool) then st_ret tt
  else modify (fun d => set_job_worker
         (Some (mkPass (client d) (labels (config d)) (jobs (config d)) (osquery (config d)) (generation d))) d).

(** [DeliveryWorker::running]. *)
Definition delivery_running : D (option DeliveryTask) :=
  let* d := get in
  match delivery_worker d with
  | None => st_ret None
  | Some task => let* finished := ask delivery_finished in st_ret (if (finished : bool) then None else Some task)
  end.

Definition spawn_delivery (task : DeliveryTask) : D unit := modify (set_delivery (Some task)).
Definition spawn_inventory : D unit := spawn_delivery TInventory.

Definition reschedule_after (job : Job) (interval : Z) : D unit :=
  let* now := ask instant_now in
  let* d := get in
  let* s := or_panic (Scheduler.reschedule (sched d) job now interval) in
  modify (set_sched s).

(** ** Collector modules at a reload *)

Definition reload_collectors (c : Config) (spawned : bool) (finished : nat -> bool) (m : collectors) : collectors :=
  let '(snmp_m, snmp_c) := Modules.reload (snmp c) (m_snmp m) (c_snmp m) in
  let '(gnmi_m, gnmi_c) := group_reload (gnmi c) (m_gnmi m) (c_gnmi m) in
  let '(libvirt_m, libvirt_c) :=
    if bool_decide (lv_collector (m_libvirt m) = libvirt c) then (m_libvirt m, c_libvirt m)
    else restart spawned finished (libvirt c) (m_libvirt m) (c_libvirt m) in
  let '(exp_m, exp_c) := group_reload (exporters c) (m_exporters m) (c_exporters m) in
  let sources := if bool_decide (members (m_exporters m) = exporters c) then m_sources m
                 else retain (fun s => negb (contains_sub (lit "://") s)
                                       || existsb (fun e => str_eqb (ExportersConfig.source e) s) (exporters c)) (m_sources m) in
  let '(pdu_m, pdu_c) := group_reload (power c) (m_pdus m) (c_pdus m) in
  let sources := if bool_decide (members (m_pdus m) = power c) then sources
                 else retain_sources PowerPoller (map snmp_id (power c)) sources in
  let '(bmc_m, bmc_c) := group_reload (bmc c) (m_bmcs m) (c_bmcs m) in
  let sources := if bool_decide (members (m_bmcs m) = bmc c) then sources
                 else retain_sources BmcPower (map bmc_id (bmc c)) sources in
  mkCollectors snmp_m snmp_c gnmi_m gnmi_c libvirt_m libvirt_c exp_m exp_c pdu_m pdu_c bmc_m bmc_c sources.

(** [adopt_reload!]. *)
Definition adopt_reload (new_config : Config) (new_home : Home) (new_client : HttpClient) : D unit :=
  let* old := get in
  let jobs_changed := reload_changes_jobs (config old) (client old) new_config new_client in
  let* _ := modify (set_config_home new_config new_home) in
  let* _ := if jobs_changed then modify (set_client new_client (start_listener new_client new_config)) else st_ret tt in
  let* spawned := ask libvirt_spawned in
  let* finished := ask libvirt_finished in
  let* _ := modify (fun d => set_modules (reload_collectors new_config spawned finished (modules d)) d) in
  let* now := ask instant_now in
  let* d := get in
  let* s := or_panic (Scheduler.refresh_intervals (sched d) now (checkin_interval (config old)) (checkin_interval new_config)
                        (inventory_interval (config old)) (inventory_interval new_config)) in
  modify (set_sched s).

(** ** The jobs of the schedule *)

Definition advertised_capabilities (c : Config) : list bytes := job_capabilities job_catalog (jobs c).

(** The document of a check-in. *)
Definition checkin_document (caps : list bytes) (health : option QueueHealth * option QueueHealth) (now : Z)
    (srcs : PowerSources) (key : InstallationKey) (backend : option BackendStatus) : Payload.CheckIn :=
  let report := fmap (fun h => queue_report h now) in
  with_osquery backend
    (with_key (ed25519_presented (public_key key))
       (with_power_sources (source_reports srcs)
          (with_telemetry_queue (report (snd health)) (checkin_new version caps (report (fst health)))))).

(** [send_checkin]: one check-in with what is known of the host now. *)
Definition checkin_exchange (key : InstallationKey) (caps : list bytes) (c : Config) (cl : HttpClient) (srcs : PowerSources) (o : outer)
  : outer * result CheckInAck bytes :=
  let '(o, now) := wall_now o in
  let '(o, health) := queue_health o in
  let '(o, backend) := osquery_probe (osquery c) o in
  checkin_answer cl (checkin_document caps health now srcs key backend) o.

Definition send_checkin (key : InstallationKey) : D (result CheckInAck bytes) :=
  let* d := get in ask (checkin_exchange key (advertised_capabilities (config d)) (config d) (client d) (m_sources (modules d))).

Definition on_checkin (key : InstallationKey) : D unit :=
  let* answer := send_checkin key in
  let* _ := if leases_now answer then spawn_job_pass else st_ret tt in
  let* d := get in
  reschedule_after CheckIn (checkin_interval (config d)).

Definition on_inventory : D unit :=
  let* running := delivery_running in
  let* d := get in
  match running with
  | Some TInventory => reschedule_after Inventory (inventory_interval (config d))
  | Some TFlush => reschedule_after Inventory INVENTORY_DEFER
  | None => let* _ := spawn_inventory in reschedule_after Inventory (inventory_interval (config d))
  end.

Definition on_flush : D unit :=
  let* running := delivery_running in
  let* _ := match running with None => spawn_delivery TFlush | Some _ => st_ret tt end in
  reschedule_after Flush (next_flush running).

(** A computation on the state directory. *)
Definition on_directory {A} (m : ST world HomeError A) : D (result A HomeError) := fun s =>
  let '(w, r) := m (directory (fst s)) in ((set_directory w (fst s), snd s), Ok r).

(** Which home a reloaded configuration already has: while a move is pending the
    persisted home is gone, but the same address still means the current home. *)
Definition known_home (new_config : Config) : D (result (option Home) HomeError) :=
  let* d := get in
  match relocation d with
  | Some _ => st_ret (Ok (if answers (current_home d) new_config then Some (current_home d) else None))
  | None => on_directory (persisted show_io display new_config)
  end.

Definition try_reload (key : InstallationKey) : D unit :=
  let* loaded := ask load_config in
  match loaded with
  | Err _ => st_ret tt
  | Ok new_config =>
      let* known := known_home new_config in
      match known with
      | Ok (Some h) =>
          let* c := client_for new_config h key in
          match c with
          | Ok new_client => adopt_reload new_config h new_client
          | Err _ => st_ret tt
          end
      | Ok None => modify (fun d => set_resolution (Some (spawn_resolution (PReload new_config) (config d))) d)
      | Err _ => st_ret tt
      end
  end.

Definition on_reload (key : InstallationKey) : D unit :=
  let* d := get in
  match resolution d with
  | Some _ => reschedule_after Reload RELOAD_DEFER
  | None =>
      let* _ := try_reload key in
      let* d := get in
      reschedule_after Reload (config_refresh_interval (config d))
  end.

Definition on_job (key : InstallationKey) (job : Job) : D unit :=
  match job with
  | CheckIn => on_checkin key
  | Inventory => on_inventory
  | Flush => on_flush
  | Reload => on_reload key
  end.

(** [due_until_cancelled]: shutdown is asked before each job. *)
Fixpoint run_jobs (key : InstallationKey) (jobs : list Job) : D unit :=
  match jobs with
  | [] => st_ret tt
  | job :: jobs' =>
      let* stop := ask stop_asked in
      if (stop : bool) then st_ret tt
      else let* _ := on_job key job in run_jobs key jobs'
  end.

(** ** Moves *)

Definition take_moved_flag : D bool :=
  let* d := get in
  let* a := ask (meanwhile (shared d)) in
  let '(a, moved) := take_moved (client d) a in
  let* _ := modify (set_shared a) in
  st_ret moved.

(** [discard_moved_home]: a failure is logged only. *)
Definition discard_moved_home : D unit :=
  let* _ := on_directory (discard_home show_io) in st_ret tt.

Definition notice_move : D unit :=
  let* moved := take_moved_flag in
  let* d := get in
  match relocation d with
  | None =>
      if (moved : bool) then
        let* _ := discard_moved_home in
        let* now := ask instant_now in
        modify (set_relocation (Some (relocation_new now DAEMON_RELOCATION_RETRY)))
      else st_ret tt
  | Some _ => st_ret tt
  end.

Definition persist_now (h : Home) : D (result unit HomeError) :=
  let* tmp := ask fresh_uuid in
  let* now := ask wall_now in
  on_directory (persist_home show_io display tmp now h).

(** [client_for(..).and_then(|c| { persist?; Ok(c) })]. *)
Definition client_and_persist (c : Config) (h : Home) (key : InstallationKey) (persist : bool)
  : D (result HttpClient unit) :=
  let* r := client_for c h key in
  match r with
  | Err _ => st_ret (Err tt)
  | Ok new_client =>
      if persist then
        let* p := persist_now h in
        st_ret (match p with Ok _ => Ok new_client | Err _ => Err tt end)
      else st_ret (Ok new_client)
  end.

Definition back_off_relocation : D unit :=
  let* d := get in
  match relocation d with
  | None => st_ret tt
  | Some r =>
      let* now := ask instant_now in
      let* r := or_panic (back_off now r) in
      modify (set_relocation (Some r))
  end.

Definition finish_reload (key : InstallationKey) (new_config : Config) (new_home : Home) : D unit :=
  let* d := get in
  let same := bool_decide (home_url new_home = home_url (current_home d)) in
  let still_moved := match relocation d with Some _ => same | None => false end in
  let* r := client_and_persist new_config new_home key (negb still_moved) in
  match r with
  | Ok new_client =>
      let* _ := if same then st_ret tt else modify (set_relocation None) in
      adopt_reload new_config new_home new_client
  | Err _ => st_ret tt
  end.

Definition finish_relocation (key : InstallationKey) (new_home : Home) : D unit :=
  let* d := get in
  if bool_decide (home_url new_home = home_url (current_home d)) then back_off_relocation
  else
    let* r := client_and_persist (config d) new_home key true in
    match r with
    | Ok new_client =>
        modify (fun d => set_client new_client (start_listener new_client (config d))
                  (set_relocation None (set_config_home (config d) new_home d)))
    | Err _ => back_off_relocation
    end.

Definition finish_resolution (key : InstallationKey) : D unit :=
  let* d := get in
  match resolution d with
  | None => st_ret tt
  | Some res =>
      let* finished := ask resolution_finished in
      if negb finished then st_ret tt
      else
        let* result := ask resolution_result in
        let* _ := modify (set_resolution None) in
        match purpose res, result with
        | PReload c, Ok h => finish_reload key c h
        | PReload _, Err _ => st_ret tt
        | PRelocation, Ok h => finish_relocation key h
        | PRelocation, Err _ => back_off_relocation
        end
  end.

Definition resolve_move : D unit :=
  let* d := get in
  match resolution d, relocation d with
  | None, Some r =>
      let* now := ask instant_now in
      if relocation_due r now
      then modify (fun d => set_resolution (Some (spawn_resolution PRelocation (config d))) d)
      else st_ret tt
  | _, _ => st_ret tt
  end.

Definition notice_jobs : D unit :=
  let* running := job_pass_running in
  if (running : bool) then st_ret tt
  else
    let* notice := ask notice_taken in
    if (notice : bool) then spawn_job_pass else st_ret tt.

Definition doze : D unit :=
  let* now := ask instant_now in
  let* d := get in
  fun s => ((fst s, sleeping (Z.min (Scheduler.wait (sched d) now) (from_millis 250)) (snd s)), Ok tt).

(** The jobs of a turn: its part before it asks whether the organization moved. *)
Definition turn_jobs (key : InstallationKey) : D unit :=
  let* now := ask instant_now in
  let* d := get in
  run_jobs key (due (sched d) now).

(** One turn of the loop. *)
Definition turn (key : InstallationKey) : D unit :=
  let* _ := turn_jobs key in
  let* _ := notice_move in
  let* _ := finish_resolution key in
  let* _ := resolve_move in
  let* _ := notice_jobs in
  doze.

(** The loop: [None] when the fuel runs out, [Some] of how it ended. *)
Fixpoint main_loop (fuel : nat) (key : InstallationKey) (s : daemon * outer) : option ((daemon * outer) * result unit panic) :=
  match fuel with
  | O => None
  | S fuel' =>
      match ask stop_asked s with
      | (s, Ok false) =>
          match turn key s with
          | (s, Ok _) => main_loop fuel' key s
          | (s, Err p) => Some (s, Err p)
          end
      | (s, Ok true) => Some (s, Ok tt)
      | (s, Err p) => Some (s, Err p)
      end
  end.

(** ** Start-up *)

Definition start_collectors (spawned : bool) (c : Config) : collectors :=
  let '(snmp_m, snmp_c) := modules_start (snmp c) [] in
  let '(gnmi_m, gnmi_c) := group_start (gnmi c) [] in
  let '(libvirt_m, libvirt_c) := module_start spawned (libvirt c) [] in
  let '(exp_m, exp_c) := group_start (exporters c) [] in
  let '(pdu_m, pdu_c) := group_start (power c) [] in
  let '(bmc_m, bmc_c) := group_start (bmc c) [] in
  mkCollectors snmp_m snmp_c gnmi_m gnmi_c libvirt_m libvirt_c exp_m exp_c pdu_m pdu_c bmc_m bmc_c (∅ : PowerSources).

Inductive Startup :=
| NoClient (e : TransportError)
| StoppedFirst (used : HttpClient) (directory : world)   (* shutdown was asked during the first check-in *)
| Panicked (used : HttpClient)
| Started (d : daemon).

(** [discard_home_if_moved], on the cells the other threads left. *)
Definition discard_home_if_moved (cl : HttpClient) (a : agent) (w : world) : world :=
  if snd (take_moved cl a) then fst (discard_home show_io w) else w.

(** [run_configured] of a daemon from the resolved home to the loop: the first
    check-in is sent and a job pass may start before anything else does. *)
Definition start_up (key : InstallationKey) (c : Config) (h : Home) (a : agent) (w : world) (o : outer) : outer * Startup :=
  let '(a, r) := for_home header_value build c (home_url h) a in
  match r with
  | Err e => (o, NoClient e)
  | Ok new =>
      let cl := with_installation_key new key in
      let '(o, epoch) := instant_now o in
      let '(o, answer) := checkin_exchange key (advertised_capabilities c) c cl ∅ o in
      let lis := start_listener cl c in
      let worker := if leases_now answer then Some (mkPass cl (labels c) (jobs c) (osquery c) 0) else None in
      let '(o, a) := meanwhile a o in
      let '(o, stop) := stop_asked o in
      if (stop : bool) then
        (o, StoppedFirst cl (discard_home_if_moved cl a w))
      else
        match Scheduler.new epoch (checkin_interval c) (inventory_interval c) (config_refresh_interval c) FLUSH_INTERVAL with
        | None => (o, Panicked cl)
        | Some s =>
            let '(o, spawned) := libvirt_spawned o in
            (o, Started (mkDaemon c h cl s None None lis worker (Some TInventory) 0 (start_collectors spawned c) a w))
        end
  end.

(** After the loop: a move heard while stopping still discards the home, and the
    libvirt module's threads are joined. *)
Definition wind_down : D (list nat) :=
  let* moved := take_moved_flag in
  let* _ := if (moved : bool) then discard_moved_home else st_ret tt in
  let* d := get in
  let '(joined, cells) := shutdown (m_libvirt (modules d)) (c_libvirt (modules d)) in
  let* _ := modify (fun d => let m := modules d in set_modules
    (mkCollectors (m_snmp m) (c_snmp m) (m_gnmi m) (c_gnmi m) (m_libvirt m) cells (m_exporters m) (c_exporters m)
       (m_pdus m) (c_pdus m) (m_bmcs m) (c_bmcs m) (m_sources m)) d) in
  st_ret joined.

(** ** Reasoning about a turn

    [holds P m Q]: from a state where [P], if [m] returns [a] without a panic, the
    state after it satisfies [Q a], whatever the outside did. *)

Definition holds {A} (P : daemon -> Prop) (m : D A) (Q : A -> daemon -> Prop) : Prop :=
  forall s s' a, P (fst s) -> m s = (s', Ok a) -> Q a (fst s').

Lemma holds_ret {A} (P : daemon -> Prop) (a : A) (Q : A -> daemon -> Prop) : (forall d, P d -> Q a d) -> holds P (st_ret a) Q.
Proof. intros H s s' x HP [= <- <-]. by apply H. Qed.
Lemma holds_bind {A Y} (P : daemon -> Prop) (m : D A) (k : A -> D Y) (R : A -> daemon -> Prop) (Q : Y -> daemon -> Prop) :
  holds P m R -> (forall a, holds (R a) (k a) Q) -> holds P (st_bind m k) Q.
Proof. intros Hm Hk s s' b HP E0. apply st_bind_inv in E0 as (s1 & a & E1 & E2). eapply Hk; [by eapply Hm|done]. Qed.
Lemma holds_get {Y} (P : daemon -> Prop) (k : daemon -> D Y) (Q : Y -> daemon -> Prop) :
  (forall d, P d -> holds (fun d' => d' = d) (k d) Q) -> holds P (st_bind get k) Q.
Proof. intros H s s' b HP E0. by eapply (H _ HP). Qed.
Lemma holds_ask {A Y} (P : daemon -> Prop) (f : outer -> outer * A) (k : A -> D Y) (Q : Y -> daemon -> Prop) :
  (forall a, holds P (k a) Q) -> holds P (st_bind (ask f) k) Q.
Proof.
  intros H s s' b HP E0. unfold st_bind, ask in E0. destruct (f (snd s)) as [w a]. eapply (H a); [|exact E0]. done.
Qed.
Lemma holds_modify (P : daemon -> Prop) f (Q : unit -> daemon -> Prop) : (forall d, P d -> Q tt (f d)) -> holds P (modify f) Q.
Proof. intros H s s' [] HP [= <-]. by apply H. Qed.
Lemma holds_or_panic {A Y} (P : daemon -> Prop) (o : option A) (k : A -> D Y) (Q : Y -> daemon -> Prop) :
  (forall a, o = Some a -> holds P (k a) Q) -> holds P (st_bind (or_panic o) k) Q.
Proof. intros H s s' b HP. destruct o as [a|]; cbn; [|done]. intros E0. by eapply (H a). Qed.
Lemma holds_weaken {A} (P P' : daemon -> Prop) (m : D A) (Q Q' : A -> daemon -> Prop) :
  holds P' m Q' -> (forall d, P d -> P' d) -> (forall a d, Q' a d -> Q a d) -> holds P m Q.
Proof. intros H HP HQ s s' a Hs E0. apply HQ. by eapply H; [apply HP|]. Qed.

(** ** What stays true *)

(** A client built for this configuration, home and key: it sends what they say. *)
Definition built_for (key : InstallationKey) (c : Config) (h : Home) (cl : HttpClient) : Prop :=
  settings_new c (home_url h) = Ok (settings cl) /\ option_map public_key (client_key cl) = Some (public_key key).

(** The running modules are the configured ones: nobody told them to stop, and
    every other module that ever ran was told to. *)
Definition group_for {X} (xs : list X) (g : @group X) (cells : list (@cell X)) : Prop :=
  members g = xs /\ lone xs (group_stop g) cells.
Definition modules_for (c : Config) (m : collectors) : Prop :=
  (agree (m_snmp m) (c_snmp m) /\ map fst (m_snmp m) ≡ₚ snmp c) /\
  group_for (gnmi c) (m_gnmi m) (c_gnmi m) /\
  alone (libvirt c) (m_libvirt m) (c_libvirt m) /\
  group_for (exporters c) (m_exporters m) (c_exporters m) /\
  group_for (power c) (m_pdus m) (c_pdus m) /\ group_for (bmc c) (m_bmcs m) (c_bmcs m).

(** What a pass started now is built from. *)
Definition pass_of (d : daemon) : Pass :=
  mkPass (client d) (labels (config d)) (jobs (config d)) (osquery (config d)) (generation d).

(** [n] bounds the policy generation, which counts the clients adopted. *)
Record consistent (key : InstallationKey) (n : Z) (d : daemon) : Prop := mkConsistent {
  con_client : built_for key (config d) (current_home d) (client d);
  con_listener : listener d = start_listener (client d) (config d);
  con_generation : 0 <= generation d <= n;
  con_pass : forall p, job_worker d = Some p ->
    pass_generation p <= generation d /\ (pass_generation p = generation d -> p = pass_of d);
  con_modules : modules_for (config d) (modules d);
  con_relocation : forall r, relocation d = Some r -> RELOCATION_RETRY_INITIAL <= delay r <= RELOCATION_RETRY_MAX;
  con_resolution : forall r, resolution d = Some r ->
    match purpose r with PReload c => fetching r = c | PRelocation => fetching r = config d /\ is_Some (relocation d) end }.

Lemma group_reload_for {X} `{EqDecision X} (xs ys : list X) g cells :
  group_for xs g cells -> let '(g', cells') := group_reload ys g cells in group_for ys g' cells'.
Proof.
  intros [<- Hc]. pose proof (group_reload_lone ys g cells Hc) as Hs.
  destruct (group_reload ys g cells) as [g' cells']. destruct Hs as (? & ? & _). done.
Qed.

Lemma reload_collectors_for c c' spawned finished m :
  modules_for c m -> modules_for c' (reload_collectors c' spawned finished m).
Proof.
  intros ((Ha & Hp) & Hg & Hl & He & Hpd & Hb). unfold reload_collectors.
  pose proof (reload_runs (snmp c') (m_snmp m) (c_snmp m) Ha) as Hsnmp.
  destruct (Modules.reload (snmp c') (m_snmp m) (c_snmp m)) as [snmp_m snmp_c]. destruct Hsnmp as (Hsa & Hsp).
  pose proof (group_reload_for _ (gnmi c') _ _ Hg) as Hgn. destruct (group_reload (gnmi c') _ _) as [gnmi_m gnmi_c].
  pose proof (group_reload_for _ (exporters c') _ _ He) as Hex.
  destruct (group_reload (exporters c') _ _) as [exp_m exp_c].
  pose proof (group_reload_for _ (power c') _ _ Hpd) as Hpo. destruct (group_reload (power c') _ _) as [pdu_m pdu_c].
  pose proof (group_reload_for _ (bmc c') _ _ Hb) as Hbm. destruct (group_reload (bmc c') _ _) as [bmc_m bmc_c].
  destruct (bool_decide (lv_collector (m_libvirt m) = libvirt c')) eqn:Hlv; bool_simpl.
  - rewrite (alone_collector _ _ _ Hl) in Hlv. unfold modules_for. cbn. by rewrite <- Hlv.
  - pose proof (restart_alone spawned finished _ (libvirt c') _ _ Hl) as Hr.
    destruct (restart _ _ _ _ _) as [lv_m lv_c]. unfold modules_for. cbn. by split_and!.
Qed.

Lemma settings_eqb_eq a b : settings_eqb a b = true -> a = b.
Proof.
  unfold settings_eqb. intros H. destruct a, b. cbn in H. bool_simpl. cbn in *.
  match goal with H : str_eqb _ _ = true |- _ => apply str_eqb_eq in H end. by subst.
Qed.

(** A client that sends like one built for something is built for it too. *)
Lemma sends_like_built key c h cl cl' : sends_like cl cl' = true -> built_for key c h cl' -> built_for key c h cl.
Proof.
  unfold sends_like, built_for. intros H [Hs Hk]. bool_simpl.
  match goal with H : settings_eqb _ _ = true |- _ => apply settings_eqb_eq in H as -> end.
  split; [done|]. congruence.
Qed.

(** Fields that consistency does not look at. *)
Lemma consistent_shared key n a d : consistent key n d -> consistent key n (set_shared a d).
Proof. by intros []. Qed.
Lemma consistent_directory key n w d : consistent key n d -> consistent key n (set_directory w d).
Proof. by intros []. Qed.
Lemma consistent_sched key n s d : consistent key n d -> consistent key n (set_sched s d).
Proof. by intros []. Qed.
Lemma consistent_delivery key n t d : consistent key n d -> consistent key n (set_delivery t d).
Proof. by intros []. Qed.
Lemma consistent_weaken key n n' d : n <= n' -> consistent key n d -> consistent key n' d.
Proof. intros Hn []. constructor; try done. lia. Qed.
Lemma consistent_pass key n d : consistent key n d -> consistent key n (set_job_worker (Some (pass_of d)) d).
Proof. intros []. constructor; try done. intros p [= <-]. by split. Qed.

(** A new client with the key is built for the configuration and the home. *)
Lemma for_home_built key c h a a' cl :
  for_home header_value build c (home_url h) a = (a', Ok cl) -> built_for key c h (with_installation_key cl key).
Proof.
  unfold for_home, st_bind, st_of_result. destruct (settings_new c (home_url h)) as [st|e] eqn:Est; [|done].
  unfold from_settings. match goal with |- context [match ?x with _ => _ end] => destruct x as [cl'|e] eqn:Ecl end; [|done].
  intros [= _ <-]. repeat (apply result_bind_ok in Ecl as (? & _ & Ecl)). injection Ecl as <-. by split; cbn; [rewrite Est|].
Qed.

Lemma client_for_holds key c h (P : daemon -> Prop) :
  (forall a d, P d -> P (set_shared a d)) ->
  holds P (client_for c h key) (fun r d => P d /\ forall cl, r = Ok cl -> built_for key c h cl).
Proof.
  intros HP s s' r Hs. unfold client_for. destruct (for_home header_value build c (home_url h) (shared (fst s))) as [a [new|e]] eqn:Ef;
    intros [= <- <-]; (split; [by apply HP|]); [|done].
  intros cl [= <-]. pose proof (for_home_built key _ _ _ _ _ Ef) as [Hs1 Hk]. unfold sharing_moved_signal. by destruct (bool_decide _).
Qed.

Lemma reschedule_holds (P : daemon -> Prop) job i :
  (forall x d, P d -> P (set_sched x d)) -> holds P (reschedule_after job i) (fun _ => P).
Proof.
  intros HP. apply holds_ask. intros now. apply holds_get. intros d Hd. apply holds_or_panic. intros x _.
  apply holds_modify. intros d' ->. by apply HP.
Qed.

Lemma changed_false old old_cl new new_cl :
  reload_changes_jobs old old_cl new new_cl = false ->
  sends_like old_cl new_cl = true /\ labels old = labels new /\ jobs old = jobs new /\ osquery old = osquery new.
Proof. unfold reload_changes_jobs. intros H. bool_simpl. repeat split; try done; by apply bool_decide_eq_true. Qed.

(** The heart of a reload: what the state is once configuration, home, client,
    generation and listener are in place. *)
Lemma adopted key n d c h cl m :
  consistent key n d -> resolution d = None -> built_for key c h cl -> modules_for c m -> n + 1 < 2 ^ 64 ->
  consistent key (n + 1)
    (set_modules m (if reload_changes_jobs (config d) (client d) c cl
                    then set_client cl (start_listener cl c) (set_config_home c h d) else set_config_home c h d)).
Proof.
  intros [Hc Hl Hg Hp Hm Hr Hs] Hres Hb Hmod Hn.
  destruct (reload_changes_jobs (config d) (client d) c cl) eqn:Hch.
  - assert (wrap 64 (generation d + 1) = generation d + 1) as Hw by (apply Z.mod_small; lia).
    constructor; cbn; rewrite ?Hw, ?Hres; try done; [lia|].
    intros p Hpd. specialize (Hp p Hpd) as [Hle _]. split; [lia|]. intros E1. cbn in E1. lia.
  - apply changed_false in Hch as (Hsl & Elab & Ejobs & Eos).
    constructor; cbn; rewrite ?Hres; try done; try lia.
    + by eapply sends_like_built.
    + unfold start_listener in *. by rewrite <- Ejobs.
    + intros p Hpd. specialize (Hp p Hpd) as [Hle Heq]. split; [done|]. intros E1.
      rewrite (Heq E1). unfold pass_of. cbn. by rewrite Elab, Ejobs, Eos.
Qed.

Lemma adopt_holds key n c h cl :
  n + 1 < 2 ^ 64 -> built_for key c h cl ->
  holds (fun d => consistent key n d /\ resolution d = None) (adopt_reload c h cl) (fun _ => consistent key (n + 1)).
Proof.
  intros Hn Hb. apply holds_get. intros d0 [Hd Hr].
  set (d1 := if reload_changes_jobs (config d0) (client d0) c cl
             then set_client cl (start_listener cl c) (set_config_home c h d0) else set_config_home c h d0).
  eapply holds_bind with (R := fun _ d => d = set_config_home c h d0); [by apply holds_modify; intros d ->|intros _].
  eapply holds_bind with (R := fun _ d => d = d1).
  { unfold d1. destruct (reload_changes_jobs _ _ _ _).
    - by apply holds_modify; intros d ->.
    - by apply holds_ret. }
  intros _. apply holds_ask. intros spawned. apply holds_ask. intros finished.
  eapply holds_bind with (R := fun _ => consistent key (n + 1)).
  - apply holds_modify. intros d ->.
    assert (modules d1 = modules d0) as -> by (unfold d1; by destruct (reload_changes_jobs _ _ _ _)).
    apply adopted; try done. eapply reload_collectors_for. apply Hd.
  - intros _. apply holds_ask. intros now. apply holds_get. intros d2 Hd2. apply holds_or_panic. intros x _.
    apply holds_modify. intros d ->. by apply consistent_sched.
Qed.

(** *** The jobs *)

Lemma pass_running_holds (P : daemon -> Prop) : holds P job_pass_running (fun _ => P).
Proof.
  apply holds_get. intros d Hd. destruct (job_worker d); [|by apply holds_ret; intros ? ->].
  apply holds_ask. intros f. by apply holds_ret; intros ? ->.
Qed.

Lemma spawn_pass_holds key n : holds (consistent key n) spawn_job_pass (fun _ => consistent key n).
Proof.
  eapply holds_bind; [apply pass_running_holds|]. intros []; [by apply holds_ret|].
  apply holds_modify. intros d Hd. by apply consistent_pass.
Qed.

Lemma delivery_running_holds (P : daemon -> Prop) : holds P delivery_running (fun _ => P).
Proof.
  apply holds_get. intros d Hd. destruct (delivery_worker d); [|by apply holds_ret; intros ? ->].
  apply holds_ask. intros f. by apply holds_ret; intros ? ->.
Qed.

Lemma on_directory_holds {A} (P : daemon -> Prop) (m : ST world HomeError A) :
  (forall w d, P d -> P (set_directory w d)) -> holds P (on_directory m) (fun _ => P).
Proof. intros HP s s' r Hs. unfold on_directory. destruct (m _) as [w x]. intros [= <- <-]. by apply HP. Qed.

Lemma on_checkin_holds key n : holds (consistent key n) (on_checkin key) (fun _ => consistent key n).
Proof.
  eapply holds_bind with (R := fun _ => consistent key n).
  { apply holds_get. intros d Hd. intros s s' r Hs. unfold ask.
    destruct (checkin_exchange _ _ _ _ _ _). intros [= <- <-]. by rewrite Hs. }
  intros answer. eapply holds_bind with (R := fun _ => consistent key n).
  { destruct (leases_now answer); [apply spawn_pass_holds|by apply holds_ret]. }
  intros ?. apply holds_get. intros d Hd.
  eapply holds_weaken; [apply (reschedule_holds (consistent key n)); apply consistent_sched|by intros ? ->|done].
Qed.

Lemma on_inventory_holds key n : holds (consistent key n) on_inventory (fun _ => consistent key n).
Proof.
  eapply holds_bind; [apply (delivery_running_holds (consistent key n))|]. intros running.
  apply holds_get. intros d Hd.
  assert (forall i, holds (consistent key n) (reschedule_after Inventory i) (fun _ => consistent key n)) as Hre.
  { intros i. apply reschedule_holds. apply consistent_sched. }
  destruct running as [[]|].
  1, 2: eapply holds_weaken; [apply Hre|by intros ? ->|done].
  eapply holds_bind with (R := fun _ => consistent key n); [|intros ?; apply Hre].
  apply holds_modify. intros d' ->. by apply consistent_delivery.
Qed.

Lemma on_flush_holds key n : holds (consistent key n) on_flush (fun _ => consistent key n).
Proof.
  eapply holds_bind; [apply (delivery_running_holds (consistent key n))|]. intros running.
  eapply holds_bind with (R := fun _ => consistent key n).
  - destruct running; [by apply holds_ret|]. apply holds_modify. intros d Hd. by apply consistent_delivery.
  - intros ?. apply reschedule_holds. apply consistent_sched.
Qed.

(** Nothing is being resolved. *)
Definition settled (key : InstallationKey) (n : Z) (d : daemon) : Prop := consistent key n d /\ resolution d = None.

Lemma known_home_holds key n c : holds (settled key n) (known_home c) (fun _ => settled key n).
Proof.
  apply holds_get. intros d Hd. destruct (relocation d).
  - by apply holds_ret; intros ? ->.
  - eapply holds_weaken; [apply (on_directory_holds (settled key n))|by intros ? ->|done].
    intros w d' [? ?]. split; [by apply consistent_directory|done].
Qed.

Lemma try_reload_holds key n : n + 1 < 2 ^ 64 -> holds (settled key n) (try_reload key) (fun _ => consistent key (n + 1)).
Proof.
  intros Hn. assert (forall d, settled key n d -> consistent key (n + 1) d) as Hw.
  { intros d [? _]. by eapply consistent_weaken; [|done]; lia. }
  apply holds_ask. intros [c|e]; [|by apply holds_ret].
  eapply holds_bind; [apply known_home_holds|]. intros [[h|]|e]; [| |by apply holds_ret].
  - eapply holds_bind; [apply client_for_holds|].
    { intros a d [? ?]. split; [by apply consistent_shared|done]. }
    intros [cl|e]; [|apply holds_ret; by intros d [? _]; apply Hw].
    intros s s' u [Hs Hcl]. eapply (adopt_holds key n c h cl Hn); [by apply Hcl|exact Hs].
  - apply holds_modify. intros d [[] Hr]. constructor; try done; [cbn; lia|]. by intros r [= <-].
Qed.

Lemma on_reload_holds key n : n + 1 < 2 ^ 64 -> holds (consistent key n) (on_reload key) (fun _ => consistent key (n + 1)).
Proof.
  intros Hn. apply holds_get. intros d Hd.
  assert (forall i, holds (consistent key (n + 1)) (reschedule_after Reload i) (fun _ => consistent key (n + 1))) as Hre.
  { intros i. apply reschedule_holds. apply consistent_sched. }
  destruct (resolution d) eqn:Hr.
  - eapply holds_weaken; [apply Hre| |done]. intros ? ->. by eapply consistent_weaken; [|done]; lia.
  - eapply holds_bind with (R := fun _ => consistent key (n + 1));
      [eapply holds_weaken; [by apply (try_reload_holds key n)|by intros ? ->|done]|].
    intros ?. apply holds_get. intros d' Hd'. eapply holds_weaken; [apply Hre|by intros ? ->|done].
Qed.

Lemma on_job_holds key n job : n + 1 < 2 ^ 64 -> holds (consistent key n) (on_job key job) (fun _ => consistent key (n + 1)).
Proof.
  intros Hn. assert (forall d, consistent key n d -> consistent key (n + 1) d) as Hw.
  { intros d Hd. by eapply consistent_weaken; [|done]; lia. }
  destruct job; [| |by apply on_reload_holds|]; (eapply (holds_weaken _ (consistent key n) _ _ (fun _ => consistent key n)); [|done|intros ? d Hd; by apply Hw]).
  - apply on_checkin_holds.
  - apply on_inventory_holds.
  - apply on_flush_holds.
Qed.

Lemma run_jobs_holds key jobs : forall n, n + zlength jobs < 2 ^ 64 ->
  holds (consistent key n) (run_jobs key jobs) (fun _ => consistent key (n + zlength jobs)).
Proof.
  unfold zlength. induction jobs as [|job jobs IH]; intros n Hn; cbn [run_jobs].
  - apply holds_ret. intros d Hd. by rewrite Z.add_0_r.
  - cbn [length] in *. apply holds_ask. intros [].
    + apply holds_ret. intros d Hd. by eapply consistent_weaken; [|done]; lia.
    + eapply holds_bind; [apply on_job_holds; lia|]. intros ?.
      eapply holds_weaken; [apply (IH (n + 1)); lia|done|].
      intros [] d Hd. by replace (n + Z.of_nat (S (length jobs))) with (n + 1 + Z.of_nat (length jobs)) by lia.
Qed.

(** *** Moves *)

Lemma take_moved_holds (P : daemon -> Prop) :
  (forall a d, P d -> P (set_shared a d)) -> holds P take_moved_flag (fun _ => P).
Proof.
  intros HP. apply holds_get. intros d Hd. apply holds_ask. intros a.
  destruct (take_moved (client d) a) as [a' moved].
  eapply holds_bind with (R := fun _ => P); [apply holds_modify; intros ? ->; by apply HP|].
  intros ?. by apply holds_ret.
Qed.

Lemma notice_move_holds key n : holds (consistent key n) notice_move (fun _ => consistent key n).
Proof.
  eapply holds_bind; [apply take_moved_holds; apply consistent_shared|]. intros moved.
  apply holds_get. intros d Hd. destruct (relocation d) eqn:Hr; [by apply holds_ret; intros ? ->|].
  destruct moved; [|by apply holds_ret; intros ? ->].
  eapply holds_bind with (R := fun _ d' => consistent key n d').
  { eapply holds_bind; [eapply holds_weaken; [apply (on_directory_holds (consistent key n)); apply consistent_directory|by intros ? ->|done]|].
    intros ?. by apply holds_ret. }
  intros ?. apply holds_ask. intros now. apply holds_modify. intros d' []. constructor; try done.
  - intros r [= <-]. cbn. unfold DAEMON_RELOCATION_RETRY, RELOCATION_RETRY_INITIAL, RELOCATION_RETRY_MAX, from_secs, NANOS. lia.
  - intros r Hres. specialize (con_resolution0 r Hres). destruct (purpose r); [done|]. cbn. split; [|eauto].
    by destruct con_resolution0.
Qed.

Lemma back_off_holds key n : holds (settled key n) back_off_relocation (fun _ => settled key n).
Proof.
  apply holds_get. intros d [Hd Hr]. destruct (relocation d) as [r|] eqn:Erel; [|by apply holds_ret; intros ? ->].
  apply holds_ask. intros now. apply holds_or_panic. intros r' Hb. apply holds_modify. intros d' ->.
  destruct Hd. split; [|done]. constructor; try done.
  - intros x [= <-]. unfold back_off in Hb. destruct (checked_add_instant _ _); cbn in Hb; [|done].
    injection Hb as <-. cbn. specialize (con_relocation0 r Erel).
    unfold RELOCATION_RETRY_INITIAL, RELOCATION_RETRY_MAX, from_secs, NANOS in *. lia.
  - cbn. rewrite Hr. done.
Qed.

Lemma client_and_persist_holds key c h persist (P : daemon -> Prop) :
  (forall a d, P d -> P (set_shared a d)) -> (forall w d, P d -> P (set_directory w d)) ->
  holds P (client_and_persist c h key persist) (fun r d => P d /\ forall cl, r = Ok cl -> built_for key c h cl).
Proof.
  intros HP1 HP2. eapply holds_bind; [by apply client_for_holds|]. intros [cl|e]; [|by apply holds_ret; intros d [? _]].
  destruct persist; [|apply holds_ret; intros d [? Hcl]; split; [done|]; intros cl' [= <-]; by apply Hcl].
  apply holds_bind with (R := fun _ d => P d /\ built_for key c h cl).
  - apply holds_ask. intros tmp. apply holds_ask. intros now.
    eapply holds_weaken; [apply (on_directory_holds (fun d => P d /\ built_for key c h cl))| |done].
    + intros w d [? ?]. split; [by apply HP2|done].
    + intros d [? Hcl]. split; [done|by apply Hcl].
  - intros [|]; apply holds_ret; intros d [? ?]; (split; [done|]); [|done]. by intros cl' [= <-].
Qed.

Lemma finish_reload_holds key n c h : n + 1 < 2 ^ 64 ->
  holds (settled key n) (finish_reload key c h) (fun _ => consistent key (n + 1)).
Proof.
  intros Hn. apply holds_get. intros d0 Hd0.
  eapply holds_bind; [eapply holds_weaken;
    [apply (client_and_persist_holds key c h _ (settled key n))|by intros ? ->|done]|].
  1, 2: intros a d [? ?]; split; [by apply consistent_shared || by apply consistent_directory|done].
  intros [cl|[]]; [|apply holds_ret; intros d [[? _] _]; by eapply consistent_weaken; [|done]; lia].
  eapply holds_bind with (R := fun _ d => settled key n d /\ built_for key c h cl).
  - destruct (bool_decide _).
    + apply holds_ret. intros d [? Hcl]. split; [done|by apply Hcl].
    + apply holds_modify. intros d [[[] Hr] Hcl]. split; [|by apply Hcl]. split; [|done].
      constructor; try done. cbn. by rewrite Hr.
  - intros ? s s' u [Hs Hcl]. by eapply adopt_holds.
Qed.

Lemma finish_relocation_holds key n h : n + 1 < 2 ^ 64 ->
  holds (settled key n) (finish_relocation key h) (fun _ => consistent key (n + 1)).
Proof.
  intros Hn. assert (forall d, settled key n d -> consistent key (n + 1) d) as Hw.
  { intros d [? _]. by eapply consistent_weaken; [|done]; lia. }
  apply holds_get. intros d0 Hd0. destruct (bool_decide _).
  { eapply holds_weaken; [apply back_off_holds|by intros ? ->|intros ? d' Hd'; by apply Hw]. }
  set (P := fun d => settled key n d /\ config d = config d0).
  eapply holds_bind; [eapply holds_weaken;
    [apply (client_and_persist_holds key (config d0) h _ P)|by intros ? ->|done]|].
  1, 2: intros a d [[? ?] ?]; split; [split; [first [by apply consistent_shared | by apply consistent_directory]|done]|done].
  intros [cl|[]].
  - apply holds_modify. intros d [[[Hd Hr] Hc] Hcl]. specialize (Hcl cl eq_refl). destruct Hd.
    assert (wrap 64 (generation d + 1) = generation d + 1) as Hwr by (apply Z.mod_small; lia).
    constructor; cbn; rewrite ?Hwr, ?Hr, ?Hc; try done.
    + lia.
    + intros p Hp. specialize (con_pass0 p Hp) as [Hle _]. split; [lia|]. intros E1. lia.
    + by rewrite <- Hc.
  - eapply holds_weaken; [apply back_off_holds|by intros d [[? _] _]|intros ? d' Hd'; by apply Hw].
Qed.

Lemma finish_resolution_holds key n : n + 1 < 2 ^ 64 ->
  holds (consistent key n) (finish_resolution key) (fun _ => consistent key (n + 1)).
Proof.
  intros Hn. assert (forall d, consistent key n d -> consistent key (n + 1) d) as Hw.
  { intros d Hd. by eapply consistent_weaken; [|done]; lia. }
  apply holds_get. intros d Hd. destruct (resolution d) as [res|] eqn:Hr; [|apply holds_ret; intros ? ->; by apply Hw].
  apply holds_ask. intros []; cbn [negb]; [|apply holds_ret; intros ? ->; by apply Hw].
  apply holds_ask. intros result.
  eapply holds_bind with (R := fun _ => settled key n).
  { apply holds_modify. intros d' ->. destruct Hd. split; [|done]. by constructor. }
  intros ?. destruct (purpose res), result as [h|e].
  - by apply finish_reload_holds.
  - apply holds_ret. intros d' [? _]. by apply Hw.
  - by apply finish_relocation_holds.
  - eapply holds_weaken; [apply back_off_holds|done|]. intros ? d' [? _]. by apply Hw.
Qed.

Lemma resolve_move_holds key n : holds (consistent key n) resolve_move (fun _ => consistent key n).
Proof.
  apply holds_get. intros d Hd. destruct (resolution d) eqn:Hr; [by apply holds_ret; intros ? ->|].
  destruct (relocation d) eqn:Erel; [|by apply holds_ret; intros ? ->].
  apply holds_ask. intros now. destruct (relocation_due _ _); [|by apply holds_ret; intros ? ->].
  apply holds_modify. intros d' ->. destruct Hd. constructor; try done. intros r' [= <-]. cbn. rewrite Erel. eauto.
Qed.

Lemma turn_holds key n : n + 5 < 2 ^ 64 -> holds (consistent key n) (turn key) (fun _ => consistent key (n + 5)).
Proof.
  intros Hn. eapply holds_bind with (R := fun _ => consistent key (n + 4)).
  { apply holds_ask. intros now. apply holds_get. intros d Hd.
    assert (zlength (due (sched d) now) <= 4) as Hlen.
    { unfold zlength, due. change 4 with (Z.of_nat (length [CheckIn; Inventory; Reload; Flush])).
      cbn. repeat match goal with |- context [if ?b then _ else _] => destruct b end; cbn; lia. }
    eapply holds_weaken; [apply (run_jobs_holds key _ n); lia|by intros ? ->|].
    intros ? d' Hd'. eapply consistent_weaken; [|exact Hd']; lia. }
  intros ?. eapply holds_bind; [apply notice_move_holds|]. intros ?.
  eapply holds_bind; [apply finish_resolution_holds; lia|]. intros ?.
  replace (n + 4 + 1) with (n + 5) by lia.
  eapply holds_bind; [apply resolve_move_holds|]. intros ?.
  eapply holds_bind with (R := fun _ => consistent key (n + 5)).
  - eapply holds_bind; [apply pass_running_holds|]. intros []; [by apply holds_ret|].
    apply holds_ask. intros []; [apply spawn_pass_holds|by apply holds_ret].
  - intros ?. apply holds_ask. intros now'. apply holds_get. intros d' Hd' s s' u -> [= <-]. done.
Qed.

(** ** The saved home while a move is pending *)

Section saved_home.
Variable w0 : world.            (* the state directory before the turn *)
Variable pending : option Home. (* the home a move is pending from when the turn begins *)

(** The file is as it was, or gone. *)
Definition unwritten (w : world) : Prop :=
  files w !! HOME_FILE = files w0 !! HOME_FILE \/ files w !! HOME_FILE = None.
(** It holds another home than the one that said the organization moved. *)
Definition written_elsewhere (w : world) (moved : Home) : Prop :=
  exists h body t, encode_home h = Some body /\ files w !! HOME_FILE = Some (mkFile Regular body t) /\
                   home_url h <> home_url moved.
(** Until the turn comes to the move: nothing saved, and a pending move is still
    pending, from the same home. *)
Definition kept (d : daemon) : Prop :=
  unwritten (directory d) /\ forall h, pending = Some h -> is_Some (relocation d) /\ current_home d = h.
(** From there on, for a move away from [moved]: that home is not saved, and the
    move is over only once another home is in effect. *)
Definition spared (moved : Home) (d : daemon) : Prop :=
  (unwritten (directory d) \/ written_elsewhere (directory d) moved) /\
  (relocation d = None -> home_url (current_home d) <> home_url moved).

Lemma unwritten_touches S w w' : unwritten w -> ~ S HOME_FILE -> touches S w w' -> unwritten w'.
Proof. intros Hu HS Ht. unfold unwritten in *. destruct (Ht HOME_FILE HS) as [E1|E1]; rewrite E1; tauto. Qed.

Lemma persisted_unwritten c w w' r : unwritten w -> persisted show_io display c w = (w', r) -> unwritten w'.
Proof.
  intros Hu. unfold persisted, st_bind, st_ret. destruct (load_home show_io display w) as [w1 r1] eqn:E1.
  assert (unwritten w1) as Hu1.
  { unfold load_home in E1. destruct (symlink_metadata HOME_FILE w) as [w2 r2] eqn:E2.
    assert (unwritten w2) as Hu2.
    { eapply (unwritten_touches (fun _ => False)); [exact Hu|tauto|]. eapply fs_call_read; [|exact E2]; done. }
    destruct r2 as [f|[]]; try (by injection E1 as <- <-). destruct (negb _); [by injection E1 as <- <-|].
    destruct (read_file HOME_FILE w2) as [w3 r3] eqn:E3.
    assert (unwritten w3) as Hu3.
    { eapply (unwritten_touches (fun _ => False)); [exact Hu2|tauto|]. eapply fs_call_read; [|exact E3]; done. }
    destruct r3; by injection E1 as <- <-. }
  destruct r1; by intros [= <- <-].
Qed.

Lemma discard_unwritten w w' r : unwritten w -> discard_home show_io w = (w', r) -> unwritten w'.
Proof.
  intros Hu. unfold discard_home. destruct (remove_file HOME_FILE w) as [w1 r1] eqn:E1.
  assert (unwritten w1) as Hu1.
  { unfold remove_file, fs_call in E1. pose proof (next_event_touches (fun _ => False) w) as Ht.
    destruct (next_event w) as [w2 [k|]]; cbn in Ht.
    - injection E1 as <- <-. eapply unwritten_touches; [exact Hu| |exact Ht]. tauto.
    - assert (unwritten w2) as Hu2 by (eapply unwritten_touches; [exact Hu| |exact Ht]; tauto).
      destruct (files w2 !! HOME_FILE) as [[[] c t]|] eqn:Ef; injection E1 as <- <-; try done;
        right; apply lookup_delete_eq. }
  destruct r1 as [|[]]; by intros [= <- <-].
Qed.

Lemma adopt_part c h cl (P : option Relocation -> world -> Prop) :
  holds (fun d => P (relocation d) (directory d)) (adopt_reload c h cl)
    (fun _ d => P (relocation d) (directory d) /\ current_home d = h).
Proof.
  set (Q := fun d => P (relocation d) (directory d) /\ current_home d = h). apply holds_get. intros d0 Hd0.
  eapply holds_bind with (R := fun _ => Q); [by apply holds_modify; intros d ->|intros ?].
  eapply holds_bind with (R := fun _ => Q).
  { destruct (reload_changes_jobs _ _ _ _); [by apply holds_modify|by apply holds_ret]. }
  intros ?. apply holds_ask. intros ?. apply holds_ask. intros ?.
  eapply holds_bind with (R := fun _ => Q); [by apply holds_modify|intros ?].
  apply holds_ask. intros ?. apply holds_get. intros d1 Hd1. apply holds_or_panic. intros ? _.
  by apply holds_modify; intros d ->.
Qed.

(** A configuration reloaded while a move is pending keeps the current home, and
    one whose home is not known yet is left to be resolved. *)
Lemma try_reload_kept key : holds kept (try_reload key) (fun _ => kept).
Proof.
  apply holds_ask. intros [c|e]; [|by apply holds_ret].
  eapply holds_bind with (R := fun r d => kept d /\ forall h h', r = Ok (Some h) -> pending = Some h' -> h = h').
  { apply holds_get. intros d [Hu Hp]. destruct (relocation d) eqn:Er.
    - apply holds_ret. intros ? ->. split; [split; [done|by rewrite Er]|]. intros h h' [= E1] Hh'.
      destruct (answers _ _); [|done]. injection E1 as <-. by apply Hp.
    - intros s s' r Hs. unfold on_directory. rewrite Hs. destruct (persisted _ _ c _) as [w x] eqn:E1. intros [= <- <-].
      split; [split; [by eapply persisted_unwritten|]|]; [intros h Hh|intros h h' _ Hh]; destruct (Hp _ Hh) as [[? ?] _]; congruence. }
  intros [[h|]|e]; [|apply holds_modify; by intros d [? _]|apply holds_ret; by intros d [? _]].
  eapply holds_bind with (R := fun _ d => kept d /\ forall h', pending = Some h' -> h = h').
  { eapply holds_weaken; [apply (client_for_holds key c h (fun d => kept d /\ forall h', pending = Some h' -> h = h'))| |].
    - done.
    - intros d [? Hh]. split; [done|]. intros h'. by apply Hh.
    - by intros ? d [? _]. }
  intros [cl|e]; [|by apply holds_ret; intros d [? _]].
  eapply holds_weaken; [apply (adopt_part c h cl (fun r w => unwritten w /\ forall h', pending = Some h' -> is_Some r /\ h = h'))| |].
  - intros d [[? Hp] Hh]. split; [done|]. intros h' Hh'. split; [by apply Hp in Hh' as [? _]|by apply Hh].
  - intros ? d [[? Hp] Hh]. split; [done|]. intros h' [? ?]%Hp. split; [done|]. congruence.
Qed.

Lemma run_jobs_kept key jobs : holds kept (run_jobs key jobs) (fun _ => kept).
Proof.
  assert (forall job i, holds kept (reschedule_after job i) (fun _ => kept)) as Hre by (intros; by apply reschedule_holds).
  assert (holds kept spawn_job_pass (fun _ => kept)) as Hpass.
  { eapply holds_bind; [apply (pass_running_holds kept)|]. intros []; [by apply holds_ret|by apply holds_modify]. }
  assert (forall job, holds kept (on_job key job) (fun _ => kept)) as Hjob.
  { intros [].
    - eapply holds_bind with (R := fun _ => kept).
      { apply holds_get. intros d Hd. intros s s' r Hs. unfold ask.
        destruct (checkin_exchange _ _ _ _ _ _). intros [= <- <-]. by rewrite Hs. }
      intros answer. eapply holds_bind with (R := fun _ => kept); [by destruct (leases_now answer); [|apply holds_ret]|].
      intros ?. apply holds_get. intros d Hd. eapply holds_weaken; [apply Hre|by intros ? ->|done].
    - eapply holds_bind; [apply (delivery_running_holds kept)|]. intros running. apply holds_get. intros d Hd.
      destruct running as [[]|]; [eapply holds_weaken; [apply Hre|by intros ? ->|done]..|].
      eapply holds_bind with (R := fun _ => kept); [by apply holds_modify; intros ? ->|intros ?; apply Hre].
    - apply holds_get. intros d Hd. destruct (resolution d).
      { eapply holds_weaken; [apply Hre|by intros ? ->|done]. }
      eapply holds_bind with (R := fun _ => kept).
      { eapply holds_weaken; [apply try_reload_kept|by intros ? ->|done]. }
      intros ?. apply holds_get. intros d' Hd'. eapply holds_weaken; [apply Hre|by intros ? ->|done].
    - eapply holds_bind; [apply (delivery_running_holds kept)|]. intros running.
      eapply holds_bind with (R := fun _ => kept); [destruct running; [by apply holds_ret|by apply holds_modify]|].
      intros ?. apply Hre. }
  induction jobs as [|job jobs IH]; cbn [run_jobs]; [by apply holds_ret|].
  apply holds_ask. intros []; [by apply holds_ret|]. eapply holds_bind; [apply Hjob|]. by intros ?.
Qed.

(** The move the turn knows of once it has asked: one that was pending, or one heard now. *)
Lemma notice_move_pends s s1 heard :
  unwritten (directory (fst s)) -> snd (take_moved_flag s) = Ok heard -> notice_move s = (s1, Ok tt) ->
  unwritten (directory (fst s1)) /\ current_home (fst s1) = current_home (fst s) /\
  (is_Some (relocation (fst s)) \/ heard = true -> is_Some (relocation (fst s1))).
Proof.
  intros Hu Hh E1. unfold notice_move in E1. apply st_bind_inv in E1 as (s2 & m & Et & E1).
  rewrite Et in Hh. injection Hh as ->. set (home := current_home (fst s)). set (rel := relocation (fst s)).
  set (Q := fun d => unwritten (directory d) /\ current_home d = home /\ relocation d = rel).
  assert (Q (fst s2)) as Hq by (eapply (take_moved_holds Q); [done| |exact Et]; done).
  refine ((_ : holds Q _ (fun _ d => unwritten (directory d) /\ current_home d = home /\
    (is_Some rel \/ heard = true -> is_Some (relocation d)))) s2 s1 tt Hq E1). clear E1 Et Hq.
  apply holds_get. intros d Hd. destruct (relocation d) as [r|] eqn:Er.
  { apply holds_ret. intros ? ->. destruct Hd as (? & ? & ?). by split_and!. }
  destruct heard.
  - eapply holds_bind with (R := fun _ d => unwritten (directory d) /\ current_home d = home).
    + eapply holds_bind with (R := fun _ d => unwritten (directory d) /\ current_home d = home); [|by intros ?; apply holds_ret].
      intros sa sb r Hs. unfold on_directory. rewrite Hs. destruct (discard_home show_io _) as [w x] eqn:E1. intros [= <- <-].
      destruct Hd as (? & ? & _). split; [by eapply discard_unwritten|done].
    + intros ?. apply holds_ask. intros ?. apply holds_modify. intros d' [? ?]. split_and!; [done..|]. intros _. by eexists.
  - apply holds_ret. intros ? ->. destruct Hd as (? & ? & Hr). split_and!; try done. intros [Hs|?]; [|done]. rewrite Er. by rewrite <- Hr, Er in Hs.
Qed.
(** Building a client and saving a home: the rest of the state stays. *)
Lemma client_and_persist_part key c h persist d0 :
  unwritten (directory d0) ->
  holds (fun d => d = d0) (client_and_persist c h key persist)
    (fun _ d => relocation d = relocation d0 /\ current_home d = current_home d0 /\
       (unwritten (directory d) \/
        persist = true /\ exists body t, encode_home h = Some body /\ files (directory d) !! HOME_FILE = Some (mkFile Regular body t))).
Proof.
  intros Hu.
  eapply holds_bind with (R := fun _ d => relocation d = relocation d0 /\ current_home d = current_home d0 /\
    unwritten (directory d)).
  { eapply holds_weaken; [apply (client_for_holds key c h (fun d => relocation d = relocation d0 /\
      current_home d = current_home d0 /\ unwritten (directory d)))|by intros ? ->|by intros ? ? [? _]]. done. }
  intros [cl|e]; [|apply holds_ret; intros d (? & ? & ?); auto].
  destruct persist; [|apply holds_ret; intros d (? & ? & ?); auto].
  eapply holds_bind with (R := fun _ d => relocation d = relocation d0 /\ current_home d = current_home d0 /\
       (unwritten (directory d) \/ exists body t, encode_home h = Some body /\
          files (directory d) !! HOME_FILE = Some (mkFile Regular body t))).
  - apply holds_ask. intros tmp. apply holds_ask. intros now. intros s s' r (H1 & H2 & H3). unfold on_directory.
    destruct (persist_home show_io display tmp now h _) as [w x] eqn:E1. intros [= <- <-].
    split; [done|]. split; [done|].
    destruct (persist_home_writes _ _ _ _ _ _ _ _ E1) as [E2|[E2|(body & t & Hb & Ht)]].
    + left. unfold unwritten. cbn [fst directory set_directory]. rewrite E2. apply H3.
    + left. by right.
    + right. by exists body, t.
  - intros r. apply holds_ret. intros d (? & ? & [?|?]); auto 10.
Qed.

(** Finishing what was being resolved, with a move pending from [moved]. *)
Lemma finish_reload_spared key c h moved d0 :
  unwritten (directory d0) -> is_Some (relocation d0) -> current_home d0 = moved ->
  holds (fun d => d = d0) (finish_reload key c h) (fun _ => spared moved).
Proof.
  intros Hd0 [r0 Hr0] Hh0. apply holds_get. intros d ->. rewrite Hr0, Hh0. set (same := bool_decide _).
  assert (same = false -> home_url h <> home_url moved) as Hsame by (unfold same; intros ?; by bool_simpl).
  eapply holds_bind; [by apply client_and_persist_part|]. intros [cl|[]].
  - eapply holds_bind with (R := fun _ d => (unwritten (directory d) \/ written_elsewhere (directory d) moved) /\
      (relocation d = None -> home_url h <> home_url moved)).
    + destruct same eqn:Hs.
      * apply holds_ret. intros d (Hr & _ & [?|[Hp _]]); [|done]. split; [by left|]. congruence.
      * apply holds_modify. intros d (_ & _ & [?|(_ & body & t & Hb & Hf)]); split; auto. right. exists h, body, t. auto.
    + intros ?. eapply holds_weaken; [apply (adopt_part c h cl (fun r w => (unwritten w \/ written_elsewhere w moved) /\
        (r = None -> home_url h <> home_url moved)))|done|]. intros ? d [[? ?] Hh]. split; [done|]. by rewrite Hh.
  - apply holds_ret. intros d (Hr & Hh & [?|(Hp & body & t & Hb & Hf)]); (split; [|congruence]); [by left|].
    right. exists h, body, t. split_and!; try done. apply Hsame. by destruct same.
Qed.

Lemma back_off_spared moved d0 :
  is_Some (relocation d0) ->
  holds (fun d => relocation d = relocation d0 /\ (unwritten (directory d) \/ written_elsewhere (directory d) moved))
    back_off_relocation (fun _ => spared moved).
Proof.
  intros [r0 Hr0]. apply holds_get. intros d [Hr Hu]. rewrite Hr, Hr0. apply holds_ask. intros now. apply holds_or_panic.
  intros r' _. by apply holds_modify; intros d' ->.
Qed.

Lemma finish_relocation_spared key h moved d0 :
  unwritten (directory d0) -> is_Some (relocation d0) -> current_home d0 = moved ->
  holds (fun d => d = d0) (finish_relocation key h) (fun _ => spared moved).
Proof.
  intros Hd0 Hr0 Hh0. apply holds_get. intros d ->. rewrite Hh0. destruct (bool_decide _) eqn:Hs; bool_simpl.
  { eapply holds_weaken; [by apply (back_off_spared moved d0)| |done]. intros ? ->. auto. }
  eapply holds_bind; [by apply client_and_persist_part|]. intros [cl|[]].
  - apply holds_modify. intros d (_ & _ & [?|(_ & body & t & Hb & Hf)]); split; auto; cbn; auto. right. exists h, body, t. auto.
  - eapply holds_weaken; [by apply (back_off_spared moved d0)| |done].
    intros d (Hr & _ & [?|(_ & body & t & Hb & Hf)]); split; auto. right. exists h, body, t. auto.
Qed.

Lemma finish_resolution_spared key moved :
  holds (fun d => unwritten (directory d) /\ is_Some (relocation d) /\ current_home d = moved)
    (finish_resolution key) (fun _ => spared moved).
Proof.
  assert (forall d, unwritten (directory d) -> is_Some (relocation d) -> spared moved d) as Hsp.
  { intros d ? [r Hr]. split; [by left|]. congruence. }
  apply holds_get. intros d0 (Hu & Hr & Hh). destruct (resolution d0) as [res|]; [|apply holds_ret; intros ? ->; by apply Hsp].
  apply holds_ask. intros []; cbn [negb]; [|apply holds_ret; intros ? ->; by apply Hsp].
  apply holds_ask. intros result.
  eapply holds_bind with (R := fun _ d => d = set_resolution None d0); [by apply holds_modify; intros d ->|intros ?].
  destruct (purpose res) as [c|], result as [h|e].
  - by apply finish_reload_spared.
  - apply holds_ret. intros ? ->. by apply Hsp.
  - by apply finish_relocation_spared.
  - eapply holds_weaken; [apply (back_off_spared moved (set_resolution None d0)); exact Hr| |done]. intros ? ->. auto.
Qed.

(** The rest of a turn neither saves a home nor ends a move. *)
Lemma rest_spared key moved :
  holds (fun d => unwritten (directory d) /\ is_Some (relocation d) /\ current_home d = moved)
    (let* _ := finish_resolution key in let* _ := resolve_move in let* _ := notice_jobs in doze) (fun _ => spared moved).
Proof.
  eapply holds_bind; [apply finish_resolution_spared|]. intros ?. eapply holds_bind with (R := fun _ => spared moved).
  { apply holds_get. intros d1 Hd1. destruct (resolution d1); [by apply holds_ret; intros ? ->|].
    destruct (relocation d1); [|by apply holds_ret; intros ? ->]. apply holds_ask. intros n1.
    destruct (relocation_due _ _); [|by apply holds_ret; intros ? ->]. by apply holds_modify; intros ? ->. }
  intros ?. eapply holds_bind with (R := fun _ => spared moved).
  { eapply holds_bind; [apply (pass_running_holds (spared moved))|]. intros []; [by apply holds_ret|].
    apply holds_ask. intros []; [|by apply holds_ret].
    eapply holds_bind; [apply (pass_running_holds (spared moved))|]. intros []; [by apply holds_ret|by apply holds_modify]. }
  intros ?. apply holds_ask. intros now'. apply holds_get. intros d' Hd' s1 s2 u -> [= <-]. done.
Qed.
End saved_home.

(** ** The daemon over its life *)

(** The states at the head of the loop, with the number of turns behind them. *)
Inductive reached (key : InstallationKey) : nat -> daemon * outer -> Prop :=
| reached_start c h a w o o' d : start_up key c h a w o = (o', Started d) -> reached key 0 (d, o')
| reached_turn n s s1 s' :
    reached key n s -> ask stop_asked s = (s1, Ok false) -> turn key s1 = (s', Ok tt) -> reached key (S n) s'.

Lemma group_start_for {X} `{EqDecision X} (xs : list X) : let '(g, cells) := group_start xs [] in group_for xs g cells.
Proof. split; [done|]. by apply (lone_fresh _ []). Qed.

Lemma start_collectors_for spawned c : modules_for c (start_collectors spawned c).
Proof.
  unfold start_collectors, modules_start. assert (@agree SnmpCollector [] []) as Ha by (constructor; [constructor|set_solver..]).
  pose proof (reload_runs (snmp c) [] [] Ha) as Hs. destruct (Modules.reload (snmp c) [] []) as [m s].
  pose proof (module_start_alone spawned (libvirt c)) as Hl. destruct (module_start _ _ _) as [lv_m lv_c].
  unfold modules_for. cbn. split_and!; try apply Hs; try done; by apply (group_start_for _).
Qed.

Lemma start_up_consistent key c h a w o o' d : start_up key c h a w o = (o', Started d) -> consistent key 0 d.
Proof.
  unfold start_up. destruct (for_home header_value build c (home_url h) a) as [a1 r] eqn:Ef. destruct r as [new|e]; [|done].
  apply (for_home_built key) in Ef.
  destruct (instant_now o) as [o1 epoch]. destruct (checkin_exchange _ _ _ _ _ _) as [o2 answer].
  destruct (meanwhile a1 o2) as [o3 a3]. destruct (stop_asked o3) as [o4 []]; [done|].
  destruct (Scheduler.new _ _ _ _ _) as [s|]; [|done]. destruct (libvirt_spawned o4) as [o5 spawned].
  intros [= _ <-]. constructor; cbn -[start_collectors]; try done.
  - intros p. destruct (leases_now answer); [intros [= <-]|done]. done.
  - apply start_collectors_for.
Qed.

(** Whatever becomes of a start, it checked in through a client built for its home. *)
Lemma start_up_built key c h a w o :
  match snd (start_up key c h a w o) with
  | NoClient _ => True
  | StoppedFirst cl _ | Panicked cl => built_for key c h cl
  | Started d => built_for key c h (client d)
  end.
Proof.
  unfold start_up. destruct (for_home header_value build c (home_url h) a) as [a1 [new|e]] eqn:Ef; [|done].
  apply (for_home_built key) in Ef. destruct (instant_now o) as [o1 epoch].
  destruct (checkin_exchange _ _ _ _ _ _) as [o2 answer]. destruct (meanwhile a1 o2) as [o3 a3].
  destruct (stop_asked o3) as [o4 []]; [done|]. destruct (Scheduler.new _ _ _ _ _); [|done]. by destruct (libvirt_spawned o4).
Qed.

Lemma reached_consistent key n s : reached key n s -> 5 * Z.of_nat n < 2 ^ 64 -> consistent key (5 * Z.of_nat n) (fst s).
Proof.
  induction 1 as [c h a w o o' d Hs|n s s1 s' Hr IH Hask Ht]; intros Hn.
  - by eapply start_up_consistent.
  - assert (fst s1 = fst s) as Hd by (unfold ask in Hask; destruct (stop_asked (snd s)); by injection Hask as <-).
    replace (5 * Z.of_nat (S n)) with (5 * Z.of_nat n + 5) by lia.
    eapply (turn_holds key (5 * Z.of_nat n)); [lia| |exact Ht]. rewrite Hd. apply IH. lia.
Qed.

(** C7. At every turn of a daemon, however many came before and whatever the server,
    the disk, the configuration file and the other threads did: requests go out
    through a client built for the configuration and home now in effect and signed
    with this installation's key; the socket, if any job is enabled, belongs to
    that very client; a running job pass is either of an older policy generation,
    which its worker will notice, or was built from exactly the current client,
    labels, job policy and osquery settings; the collector modules not told to stop
    are exactly those of the configuration: every module and group that ran before
    with other settings has been told to stop, the libvirt module has a thread only
    if one is configured (the system may refuse to start it), and the threads it
    replaced have been told to stop; and a pending move is retried after 30 to 900
    seconds. *)
Theorem daemon_stays_consistent (key : InstallationKey) (n : nat) (s : daemon * outer) :
  reached key n s -> 5 * Z.of_nat n < 2 ^ 64 ->
  let d := fst s in
  built_for key (config d) (current_home d) (client d) /\
  listener d = start_listener (client d) (config d) /\
  (forall p, job_worker d = Some p -> pass_generation p < generation d \/ p = pass_of d) /\
  modules_for (config d) (modules d) /\
  (forall r, relocation d = Some r -> RELOCATION_RETRY_INITIAL <= delay r <= RELOCATION_RETRY_MAX).
Proof.
  intros Hr Hn. destruct (reached_consistent key n s Hr Hn). split_and!; try done.
  intros p Hp. destruct (con_pass0 p Hp) as [Hle Heq]. destruct (decide (pass_generation p = generation (fst s))); [auto|left; lia].
Qed.

(** C8. A turn never saves the home that said the organization moved.  After its
    jobs ([s0]) the turn asks whether the organization moved.  If a move was pending
    when the turn began (then the home in effect is still the one it began with), or
    is heard now, then when the turn ends the home file is as the turn found it,
    gone, or holds a home at another address than the one that moved, and the move
    is over only if a home at another address is in effect. *)
Theorem moved_home_never_saved (key : InstallationKey) (s s' : daemon * outer) :
  turn key s = (s', Ok tt) ->
  exists s0 heard, turn_jobs key s = (s0, Ok tt) /\ snd (take_moved_flag s0) = Ok heard /\
    let moved := current_home (fst s0) in
    (is_Some (relocation (fst s)) -> moved = current_home (fst s)) /\
    (is_Some (relocation (fst s)) \/ heard = true ->
     let before := files (directory (fst s)) !! HOME_FILE in
     let after := files (directory (fst s')) !! HOME_FILE in
     (after = before \/ after = None \/
      exists h body t, encode_home h = Some body /\ after = Some (mkFile Regular body t) /\ home_url h <> home_url moved) /\
     (relocation (fst s') = None -> home_url (current_home (fst s')) <> home_url moved)).
Proof.
  intros Ht. unfold turn in Ht. apply st_bind_inv in Ht as (s0 & [] & Ej & Ht). apply st_bind_inv in Ht as (s1 & [] & En & Ht).
  set (w0 := directory (fst s)). set (pending := match relocation (fst s) with Some _ => Some (current_home (fst s)) | None => None end).
  assert (kept w0 pending (fst s0)) as [Hu Hp].
  { refine ((_ : holds (kept w0 pending) (turn_jobs key) (fun _ => kept w0 pending)) s s0 tt _ Ej).
    - apply holds_ask. intros now. apply holds_get. intros d Hd.
      eapply holds_weaken; [apply run_jobs_kept|by intros ? ->|done].
    - split; [by left|]. unfold pending. intros h. by destruct (relocation (fst s)); intros [= <-]. }
  assert (exists heard, snd (take_moved_flag s0) = Ok heard) as [heard Hh].
  { unfold notice_move in En. apply st_bind_inv in En as (s2 & heard & Et & _). exists heard. by rewrite Et. }
  exists s0, heard. split; [done|]. split; [done|]. destruct (notice_move_pends w0 s0 s1 heard Hu Hh En) as (Hu1 & Hh1 & Hr1).
  assert (forall r, relocation (fst s) = Some r -> is_Some (relocation (fst s0)) /\ current_home (fst s0) = current_home (fst s)) as Hpend.
  { intros r Hr. apply Hp. unfold pending. by rewrite Hr. }
  split; [intros [r [_ Hr]%Hpend]; exact Hr|]. intros Hmove.
  assert (is_Some (relocation (fst s1))) as Hr by (apply Hr1; destruct Hmove as [[r Hr%Hpend]|?]; tauto).
  destruct (rest_spared w0 key (current_home (fst s0)) s1 s' tt) as [[[He|He]|He] Hd]; [|exact Ht|..]; auto.
Qed.
End daemon.

(** ** A life of the daemon, to evaluate the theorems on *)

Section sample.
#[local] Existing Instance tiny_uuid.
#[local] Existing Instance tiny_url.
#[local] Existing Instance tiny_ed25519.
#[local] Existing Instance script.
#[local] Existing Instance tiny_home_codec.
#[local] Instance sample_json : Json := json_of_table [].
#[local] Instance sample_base64 : Base64 := {| url_safe_no_pad := id; standard_no_pad := id |}.

(** The clock jumps an hour at each look; the configuration file has gained a gNMI
    module and a label; the home in use says the organization moved. *)
Definition later_config : Config :=
  let c := tiny_config in
  mkConfig (config_path c) (renga_url c) (allow_insecure_http c) (intake_api_key c) (installation_id c)
    (inventory_interval c) (checkin_interval c) (config_refresh_interval c) (request_timeout c) (max_retry_attempts c)
    [(lit "rack", lit "4")] (jobs c) (snmp c) (gnmi c) (libvirt c) (power c) (bmc c) (exporters c) (osquery c).

#[local] Instance hourly : DaemonEnv := {|
  outer := Z;
  instant_now := fun o => (o + from_secs 3600, o + from_secs 3600);
  stop_asked := fun o => (o, false);
  load_config := fun o => (o, Ok later_config);
  queue_health := fun o => (o, (None, None));
  wall_now := fun o => (o, o);
  osquery_probe := fun _ o => (o, None);
  checkin_answer := fun _ _ o => (o, Err []);
  delivery_finished := fun o => (o, true);
  pass_finished := fun o => (o, false);
  notice_taken := fun o => (o, false);
  resolution_finished := fun o => (o, true);
  resolution_result := fun o => (o, Ok tiny_home);
  libvirt_spawned := fun o => (o, true);
  libvirt_finished := fun o => (o, fun _ => true);
  fresh_uuid := fun o => (o, U0 : @uuid tiny_uuid);
  meanwhile := fun a o => (o, mkAgent (outside a) (map (fun g => mkSignal true (retry_deadlines g)) (signals a)) (sent a));
  sleeping := fun d o => o + d |}.

Definition sample_key : InstallationKey := Identity.mkKey ([1; 2; 3; 4] : @pair tiny_ed25519).
Definition home_file : world := mkWorld {[HOME_FILE := mkFile Regular [1] 0]} [] false.
Definition sample_agent : agent := mkAgent (0 : Z, [] : list Transport.response) [] [].
Definition sample_start : Z * Startup :=
  start_up (fun _ => []) Some (fun _ => Ok tt) [] sample_key tiny_config tiny_home
    sample_agent home_file (0 : Z).
Definition sample_turn : daemon * Z -> (daemon * Z) * result unit panic :=
  turn (fun _ => []) [] Some (fun _ => Ok tt) [] sample_key.

Definition started_sample : daemon * Z :=
  match sample_start with (o, Started d) => (d, o) | (o, _) => (mkDaemon tiny_config tiny_home sample_client
    (mkScheduler 0 0 0 0) None None None None None 0 (start_collectors true tiny_config) throttled home_file, o) end.

Definition turned_sample : daemon * Z := fst (sample_turn started_sample).

Lemma daemon_stays_consistent_witness :
  labels (config (fst turned_sample)) = [(lit "rack", lit "4")] /\ generation (fst turned_sample) = 1 /\
  built_for sample_key (config (fst turned_sample)) (current_home (fst turned_sample)) (client (fst turned_sample)).
Proof.
  split; [vm_compute; reflexivity|]. split; [vm_compute; reflexivity|].
  assert (reached (fun _ => []) [] Some (fun _ => Ok tt) [] sample_key 1 turned_sample) as H.
  { eapply reached_turn with (n := 0%nat) (s := started_sample) (s1 := started_sample).
    - eapply reached_start with (c := tiny_config) (h := tiny_home) (w := home_file) (o := 0 : Z)
        (a := sample_agent). vm_compute. reflexivity.
    - vm_compute. reflexivity.
    - vm_compute. reflexivity. }
  exact (proj1 (daemon_stays_consistent _ _ _ _ _ _ 1 _ H ltac:(lia))).
Defined.

(** In its first turn the sample hears of a move and the saved home goes; in the
    second the lookup answers with the very home that moved, and it stays unsaved. *)
Definition twice_turned : daemon * Z := fst (sample_turn turned_sample).

Lemma moved_home_never_saved_witness :
  is_Some (files (directory (fst started_sample)) !! HOME_FILE) /\ is_Some (relocation (fst turned_sample)) /\
  is_Some (resolution (fst turned_sample)) /\ is_Some (relocation (fst twice_turned)) /\
  let moved := current_home (fst turned_sample) in
  let after := files (directory (fst twice_turned)) !! HOME_FILE in
  after = files (directory (fst turned_sample)) !! HOME_FILE \/ after = None \/
  exists h body t, encode_home h = Some body /\ after = Some (mkFile Regular body t) /\ home_url h <> home_url moved.
Proof.
  assert (is_Some (relocation (fst turned_sample))) as Hr by (vm_compute; eexists; reflexivity).
  split; [vm_compute; eexists; reflexivity|]. split; [exact Hr|].
  split; [vm_compute; eexists; reflexivity|]. split; [vm_compute; eexists; reflexivity|].
  assert (sample_turn turned_sample = (twice_turned, Ok tt)) as E1 by (vm_compute; reflexivity).
  unfold sample_turn in E1. destruct (moved_home_never_saved (E := hourly) _ _ _ _ _ _ _ _ E1) as (s0 & heard & _ & _ & Hsame & Hfile).
  cbv zeta in *. rewrite (Hsame Hr) in Hfile. exact (proj1 (Hfile (or_introl Hr))).
Defined.
End sample.
