(* ===== verification/Checkins.v ===== *)
(** * main.rs: the check-ins of a run, as the outside saw them

    A run talks to the outside through [DaemonEnv].  [Recorded] is an outside that
    keeps a record of three of these calls: a configuration it handed over, a home
    a lookup ended with, and a check-in with the client it was sent through and its
    document.  No other call adds to the record.  [logged] builds one from any
    [DaemonEnv], so nothing is assumed of the answers.

    The lemmas say of every check-in of a daemon, at start-up and in its loop, which
    client it went through and what its document says. *)

From S2P Require Import Prelude Text Fs Interfaces Identity Transport Jobs Osquery Config Client Home Payload.
From S2P Require Import PowerCollector Scheduler Modules Daemon.

#[local] Set Warnings "-notation-overridden".

Section record.
Context {J : Json} {U : Uuid} {L : UrlApi} {K : Ed25519} {B : Base64} {N : Net} {C : HomeCodec}.

Inductive event :=
| Loaded (c : Config)                               (* [Config::load] of a reload gave this *)
| LookedUp (h : Home)                               (* a lookup of the home ended with this *)
| CheckedIn (cl : HttpClient) (doc : Payload.CheckIn).

(** ** The record *)

Context {E : DaemonEnv}.

Definition noted_ok {X Y} (e : X -> event) (r : result X Y) : list event := match r with Ok x => [e x] | Err _ => [] end.
(** A call that adds nothing to the record [ev]. *)
Definition silent (ev : outer -> list event) {A} (f : outer -> outer * A) : Prop := forall o, ev (fst (f o)) = ev o.

Class Recorded := {
  events : outer -> list event;
  rec_load : forall o, events (fst (load_config o)) = events o ++ noted_ok Loaded (snd (load_config o));
  rec_lookup : forall o, events (fst (resolution_result o)) = events o ++ noted_ok LookedUp (snd (resolution_result o));
  rec_checkin : forall cl doc o, events (fst (checkin_answer cl doc o)) = events o ++ [CheckedIn cl doc];
  rec_instant : silent events instant_now;
  rec_stop : silent events stop_asked;
  rec_health : silent events queue_health;
  rec_wall : silent events wall_now;
  rec_probe : forall c, silent events (osquery_probe c);
  rec_delivery : silent events delivery_finished;
  rec_pass : silent events pass_finished;
  rec_notice : silent events notice_taken;
  rec_finished : silent events resolution_finished;
  rec_spawned : silent events libvirt_spawned;
  rec_threads : silent events libvirt_finished;
  rec_uuid : silent events fresh_uuid;
  rec_meanwhile : forall a, silent events (meanwhile a);
  rec_sleeping : forall d o, events (sleeping d o) = events o }.

(** Any outside, with such a record beside it. *)
Definition aside {A} (f : outer -> outer * A) (o : outer * list event) : (outer * list event) * A :=
  let '(o', a) := f (fst o) in ((o', snd o), a).
Definition noting {A} (f : outer -> outer * A) (e : A -> list event) (o : outer * list event) : (outer * list event) * A :=
  let '(o', a) := f (fst o) in ((o', snd o ++ e a), a).

Definition logged : DaemonEnv := {|
  Daemon.outer := (outer * list event)%type;
  Daemon.instant_now := aside instant_now;
  Daemon.stop_asked := aside stop_asked;
  Daemon.load_config := noting load_config (noted_ok Loaded);
  Daemon.queue_health := aside queue_health;
  Daemon.wall_now := aside wall_now;
  Daemon.osquery_probe := fun c => aside (osquery_probe c);
  Daemon.checkin_answer := fun cl doc => noting (checkin_answer cl doc) (fun _ => [CheckedIn cl doc]);
  Daemon.delivery_finished := aside delivery_finished;
  Daemon.pass_finished := aside pass_finished;
  Daemon.notice_taken := aside notice_taken;
  Daemon.resolution_finished := aside resolution_finished;
  Daemon.resolution_result := noting resolution_result (noted_ok LookedUp);
  Daemon.libvirt_spawned := aside libvirt_spawned;
  Daemon.libvirt_finished := aside libvirt_finished;
  Daemon.fresh_uuid := aside fresh_uuid;
  Daemon.meanwhile := fun a => aside (meanwhile a);
  Daemon.sleeping := fun d o => (sleeping d (fst o), snd o) |}.

Lemma aside_silent {A} (f : outer -> outer * A) o : snd (fst (aside f o)) = snd o.
Proof. unfold aside. by destruct (f (fst o)). Qed.
Lemma noting_notes {A} (f : outer -> outer * A) e o : snd (fst (noting f e o)) = snd o ++ e (snd (noting f e o)).
Proof. unfold noting. by destruct (f (fst o)). Qed.
End record.

#[global] Instance logged_recorded {U : Uuid} {L : UrlApi} {K : Ed25519} {N : Net} {E : DaemonEnv} : Recorded (E := logged).
Proof.
  refine {| events := (snd : @outer _ _ _ _ logged -> list event) |}; intros;
    try (intros o; apply (aside_silent (E := E))); try apply (noting_notes (E := E)); done.
Defined.

(** ** What every check-in is *)

Section checkins.
Context {J : Json} {U : Uuid} {L : UrlApi} {K : Ed25519} {B : Base64} {N : Net} {C : HomeCodec} {E : DaemonEnv} {R : Recorded}.
Context (show_io : io_kind -> bytes) (display : bytes) (header_value : bytes -> option bytes)
        (build : Z -> result unit TransportError) (version : bytes).
Context (caps : Config -> list bytes) (key : InstallationKey) (c0 : Config).

(** With [past] the record so far: [c] is the configuration the run began with or
    one loaded since, and [h] answers it or was looked up since. *)
Definition in_effect (past : list event) (c : Config) (h : Home) : Prop :=
  (c = c0 \/ Loaded c ∈ past) /\ (answers h c = true \/ LookedUp h ∈ past).

(** A check-in goes out through a client built for such a configuration, such a
    home and the installation's key; its document presents this key and offers what
    that configuration enables. *)
Definition proper (past : list event) (cl : HttpClient) (doc : Payload.CheckIn) : Prop :=
  exists c h, in_effect past c h /\ built_for key c h cl /\ capabilities doc = caps c /\
              presented_key doc = Some (ed25519_presented (public_key key)).

Definition all_proper (log : list event) : Prop :=
  forall past cl doc rest, log = past ++ CheckedIn cl doc :: rest -> proper past cl doc.

Lemma all_proper_snoc log e :
  all_proper log -> (forall cl doc, e = CheckedIn cl doc -> proper log cl doc) -> all_proper (log ++ [e]).
Proof.
  intros Ha He past cl doc rest E1. destruct rest as [|x rest _] using rev_ind.
  - apply app_inj_tail in E1 as [-> ->]. by apply He.
  - rewrite app_comm_cons, app_assoc in E1. apply app_inj_tail in E1 as [-> ->]. by eapply Ha.
Qed.

Lemma in_effect_more past more c h : in_effect past c h -> in_effect (past ++ more) c h.
Proof. intros [[?|?] [?|?]]; split; rewrite ?elem_of_app; auto. Qed.

(** What the daemon's state and the record keep to. *)
Context (log0 : list event).

Record kept_to (d : daemon) (log : list event) : Prop := mkKept {
  kept_effect : in_effect log (config d) (current_home d);
  kept_client : built_for key (config d) (current_home d) (client d);
  kept_asked : forall r c, resolution d = Some r -> purpose r = PReload c -> c = c0 \/ Loaded c ∈ log;
  kept_log : all_proper log }.

Abbreviation D := (ST (daemon * outer) panic).
Definition assertion := (daemon -> list event -> Prop).
Definition inv : assertion := fun d ev => exists log, ev = log0 ++ log /\ kept_to d log.

(** [upholds P m Q]: from [P], [m] returns with [Q], or panics with [inv]. *)
Definition upholds {A} (P : assertion) (m : D A) (Q : A -> assertion) : Prop :=
  forall s, P (fst s) (events (snd s)) ->
    let '(s', r) := m s in
    match r with Ok a => Q a (fst s') (events (snd s')) | Err _ => inv (fst s') (events (snd s')) end.

Lemma up_ret {A} (P : assertion) (a : A) (Q : A -> assertion) : (forall d ev, P d ev -> Q a d ev) -> upholds P (st_ret a) Q.
Proof. intros H s HP. by apply H. Qed.
Lemma up_bind {A Y} (P : assertion) (m : D A) (k : A -> D Y) (R1 : A -> assertion) (Q : Y -> assertion) :
  upholds P m R1 -> (forall a, upholds (R1 a) (k a) Q) -> upholds P (st_bind m k) Q.
Proof.
  intros Hm Hk s HP. specialize (Hm s HP). unfold st_bind. destruct (m s) as [s1 [a|e]]; [by apply Hk|done].
Qed.
Lemma up_get {Y} (P : assertion) (k : daemon -> D Y) (Q : Y -> assertion) :
  (forall d, upholds (fun d' ev => d' = d /\ P d ev) (k d) Q) -> upholds P (st_bind get k) Q.
Proof. intros H s HP. by apply H. Qed.
Lemma up_ask {A Y} (P : assertion) (f : outer -> outer * A) (k : A -> D Y) (Q : Y -> assertion) :
  silent events f -> (forall a, upholds P (k a) Q) -> upholds P (st_bind (ask f) k) Q.
Proof.
  intros Hf Hk s HP. unfold st_bind, ask. specialize (Hf (snd s)). destruct (f (snd s)) as [w a]. cbn in Hf.
  apply (Hk a (fst s, w)). cbn. by rewrite Hf.
Qed.
Lemma up_modify (P : assertion) f (Q : unit -> assertion) : (forall d ev, P d ev -> Q tt (f d) ev) -> upholds P (modify f) Q.
Proof. intros H s HP. by apply H. Qed.
Lemma up_or_panic {A Y} (P : assertion) (o : option A) (k : A -> D Y) (Q : Y -> assertion) :
  (forall d ev, P d ev -> inv d ev) -> (forall a, upholds P (k a) Q) -> upholds P (st_bind (or_panic o) k) Q.
Proof. intros HP H s Hs. destruct o as [a|]; cbn; [by apply H|by apply HP]. Qed.
Lemma up_weaken {A} (P P' : assertion) (m : D A) (Q Q' : A -> assertion) :
  upholds P' m Q' -> (forall d ev, P d ev -> P' d ev) -> (forall a d ev, Q' a d ev -> Q a d ev) -> upholds P m Q.
Proof. intros H HP HQ s Hs. specialize (H s (HP _ _ Hs)). destruct (m s) as [s' [a|e]]; [by apply HQ|done]. Qed.

Create HintDb record.
#[local] Hint Resolve rec_instant rec_stop rec_health rec_wall rec_probe rec_delivery rec_pass rec_notice rec_finished
  rec_spawned rec_threads rec_uuid rec_meanwhile : record.

(** A state change that leaves configuration, home, client and lookup alone. *)
Definition minor (f : daemon -> daemon) : Prop := forall d,
  config (f d) = config d /\ current_home (f d) = current_home d /\ client (f d) = client d /\ resolution (f d) = resolution d.

Lemma inv_minor f d ev : minor f -> inv d ev -> inv (f d) ev.
Proof.
  intros Hf (log & -> & [H1 H2 H3 H4]). exists log. split; [done|]. destruct (Hf d) as (E1 & E2 & E3 & E4).
  by constructor; rewrite ?E1, ?E2, ?E3, ?E4.
Qed.

(** Steps of a turn that change nothing the record is about. *)
Ltac settle := intros; repeat match goal with H : _ /\ _ |- _ => destruct H end; subst.
Ltac up_step :=
  first
  [ apply up_ask; [solve [auto with record]|intros ?]
  | apply up_get; intros ?
  | apply up_or_panic; [solve [settle; done]|intros ?]
  | apply up_modify; solve [settle; by apply inv_minor]
  | apply up_ret; solve [settle; done]
  | match goal with
    | |- upholds _ (match ?x with _ => _ end) _ => destruct x
    | |- upholds _ (if ?x then _ else _) _ => destruct x
    end
  | eapply up_bind with (R1 := fun _ => inv); [|intros ?] ].
Ltac up := repeat up_step.

Lemma up_reschedule job i : upholds inv (reschedule_after job i) (fun _ => inv).
Proof. unfold reschedule_after. up. Qed.
Lemma up_pass_running : upholds inv job_pass_running (fun _ => inv).
Proof. unfold job_pass_running. up. Qed.
Lemma up_delivery_running : upholds inv delivery_running (fun _ => inv).
Proof. unfold delivery_running. up. Qed.
Lemma up_spawn_pass : upholds inv spawn_job_pass (fun _ => inv).
Proof. unfold spawn_job_pass. eapply up_bind; [apply up_pass_running|]. intros running. cbn beta. up. Qed.

(** ** Check-ins *)

(** What [caps] is for a daemon: the capabilities its configuration enables. *)
Lemma checkin_exchange_events offered c cl srcs o :
  exists doc, events (fst (checkin_exchange version key offered c cl srcs o)) = events o ++ [CheckedIn cl doc] /\
    capabilities doc = offered /\ presented_key doc = Some (ed25519_presented (public_key key)).
Proof.
  unfold checkin_exchange. pose proof (rec_wall o) as H1. destruct (wall_now o) as [o1 now]. cbn in H1.
  pose proof (rec_health o1) as H2. destruct (queue_health o1) as [o2 health]. cbn in H2.
  pose proof (rec_probe (osquery c) o2) as H3. destruct (osquery_probe (osquery c) o2) as [o3 backend]. cbn in H3.
  exists (checkin_document version offered health now srcs key backend).
  rewrite rec_checkin, H3, H2, H1. by destruct backend.
Qed.

Hypothesis caps_daemon : caps = advertised_capabilities.

Lemma up_checkin : upholds inv (on_checkin version key) (fun _ => inv).
Proof.
  unfold on_checkin. apply up_bind with (R1 := fun _ => inv).
  - unfold send_checkin. apply up_get. intros d s [Hd (log & Hev & Hk)]. unfold ask.
    destruct (checkin_exchange_events (advertised_capabilities (config d)) (config d) (client d) (m_sources (modules d)) (snd s))
      as (doc & He & Hc & Hp).
    destruct (checkin_exchange _ _ _ _ _ _ (snd s)) as [o' r]. cbn in *. rewrite Hd, He, Hev. exists (log ++ [CheckedIn (client d) doc]).
    rewrite app_assoc. split; [done|]. destruct Hk as [K1 K2 K3 K4]. constructor; [by apply in_effect_more|done| |].
    + intros r0 c Hr Hpu. rewrite elem_of_app. destruct (K3 r0 c Hr Hpu); auto.
    + apply all_proper_snoc; [done|]. intros cl doc' [= <- <-]. exists (config d), (current_home d). by rewrite caps_daemon.
  - intros answer. apply up_bind with (R1 := fun _ => inv); [destruct (leases_now answer); [apply up_spawn_pass|by apply up_ret]|].
    intros ?. apply up_get. intros d. eapply up_weaken; [apply up_reschedule|by settle|done].
Qed.

Lemma up_inventory : upholds inv on_inventory (fun _ => inv).
Proof.
  unfold on_inventory. eapply up_bind; [apply up_delivery_running|]. intros running. apply up_get. intros d.
  assert (forall i, upholds (fun d' ev => d' = d /\ inv d ev) (reschedule_after Inventory i) (fun _ => inv)) as Hre.
  { intros i. eapply up_weaken; [apply up_reschedule|by settle|done]. }
  destruct running as [[]|]; [apply Hre..|]. unfold spawn_inventory, spawn_delivery.
  apply up_bind with (R1 := fun _ => inv); [up|intros ?; apply up_reschedule].
Qed.

Lemma up_flush : upholds inv on_flush (fun _ => inv).
Proof.
  unfold on_flush. eapply up_bind; [apply up_delivery_running|]. intros running. cbn beta.
  apply up_bind with (R1 := fun _ => inv); [unfold spawn_delivery; up|intros ?; apply up_reschedule].
Qed.

(** ** Reloads *)

(** [c] was loaded and [h] may be put into effect with it. *)
Definition ready (c : Config) (h : Home) : assertion := fun d ev =>
  exists log, ev = log0 ++ log /\ kept_to d log /\ resolution d = None /\ in_effect log c h.

Lemma ready_inv c h d ev : ready c h d ev -> inv d ev.
Proof. intros (log & -> & Hk & _). by exists log. Qed.

Lemma up_client_for c h (P : assertion) :
  (forall a d ev, P d ev -> P (set_shared a d) ev) ->
  upholds P (client_for header_value build c h key) (fun r d ev => P d ev /\ forall cl, r = Ok cl -> built_for key c h cl).
Proof.
  intros HP s Hs. pose proof (client_for_holds header_value build key c h (fun d => True) (fun _ _ _ => I) s) as H.
  unfold client_for in *. destruct (for_home header_value build c (home_url h) (shared (fst s))) as [a r].
  specialize (H _ _ I eq_refl) as [_ H]. cbn in *. split; [by apply HP|exact H].
Qed.

Lemma adopt_kept c h cl m d log :
  kept_to d log -> resolution d = None -> in_effect log c h -> built_for key c h cl ->
  kept_to (set_modules m (if reload_changes_jobs (config d) (client d) c cl
                          then set_client cl (start_listener cl c) (set_config_home c h d) else set_config_home c h d)) log.
Proof.
  intros [K1 K2 K3 K4] Hres He Hb. destruct (reload_changes_jobs _ _ _ _) eqn:Hch; constructor; cbn; rewrite ?Hres; try done.
  apply changed_false in Hch as (Hsl & _). by eapply sends_like_built.
Qed.

Lemma up_adopt c h cl : built_for key c h cl -> upholds (ready c h) (adopt_reload c h cl) (fun _ => inv).
Proof.
  intros Hb. unfold adopt_reload. apply up_get. intros d0.
  set (d1 := if reload_changes_jobs (config d0) (client d0) c cl
             then set_client cl (start_listener cl c) (set_config_home c h d0) else set_config_home c h d0).
  apply up_bind with (R1 := fun _ d ev => d = set_config_home c h d0 /\ ready c h d0 ev); [by apply up_modify; settle|intros ?].
  apply up_bind with (R1 := fun _ d ev => d = d1 /\ ready c h d0 ev).
  { unfold d1. destruct (reload_changes_jobs _ _ _ _); [by apply up_modify; settle|by apply up_ret; settle]. }
  intros ?. apply up_ask; [apply rec_spawned|intros spawned]. apply up_ask; [apply rec_threads|intros finished].
  apply up_bind with (R1 := fun _ => inv).
  - apply up_modify. intros d ev [-> (log & -> & Hk & Hr & He)]. exists log. split; [done|]. by apply adopt_kept.
  - intros ?. up.
Qed.

(** More in the record changes nothing that was true. *)
Lemma kept_more d log e : (forall cl doc, e <> CheckedIn cl doc) -> kept_to d log -> kept_to d (log ++ [e]).
Proof.
  intros He [K1 K2 K3 K4]. constructor; [by apply in_effect_more|done| |].
  - intros r c Hr Hp. rewrite elem_of_app. destruct (K3 r c Hr Hp); auto.
  - apply all_proper_snoc; [done|]. intros cl doc E1. by apply He in E1.
Qed.

(** Nothing is being looked up, and [c] was loaded. *)
Definition loaded_idle (c : Config) : assertion := fun d ev =>
  exists log, ev = log0 ++ log /\ kept_to d log /\ resolution d = None /\ (c = c0 \/ Loaded c ∈ log).

Lemma loaded_idle_inv c d ev : loaded_idle c d ev -> inv d ev.
Proof. intros (log & -> & Hk & _). by exists log. Qed.

Lemma up_known_home c :
  upholds (loaded_idle c) (known_home show_io display c)
    (fun r d ev => loaded_idle c d ev /\ forall h, r = Ok (Some h) -> answers h c = true).
Proof.
  unfold known_home. apply up_get. intros d. destruct (relocation d).
  - apply up_ret. intros d' ev [-> H]. split; [done|]. intros h. destruct (answers _ _) eqn:Ha; [|done]. by intros [= <-].
  - intros s [Hd H]. unfold on_directory. destruct (persisted show_io display c (directory (fst s))) as [w r] eqn:Ep.
    cbn. rewrite Hd. split.
    + destruct H as (log & -> & [K1 K2 K3 K4] & Hr & Hc). exists log. by split_and!.
    + intros h ->. unfold persisted in Ep. apply st_bind_inv in Ep as (w1 & [h'|] & _ & Ep); [|done]. unfold st_ret in Ep. cbn in Ep.
      destruct (answers h' c) eqn:Ha; congruence.
Qed.

Lemma up_try_reload : upholds (fun d ev => inv d ev /\ resolution d = None) (try_reload show_io display header_value build key) (fun _ => inv).
Proof.
  unfold try_reload.
  apply up_bind with (R1 := fun r d ev => match r with Ok c => loaded_idle c d ev | Err _ => inv d ev end).
  { intros s [(log & Hev & Hk) Hr]. unfold ask. pose proof (rec_load (snd s)) as Hl.
    destruct (load_config (snd s)) as [o [c|e]]; cbn in *; rewrite Hl, Hev.
    - exists (log ++ [Loaded c]). rewrite app_assoc. split_and!; try done; [by apply kept_more|].
      right. apply elem_of_app. right. by apply list_elem_of_singleton.
    - exists log. by rewrite app_nil_r. }
  intros [c|e]; [|by apply up_ret]. eapply up_bind; [apply up_known_home|]. intros [[h|]|e].
  - apply up_bind with (R1 := fun r d ev => ready c h d ev /\ forall cl, r = Ok cl -> built_for key c h cl).
    + eapply up_weaken; [apply up_client_for with (P := ready c h)| |done].
      * intros a d ev (log & -> & [] & ? & ?). exists log. by split_and!.
      * intros d ev [(log & -> & Hk & Hr & Hc) Ha]. exists log. split_and!; try done. split; auto.
    + intros [cl|e] s [Hs Hb]; [|by eapply ready_inv]. by apply (up_adopt c h cl (Hb cl eq_refl)).
  - apply up_modify. intros d ev [(log & -> & [K1 K2 K3 K4] & Hr & Hc) _]. exists log. split; [done|].
    constructor; try done. intros r c' [= <-]. cbn. by intros [= <-].
  - apply up_ret. intros d ev [H _]. by eapply loaded_idle_inv.
Qed.

Lemma up_reload : upholds inv (on_reload show_io display header_value build key) (fun _ => inv).
Proof.
  unfold on_reload. apply up_get. intros d. destruct (resolution d) eqn:Hr.
  - eapply up_weaken; [apply up_reschedule|by settle|done].
  - apply up_bind with (R1 := fun _ => inv); [eapply up_weaken; [apply up_try_reload|by settle|done]|].
    intros ?. apply up_get. intros d'. eapply up_weaken; [apply up_reschedule|by settle|done].
Qed.

Lemma up_jobs jobs : upholds inv (run_jobs show_io display header_value build version key jobs) (fun _ => inv).
Proof.
  induction jobs as [|job jobs IH]; cbn [run_jobs]; [by apply up_ret|].
  apply up_ask; [apply rec_stop|]. intros []; [by apply up_ret|]. apply up_bind with (R1 := fun _ => inv); [|by intros ?].
  destruct job; [apply up_checkin|apply up_inventory|apply up_reload|apply up_flush].
Qed.

(** ** Moves and lookups *)

Lemma up_directory {A} (m : ST world HomeError A) : upholds inv (on_directory m) (fun _ => inv).
Proof. intros s Hs. unfold on_directory. destruct (m _) as [w r]. by apply (inv_minor (set_directory w)). Qed.

Lemma up_take_moved : upholds inv take_moved_flag (fun _ => inv).
Proof.
  unfold take_moved_flag. apply up_get. intros d. apply up_ask; [apply rec_meanwhile|]. intros a.
  destruct (take_moved (client d) a) as [a' moved]. up.
Qed.

Lemma up_notice_move : upholds inv (notice_move show_io) (fun _ => inv).
Proof.
  unfold notice_move. eapply up_bind; [apply up_take_moved|]. intros moved. apply up_get. intros d.
  destruct (relocation d); [by apply up_ret; settle|]. destruct moved; [|by apply up_ret; settle].
  apply up_bind with (R1 := fun _ => inv); [|intros ?; up].
  unfold discard_moved_home. eapply up_bind; [eapply up_weaken; [apply up_directory|by settle|done]|].
  intros ?. by apply up_ret.
Qed.

Lemma up_back_off : upholds inv back_off_relocation (fun _ => inv).
Proof. unfold back_off_relocation. up. Qed.

(** Building the client for a home and saving that home; [now_in] is the
    configuration in effect meanwhile. *)
Definition ready_in (now_in c : Config) (h : Home) : assertion := fun d ev => ready c h d ev /\ config d = now_in.

Lemma ready_minor f now_in c h d ev : minor f -> ready_in now_in c h d ev -> ready_in now_in c h (f d) ev.
Proof.
  intros Hf [(log & -> & [] & Hr & He) <-]. destruct (Hf d) as (E1 & E2 & E3 & E4). split; [|done].
  exists log. rewrite E4. split_and!; try done. by constructor; rewrite ?E1, ?E2, ?E3, ?E4.
Qed.

Lemma up_client_and_persist now_in c h persist :
  upholds (ready_in now_in c h) (client_and_persist show_io display header_value build c h key persist)
    (fun r d ev => ready_in now_in c h d ev /\ forall cl, r = Ok cl -> built_for key c h cl).
Proof.
  unfold client_and_persist. eapply up_bind; [apply up_client_for|].
  { intros a d ev. by apply ready_minor. }
  intros [cl|e]; [|apply up_ret; intros d ev [? _]; by split].
  destruct persist; [|apply up_ret; intros d ev [? Hb]; split; [done|]; intros ? [= <-]; by apply Hb].
  apply up_bind with (R1 := fun _ d ev => ready_in now_in c h d ev /\ built_for key c h cl).
  - unfold persist_now. apply up_ask; [apply rec_uuid|]. intros tmp. apply up_ask; [apply rec_wall|]. intros now s [Hs Hb].
    unfold on_directory. destruct (persist_home show_io display tmp now h _) as [w r]. cbn. split; [|by apply Hb].
    by apply (ready_minor (set_directory w)).
  - intros r. apply up_ret. intros d ev [? ?]. split; [done|]. destruct r; [|done]. by intros ? [= <-].
Qed.

Lemma up_finish_reload c h : upholds (ready c h) (finish_reload show_io display header_value build key c h) (fun _ => inv).
Proof.
  unfold finish_reload. apply up_get. intros d.
  eapply up_bind; [eapply up_weaken; [apply (up_client_and_persist (config d))|by intros ? ? [-> ?]|done]|].
  intros [cl|e]; [|apply up_ret; intros ? ? [[? _] _]; by eapply ready_inv].
  apply up_bind with (R1 := fun _ d ev => ready c h d ev /\ built_for key c h cl).
  - destruct (bool_decide _); [apply up_ret; intros ? ? [[? _] Hb]; auto|]. apply up_modify.
    intros d' ev [Hr Hb]. split; [|by apply Hb]. by apply (ready_minor (set_relocation None)) in Hr as [? _].
  - intros ? s [Hs Hb]. by apply (up_adopt c h cl Hb).
Qed.

Lemma up_finish_relocation h :
  upholds (fun d ev => ready (config d) h d ev) (finish_relocation show_io display header_value build key h) (fun _ => inv).
Proof.
  unfold finish_relocation. apply up_get. intros d. destruct (bool_decide _).
  { eapply up_weaken; [apply up_back_off| |done]. intros ? ? [-> ?]. by eapply ready_inv. }
  eapply up_bind; [eapply up_weaken; [apply (up_client_and_persist (config d))|by intros ? ? [-> ?]|done]|].
  intros [cl|e].
  - apply up_modify. intros d' ev [[(log & -> & [K1 K2 K3 K4] & Hr & He) Hc] Hb]. exists log. split; [done|].
    constructor; cbn; rewrite ?Hr, ?Hc; try done. by apply Hb.
  - eapply up_weaken; [apply up_back_off| |done]. intros ? ? [[? _] _]. by eapply ready_inv.
Qed.

Lemma up_finish_resolution : upholds inv (finish_resolution show_io display header_value build key) (fun _ => inv).
Proof.
  unfold finish_resolution. apply up_get. intros d. destruct (resolution d) as [res|] eqn:Hres; [|by apply up_ret; settle].
  apply up_ask; [apply rec_finished|]. intros []; cbn [negb]; [|by apply up_ret; settle].
  apply up_bind with (R1 := fun r d' ev => d' = d /\ inv d ev /\ exists log, ev = log0 ++ log /\ kept_to d log /\
    forall h, r = Ok h -> LookedUp h ∈ log).
  { intros s [Hd (log & Hev & Hk)]. unfold ask. pose proof (rec_lookup (snd s)) as Hl.
    destruct (resolution_result (snd s)) as [o [h|e]]; cbn in *; rewrite Hl, Hev, <- app_assoc.
    - assert (kept_to d (log ++ [LookedUp h])) as Hk' by (by apply kept_more).
      split_and!; [done|by exists (log ++ [LookedUp h])|]. exists (log ++ [LookedUp h]). split_and!; try done.
      intros h' [= <-]. apply elem_of_app. right. by apply list_elem_of_singleton.
    - rewrite app_nil_r. split_and!; [done|by exists log|]. by exists log. }
  intros result. apply up_bind with (R1 := fun _ d' ev => d' = set_resolution None d /\ exists log, ev = log0 ++ log /\ kept_to d log /\
    kept_to d' log /\ forall h, result = Ok h -> LookedUp h ∈ log).
  { apply up_modify. intros d' ev (-> & _ & log & -> & [K1 K2 K3 K4] & Hl). split; [done|]. exists log. by split_and!. }
  intros ?. destruct (purpose res) as [c|] eqn:Hp, result as [h|e].
  - eapply up_weaken; [apply (up_finish_reload c h)| |done]. intros d' ev (-> & log & -> & Hk & Hk' & Hl). exists log.
    split_and!; try done. split; [by eapply (kept_asked d log Hk)|right; by apply Hl].
  - apply up_ret. intros d' ev (-> & log & -> & _ & Hk & _). by exists log.
  - eapply up_weaken; [apply (up_finish_relocation h)| |done]. intros d' ev (-> & log & -> & Hk & Hk' & Hl). exists log.
    split_and!; try done. split; [by apply (kept_effect _ _ Hk)|right; by apply Hl].
  - eapply up_weaken; [apply up_back_off| |done]. intros d' ev (-> & log & -> & _ & Hk & _). by exists log.
Qed.

(** ** Turns *)

Lemma up_turn : upholds inv (turn show_io display header_value build version key) (fun _ => inv).
Proof.
  unfold turn. apply up_bind with (R1 := fun _ => inv).
  { unfold turn_jobs. apply up_ask; [apply rec_instant|]. intros now. apply up_get. intros d.
    eapply up_weaken; [apply up_jobs|by settle|done]. }
  intros ?. eapply up_bind; [apply up_notice_move|]. intros ?. eapply up_bind; [apply up_finish_resolution|]. intros ?.
  apply up_bind with (R1 := fun _ => inv).
  { unfold resolve_move. apply up_get. intros d. destruct (resolution d) eqn:Hr; [by apply up_ret; settle|].
    destruct (relocation d) as [r|]; [|by apply up_ret; settle]. apply up_ask; [apply rec_instant|]. intros now.
    destruct (relocation_due r now); [|by apply up_ret; settle].
    apply up_modify. intros ? ev [-> (log & -> & [])]. exists log. split; [done|]. constructor; try done. by intros ? ? [= <-]. }
  intros ?. apply up_bind with (R1 := fun _ => inv).
  { unfold notice_jobs. eapply up_bind; [apply up_pass_running|]. intros []; [by apply up_ret|].
    apply up_ask; [apply rec_notice|]. intros []; [apply up_spawn_pass|by apply up_ret]. }
  intros ?. unfold doze. apply up_ask; [apply rec_instant|]. intros now. apply up_get. intros d s [Hd H]. cbn.
  by rewrite rec_sleeping, Hd.
Qed.

Lemma main_loop_inv turns : forall s s' r,
  inv (fst s) (events (snd s)) -> main_loop show_io display header_value build version turns key s = Some (s', r) ->
  inv (fst s') (events (snd s')).
Proof.
  induction turns as [|turns IH]; intros s s' r Hs; cbn [main_loop]; [done|].
  assert (upholds inv (ask stop_asked) (fun _ => inv)) as Hask.
  { intros s1 H1. unfold ask. pose proof (rec_stop (snd s1)) as Hq. destruct (stop_asked (snd s1)) as [o b]. cbn in *. by rewrite Hq. }
  specialize (Hask s Hs). destruct (ask stop_asked s) as [s1 [[]|p]]; [by intros [= <- <-]| |by intros [= <- <-]].
  pose proof (up_turn s1 Hask) as Ht. destruct (turn _ _ _ _ _ key s1) as [s2 [[]|p]]; [|by intros [= <- <-]]. by apply IH.
Qed.

Lemma wind_down_inv s : inv (fst s) (events (snd s)) ->
  let '(s', r) := wind_down show_io s in inv (fst s') (events (snd s')).
Proof.
  intros Hs. assert (upholds inv (wind_down show_io) (fun _ => inv)) as Hw.
  { unfold wind_down. eapply up_bind; [apply up_take_moved|]. intros moved. apply up_bind with (R1 := fun _ => inv).
    { destruct moved; [|by apply up_ret]. unfold discard_moved_home. eapply up_bind; [apply up_directory|]. intros ?. by apply up_ret. }
    intros ?. apply up_get. intros d. destruct (shutdown _ _) as [joined cells]. up. }
  specialize (Hw s Hs). by destruct (wind_down show_io s) as [s' []].
Qed.

Lemma start_up_kept h a w o :
  answers h c0 = true ->
  let '(o', st) := start_up show_io header_value build version key c0 h a w o in
  exists log, events o' = events o ++ log /\ all_proper log /\ match st with Started d => kept_to d log | _ => True end.
Proof.
  intros Ha. unfold start_up. destruct (for_home header_value build c0 (home_url h) a) as [a1 [new|e]] eqn:Ef.
  2: { exists []. rewrite app_nil_r. split_and!; try done. by intros [|] ? ? ?. }
  apply (for_home_built header_value build key) in Ef. set (cl := with_installation_key new key) in *.
  pose proof (rec_instant o) as H1. destruct (instant_now o) as [o1 epoch]. cbn in H1.
  destruct (checkin_exchange_events (advertised_capabilities c0) c0 cl ∅ o1) as (doc & H2 & Hc & Hp).
  destruct (checkin_exchange _ _ _ _ _ _ o1) as [o2 answer]. cbn in H2.
  pose proof (rec_meanwhile a1 o2) as H3. destruct (meanwhile a1 o2) as [o3 a3]. cbn in H3.
  pose proof (rec_stop o3) as H4. destruct (stop_asked o3) as [o4 stop]. cbn in H4.
  assert (all_proper [CheckedIn cl doc]) as Hall.
  { apply (all_proper_snoc []); [by intros [|] ? ? ?|]. intros ? ? [= <- <-]. exists c0, h. rewrite caps_daemon. split_and!; try done.
    by split; left. }
  assert (events o4 = events o ++ [CheckedIn cl doc]) as He by (by rewrite H4, H3, H2, H1).
  destruct stop; [by exists [CheckedIn cl doc]|]. destruct (Scheduler.new _ _ _ _ _) as [s|]; [|by exists [CheckedIn cl doc]].
  pose proof (rec_spawned o4) as H5. destruct (libvirt_spawned o4) as [o5 spawned]. cbn in H5.
  exists [CheckedIn cl doc]. split_and!; [by rewrite H5|done|]. constructor; cbn; try done. by split; left.
Qed.
End checkins.
