(* ===== verification/Main.v ===== *)
(** * main.rs: the program

    What the agent does from its command line on: the two subcommands, the dry
    run, the search for the home with its pauses, the single run ([--once]), and
    the daemon, whose start-up and loop are Daemon.v's.

    [MainEnv] adds to [DaemonEnv] what only the program's start asks of its
    surroundings: the configuration file, the state directory that other agent
    processes share, a new key, the signal handler, the collectors and the SMBIOS
    snapshot.  Every answer is arbitrary.  A run is a function of fuel, [None] when
    it runs out: [polls] bounds one pause and one wait for the queue, [fuel] the
    resolutions of the home, [turns] the turns of the daemon's loop. *)

From Stdlib Require Import String.
From S2P Require Import Prelude Text Fs Processes Interfaces Identity Transport Jobs Osquery Config Client Home Payload.
From S2P Require Import Queue Delivery Scheduler Daemon Checkins.

#[local] Set Warnings "-notation-overridden".

Inductive Subcommand := SnapshotSmbios | Fingerprint.
#[export] Instance Subcommand_eq_dec : EqDecision Subcommand.
Proof. solve_decision. Defined.

(** [Args], without the state directory, which every part of the model has as its own. *)
Record Args := mkArgs { arg_config : bytes; once : bool; dry_run : bool; subcommand : option Subcommand }.

Section main.
Context {J : Json} {U : Uuid} {L : UrlApi} {K : Ed25519} {B : Base64} {N : Net} {C : HomeCodec} {E : DaemonEnv}.

Class MainEnv := {
  on_directory_shared : forall A, prog A -> outer -> outer * A;     (* a program of calls, others interleaved *)
  config_text : bytes -> outer -> outer * result bytes io_kind;     (* [fs::read_to_string] of the path *)
  generate_pkcs8 : outer -> outer * option bytes;
  set_handler : outer -> outer * result unit bytes;                 (* [ctrlc::set_handler] *)
  collected : outer -> outer * result ServerResource bytes;         (* [collectors::collect] *)
  publish_snapshot : outer -> outer * result unit bytes;            (* [Publisher::system()?.publish()] *)
  around : outer -> outer * surroundings }.                         (* what a delivery meets *)
Context {M : MainEnv}.

(** The other crates and the platform: texts, the TLS and reqwest client, the
    resolver's answer, TOML, the environment, serde_json and RFC 3339. *)
Context (show_io : io_kind -> bytes) (display dir_display : bytes) (debug : bytes -> bytes)
        (describe : Z -> bytes -> bytes) (parse_rfc2822 : bytes -> option Z) (header_value : bytes -> option bytes)
        (build : Z -> result unit TransportError) (append_pair : url -> bytes -> bytes -> url)
        (decode_answer : bytes -> result bytes bytes) (server_name_valid : bytes -> bool)
        (env : bytes -> option bytes) (parse_toml : bytes -> option RawConfig)
        (to_vec : wire -> option bytes) (to_string_pretty : wire -> result bytes bytes) (rfc3339 : Z -> bytes)
        (show_queue_error : QueueError -> bytes) (version : bytes).

(** ** Finding the home *)

(** The wait between two resolutions, in polls of at most 250 ms: whether shutdown
    was asked. *)
Fixpoint pause (polls : nat) (until : Z) (o : outer) : option (outer * bool) :=
  match polls with
  | O => None
  | S polls' =>
      let '(o, now) := instant_now o in
      if until <? now then Some (o, false)
      else
        let '(o, stop) := stop_asked o in
        if (stop : bool) then Some (o, true)
        else pause polls' until (sleeping (Z.min (until - now) (from_millis 250)) o)
  end.

Inductive Sought :=
| Resolved (h : Home)
| Interrupted
| Unresolved (e : HomeError)
| Overflowed.                  (* the [Instant] of the next attempt: a panic *)

(** [resolve_home]'s loop, [delay] being the next pause. *)
Fixpoint resolve_home (polls fuel : nat) (c : Config) (keep_trying : bool) (delay : Z) (p : place) (o : outer)
  : option (place * outer * Sought) :=
  match fuel with
  | O => None
  | S fuel' =>
      let '(o, tmp) := fresh_uuid o in
      let '(o, wall) := wall_now o in
      let '(p, r) := resolve show_io display describe parse_rfc2822 build append_pair decode_answer tmp wall c p in
      match r with
      | None => None
      | Some (Ok h) => Some (p, o, Resolved h)
      | Some (Err failure) =>
          let '(o, stop) := stop_asked o in
          if (stop : bool) then Some (p, o, Interrupted)
          else if keep_trying && home_transient failure then
            let '(o, now) := instant_now o in
            match checked_add_instant now delay with
            | None => Some (p, o, Overflowed)
            | Some until =>
                match pause polls until o with
                | None => None
                | Some (o, true) => Some (p, o, Interrupted)
                | Some (o, false) => resolve_home polls fuel' c keep_trying (Z.min (delay * 2) HOME_RETRY_MAX) p o
                end
            end
          else Some (p, o, Unresolved failure)
      end
  end.

(** ** The single run *)

Definition show_delivery_error (e : DeliveryError) : bytes :=
  match e with
  | DCancelled => lit "observation delivery cancelled"
  | DCollect m => m
  | DQueue e => show_queue_error e
  | DTransport e => message e
  | DQueuedForRetry id e => lit "observation " ++ uuid_show id ++ lit " queued for retry: " ++ message e
  | DQueuedBehind id e =>
      lit "observation " ++ uuid_show id ++ lit " queued behind an undelivered one: " ++ message e
  | DQueuedCancelled id => lit "observation " ++ uuid_show id ++ lit " queued; delivery was cancelled"
  end.

(** [RuntimeOperations::checkin]: a single run never leases, so it advertises no jobs. *)
Definition once_checkin (key : InstallationKey) (c : Config) (cl : HttpClient) (o : outer) : outer * result unit bytes :=
  let '(o, answer) := checkin_exchange version key (job_capabilities [] (jobs c)) c cl ∅ o in
  (o, match answer with Ok _ => Ok tt | Err e => Err e end).

(** [RuntimeOperations::inventory]. *)
Definition once_inventory (polls : nat) (c : Config) (d : DeliveryQueue) (o : outer)
  : option (outer * DeliveryQueue * result unit bytes) :=
  let '(o, facts) := collected o in
  let '(o, encoded) :=
    match facts with
    | Err e => (o, Err e)
    | Ok server =>
        let '(o, id) := fresh_uuid o in
        let '(o, wall) := wall_now o in
        let observation := observation_with_labels (labels c) (observation_new id wall server) in
        (o, Ok (id, to_vec (observation_wire rfc3339 observation)))
    end in
  let '(o, stop) := stop_asked o in
  let '(o, tmp) := fresh_uuid o in
  let '(o, met) := around o in
  match send_inventory met encoded stop polls tmp d with
  | (_, None) => None
  | (d, Some (Ok _)) => Some (o, d, Ok tt)
  | (d, Some (Err e)) => Some (o, d, Err (show_delivery_error e))
  end.

(** ** [run_configured] *)

(** [Ended] returns, [Panicking] does not. *)
Inductive Ending := Ended (r : result unit bytes) | Panicking.

(** What a run leaves: [found] is the network and the state directory once the home
    was sought, [decided] what the run settled on, [left_directory] the state
    directory at the end. *)
Record Outcome := mkOutcome {
  printed : list bytes;
  found : place;
  decided : option (Config * InstallationKey * Home);
  left_directory : world;
  deliveries : option DeliveryQueue;
  ending : Ending }.

(** A run that ends before a home is known. *)
Definition early (p : place) (e : Ending) : Outcome := mkOutcome [] p None (state_directory p) None e.

(** [args.once], once the home is known. *)
Definition run_once (polls : nat) (key : InstallationKey) (c : Config) (h : Home) (observations batches : world)
    (p : place) (o : outer) : option (outer * Outcome) :=
  let '(a, r) := for_home header_value build c (home_url h) (online p) in
  match r with
  | Err e => Some (o, mkOutcome [] p (Some (c, key, h)) (state_directory p) None (Ended (Err (message e))))
  | Ok new =>
      let cl := with_installation_key new key in
      let '(o, met) := around o in
      let d := delivery_new met observations batches in
      let '(o, checkin) := once_checkin key c cl o in
      match once_inventory polls c d o with
      | None => None
      | Some (o, d, inventory) =>
          let '(o, a) := meanwhile a o in
          let w := discard_home_if_moved show_io cl a (state_directory p) in
          Some (o, mkOutcome [] p (Some (c, key, h)) w (Some d)
                     (Ended (aggregated_result (deliver_startup checkin inventory))))
      end
  end.

(** The daemon, once the home is known. *)
Definition run_daemon (turns : nat) (key : InstallationKey) (c : Config) (h : Home) (p : place) (o : outer)
  : option (outer * Outcome) :=
  let ended o w e := Some (o, mkOutcome [] p (Some (c, key, h)) w None e) in
  match start_up show_io header_value build version key c h (online p) (state_directory p) o with
  | (o, NoClient e) => ended o (state_directory p) (Ended (Err (message e)))
  | (o, StoppedFirst _ w) => ended o w (Ended (Ok tt))
  | (o, Panicked _) => ended o (state_directory p) Panicking
  | (o, Started d) =>
      match main_loop show_io display header_value build version turns key (d, o) with
      | None => None
      | Some ((d, o), Err _) => ended o (directory d) Panicking
      | Some (s, Ok _) =>
          match wind_down show_io s with
          | ((d, o), Ok _) => ended o (directory d) (Ended (Ok tt))
          | ((d, o), Err _) => ended o (directory d) Panicking
          end
      end
  end.

Definition run_configured (polls fuel turns : nat) (args : Args) (observations batches : world) (p : place) (o : outer)
  : option (outer * Outcome) :=
  let '(o, text) := config_text (arg_config args) o in
  let '(o, tmp) := fresh_uuid o in
  let '(o, fresh) := fresh_uuid o in
  let '(o, loaded) := on_directory_shared _
    (Config.load debug server_name_valid show_io dir_display env parse_toml text tmp fresh (arg_config args)) o in
  match loaded with
  | Err e => Some (o, early p (Ended (Err e)))
  | Ok c =>
      let '(o, tmp) := fresh_uuid o in
      let '(o, generated) := generate_pkcs8 o in
      let '(o, loaded_key) := on_directory_shared _ (key_load_or_create show_io dir_display tmp generated) o in
      match loaded_key with
      | Err e => Some (o, early p (Ended (Err e)))
      | Ok key =>
          match resolve_home polls fuel c (negb (once args)) HOME_RETRY_INITIAL p o with
          | None => None
          | Some (p, o, Interrupted) => Some (o, early p (Ended (Ok tt)))
          | Some (p, o, Unresolved e) => Some (o, early p (Ended (Err (home_message e))))
          | Some (p, o, Overflowed) => Some (o, early p Panicking)
          | Some (p, o, Resolved h) =>
              if once args then run_once polls key c h observations batches p o else run_daemon turns key c h p o
          end
      end
  end.

(** ** [run] and the exit code *)

Definition run (polls fuel turns : nat) (args : Args) (observations batches : world) (p : place) (o : outer)
  : option (outer * Outcome) :=
  let with_output out e := mkOutcome out p None (state_directory p) None e in
  match subcommand args with
  | Some SnapshotSmbios => let '(o, r) := publish_snapshot o in Some (o, early p (Ended r))
  | Some Fingerprint =>
      let '(o, r) := on_directory_shared _ (key_load show_io dir_display) o in
      Some (o, match r with
               | Ok key => with_output [fingerprint key] (Ended (Ok tt))
               | Err e => early p (Ended (Err e))
               end)
  | None =>
      if dry_run args then
        let '(o, facts) := collected o in
        match facts with
        | Err e => Some (o, early p (Ended (Err e)))
        | Ok server =>
            let '(o, id) := fresh_uuid o in
            let '(o, wall) := wall_now o in
            match to_string_pretty (observation_wire rfc3339 (observation_new id wall server)) with
            | Ok text => Some (o, with_output [text] (Ended (Ok tt)))
            | Err e => Some (o, early p (Ended (Err e)))
            end
        end
      else
        let '(o, handler) := set_handler o in
        match handler with
        | Err e => Some (o, early p (Ended (Err e)))
        | Ok _ => run_configured polls fuel turns args observations batches p o
        end
  end.

(** The process's exit code; a panic exits with 101. *)
Definition exit_code (out : Outcome) : Z :=
  match ending out with Ended (Ok _) => 0 | Ended (Err _) => 1 | Panicking => 101 end.

(** ** A pause ends *)

(** Reading the clock after a sleep finds it that much later, and later at all. *)
Definition ticking : Prop := forall o o1 t o2 b d,
  instant_now o = (o1, t) -> stop_asked o1 = (o2, b) -> 0 <= d -> t + Z.max d 1 <= snd (instant_now (sleeping d o2)).

(** Polls that outlast a pause. *)
Definition enough_polls (delay : Z) : nat := Z.to_nat (delay / from_millis 250 + 3).

Lemma pause_total polls : forall u o,
  ticking ->
  (let left := u - snd (instant_now o) in
   1 <= Z.of_nat polls /\ (left < (Z.of_nat polls - 2) * from_millis 250 \/ (left <= 0 /\ 2 <= Z.of_nat polls) \/ left < 0)) ->
  is_Some (pause polls u o).
Proof.
  change (from_millis 250) with 250000000.
  induction polls as [|polls IH]; intros u o Ht Hp; cbn [pause]; destruct (instant_now o) as [o1 t] eqn:E1; cbn [snd] in Hp.
  { lia. }
  destruct (Z.ltb_spec u t) as [?|Hle]; [done|].
  destruct (stop_asked o1) as [o2 []] eqn:E2; [done|]. apply IH; [done|]. change (from_millis 250) with 250000000.
  specialize (Ht o o1 t o2 false (Z.min (u - t) 250000000) E1 E2 ltac:(lia)).
  destruct (instant_now (sleeping _ o2)) as [o3 t3]. cbn [snd] in *. cbn zeta. lia.
Qed.

(** ** What the search for the home guarantees *)

(** [url::Url] prints an address with a host as [scheme://authority..]. *)
Hypothesis prints_authority : forall u, url_host_str u <> None ->
  exists scheme authority, split_once_str (lit "://") (url_as_str u) = Some (scheme, authority) /\
    authority <> [] /\ starts_with (lit "/") authority = false.

Lemma asked_trans (s1 s2 s3 : agent) : asked_anonymously s1 s2 -> asked_anonymously s2 s3 -> asked_anonymously s1 s3.
Proof.
  intros (n1 & E1 & H1) (n2 & E2 & H2). exists (n1 ++ n2). rewrite E2, E1, app_assoc.
  split; [done|]. by apply Forall_app.
Qed.

(** What a search may return. *)
Definition sought_well (c : Config) (keep_trying : bool) (p : place) (r : Sought) : Prop :=
  match r with
  | Resolved h => answers h c = true /\ home_on_disk (state_directory p) h
  | Unresolved e => keep_trying = false \/ home_transient e = false
  | Interrupted => True
  | Overflowed => keep_trying = true
  end.

Lemma resolve_home_spec polls c keep_trying fuel : forall delay p o p' o' r,
  keeps HOME_FILE (state_directory p) ->
  resolve_home polls fuel c keep_trying delay p o = Some (p', o', r) ->
  asked_anonymously (online p) (online p') /\ keeps HOME_FILE (state_directory p') /\ sought_well c keep_trying p' r.
Proof.
  induction fuel as [|fuel IH]; intros delay p o p' o' r Hk; cbn [resolve_home]; [done|].
  destruct (fresh_uuid o) as [o1 tmp]. destruct (wall_now o1) as [o2 wall].
  destruct (resolve _ _ _ _ _ _ _ tmp wall c p) as [p1 r1] eqn:E1.
  apply resolve_spec in E1 as (H1 & K1 & Hh); [|done|done].
  destruct r1 as [[h|e]|]; [|destruct (stop_asked o2) as [o3 []]|done].
  - intros [= <- <- <-]. split; [done|]. split; [done|]. by apply Hh.
  - by intros [= <- <- <-].
  - destruct (keep_trying && home_transient e) eqn:Ht.
    + destruct (instant_now o3) as [o4 now]. apply andb_true_iff in Ht as [Hkt Ht].
      destruct (checked_add_instant now delay) as [u|]; [|by intros [= <- <- <-]].
      destruct (pause polls u o4) as [[o5 []]|]; [by intros [= <- <- <-]| |done].
      intros E2. apply IH in E2 as (H2 & K2 & Hr); [|done]. split; [by eapply asked_trans|done].
    + intros [= <- <- <-]. split; [done|]. split; [done|]. by apply andb_false_iff in Ht.
Qed.

(** The search for the home returns: at once for a single run, and for a daemon as
    soon as shutdown is asked.  Between two attempts of a daemon there is no longer
    wait than its pause, which the polls of [enough_polls] outlast. *)
Theorem home_search_ends (polls fuel : nat) (c : Config) (keep_trying : bool) (delay : Z) (p : place) (o : outer) :
  1 <= max_retry_attempts c -> (1 <= fuel)%nat ->
  (keep_trying = false \/ (forall o, snd (stop_asked o) = true) ->
   is_Some (resolve_home polls fuel c keep_trying delay p o)) /\
  (ticking -> 0 <= delay -> forall o' now, instant_now o = (o', now) -> now <= snd (instant_now o') ->
   is_Some (pause (enough_polls delay) (now + delay) o')).
Proof.
  intros Ha Hf. split.
  - intros Hk. destruct fuel as [|fuel]; [lia|]. cbn [resolve_home].
    destruct (fresh_uuid o) as [o1 tmp]. destruct (wall_now o1) as [o2 wall].
    pose proof (resolve_returns show_io display describe parse_rfc2822 build append_pair decode_answer tmp wall c p Ha) as Hr.
    destruct (resolve _ _ _ _ _ _ _ tmp wall c p) as [p1 [[h|e]|]]; [done| |done].
    destruct (stop_asked o2) as [o3 stop] eqn:E3. destruct stop; [done|]. destruct Hk as [->|Hs]; [done|].
    specialize (Hs o2). by rewrite E3 in Hs.
  - intros Ht Hd o' now _ Hn. apply pause_total; [done|]. cbn zeta. unfold enough_polls.
    assert (0 <= delay / from_millis 250) by (apply Z.div_pos; [done|done]).
    pose proof (Z.mul_succ_div_gt delay (from_millis 250) ltac:(done)). rewrite Z2Nat.id by lia.
    split; [lia|]. left. lia.
Qed.

(** ** The check-ins of a run *)

(** The outside keeps the record of Checkins.v, and none of the calls only the
    program's start makes adds to it. *)
Class RecordedMain {R : Recorded} := {
  rec_shared : forall A (m : prog A), silent events (on_directory_shared A m);
  rec_text : forall path, silent events (config_text path);
  rec_pkcs8 : silent events generate_pkcs8;
  rec_handler : silent events set_handler;
  rec_collected : silent events collected;
  rec_publish : silent events publish_snapshot;
  rec_around : silent events around }.
Context {R : Recorded} {RM : RecordedMain}.

(** Walk over a call that adds nothing to the record. *)
Ltac hush law := let H := fresh "Hev" in pose proof law as H;
  match type of H with context [fst ?call] => destruct call as [? ?]; cbn [fst] in H end.

Lemma pause_silent polls : forall u o o' b, pause polls u o = Some (o', b) -> events o' = events o.
Proof.
  induction polls as [|polls IH]; intros u o o' b; cbn [pause]; [done|]. hush (rec_instant o).
  destruct (u <? _); [by intros [= <- <-]|]. hush (rec_stop o0). destruct b0; [intros [= <- <-]; congruence|].
  intros E1. apply IH in E1. rewrite rec_sleeping in E1. congruence.
Qed.

Lemma resolve_home_silent polls c keep_trying fuel : forall delay p o p' o' r,
  resolve_home polls fuel c keep_trying delay p o = Some (p', o', r) -> events o' = events o.
Proof.
  induction fuel as [|fuel IH]; intros delay p o p' o' r; cbn [resolve_home]; [done|].
  hush (rec_uuid o). hush (rec_wall o0). destruct (resolve _ _ _ _ _ _ _ _ _ c p) as [p1 [[h|e]|]]; [intros [= <- <- <-]; congruence| |done].
  hush (rec_stop o1). destruct b; [intros [= <- <- <-]; congruence|].
  destruct (keep_trying && home_transient e); [|intros [= <- <- <-]; congruence]. hush (rec_instant o2).
  destruct (checked_add_instant _ delay) as [u'|]; [|intros [= <- <- <-]; congruence].
  destruct (pause polls u' o3) as [[o4 b]|] eqn:Ep; [|done]. apply pause_silent in Ep.
  destruct b; [intros [= <- <- <-]; congruence|]. intros E1. apply IH in E1. congruence.
Qed.

Lemma once_inventory_silent polls c d o o' d' r : once_inventory polls c d o = Some (o', d', r) -> events o' = events o.
Proof.
  unfold once_inventory. hush (rec_collected o).
  set (enc := match r0 with Ok _ => _ | Err _ => _ end). assert (events (fst enc) = events o0) as He.
  { unfold enc. destruct r0; [|done]. hush (rec_uuid o0). hush (rec_wall o1). cbn. congruence. }
  destruct enc as [o1 encoded]. cbn in He. hush (rec_stop o1). hush (rec_uuid o2). hush (rec_around o3).
  destruct (send_inventory _ _ _ _ _ _) as [d1 [[]|]]; intros [= <- <- <-]; congruence.
Qed.

(** What a single run offers: it never leases, so no job. *)
Definition once_capabilities (c : Config) : list bytes := job_capabilities [] (jobs c).

(** The part of a run after its home is known. *)
Definition at_home (offered : Config -> list bytes) (c : Config) (key : InstallationKey) (h : Home) (p : place) (o o' : outer)
    (out : Outcome) : Prop :=
  found out = p /\ printed out = [] /\ decided out = Some (c, key, h) /\
  exists log, events o' = events o ++ log /\ all_proper offered key c log.

Lemma run_once_at_home polls key c h observations batches p o o' out :
  answers h c = true ->
  run_once polls key c h observations batches p o = Some (o', out) -> at_home once_capabilities c key h p o o' out.
Proof.
  intros Ha. unfold run_once. destruct (for_home header_value build c (home_url h) (online p)) as [a [new|e]] eqn:Ef.
  2: { intros [= <- <-]. split_and!; try done. exists []. rewrite app_nil_r. split; [done|]. by intros [|] ? ? ?. }
  apply (for_home_built header_value build key) in Ef. hush (rec_around o). unfold once_checkin.
  destruct (checkin_exchange_events version key (once_capabilities c) c (with_installation_key new key) ∅ o0) as (doc & H2 & Hc & Hp).
  unfold once_capabilities in H2 at 1. destruct (checkin_exchange _ _ _ _ _ _ o0) as [o1 answer]. cbn in H2.
  destruct (once_inventory polls c _ o1) as [[[o2 d] inv]|] eqn:Ei; [|done]. apply once_inventory_silent in Ei.
  hush (rec_meanwhile a o2). intros [= <- <-]. split_and!; try done.
  exists [CheckedIn (with_installation_key new key) doc]. split; [congruence|].
  apply (all_proper_snoc _ _ _ []); [by intros [|] ? ? ?|]. intros ? ? [= <- <-]. exists c, h. split_and!; try done. by split; left.
Qed.

Lemma run_daemon_at_home turns key c h p o o' out :
  answers h c = true -> run_daemon turns key c h p o = Some (o', out) -> at_home advertised_capabilities c key h p o o' out.
Proof.
  intros Ha. unfold run_daemon.
  pose proof (start_up_kept show_io header_value build version advertised_capabilities key c eq_refl h (online p) (state_directory p) o Ha) as Hb.
  destruct (start_up _ _ _ _ key c h _ _ o) as [o1 st]. destruct Hb as (log & Hev & Hall & Hst).
  assert (forall o2 w e log', events o2 = events o ++ log' -> all_proper advertised_capabilities key c log' ->
    at_home advertised_capabilities c key h p o o2 (mkOutcome [] p (Some (c, key, h)) w None e)) as Hend.
  { intros o2 w e log' H1 H2. split_and!; try done. by exists log'. }
  destruct st as [e|cl w|cl|d]; try (intros [= <- <-]; by eapply Hend).
  destruct (main_loop _ _ _ _ _ turns key (d, o1)) as [[[d1 o2] r]|] eqn:El; [|done].
  apply (main_loop_inv show_io display header_value build version advertised_capabilities key c (events o) eq_refl) in El; [|by exists log].
  destruct r as [[]|]; [|intros [= <- <-]; destruct El as (log1 & H1 & []); by eapply Hend].
  pose proof (wind_down_inv show_io advertised_capabilities key c (events o) (d1, o2) El) as Hw.
  destruct (wind_down show_io (d1, o2)) as [[d2 o3] []]; intros [= <- <-]; destruct Hw as (log2 & H2 & []); by eapply Hend.
Qed.

(** What a run from [p] and [o] to [out] and [o'] keeps to.  [log] is what the
    outside recorded meanwhile: the check-ins, the configurations reloaded and the
    homes looked up. *)
Definition home_bound (args : Args) (p : place) (o o' : outer) (out : Outcome) : Prop :=
  exists log, events o' = events o ++ log /\
  asked_anonymously (online p) (online (found out)) /\
  (is_Some (subcommand args) \/ dry_run args = true ->
   log = [] /\ found out = p /\ left_directory out = state_directory p /\ decided out = None) /\
  match decided out with
  | None => log = []
  | Some (c, key, h) =>
      answers h c = true /\ home_on_disk (state_directory (found out)) h /\ printed out = [] /\
      all_proper (if once args then once_capabilities else advertised_capabilities) key c log
  end.

End main.

(** ** Two runs, to evaluate the theorem on *)

Section sample.
#[local] Existing Instance tiny_uuid.
#[local] Existing Instance tiny_url.
#[local] Existing Instance tiny_ed25519.
#[local] Existing Instance script.
#[local] Existing Instance tiny_home_codec.
#[local] Existing Instance sample_base64.
#[local] Instance main_json : Json := json_of_table [].

(** The outside of Daemon.v's sample, told to stop on the second day, with its record. *)
Definition stopping : DaemonEnv := {|
  outer := Z;
  instant_now := @instant_now _ _ _ _ hourly;
  stop_asked := fun o => (o, from_secs 86400 <? o);
  load_config := @load_config _ _ _ _ hourly;
  queue_health := @queue_health _ _ _ _ hourly;
  wall_now := @wall_now _ _ _ _ hourly;
  osquery_probe := @osquery_probe _ _ _ _ hourly;
  checkin_answer := @checkin_answer _ _ _ _ hourly;
  delivery_finished := @delivery_finished _ _ _ _ hourly;
  pass_finished := @pass_finished _ _ _ _ hourly;
  notice_taken := @notice_taken _ _ _ _ hourly;
  resolution_finished := @resolution_finished _ _ _ _ hourly;
  resolution_result := @resolution_result _ _ _ _ hourly;
  libvirt_spawned := @libvirt_spawned _ _ _ _ hourly;
  libvirt_finished := @libvirt_finished _ _ _ _ hourly;
  fresh_uuid := @fresh_uuid _ _ _ _ hourly;
  meanwhile := @meanwhile _ _ _ _ hourly;
  sleeping := @sleeping _ _ _ _ hourly |}.
#[local] Instance noted : DaemonEnv := logged (E := stopping).

#[local] Instance undisturbed : MainEnv := {|
  on_directory_shared := fun A m o => (o, snd (run_alone m [] (mkDir None 0 ∅)));
  config_text := fun _ o => (o, Ok []);
  generate_pkcs8 := fun o => (o, Some [1; 2; 3; 4]);
  set_handler := fun o => (o, Ok tt);
  collected := fun o => (o, Err (lit "no host"));
  publish_snapshot := fun o => (o, Ok tt);
  around := fun o => (o, sample_env) |}.
#[local] Instance noted_recorded : Recorded := logged_recorded (E := stopping).
#[local] Instance undisturbed_recorded : RecordedMain.
Proof. constructor; done. Defined.

Definition once_toml (_ : bytes) : option RawConfig :=
  Some (mkRaw (Some (lit "https://r")) None (Some (lit "k")) None None None None None None None None None None None).

Definition sample_run (args : Args) : option (outer * Outcome) :=
  run (fun _ => []) [] [] id (fun _ _ => []) (fun _ => None) Some (fun _ => Ok tt) (fun u _ _ => u)
    (fun _ => Ok (lit "https://home/")) (fun _ => true) (fun _ => None) once_toml (fun _ => None) (fun _ => Err [])
    (fun _ => []) (fun _ => []) [] 5 5 50 args (mkWorld ∅ [] false) (mkWorld ∅ [] false) nowhere (0 : Z, []).

Definition once_args : Args := mkArgs [] true false None.
Definition daemon_args : Args := mkArgs [] false false None.

(** What kind of call each entry of the record is. *)
Definition kind (e : event) : Z := match e with Loaded _ => 0 | LookedUp _ => 1 | CheckedIn _ _ => 2 end.

End sample.
