(* ===== verification/Notices.v ===== *)
(** * notices.rs: the job notice socket

    A listener thread keeps a WebSocket to the server open, joins this
    installation's channel, and raises a flag when the server says jobs wait.

    Everything the thread asks of the outside (the clock, cancellation, the name
    resolver, sockets, tungstenite's handshake, frames, random numbers) and the
    flag it raises are [question]s, answered by an arbitrary function of all that
    was asked and answered before.  The history is therefore the whole state; a
    loop that runs out of fuel is told apart from one that fails.  TLS, the
    resolver's thread and tungstenite are on the other side of the questions. *)

From Stdlib Require Import String.
From S2P Require Import Prelude Text Interfaces Identity Payload Modules.

#[local] Set Warnings "-notation-overridden".

Definition SOCKET_PATH : bytes := lit "/api/v1/agent/socket/websocket".
Definition HEARTBEAT : Z := from_secs 30.
Definition SILENCE_LIMIT : Z := from_secs 75.
Definition POLL : Z := from_millis 250.
Definition CONNECT_STAGGER : Z := from_millis 250.
Definition CONNECT_POLL : Z := from_millis 10.
Definition FIRST_RETRY : Z := from_secs 1.
Definition MAX_RETRY : Z := from_secs 300.
Definition JOIN_REF : bytes := lit "1".

Record Timing := mkTiming { heartbeat : Z; silence_limit : Z; poll : Z }.
Definition TIMING : Timing := mkTiming HEARTBEAT SILENCE_LIMIT POLL.

(** ** What the outside answers *)

Inductive error_kind := WouldBlock | TimedOut | ConnectionAborted | OtherKind.
(** [in_progress]: the raw error is [EINPROGRESS]. *)
Record io_error := mkIoError { e_kind : error_kind; in_progress : bool; e_message : bytes }.

Definition timed_out (e : io_error) : bool :=
  match e_kind e with WouldBlock | TimedOut => true | _ => false end.
Definition connection_in_progress (e : io_error) : bool :=
  match e_kind e with WouldBlock => true | _ => in_progress e end.

(** [tungstenite::Error]. *)
Inductive ws_error := WsIo (e : io_error) | WsHttp (status : bytes) | WsOther (message : bytes).
Inductive message := Text (t : bytes) | OtherMessage.
Inductive handshake := Finished | Broken (e : ws_error) | Interrupted.
Inductive try_send := Accepted | Full | Gone.
Inductive SocketAddr := mkAddr (ip : bytes) (port : Z).
Inductive received := Received (r : result (list SocketAddr) io_error) | NotYet | Disconnected.

(** The opening request of the socket. *)
Record ws_request := mkRequest { ws_url : bytes; protocols : bytes; installation : bytes; user_agent : bytes }.

Inductive question :=
| Now                                              (* [Instant::now] *)
| Cancelled
| Sleep (d : Z)
| AskResolver (host : bytes) (port : Z)
| Resolved (wait : Z)                              (* [recv_timeout] *)
| NewSocket (a : SocketAddr)
| SetNonblocking (s : nat) (b : bool)
| Connect (s : nat) (a : SocketAddr)
| TakeError (s : nat)
| PeerAddr (s : nat)
| StartTls (name : bytes)                          (* [ClientConnection::new] *)
| SetDeadline (d : Z)
| OpenSocket (secure : bool) (rq : ws_request)     (* [tungstenite::client::client] *)
| Handshake
| SendFrame (frame : wire)
| ReadFrame
| FlushSocket
| CloseSocket
| Random                                           (* [Uuid::new_v4().as_u128()] *)
| Raise.                                           (* [Notices::raise] *)

Definition answer (q : question) : Type :=
  match q with
  | Now | Random => Z
  | Cancelled | PeerAddr _ => bool
  | Sleep _ | SetDeadline _ | Raise => unit
  | AskResolver _ _ => try_send
  | Resolved _ => received
  | NewSocket _ => result nat io_error
  | SetNonblocking _ _ | Connect _ _ => result unit io_error
  | TakeError _ => result (option io_error) io_error
  | StartTls _ => result unit bytes
  | OpenSocket _ _ | Handshake => handshake
  | SendFrame _ | FlushSocket | CloseSocket => result unit ws_error
  | ReadFrame => result message ws_error
  end.

Definition event : Type := {q : question & answer q}.
Definition happened (q : question) (a : answer q) : event := existT q a.
Abbreviation history := (list event).

Record ListenError := mkListenError { l_message : bytes; joined : bool }.
Inductive halt := OutOfFuel | Failed (e : ListenError).

Definition listen_error (m : bytes) : ListenError := mkListenError m false.
Definition after_join (e : ListenError) : ListenError := mkListenError (l_message e) true.
Definition from_ws (e : ws_error) : ListenError :=
  listen_error (match e with
                | WsHttp status => lit "socket refused with HTTP " ++ status
                | WsIo e => e_message e
                | WsOther m => m
                end).
Definition from_io (e : io_error) : ListenError := listen_error (e_message e).

(** [NoticeEndpoint], without its TLS settings. *)
Record NoticeEndpoint {L : UrlApi} := mkEndpoint {
  base_url : url; ne_api_key : bytes; ne_installation : bytes; ne_timeout : Z }.

Section notices.
Context {J : Json} {L : UrlApi} {H : UrlHost} {B : Base64}.
(** [HeaderValue::from_str], the checks of [into_client_request] and of
    [ServerName::try_from], the agent's version, and the outside. *)
Context (header_value : bytes -> option bytes) (valid_request : bytes -> result unit ws_error)
        (valid_tls_name : bytes -> bool) (version : bytes).
Variable respond : history -> forall q : question, answer q.

Abbreviation N := (ST history halt).

Definition call (q : question) : N (answer q) := fun h => (h ++ [happened q (respond h q)], Ok (respond h q)).
Definition fail {A} (m : string) : N A := st_err (Failed (listen_error (lit m))).
Definition raise_error {A} (e : ListenError) : N A := st_err (Failed e).

(** A loop: [inl] goes round again with the new locals, [inr] leaves. *)
Fixpoint iterate {X A} (fuel : nat) (body : X -> N (X + A)) (x : X) : N A :=
  match fuel with
  | O => st_err OutOfFuel
  | S fuel' =>
      let* r := body x in
      match r with
      | inl x' => iterate fuel' body x'
      | inr a => st_ret a
      end
  end.

(** ** Waiting *)

Definition remaining (deadline : Z) : N unit :=
  let* c := call Cancelled in
  if (c : bool) then fail "socket connection cancelled"
  else
    let* now := call Now in
    if deadline <=? now then fail "socket connection timed out" else st_ret tt.

Definition wait_slice (deadline : Z) : N Z :=
  let* now := call Now in st_ret (Z.min (Z.max 0 (deadline - now)) POLL).

(** Spreads reconnects over the second half of the interval. *)
Definition jittered (interval random : Z) : Z :=
  let half := interval / 2 in
  let spread := Z.max (half / 1000000) 1 in
  half + from_millis (random mod spread).

Definition sleep_body (deadline : Z) (_ : unit) : N (unit + unit) :=
  let* c := call Cancelled in
  if (c : bool) then st_ret (inr tt)
  else
    let* now := call Now in
    if deadline <=? now then st_ret (inr tt)
    else
      let* _ := call (Sleep (Z.min (deadline - now) (from_millis 50))) in
      st_ret (inl tt).

Definition sleep_unless (fuel : nat) (duration : Z) : N unit :=
  let* now := call Now in
  iterate fuel (sleep_body (now + duration)) tt.

(** ** Connecting *)

Definition resolve_body (deadline : Z) (_ : unit) : N (unit + list SocketAddr) :=
  let* _ := remaining deadline in
  let* wait := wait_slice deadline in
  let* r := call (Resolved wait) in
  match (r : received) with
  | Received (Ok []) => fail "server host did not resolve"
  | Received (Ok addresses) => st_ret (inr addresses)
  | Received (Err e) => raise_error (from_io e)
  | NotYet => st_ret (inl tt)
  | Disconnected => fail "server name resolver stopped"
  end.

Definition resolve (fuel : nat) (host : Host) (port deadline : Z) : N (list SocketAddr) :=
  match host with
  | Ipv4 a | Ipv6 a => st_ret [mkAddr a port]
  | Domain name =>
      let* s := call (AskResolver name port) in
      match (s : try_send) with
      | Full => fail "server name resolver is still busy"
      | Gone => fail "server name resolver stopped"
      | Accepted => iterate fuel (resolve_body deadline) tt
      end
  end.

(** [start_connection]. *)
Definition start_connection (a : SocketAddr) : N (result nat io_error) :=
  let* s := call (NewSocket a) in
  match (s : result nat io_error) with
  | Err e => st_ret (Err e)
  | Ok s =>
      let* r := call (SetNonblocking s true) in
      match (r : result unit io_error) with
      | Err e => st_ret (Err e)
      | Ok _ =>
          let* r := call (Connect s a) in
          st_ret (match (r : result unit io_error) with
                  | Ok _ => Ok s
                  | Err e => if connection_in_progress e then Ok s else Err e
                  end)
      end
  end.

Definition connection_ready (s : nat) : N (result bool io_error) :=
  let* e := call (TakeError s) in
  match (e : result (option io_error) io_error) with
  | Err e | Ok (Some e) => st_ret (Err e)
  | Ok None => let* p := call (PeerAddr s) in st_ret (Ok p)
  end.

(** The locals of [connect_tcp]. *)
Record connecting := mkConnecting {
  last : option io_error; next_address : nat; next_start : Z; pending : list nat }.

(** The inner loop: looks at every pending connection once, [n] of them left;
    [Some] is a connected socket. *)
Fixpoint scan (n index : nat) (c : connecting) : N (connecting * option nat) :=
  match n with
  | O => st_ret (c, None)
  | S n' =>
      match pending c !! index with
      | None => st_ret (c, None)
      | Some s =>
          let* r := connection_ready s in
          match (r : result bool io_error) with
          | Ok true => st_ret (mkConnecting (last c) (next_address c) (next_start c) (swap_remove index (pending c)), Some s)
          | Ok false => scan n' (S index) c
          | Err e =>
              let left := swap_remove index (pending c) in
              let* start := match left with [] => call Now | _ => st_ret (next_start c) end in
              scan n' index (mkConnecting (Some e) (next_address c) start left)
          end
      end
  end.

Definition start_next (addresses : list SocketAddr) (now : Z) (c : connecting) : N connecting :=
  match addresses !! next_address c with
  | Some a =>
      if next_start c <=? now then
        let* r := start_connection a in
        let '(last, pending) := match (r : result nat io_error) with
                                | Ok s => (last c, pending c ++ [s])
                                | Err e => (Some e, pending c)
                                end in
        st_ret (mkConnecting last (S (next_address c))
                  (match pending with [] => now | _ => now + CONNECT_STAGGER end) pending)
      else st_ret c
  | None => st_ret c
  end.

Definition connect_round (addresses : list SocketAddr) (deadline : Z) (c : connecting) : N (connecting + nat) :=
  let* now := call Now in
  let* c := start_next addresses now c in
  let* r := scan (length (pending c)) 0 c in
  let '(c, found) := r in
  match (found : option nat) with
  | Some s =>
      let* r := call (SetNonblocking s false) in
      match (r : result unit io_error) with
      | Err e => raise_error (from_io e)
      | Ok _ => st_ret (inr s)
      end
  | None =>
      if bool_decide (pending c = []) && bool_decide (next_address c = length addresses) then
        match last c with
        | Some e => raise_error (from_io e)
        | None => fail "server host did not resolve"
        end
      else
        let* slice := wait_slice deadline in
        let wait := Z.min slice CONNECT_POLL in
        let* wait := (if bool_decide (next_address c < length addresses)%nat
                      then let* now := call Now in st_ret (Z.min wait (Z.max 0 (next_start c - now)))
                      else st_ret wait) in
        let* _ := call (Sleep wait) in
        st_ret (inl c)
  end.

Definition connect_body (addresses : list SocketAddr) (deadline : Z) (c : connecting) : N (connecting + nat) :=
  let* _ := remaining deadline in connect_round addresses deadline c.

Definition connect_tcp (fuel : nat) (addresses : list SocketAddr) (deadline : Z) : N nat :=
  match addresses with
  | [] => fail "server host did not resolve"
  | _ =>
      let* now := call Now in
      iterate fuel (connect_body addresses deadline) (mkConnecting None 0 now [])
  end.

Definition handshake_body (deadline : Z) (_ : unit) : N (unit + unit) :=
  let* _ := remaining deadline in
  let* r := call Handshake in
  match (r : handshake) with
  | Finished => st_ret (inr tt)
  | Broken e => raise_error (from_ws e)
  | Interrupted => st_ret (inl tt)
  end.

Definition finish_handshake (fuel : nat) (first : handshake) (deadline : Z) : N unit :=
  match first with
  | Finished => st_ret tt
  | Broken e => raise_error (from_ws e)
  | Interrupted => iterate fuel (handshake_body deadline) tt
  end.

Definition server_name (host : Host) : N bytes :=
  match host with
  | Domain name => if valid_tls_name name then st_ret name else fail "server host is not a valid TLS name"
  | Ipv4 a | Ipv6 a => st_ret a
  end.

Definition or_fail {A} (m : string) (o : option A) : N A :=
  match o with Some a => st_ret a | None => fail m end.

(** The request of [connect]: the key travels in the subprotocol list. *)
Definition socket_request (e : NoticeEndpoint) : N (bool * ws_request) :=
  let base := base_url e in
  let secure := str_eqb (url_scheme base) (lit "https") in
  let scheme := if secure then lit "wss" else lit "ws" in
  let host := match url_host_str base with Some h => h | None => [] end in
  let authority := match url_port base with Some p => host ++ lit ":" ++ show_u64 p | None => host end in
  let url := scheme ++ lit "://" ++ authority ++ SOCKET_PATH ++ lit "?vsn=2.0.0" in
  match valid_request url with
  | Err e => raise_error (from_ws e)
  | Ok _ =>
      let* protocols := or_fail "invalid intake API key"
        (header_value (lit "phoenix, base64url.bearer.phx." ++ standard_no_pad (ne_api_key e))) in
      let* id := or_fail "invalid installation ID" (header_value (ne_installation e)) in
      st_ret (secure, mkRequest url protocols id (lit "renga-agent/" ++ version))
  end.

Definition connect (fuel : nat) (e : NoticeEndpoint) : N unit :=
  let base := base_url e in
  let* host := or_fail "server URL has no host" (url_host base) in
  let* port := or_fail "server URL has no port" (url_port_or_known_default base) in
  let* now := call Now in
  let deadline := now + ne_timeout e in
  let* addresses := resolve fuel host port deadline in
  let* _ := connect_tcp fuel addresses deadline in
  let* _ := call (SetDeadline deadline) in
  let* _ := (if str_eqb (url_scheme base) (lit "https")
             then let* name := server_name host in
                  let* r := call (StartTls name) in
                  match (r : result unit bytes) with
                  | Ok _ => st_ret tt
                  | Err m => raise_error (listen_error (lit "cannot start TLS: " ++ m))
                  end
             else st_ret tt) in
  let* sr := socket_request e in
  let* first := call (OpenSocket (fst sr) (snd sr)) in
  finish_handshake fuel first deadline.

(** ** Frames *)

Record Frame := mkFrame { f_reference : option bytes; f_topic : bytes; f_event : bytes; f_payload : option json }.

Definition Frame_parse (text : bytes) : Frame :=
  let value := json_from_slice text in
  let at_ i := match value with Some v => json_index v i | None => None end in
  let field i := match at_ i with Some v => json_as_str v | None => None end in
  let text_of o := match o with Some s => s | None => [] end in
  mkFrame (field 1%nat) (text_of (field 2%nat)) (text_of (field 3%nat)) (at_ 4%nat).

(** [value[key]]: null when missing. *)
Definition json_at (v : option json) (key : string) : option json :=
  match v with Some v => json_get v (lit key) | None => None end.
Definition is_str (v : option json) (s : bytes) : bool :=
  match v with Some v => bool_decide (json_as_str v = Some s) | None => false end.
Definition is_true (v : option json) : bool := match v with Some v => json_is_true v | None => false end.

Definition frame_wire (reference topic event : bytes) : wire :=
  WArr [if str_eqb event (lit "phx_join") then WStr JOIN_REF else WNull; WStr reference; WStr topic; WStr event; WObj []].

(** [send]. *)
Definition send (reference topic event : bytes) : N unit :=
  let* now := call Now in
  let* _ := call (SetDeadline (now + POLL)) in
  let* r := call (SendFrame (frame_wire reference topic event)) in
  match (r : result unit ws_error) with
  | Ok _ => st_ret tt
  | Err e => raise_error (from_ws e)
  end.

(** [map_err(ListenError::after_join)]. *)
Definition once_joined {A} (m : N A) : N A := fun h =>
  match m h with
  | (h, Err (Failed e)) => (h, Err (Failed (after_join e)))
  | r => r
  end.

Definition topic_of (e : NoticeEndpoint) : bytes := lit "installation:" ++ ne_installation e.

Definition is_join_reply (topic : bytes) (f : Frame) : bool :=
  str_eqb (f_topic f) topic && str_eqb (f_event f) (lit "phx_reply")
  && bool_decide (f_reference f = Some JOIN_REF).

Definition read_reply (topic : bytes) (deadline : Z) : N (unit + option json) :=
  let* now := call Now in
  let* _ := call (SetDeadline (Z.min deadline (now + POLL))) in
  let* r := call ReadFrame in
  match (r : result message ws_error) with
  | Ok (Text text) =>
      if is_join_reply topic (Frame_parse text) then st_ret (inr (f_payload (Frame_parse text))) else st_ret (inl tt)
  | Ok OtherMessage => st_ret (inl tt)
  | Err (WsIo e) => if timed_out e then st_ret (inl tt) else raise_error (from_ws (WsIo e))
  | Err e => raise_error (from_ws e)
  end.

Definition await_body (topic : bytes) (deadline : Z) (_ : unit) : N (unit + option json) :=
  let* now := call Now in
  if negb (now <? deadline) then fail "no reply to the channel join"
  else
    let* c := call Cancelled in
    if (c : bool) then fail "no reply to the channel join" else read_reply topic deadline.

Definition await_join (fuel : nat) (topic : bytes) (timeout : Z) : N (option json) :=
  let* now := call Now in
  iterate fuel (await_body topic (now + timeout)) tt.

(** ** Listening *)

Record heard := mkHeard { next_ref : Z; next_heartbeat : Z; last_heard : Z }.

Definition heartbeat_if_due (timing : Timing) (now : Z) (s : heard) : N heard :=
  if next_heartbeat s <=? now then
    let* _ := once_joined (send (show_u64 (next_ref s)) (lit "phoenix") (lit "heartbeat")) in
    st_ret (mkHeard (wrap 64 (next_ref s + 1)) (now + heartbeat timing) (last_heard s))
  else st_ret s.

(** What a text frame means once joined. *)
Inductive meaning := JobsWaiting | Closed | Nothing.
Definition meaning_of (topic : bytes) (f : Frame) : meaning :=
  if str_eqb (f_topic f) topic then
    if str_eqb (f_event f) (lit "jobs_waiting") then JobsWaiting
    else if str_eqb (f_event f) (lit "phx_error") || str_eqb (f_event f) (lit "phx_close") then Closed
    else Nothing
  else Nothing.

Definition on_text (topic text : bytes) : N unit :=
  match meaning_of topic (Frame_parse text) with
  | JobsWaiting => call Raise
  | Closed => raise_error (after_join (listen_error (lit "channel closed by Renga")))
  | Nothing => st_ret tt
  end.

Definition close (timing : Timing) : N unit :=
  let* now := call Now in
  let* _ := call (SetDeadline (now + poll timing)) in
  let* _ := call CloseSocket in
  let* _ := call FlushSocket in
  st_ret tt.

Definition ws_timed_out (e : ws_error) : bool := match e with WsIo e => timed_out e | _ => false end.

(** One round of the loop after the check for cancellation. *)
Definition listen_round (topic : bytes) (timing : Timing) (s : heard) : N (heard + unit) :=
  let* now := call Now in
  if silence_limit timing <? Z.max 0 (now - last_heard s)
  then raise_error (after_join (listen_error (lit "socket went silent")))
  else
    let* s := heartbeat_if_due timing now s in
    let* now := call Now in
    let* _ := call (SetDeadline (now + poll timing)) in
    let* r := call ReadFrame in
    match (r : result message ws_error) with
    | Ok m =>
        let* now := call Now in
        let* _ := match m with Text t => on_text topic t | OtherMessage => st_ret tt end in
        st_ret (inl (mkHeard (next_ref s) (next_heartbeat s) now))
    | Err e =>
        if ws_timed_out e then
          let* r := call FlushSocket in
          match (r : result unit ws_error) with
          | Ok _ => st_ret (inl s)
          | Err e => if ws_timed_out e then st_ret (inl s) else raise_error (after_join (from_ws e))
          end
        else raise_error (after_join (from_ws e))
    end.

Definition listen_body (topic : bytes) (timing : Timing) (s : heard) : N (heard + unit) :=
  let* c := call Cancelled in
  if (c : bool) then let* _ := close timing in st_ret (inr tt) else listen_round topic timing s.

Definition listen_with_timing (fuel : nat) (e : NoticeEndpoint) (timing : Timing) : N unit :=
  let topic := topic_of e in
  let* _ := connect fuel e in
  let* now := call Now in
  let* _ := call (SetDeadline (now + ne_timeout e)) in
  let* _ := send JOIN_REF topic (lit "phx_join") in
  let* reply := await_join fuel topic (ne_timeout e) in
  if negb (is_str (json_at reply "status") (lit "ok")) then
    let reason := match json_at (json_at reply "response") "reason" with Some v => json_as_str v | None => None end in
    raise_error (listen_error (lit "channel join refused: " ++ match reason with Some r => r | None => lit "unknown" end))
  else
    let* _ := (if is_true (json_at (json_at reply "response") "jobs_waiting") then call Raise else st_ret tt) in
    let* now := call Now in
    let* heard_at := call Now in
    iterate fuel (listen_body topic timing) (mkHeard 2 (now + heartbeat timing) heard_at).

Definition listen (fuel : nat) (e : NoticeEndpoint) : N unit := listen_with_timing fuel e TIMING.

(** ** The thread *)

(** The locals of [run]: the next delay, and whether the outage was logged. *)
Record outage := mkOutage { retry : Z; quiet : bool }.

Definition attempt {A} (m : N A) : N (result A ListenError) := fun h =>
  match m h with
  | (h, Ok a) => (h, Ok (Ok a))
  | (h, Err (Failed e)) => (h, Ok (Err e))
  | (h, Err OutOfFuel) => (h, Err OutOfFuel)
  end.

Definition after_failure (first_retry : Z) (e : ListenError) (o : outage) : outage :=
  mkOutage (if joined e then first_retry else retry o) true.

Definition run_round (fuel : nat) (e : NoticeEndpoint) (first_retry : Z) (o : outage) : N (outage + unit) :=
  let* r := attempt (listen fuel e) in
  match r with
  | Ok _ => st_ret (inr tt)
  | Err failure =>
      let* c := call Cancelled in
      if (c : bool) then st_ret (inr tt)
      else
        let o := after_failure first_retry failure o in
        let* random := call Random in
        let* _ := sleep_unless fuel (jittered (retry o) random) in
        st_ret (inl (mkOutage (Z.min (retry o * 2) MAX_RETRY) (quiet o)))
  end.

Definition run_body (fuel : nat) (e : NoticeEndpoint) (first_retry : Z) (o : outage) : N (outage + unit) :=
  let* c := call Cancelled in
  if (c : bool) then st_ret (inr tt) else run_round fuel e first_retry o.

Definition run (fuel : nat) (e : NoticeEndpoint) (first_retry : Z) : N unit :=
  iterate fuel (run_body fuel e first_retry) (mkOutage first_retry false).

(** ** Beneath TLS *)

(** [InterruptibleTcp::timeout]: how long one system call may take. *)
Definition tcp_timeout (cancelled : bool) (deadline : option Z) (now : Z) : result Z io_error :=
  if cancelled then Err (mkIoError ConnectionAborted false (lit "socket operation cancelled"))
  else
    let left := Z.min (match deadline with Some d => Z.max 0 (d - now) | None => POLL end) POLL in
    if left =? 0 then Err (mkIoError TimedOut false (lit "socket operation timed out")) else Ok left.

(** ** Stopping

    [T] is the number of questions after which cancellation is seen, [A] a bound on
    the addresses a name resolves to. *)
Section stopping.
Variables T A : nat.
Hypothesis stops : forall h, (T <= length h)%nat -> respond h Cancelled = true.
Hypothesis resolves : forall h w l, respond h (Resolved w) = Received (Ok l) -> (length l <= A)%nat.
Hypothesis some_address : (1 <= A)%nat.

(** [m] ends, at most [k] questions after the later of its start and [T], with a
    result that satisfies [Q]. *)
Definition prompt {X} (k : nat) (m : N X) (Q : X -> Prop) : Prop :=
  forall h h' r, m h = (h', r) ->
    (length h <= length h' <= Nat.max (length h) T + k)%nat /\ r <> Err OutOfFuel /\ forall x, r = Ok x -> Q x.

Lemma prompt_ret {X} k (x : X) (Q : X -> Prop) : Q x -> prompt k (st_ret x) Q.
Proof. intros HQ h h' r [= <- <-]. split; [lia|]. split; [done|]. by intros ? [= <-]. Qed.

Lemma prompt_error {X} k e (Q : X -> Prop) : prompt k (raise_error e) Q.
Proof. intros h h' r [= <- <-]. split; [lia|]. done. Qed.

Lemma prompt_fail {X} k m (Q : X -> Prop) : prompt k (fail m) Q.
Proof. apply prompt_error. Qed.

Lemma prompt_call {Y} k q (f : answer q -> N Y) (Q : Y -> Prop) :
  (forall a, (exists h, a = respond h q) -> prompt k (f a) Q) -> prompt (S k) (st_bind (call q) f) Q.
Proof.
  intros Hf h h' r. unfold call, st_bind. intros E. eapply Hf in E; [|by exists h].
  rewrite length_app in E. cbn [length] in E. destruct E as (? & ? & ?). split; [lia|]. done.
Qed.

Lemma prompt_bind {X Y} k1 k2 k (m : N X) (f : X -> N Y) (R : X -> Prop) (Q : Y -> Prop) :
  prompt k1 m R -> (forall x, R x -> prompt k2 (f x) Q) -> (k1 + k2 <= k)%nat -> prompt k (st_bind m f) Q.
Proof.
  intros Hm Hf Hk h h' r. unfold st_bind. destruct (m h) as [h1 [x|e]] eqn:E1.
  - intros E2. destruct (Hm _ _ _ E1) as (? & _ & Hx). destruct (Hf x (Hx x eq_refl) _ _ _ E2) as (? & ? & ?).
    split; [lia|]. done.
  - intros [= <- <-]. destruct (Hm _ _ _ E1) as (? & ? & _). split; [lia|]. split; [congruence|done].
Qed.

Lemma prompt_weaken {X} k k' (m : N X) (Q Q' : X -> Prop) :
  prompt k m Q -> (k <= k')%nat -> (forall x, Q x -> Q' x) -> prompt k' m Q'.
Proof. intros Hm Hk HQ h h' r E. destruct (Hm _ _ _ E) as (? & ? & ?). split; [lia|]. split; [done|]. auto. Qed.

(** A round that goes on began before [T]. *)
Definition leaves {X Y} (I : X -> Prop) (body : X -> N (X + Y)) : Prop :=
  forall x h h' x', I x -> body x h = (h', Ok (inl x')) -> (length h < T)%nat /\ (length h < length h')%nat.

Lemma iterate_prompt {X Y} (I : X -> Prop) (Q : Y -> Prop) k body : forall fuel x,
  (forall x, I x -> prompt k (body x) (fun r => match r with inl x' => I x' | inr y => Q y end)) ->
  leaves I body -> I x -> (T < fuel)%nat -> prompt (2 * k) (iterate fuel body x) Q.
Proof.
  intros fuel x Hb Hl Hx Hfuel.
  assert (forall fuel x h h' r, I x -> (T - length h < fuel)%nat -> iterate fuel body x h = (h', r) ->
    (length h <= length h' <= Nat.max (length h + k) (T + 2 * k))%nat /\ r <> Err OutOfFuel /\
    forall y, r = Ok y -> Q y) as H1.
  { clear fuel x Hx Hfuel. induction fuel as [|fuel IH]; intros x h h' r Hx Hf E; cbn [iterate] in E; [lia|].
    unfold st_bind in E. destruct (body x h) as [h1 [[x'|y]|e]] eqn:E1;
      destruct (Hb x Hx _ _ _ E1) as (Hlen & Hne & HQ).
    - destruct (Hl _ _ _ _ Hx E1) as [HT Hlt]. destruct (IH x' h1 h' r (HQ _ eq_refl) ltac:(lia) E) as (? & ? & ?).
      split; [lia|]. done.
    - injection E as <- <-. split; [lia|]. split; [done|]. intros ? [= <-]. by apply (HQ (inr y)).
    - injection E as <- <-. split; [lia|]. split; [congruence|done]. }
  intros h h' r E. destruct (H1 fuel x h h' r Hx ltac:(lia) E) as (? & ? & ?). split; [lia|]. done.
Qed.

Lemma call_then {X} q (f : answer q -> N X) h : st_bind (call q) f h = f (respond h q) (h ++ [happened q (respond h q)]).
Proof. done. Qed.

Lemma seen h q a : (T <= length h)%nat -> respond (h ++ [happened q a]) Cancelled = true.
Proof. intros Hh. apply stops. rewrite length_app. lia. Qed.

(** Questions are only ever added. *)
Lemma prompt_extends {X} k (m : N X) (Q : X -> Prop) h h' r : prompt k m Q -> m h = (h', r) -> (length h <= length h')%nat.
Proof. intros Hm E. apply Hm in E as [? _]. lia. Qed.

Lemma remaining_prompt d : prompt 2 (remaining d) (fun _ => True).
Proof.
  apply prompt_call. intros [] _; [apply prompt_fail|]. apply prompt_call. intros now _.
  destruct (d <=? now); [apply prompt_fail|by apply prompt_ret].
Qed.

Lemma wait_slice_prompt d : prompt 1 (wait_slice d) (fun _ => True).
Proof. apply prompt_call. intros now _. by apply prompt_ret. Qed.

(** A loop whose round asks for cancellation first, in any of these ways, leaves. *)
Lemma leaves_remaining {X Y} (I : X -> Prop) d (f : X -> unit -> N (X + Y)) k (Q : X + Y -> Prop) :
  (forall x u, I x -> prompt k (f x u) Q) -> leaves I (fun x => st_bind (remaining d) (f x)).
Proof.
  intros Hf x h h' x' Hx E. apply st_bind_inv in E as (h1 & u & E1 & E2).
  pose proof (prompt_extends _ _ _ _ _ _ (Hf x u Hx) E2) as He. unfold remaining in E1. rewrite call_then in E1.
  destruct (respond h Cancelled) eqn:Ec; [done|]. split.
  - destruct (decide (T <= length h)%nat) as [HT|]; [|lia]. by rewrite (stops h HT) in Ec.
  - rewrite call_then in E1. destruct (d <=? _); [done|]. injection E1 as <- _. rewrite !length_app in He. cbn in He. lia.
Qed.

Lemma leaves_cancelled {X Y} (I : X -> Prop) (stop : X -> N (X + Y)) (f : X -> N (X + Y)) k (Q : X + Y -> Prop) :
  (forall x h h' x', stop x h <> (h', Ok (inl x'))) -> (forall x, I x -> prompt k (f x) Q) ->
  leaves I (fun x => st_bind (call Cancelled) (fun c => if (c : bool) then stop x else f x)).
Proof.
  intros Hs Hf x h h' x' Hx E. rewrite call_then in E. destruct (respond h Cancelled) eqn:Ec; [by destruct (Hs _ _ _ _ E)|].
  pose proof (prompt_extends _ _ _ _ _ _ (Hf x Hx) E) as He. rewrite length_app in He. cbn in He. split; [|lia].
  destruct (decide (T <= length h)%nat) as [HT|]; [|lia]. by rewrite (stops h HT) in Ec.
Qed.

Variable fuel : nat.
Hypothesis enough : (T < fuel)%nat.

Abbreviation always := (fun _ => True).

Lemma sleep_prompt duration : prompt 7 (sleep_unless fuel duration) always.
Proof.
  apply prompt_call. intros now _. set (deadline := now + duration).
  assert (prompt 2 (let* now := call Now in
      if deadline <=? now then st_ret (inr tt : unit + unit)
      else let* _ := call (Sleep (Z.min (deadline - now) (from_millis 50))) in st_ret (inl tt)) always) as Hrest.
  { apply prompt_call. intros n _. destruct (deadline <=? n); [by apply prompt_ret|].
    apply prompt_call. intros ? _. by apply prompt_ret. }
  apply (iterate_prompt always _ 3); [| |done|done].
  - intros x _. apply prompt_call. intros [] _; [by apply prompt_ret|].
    eapply prompt_weaken; [exact Hrest|lia|by intros []].
  - eapply (leaves_cancelled always (fun _ => st_ret (inr tt)) (fun _ => _)); [done|]. intros ? _. exact Hrest.
Qed.

Lemma resolve_prompt host port d : prompt 9 (resolve fuel host port d) (fun l => (length l <= A)%nat).
Proof.
  destruct host as [name|a|a]; [|apply prompt_ret; cbn; lia..]. apply prompt_call. intros [] _; [|apply prompt_fail..].
  assert (prompt 2 (let* wait := wait_slice d in let* r := call (Resolved wait) in
      match (r : received) with
      | Received (Ok []) => fail "server host did not resolve"
      | Received (Ok addresses) => st_ret (inr addresses : unit + list SocketAddr)
      | Received (Err e) => raise_error (from_io e)
      | NotYet => st_ret (inl tt)
      | Disconnected => fail "server name resolver stopped"
      end) (fun r => match r with inl _ => True | inr l => (length l <= A)%nat end)) as Hrest.
  { eapply (prompt_bind 1 1); [apply wait_slice_prompt| |lia]. intros w _. apply prompt_call. intros r [h Hr].
    destruct r as [[[|x l]|e]| |]; [apply prompt_fail| |apply prompt_error|by apply prompt_ret|apply prompt_fail].
    apply prompt_ret. by eapply resolves. }
  apply (iterate_prompt always _ 4); [| |done|done].
  - intros x _. eapply (prompt_bind 2 2); [apply remaining_prompt| |lia]. intros ? _. exact Hrest.
  - eapply (leaves_remaining always d (fun _ _ => _)). intros ? ? _. exact Hrest.
Qed.

Lemma start_connection_prompt a : prompt 3 (start_connection a) always.
Proof.
  apply prompt_call. intros [s|e] _; [|by apply prompt_ret]. apply prompt_call. intros [u|e] _; [|by apply prompt_ret].
  apply prompt_call. intros r _. by apply prompt_ret.
Qed.

Lemma connection_ready_prompt s : prompt 2 (connection_ready s) always.
Proof.
  apply prompt_call. intros [[e|]|e] _; [by apply prompt_ret| |by apply prompt_ret].
  apply prompt_call. intros b _. by apply prompt_ret.
Qed.

(** What the connection loop keeps: one pending connection per address at most. *)
Definition bounded (n : nat) (c : connecting) : Prop := (length (pending c) <= next_address c <= n)%nat.

Lemma length_swap_remove {X} i (l : list X) x : l !! i = Some x -> length l = S (length (swap_remove i l)).
Proof. intros Hi. pose proof (swap_remove_perm i l x Hi) as Hp. by apply Permutation_length in Hp. Qed.

Lemma scan_prompt m : forall n index c, bounded m c -> prompt (3 * n) (scan n index c) (fun r => bounded m (fst r)).
Proof.
  induction n as [|n IH]; intros index c Hc; cbn [scan]; [by apply prompt_ret|].
  destruct (pending c !! index) as [s|] eqn:Ei; [|by apply prompt_ret].
  pose proof (length_swap_remove _ _ _ Ei) as Hl. unfold bounded in *.
  eapply (prompt_bind 2 (3 * n + 1)); [apply connection_ready_prompt| |lia]. intros [[]|e] _.
  - apply prompt_ret. cbn. lia.
  - eapply prompt_weaken; [by apply IH|lia|done].
  - eapply (prompt_bind 1 (3 * n) _ _ _ always); [| |lia].
    + destruct (swap_remove index (pending c)); [|by apply prompt_ret].
      intros h h' r [= <- <-]. rewrite length_app. cbn. split; [lia|done].
    + intros start _. apply IH. cbn. lia.
Qed.

Lemma start_next_prompt addresses now c :
  bounded (length addresses) c -> prompt 3 (start_next addresses now c) (bounded (length addresses)).
Proof.
  intros Hc. unfold start_next. destruct (addresses !! next_address c) as [a|] eqn:Ea; [|by apply prompt_ret].
  destruct (next_start c <=? now); [|by apply prompt_ret]. apply lookup_lt_Some in Ea.
  eapply (prompt_bind 3 0); [apply start_connection_prompt| |lia]. unfold bounded in *.
  intros [s|e] _; apply prompt_ret; cbn; rewrite ?length_app; cbn; lia.
Qed.

Lemma connect_round_prompt addresses d c :
  (length addresses <= A)%nat -> bounded (length addresses) c ->
  prompt (7 + 3 * A) (connect_round addresses d c)
    (fun r => match r with inl c' => bounded (length addresses) c' | inr _ => True end).
Proof.
  intros HA Hc. apply prompt_call. intros now _.
  eapply (prompt_bind 3 (3 + 3 * A)); [by apply start_next_prompt| |lia]. intros c1 Hc1.
  eapply (prompt_bind (3 * A) 3); [| |lia].
  { eapply prompt_weaken; [by apply (scan_prompt (length addresses))|unfold bounded in Hc1; lia|intros x Hx; exact Hx]. }
  intros [c2 [s|]] Hc2; cbn [fst] in Hc2.
  - apply prompt_call. intros [u|e] _; [by apply prompt_ret|apply prompt_error].
  - destruct (_ && _); [destruct (last c2); [apply prompt_error|apply prompt_fail]|].
    eapply (prompt_bind 1 2); [apply wait_slice_prompt| |lia]. intros slice _.
    eapply (prompt_bind 1 1 _ _ _ always); [| |lia].
    + destruct (bool_decide _); [|by apply prompt_ret]. apply prompt_call. intros n _. by apply prompt_ret.
    + intros w _. apply prompt_call. intros ? _. by apply prompt_ret.
Qed.

Lemma connect_tcp_prompt addresses d :
  (length addresses <= A)%nat -> prompt (19 + 6 * A) (connect_tcp fuel addresses d) always.
Proof.
  intros HA. unfold connect_tcp. destruct addresses as [|a l] eqn:El; [apply prompt_fail|]. rewrite <- El in *. clear El a l.
  apply prompt_call. intros now _. eapply prompt_weaken; [apply (iterate_prompt (bounded (length addresses)) always (9 + 3 * A))|lia|done].
  3: unfold bounded; cbn; lia. 3: done.
  - intros c Hc. eapply (prompt_bind 2 (7 + 3 * A)); [apply remaining_prompt| |lia]. intros ? _.
    by apply connect_round_prompt.
  - eapply (leaves_remaining _ d (fun c _ => _)). intros c ? Hc. by apply connect_round_prompt.
Qed.

Lemma finish_handshake_prompt first d : prompt 6 (finish_handshake fuel first d) always.
Proof.
  destruct first; [by apply prompt_ret|apply prompt_error|].
  assert (prompt 1 (let* r := call Handshake in
      match (r : handshake) with
      | Finished => st_ret (inr tt : unit + unit) | Broken e => raise_error (from_ws e) | Interrupted => st_ret (inl tt)
      end) always) as Hrest.
  { apply prompt_call. intros [] _; [by apply prompt_ret|apply prompt_error|by apply prompt_ret]. }
  apply (iterate_prompt always _ 3); [| |done|done].
  - intros x _. eapply (prompt_bind 2 1); [apply remaining_prompt| |lia]. intros ? _.
    eapply prompt_weaken; [exact Hrest|lia|by intros []].
  - eapply (leaves_remaining always d (fun _ _ => _)). intros ? ? _. exact Hrest.
Qed.

Lemma or_fail_prompt {X} k m (o : option X) : prompt k (or_fail m o) always.
Proof. destruct o; [by apply prompt_ret|apply prompt_fail]. Qed.

Lemma connect_prompt e : prompt (38 + 6 * A) (connect fuel e) always.
Proof.
  unfold connect. eapply (prompt_bind 0 (38 + 6 * A)); [apply or_fail_prompt| |lia]. intros host _.
  eapply (prompt_bind 0 (38 + 6 * A)); [apply or_fail_prompt| |lia]. intros port _.
  apply prompt_call. intros now _. eapply (prompt_bind 9 (28 + 6 * A)); [apply resolve_prompt| |lia]. intros l Hl.
  eapply (prompt_bind (19 + 6 * A) 9); [by apply connect_tcp_prompt| |lia]. intros ? _.
  apply prompt_call. intros ? _. eapply (prompt_bind 1 7 _ _ _ always); [| |lia].
  - destruct (str_eqb _ _); [|by apply prompt_ret].
    eapply (prompt_bind 0 1 _ _ _ always); [| |lia].
    + destruct host as [n| |]; cbn; [destruct (valid_tls_name n); [by apply prompt_ret|apply prompt_fail]|by apply prompt_ret..].
    + intros n _. apply prompt_call. intros [u|m] _; [by apply prompt_ret|apply prompt_error].
  - intros ? _. eapply (prompt_bind 0 7 _ _ _ always); [| |lia].
    + unfold socket_request. destruct (valid_request _); [|apply prompt_error].
      eapply (prompt_bind 0 0); [apply or_fail_prompt| |lia]. intros ps _.
      eapply (prompt_bind 0 0); [apply or_fail_prompt| |lia]. intros i _. by apply prompt_ret.
    + intros sr _. apply prompt_call. intros first _. apply finish_handshake_prompt.
Qed.

Lemma send_prompt reference topic event : prompt 3 (send reference topic event) always.
Proof.
  apply prompt_call. intros now _. apply prompt_call. intros ? _. apply prompt_call.
  intros [u|e] _; [by apply prompt_ret|apply prompt_error].
Qed.

Lemma once_joined_prompt {X} k (m : N X) Q : prompt k m Q -> prompt k (once_joined m) Q.
Proof.
  intros Hm h h' r. unfold once_joined. destruct (m h) as [h1 [x|[|e]]] eqn:E1; destruct (Hm _ _ _ E1) as (? & ? & ?);
    intros [= <- <-]; by split.
Qed.

Lemma read_reply_prompt topic d : prompt 3 (read_reply topic d) always.
Proof.
  apply prompt_call. intros n2 _. apply prompt_call. intros ? _.
  apply prompt_call. intros [[t|]|[e| |]] _; try (by apply prompt_ret); try apply prompt_error.
  - destruct (is_join_reply _ _); by apply prompt_ret.
  - destruct (timed_out e); [by apply prompt_ret|apply prompt_error].
Qed.

Lemma await_join_prompt topic timeout : prompt 11 (await_join fuel topic timeout) always.
Proof.
  apply prompt_call. intros now _. set (d := now + timeout).
  apply (iterate_prompt always _ 5); [| |done|done].
  - intros x _. apply prompt_call. intros n _. destruct (negb _); [apply prompt_fail|].
    apply prompt_call. intros [] _; [apply prompt_fail|].
    eapply prompt_weaken; [apply read_reply_prompt|lia|by intros []].
  - intros x h h' x' _ E. unfold await_body in E. rewrite call_then in E.
    destruct (negb _); [done|]. rewrite call_then in E.
    destruct (respond (h ++ [_]) Cancelled) eqn:Ec; [done|].
    eapply prompt_extends in E; [|apply read_reply_prompt]. rewrite !length_app in E. cbn in E. split; [|lia].
    destruct (decide (T <= length h)%nat) as [HT|]; [|lia]. by rewrite seen in Ec.
Qed.

Lemma listen_round_prompt topic timing s : prompt 9 (listen_round topic timing s) always.
Proof.
  apply prompt_call. intros now _. destruct (_ <? _); [apply prompt_error|].
  eapply (prompt_bind 3 5 _ _ _ always); [| |lia].
  { unfold heartbeat_if_due. destruct (_ <=? _); [|by apply prompt_ret].
    eapply (prompt_bind 3 0); [apply once_joined_prompt, send_prompt| |lia]. intros ? _. by apply prompt_ret. }
  intros s' _. apply prompt_call. intros now2 _. apply prompt_call. intros ? _. apply prompt_call. intros [m|e] _.
  - apply prompt_call. intros n _. eapply (prompt_bind 1 0 _ _ _ always); [| |lia]; [|intros ? _; by apply prompt_ret].
    destruct m as [t|]; [|by apply prompt_ret]. unfold on_text.
    destruct (meaning_of _ _); [|apply prompt_error|by apply prompt_ret].
    intros h h' r [= <- <-]. rewrite length_app. cbn. split; [lia|done].
  - destruct (ws_timed_out e); [|apply prompt_error]. apply prompt_call.
    intros [u|e2] _; [by apply prompt_ret|]. destruct (ws_timed_out e2); [by apply prompt_ret|apply prompt_error].
Qed.

Lemma close_prompt timing : prompt 4 (close timing) always.
Proof. do 4 (apply prompt_call; intros ? _). by apply prompt_ret. Qed.

Lemma listen_prompt e : prompt (77 + 6 * A) (listen fuel e) always.
Proof.
  unfold listen, listen_with_timing. eapply (prompt_bind (38 + 6 * A) 39); [apply connect_prompt| |lia]. intros ? _.
  apply prompt_call. intros now _. apply prompt_call. intros ? _.
  eapply (prompt_bind 3 34); [apply send_prompt| |lia]. intros ? _.
  eapply (prompt_bind 11 23); [apply await_join_prompt| |lia]. intros reply _.
  destruct (negb _); [apply prompt_error|]. eapply (prompt_bind 1 22 _ _ _ always); [| |lia].
  { destruct (is_true _); [|by apply prompt_ret]. intros h h' r [= <- <-]. rewrite length_app. cbn. split; [lia|done]. }
  intros ? _. apply prompt_call. intros n1 _. apply prompt_call. intros n2 _.
  apply (iterate_prompt always _ 10); [| |done|done].
  - intros s _. apply prompt_call. intros [] _.
    + eapply (prompt_bind 4 0); [apply close_prompt| |lia]. intros ? _. by apply prompt_ret.
    + eapply prompt_weaken; [apply listen_round_prompt|lia|by intros []].
  - eapply leaves_cancelled; [|intros s _; apply listen_round_prompt].
    intros s h h' s' E. by apply st_bind_inv in E as (? & ? & _ & E).
Qed.

Lemma attempt_prompt {X} k (m : N X) Q : prompt k m Q -> prompt k (attempt m) always.
Proof.
  intros Hm h h' r. unfold attempt. destruct (m h) as [h1 [x|[|e]]] eqn:E1; destruct (Hm _ _ _ E1) as (? & ? & ?);
    intros [= <- <-]; by split.
Qed.

Lemma run_prompt e first_retry : prompt (174 + 12 * A) (run fuel e first_retry) always.
Proof.
  assert (forall o, prompt (86 + 6 * A) (run_round fuel e first_retry o) always) as Hround.
  { intros o. eapply (prompt_bind (77 + 6 * A) 9); [eapply attempt_prompt, listen_prompt| |lia]. intros [u|f] _; [by apply prompt_ret|].
    apply prompt_call. intros [] _; [by apply prompt_ret|]. apply prompt_call. intros random _.
    eapply (prompt_bind 7 0); [apply sleep_prompt| |lia]. intros ? _. by apply prompt_ret. }
  eapply prompt_weaken; [apply (iterate_prompt always always (87 + 6 * A))|lia|done].
  - intros o _. apply prompt_call. intros [] _; [by apply prompt_ret|].
    eapply prompt_weaken; [apply Hround|lia|by intros []].
  - eapply leaves_cancelled; [done|]. intros o _. apply Hround.
  - done.
  - done.
Qed.
End stopping.

(** *** What never fails *)

Definition unfailing {X} (m : N X) : Prop := forall h h' e, m h <> (h', Err (Failed e)).

Lemma unfailing_bind {X Y} (m : N X) (f : X -> N Y) : unfailing m -> (forall x, unfailing (f x)) -> unfailing (st_bind m f).
Proof.
  intros Hm Hf h h' e. unfold st_bind. destruct (m h) as [h1 [x|[|e']]] eqn:E1; [apply Hf|done|].
  by destruct (Hm _ _ _ E1).
Qed.
Lemma unfailing_ret {X} (x : X) : unfailing (st_ret x).
Proof. done. Qed.
Lemma unfailing_call q : unfailing (call q).
Proof. done. Qed.
Lemma unfailing_attempt {X} (m : N X) : unfailing (attempt m).
Proof. intros h h' e. unfold attempt. by destruct (m h) as [h1 [x|[|e']]]. Qed.
Lemma unfailing_iterate {X Y} fuel (body : X -> N (X + Y)) : forall x, (forall x, unfailing (body x)) -> unfailing (iterate fuel body x).
Proof.
  induction fuel as [|fuel IH]; intros x Hb; [done|]. apply unfailing_bind; [apply Hb|]. intros [x'|y]; [by apply IH|done].
Qed.

Lemma run_unfailing fuel e first_retry : unfailing (run fuel e first_retry).
Proof.
  apply unfailing_iterate. intros o. apply unfailing_bind; [done|]. intros []; [done|].
  apply unfailing_bind; [apply unfailing_attempt|]. intros [u|f]; [done|].
  apply unfailing_bind; [done|]. intros []; [done|]. apply unfailing_bind; [done|]. intros random.
  apply unfailing_bind; [|done]. apply unfailing_bind; [done|]. intros now. apply unfailing_iterate. intros u.
  apply unfailing_bind; [done|]. intros []; [done|]. apply unfailing_bind; [done|]. intros n.
  destruct (_ <=? _); [done|]. by apply unfailing_bind.
Qed.

(** C12. The listener stops: whatever the server, the network, the resolver and the
    clock do, if from the [T]-th question on the agent is stopping, the thread
    returns (any number of loop turns above [T] is enough), and asks at most
    [174 + 12 * A] more questions of the outside after that, [A] being the most
    addresses the server's name resolves to. *)
Theorem listener_stops (T A fuel : nat) (e : NoticeEndpoint) (first_retry : Z) (h : history) :
  (forall h, (T <= length h)%nat -> respond h Cancelled = true) ->
  (forall h w l, respond h (Resolved w) = Received (Ok l) -> (length l <= A)%nat) -> (1 <= A)%nat ->
  (T < fuel)%nat ->
  exists h', run fuel e first_retry h = (h', Ok tt) /\ (length h' <= Nat.max (length h) T + (174 + 12 * A))%nat.
Proof.
  intros Hs Hr HA Hf. destruct (run fuel e first_retry h) as [h' r] eqn:E.
  destruct (run_prompt T A Hs Hr HA fuel Hf e first_retry h h' r E) as (Hlen & Hne & _). exists h'. split; [|lia].
  f_equal. destruct r as [[]|[|err]]; [done|done|]. by destruct (run_unfailing fuel e first_retry _ _ _ E).
Qed.

(** ** The protocol

    What a server sees of one connection, and what the agent hears: a state machine
    over the questions asked, written without the code's loops. *)

Inductive phase :=
| Connecting
| Asking                                  (* the join was sent *)
| Listening (next : Z) (owed : bool)      (* the next reference; whether a notice is to be raised *)
| Over.

(** The payload of the join reply, if this is what was read. *)
Definition reply_in (topic : bytes) (r : result message ws_error) : option (option json) :=
  match r with
  | Ok (Text text) =>
      if is_join_reply topic (Frame_parse text) then Some (f_payload (Frame_parse text)) else None
  | _ => None
  end.
Definition accepts (payload : option json) : bool := is_str (json_at payload "status") (lit "ok").
Definition says_waiting (payload : option json) : bool := is_true (json_at (json_at payload "response") "jobs_waiting").
Definition announces (topic : bytes) (r : result message ws_error) : bool :=
  match r with
  | Ok (Text text) => match meaning_of topic (Frame_parse text) with JobsWaiting => true | _ => false end
  | _ => false
  end.

(** Questions that say nothing to the server and raise nothing. *)
Definition silent (q : question) : bool :=
  match q with SendFrame _ | ReadFrame | CloseSocket | Raise => false | _ => true end.

Inductive step (topic : bytes) : phase -> event -> phase -> Prop :=
| step_connecting q a : silent q = true -> step topic Connecting (happened q a) Connecting
| step_join r : step topic Connecting (happened (SendFrame (frame_wire JOIN_REF topic (lit "phx_join"))) r) Asking
| step_asking q a : silent q = true -> step topic Asking (happened q a) Asking
| step_unrelated r : reply_in topic r = None -> step topic Asking (happened ReadFrame r) Asking
| step_joined r payload : reply_in topic r = Some payload -> accepts payload = true ->
    step topic Asking (happened ReadFrame r) (Listening 2 (says_waiting payload))
| step_refused r payload : reply_in topic r = Some payload -> accepts payload = false ->
    step topic Asking (happened ReadFrame r) Over
| step_owed n a : step topic (Listening n true) (happened Now a) (Listening n true)
| step_raise n a : step topic (Listening n true) (happened Raise a) (Listening n false)
| step_idle n q a : silent q = true -> step topic (Listening n false) (happened q a) (Listening n false)
| step_beat n r :
    step topic (Listening n false) (happened (SendFrame (frame_wire (show_u64 n) (lit "phoenix") (lit "heartbeat"))) r)
         (Listening (wrap 64 (n + 1)) false)
| step_read n r : step topic (Listening n false) (happened ReadFrame r) (Listening n (announces topic r))
| step_close n r : step topic (Listening n false) (happened CloseSocket r) Over
| step_over q a : silent q = true -> step topic Over (happened q a) Over.

Inductive follows (topic : bytes) : phase -> history -> phase -> Prop :=
| follows_nil p : follows topic p [] p
| follows_cons p e p1 t p2 : step topic p e p1 -> follows topic p1 t p2 -> follows topic p (e :: t) p2.

Lemma follows_app topic p t1 p1 t2 p2 : follows topic p t1 p1 -> follows topic p1 t2 p2 -> follows topic p (t1 ++ t2) p2.
Proof. induction 1; intros Hf; cbn; [done|]. econstructor; eauto. Qed.

Section protocol.
Variable topic : bytes.

(** From phase [p], [m] keeps to the protocol and ends as [Q] says. *)
Definition obeys {X} (p : phase) (m : N X) (Q : result X halt -> phase -> Prop) : Prop :=
  forall h h' r, m h = (h', r) -> exists t p', h' = h ++ t /\ follows topic p t p' /\ Q r p'.

Lemma obeys_ret {X} p (x : X) (Q : result X halt -> phase -> Prop) : Q (Ok x) p -> obeys p (st_ret x) Q.
Proof. intros HQ h h' r [= <- <-]. exists [], p. rewrite app_nil_r. split; [done|]. split; [constructor|done]. Qed.
Lemma obeys_error {X} p e (Q : result X halt -> phase -> Prop) : Q (Err (Failed e)) p -> obeys p (raise_error e) Q.
Proof. intros HQ h h' r [= <- <-]. exists [], p. rewrite app_nil_r. split; [done|]. split; [constructor|done]. Qed.

Lemma obeys_bind {X Y} p (m : N X) (f : X -> N Y) (R : result X halt -> phase -> Prop) (Q : result Y halt -> phase -> Prop) :
  obeys p m R -> (forall x p1, R (Ok x) p1 -> obeys p1 (f x) Q) -> (forall e p1, R (Err e) p1 -> Q (Err e) p1) ->
  obeys p (st_bind m f) Q.
Proof.
  intros Hm Hf He h h' r. unfold st_bind. destruct (m h) as [h1 [x|e]] eqn:E1; destruct (Hm _ _ _ E1) as (t1 & p1 & -> & F1 & HR).
  - intros E2. destruct (Hf x p1 HR _ _ _ E2) as (t2 & p2 & -> & F2 & HQ). exists (t1 ++ t2), p2. rewrite app_assoc.
    split; [done|]. split; [by eapply follows_app|done].
  - intros [= <- <-]. exists t1, p1. auto.
Qed.

Lemma obeys_call {Y} p q (p1 : answer q -> phase) (f : answer q -> N Y) (Q : result Y halt -> phase -> Prop) :
  (forall a, step topic p (happened q a) (p1 a)) -> (forall a, obeys (p1 a) (f a) Q) -> obeys p (st_bind (call q) f) Q.
Proof.
  intros Hs Hf h h' r E. unfold st_bind, call in E. destruct (Hf _ _ _ _ E) as (t & p2 & -> & F & HQ).
  exists (happened q (respond h q) :: t), p2. rewrite <- app_assoc. split; [done|]. split; [|done]. econstructor; [apply Hs|done].
Qed.

(** A question after which the phase is the same. *)
Definition still (p : phase) (q : question) : Prop := forall a, step topic p (happened q a) p.
Lemma obeys_still {Y} p q (f : answer q -> N Y) (Q : result Y halt -> phase -> Prop) :
  still p q -> (forall a, obeys p (f a) Q) -> obeys p (st_bind (call q) f) Q.
Proof. intros Hs Hf. by apply (obeys_call p q (fun _ => p)). Qed.

Lemma obeys_weaken {X} p (m : N X) (Q Q' : result X halt -> phase -> Prop) :
  obeys p m Q -> (forall r p', Q r p' -> Q' r p') -> obeys p m Q'.
Proof. intros Hm HQ h h' r E. destruct (Hm _ _ _ E) as (t & p' & ? & ? & ?). eauto 6. Qed.

Lemma obeys_iterate {X Y} (I : X -> phase -> Prop) (Q : result Y halt -> phase -> Prop) body :
  (forall x p, I x p -> Q (Err OutOfFuel) p) ->
  (forall x p, I x p -> obeys p (body x) (fun r p' =>
     match r with Ok (inl x') => I x' p' | Ok (inr y) => Q (Ok y) p' | Err e => Q (Err e) p' end)) ->
  forall fuel x p, I x p -> obeys p (iterate fuel body x) Q.
Proof.
  intros Hout Hb. induction fuel as [|fuel IH]; intros x p Hx; cbn [iterate].
  - intros h h' r [= <- <-]. exists [], p. rewrite app_nil_r. split; [done|]. split; [constructor|]. by eapply Hout.
  - eapply obeys_bind; [by apply Hb| |done]. intros [x'|y] p1 H1; [by apply IH|by apply obeys_ret].
Qed.

(** Connecting says nothing on the channel, and none of its failures counts as a new outage. *)
Definition unjoined {X} (r : result X halt) : Prop := forall e, r = Err (Failed e) -> joined e = false.
Definition hushed {X} (m : N X) : Prop := obeys Connecting m (fun r p => p = Connecting /\ unjoined r).

Lemma hushed_ret {X} (x : X) : hushed (st_ret x).
Proof. by apply obeys_ret. Qed.
Lemma hushed_error {X} e : joined e = false -> hushed (raise_error e : N X).
Proof. intros He. apply obeys_error. split; [done|]. by intros ? [= <-]. Qed.
Lemma hushed_fail {X} m : hushed (fail m : N X).
Proof. by apply hushed_error. Qed.
Lemma hushed_call q : silent q = true -> hushed (call q).
Proof.
  intros Hq h h' r [= <- <-]. eexists _, Connecting. split; [done|]. split; [|done].
  econstructor; [by constructor|constructor].
Qed.
Lemma hushed_bind {X Y} (m : N X) (f : X -> N Y) : hushed m -> (forall x, hushed (f x)) -> hushed (st_bind m f).
Proof.
  intros Hm Hf. eapply obeys_bind; [exact Hm|intros x p1 [-> _]; apply Hf|].
  intros e p1 [-> He]. split; [done|]. intros e' [= ->]. by apply He.
Qed.
Lemma hushed_iterate {X Y} (body : X -> N (X + Y)) fuel x : (forall x, hushed (body x)) -> hushed (iterate fuel body x).
Proof.
  intros Hb. apply (obeys_iterate (fun _ p => p = Connecting)); [by intros ? ? ->| |done].
  intros x' p ->. eapply obeys_weaken; [apply Hb|]. intros [[y|y]|e] p' [-> He]; [done| |].
  - done.
  - split; [done|]. intros e' [= ->]. by apply He.
Qed.

Ltac hush :=
  repeat match goal with
    | |- hushed (st_ret _) => apply hushed_ret
    | |- hushed (raise_error _) => apply hushed_error; reflexivity
    | |- hushed (fail _) => apply hushed_fail
    | |- hushed (call _) => apply hushed_call; reflexivity
    | |- hushed (st_bind _ _) => apply hushed_bind; [|intros ?]
    | |- hushed (let '(_, _) := ?x in _) => destruct x
    | |- hushed (match ?x with _ => _ end) => destruct x
    | |- hushed (iterate _ _ _) => apply hushed_iterate; intros ?
    end.

Lemma hushed_remaining d : hushed (remaining d).
Proof. unfold remaining. hush. Qed.
Lemma hushed_wait d : hushed (wait_slice d).
Proof. unfold wait_slice. hush. Qed.
Lemma hushed_scan n : forall index c, hushed (scan n index c).
Proof.
  induction n as [|n IH]; intros index c; cbn [scan]; [hush|]. destruct (pending c !! index); [|hush].
  apply hushed_bind; [unfold connection_ready; hush|]. intros [[]|e]; [hush|apply IH|].
  apply hushed_bind; [hush|]. intros start. apply IH.
Qed.

Lemma connect_obeys fuel e : hushed (connect fuel e).
Proof.
  unfold connect. apply hushed_bind; [unfold or_fail; hush|]. intros host.
  apply hushed_bind; [unfold or_fail; hush|]. intros port. apply hushed_bind; [hush|]. intros now.
  apply hushed_bind.
  { unfold resolve. destruct host; [|hush|hush]. hush. unfold resolve_body.
    apply hushed_bind; [apply hushed_remaining|intros ?]. apply hushed_bind; [apply hushed_wait|intros ?]. hush. }
  intros l. apply hushed_bind.
  { unfold connect_tcp. destruct l as [|x l]; [hush|]. apply hushed_bind; [hush|]. intros n. apply hushed_iterate. intros c.
    unfold connect_body. apply hushed_bind; [apply hushed_remaining|intros ?]. unfold connect_round.
    apply hushed_bind; [hush|intros ?]. apply hushed_bind; [unfold start_next, start_connection; hush|intros c1].
    apply hushed_bind; [apply hushed_scan|]. intros [c2 [s|]]; [hush|].
    destruct (_ && _); [destruct (last c2); hush|]. apply hushed_bind; [apply hushed_wait|intros ?]. hush. }
  intros s. apply hushed_bind; [hush|intros ?]. apply hushed_bind.
  { destruct (str_eqb _ _); [|hush]. unfold server_name. hush. }
  intros ?. apply hushed_bind.
  { unfold socket_request. destruct (valid_request _); [|hush]. unfold or_fail. hush. }
  intros sr. apply hushed_bind; [hush|]. intros first. unfold finish_handshake. destruct first; [hush|hush|].
  apply hushed_iterate. intros ?. apply hushed_bind; [apply hushed_remaining|intros ?]. hush.
Qed.

(** Where a connection may end: nothing is owed; [Ok] means it was closed; a
    failure counts as a new outage exactly when the channel had been joined. *)
Definition ended {X} (r : result X halt) (p : phase) : Prop :=
  (forall n, p <> Listening n true) /\
  (forall x, r = Ok x -> p = Over) /\
  (forall e, r = Err (Failed e) -> joined e = true <-> exists n, p = Listening n false).

Lemma ended_error {X Y} (e : halt) p : ended (Err e : result X halt) p -> ended (Err e : result Y halt) p.
Proof. intros (H1 & _ & H3). split; [done|]. split; [done|]. intros e' [= ->]. by apply H3. Qed.

Lemma still_silent p q : p = Connecting \/ p = Asking \/ p = Over \/ (exists n, p = Listening n false) -> silent q = true -> still p q.
Proof. intros [->|[->|[->|[n ->]]]] Hq a; by constructor. Qed.

Lemma ended_unjoined {X} e p : joined e = false -> p = Connecting \/ p = Asking \/ p = Over -> ended (Err (Failed e) : result X halt) p.
Proof.
  intros Hj Hp. split; [by destruct Hp as [->|[->| ->]]|]. split; [done|]. intros e' [= <-]. rewrite Hj.
  split; [done|]. by intros [n ->]; destruct Hp as [?|[?|?]].
Qed.

Lemma ended_joined {X} e n : joined e = true -> ended (Err (Failed e) : result X halt) (Listening n false).
Proof. intros Hj. split; [done|]. split; [done|]. intros e' [= <-]. rewrite Hj. split; eauto. Qed.

Definition joined_phase (payload : option json) : phase :=
  if accepts payload then Listening 2 (says_waiting payload) else Over.

Lemma await_obeys fuel timeout :
  obeys Asking (await_join fuel topic timeout) (fun r p =>
    match r with Ok payload => p = joined_phase payload | Err e => ended (Err e : result unit halt) p end).
Proof.
  assert (forall q, silent q = true -> still Asking q) as Hq by (intros; by apply still_silent; [auto|]).
  assert (forall m, ended (Err (Failed (listen_error m)) : result unit halt) Asking) as He by (intros; apply ended_unjoined; auto).
  unfold await_join. apply obeys_still; [by apply Hq|]. intros now.
  apply (obeys_iterate (fun _ p => p = Asking)); [|clear fuel|done].
  { intros ? ? ->. by split. }
  intros u p ->. apply obeys_still; [by apply Hq|]. intros n. destruct (negb _); [by apply obeys_error|].
  apply obeys_still; [by apply Hq|]. intros []; [by apply obeys_error|].
  apply obeys_still; [by apply Hq|]. intros n2. apply obeys_still; [by apply Hq|]. intros ?.
  apply (obeys_call Asking ReadFrame (fun r => match reply_in topic r with Some payload => joined_phase payload | None => Asking end)).
  { intros r. destruct (reply_in topic r) as [payload|] eqn:Er; [|by constructor]. unfold joined_phase.
    destruct (accepts payload) eqn:Ea; [by apply step_joined|by eapply step_refused]. }
  intros [[text|]|[x|s|m]]; cbn [reply_in].
  - destruct (is_join_reply _ _); apply obeys_ret; reflexivity.
  - apply obeys_ret. reflexivity.
  - destruct (timed_out x); [apply obeys_ret; reflexivity|apply obeys_error, He].
  - apply obeys_error, He.
  - apply obeys_error, He.
Qed.

Lemma listen_round_obeys timing s n :
  next_ref s = n ->
  obeys (Listening n false) (listen_round topic timing s) (fun r p =>
    match r with
    | Ok (inl s') => p = Listening (next_ref s') false
    | Ok (inr u) => ended (Ok u : result unit halt) p
    | Err e => ended (Err e : result unit halt) p
    end).
Proof.
  intros <-. assert (forall m q, silent q = true -> still (Listening m false) q) as Hq by (intros; apply still_silent; eauto).
  apply obeys_still; [by apply Hq|]. intros now. destruct (_ <? _); [by apply obeys_error, ended_joined|].
  eapply obeys_bind with (R := fun r p =>
    match r with Ok s' => p = Listening (next_ref s') false | Err e => ended (Err e : result unit halt) p end); [| |done].
  { unfold heartbeat_if_due. destruct (_ <=? _); [|by apply obeys_ret].
    eapply obeys_bind with (R := fun r p => p = Listening (wrap 64 (next_ref s + 1)) false /\
      ended (match r with Ok _ => Err OutOfFuel | Err e => Err e end : result unit halt) p); [|by intros ? ? [-> _]; apply obeys_ret|by intros e p1 [_ ?]].
    intros h h' r. unfold once_joined, send. rewrite call_then, call_then, call_then.
    set (h3 := (_ ++ [happened (SendFrame _) _])).
    assert (exists t, h3 = h ++ t /\ follows topic (Listening (next_ref s) false) t (Listening (wrap 64 (next_ref s + 1)) false)) as (t & Ht & Hf).
    { eexists. unfold h3. rewrite <- !app_assoc. split; [done|]. cbn [app].
      econstructor; [by apply Hq|]. econstructor; [by apply Hq|]. econstructor; [apply step_beat|constructor]. }
    destruct (respond _ (SendFrame _)) as [u|e]; intros [= <- <-]; exists t, (Listening (wrap 64 (next_ref s + 1)) false);
      (split; [done|]); (split; [done|]); (split; [done|]); [by split|by apply ended_joined]. }
  intros s1 p1 ->. apply obeys_still; [by apply Hq|]. intros now2. apply obeys_still; [by apply Hq|]. intros ?.
  apply (obeys_call _ ReadFrame (fun r => Listening (next_ref s1) (announces topic r))); [intros r; constructor|].
  intros [m|e].
  - apply obeys_still. { destruct (announces topic (Ok m)); [intros ?; constructor|by apply Hq]. }
    intros heard_at.
    eapply obeys_bind with (R := fun r p => p = Listening (next_ref s1) false /\ forall e, r = Err e -> ended (Err e : result unit halt) p);
      [| |by intros e p1 [_ He]; apply He].
    + destruct m as [text|]; cbn [announces]; [|by apply obeys_ret]. unfold on_text.
      destruct (meaning_of topic (Frame_parse text)).
      * intros h h' r [= <- <-]. eexists _, _. split; [done|]. split; [|split; [reflexivity|done]].
        econstructor; [apply step_raise|constructor].
      * apply obeys_error. split; [done|]. intros e [= <-]. by apply ended_joined.
      * by apply obeys_ret.
    + intros ? p1 [-> _]. by apply obeys_ret.
  - cbn [announces]. destruct (ws_timed_out e); [|by apply obeys_error, ended_joined].
    apply obeys_still; [by apply Hq|]. intros [u|e2]; [by apply obeys_ret|].
    destruct (ws_timed_out e2); [by apply obeys_ret|by apply obeys_error, ended_joined].
Qed.

Lemma close_obeys timing n : obeys (Listening n false) (close timing) (fun r p => p = Over /\ exists x, r = Ok x).
Proof.
  assert (forall q, silent q = true -> still (Listening n false) q) as Hq by (intros; apply still_silent; eauto).
  apply obeys_still; [by apply Hq|]. intros now. apply obeys_still; [by apply Hq|]. intros ?.
  apply (obeys_call _ CloseSocket (fun _ => Over)); [intros ?; constructor|]. intros ?.
  apply obeys_still; [intros ?; by constructor|]. intros ?. apply obeys_ret. eauto.
Qed.
End protocol.

End notices.

(** ** Reconnecting *)

(** A wait is in the second half of the interval. *)
Lemma jittered_bounds interval random :
  from_millis 2 <= interval -> 0 <= random -> interval / 2 <= jittered interval random < interval.
Proof.
  unfold jittered, from_millis. intros Hi Hr. set (half := interval / 2).
  assert (2 * half <= interval /\ 1000000 <= half) as [Hh H1] by (unfold half; split; [apply Z.mul_div_le; lia|apply Z.div_le_lower_bound; lia]).
  assert (1 <= half / 1000000) as Hs by (apply Z.div_le_lower_bound; lia).
  rewrite Z.max_l by lia. pose proof (Z.mod_pos_bound random (half / 1000000) ltac:(lia)).
  pose proof (Z.mul_div_le half 1000000 ltac:(lia)). nia.
Qed.

(** The interval stays between the first and the longest one, doubles while the
    channel cannot be joined, and starts over once it was. *)
Lemma retry_bounds first_retry failure o :
  0 < first_retry <= MAX_RETRY -> first_retry <= retry o <= MAX_RETRY ->
  let o' := after_failure first_retry failure o in
  first_retry <= retry o' <= MAX_RETRY /\ first_retry <= Z.min (retry o' * 2) MAX_RETRY <= MAX_RETRY.
Proof. intros Hf Ho. cbn. destruct (joined failure); lia. Qed.

(** [InterruptibleTcp] never lets one system call take longer than [POLL], nor any
    time once cancelled or past its deadline. *)
Lemma tcp_timeout_bounds c d now t :
  tcp_timeout c d now = Ok t -> c = false /\ 0 < t <= POLL /\ forall at_, d = Some at_ -> now + t <= at_.
Proof.
  unfold tcp_timeout. destruct c; [done|]. destruct (Z.eqb_spec (Z.min (match d with Some d => Z.max 0 (d - now) | None => POLL end) POLL) 0); [done|].
  intros [= <-]. assert (0 < POLL) by reflexivity. split; [done|]. destruct d as [d|]; (split; [lia|]).
  - intros ? [= <-]. lia.
  - done.
Qed.

(** ** A server that says jobs wait, to evaluate the theorems on *)

Section sample.
#[local] Existing Instance tiny_url.
#[local] Instance plain_base64 : Base64 := {| url_safe_no_pad := id; standard_no_pad := id |}.
#[local] Instance one_host : UrlHost := {|
  url_host := fun _ => Some (Domain (lit "h")); url_port := fun _ => None; url_port_or_known_default := fun _ => Some 80 |}.

Definition sample_endpoint : NoticeEndpoint := mkEndpoint tiny_url (lit "http://h/" : @url tiny_url) (lit "k") (lit "i") (from_secs 10).
Definition join_reply : jvalue :=
  JArr [JStr JOIN_REF; JStr JOIN_REF; JStr (topic_of sample_endpoint); JStr (lit "phx_reply");
        JObj [(lit "status", JStr (lit "ok")); (lit "response", JObj [(lit "jobs_waiting", JBool true)])]].
#[local] Instance one_frame : Json := json_of_table [(lit "reply", join_reply)].

(** Every read yields the join reply; the agent stops after [n] questions. *)
Definition scripted (n : nat) (h : history) (q : question) : answer q :=
  match q as q return answer q with
  | Now => Z.of_nat (length h)
  | Random => 0
  | Cancelled => bool_decide (n <= length h)%nat
  | PeerAddr _ => true
  | Sleep _ | SetDeadline _ | Raise => tt
  | AskResolver _ _ => Accepted
  | Resolved _ => Received (Ok [mkAddr (lit "192.0.2.1") 80])
  | NewSocket _ => Ok 0%nat
  | SetNonblocking _ _ | Connect _ _ => Ok tt
  | TakeError _ => Ok None
  | StartTls _ => Ok tt
  | OpenSocket _ _ | Handshake => Finished
  | SendFrame _ | FlushSocket | CloseSocket => Ok tt
  | ReadFrame => Ok (Text (lit "reply"))
  end.

Definition sample_run (n fuel : nat) : history * result unit halt :=
  run Some (fun _ => Ok tt) (fun _ => true) [] (scripted n) fuel sample_endpoint FIRST_RETRY [].
Definition sample_listen (n fuel : nat) : history * result unit halt :=
  listen Some (fun _ => Ok tt) (fun _ => true) [] (scripted n) fuel sample_endpoint [].

Definition raises (h : history) : nat :=
  length (List.filter (fun e => match projT1 e with Raise => true | _ => false end) h).

Lemma listener_stops_witness :
  snd (sample_run 60 61) = Ok tt /\ (length (fst (sample_run 60 61)) <= 60 + 186)%nat.
Proof.
  destruct (listener_stops Some (fun _ => Ok tt) (fun _ => true) [] (scripted 60) 60 1 61 sample_endpoint FIRST_RETRY [])
    as (h' & E & Hl).
  - intros h Hh. cbn. by apply bool_decide_eq_true.
  - intros h w l [= <-]. cbn. lia.
  - lia.
  - lia.
  - unfold sample_run. rewrite E. split; [reflexivity|]. exact Hl.
Defined.

End sample.
