(* ===== verification/NoticeShared.v ===== *)
(** * notices.rs: what the notice listeners share

    [Notices], the flag a listener raises and the daemon takes, and [resolver], the one
    thread of the process that looks names up for every listener there ever is.  Both are
    shared by threads, so each is a transition system whose steps are the atomic
    operations of the threads, in any order: [swap] and [store] on the flag, and the
    sends, receives and lookups around the resolver's channel. *)

From Stdlib Require Import String.
From stdpp Require Import relations.
From S2P Require Import Prelude Text Ip.

#[local] Set Warnings "-notation-overridden".

(** ** Notices *)

Definition Notices := bool.

Definition raise (_ : Notices) : Notices := true.
Definition take (n : Notices) : Notices * bool := (false, n).

Inductive notice_op := Raise | Take.

(** The operations of all threads in the order they happen, with what each [take] returned. *)
Fixpoint notices_run (ops : list notice_op) (n : Notices) : Notices * list bool :=
  match ops with
  | [] => (n, [])
  | Raise :: rest => notices_run rest (raise n)
  | Take :: rest =>
      let '(n, taken) := take n in
      let '(n, l) := notices_run rest n in (n, taken :: l)
  end.

Lemma notices_run_app ops ops' n :
  notices_run (ops ++ ops') n =
  (let '(m, l) := notices_run ops n in let '(m', l') := notices_run ops' m in (m', l ++ l')).
Proof.
  revert n. induction ops as [|[] ops IH]; intros n; cbn.
  - by destruct (notices_run ops' n).
  - by rewrite IH.
  - rewrite IH. destruct (notices_run ops false) as [m l]. by destruct (notices_run ops' m).
Qed.

Lemma notices_raises k n : notices_run (replicate k Raise) n = (if decide (k = 0%nat) then n else true, []).
Proof. revert n. induction k as [|k IH]; intros n; [done|]. cbn [replicate notices_run]. rewrite IH. by case_decide. Qed.

(** However raises and takes interleave, no notice is lost and none is made up: a take
    returns whether a notice was raised since the take before it, or since the start. *)
Theorem notices_kept_until_taken (before after : list notice_op) (n : Notices) (k : nat) :
  let '(m, l) := notices_run (before ++ Take :: replicate k Raise ++ Take :: after) n in
  exists l1 taken l2, l = l1 ++ taken :: bool_decide (0 < k)%nat :: l2 /\
    length l1 = length (List.filter (fun o => match o with Take => true | Raise => false end) before).
Proof.
  rewrite notices_run_app. destruct (notices_run before n) as [m l1] eqn:E1. cbn [notices_run take].
  rewrite notices_run_app, notices_raises. cbn [notices_run take].
  destruct (notices_run after false) as [m' l2]. exists l1, m, l2. split.
  - cbn. do 3 f_equal. case_decide; case_bool_decide; (done || lia).
  - clear -E1. revert n m l1 E1. induction before as [|[] before IH]; intros n m l1; cbn [notices_run List.filter take].
    + by intros [= _ <-].
    + apply IH.
    + destruct (notices_run before false) as [m0 l0] eqn:E0. intros [= _ <-]. cbn. f_equal. by eapply IH.
Qed.

(** ** The resolver *)

(** A request: the reply channel it carries, and the name to look up. *)
Record lookup := mkLookup { reply_to : nat; name : bytes; lookup_port : Z }.

Section resolver.
Context {R : Type}.                       (* [io::Result<Vec<SocketAddr>>] *)

(** The channel's buffer, what the worker is looking up, and the reply channels: how many
    were made, those whose receiver is still there, and what was sent into each; and the
    requests accepted so far. *)
Record resolver := mkResolver {
  buffer : list lookup;
  looking_up : option lookup;
  channels : nat;
  listening : gset nat;
  replies : list (nat * (bytes * Z * R));
  accepted : list lookup }.

Definition CAPACITY : nat := 1.           (* [sync_channel(1)] *)

(** The answer of [try_send], while the worker lives. *)
Inductive sent := Sent | Full.

(** [try_send((host, port, reply))] on a new reply channel; a refused request takes its
    sender with it, and the asker returns. *)
Definition ask (host : bytes) (port : Z) (r : resolver) : resolver * sent :=
  let channel := channels r in
  if Nat.ltb (length (buffer r)) CAPACITY
  then let q := mkLookup channel host port in
       (mkResolver (buffer r ++ [q]) (looking_up r) (S channel) ({[channel]} ∪ listening r) (replies r) (accepted r ++ [q]), Sent)
  else (mkResolver (buffer r) (looking_up r) (S channel) (listening r) (replies r) (accepted r), Full).

(** [work.recv()], when the worker is free. *)
Definition receive (r : resolver) : option resolver :=
  match looking_up r, buffer r with
  | None, q :: rest => Some (mkResolver rest (Some q) (channels r) (listening r) (replies r) (accepted r))
  | _, _ => None
  end.

(** The lookup ends with [answer], sent to its reply channel if anybody still listens. *)
Definition reply (answer : bytes * Z -> R) (r : resolver) : option resolver :=
  let+ q := looking_up r in
  let new := if bool_decide (reply_to q ∈ listening r) then [(reply_to q, (name q, lookup_port q, answer (name q, lookup_port q)))] else [] in
  Some (mkResolver (buffer r) None (channels r) (listening r) (replies r ++ new) (accepted r)).

(** An asker stops waiting: its deadline passed, or its listener was stopped. *)
Definition abandon (channel : nat) (r : resolver) : resolver :=
  mkResolver (buffer r) (looking_up r) (channels r) (listening r ∖ {[channel]}) (replies r) (accepted r).

Inductive resolver_step : resolver -> resolver -> Prop :=
| step_ask host port r : resolver_step r (fst (ask host port r))
| step_receive r r' : receive r = Some r' -> resolver_step r r'
| step_reply answer r r' : reply answer r = Some r' -> resolver_step r r'
| step_abandon channel r : resolver_step r (abandon channel r).

Definition new_resolver : resolver := mkResolver [] None 0 ∅ [] [].

(** The requests accepted and not yet answered, oldest first. *)
Definition outstanding (r : resolver) : list lookup := option_list (looking_up r) ++ buffer r.

(** Requests are answered in the order they were accepted, each reply channel carries one
    request, and a reply is about its channel's request. *)
Record contained (r : resolver) : Prop := mkContained {
  co_buffer : (length (buffer r) <= CAPACITY)%nat;
  co_order : exists answered, accepted r = answered ++ outstanding r /\
    Forall (fun a => exists q, q ∈ answered /\ reply_to q = fst a /\ (name q, lookup_port q) = fst (snd a)) (replies r) /\
    NoDup (map fst (replies r));
  co_fresh : Forall (fun q => (reply_to q < channels r)%nat) (accepted r);
  co_once : NoDup (map reply_to (accepted r)) }.

Lemma contained_new : contained new_resolver.
Proof. constructor; cbn; [lia|exists []; split_and!; [done|constructor|constructor]|constructor|constructor]. Qed.

Lemma ask_contained host port r : contained r -> contained (fst (ask host port r)).
Proof.
  intros [Hb (answered & Ho & Hr & Hd) Hf Hn]. unfold ask. destruct (Nat.ltb_spec (length (buffer r)) CAPACITY) as [Hl|Hl]; cbn [fst].
  - constructor; cbn.
    + rewrite length_app. cbn. unfold CAPACITY in *. lia.
    + exists answered. split; [|done]. unfold outstanding in *. cbn. by rewrite Ho, <- !app_assoc.
    + apply Forall_app. split; [eapply Forall_impl; [|exact Hf]; cbv beta; lia|by repeat constructor].
    + rewrite map_app. apply list.NoDup_app. split_and!; [done| |apply NoDup_singleton].
      intros c (q & -> & Hq)%list_elem_of_fmap Hc. cbn in Hc. apply list_elem_of_singleton in Hc.
      rewrite list.Forall_forall in Hf. specialize (Hf q Hq). lia.
  - constructor; cbn; [done|by exists answered| |done]. eapply Forall_impl; [|exact Hf]; cbv beta; lia.
Qed.

Lemma receive_contained r r' : contained r -> receive r = Some r' -> contained r'.
Proof.
  intros [Hb (answered & Ho & Hr & Hd) Hf Hn]. unfold receive. destruct (looking_up r) eqn:El; [done|].
  destruct (buffer r) as [|q rest] eqn:Eb; [done|]. intros [= <-]. constructor; cbn in *; [lia| |done|done].
  exists answered. split; [|done]. unfold outstanding in *. cbn. by rewrite Ho, El, Eb.
Qed.

Lemma reply_contained answer r r' : contained r -> reply answer r = Some r' -> contained r'.
Proof.
  intros [Hb (answered & Ho & Hr & Hd) Hf Hn]. unfold reply. destruct (looking_up r) as [q|] eqn:El; [|done]. cbn [mbind option_bind].
  intros [= <-]. constructor; cbn; [done| |done|done]. exists (answered ++ [q]). unfold outstanding in *. rewrite El in Ho. cbn in *.
  split; [by rewrite Ho, <- app_assoc|].
  assert (Forall (fun a : nat * (bytes * Z * R) => exists q', q' ∈ answered ++ [q] /\ reply_to q' = fst a /\ (name q', lookup_port q') = fst (snd a)) (replies r)) as Hr'.
  { eapply Forall_impl; [|exact Hr]. intros a (q' & Hq & ?). exists q'. split; [|done]. apply elem_of_app. by left. }
  case_bool_decide; [|by rewrite app_nil_r].
  split; [apply Forall_app; split; [done|]; constructor; [|constructor]; exists q; split; [apply elem_of_app; right; by constructor|done]|].
  rewrite map_app. apply list.NoDup_app. split_and!; [done| |apply NoDup_singleton].
  intros c (a & -> & Ha)%list_elem_of_fmap Hc. cbn in Hc. apply list_elem_of_singleton in Hc.
  rewrite list.Forall_forall in Hr. destruct (Hr a Ha) as (q' & Hq & Hc' & _).
  rewrite Ho, map_app in Hn. apply list.NoDup_app in Hn as (_ & Hn & _). apply (Hn (reply_to q)); [|cbn; by constructor].
  rewrite <- Hc, <- Hc'. by apply list_elem_of_fmap_2.
Qed.

Lemma steps_contained r r' : contained r -> rtc resolver_step r r' -> contained r'.
Proof.
  intros Hc Hst. induction Hst as [|r1 r2 r3 H12 _ IH]; [done|]. apply IH. destruct H12 as [host port r|r r' E|answer r r' E|c r].
  - by apply ask_contained.
  - by eapply receive_contained.
  - by eapply reply_contained.
  - by destruct Hc.
Qed.

(** Whatever listeners ask, give up and are replaced by others, and however long a lookup
    hangs: at most two requests are outstanding, one of them with the system's resolver, in
    the order they were accepted; a request is refused exactly when another already waits;
    each accepted request is answered at most once, on its own channel and about the name it
    asked for; and while any is outstanding, the worker has a step that brings it closer. *)
Theorem resolver_contained (r : resolver) :
  rtc resolver_step new_resolver r ->
  (length (outstanding r) <= 2)%nat /\
  (exists answered, accepted r = answered ++ outstanding r) /\
  (forall host port, snd (ask host port r) = Full <-> buffer r <> []) /\
  NoDup (map fst (replies r)) /\
  (forall c host port a, (c, (host, port, a)) ∈ replies r -> mkLookup c host port ∈ accepted r) /\
  (forall answer, outstanding r <> [] -> exists r', (receive r = Some r' \/ reply answer r = Some r') /\ accepted r' = accepted r).
Proof.
  intros Hst. destruct (steps_contained _ _ contained_new Hst) as [Hb (answered & Ho & Hr & Hd) Hf Hn]. split_and!.
  - unfold outstanding. rewrite length_app. unfold CAPACITY in Hb. destruct (looking_up r); cbn; lia.
  - by exists answered.
  - intros host port. unfold ask, CAPACITY. destruct (buffer r) as [|q rest]; cbn; [by split|]. by split.
  - done.
  - intros c host port a Ha. rewrite list.Forall_forall in Hr. destruct (Hr _ Ha) as ([c' h' p'] & Hq & E1 & E2). cbn in *.
    injection E2 as -> ->. subst. rewrite Ho. apply elem_of_app. by left.
  - intros answer Hne. unfold outstanding, receive, reply in *. destruct (looking_up r) as [q|].
    + eexists. split; [right; reflexivity|done].
    + destruct (buffer r) as [|q rest]; [done|]. eexists. split; [left; reflexivity|done].
Qed.
End resolver.

(** ** A stuck lookup, to evaluate the theorem on *)

Section sample.
Abbreviation host := (lit "renga.test").
(** The first asker gave up, the second waits, the third is refused. *)
Definition stuck : resolver (R := Z) :=
  fst (ask host 443 (fst (ask host 443 (abandon 0 (match receive (fst (ask host 443 new_resolver)) with Some r => r | None => new_resolver end))))).

Lemma resolver_contained_witness :
  length (outstanding stuck) = 2%nat /\ snd (ask host 443 stuck) = Full /\ (length (outstanding stuck) <= 2)%nat.
Proof.
  split; [vm_compute; reflexivity|]. split; [vm_compute; reflexivity|].
  refine (proj1 (resolver_contained stuck _)).
  eapply rtc_l; [apply (step_ask host 443)|]. eapply rtc_l; [apply step_receive; reflexivity|].
  eapply rtc_l; [apply (step_abandon 0)|]. eapply rtc_l; [apply (step_ask host 443)|].
  eapply rtc_l; [apply (step_ask host 443)|]. apply rtc_refl.
Defined.
End sample.
