(* ===== verification/Exporters.v ===== *)
(** * exporters/fetch.rs and exporters/mod.rs: scraping one exporter

    A scrape's outside (name resolution, the HTTP client, the token file and the
    clock) is [outside]; it answers each question of one scrape, and what is sent
    is recorded.  The rest is pure: reading, mapping, and telling which series an
    exporter no longer serves. *)

From Stdlib Require Import String SpecFloat.
From S2P Require Import Prelude Text Floats Ip Interfaces Payload ExportersConfig PowerCollector Hwmon Exposition ExporterMapping.
From S2P Require Import Transport Tls.

#[local] Set Warnings "-notation-overridden".

Definition MAX_SENSOR_CHARS : Z := 255.

Inductive FetchError := FNotPermitted (m : bytes) | FFailed (m : bytes).

(** What reqwest answers. *)
Record response := mkResponse {
  peer : option SocketAddr; status : Z; body : bytes; broken_at : option (nat * bytes) }.
(** A request: its client, the addresses it may connect to, its timeout and its token. *)
Record request := mkRequest { via : HttpSettings; pinned : list SocketAddr; rq_timeout : Z; token : option bytes }.

Record outside := mkOutside {
  now_at_start : Z; now_before_send : Z;
  resolver_spawned : bool; now_waiting : Z;
  lookup_host : bytes -> Z -> option (Z * result (list SocketAddr) bytes);   (* when it ends; [None]: never *)
  protocol_versions : result unit bytes; client_built : HttpSettings -> result unit bytes;
  read_token : bytes -> result bytes bytes;
  transmit : request -> result response bytes }.

Section exporters.
Context {L : UrlApi} {H : UrlHost} {U : Uuid}.
(** [Display] of addresses and statuses, and [HeaderValue::from_str]. *)
Context (show_addr : SocketAddr -> bytes) (show_status : Z -> bytes) (header_value : bytes -> option bytes).

(** ** fetch.rs *)

Definition check_destination (addresses : list SocketAddr) (allow_remote : bool) : result unit bytes :=
  match find_by (fun a => negb (is_loopback (sa_ip a))) addresses with
  | Some a => if negb allow_remote
              then Err (show_addr a ++ lit " is not a loopback address; set allow_remote = true to scrape it")
              else Ok tt
  | None => Ok tt
  end.

(** [trim_start_matches('[')] and [trim_end_matches(']')]. *)
Definition unbracket (h : bytes) : bytes := rev (drop_while (Z.eqb 93) (rev (drop_while (Z.eqb 91) h))).

(** [within]: the work runs on its own thread, which may not start, and is waited for
    until the deadline; a stuck one is left to finish on its own. *)
Definition within {T} (spawned : bool) (deadline now : Z) (work : option (Z * T)) : option T :=
  if spawned then
    let+ done := work in
    if fst done <=? now + since deadline now then Some (snd done) else None
  else None.

Definition addresses_of (o : outside) (deadline : Z) (host : bytes) (port : Z) : result (list SocketAddr) bytes :=
  match parse_ip host with
  | Some ip => Ok [mkSocketAddr ip port]
  | None => match within (resolver_spawned o) deadline (now_waiting o) (lookup_host o host port) with
            | None => Err (lit "resolving " ++ host ++ lit " timed out")
            | Some (Err e) => Err (lit "cannot resolve " ++ host ++ lit ": " ++ e)
            | Some (Ok l) => Ok l
            end
  end.

Definition token_of (o : outside) (e : Endpoint) : result (option bytes) bytes :=
  match bearer_token_file e with
  | None => Ok None
  | Some path =>
      let? t := map_err (fun m => lit "cannot read " ++ path ++ lit ": " ++ m) (read_token o path) in
      match header_value (lit "Bearer " ++ trim t) with
      | Some v => Ok (Some v)
      | None => Err (path ++ lit " does not hold a usable token")
      end
  end.

(** [response.take(max_bytes + 1).read_to_end]. *)
Definition read_body (max : Z) (r : response) : result bytes bytes :=
  let limited := take (Z.to_nat (max + 1)) (body r) in
  match broken_at r with
  | Some (n, m) => if Z.of_nat n <=? max then Err m else Ok limited
  | None => Ok limited
  end.

Definition is_success (s : Z) : bool := (200 <=? s) && (s <? 300).

(** What is made of the answer to a request sent to [addresses]. *)
Definition accept (e : Endpoint) (addresses : list SocketAddr) (r : response) : result bytes FetchError :=
  let url := url_as_str (endpoint_url e) in
  match peer r with
  | None => Err (FFailed (lit "the exporter connection has no peer address"))
  | Some p =>
      if negb (bool_decide (p ∈ addresses)) then Err (FFailed (lit "connected to " ++ show_addr p ++ lit ", which was not resolved"))
      else
        let? _ := map_err FFailed (check_destination [p] (allow_remote e)) in
        if (status r =? 401) || (status r =? 403) then Err (FNotPermitted (url ++ lit " answered " ++ show_status (status r)))
        else if negb (is_success (status r)) then Err (FFailed (url ++ lit " answered " ++ show_status (status r)))
        else
          let? b := map_err (fun m => FFailed (lit "cannot read " ++ url ++ lit ": " ++ m)) (read_body (max_bytes e) r) in
          if max_bytes e <? zlength b then Err (FFailed (lit "response exceeds " ++ show_u64 (max_bytes e) ++ lit " bytes"))
          else match from_utf8 b with
               | Some t => Ok t
               | None => Err (FFailed (lit "response is not UTF-8"))
               end
  end.

(** Everything before the request is sent. *)
Definition prepare (o : outside) (e : Endpoint) : result request FetchError :=
  let u := endpoint_url e in
  let deadline := now_at_start o + endpoint_timeout e in
  let? h := ok_or (url_host_str u) (FFailed (lit "the exporter URL has no host")) in
  let host := unbracket h in
  let? port := ok_or (url_port_or_known_default u) (FFailed (lit "the exporter URL has no port")) in
  let? addresses := map_err FFailed (addresses_of o deadline host port) in
  if bool_decide (addresses = []) then Err (FFailed (host ++ lit " resolves to no address"))
  else
    let? _ := map_err FFailed (check_destination addresses (allow_remote e)) in
    let? t := map_err (fun e => FFailed (message e)) (pinned_tls (protocol_versions o)) in
    let? client := map_err FFailed (exporter_client (client_built o) t (endpoint_timeout e) host addresses) in
    let left := deadline - now_before_send o in
    if left <=? 0 then Err (FFailed (lit "the scrape timed out before connecting"))
    else
      let? t := map_err FFailed (token_of o e) in
      Ok (mkRequest client addresses left t).

(** [fetch]: the request sent, if any, and its outcome. *)
Definition fetch (o : outside) (e : Endpoint) : option request * result bytes FetchError :=
  match prepare o e with
  | Err x => (None, Err x)
  | Ok rq =>
      (Some rq,
       match transmit o rq with
       | Err m => Err (FFailed (lit "cannot scrape " ++ url_as_str (endpoint_url e) ++ lit ": " ++ m))
       | Ok r => accept e (pinned rq) r
       end)
  end.

(** ** mod.rs *)

Definition series_prefix (e : Exporter) : bytes :=
  let u := endpoint_url (endpoint e) in
  let host := match url_host_str u with Some h => h | None => [] end in
  let port := match url_port_or_known_default u with Some p => p | None => 0 end in
  let path := url_path u in
  host ++ lit ":" ++ show_u64 port ++ (if str_eqb path (lit "/metrics") then [] else path).

Definition namespaced (e : Exporter) (l : list Reading) : list Reading :=
  omap (fun r =>
    let local := match strip_prefix (mapping r) (sensor r) with Some s => s | None => sensor r end in
    let s := mapping r ++ lit "/" ++ series_prefix e ++ local in
    if MAX_SENSOR_CHARS <? chars_count s then None
    else Some (mkReading (mapping r) s (r_boundary r) (supply r) (measurement r) (window_seconds r))) l.

(** [text_of]; reading the answer always ends. *)
Definition text_of (o : outside) (e : Exporter) : option request * option (result (list Reading) FetchError) :=
  let '(rq, r) := fetch o (endpoint e) in
  (rq,
   match r with
   | Err x => Some (Err x)
   | Ok t => match parse t default_limits wanted with
             | None => None
             | Some (Err m) => Some (Err (FFailed (lit "malformed response: " ++ m)))
             | Some (Ok samples) => Some (Ok (namespaced e (map_samples samples)))
             end
   end).

(** [(window_seconds * 1_000.0) as i64]. *)
Definition window_ms (r : Reading) : Z := f64_as_i64 (f64_mul (window_seconds r) (f64_of_Z 1000)).

Definition series (r : Reading) : bytes * bytes * bytes * Z :=
  (sensor r, boundary_str (r_boundary r), quantity (measurement r), window_ms r).

Definition to_sample (r : Reading) (failed : bool) (now : Z) : TelemetrySample :=
  let '(unit, value, state) := match measurement r with
                               | Watts w => (Some (lit "W"), w, None)
                               | State s => (None, None, s)
                               end in
  let readable := match value, state with None, None => false | _, _ => true end in
  let valid := negb failed && readable in
  mkSample None (sensor r) (boundary_str (r_boundary r)) (quantity (measurement r)) unit
    (option_map (mkSampleComponent (lit "power_port")) (supply r)) None None
    (if valid then lit "valid" else lit "failed") (lit "exporter")
    (if valid then value else None) (if valid then state else None)
    (mkWindow (now - from_millis (window_ms r)) now) now (mkMapping (mapping r) MAPPING_VERSION) FRESH_FOR_SECONDS.

Definition batch_of (id : uuid) (l : list Reading) (failed : bool) (now : Z) : TelemetryBatch :=
  batch_host id (map (fun r => to_sample r failed now) l).

Context (rfc3339 : Z -> bytes) (to_vec : wire -> option bytes).

Definition with_unreadable (r : Reading) : Reading :=
  mkReading (mapping r) (sensor r) (r_boundary r) (supply r) (unreadable (measurement r)) (window_seconds r).

(** What a scrape reports: the readings, whether they count as failed, the
    source's status, and what is known from now on. *)
Definition report (result : result (list Reading) FetchError) (known : list Reading)
  : list Reading * bool * bytes * list Reading :=
  match result with
  | Ok l =>
      let gone := map with_unreadable
        (List.filter (fun old => negb (existsb (fun new => bool_decide (series new = series old)) l)) known) in
      (l ++ gone, false, match l with [] => lit "not_present" | _ => lit "available" end, l)
  | Err (FNotPermitted _) => (known, true, lit "not_permitted", known)
  | Err (FFailed _) => (known, true, lit "unreachable", known)
  end.

Definition scrape (e : Exporter) (result : result (list Reading) FetchError) (id : uuid) (now : Z)
    (known : list Reading) (sources : PowerSources) : list Reading * PowerSources * option (uuid * bytes) :=
  let '(l, failed, status, known) := report result known in
  (known, publish (ExportersConfig.source e) status sources,
   match l with
   | [] => None
   | _ => match to_vec (batch_wire rfc3339 (batch_of id l failed now)) with
          | Some b => if zlength b <=? MAX_TELEMETRY_BYTES then Some (id, b) else None
          | None => None
          end
   end).

(** ** What may be contacted *)

Lemma check_destination_ok l remote : check_destination l remote = Ok tt -> remote = true \/ Forall (fun a => is_loopback (sa_ip a) = true) l.
Proof.
  unfold check_destination. destruct (find_by _ l) as [a|] eqn:Ef.
  - destruct remote; [auto|done].
  - intros _. right. apply find_by_None in Ef. eapply Forall_impl; [|exact Ef]. cbv beta. intros a. by destruct (is_loopback (sa_ip a)).
Qed.

Lemma map_err_ok {A X Y} (f : X -> Y) (r : result A X) a : map_err f r = Ok a -> r = Ok a.
Proof. destruct r; [by intros [= ->]|done]. Qed.

Lemma scrape_prepare_ok o e rq : prepare o e = Ok rq ->
  pinned rq <> [] /\ (allow_remote e = true \/ Forall (fun a => is_loopback (sa_ip a) = true) (pinned rq)) /\
  (0 < rq_timeout rq /\ now_before_send o + rq_timeout rq = now_at_start o + endpoint_timeout e) /\
  (exists host, stays_put (endpoint_timeout e) (via rq) /\ system_proxy (via rq) = false /\ overrides (via rq) = [(host, pinned rq)]) /\
  (bearer_token_file e = None -> token rq = None).
Proof.
  unfold prepare. intros E. apply result_bind_ok in E as (h & _ & E). apply result_bind_ok in E as (port & _ & E).
  apply result_bind_ok in E as (addresses & _ & E). destruct (bool_decide (addresses = [])) eqn:Hne; [done|].
  apply result_bind_ok in E as ([] & Hd & E). apply map_err_ok, check_destination_ok in Hd.
  apply result_bind_ok in E as (tc & Htc & E). apply map_err_ok in Htc.
  apply result_bind_ok in E as (cl & Hcl & E). apply map_err_ok, exporter_client_ok in Hcl as (Hc1 & Hc2 & Hc3 & _ & Hc4 & Hc5).
  assert (tc = mkTlsConfig Ring WebpkiRoots false) as ->.
  { unfold pinned_tls in Htc. by apply result_bind_ok in Htc as (? & _ & [= <-]). }
  destruct (Z.leb_spec (now_at_start o + endpoint_timeout e - now_before_send o) 0); [done|].
  apply result_bind_ok in E as (t & Ht & [= <-]). apply map_err_ok in Ht. cbn. apply bool_decide_eq_false in Hne.
  split_and!; [done|done|lia|lia|by eexists|]. unfold token_of in Ht. intros Hb. rewrite Hb in Ht. by injection Ht as <-.
Qed.

Lemma from_utf8_some b t : from_utf8 b = Some t -> t = b /\ utf8_valid b = true.
Proof. unfold from_utf8. destruct (utf8_valid b); [by intros [= <-]|done]. Qed.

(** Whatever names resolve to and whoever answers: an endpoint that is not
    allowed to be remote is only ever asked on addresses that all are loopback
    ones, and its answer is taken only from one of those; no token is sent unless
    one is configured; the request goes through no proxy and follows no redirect, its
    host's name stands for those addresses, and its time ends when the endpoint's timeout
    after the start of the scrape does; and an answer that is taken is UTF-8 of a successful status, from an address
    that was resolved, within the size limit. *)
Theorem scrape_stays_local (o : outside) (e : Endpoint) :
  let '(sent, r) := fetch o e in
  (forall rq, sent = Some rq ->
     (allow_remote e = false -> Forall (fun a => is_loopback (sa_ip a) = true) (pinned rq)) /\
     (bearer_token_file e = None -> token rq = None) /\
     (exists host, stays_put (endpoint_timeout e) (via rq) /\ system_proxy (via rq) = false /\ overrides (via rq) = [(host, pinned rq)]) /\
     0 < rq_timeout rq /\ now_before_send o + rq_timeout rq = now_at_start o + endpoint_timeout e) /\
  (forall text, r = Ok text ->
     exists rq answer p, sent = Some rq /\ transmit o rq = Ok answer /\ peer answer = Some p /\ p ∈ pinned rq /\
       (allow_remote e = false -> is_loopback (sa_ip p) = true) /\
       is_success (status answer) = true /\ zlength text <= max_bytes e /\ utf8_valid text = true).
Proof.
  unfold fetch. destruct (prepare o e) as [rq|x] eqn:Ep; [|by split].
  apply scrape_prepare_ok in Ep as (Hne & Hloc & Ht & Hvia & Htok). split.
  { intros ? [= <-]. split; [|split; [done|split; [done|lia]]]. intros Hr. destruct Hloc as [?|?]; [congruence|done]. }
  destruct (transmit o rq) as [answer|m] eqn:Et; [|done]. intros text Ha. exists rq, answer.
  unfold accept in Ha. destruct (peer answer) as [p|] eqn:Epeer; [|done].
  destruct (bool_decide (p ∈ pinned rq)) eqn:Hin; [|done]. apply bool_decide_eq_true in Hin. cbn [negb] in Ha.
  apply result_bind_ok in Ha as ([] & _ & Ha). destruct (_ || _); [done|].
  destruct (is_success (status answer)) eqn:Hs; [|done]. cbn [negb] in Ha.
  apply result_bind_ok in Ha as (b & _ & Ha). destruct (Z.ltb_spec (max_bytes e) (zlength b)); [done|].
  destruct (from_utf8 b) as [t|] eqn:Eu; [|done]. injection Ha as <-. apply from_utf8_some in Eu as [-> Hu].
  exists p. split_and!; try done. intros Hr. destruct Hloc as [?|Hloc]; [congruence|].
  rewrite list.Forall_forall in Hloc. by apply Hloc.
Qed.

(** ** What a scrape accounts for *)

Lemma to_sample_value r failed now v : t_value (to_sample r failed now) = Some v ->
  failed = false /\ measurement r = Watts (Some v) /\ t_status (to_sample r failed now) = lit "valid".
Proof. unfold to_sample. destruct (measurement r) as [[w|]|[s|]], failed; cbn; try done. by intros [= <-]. Qed.

Lemma to_sample_failed r failed now : t_status (to_sample r failed now) = lit "failed" ->
  t_value (to_sample r failed now) = None /\ t_state (to_sample r failed now) = None.
Proof. unfold to_sample. destruct (measurement r) as [[w|]|[s|]], failed; cbn; done. Qed.

Lemma series_unreadable r : series (with_unreadable r) = series r.
Proof. unfold series. destruct r as [? ? ? ? [] ?]; done. Qed.

(** A scrape accounts for every series: what the exporter served last time is
    in the batch again, with a value only if it was read this time, and as failed
    otherwise, never as zero; and no sample carries a value that was not read. *)
Theorem scrape_accounts_for_known (r : result (list Reading) FetchError) (known : list Reading) (now : Z) :
  let '(l, failed, _, known') := report r known in
  (forall old, old ∈ known -> exists new, new ∈ l /\ series new = series old) /\
  (forall new v, new ∈ l -> t_value (to_sample new failed now) = Some v ->
     exists readings, r = Ok readings /\ new ∈ readings /\ measurement new = Watts (Some v)) /\
  (forall new, new ∈ l -> t_status (to_sample new failed now) = lit "failed" ->
     t_value (to_sample new failed now) = None /\ t_state (to_sample new failed now) = None) /\
  (forall readings, r = Ok readings -> known' = readings /\ forall new, new ∈ readings -> new ∈ l) /\
  (forall e, r = Err e -> known' = known /\ l = known).
Proof.
  assert (forall (l : list Reading) failed, (forall new, new ∈ l -> t_status (to_sample new failed now) = lit "failed" ->
     t_value (to_sample new failed now) = None /\ t_state (to_sample new failed now) = None)) as Hf by (intros ? ? ? _; apply to_sample_failed).
  destruct r as [readings|[m|m]]; cbn [report]; (split; [|split; [|split; [apply Hf|]]]).
  - intros old Hold. destruct (existsb (fun new => bool_decide (series new = series old)) readings) eqn:Ee.
    + apply existsb_exists in Ee as (new & Hn & Hs%bool_decide_eq_true). exists new. split; [|done]. apply elem_of_app. left. by apply list_elem_of_In.
    + exists (with_unreadable old). split; [|apply series_unreadable]. apply elem_of_app. right. apply list_elem_of_fmap_2, list_elem_of_In, filter_In.
      split; [by apply list_elem_of_In|]. by rewrite Ee.
  - intros new v [Hn|Hn]%elem_of_app Hv; apply to_sample_value in Hv as (_ & Hm & _); [by exists readings|]. exfalso.
    apply list_elem_of_fmap_1 in Hn as (old & -> & _). cbn in Hm. by destruct (measurement old).
  - split; [|done]. intros ? [= <-]. split; [done|]. intros new Hn. apply elem_of_app. by left.
  - intros old Hold. by exists old.
  - intros new v _ Hv. by apply to_sample_value in Hv as [? _].
  - split; [done|]. intros ? _. done.
  - intros old Hold. by exists old.
  - intros new v _ Hv. by apply to_sample_value in Hv as [? _].
  - split; [done|]. intros ? _. done.
Qed.
End exporters.
