(* ===== verification/SnmpWalk.v ===== *)
(** * snmp/client.rs: reading a device, and snmp/mod.rs: many at once

    A session answers GET and GETNEXT requests; it, the clock and cancellation are
    [Device], an abstract state whose every answer is arbitrary.  Answers are the
    ordered map of BTree.v. *)

From Stdlib Require Import String.
From S2P Require Import Prelude Text BTree SnmpConfig.

#[local] Set Warnings "-notation-overridden".

Abbreviation Oid := (list Z).

Inductive SnmpValue :=
| Integer (z : Z)
| Unsigned (n : Z)
| Octets (b : bytes)
| ObjectId (o : Oid)
| IpAddress (a b c d : Z)
| Missing
| Other.
#[export] Instance SnmpValue_eq_dec : EqDecision SnmpValue.
Proof. solve_decision. Defined.

Abbreviation Answers := (list (Oid * SnmpValue)).

Definition MAX_VARIABLES : Z := 200000.
Definition MAX_ANSWER_BYTES : Z := 32 * 1024 * 1024.
Definition BULK_REPETITIONS : Z := 25.

Class Device := {
  device : Type;
  get_many : list Oid -> device -> device * result (list (Oid * SnmpValue)) bytes;
  next_after : Oid -> Z -> device -> device * result (list (Oid * SnmpValue)) bytes;
  past_deadline : device -> device * bool;          (* [Instant::now() >= deadline] *)
  poll_stopped : device -> device * bool }.

Definition value_bytes (v : SnmpValue) : Z :=
  match v with
  | Octets b => zlength b
  | ObjectId o => zlength o * 4
  | _ => 8
  end.

(** [wire_oid] and [from_wire_value] are snmp2's side; an OID compares by its parts. *)
Definition oid_leb (a b : Oid) : bool := negb (list_ltb b a).

Record walk := mkWalk { answers : Answers; total : Z; w_bytes : Z }.

(** The [for] loop over a batch: [inl] is the cursor to go on from, [inr] the end of
    the column. *)
Fixpoint take_batch (column cursor : Oid) (w : walk) (batch : list (Oid * SnmpValue)) : result (walk * (Oid + unit)) bytes :=
  match batch with
  | [] => Ok (w, inl cursor)
  | (oid, v) :: batch' =>
      if bool_decide (v = Missing) || negb (starts_with column oid) then Ok (w, inr tt)
      else if oid_leb oid cursor then Err (lit "the device returned a variable out of order")
      else
        let total := total w + 1 in
        let b := w_bytes w + (zlength oid * 4 + value_bytes v) in
        if MAX_VARIABLES <? total then Err (lit "the device answered more than 200000 variables")
        else if MAX_ANSWER_BYTES <? b then Err (lit "the device answered more than 33554432 bytes")
        else take_batch column oid (mkWalk (bt_insert oid v (answers w)) total b) batch'
  end.

Section read.
Context {D : Device}.

Inductive halted := OutOfFuel | PollError (m : bytes).
Abbreviation P := (ST device halted).

Definition asking {A} (f : device -> device * A) : P A := fun s => let '(s, a) := f s in (s, Ok a).
Definition fail_with {A} (m : string) : P A := st_err (PollError (lit m)).
Definition or_poll {A} (r : result A bytes) : P A := match r with Ok a => st_ret a | Err m => st_err (PollError m) end.

(** The loop over one column. *)
Fixpoint walk_column (fuel : nat) (column cursor : Oid) (w : walk) : P walk :=
  match fuel with
  | O => st_err OutOfFuel
  | S fuel' =>
      let* late := asking past_deadline in
      if (late : bool) then fail_with "polling took longer than its deadline"
      else
        let* stop := asking poll_stopped in
        if (stop : bool) then fail_with "polling was cancelled"
        else
          let* r := asking (next_after cursor BULK_REPETITIONS) in
          let* batch := or_poll r in
          match batch with
          | [] => st_ret w
          | _ =>
              let* next := or_poll (take_batch column cursor w batch) in
              match snd next with
              | inr _ => st_ret (fst next)
              | inl cursor' => walk_column fuel' column cursor' (fst next)
              end
          end
  end.

Fixpoint walk_columns (fuel : nat) (columns : list Oid) (w : walk) : P walk :=
  match columns with
  | [] => st_ret w
  | column :: columns' => let* w := walk_column fuel column column w in walk_columns fuel columns' w
  end.

Definition ROUNDS : nat := Z.to_nat (MAX_VARIABLES + 2).

(** [read]. *)
Definition read (scalars columns : list Oid) : P Answers :=
  let* stop := asking poll_stopped in
  if (stop : bool) then fail_with "polling was cancelled"
  else
    let* got := match scalars with
                | [] => st_ret []
                | _ => let* r := asking (get_many scalars) in or_poll r
                end in
    let* w := walk_columns ROUNDS columns (mkWalk (bt_of_list got) 0 0) in
    st_ret (answers w).

(** ** A device cannot hold a poll forever *)

(** A batch that goes on has counted every variable in it. *)
Lemma take_batch_counts column batch : forall cursor w w' cursor',
  take_batch column cursor w batch = Ok (w', inl cursor') -> total w <= MAX_VARIABLES ->
  total w' = total w + zlength batch /\ total w' <= MAX_VARIABLES.
Proof.
  unfold zlength. induction batch as [|[oid v] batch IH]; intros cursor w w' cursor'; cbn [take_batch]; [intros [= <- <-]; cbn; lia|].
  destruct (_ || _); [done|]. destruct (oid_leb oid cursor); [done|]. destruct (Z.ltb_spec MAX_VARIABLES (total w + 1)); [done|].
  destruct (_ <? _); [done|]. intros E1 Hw. eapply IH in E1 as [E2 E3]; [|cbn; lia]. cbn [total length] in *. lia.
Qed.

Lemma take_batch_total column batch : forall cursor w w' r,
  take_batch column cursor w batch = Ok (w', r) -> total w <= MAX_VARIABLES -> total w <= total w' <= MAX_VARIABLES.
Proof.
  induction batch as [|[oid v] batch IH]; intros cursor w w' r; cbn [take_batch]; [intros [= <- <-]; lia|].
  destruct (_ || _); [intros [= <- <-]; lia|]. destruct (oid_leb oid cursor); [done|].
  destruct (Z.ltb_spec MAX_VARIABLES (total w + 1)); [done|].
  destruct (_ <? _); [done|]. intros E1 Hw. eapply IH in E1; cbn [total] in *; lia.
Qed.

Lemma walk_column_ends fuel column : forall cursor w s s' r,
  total w <= MAX_VARIABLES -> MAX_VARIABLES - total w < Z.of_nat fuel -> walk_column fuel column cursor w s = (s', r) ->
  r <> Err OutOfFuel /\ forall w', r = Ok w' -> total w <= total w' <= MAX_VARIABLES.
Proof.
  induction fuel as [|fuel IH]; intros cursor w s s' r Hw Hf; [lia|]. cbn [walk_column]. unfold st_bind at 1, asking at 1.
  destruct (past_deadline s) as [s1 []]; [by intros [= <- <-]|]. unfold st_bind at 1, asking at 1.
  destruct (poll_stopped s1) as [s2 []]; [by intros [= <- <-]|]. unfold st_bind at 1, asking.
  destruct (next_after cursor BULK_REPETITIONS s2) as [s3 [batch|m]]; [|by intros [= <- <-]]. cbn [or_poll]. unfold st_bind at 1, st_ret at 1.
  destruct batch as [|e batch]; [intros [= <- <-]; split; [done|]; intros ? [= <-]; lia|].
  destruct (take_batch column cursor w (e :: batch)) as [[w1 [cursor'|[]]]|m] eqn:Et; cbn [or_poll]; unfold st_bind, st_ret; cbn [fst snd].
  - apply take_batch_counts in Et as [E1 E2]; [|done]. unfold zlength in E1. cbn [length] in E1.
    intros E3. eapply IH in E3 as [? H2]; [split; [done|]|done|lia]. intros w' Hw'. specialize (H2 w' Hw'). lia.
  - apply take_batch_total in Et; [|done]. intros [= <- <-]. split; [done|]. by intros ? [= <-].
  - by intros [= <- <-].
Qed.

Lemma walk_columns_end columns : forall w s s' r,
  0 <= total w <= MAX_VARIABLES -> walk_columns ROUNDS columns w s = (s', r) -> r <> Err OutOfFuel.
Proof.
  induction columns as [|column columns IH]; intros w s s' r Hw; cbn [walk_columns]; [by intros [= <- <-]|].
  unfold st_bind. destruct (walk_column ROUNDS column column w s) as [s1 r1] eqn:E1.
  apply walk_column_ends in E1 as [Hne Hok]; [|lia|unfold ROUNDS; lia].
  destruct r1 as [w1|e]; [|by intros [= <- <-]]. apply IH. specialize (Hok w1 eq_refl). lia.
Qed.

(** Whatever a device answers, reading it ends: with the answers, or with an
    error. *)
Theorem reading_ends (scalars columns : list Oid) (s : device) : snd (read scalars columns s) <> Err OutOfFuel.
Proof.
  unfold read, st_bind at 1, asking at 1. destruct (poll_stopped s) as [s1 []]; [done|].
  assert (forall got s2, snd ((let* w := walk_columns ROUNDS columns (mkWalk (bt_of_list got) 0 0) in st_ret (answers w)) s2) <> Err OutOfFuel) as H.
  { intros got s2. unfold st_bind. destruct (walk_columns _ _ _ s2) as [s3 r] eqn:E1. apply walk_columns_end in E1; [|unfold MAX_VARIABLES; cbn; lia].
    by destruct r as [w|e]; [|cbn; congruence]. }
  destruct scalars as [|o os].
  - unfold st_bind at 1, st_ret at 1. apply H.
  - unfold st_bind, asking. destruct (get_many (o :: os) s1) as [s2 [got|m]]; [|done]. cbn [or_poll st_ret]. apply (H got s2).
Qed.
End read.

(** ** A device that answers honestly is read completely *)

Fixpoint take_while {X} (p : X -> bool) (l : list X) : list X :=
  match l with x :: l' => if p x then x :: take_while p l' else [] | [] => [] end.

Lemma take_while_all {X} (p : X -> bool) l r : Forall (fun x => p x = true) l -> take_while p (l ++ r) = l ++ take_while p r.
Proof. induction 1 as [|x l Hx _ IH]; [done|]. cbn. by rewrite Hx, IH. Qed.

Lemma take_while_app {X} (p : X -> bool) l r : take_while p l <> l -> take_while p (l ++ r) = take_while p l.
Proof. induction l as [|x l IH]; [done|]. cbn. destruct (p x); [|done]. intros H. rewrite IH; [done|]. congruence. Qed.

Lemma take_while_true {X} (p : X -> bool) l : take_while p l = l -> Forall (fun x => p x = true) l.
Proof. induction l as [|x l IH]; [constructor|]. cbn. destruct (p x) eqn:E; [|done]. intros [= H]. constructor; auto. Qed.

Definition add_all (l : Answers) (a : Answers) : Answers := fold_left (fun m e => bt_insert (fst e) (snd e) m) l a.
Definition size_of (e : Oid * SnmpValue) : Z := zlength (fst e) * 4 + value_bytes (snd e).
Definition added (l : Answers) (w : walk) : walk :=
  mkWalk (add_all l (answers w)) (total w + zlength l) (w_bytes w + zsum (map size_of l)).
Definition fits (l : Answers) (w : walk) : Prop :=
  total w + zlength l <= MAX_VARIABLES /\ w_bytes w + zsum (map size_of l) <= MAX_ANSWER_BYTES.

Lemma size_of_nonneg e : 0 <= size_of e.
Proof. unfold size_of, zlength. destruct e as [o []]; cbn [fst snd value_bytes]; unfold zlength; lia. Qed.
Lemma zsum_sizes_nonneg l : 0 <= zsum (map size_of l).
Proof. induction l as [|e l IH]; cbn; [lia|]. pose proof (size_of_nonneg e). unfold zsum in IH. lia. Qed.

Lemma added_app l k w : added (l ++ k) w = added k (added l w).
Proof.
  unfold added, add_all, zlength. cbn. rewrite fold_left_app, length_app, map_app, zsum_app. f_equal; lia.
Qed.
Lemma fits_app l k w : fits (l ++ k) w -> fits l w /\ fits k (added l w).
Proof.
  unfold fits, added, zlength. cbn. rewrite length_app, map_app, zsum_app. intros [? ?]. pose proof (zsum_sizes_nonneg k). lia.
Qed.

Definition prefixed (column : Oid) (e : Oid * SnmpValue) : bool := starts_with column (fst e).
Definition last_key (c : Oid) (l : Answers) : Oid := match last_opt l with Some e => fst e | None => c end.

(** What follows in a batch once the device has nothing more. *)
Definition ending (ends : Answers) : Prop := ends = [] \/ exists o rest, ends = (o, Missing) :: rest.

Lemma take_batch_honest column l : forall c ends w,
  bt_sorted l -> Forall (fun e => list_ltb c (fst e) = true /\ snd e <> Missing) l -> ending ends ->
  fits (take_while (prefixed column) l) w ->
  take_batch column c w (l ++ ends) =
    Ok (added (take_while (prefixed column) l) w,
        if bool_decide (take_while (prefixed column) l = l) && bool_decide (ends = []) then inl (last_key c l) else inr tt).
Proof.
  induction l as [|[o v] l IH]; intros c ends w Hs Hgt He Hfit.
  - cbn [app take_while]. assert (added [] w = w) as -> by (unfold added, zlength; cbn; destruct w; cbn; f_equal; lia).
    destruct He as [->|(o & rest & ->)]; cbn [take_batch]; [done|]. done.
  - apply list.Forall_cons in Hgt as [[Hlt Hv] Hgt]. destruct Hs as [Ho Hs]. cbn [fst snd] in *. cbn [app take_batch].
    rewrite (bool_decide_eq_false_2 (v = Missing)) by done. cbn [orb take_while]. unfold prefixed at 1 3 5. cbn [fst].
    destruct (starts_with column o) eqn:Hp; cbn [negb].
    2: { unfold added, zlength. cbn. rewrite Z.add_0_r, Z.add_0_r. by destruct w. }
    unfold oid_leb. rewrite Hlt. cbn [negb]. cbn [take_while] in Hfit. unfold prefixed at 1 in Hfit. cbn [fst] in Hfit. rewrite Hp in Hfit.
    apply (fits_app [(o, v)]) in Hfit as [H1 H2]. unfold fits, zlength in H1. cbn [length map zsum fold_right] in H1. unfold size_of in H1. cbn [fst snd] in H1.
    rewrite (proj2 (Z.ltb_ge _ _)) by (unfold zlength in *; lia). rewrite (proj2 (Z.ltb_ge _ _)) by (unfold zlength in *; lia).
    assert (mkWalk (bt_insert o v (answers w)) (total w + 1) (w_bytes w + (zlength o * 4 + value_bytes v)) = added [(o, v)] w) as ->.
    { unfold added, add_all, zlength, size_of. cbn. f_equal; unfold zlength; lia. }
    rewrite IH; [|done| |done|exact H2].
    + rewrite <- (added_app [(o, v)]). cbn [app]. f_equal. f_equal.
      replace (bool_decide ((o, v) :: take_while (prefixed column) l = (o, v) :: l)) with (bool_decide (take_while (prefixed column) l = l))
        by (apply bool_decide_ext; split; congruence).
      destruct (_ && _); [|done]. f_equal. unfold last_key. destruct l as [|e l _] using rev_ind; [done|].
      change ((o, v) :: l ++ [e]) with (((o, v) :: l) ++ [e]). by rewrite !last_opt_snoc.
    + apply list.Forall_forall. intros e He'. rewrite list.Forall_forall in Hgt, Ho. split; [by apply Ho|by apply Hgt].
Qed.

Lemma added_nil w : added [] w = w.
Proof. unfold added, zlength. cbn. destruct w. cbn. f_equal; lia. Qed.

(** What is after a column and not in it is after everything in it. *)
Lemma beyond_column column : forall x y,
  list_ltb column x = true -> starts_with column x = false -> starts_with column y = true -> list_ltb y x = true.
Proof.
  intros x y Hlt Hx [r ->]%starts_with_spec. assert (forall r', x <> column ++ r') as Hno.
  { intros r' ->. by rewrite (proj2 (starts_with_spec _ _)) in Hx by eauto. }
  clear Hx. revert x Hlt Hno. induction column as [|z column IH]; intros x Hlt Hno; [by destruct (Hno x)|]. destruct x as [|a x]; [done|]. cbn in *.
  apply orb_true_iff in Hlt as [Hlt|[Ha Hlt]%andb_true_iff]; [by rewrite Hlt|].
  rewrite Ha. cbn. rewrite IH; [by rewrite orb_true_r|done|]. intros r' ->. apply (Hno r'). assert (a = z) as -> by lia. done.
Qed.

Lemma bt_elem_get (k : Oid) (v : SnmpValue) (m : Answers) : bt_sorted m -> (k, v) ∈ m -> bt_get k m = Some v.
Proof.
  unfold bt_get. induction m as [|[k' v'] m IH]; [set_solver|]. intros [Hm Hs] [[= -> ->]|Hin]%elem_of_cons; cbn [find_by fst].
  - by rewrite bool_decide_eq_true_2.
  - destruct (bool_decide (k' = k)) eqn:E; [|by apply IH]. apply bool_decide_eq_true in E as ->. rewrite list.Forall_forall in Hm.
    specialize (Hm _ Hin). cbn in Hm. by rewrite (key_ltb_irrefl (KeyOrder := list_order)) in Hm.
Qed.

Section faithful.
Context {D : Device}.
Variable mib : Answers.
Hypothesis mib_sorted : bt_sorted mib.
Hypothesis mib_present : Forall (fun e => snd e <> Missing) mib.

(** The variables after [c]. *)
Definition after (c : Oid) : Answers := List.filter (fun e : Oid * SnmpValue => list_ltb c (fst e)) mib.

(** Time is left, nobody cancels, and every request is answered with at least one
    of the variables that come next, in order, if there is one. *)
Hypothesis in_time : forall s, snd (past_deadline s) = false.
Hypothesis running : forall s, snd (poll_stopped s) = false.
Hypothesis honest : forall c n s, exists k ends,
  snd (next_after c n s) = Ok (take (S k) (after c) ++ ends) /\ ending ends /\ (ends <> [] -> (length (after c) <= S k)%nat).

Lemma after_sorted c : bt_sorted (after c).
Proof.
  unfold after. induction mib as [|e m IH]; [done|]. destruct mib_sorted as [Hm Hs]. apply list.Forall_cons in mib_present as [_ Hp]. cbn.
  destruct (list_ltb c (fst e)); [|by apply IH]. split; [|by apply IH]. apply list.Forall_forall. intros x Hx.
  rewrite list.Forall_forall in Hm. apply Hm. apply list_elem_of_In in Hx. apply filter_In in Hx as [Hx _]. by apply list_elem_of_In.
Qed.

Lemma after_greater c : Forall (fun e => list_ltb c (fst e) = true /\ snd e <> Missing) (after c).
Proof.
  apply list.Forall_forall. intros x Hx. apply list_elem_of_In, filter_In in Hx as [Hx Hl]. split; [done|].
  rewrite list.Forall_forall in mib_present. by apply mib_present, list_elem_of_In.
Qed.

Lemma sorted_app_inv (l r : Answers) : bt_sorted (l ++ r) -> bt_sorted l /\ bt_sorted r /\
  Forall (fun e => Forall (fun e' => list_ltb (fst e) (fst e') = true) r) l.
Proof.
  induction l as [|e l IH]; cbn; [auto|]. intros [He Hs]. destruct (IH Hs) as (? & ? & ?). apply list.Forall_app in He as [? ?]. auto.
Qed.

(** What comes after the last variable of a front part is the rest. *)
Lemma after_last c l r : after c = l ++ r -> after (last_key c l) = r.
Proof.
  intros E. destruct l as [|[o v] l _] using rev_ind; [exact E|]. unfold last_key. rewrite last_opt_snoc. cbn [fst].
  pose proof (after_sorted c) as Hs. rewrite E in Hs. rewrite <- app_assoc in Hs. apply sorted_app_inv in Hs as (_ & Hs & Hl).
  destruct Hs as [Ho _]. cbn [app] in *.
  assert (list_ltb c o = true) as Hco.
  { pose proof (after_greater c) as Hg. rewrite E in Hg. rewrite list.Forall_forall in Hg. apply (Hg (o, v)). set_solver. }
  assert (after o = List.filter (fun e : Oid * SnmpValue => list_ltb o (fst e)) (after c)) as ->.
  { unfold after. clear -Hco. induction mib as [|e m IH]; [done|]. cbn. destruct (list_ltb o (fst e)) eqn:Ho.
    - assert (list_ltb c (fst e) = true) as -> by (by eapply (key_ltb_trans (KeyOrder := list_order))). cbn. rewrite Ho. by rewrite IH.
    - destruct (list_ltb c (fst e)); [cbn; by rewrite Ho|done]. }
  rewrite E. rewrite !filter_app. cbn. rewrite (key_ltb_irrefl (KeyOrder := list_order)).
  assert (forall x : Oid * SnmpValue, x ∈ l -> list_ltb o (fst x) = false) as Hsmall.
  { intros x Hx. rewrite list.Forall_forall in Hl. specialize (Hl x Hx). apply list.Forall_cons in Hl as [Hl _]. cbn in Hl.
    destruct (list_ltb o (fst x)) eqn:E2; [|done]. exfalso.
    pose proof (key_ltb_trans (KeyOrder := list_order) _ _ _ Hl E2) as H3. by rewrite (key_ltb_irrefl (KeyOrder := list_order)) in H3. }
  assert (forall k : Answers, (forall x : Oid * SnmpValue, x ∈ k -> list_ltb o (fst x) = false) -> List.filter (fun e : Oid * SnmpValue => list_ltb o (fst e)) k = []) as Hnone.
  { induction k as [|x k IHk]; intros Hk; [done|]. cbn. rewrite Hk by set_solver. apply IHk. set_solver. }
  rewrite Hnone by done. cbn. clear -Ho. induction Ho as [|x r Hx _ IH]; [done|]. cbn. cbn in Hx. by rewrite Hx, IH.
Qed.

Lemma walk_column_complete column : forall fuel c w s,
  fits (take_while (prefixed column) (after c)) w -> (length (take_while (prefixed column) (after c)) < fuel)%nat ->
  exists s', walk_column fuel column c w s = (s', Ok (added (take_while (prefixed column) (after c)) w)).
Proof.
  induction fuel as [|fuel IH]; intros c w s Hfit Hf; [lia|]. cbn [walk_column]. unfold st_bind at 1, asking at 1.
  pose proof (in_time s) as Ht. destruct (past_deadline s) as [s1 b]. cbn in Ht. subst b. unfold st_bind at 1, asking at 1.
  pose proof (running s1) as Hr. destruct (poll_stopped s1) as [s2 b]. cbn in Hr. subst b. unfold st_bind at 1, asking.
  destruct (honest c BULK_REPETITIONS s2) as (k & ends & Hb & He & Hend).
  destruct (next_after c BULK_REPETITIONS s2) as [s3 r]. cbn in Hb. subst r. cbn [or_poll]. unfold st_bind at 1, st_ret at 1.
  set (l := take (S k) (after c)) in *. assert (after c = l ++ drop (S k) (after c)) as Hsplit by (unfold l; by rewrite take_drop).
  pose proof (after_sorted c) as Hs. pose proof (after_greater c) as Hg. rewrite Hsplit in Hs, Hg.
  apply sorted_app_inv in Hs as (Hs & _ & _). apply list.Forall_app in Hg as [Hg _].
  destruct (decide (l ++ ends = [])) as [Hnil|Hne].
  { apply app_nil in Hnil as [Hl ->]. rewrite Hl. cbn [app]. exists s3.
    assert (after c = []) as ->. { unfold l in Hl. destruct (after c); [done|]. discriminate. }
    cbn. unfold st_ret. do 3 f_equal. unfold added, zlength. cbn. destruct w. cbn. f_equal; lia. }
  assert (fits (take_while (prefixed column) l) w) as Hfl.
  { rewrite Hsplit in Hfit. destruct (decide (take_while (prefixed column) l = l)) as [Hall|Hnot].
    - rewrite take_while_all in Hfit by by apply take_while_true. apply fits_app in Hfit as [Hfit _]. by rewrite Hall.
    - by rewrite take_while_app in Hfit. }
  pose proof (take_batch_honest column l c ends w Hs Hg He Hfl) as Hbatch.
  destruct (l ++ ends) as [|e0 rest0] eqn:El; [done|]. rewrite Hbatch. cbn [or_poll]. unfold st_bind, st_ret. cbn [fst snd].
  destruct (bool_decide (take_while (prefixed column) l = l)) eqn:Hall; [apply bool_decide_eq_true in Hall|apply bool_decide_eq_false in Hall].
  - destruct (bool_decide (ends = [])) eqn:Hends; [apply bool_decide_eq_true in Hends|apply bool_decide_eq_false in Hends]; cbn [andb].
    + pose proof (after_last c l (drop (S k) (after c)) Hsplit) as Hlast.
      assert (take_while (prefixed column) (after c) = l ++ take_while (prefixed column) (after (last_key c l))) as Htw.
      { rewrite Hlast. rewrite Hsplit at 1. by apply take_while_all, take_while_true. }
      rewrite Htw in Hfit, Hf |- *. apply fits_app in Hfit as [_ Hfit]. rewrite added_app, Hall. apply IH; [done|].
      rewrite length_app in Hf. assert (l <> []) by (intros E0; by rewrite E0, Hends in El). destruct l; [done|]. cbn [length] in Hf. lia.
    + exists s3. do 3 f_equal. rewrite Hsplit at 1. specialize (Hend Hends). rewrite drop_ge by done. by rewrite app_nil_r.
  - cbn [andb]. exists s3. do 3 f_equal. rewrite Hsplit at 1. by rewrite take_while_app.
Qed.

(** The variables of a column are those strictly under it. *)
Definition under (column : Oid) (e : Oid * SnmpValue) : bool := list_ltb column (fst e) && prefixed column e.
Definition column_of (column : Oid) : Answers := List.filter (under column) mib.

Lemma column_contiguous column : take_while (prefixed column) (after column) = column_of column.
Proof.
  unfold column_of, under, after. pose proof mib_sorted as Hs. clear -Hs. induction mib as [|e m IH]; [done|]. destruct Hs as [He Hs]. cbn.
  destruct (list_ltb column (fst e)) eqn:Hlt; cbn [andb]; [|by apply IH]. cbn [take_while].
  destruct (prefixed column e) eqn:Hp; [f_equal; by apply IH|]. symmetry. clear IH.
  induction He as [|x m Hx He IHm]; [done|]. destruct Hs as [_ Hs]. cbn. destruct (prefixed column x) eqn:Hpx; [|rewrite andb_false_r; by apply IHm].
  pose proof (beyond_column column (fst e) (fst x) Hlt Hp Hpx) as H3. cbn in Hx.
  pose proof (key_ltb_trans (KeyOrder := list_order) _ _ _ Hx H3) as H4. by rewrite (key_ltb_irrefl (KeyOrder := list_order)) in H4.
Qed.

Definition readable (columns : list Oid) : Answers := concat (map column_of columns).

Lemma walk_columns_complete columns : forall w s,
  0 <= total w -> fits (readable columns) w ->
  exists s', walk_columns ROUNDS columns w s = (s', Ok (added (readable columns) w)).
Proof.
  induction columns as [|column columns IH]; intros w s Hw Hfit; cbn [walk_columns readable map concat] in *.
  - exists s. unfold st_ret. do 2 f_equal. by rewrite added_nil.
  - apply fits_app in Hfit as [H1 H2]. rewrite <- column_contiguous in H1.
    destruct (walk_column_complete column ROUNDS column w s) as [s1 E1]; [done| |].
    { destruct H1 as [H1 _]. unfold zlength in H1. unfold ROUNDS. lia. }
    unfold st_bind. rewrite E1, column_contiguous. destruct (IH (added (column_of column) w) s1) as [s2 E2]; [unfold added, zlength; cbn; lia|done|].
    exists s2. rewrite E2. by rewrite added_app.
Qed.

Lemma add_all_get l a oid : Forall (fun e => e ∈ mib) l ->
  bt_get oid (add_all l a) = if existsb (fun e => bool_decide (fst e = oid)) l then bt_get oid mib else bt_get oid a.
Proof.
  intros Hl. revert a. induction Hl as [|[o v] l He Hl IH]; intros a; [done|]. unfold add_all in *. cbn [fold_left fst snd existsb]. rewrite IH.
  destruct (existsb _ l); [by rewrite orb_true_r|]. rewrite orb_false_r, bt_get_insert. destruct (bool_decide (o = oid)) eqn:E; [|done].
  apply bool_decide_eq_true in E as ->. symmetry. by apply bt_elem_get.
Qed.

Lemma readable_in_mib columns : Forall (fun e => e ∈ mib) (readable columns).
Proof.
  unfold readable. apply list.Forall_forall. intros e He. apply list_elem_of_In, in_concat in He as (l & Hl & He).
  apply in_map_iff in Hl as (c & <- & _). apply filter_In in He as [He _]. by apply list_elem_of_In.
Qed.

(** A device that answers in order, with at least one variable each time it has
    one, is read completely: after a poll that is neither late nor cancelled, and
    within the limits on variables and bytes, every variable under a column asked for
    is there with the device's value, and everything else is what the scalars'
    request returned. *)
Theorem honest_device_read_completely (scalars columns : list Oid) (got : Answers) (s : device) :
  (forall s, scalars <> [] -> snd (get_many scalars s) = Ok got) -> (scalars = [] -> got = []) ->
  fits (readable columns) (mkWalk [] 0 0) ->
  exists all, snd (read scalars columns s) = Ok all /\ bt_sorted all /\
    forall oid, bt_get oid all =
      match bt_get oid mib with
      | Some v => if existsb (fun c => under c (oid, v)) columns then Some v else bt_get oid (bt_of_list got)
      | None => bt_get oid (bt_of_list got)
      end.
Proof.
  intros Hgot Hnone Hfit. set (w := mkWalk (bt_of_list got) 0 0). exists (answers (added (readable columns) w)). split_and!.
  - unfold read, st_bind at 1, asking at 1. pose proof (running s) as Hr. destruct (poll_stopped s) as [s1 b]. cbn in Hr. subst b.
    assert (forall s2, snd ((let* w := walk_columns ROUNDS columns w in st_ret (answers w)) s2) = Ok (answers (added (readable columns) w))) as H.
    { intros s2. unfold st_bind. destruct (walk_columns_complete columns w s2) as [s3 ->]; [done|exact Hfit|done]. }
    destruct scalars as [|o os]; [unfold w in *; rewrite (Hnone eq_refl) in *; apply H|].
    unfold st_bind at 1, st_bind at 1, asking. specialize (Hgot s1). destruct (get_many (o :: os) s1) as [s2 r]. cbn in Hgot.
    rewrite Hgot by done. cbn [or_poll st_ret]. apply H.
  - cbn [answers added]. unfold add_all. generalize (bt_of_list_sorted got). unfold w. cbn [answers]. generalize (bt_of_list got). clear -mib.
    induction (readable columns) as [|e l IH]; intros a Ha; [done|]. cbn. apply IH. by apply bt_insert_sorted.
  - intros oid. cbn [answers added]. rewrite add_all_get by apply readable_in_mib. unfold w. cbn [answers].
    destruct (existsb _ (readable columns)) eqn:Ex.
    + apply existsb_exists in Ex as ([o v] & Hin & Ho). apply bool_decide_eq_true in Ho. cbn in Ho. subst o.
      pose proof (readable_in_mib columns) as Hm. rewrite list.Forall_forall in Hm. specialize (Hm (oid, v) (proj2 (list_elem_of_In _ _) Hin)).
      rewrite (bt_elem_get oid v mib) by done. unfold readable in Hin. apply in_concat in Hin as (l & Hl & Hin).
      apply in_map_iff in Hl as (c & <- & Hc). apply filter_In in Hin as [_ Hu].
      assert (existsb (fun c => under c (oid, v)) columns = true) as -> by (apply existsb_exists; eauto). done.
    + destruct (bt_get oid mib) as [v|] eqn:Eg; [|done]. destruct (existsb (fun c => under c (oid, v)) columns) eqn:Eu; [|done].
      apply existsb_exists in Eu as (c & Hc & Hu). apply bt_get_elem in Eg. exfalso.
      apply (eq_true_false_abs _ (proj2 (existsb_exists (fun e : Oid * SnmpValue => bool_decide (fst e = oid)) (readable columns))
        (ex_intro _ (oid, v) (conj (proj2 (in_concat _ _) (ex_intro _ (column_of c) (conj (in_map column_of columns c Hc)
          (proj2 (filter_In _ _ _) (conj (proj1 (list_elem_of_In _ _) Eg) Hu))))) (bool_decide_eq_true_2 _ eq_refl)))) Ex).
Qed.
End faithful.

(** A device with five variables that answers two at a time. *)
Definition tiny_mib : Answers :=
  [([1;3;1], Integer 7); ([1;3;2;1], Octets [65]); ([1;3;2;2], Octets [66]); ([1;3;2;3], Octets [67]); ([1;3;3], Unsigned 9)].
Definition tiny_answers (c : Oid) : Answers :=
  let rest := after tiny_mib c in
  if (length rest <=? 2)%nat then rest ++ [(c, Missing)] else take 2 rest.
#[local] Instance tiny_device : Device := {|
  device := unit;
  get_many := fun _ s => (s, Ok [([1;3;1], Integer 7)]);
  next_after := fun c _ s => (s, Ok (tiny_answers c));
  past_deadline := fun s => (s, false);
  poll_stopped := fun s => (s, false) |}.

Lemma honest_device_read_completely_witness :
  exists all, snd (read (D := tiny_device) [[1;3;1]] [[1;3;2]] tt) = Ok all /\ bt_get [1;3;2;2] all = Some (Octets [66]) /\ bt_get [1;3;3] all = None.
Proof.
  destruct (honest_device_read_completely (D := tiny_device) tiny_mib) with (scalars := [[1;3;1]]) (columns := [[1;3;2]]) (got := [([1;3;1], Integer 7)]) (s := tt)
    as (all & E & _ & Hget).
  - cbn [bt_sorted tiny_mib]. repeat split; repeat constructor.
  - unfold tiny_mib. repeat constructor; done.
  - done.
  - done.
  - intros c n s. unfold next_after, tiny_device, tiny_answers. destruct (length (after tiny_mib c) <=? 2)%nat eqn:E.
    + apply Nat.leb_le in E. exists 1%nat, [(c, Missing)]. rewrite take_ge by done. split_and!; [done|right; eauto|done].
    + exists 1%nat, []. rewrite app_nil_r. split_and!; [done|by left|done].
  - done.
  - done.
  - split; vm_compute; discriminate.
  - exists all. split_and!; [exact E|rewrite Hget; reflexivity|rewrite Hget; reflexivity].
Defined.
