(* ===== verification/SnmpWire.v ===== *)
(** * snmp/client.rs: a session over the wire

    The snmp2 crate is [Snmp2]: its OIDs, and sessions whose every answer is arbitrary.
    [wire_device] is a session as the [Device] of SnmpWalk.v that the poller reads. *)

From Stdlib Require Import String.
From S2P Require Import Prelude Text BTree SnmpConfig SnmpWalk.

#[local] Set Warnings "-notation-overridden".

Definition MAX_SECRET_BYTES : Z := 4096.

Inductive Version := V1 | V2C | V3v.
#[export] Instance Version_eq_dec : EqDecision Version.
Proof. solve_decision. Defined.

(** [snmp2::Value]; [VOther] stands for the kinds that are not read. *)
Inductive WireValue (O : Type) :=
| VInteger (z : Z) | VOctetString (b : bytes) | VOpaque (b : bytes) | VObjectIdentifier (o : O) | VIpAddress (a b c d : Z)
| VCounter32 (n : Z) | VUnsigned32 (n : Z) | VTimeticks (n : Z) | VCounter64 (n : Z)
| VNoSuchObject | VNoSuchInstance | VEndOfMibView | VOther.
Arguments VInteger {O}. Arguments VOctetString {O}. Arguments VOpaque {O}. Arguments VObjectIdentifier {O}. Arguments VIpAddress {O}.
Arguments VCounter32 {O}. Arguments VUnsigned32 {O}. Arguments VTimeticks {O}. Arguments VCounter64 {O}.
Arguments VNoSuchObject {O}. Arguments VNoSuchInstance {O}. Arguments VEndOfMibView {O}. Arguments VOther {O}.

Record Pdu (O : Type) := mkPdu { pdu_version : option Version; error_status : Z; varbinds : list (O * WireValue O) }.
Arguments mkPdu {O}. Arguments pdu_version {O}. Arguments error_status {O}. Arguments varbinds {O}.

Inductive WireError := Receive | Send | AuthFailure (kind : bytes) | OtherError (debug : bytes).

Inductive Cipher := CDes | CAes128 | CAes192 | CAes256.
Inductive Auth := AMd5 | ASha1 | ASha224 | ASha256 | ASha384 | ASha512.
(** How a localized key too short for its cipher is extended. *)
Inductive KeyExtension := Blumenthal.      (* the only one the code asks for *)
Record Security := mkSecurity { sec_username : bytes; sec_auth_password : bytes; sec_auth : Auth; sec_cipher : Cipher; sec_privacy_password : bytes; sec_key_extension : KeyExtension }.

Class Snmp2 := {
  socket_address : Type;
  session : Type;
  wire_oid_t : Type;
  oid_from : list Z -> option wire_oid_t;           (* [WireOid::from] *)
  oid_iter : wire_oid_t -> option (list Z);         (* [WireOid::iter], in u64 *)
  show_oid : Oid -> bytes;
  version : session -> Version;
  s_get_many : list wire_oid_t -> session -> session * result (Pdu wire_oid_t) WireError;
  s_getbulk : wire_oid_t -> Z -> session -> session * result (Pdu wire_oid_t) WireError;
  s_getnext : wire_oid_t -> session -> session * result (Pdu wire_oid_t) WireError;
  s_late : session -> session * bool;               (* [Instant::now() >= deadline] *)
  s_stopped : session -> session * bool;
  (* What opening a session asks of the host, which may answer otherwise at another time. *)
  moment : Type;
  resolve : moment -> bytes -> Z -> result (list socket_address) bytes;
  file_len : moment -> bytes -> result Z bytes;
  read_file : moment -> bytes -> result bytes bytes;
  new_v2c : moment -> socket_address -> bytes -> Z -> result session bytes;
  new_v3 : moment -> socket_address -> Z -> Security -> result session bytes;
  s_init : session -> result session WireError }.

Section wire.
Context {S : Snmp2}.

Definition wire_error (e : WireError) : bytes :=
  match e with
  | Receive | Send => lit "no answer before the timeout"
  | AuthFailure kind => lit "authentication failed: " ++ kind
  | OtherError d => lit "SNMP error: " ++ d
  end.

Definition wire_oid (oid : Oid) : result wire_oid_t bytes := ok_or (oid_from oid) (lit "invalid OID " ++ show_oid oid).

Definition to_u32 (part : Z) : option Z := if part <=? U32_MAX then Some part else None.
Fixpoint all_some {A} (l : list (option A)) : option (list A) :=
  match l with [] => Some [] | o :: l' => let+ a := o in let+ r := all_some l' in Some (a :: r) end.
Definition from_wire_oid (oid : wire_oid_t) : result Oid bytes :=
  ok_or (let+ parts := oid_iter oid in all_some (map to_u32 parts)) (lit "the device answered an OID out of range").

Definition from_wire_value (v : WireValue wire_oid_t) : SnmpValue :=
  match v with
  | VInteger z => Integer z
  | VOctetString b | VOpaque b => Octets b
  | VObjectIdentifier o => match from_wire_oid o with Ok o => ObjectId o | Err _ => Other end
  | VIpAddress a b c d => IpAddress a b c d
  | VCounter32 n | VUnsigned32 n | VTimeticks n => Unsigned n
  | VCounter64 n => Unsigned n
  | VNoSuchObject | VNoSuchInstance | VEndOfMibView => Missing
  | VOther => Other
  end.

Definition check_version (expected : Version) (p : Pdu wire_oid_t) : result unit bytes :=
  if bool_decide (pdu_version p = Some expected) then Ok tt else Err (lit "the device answered in a different SNMP version").
Definition check_status (status : Z) : result unit bytes :=
  if status =? 0 then Ok tt else Err (lit "the device answered with error status " ++ show_u64 status).

(** [Result]s collected: the first error ends it. *)
Fixpoint collect {A B} (f : A -> result B bytes) (l : list A) : result (list B) bytes :=
  match l with [] => Ok [] | x :: l' => let? b := f x in let? r := collect f l' in Ok (b :: r) end.

Definition from_varbind (vb : wire_oid_t * WireValue wire_oid_t) : result (Oid * SnmpValue) bytes :=
  let? oid := from_wire_oid (fst vb) in Ok (oid, from_wire_value (snd vb)).
(** What a response gives, in a session of version [expected]. *)
Definition accept (expected : Version) (r : result (Pdu wire_oid_t) WireError) : result (list (Oid * SnmpValue)) bytes :=
  let? pdu := map_err wire_error r in
  let? _ := check_version expected pdu in
  let? _ := check_status (error_status pdu) in
  collect from_varbind (varbinds pdu).

(** [WireSession]: a session, and whether it asks in bulk. *)
Record WireSession := mkWireSession { inner : session; bulk : bool }.

Definition get (oids : list Oid) (s : WireSession) : WireSession * result (list (Oid * SnmpValue)) bytes :=
  match collect wire_oid oids with
  | Err e => (s, Err e)
  | Ok wire =>
      let expected := version (inner s) in
      let '(s', r) := s_get_many wire (inner s) in
      (mkWireSession s' (bulk s), accept expected r)
  end.

Definition next (oid : Oid) (count : Z) (s : WireSession) : WireSession * result (list (Oid * SnmpValue)) bytes :=
  match wire_oid oid with
  | Err e => (s, Err e)
  | Ok wire =>
      let expected := version (inner s) in
      let '(s', r) := if bulk s then s_getbulk wire count (inner s) else s_getnext wire (inner s) in
      (mkWireSession s' (bulk s), accept expected r)
  end.

Definition of_inner {A} (f : session -> session * A) (s : WireSession) : WireSession * A :=
  let '(s', a) := f (inner s) in (mkWireSession s' (bulk s), a).
#[export] Instance wire_device : Device :=
  {| device := WireSession; get_many := get; next_after := next; past_deadline := of_inner s_late; poll_stopped := of_inner s_stopped |}.

(** ** Opening a session *)

Definition trim_ascii_end (s : bytes) : bytes := rev (drop_while is_ascii_whitespace (rev s)).

Definition read_secret (m : moment) (path : bytes) : result bytes bytes :=
  let unreadable := fun e => lit "cannot read " ++ path ++ lit ": " ++ e in
  let? len := map_err unreadable (file_len m path) in
  if MAX_SECRET_BYTES <? len then Err (path ++ lit " is too large")
  else
    let? content := map_err unreadable (read_file m path) in
    let secret := trim_ascii_end content in
    if bool_decide (secret = []) then Err (path ++ lit " is empty") else Ok secret.

Definition wire_auth (p : AuthProtocol) : Auth :=
  match p with Md5 => AMd5 | Sha => ASha1 | Sha224 => ASha224 | Sha256 => ASha256 | Sha384 => ASha384 | Sha512 => ASha512 end.
Definition wire_cipher (p : PrivacyProtocol) : Cipher :=
  match p with Des => CDes | Aes128 => CAes128 | Aes192 => CAes192 | Aes256 => CAes256 end.

Definition no_socket (e : bytes) : bytes := lit "cannot open a socket: " ++ e.

Definition open (m : moment) (target : Target) (credentials : Credentials) (timeout : Z) : result WireSession bytes :=
  let? found := map_err (fun e => lit "cannot resolve " ++ host target ++ lit ": " ++ e) (resolve m (host target) (port target)) in
  let? address := ok_or (head found) (lit "cannot resolve " ++ host target) in
  let? s :=
    match credentials with
    | SnmpConfig.V2c community_file =>
        let? community := read_secret m community_file in
        map_err no_socket (new_v2c m address community timeout)
    | SnmpConfig.V3 username auth auth_file privacy privacy_file =>
        let? auth_password := read_secret m auth_file in
        let? privacy_password := read_secret m privacy_file in
        let? s := map_err no_socket (new_v3 m address timeout (mkSecurity username auth_password (wire_auth auth) (wire_cipher privacy) privacy_password Blumenthal)) in
        map_err wire_error (s_init s)
    end in
  Ok (mkWireSession s true).
End wire.

(** ** Where answers come from *)

Section provenance.
Context {D : Device}.
Variables (I : device -> Prop) (Q : Oid * SnmpValue -> Prop).
Hypothesis deadline_keeps : forall s, I s -> I (fst (past_deadline s)).
Hypothesis stopped_keeps : forall s, I s -> I (fst (poll_stopped s)).
Hypothesis get_keeps : forall os s, I s -> I (fst (get_many os s)) /\ forall l, snd (get_many os s) = Ok l -> Forall Q l.
Hypothesis next_keeps : forall o n s, I s -> I (fst (next_after o n s)) /\ forall l, snd (next_after o n s) = Ok l -> Forall Q l.

Lemma bt_insert_Q k v m : Q (k, v) -> Forall Q m -> Forall Q (bt_insert k v m).
Proof. intros Hk Hm. apply list.Forall_forall. intros e [->|He]%bt_insert_elem; [done|]. by rewrite list.Forall_forall in Hm; apply Hm. Qed.

Lemma take_batch_Q column batch : forall cursor w w' r, take_batch column cursor w batch = Ok (w', r) -> Forall Q batch -> Forall Q (answers w) -> Forall Q (answers w').
Proof.
  induction batch as [|[o v] batch IH]; intros cursor w w' r; cbn [take_batch]; [congruence|]. intros E [Hq Hb]%list.Forall_cons Hw.
  destruct (_ || _); [congruence|]. destruct (oid_leb _ _); [done|]. destruct (_ <? _); [done|]. destruct (_ <? _); [done|].
  eapply IH; [exact E|done|]. by apply bt_insert_Q.
Qed.

Lemma walk_column_Q fuel column : forall cursor w s s' w', I s -> Forall Q (answers w) -> walk_column fuel column cursor w s = (s', Ok w') -> I s' /\ Forall Q (answers w').
Proof.
  induction fuel as [|fuel IH]; intros cursor w s s' w' Hi Hw; [done|]. cbn [walk_column]. unfold st_bind at 1, asking at 1.
  pose proof (deadline_keeps s Hi) as H1. destruct (past_deadline s) as [s1 []]; [done|]. unfold st_bind at 1, asking at 1. cbn [fst] in H1.
  pose proof (stopped_keeps s1 H1) as H2. destruct (poll_stopped s1) as [s2 []]; [done|]. unfold st_bind at 1, asking. cbn [fst] in H2.
  destruct (next_keeps cursor BULK_REPETITIONS s2 H2) as [H3 Hq]. destruct (next_after cursor BULK_REPETITIONS s2) as [s3 [batch|m]]; [|done]. cbn [fst snd] in H3, Hq. cbn [or_poll].
  unfold st_bind at 1, st_ret at 1. specialize (Hq _ eq_refl). destruct batch as [|e batch]; [intros [= <- <-]; done|].
  destruct (take_batch column cursor w (e :: batch)) as [[w1 [cursor'|[]]]|m] eqn:Et; cbn [or_poll]; unfold st_bind, st_ret; cbn [fst snd]; [| |done];
    (apply take_batch_Q in Et; [|done|done]).
  - by apply IH.
  - by intros [= <- <-].
Qed.

Lemma walk_columns_Q columns : forall fuel w s s' w', I s -> Forall Q (answers w) -> walk_columns fuel columns w s = (s', Ok w') -> I s' /\ Forall Q (answers w').
Proof.
  induction columns as [|c columns IH]; intros fuel w s s' w' Hi Hw; cbn [walk_columns]; [by intros [= <- <-]|].
  intros (s1 & w1 & E1 & E2)%st_bind_inv. apply walk_column_Q in E1 as [H1 H2]; [|done|done]. by eapply IH.
Qed.

(** Answers are all of a device's answers, and the device is left as it has to be. *)
Lemma read_Q scalars columns s s' a : I s -> read scalars columns s = (s', Ok a) -> I s' /\ Forall Q a.
Proof.
  intros Hi. unfold read, st_bind at 1, asking at 1. pose proof (stopped_keeps s Hi) as H1. destruct (poll_stopped s) as [s1 []]; [done|]. cbn [fst] in H1.
  intros (s2 & got & E1 & (s3 & w & E2 & [= <- <-])%st_bind_inv)%st_bind_inv.
  assert (I s2 /\ Forall Q got) as [H2 Hg].
  { destruct scalars as [|o os]; [injection E1 as <- <-; by split|]. apply st_bind_inv in E1 as (s4 & r & E3 & E4). unfold asking in E3.
    destruct (get_keeps (o :: os) s1 H1) as [H2 Hq]. destruct (get_many (o :: os) s1) as [s5 r']. injection E3 as <- <-. cbn [fst snd] in *.
    destruct r' as [l|m]; [|done]. injection E4 as <- <-. split; [done|]. by apply Hq. }
  eapply walk_columns_Q; [exact H2| |exact E2]. cbn [answers]. apply list.Forall_forall. intros e He%bt_of_list_elem. rewrite list.Forall_forall in Hg. by apply Hg.
Qed.
End provenance.

(** ** A session trusts only its own version *)

(** The crate keeps a session's version, and checks who sent a response by the version the
    packet claims: what claims version 3 is [authentic]. *)
Class Checked (S : Snmp2) := {
  authentic : Pdu wire_oid_t -> Prop;
  answered (r : result (Pdu wire_oid_t) WireError) := forall p, r = Ok p -> pdu_version p = Some V3v -> authentic p;
  get_many_checked : forall os s, version (fst (s_get_many os s)) = version s /\ answered (snd (s_get_many os s));
  getbulk_checked : forall o n s, version (fst (s_getbulk o n s)) = version s /\ answered (snd (s_getbulk o n s));
  getnext_checked : forall o s, version (fst (s_getnext o s)) = version s /\ answered (snd (s_getnext o s));
  late_keeps : forall s, version (fst (s_late s)) = version s;
  stop_keeps : forall s, version (fst (s_stopped s)) = version s }.

Section authentic.
Context {S : Snmp2} {C : Checked S}.

(** Read out of an authentic response without an error status. *)
Definition vouched (e : Oid * SnmpValue) : Prop :=
  exists p vb, authentic p /\ error_status p = 0 /\ vb ∈ varbinds p /\ from_varbind vb = Ok e.

Lemma collect_elem {A B} (f : A -> result B bytes) l : forall r, collect f l = Ok r -> forall b, b ∈ r -> exists a, a ∈ l /\ f a = Ok b.
Proof.
  induction l as [|x l IH]; cbn [collect]; [by intros r [= <-] b ?%elem_of_nil|]. intros r (y & Ey & (ys & Eys & [= <-])%result_bind_ok)%result_bind_ok b [->|Hb]%elem_of_cons.
  - exists x. split; [set_solver|done].
  - destruct (IH _ Eys b Hb) as (a & Ha & Hf). exists a. split; [set_solver|done].
Qed.

Lemma accept_vouched r l : answered r -> accept V3v r = Ok l -> Forall vouched l.
Proof.
  intros Hr (p & Ep & ([] & Hv & ([] & Hs & Hc)%result_bind_ok)%result_bind_ok)%result_bind_ok. destruct r as [p'|e]; [|done]. injection Ep as ->.
  unfold check_version in Hv. case_bool_decide as Hver; [|done]. unfold check_status in Hs. destruct (Z.eqb_spec (error_status p) 0) as [Hz|]; [|done].
  apply list.Forall_forall. intros e He. destruct (collect_elem _ _ _ Hc e He) as (vb & Hvb & Hf). exists p, vb. by repeat split; [apply Hr| | |].
Qed.

Lemma v3_session_vouched scalars columns (s s' : WireSession) a :
  version (inner s) = V3v -> read (D := wire_device) scalars columns s = (s', Ok a) -> version (inner s') = V3v /\ Forall vouched a.
Proof.
  intros Hv. apply (read_Q (D := wire_device) (fun s : WireSession => version (inner s) = V3v)); [..|exact Hv]; clear s s' a Hv scalars columns.
  - intros s Hs. cbn. unfold of_inner. pose proof (late_keeps (inner s)) as H. destruct (s_late (inner s)). cbn in *. congruence.
  - intros s Hs. cbn. unfold of_inner. pose proof (stop_keeps (inner s)) as H. destruct (s_stopped (inner s)). cbn in *. congruence.
  - intros os s Hs. cbn [get_many wire_device]. unfold get. destruct (collect wire_oid os) as [wire|e]; [|by split].
    destruct (get_many_checked wire (inner s)) as [H1 H2]. destruct (s_get_many wire (inner s)) as [s1 r]. cbn [fst snd inner] in *. split; [congruence|].
    intros l. rewrite Hs. by apply accept_vouched.
  - intros o n s Hs. cbn [next_after wire_device]. unfold next. destruct (wire_oid o) as [wire|e]; [|by split].
    destruct (getbulk_checked wire n (inner s)) as [H1 H2]. destruct (getnext_checked wire (inner s)) as [H3 H4].
    destruct (bulk s).
    + destruct (s_getbulk wire n (inner s)) as [s1 r]. cbn [fst snd inner] in *. split; [congruence|]. intros l. rewrite Hs. by apply accept_vouched.
    + destruct (s_getnext wire (inner s)) as [s1 r]. cbn [fst snd inner] in *. split; [congruence|]. intros l. rewrite Hs. by apply accept_vouched.
Qed.

(** Everything a version 3 session reads of a device, its scalars and every row of every
    column, is out of responses the crate authenticated: a packet that claims another version
    is refused, whatever it carries. *)
Theorem v3_answers_are_authentic (scalars columns : list Oid) (s s' : WireSession) (a : Answers) :
  version (inner s) = V3v -> read (D := wire_device) scalars columns s = (s', Ok a) -> Forall vouched a.
Proof. intros Hv Hr. by apply (v3_session_vouched _ _ _ _ _ Hv Hr). Qed.
End authentic.

(** A device with one scalar. *)
Definition demo_snmp2 : Snmp2 := {|
  socket_address := unit; session := unit; wire_oid_t := list Z; oid_from := Some; oid_iter := Some; show_oid := fun _ => [];
  version := fun _ => V3v;
  s_get_many := fun os s => (s, Ok (mkPdu (Some V3v) 0 (map (fun o => (o, VInteger 5)) os)));
  s_getbulk := fun _ _ s => (s, Ok (mkPdu (Some V2C) 0 [([1; 3; 9], VInteger 6)]));
  s_getnext := fun _ s => (s, Ok (mkPdu (Some V3v) 0 []));
  s_late := fun s => (s, false); s_stopped := fun s => (s, false);
  moment := unit; resolve := fun _ _ _ => Ok [tt]; file_len := fun _ _ => Ok 3; read_file := fun _ _ => Ok (lit "key"); new_v2c := fun _ _ _ _ => Ok tt; new_v3 := fun _ _ _ _ => Ok tt; s_init := Ok |}.
Definition demo_checked : Checked demo_snmp2.
Proof. refine (Build_Checked demo_snmp2 (fun p => pdu_version p = Some V3v) _ _ _ _ _); cbn; intros; (split; [reflexivity|]; intros p; congruence) || reflexivity. Defined.

Lemma v3_answers_are_authentic_witness : exists s' a,
  read (D := @wire_device demo_snmp2) [[1; 3; 6]] [] (@mkWireSession demo_snmp2 tt true) = (s', Ok a) /\ a = [([1; 3; 6], Integer 5)] /\ Forall (@vouched demo_snmp2 demo_checked) a.
Proof.
  eexists _, _. split; [vm_compute; reflexivity|]. split; [reflexivity|].
  eapply (v3_answers_are_authentic (S := demo_snmp2) (C := demo_checked) [[1; 3; 6]] [] (@mkWireSession demo_snmp2 tt true)); [reflexivity|vm_compute; reflexivity].
Defined.
(** A version 2 packet in a version 3 session is refused. *)
Example other_version_refused : snd (next (S := demo_snmp2) [1; 3] 25 (@mkWireSession demo_snmp2 tt true)) = Err (lit "the device answered in a different SNMP version").
Proof. reflexivity. Qed.
