(* ===== verification/SnmpMibs.v ===== *)
(** * snmp/mibs.rs: the switch behind a device's answers

    Answers are read as tables: a column's rows by the rest of their identifier.
    [lower_char] is [char::to_lowercase] on one character's bytes. *)

From Stdlib Require Import String.
From S2P Require Import Prelude Text Ip BTree Smbios Payload SwitchReport SnmpWalk.

#[local] Set Warnings "-notation-overridden".

(** ** Identifiers *)

Definition SYS_DESCR : Oid := [1; 3; 6; 1; 2; 1; 1; 1; 0].
Definition SYS_NAME : Oid := [1; 3; 6; 1; 2; 1; 1; 5; 0].
Definition LLDP_LOC_CHASSIS_ID_SUBTYPE : Oid := [1; 0; 8802; 1; 1; 2; 1; 3; 1; 0].
Definition LLDP_LOC_CHASSIS_ID : Oid := [1; 0; 8802; 1; 1; 2; 1; 3; 2; 0].
Definition DOT1Q_VLAN_VERSION : Oid := [1; 3; 6; 1; 2; 1; 17; 7; 1; 1; 1; 0].

Definition SCALARS : list Oid :=
  [SYS_DESCR; SYS_NAME; LLDP_LOC_CHASSIS_ID_SUBTYPE; LLDP_LOC_CHASSIS_ID; DOT1Q_VLAN_VERSION].

Definition ENT_PHYSICAL_CLASS : Oid := [1; 3; 6; 1; 2; 1; 47; 1; 1; 1; 1; 5].
Definition ENT_PHYSICAL_MFG_NAME : Oid := [1; 3; 6; 1; 2; 1; 47; 1; 1; 1; 1; 12].
Definition ENT_PHYSICAL_SERIAL_NUM : Oid := [1; 3; 6; 1; 2; 1; 47; 1; 1; 1; 1; 11].
Definition ENT_PHYSICAL_MODEL_NAME : Oid := [1; 3; 6; 1; 2; 1; 47; 1; 1; 1; 1; 13].
Definition IF_DESCR : Oid := [1; 3; 6; 1; 2; 1; 2; 2; 1; 2].
Definition IF_TYPE : Oid := [1; 3; 6; 1; 2; 1; 2; 2; 1; 3].
Definition IF_MTU : Oid := [1; 3; 6; 1; 2; 1; 2; 2; 1; 4].
Definition IF_SPEED : Oid := [1; 3; 6; 1; 2; 1; 2; 2; 1; 5].
Definition IF_PHYS_ADDRESS : Oid := [1; 3; 6; 1; 2; 1; 2; 2; 1; 6].
Definition IF_OPER_STATUS : Oid := [1; 3; 6; 1; 2; 1; 2; 2; 1; 8].
Definition IF_NAME : Oid := [1; 3; 6; 1; 2; 1; 31; 1; 1; 1; 1].
Definition IF_HIGH_SPEED : Oid := [1; 3; 6; 1; 2; 1; 31; 1; 1; 1; 15].
Definition LLDP_LOC_PORT_ID_SUBTYPE : Oid := [1; 0; 8802; 1; 1; 2; 1; 3; 7; 1; 2].
Definition LLDP_LOC_PORT_ID : Oid := [1; 0; 8802; 1; 1; 2; 1; 3; 7; 1; 3].
Definition LLDP_REM_CHASSIS_ID_SUBTYPE : Oid := [1; 0; 8802; 1; 1; 2; 1; 4; 1; 1; 4].
Definition LLDP_REM_CHASSIS_ID : Oid := [1; 0; 8802; 1; 1; 2; 1; 4; 1; 1; 5].
Definition LLDP_REM_PORT_ID_SUBTYPE : Oid := [1; 0; 8802; 1; 1; 2; 1; 4; 1; 1; 6].
Definition LLDP_REM_PORT_ID : Oid := [1; 0; 8802; 1; 1; 2; 1; 4; 1; 1; 7].
Definition LLDP_REM_PORT_DESC : Oid := [1; 0; 8802; 1; 1; 2; 1; 4; 1; 1; 8].
Definition LLDP_REM_SYS_NAME : Oid := [1; 0; 8802; 1; 1; 2; 1; 4; 1; 1; 9].
Definition DOT1D_BASE_PORT_IF_INDEX : Oid := [1; 3; 6; 1; 2; 1; 17; 1; 4; 1; 2].
Definition DOT1Q_VLAN_CURRENT_EGRESS_PORTS : Oid := [1; 3; 6; 1; 2; 1; 17; 7; 1; 4; 2; 1; 4].
Definition DOT1Q_VLAN_CURRENT_UNTAGGED_PORTS : Oid := [1; 3; 6; 1; 2; 1; 17; 7; 1; 4; 2; 1; 5].

Definition COLUMNS : list Oid :=
  [ENT_PHYSICAL_CLASS; ENT_PHYSICAL_MFG_NAME; ENT_PHYSICAL_SERIAL_NUM; ENT_PHYSICAL_MODEL_NAME;
   IF_DESCR; IF_TYPE; IF_MTU; IF_SPEED; IF_PHYS_ADDRESS; IF_OPER_STATUS; IF_NAME; IF_HIGH_SPEED;
   LLDP_LOC_PORT_ID_SUBTYPE; LLDP_LOC_PORT_ID; LLDP_REM_CHASSIS_ID_SUBTYPE; LLDP_REM_CHASSIS_ID;
   LLDP_REM_PORT_ID_SUBTYPE; LLDP_REM_PORT_ID; LLDP_REM_PORT_DESC; LLDP_REM_SYS_NAME;
   DOT1D_BASE_PORT_IF_INDEX; DOT1Q_VLAN_CURRENT_EGRESS_PORTS; DOT1Q_VLAN_CURRENT_UNTAGGED_PORTS].

Definition ENT_CLASS_CHASSIS : Z := 3.
Definition MAX_INT32 : Z := 2147483647.
Definition MAX_VLAN_MEMBERSHIPS : Z := 100000.

(** ** Tables *)

Definition present (v : SnmpValue) : bool := match v with Missing => false | _ => true end.
Definition keep {A} (p : A -> bool) (o : option A) : option A :=
  match o with Some a => if p a then Some a else None | None => None end.

(** [Answers::scalar]. *)
Definition scalar (a : Answers) (o : Oid) : option SnmpValue := keep present (bt_get o a).

(** [Answers::column]: the range from the column on, while it lasts. *)
Definition column (a : Answers) (c : Oid) : list (Oid * SnmpValue) :=
  omap (fun e : Oid * SnmpValue =>
          if Nat.ltb (length c) (length (fst e)) && present (snd e) then Some (drop (length c) (fst e), snd e) else None)
    (take_while (prefixed c) (drop_while (fun e : Oid * SnmpValue => list_ltb (fst e) c) a)).

(** [Answers::by_index]. *)
Definition by_index (a : Answers) (c : Oid) : list (Z * SnmpValue) :=
  bt_of_list (omap (fun e : Oid * SnmpValue => match fst e with [i] => Some (i, snd e) | _ => None end) (column a c)).

(** [remote_rows]. *)
Definition remote_rows (a : Answers) (c : Oid) : list ((Z * Z) * SnmpValue) :=
  bt_of_list (omap (fun e : Oid * SnmpValue => match fst e with [_; port; remote] => Some ((port, remote), snd e) | _ => None end) (column a c)).

(** ** Values *)

Definition within_string_limit (t : bytes) : bool := chars_count t <=? Z.of_nat MAX_STRING_CHARS.

Definition is_blank_chunk (c : bytes) : bool := is_whitespace_chunk c || bool_decide (c = [0]).

Definition text (v : SnmpValue) : option bytes :=
  match v with
  | Octets b =>
      let+ t := from_utf8 b in
      keep within_string_limit (normalize_value (concat (trim_by is_blank_chunk (char_chunks t))))
  | _ => None
  end.

(** [format!("{byte:02x}")], joined by colons. *)
Definition hex2 (b : Z) : bytes := [hex_digit (b / 16); hex_digit (b mod 16)].
Definition hex_colons (b : bytes) : bytes := join 58 (map hex2 b).

Definition text_or_hex (v : SnmpValue) : option bytes :=
  match text v with
  | Some t => Some t
  | None => match v with
            | Octets (b :: bs) => keep within_string_limit (Some (hex_colons (b :: bs)))
            | _ => None
            end
  end.

Definition mac (v : SnmpValue) : option bytes :=
  match v with
  | Octets b => if bool_decide (length b = 6%nat) && existsb (fun x => negb (x =? 0)) b then Some (hex_colons b) else None
  | _ => None
  end.

Definition integer (v : SnmpValue) : option Z :=
  match v with
  | Integer z => Some z
  | Unsigned n => if in_s 64 n then Some n else None
  | _ => None
  end.
Definition unsigned (v : SnmpValue) : option Z :=
  match v with
  | Unsigned n => Some n
  | Integer z => if in_u 64 z then Some z else None
  | _ => None
  end.

Fixpoint groups_of (b : bytes) : list Z :=
  match b with h :: l :: b' => (h * 256 + l) :: groups_of b' | _ => [] end.

Definition network_address (v : SnmpValue) : option bytes :=
  match v with
  | Octets (family :: rest) =>
      if family =? 1 then match rest with [a; b; c; d] => Some (show_ipv4 a b c d) | _ => None end
      else if (family =? 2) && bool_decide (length rest = 16%nat) then Some (show_ipv6 (groups_of rest))
      else None
  | _ => None
  end.

(** ** Identity *)

Record Chassis := mkChassis { serial : bytes; vendor : option bytes; model : option bytes }.

Definition field {K} `{KeyOrder K} {A} (f : SnmpValue -> option A) (m : list (K * SnmpValue)) (k : K) : option A :=
  let+ v := bt_get k m in f v.

Fixpoint find_map {A B} (f : A -> option B) (l : list A) : option B :=
  match l with x :: l' => match f x with Some y => Some y | None => find_map f l' end | [] => None end.

Definition chassis (a : Answers) : option Chassis :=
  let serials := by_index a ENT_PHYSICAL_SERIAL_NUM in
  let vendors := by_index a ENT_PHYSICAL_MFG_NAME in
  let models := by_index a ENT_PHYSICAL_MODEL_NAME in
  find_map (fun e : Z * SnmpValue =>
              if bool_decide (snd e = Integer ENT_CLASS_CHASSIS)
              then let+ s := field text serials (fst e) in
                   Some (mkChassis s (field text vendors (fst e)) (field text models (fst e)))
              else None) (by_index a ENT_PHYSICAL_CLASS).

(** ** Interfaces *)

Record Entry := mkEntry { interface : Interface; descr : option bytes; e_mac : option bytes }.

Definition one_of (z : Z) (l : list Z) : bool := existsb (Z.eqb z) l.

Definition interface_kind (t : option Z) : bytes :=
  match t with
  | Some z =>
      if one_of z [6; 7; 62; 69; 117] then lit "ethernet"
      else if z =? 24 then lit "loopback"
      else if z =? 161 then lit "bond"
      else if z =? 209 then lit "bridge"
      else if one_of z [135; 136] then lit "vlan"
      else if z =? 53 then lit "virtual"
      else lit "unknown"
  | None => lit "unknown"
  end.

Definition oper_status (s : option Z) : bytes :=
  match s with
  | Some z =>
      if z =? 1 then lit "up"
      else if one_of z [2; 7] then lit "down"
      else if z =? 5 then lit "dormant"
      else if z =? 6 then lit "not_present"
      else lit "unknown"
  | None => lit "unknown"
  end.

Definition or_else {A} (a b : option A) : option A := match a with Some _ => a | None => b end.

Definition entry_speed (speeds high_speeds : list (Z * SnmpValue)) (index : Z) : option Z :=
  keep (fun s => s <=? MAX_INT32)
    (or_else (keep (fun s => 0 <? s) (field unsigned high_speeds index))
             (keep (fun s => 0 <? s) (option_map (fun bits => bits / 1000000) (field unsigned speeds index)))).

(** One interface, given its name and description. *)
Definition entry_of (a : Answers) (index : Z) (name : bytes) (d : option bytes) : Entry :=
  let address := field mac (by_index a IF_PHYS_ADDRESS) index in
  mkEntry
    (mkInterface name
       (interface_kind (field integer (by_index a IF_TYPE) index))
       (oper_status (field integer (by_index a IF_OPER_STATUS) index))
       address
       (keep (fun m => (1 <=? m) && (m <=? MAX_INT32)) (field unsigned (by_index a IF_MTU) index))
       (entry_speed (by_index a IF_SPEED) (by_index a IF_HIGH_SPEED) index)
       None None None None)
    d address.

(** The [filter_map] with the names seen so far. *)
Fixpoint entries_from (a : Answers) (seen : list bytes) (indexes : list Z) : list (Z * Entry) :=
  match indexes with
  | [] => []
  | index :: indexes' =>
      let d := field text (by_index a IF_DESCR) index in
      match or_else (field text (by_index a IF_NAME) index) d with
      | None => entries_from a seen indexes'
      | Some name =>
          if bool_decide (name ∈ seen) then entries_from a seen indexes'
          else (index, entry_of a index name d) :: entries_from a (name :: seen) indexes'
      end
  end.

Definition indexes (a : Answers) : list Z :=
  map fst (bt_of_list (map (fun e : Z * SnmpValue => (fst e, tt)) (by_index a IF_DESCR ++ by_index a IF_NAME))).

Definition interfaces (a : Answers) : list (Z * Entry) := bt_of_list (entries_from a [] (indexes a)).

(** ** Neighbors *)

Definition position_by {A} (p : A -> bool) (m : list (Z * A)) : option Z :=
  option_map fst (find_by (fun e : Z * A => p (snd e)) m).

Definition local_port (subtypes : list (Z * SnmpValue)) (m : list (Z * Entry)) (e : Z * SnmpValue) : option (Z * Z) :=
  let matched :=
    match bt_get (fst e) subtypes with
    | Some (Integer z) =>
        if z =? 3 then let+ address := mac (snd e) in position_by (fun x => bool_decide (e_mac x = Some address)) m
        else if one_of z [1; 5; 7] then
          let+ n := text (snd e) in
          position_by (fun x => str_eqb (if_name (interface x)) n || bool_decide (descr x = Some n)) m
        else None
    | _ => None
    end in
  let own := match bt_get (fst e) m with Some _ => Some (fst e) | None => None end in
  option_map (fun index => (fst e, index)) (or_else matched own).

Definition local_ports (a : Answers) (m : list (Z * Entry)) : list (Z * Z) :=
  bt_of_list (omap (local_port (by_index a LLDP_LOC_PORT_ID_SUBTYPE) m) (by_index a LLDP_LOC_PORT_ID)).

Definition chassis_id_value (subtype v : SnmpValue) : option (bytes * bytes) :=
  match subtype with
  | Integer z =>
      if z =? 4 then option_map (fun t => (t, lit "mac_address")) (mac v)
      else if z =? 5 then option_map (fun t => (t, lit "network_address")) (network_address v)
      else if z =? 6 then option_map (fun t => (t, lit "name")) (text v)
      else option_map (fun t => (t, lit "local")) (text_or_hex v)
  | _ => None
  end.

Definition port_id_value (subtype : option SnmpValue) (v : SnmpValue) : option (bytes * bytes) :=
  let local := option_map (fun t => (t, lit "local")) (text_or_hex v) in
  match subtype with
  | Some (Integer z) =>
      if z =? 3 then option_map (fun t => (t, lit "mac_address")) (mac v)
      else if one_of z [1; 5] then option_map (fun t => (t, lit "name")) (text v)
      else local
  | _ => local
  end.

Section switch.
Variable lower_char : bytes -> bytes.

(** [endpoint]. *)
Definition endpoint (n : Neighbor) : bytes * bytes * bytes * bytes :=
  (remote_chassis_id_kind n,
   if str_eqb (remote_chassis_id_kind n) (lit "name") then concat (map lower_char (char_chunks (remote_chassis_id n)))
   else remote_chassis_id n,
   remote_port_id_kind n, remote_port_id n).

Definition set_neighbors (l : option (list Neighbor)) (e : Entry) : Entry :=
  let i := interface e in
  mkEntry (mkInterface (if_name i) (if_kind i) (if_status i) (if_mac_address i) (if_mtu i) (if_speed_mbps i) (if_addresses i)
             (if_vlan_mode i) (if_vlans i) l) (descr e) (e_mac e).

(** [get_mut]. *)
Definition update (k : Z) (f : Entry -> Entry) (m : list (Z * Entry)) : list (Z * Entry) :=
  map (fun e : Z * Entry => if fst e =? k then (fst e, f (snd e)) else e) m.

Definition push_neighbor (n : Neighbor) (e : Entry) : Entry :=
  let l := match if_neighbors (interface e) with Some l => l | None => [] end in
  set_neighbors (Some (if existsb (fun x => bool_decide (endpoint x = endpoint n)) l then l else l ++ [n])) e.

Definition neighbor_of (a : Answers) (ttl : Z) (key : Z * Z) (chassis_id : SnmpValue) : option Neighbor :=
  let+ chassis := field (fun subtype => chassis_id_value subtype chassis_id) (remote_rows a LLDP_REM_CHASSIS_ID_SUBTYPE) key in
  let+ port := field (port_id_value (bt_get key (remote_rows a LLDP_REM_PORT_ID_SUBTYPE))) (remote_rows a LLDP_REM_PORT_ID) key in
  Some (mkNeighbor (lit "lldp") (fst chassis) (snd chassis) (fst port) (snd port)
          (field text (remote_rows a LLDP_REM_SYS_NAME) key) (field text (remote_rows a LLDP_REM_PORT_DESC) key) ttl).

Definition attach_row (a : Answers) (ttl : Z) (local : list (Z * Z)) (m : list (Z * Entry)) (row : (Z * Z) * SnmpValue) : list (Z * Entry) :=
  match bt_get (fst (fst row)) local with
  | None => m
  | Some index =>
      match bt_get index m with
      | None => m
      | Some _ => match neighbor_of a ttl (fst row) (snd row) with
                  | None => m
                  | Some n => update index (push_neighbor n) m
                  end
      end
  end.

Definition attach_neighbors (a : Answers) (m : list (Z * Entry)) (ttl : Z) : list (Z * Entry) :=
  let local := local_ports a m in
  fold_left (attach_row a ttl local) (remote_rows a LLDP_REM_CHASSIS_ID)
    (map (fun e : Z * Entry => (fst e, set_neighbors (Some []) (snd e))) m).

(** ** VLANs *)

(** The first octet's high bit is bridge port 1; [u32] arithmetic. *)
Definition in_port_list (bitmap : bytes) (port : Z) : bool :=
  if port =? 0 then false
  else
    let bit := port - 1 in
    match bitmap !! Z.to_nat (bit / 8) with
    | Some octet => negb (Z.land octet (Z.shiftr 128 (bit mod 8)) =? 0)
    | None => false
    end.

Definition vlan_ports (a : Answers) (c : Oid) : list (Z * bytes) :=
  bt_of_list (omap (fun e : Oid * SnmpValue =>
                      match fst e, snd e with
                      | [_; v], Octets bitmap => if in_u 16 v && (1 <=? v) && (v <=? 4094) then Some (v, bitmap) else None
                      | _, _ => None
                      end) (column a c)).

Definition bridge_ports (a : Answers) (m : list (Z * Entry)) : list (Z * Z) :=
  omap (fun e : Z * SnmpValue =>
          let+ i := integer (snd e) in
          if in_u 32 i then match bt_get i m with Some _ => Some (fst e, i) | None => None end else None)
    (by_index a DOT1D_BASE_PORT_IF_INDEX).

Definition MapError : Type := bytes.

(** The body of the loop over the bridge ports, for one VLAN. *)
Fixpoint members (v : Z) (ports : bytes) (untagged : option bytes) (bridge : list (Z * Z))
  (acc : list (Z * list VlanMembership)) (total : Z) : result (list (Z * list VlanMembership) * Z) MapError :=
  match bridge with
  | [] => Ok (acc, total)
  | (port, if_index) :: bridge' =>
      if negb (in_port_list ports port) then members v ports untagged bridge' acc total
      else
        let total := total + 1 in
        if MAX_VLAN_MEMBERSHIPS <? total then Err (lit "the switch reports more than 100000 VLAN memberships")
        else
          let mode := if match untagged with Some u => in_port_list u port | None => false end then Untagged else Tagged in
          let old := match bt_get if_index acc with Some l => l | None => [] end in
          members v ports untagged bridge' (bt_insert if_index (old ++ [mkVlan v mode]) acc) total
  end.

Fixpoint memberships (untagged : list (Z * bytes)) (bridge : list (Z * Z)) (egress : list (Z * bytes))
  (acc : list (Z * list VlanMembership)) (total : Z) : result (list (Z * list VlanMembership)) MapError :=
  match egress with
  | [] => Ok acc
  | (v, ports) :: egress' =>
      let? r := members v ports (bt_get v untagged) bridge acc total in
      memberships untagged bridge egress' (fst r) (snd r)
  end.

Definition is_untagged (m : VlanMembership) : bool := match tagging_mode m with Untagged => true | Tagged => false end.

Definition one_untagged (l : list VlanMembership) : list VlanMembership :=
  if Nat.ltb 1 (length (List.filter is_untagged l)) then map (fun m => mkVlan (vid m) Tagged) l else l.

Definition vlan_mode_of (l : list VlanMembership) : option bytes :=
  match l with
  | [] => None
  | [m] => Some (if is_untagged m then lit "access" else lit "trunk")
  | _ => Some (lit "trunk")
  end.

Definition set_vlans (l : list VlanMembership) (e : Entry) : Entry :=
  let i := interface e in
  let l := one_untagged l in
  mkEntry (mkInterface (if_name i) (if_kind i) (if_status i) (if_mac_address i) (if_mtu i) (if_speed_mbps i) (if_addresses i)
             (match l with [] => if_vlan_mode i | _ => vlan_mode_of l end) (Some l) (if_neighbors i)) (descr e) (e_mac e).

Definition attach_vlans (a : Answers) (m : list (Z * Entry)) : result (list (Z * Entry)) MapError :=
  let? all := memberships (vlan_ports a DOT1Q_VLAN_CURRENT_UNTAGGED_PORTS) (bridge_ports a m)
                (vlan_ports a DOT1Q_VLAN_CURRENT_EGRESS_PORTS) [] 0 in
  Ok (map (fun e : Z * Entry => (fst e, set_vlans (match bt_get (fst e) all with Some l => l | None => [] end) (snd e))) m).

(** ** The switch *)

Definition is_some {A} (o : option A) : bool := match o with Some _ => true | None => false end.

Definition switch (target : bytes) (a : Answers) (ttl : Z) : result (CollectorResource * Sections) MapError :=
  match chassis a with
  | None => Err (lit "no chassis serial number in ENTITY-MIB; the switch cannot be identified")
  | Some c =>
      let sections := mkRead (is_some (scalar a LLDP_LOC_CHASSIS_ID)) (is_some (scalar a DOT1Q_VLAN_VERSION)) in
      let m := interfaces a in
      let m := if read_neighbors sections then attach_neighbors a m ttl else m in
      let? m := if read_vlans sections then attach_vlans a m else Ok m in
      let hostname := let+ v := scalar a SYS_NAME in text v in
      Ok (mkResource KSwitch (Some target)
            (mkCollectorIdentifiers hostname (Some (serial c)) None [])
            (Some (mkHostAttributes hostname None (vendor c) (model c) None))
            (Some (map (fun e : Z * Entry => interface (snd e)) m)) None,
          sections)
  end.
End switch.

(** ** Columns *)

(** The rows of a column are the answers under it. *)
Definition row_of (c : Oid) (e : Oid * SnmpValue) : option (Oid * SnmpValue) :=
  if prefixed c e && Nat.ltb (length c) (length (fst e)) && present (snd e) then Some (drop (length c) (fst e), snd e) else None.

Lemma prefix_not_before c o : starts_with c o = true -> list_ltb o c = false.
Proof.
  intros [r ->]%starts_with_spec. destruct r as [|x r]; [rewrite app_nil_r; apply (key_ltb_irrefl (KeyOrder := list_order))|].
  induction c as [|y c IH]; [done|]. cbn. by rewrite Z.ltb_irrefl, Z.eqb_refl, IH.
Qed.

Lemma omap_none {A B} (f : A -> option B) l : (forall x, x ∈ l -> f x = None) -> omap f l = [].
Proof. induction l as [|x l IH]; [done|]. intros H. cbn. rewrite H by set_solver. apply IH. set_solver. Qed.

(** Reading a column as a range of the ordered answers finds exactly the answers
    under it. *)
Theorem column_is_its_rows (l : list (Oid * SnmpValue)) (c : Oid) : column (bt_of_list l) c = omap (row_of c) (bt_of_list l).
Proof.
  pose proof (bt_of_list_sorted l) as Hs. generalize dependent (bt_of_list l). clear l. intros a Hs. unfold column.
  induction a as [|e a IH]; [done|]. destruct Hs as [He Hs]. cbn [drop_while].
  destruct (list_ltb (fst e) c) eqn:Hlt.
  - rewrite IH by done. cbn [omap list_omap]. unfold row_of at 2. destruct (prefixed c e) eqn:Hp; [|done].
    unfold prefixed in Hp. apply prefix_not_before in Hp. by rewrite Hp in Hlt.
  - clear IH. cbn [take_while]. revert e He Hlt. induction a as [|e' a IH]; intros e He Hlt.
    + cbn. unfold row_of. by destruct (prefixed c e).
    + apply list.Forall_cons in He as [He1 He]. destruct Hs as [He' Hs].
      assert (list_ltb (fst e') c = false) as Hlt'.
      { destruct (list_ltb (fst e') c) eqn:E; [|done]. pose proof (key_ltb_trans (KeyOrder := list_order) _ _ _ He1 E) as H. by cbn in H; rewrite H in Hlt. }
      destruct (prefixed c e) eqn:Hp.
      * cbn [omap list_omap]. unfold row_of at 1. rewrite Hp. cbn [andb take_while]. specialize (IH Hs e' He' Hlt'). cbn [omap list_omap] in IH.
        by rewrite IH.
      * symmetry. apply omap_none. intros x Hx. unfold row_of. destruct (prefixed c x) eqn:Hpx; [|done]. exfalso.
        assert (x <> e) by (intros ->; by rewrite Hp in Hpx).
        assert (list_ltb (fst e) (fst x) = true) as Hex.
        { apply elem_of_cons in Hx as [|[->|Hx]%elem_of_cons]; [done|done|]. rewrite list.Forall_forall in He. by apply He. }
        assert (c <> fst e) as Hne. { intros ->. unfold prefixed in Hp. by rewrite (proj2 (starts_with_spec _ _)) in Hp by (exists []; by rewrite app_nil_r). }
        assert (list_ltb c (fst e) = true) as Hce.
        { destruct (list_ltb c (fst e)) eqn:E; [done|]. destruct Hne. by apply (key_ltb_total (KeyOrder := list_order)). }
        pose proof (beyond_column c (fst e) (fst x) Hce Hp Hpx) as Hxe.
        pose proof (key_ltb_trans (KeyOrder := list_order) _ _ _ Hex Hxe) as H4. by rewrite (key_ltb_irrefl (KeyOrder := list_order)) in H4.
Qed.

(** ** What the agent reports of a switch is well formed *)

Definition text_ok (t : bytes) : Prop := t <> [] /\ chars_count t <= Z.of_nat MAX_STRING_CHARS.
Definition opt_ok {A} (P : A -> Prop) (o : option A) : Prop := match o with Some a => P a | None => True end.

Lemma keep_Some {A} (p : A -> bool) o x : keep p o = Some x -> o = Some x /\ p x = true.
Proof. destruct o as [y|]; cbn; [|done]. destruct (p y) eqn:E; [|done]. by intros [= <-]. Qed.

Lemma text_is_ok v t : text v = Some t -> text_ok t.
Proof.
  destruct v; try done. cbn. unfold from_utf8. destruct (utf8_valid b); [|done]. cbn. intros [Hn Hl]%keep_Some. split; [|unfold within_string_limit in Hl; lia].
  unfold normalize_value in Hn. destruct (_ || _) eqn:E; [done|]. injection Hn as <-. apply orb_false_iff in E as [E _].
  intros H0. by rewrite H0 in E.
Qed.

Lemma field_Some {K} `{KeyOrder K} {A} (f : SnmpValue -> option A) m k x : field f m k = Some x -> exists v, bt_get k m = Some v /\ f v = Some x.
Proof. unfold field. destruct (bt_get k m) as [v|]; cbn; [eauto|done]. Qed.

Lemma field_text_ok {K} `{KeyOrder K} m k t : field text m k = Some t -> text_ok t.
Proof. intros (v & _ & Hv)%field_Some. by apply text_is_ok in Hv. Qed.

Lemma opt_text_ok {K} `{KeyOrder K} m k : opt_ok text_ok (field text m k).
Proof. destruct (field text m k) eqn:E; [|done]. by apply field_text_ok in E. Qed.

(** *** Lengths of written values *)

Lemma chars_count_le s : chars_count s <= zlength s.
Proof.
  unfold chars_count, zlength. enough (length (char_chunks s) <= length s)%nat by lia. induction s as [|b s IH]; [done|]. cbn.
  destruct (char_chunks s) as [|[|x c] cs]; cbn in *; [lia|lia|]. destruct (is_continuation x); cbn; lia.
Qed.

Lemma length_join c n l : Forall (fun p => (length p <= n)%nat) l -> (length (join c l) <= S n * length l)%nat.
Proof.
  induction 1 as [|p l Hp _ IH]; [cbn; lia|]. destruct l as [|q l]; [cbn in *; lia|]. rewrite join_cons, length_app. cbn [length] in *. lia.
Qed.

Lemma length_strip_zeros s : (length (strip_zeros s) <= length s)%nat.
Proof. induction s as [|b s IH]; [done|]. cbn. destruct s; [done|]. destruct (b =? 48); cbn in *; lia. Qed.

Lemma length_show_ipv4 a b c d : (length (show_ipv4 a b c d) <= 83)%nat.
Proof.
  unfold show_ipv4. rewrite !length_app. pose proof (SnmpConfig.length_show a). pose proof (SnmpConfig.length_show b).
  pose proof (SnmpConfig.length_show c). pose proof (SnmpConfig.length_show d). cbn [length]. lia.
Qed.

Lemma length_show_groups gs : (length (show_groups gs) <= 5 * length gs)%nat.
Proof.
  unfold show_groups. rewrite <- (length_map show_group gs). apply length_join. apply List.Forall_map, list.Forall_forall. intros g _.
  unfold show_group. apply (Nat.le_trans _ _ _ (length_strip_zeros _)). done.
Qed.

Lemma length_show_ipv6 gs : (length gs <= 8)%nat -> (length (show_ipv6 gs) <= 90)%nat.
Proof.
  intros Hg. unfold show_ipv6. destruct (bool_decide _).
  - rewrite length_app. pose proof (length_show_ipv4 (nth 6 gs 0 / 256) (nth 6 gs 0 mod 256) (nth 7 gs 0 / 256) (nth 7 gs 0 mod 256)).
    change (length (lit "::ffff:")) with 7%nat. lia.
  - destruct (longest_zeros 0 gs (0%nat, 0%nat) (0%nat, 0%nat)) as [start len]. pose proof (length_show_groups gs). destruct (Nat.ltb 1 len); [|lia].
    rewrite !length_app. pose proof (length_show_groups (take start gs)) as H1. pose proof (length_show_groups (drop (start + len) gs)) as H2.
    rewrite length_take in H1. rewrite length_drop in H2. change (length (lit "::")) with 2%nat. lia.
Qed.

Lemma groups_of_length n : forall b, (length b <= 2 * n)%nat -> (length (groups_of b) <= n)%nat.
Proof. induction n as [|n IH]; intros [|x [|y b]]; cbn; intros H; try lia. specialize (IH b). lia. Qed.

(** A text no longer than the limit allows. *)
Lemma short_ok t : t <> [] -> (length t <= MAX_STRING_CHARS)%nat -> text_ok t.
Proof. intros Hn Hl. split; [done|]. pose proof (chars_count_le t). unfold zlength in *. lia. Qed.

Lemma hex_colons_nonempty b : b <> [] -> hex_colons b <> [].
Proof. destruct b as [|x [|y b]]; done. Qed.

Lemma hex_colons_length b : (length (hex_colons b) <= 3 * length b)%nat.
Proof. unfold hex_colons. rewrite <- (length_map hex2 b). apply length_join. apply List.Forall_map, list.Forall_forall. intros x _. done. Qed.

Lemma mac_ok v t : mac v = Some t -> text_ok t.
Proof.
  destruct v; try done. cbn [mac]. destruct (bool_decide _) eqn:E; [|done]. apply bool_decide_eq_true in E. destruct (existsb _ b); [|done]. intros [= <-].
  apply short_ok; [by apply hex_colons_nonempty; intros ->|]. pose proof (hex_colons_length b). unfold MAX_STRING_CHARS. lia.
Qed.

Lemma text_or_hex_ok v t : text_or_hex v = Some t -> text_ok t.
Proof.
  unfold text_or_hex. destruct (text v) as [x|] eqn:E; [intros [= <-]; by apply text_is_ok in E|].
  destruct v as [| |[|b bs]| | | |]; try done. intros [[= <-] Hl]%keep_Some. unfold within_string_limit in Hl. split; [by apply hex_colons_nonempty|lia].
Qed.

Lemma show_groups_nonempty gs : gs <> [] -> show_groups gs <> [].
Proof.
  unfold show_groups. destruct gs as [|g gs]; [done|]. intros _. assert (show_group g <> []) as Hg by by apply strip_zeros_nonempty.
  cbn [map]. destruct (map show_group gs); [done|]. rewrite join_cons. by destruct (show_group g).
Qed.

Lemma show_ip_text_ok ip : ip_ok ip -> text_ok (show_ip ip).
Proof.
  destruct ip as [a b c d|g]; cbn [show_ip ip_ok].
  - intros _. apply short_ok.
    + unfold show_ipv4. pose proof (show_u64_nonempty a). by destruct (show_u64 a).
    + pose proof (length_show_ipv4 a b c d). unfold MAX_STRING_CHARS. lia.
  - intros [Hg _]. apply short_ok; [|pose proof (length_show_ipv6 g ltac:(lia)); unfold MAX_STRING_CHARS; lia].
    unfold show_ipv6. destruct (bool_decide _); [done|]. destruct (longest_zeros _ _ _ _) as [start len].
    destruct (Nat.ltb 1 len); [intros Hn; by apply app_nil in Hn as [_ Hn]|]. apply show_groups_nonempty. by destruct g.
Qed.

Lemma network_address_ok v t : network_address v = Some t -> text_ok t.
Proof.
  destruct v as [| |[|f r]| | | |]; try done. cbn [network_address]. destruct (f =? 1).
  - destruct r as [|a [|b [|c [|d [|]]]]]; try done. intros [= <-]. apply short_ok.
    + unfold show_ipv4. pose proof (show_u64_nonempty a). by destruct (show_u64 a).
    + pose proof (length_show_ipv4 a b c d). unfold MAX_STRING_CHARS. lia.
  - destruct (_ && _) eqn:E; [|done]. apply andb_true_iff in E as [_ E]. apply bool_decide_eq_true in E. intros [= <-].
    pose proof (groups_of_length 8 r ltac:(lia)) as Hg. apply short_ok; [|pose proof (length_show_ipv6 _ Hg); unfold MAX_STRING_CHARS; lia].
    unfold show_ipv6. destruct (bool_decide _); [done|]. destruct (longest_zeros _ _ _ _) as [start len].
    destruct (Nat.ltb 1 len); [intros Hn; by apply app_nil in Hn as [_ Hn]|]. apply show_groups_nonempty. by destruct r as [|x [|y r]].
Qed.

(** *** VLAN memberships *)

Definition or_nil {A} (o : option (list A)) : list A := match o with Some l => l | None => [] end.

(** RFC 4363's [PortList]: the most significant bit of the first octet is port 1. *)
Definition bit_set (bitmap : bytes) (port : Z) : bool :=
  negb (port =? 0) &&
  match bitmap !! Z.to_nat ((port - 1) / 8) with
  | Some octet => Z.testbit octet (7 - (port - 1) mod 8)
  | None => false
  end.

Lemma in_port_list_bit bitmap port : in_port_list bitmap port = bit_set bitmap port.
Proof.
  unfold in_port_list, bit_set. destruct (port =? 0); [done|]. cbn [negb andb]. destruct (bitmap !! _) as [octet|]; [|done].
  pose proof (Z.mod_pos_bound (port - 1) 8 ltac:(lia)) as Hr. set (r := (port - 1) mod 8) in *. clearbody r.
  assert (Z.shiftr 128 r = 2 ^ (7 - r)) as ->.
  { rewrite Z.shiftr_div_pow2 by lia. change 128 with (2 ^ 7). rewrite <- Z.pow_sub_r by lia. done. }
  destruct (Z.testbit octet (7 - r)) eqn:E.
  - apply negb_true_iff, Z.eqb_neq. intros H. assert (Z.testbit (Z.land octet (2 ^ (7 - r))) (7 - r) = true) as H2.
    { rewrite Z.land_spec, E, Z.pow2_bits_true by lia. done. }
    by rewrite H, Z.testbit_0_l in H2.
  - apply negb_false_iff, Z.eqb_eq. apply Z.bits_inj_iff'. intros n Hn. rewrite Z.land_spec, Z.testbit_0_l, Z.pow2_bits_eqb by lia.
    destruct (Z.eqb_spec (7 - r) n) as [<-|]; [by rewrite E|by rewrite andb_false_r].
Qed.

(** Every bridge port whose bit is set in a VLAN's port list, with the membership it
    makes. *)
Definition set_ports (untagged : list (Z * bytes)) (bridge : list (Z * Z)) (row : Z * bytes) : list (Z * VlanMembership) :=
  omap (fun b : Z * Z =>
          if bit_set (snd row) (fst b)
          then Some (snd b, mkVlan (fst row) (if match bt_get (fst row) untagged with Some u => bit_set u (fst b) | None => false end
                                              then Untagged else Tagged))
          else None) bridge.
Definition all_ports (untagged : list (Z * bytes)) (bridge : list (Z * Z)) (egress : list (Z * bytes)) : list (Z * VlanMembership) :=
  concat (map (set_ports untagged bridge) egress).
Definition of_interface (index : Z) (l : list (Z * VlanMembership)) : list VlanMembership :=
  omap (fun e : Z * VlanMembership => if fst e =? index then Some (snd e) else None) l.

Lemma of_interface_app i l k : of_interface i (l ++ k) = of_interface i l ++ of_interface i k.
Proof. unfold of_interface. apply omap_app. Qed.

Lemma set_ports_cons untagged v ports port index bridge :
  set_ports untagged ((port, index) :: bridge) (v, ports) =
    if bit_set ports port
    then (index, mkVlan v (if match bt_get v untagged with Some u => bit_set u port | None => false end then Untagged else Tagged))
         :: set_ports untagged bridge (v, ports)
    else set_ports untagged bridge (v, ports).
Proof. unfold set_ports. cbn [omap list_omap fst snd]. by destruct (bit_set ports port). Qed.

Lemma members_exact untagged row bridge : forall acc total,
  match members (fst row) (snd row) (bt_get (fst row) untagged) bridge acc total with
  | Ok (acc', total') =>
      total' = total + zlength (set_ports untagged bridge row) /\ (total <= MAX_VLAN_MEMBERSHIPS -> total' <= MAX_VLAN_MEMBERSHIPS) /\
      forall i, or_nil (bt_get i acc') = or_nil (bt_get i acc) ++ of_interface i (set_ports untagged bridge row)
  | Err _ => MAX_VLAN_MEMBERSHIPS < total + zlength (set_ports untagged bridge row)
  end.
Proof.
  destruct row as [v ports]. cbn [fst snd]. induction bridge as [|[port index] bridge IH]; intros acc total.
  - cbn. split_and!; [unfold zlength; cbn; lia|done|]. intros i. by rewrite app_nil_r.
  - cbn [members]. rewrite set_ports_cons, in_port_list_bit. destruct (bit_set ports port); cbn [negb]; [|apply IH].
    assert (match bt_get v untagged with Some u => in_port_list u port | None => false end =
            match bt_get v untagged with Some u => bit_set u port | None => false end) as ->
      by (destruct (bt_get v untagged); [apply in_port_list_bit|done]).
    match goal with |- context [mkVlan v ?m] => set (mode := m) end.
    destruct (Z.ltb_spec MAX_VLAN_MEMBERSHIPS (total + 1)); [unfold zlength; cbn [length]; lia|].
    specialize (IH (bt_insert index (or_nil (bt_get index acc) ++ [mkVlan v mode]) acc) (total + 1)).
    fold (or_nil (bt_get index acc)). destruct (members _ _ _ _ _ _) as [[acc' total']|e].
    + destruct IH as (E & Hm & Hget). split_and!; [unfold zlength in *; cbn [length]; lia|intros; lia|].
      intros i. rewrite Hget, bt_get_insert. unfold of_interface at 2. cbn [omap list_omap fst snd].
      destruct (Z.eqb_spec index i) as [->|Hne].
      * rewrite bool_decide_eq_true_2 by done. cbn. by rewrite <- app_assoc.
      * by rewrite bool_decide_eq_false_2.
    + unfold zlength in *. cbn [length]. lia.
Qed.

Lemma memberships_from untagged bridge egress : forall acc total, total <= MAX_VLAN_MEMBERSHIPS ->
  match memberships untagged bridge egress acc total with
  | Ok all => total + zlength (all_ports untagged bridge egress) <= MAX_VLAN_MEMBERSHIPS /\
              forall i, or_nil (bt_get i all) = or_nil (bt_get i acc) ++ of_interface i (all_ports untagged bridge egress)
  | Err _ => MAX_VLAN_MEMBERSHIPS < total + zlength (all_ports untagged bridge egress)
  end.
Proof.
  unfold all_ports. induction egress as [|row egress IH]; intros acc total Ht.
  - cbn. split; [unfold zlength; cbn; lia|]. intros i. by rewrite app_nil_r.
  - pose proof (members_exact untagged row bridge acc total) as Hm. destruct row as [v ports]. cbn [memberships fst snd map concat] in *.
    unfold zlength in *. rewrite length_app.
    destruct (members v ports (bt_get v untagged) bridge acc total) as [[acc1 t1]|e]; cbn [result_bind fst snd]; [|lia].
    destruct Hm as (E & Hle & Hget). specialize (IH acc1 t1 (Hle Ht)).
    destruct (memberships untagged bridge egress acc1 t1) as [all|e]; [|lia]. destruct IH as [H1 H2]. split; [lia|].
    intros i. by rewrite H2, Hget, <- app_assoc, of_interface_app.
Qed.

(** When no two bridge ports lead to the same interface, an interface is in each VLAN
    at most once. *)
Lemma vids_nodup untagged bridge egress i :
  NoDup (map snd bridge) -> NoDup (map fst egress) -> NoDup (map vid (of_interface i (all_ports untagged bridge egress))).
Proof.
  intros Hb. assert (forall row, map vid (of_interface i (set_ports untagged bridge row)) = [] \/ map vid (of_interface i (set_ports untagged bridge row)) = [fst row]) as Hrow.
  { intros row. assert (forall b, i ∉ map snd b -> map vid (of_interface i (set_ports untagged b row)) = []) as Hnone.
    { induction b as [|[p j] b IH]; [done|]. cbn [map snd]. intros [Hij Hi]%not_elem_of_cons. unfold set_ports, of_interface. cbn [omap list_omap fst snd].
      destruct (bit_set _ _); cbn [omap list_omap fst snd]; [rewrite (proj2 (Z.eqb_neq _ _)) by congruence|]; by apply IH. }
    induction bridge as [|[p j] b IH]; [by left|]. cbn [map snd] in Hb. apply list.NoDup_cons in Hb as [Hj Hb]. specialize (IH Hb).
    unfold set_ports, of_interface in *. cbn [omap list_omap fst snd]. destruct (bit_set _ _); [|done]. cbn [omap list_omap fst snd].
    destruct (Z.eqb_spec j i) as [->|]; [|done]. right. cbn [map vid]. f_equal. by apply Hnone. }
  induction egress as [|row egress IH]; [constructor|]. cbn [map fst]. intros [Hr He]%list.NoDup_cons. unfold all_ports. cbn [map concat].
  rewrite of_interface_app, map_app. fold (all_ports untagged bridge egress). destruct (Hrow row) as [->| ->]; [by apply IH|].
  apply list.NoDup_cons. split; [|by apply IH]. intros Hin. apply Hr. clear -Hin Hrow.
  induction egress as [|r2 egress IH]; [by apply not_elem_of_nil in Hin|]. unfold all_ports in Hin. cbn [map concat] in Hin.
  rewrite of_interface_app, map_app in Hin. cbn [map]. apply elem_of_app in Hin as [Hin|Hin]; [|apply elem_of_cons; right; by apply IH].
  destruct (Hrow r2) as [E|E]; rewrite E in Hin; [by apply not_elem_of_nil in Hin|]. apply elem_of_cons. left. by apply list_elem_of_singleton in Hin.
Qed.

(** *** Every interface of the report *)

Section well_formed.
Variable lower_char : bytes -> bytes.

Definition in_int32 (z : Z) : Prop := 1 <= z <= MAX_INT32.
Definition vlans_ok (i : Interface) : Prop :=
  match if_vlans i with
  | None => if_vlan_mode i = None
  | Some l => Forall (fun m => 1 <= vid m <= 4094) l /\ (length (List.filter is_untagged l) <= 1)%nat /\ if_vlan_mode i = vlan_mode_of l
  end.
Definition neighbor_ok (n : Neighbor) : Prop :=
  text_ok (remote_chassis_id n) /\ text_ok (remote_port_id n) /\ opt_ok text_ok (remote_system_name n) /\ opt_ok text_ok (remote_port_description n).
Definition neighbors_ok (i : Interface) : Prop :=
  match if_neighbors i with None => True | Some l => NoDup (map (endpoint lower_char) l) /\ Forall neighbor_ok l end.
Definition interface_ok (i : Interface) : Prop :=
  text_ok (if_name i) /\ opt_ok text_ok (if_mac_address i) /\ opt_ok in_int32 (if_mtu i) /\ opt_ok in_int32 (if_speed_mbps i) /\
  vlans_ok i /\ neighbors_ok i.

Definition name_of (e : Z * Entry) : bytes := if_name (interface (snd e)).
(** Which sections an entry has, and that it is well formed. *)
Definition entry_ok (neighbors vlans : bool) (e : Z * Entry) : Prop :=
  interface_ok (interface (snd e)) /\ is_some (if_neighbors (interface (snd e))) = neighbors /\ is_some (if_vlans (interface (snd e))) = vlans.
Definition entries_ok (neighbors vlans : bool) (m : list (Z * Entry)) : Prop :=
  NoDup (map name_of m) /\ Forall (entry_ok neighbors vlans) m.

Lemma map_entries (f : Z * Entry -> Z * Entry) n v n' v' m :
  (forall e, entry_ok n v e -> entry_ok n' v' (f e) /\ name_of (f e) = name_of e) -> entries_ok n v m -> entries_ok n' v' (map f m).
Proof.
  intros Hf [Hn Hm]. split.
  - rewrite map_map. erewrite map_ext_in; [exact Hn|]. intros e He. apply Hf. rewrite list.Forall_forall in Hm. by apply Hm, list_elem_of_In.
  - apply List.Forall_map. eapply Forall_impl; [|exact Hm]. intros e He. cbv beta. by apply Hf.
Qed.

Lemma entry_of_ok a index name d : text_ok name -> entry_ok false false (index, entry_of a index name d).
Proof.
  intros Hn. unfold entry_ok, interface_ok, entry_of. cbn. split_and!; try done.
  - destruct (field mac _ _) eqn:E; [|done]. apply field_Some in E as (v & _ & E). by apply mac_ok in E.
  - destruct (keep _ _) as [m|] eqn:E; [|done]. apply keep_Some in E as [_ E]. cbn. unfold in_int32. lia.
  - unfold entry_speed. destruct (keep (fun s => s <=? MAX_INT32) _) as [s|] eqn:E; [|done]. apply keep_Some in E as [E Hle].
    cbn. unfold in_int32. enough (0 < s) by lia. unfold or_else in E. destruct (keep _ (field unsigned (by_index a IF_HIGH_SPEED) index)) as [x|] eqn:E2.
    + apply keep_Some in E2 as [_ E2]. injection E as <-. lia.
    + apply keep_Some in E as [_ E]. lia.
Qed.

Lemma entries_from_ok a l : forall seen,
  Forall (fun e => name_of e ∉ seen) (entries_from a seen l) /\ entries_ok false false (entries_from a seen l) /\
  Forall (fun e => fst e ∈ l) (entries_from a seen l).
Proof.
  induction l as [|index l IH]; intros seen; cbn [entries_from]; [repeat split; try constructor|].
  assert (forall seen', Forall (fun e : Z * Entry => fst e ∈ index :: l) (entries_from a seen' l)) as Hin.
  { intros seen'. destruct (IH seen') as (_ & _ & H). eapply Forall_impl; [|exact H]. cbv beta. set_solver. }
  destruct (or_else _ _) as [n|] eqn:En; [|destruct (IH seen) as (? & ? & _); auto].
  destruct (bool_decide (n ∈ seen)) eqn:Es; [destruct (IH seen) as (? & ? & _); auto|]. apply bool_decide_eq_false in Es.
  assert (text_ok n) as Hn. { unfold or_else in En. destruct (field text (by_index a IF_NAME) index) eqn:E2; [injection En as <-; by apply field_text_ok in E2|by apply field_text_ok in En]. }
  destruct (IH (n :: seen)) as (H1 & (H2 & H3) & _). split_and!.
  - constructor; [done|]. eapply Forall_impl; [|exact H1]. cbv beta. set_solver.
  - split; [|constructor; [by apply entry_of_ok|done]]. cbn [map]. apply list.NoDup_cons. split; [|done].
    intros (e & He & Hin2)%list_elem_of_fmap_1. rewrite list.Forall_forall in H1. apply (H1 e Hin2). rewrite <- He. cbn. set_solver.
  - constructor; [cbn; set_solver|]. apply Hin.
Qed.

Lemma entries_from_sorted a l : forall seen, bt_sorted (map (fun i : Z => (i, tt)) l) -> bt_sorted (entries_from a seen l).
Proof.
  induction l as [|index l IH]; intros seen; [done|]. cbn [map bt_sorted entries_from]. intros [Hl Hs].
  destruct (or_else _ _) as [n|]; [|by apply IH]. destruct (bool_decide _); [by apply IH|]. split; [|by apply IH].
  destruct (entries_from_ok a l (n :: seen)) as (_ & _ & Hin). eapply Forall_impl; [|exact Hin]. cbv beta. intros e He.
  apply List.Forall_map in Hl. rewrite list.Forall_forall in Hl. by apply Hl.
Qed.

Lemma unit_pairs (l : list (Z * unit)) : map (fun i : Z => (i, tt)) (map fst l) = l.
Proof. induction l as [|[i []] l IH]; [done|]. cbn. by rewrite IH. Qed.

Lemma interfaces_ok a : entries_ok false false (interfaces a).
Proof.
  unfold interfaces. rewrite bt_of_list_id; [apply (entries_from_ok a (indexes a) [])|]. apply entries_from_sorted.
  unfold indexes. rewrite unit_pairs. apply bt_of_list_sorted.
Qed.

(** *** Neighbors *)

Lemma neighbor_of_ok a ttl key v n : neighbor_of a ttl key v = Some n -> neighbor_ok n.
Proof.
  unfold neighbor_of. destruct (field _ (remote_rows a LLDP_REM_CHASSIS_ID_SUBTYPE) key) as [[c ck]|] eqn:Ec; [|done]. cbn [mbind option_bind].
  destruct (field _ (remote_rows a LLDP_REM_PORT_ID) key) as [[p pk]|] eqn:Ep; [|done]. cbn [mbind option_bind]. intros [= <-].
  apply field_Some in Ec as (cv & _ & Ec). apply field_Some in Ep as (pv & _ & Ep). unfold neighbor_ok. cbn. split_and!; [| |apply opt_text_ok|apply opt_text_ok].
  - unfold chassis_id_value in Ec. destruct cv as [z| | | | | |]; try done.
    repeat (destruct (z =? _); [apply fmap_Some in Ec as (t & Ht & [= -> ->]); first [by apply mac_ok in Ht|by apply network_address_ok in Ht|by apply text_is_ok in Ht]|]).
    apply fmap_Some in Ec as (t & Ht & [= -> ->]). by apply text_or_hex_ok in Ht.
  - unfold port_id_value in Ep. assert (forall t, text_or_hex pv = Some t -> text_ok t) as Hl by (intros; by eapply text_or_hex_ok).
    destruct (bt_get key _) as [[z| | | | | |]|]; try (apply fmap_Some in Ep as (t & Ht & [= -> ->]); by apply Hl).
    destruct (z =? 3); [apply fmap_Some in Ep as (t & Ht & [= -> ->]); by apply mac_ok in Ht|].
    destruct (one_of z [1; 5]); apply fmap_Some in Ep as (t & Ht & [= -> ->]); [by apply text_is_ok in Ht|by apply Hl].
Qed.

Lemma push_neighbor_ok n i e : neighbor_ok n -> entry_ok true false (i, e) -> entry_ok true false (i, push_neighbor lower_char n e).
Proof.
  intros Hn [(? & ? & ? & ? & ? & Hnb) [Hs Hv]]. unfold entry_ok, interface_ok, push_neighbor, neighbors_ok in *. cbn in *.
  destruct (if_neighbors (interface e)) as [l|]; [|done]. destruct Hnb as [Hd Hl]. destruct (existsb _ l) eqn:Ex; [done|].
  split_and!; try done; [|apply list.Forall_app; split; [done|by apply list.Forall_singleton]]. rewrite map_app. cbn.
  apply list.NoDup_app. split_and!; [done| |apply NoDup_singleton]. intros x Hx Hx2%list_elem_of_singleton. subst x.
  apply list_elem_of_fmap_1 in Hx as (y & Hy & Hin). eapply eq_true_false_abs; [|exact Ex].
  apply existsb_exists. exists y. split; [by apply list_elem_of_In|]. by apply bool_decide_eq_true_2.
Qed.

Lemma attach_row_ok a ttl local m row : entries_ok true false m -> entries_ok true false (attach_row lower_char a ttl local m row).
Proof.
  intros Hm. unfold attach_row. destruct (bt_get _ local) as [index|]; [|done]. destruct (bt_get index m) as [found|]; [|done].
  destruct (neighbor_of a ttl (fst row) (snd row)) as [n|] eqn:En; [|done]. apply neighbor_of_ok in En.
  unfold update. eapply map_entries; [|exact Hm]. intros [i e] He. cbn [fst snd]. destruct (i =? index); [|done]. split; [by apply push_neighbor_ok|done].
Qed.

Lemma attach_neighbors_ok a ttl m : entries_ok false false m -> entries_ok true false (attach_neighbors lower_char a m ttl).
Proof.
  intros Hm. unfold attach_neighbors. set (local := local_ports a m). clearbody local.
  assert (entries_ok true false (map (fun e : Z * Entry => (fst e, set_neighbors (Some []) (snd e))) m)) as H0.
  { eapply map_entries; [|exact Hm]. intros [i e] [(? & ? & ? & ? & ? & ?) [? ?]]. split; [|done]. unfold entry_ok, interface_ok, neighbors_ok. cbn in *. split_and!; try done; constructor. }
  revert H0. generalize (map (fun e : Z * Entry => (fst e, set_neighbors (Some []) (snd e))) m). induction (remote_rows a LLDP_REM_CHASSIS_ID) as [|row rows IH]; intros m' H'; [done|].
  cbn [fold_left]. by apply IH, attach_row_ok.
Qed.

(** *** VLANs *)

Lemma vlan_ports_range a c : Forall (fun e : Z * bytes => 1 <= fst e <= 4094) (vlan_ports a c).
Proof.
  apply list.Forall_forall. intros [v b] Hin. apply bt_of_list_elem in Hin. apply list_elem_of_omap in Hin as ([o x] & _ & E). cbn [fst snd] in E.
  destruct o as [|t [|v' [|]]]; try done. destruct x; try done. destruct (_ && _) eqn:Eb; [|done]. injection E as <- _. cbn. lia.
Qed.

Lemma all_ports_vids untagged bridge egress i :
  Forall (fun e : Z * bytes => 1 <= fst e <= 4094) egress -> Forall (fun m => 1 <= vid m <= 4094) (of_interface i (all_ports untagged bridge egress)).
Proof.
  intros He. apply list.Forall_forall. intros m Hm. apply list_elem_of_omap in Hm as ([j m'] & Hm & E). cbn in E. destruct (j =? i); [|done]. injection E as ->.
  unfold all_ports in Hm. apply list_elem_of_In, in_concat in Hm as (l & Hl & Hm). apply in_map_iff in Hl as (row & <- & Hrow).
  apply list_elem_of_In, list_elem_of_omap in Hm as ([p k] & _ & E). cbn in E. destruct (bit_set _ _); [|done]. injection E as <- <-. cbn.
  rewrite list.Forall_forall in He. by apply He, list_elem_of_In.
Qed.

Lemma one_untagged_ok l : Forall (fun m => 1 <= vid m <= 4094) l ->
  Forall (fun m => 1 <= vid m <= 4094) (one_untagged l) /\ (length (List.filter is_untagged (one_untagged l)) <= 1)%nat.
Proof.
  intros Hl. unfold one_untagged. destruct (Nat.ltb_spec 1 (length (List.filter is_untagged l))); [|split; [done|lia]]. split.
  - apply List.Forall_map. eapply Forall_impl; [|exact Hl]. done.
  - assert (List.filter is_untagged (map (fun m => mkVlan (vid m) Tagged) l) = []) as ->; [|cbn; lia]. clear. by induction l.
Qed.

Lemma attach_vlans_ok n a m m' : entries_ok n false m -> attach_vlans a m = Ok m' -> entries_ok n true m'.
Proof.
  intros Hm. unfold attach_vlans. pose proof (memberships_from (vlan_ports a DOT1Q_VLAN_CURRENT_UNTAGGED_PORTS)
    (bridge_ports a m) (vlan_ports a DOT1Q_VLAN_CURRENT_EGRESS_PORTS) [] 0 ltac:(done)) as Hx. cbn [bt_get or_nil] in Hx.
  destruct (memberships _ _ _ [] 0) as [all|]; [|done]. destruct Hx as [_ Hx]. cbn [result_bind]. intros [= <-].
  eapply map_entries; [|exact Hm]. intros [i e] [(? & ? & ? & ? & Hv & Hnb) [Hs Hno]]. cbn [fst snd] in *. split; [|done].
  fold (or_nil (bt_get i all)). rewrite Hx. destruct (one_untagged_ok _ (all_ports_vids (vlan_ports a DOT1Q_VLAN_CURRENT_UNTAGGED_PORTS) (bridge_ports a m) _ i
    (vlan_ports_range a DOT1Q_VLAN_CURRENT_EGRESS_PORTS))) as [H5 H6]. unfold entry_ok, interface_ok, vlans_ok, neighbors_ok in *. cbn. split_and!; try done.
  destruct (if_vlans (interface e)); [done|]. destruct (one_untagged _) as [|x l]; [exact Hv|done].
Qed.
End well_formed.

(** Which memberships an interface's entry gives: those of [l], all tagged when [l] has
    more than one untagged. *)
Definition gives_vlans (l : list VlanMembership) (i : Interface) : Prop :=
  exists l', if_vlans i = Some l' /\ map vid l' = map vid l /\
    ((length (List.filter is_untagged l) <= 1)%nat -> l' = l) /\
    ((1 < length (List.filter is_untagged l))%nat -> Forall (fun m => is_untagged m = false) l').

Lemma set_vlans_gives l e : gives_vlans l (interface (set_vlans l e)).
Proof.
  exists (one_untagged l). split; [done|]. unfold one_untagged.
  destruct (Nat.ltb_spec 1 (length (List.filter is_untagged l))); (split; [|split]); try done; try lia.
  - by rewrite map_map.
  - intros _. by apply List.Forall_map, list.Forall_forall.
Qed.

(** C37. The memberships reported are exactly the set bits of the port lists, whose most
    significant bit is the first port: each interface gets, in VLAN order, one
    membership for every bridge port that leads to it and is set in the VLAN's port
    list, untagged if it is set in the VLAN's untagged list too (and all of them tagged
    if more than one would be untagged); and a switch with more set bits than the limit
    is refused, never cut short. *)
Theorem vlan_memberships_exact (a : Answers) (m : list (Z * Entry)) :
  let set_bits := all_ports (vlan_ports a DOT1Q_VLAN_CURRENT_UNTAGGED_PORTS) (bridge_ports a m)
                    (vlan_ports a DOT1Q_VLAN_CURRENT_EGRESS_PORTS) in
  match attach_vlans a m with
  | Ok m' => zlength set_bits <= MAX_VLAN_MEMBERSHIPS /\
      Forall2 (fun e e' => fst e' = fst e /\ gives_vlans (of_interface (fst e) set_bits) (interface (snd e'))) m m'
  | Err _ => MAX_VLAN_MEMBERSHIPS < zlength set_bits
  end.
Proof.
  intros set_bits. unfold attach_vlans. pose proof (memberships_from (vlan_ports a DOT1Q_VLAN_CURRENT_UNTAGGED_PORTS)
    (bridge_ports a m) (vlan_ports a DOT1Q_VLAN_CURRENT_EGRESS_PORTS) [] 0 ltac:(done)) as Hx. fold set_bits in Hx.
  destruct (memberships _ _ _ [] 0) as [all|e]; cbn [result_bind]; [|lia]. destruct Hx as [Hle Hx].
  split; [lia|]. apply Forall2_fmap_r, Forall_Forall2_diag, list.Forall_forall. intros [i e] _. cbn [fst snd]. split; [done|].
  change (gives_vlans (of_interface i set_bits) (interface (set_vlans (or_nil (bt_get i all)) e))). rewrite Hx. apply set_vlans_gives.
Qed.

(** A reported switch: identified, its interfaces well formed and named apart, with
    exactly the sections its device answered. *)
Definition switch_ok (lower_char : bytes -> bytes) (target : bytes) (o : result (CollectorResource * Sections) MapError) : Prop :=
  match o with
  | Err _ => True
  | Ok (r, sections) =>
      cr_kind r = KSwitch /\ cr_target r = Some target /\
      opt_ok text_ok (ci_serial_number (cr_identifiers r)) /\ ci_serial_number (cr_identifiers r) <> None /\
      opt_ok text_ok (ci_hostname (cr_identifiers r)) /\
      (exists h, cr_attributes r = Some h /\ ha_hostname h = ci_hostname (cr_identifiers r) /\
         opt_ok text_ok (ha_vendor h) /\ opt_ok text_ok (ha_model h)) /\
      exists l, cr_interfaces r = Some l /\ NoDup (map if_name l) /\
        Forall (fun i => interface_ok lower_char i /\ is_some (if_neighbors i) = read_neighbors sections /\
                         is_some (if_vlans i) = read_vlans sections) l
  end.

Lemma switch_is_ok lower_char target a ttl : switch_ok lower_char target (switch lower_char target a ttl).
Proof.
  unfold switch, switch_ok. destruct (chassis a) as [c|] eqn:Ec; [|done]. cbn [read_neighbors read_vlans].
  assert (text_ok (serial c) /\ opt_ok text_ok (vendor c) /\ opt_ok text_ok (model c)) as (Hc & Hve & Hmo).
  { unfold chassis in Ec. induction (by_index a ENT_PHYSICAL_CLASS) as [|e l IH]; [done|]. cbn [find_map] in Ec.
    destruct (bool_decide _); [|by apply IH]. destruct (field text (by_index a ENT_PHYSICAL_SERIAL_NUM) (fst e)) as [s|] eqn:Es; [|by apply IH, Ec].
    injection Ec as <-. cbn. split_and!; [by apply field_text_ok in Es|apply opt_text_ok..]. }
  set (n := is_some (scalar a LLDP_LOC_CHASSIS_ID)). set (v := is_some (scalar a DOT1Q_VLAN_VERSION)).
  assert (entries_ok lower_char n false (if n then attach_neighbors lower_char a (interfaces a) ttl else interfaces a)) as Hn.
  { destruct n; [apply attach_neighbors_ok|]; apply interfaces_ok. }
  set (m := if n then _ else _) in *. clearbody m.
  destruct (if v then attach_vlans a m else Ok m) as [m'|e] eqn:Ev; [|done]. cbn [result_bind].
  assert (entries_ok lower_char n v m') as [Hd Hf]. { destruct v; [by eapply attach_vlans_ok|by injection Ev as <-]. }
  split_and!; [done|done|exact Hc|done| | |].
  - cbn. destruct (scalar a SYS_NAME) as [x|]; [|done]. cbn. destruct (text x) eqn:Et; [|done]. by apply text_is_ok in Et.
  - by eexists.
  - exists (map (fun e : Z * Entry => interface (snd e)) m'). split_and!; [done|by rewrite map_map|]. apply List.Forall_map. exact Hf.
Qed.

(** When no two bridge ports lead to one interface, no interface is twice in a VLAN. *)
Lemma attached_vids_distinct a m m' : NoDup (map snd (bridge_ports a m)) -> attach_vlans a m = Ok m' ->
  Forall (fun e : Z * Entry => opt_ok (fun l => NoDup (map vid l)) (if_vlans (interface (snd e)))) m'.
Proof.
  intros Hb. unfold attach_vlans. pose proof (memberships_from (vlan_ports a DOT1Q_VLAN_CURRENT_UNTAGGED_PORTS)
    (bridge_ports a m) (vlan_ports a DOT1Q_VLAN_CURRENT_EGRESS_PORTS) [] 0 ltac:(done)) as Hx.
  destruct (memberships _ _ _ [] 0) as [all|]; [|done]. destruct Hx as [_ Hx]. cbn [result_bind]. intros [= <-].
  apply List.Forall_map, list.Forall_forall. intros [i e] _. cbn. fold (or_nil (bt_get i all)). rewrite Hx. cbn [app bt_get or_nil].
  assert (forall l, map vid (one_untagged l) = map vid l) as Ho. { intros l. unfold one_untagged. destruct (Nat.ltb _ _); [by rewrite map_map|done]. }
  rewrite Ho. apply vids_nodup; [done|]. apply bt_sorted_nodup, bt_of_list_sorted.
Qed.

(** The interfaces the bridge ports lead to, as the device numbers them. *)
Definition port_interfaces (a : Answers) : list Z := omap (fun e : Z * SnmpValue => integer (snd e)) (by_index a DOT1D_BASE_PORT_IF_INDEX).

Lemma bridge_ports_distinct a m : NoDup (port_interfaces a) -> NoDup (map snd (bridge_ports a m)).
Proof.
  intros Hn. eapply sublist_NoDup; [exact Hn|]. clear Hn. unfold port_interfaces, bridge_ports.
  induction (by_index a DOT1D_BASE_PORT_IF_INDEX) as [|e l IH]; cbn [omap list_omap map]; [constructor|].
  destruct (integer (snd e)) as [i|]; cbn [mbind option_bind]; [|exact IH].
  destruct (in_u 32 i); [|by apply sublist_cons]. destruct (bt_get i m); [by apply sublist_skip|by apply sublist_cons].
Qed.

Lemma switch_vids_distinct lower_char target a ttl r sections l :
  NoDup (port_interfaces a) -> switch lower_char target a ttl = Ok (r, sections) -> cr_interfaces r = Some l ->
  Forall (fun i => opt_ok (fun vs => NoDup (map vid vs)) (if_vlans i)) l.
Proof.
  intros Hn E Hl. pose proof (switch_is_ok lower_char target a ttl) as Hok. rewrite E in Hok.
  destruct Hok as (_ & _ & _ & _ & _ & _ & l0 & E0 & _ & Hf). rewrite Hl in E0. injection E0 as <-.
  unfold switch in E. destruct (chassis a) as [c|]; [|done]. cbn [read_neighbors read_vlans] in E.
  set (v := is_some (scalar a DOT1Q_VLAN_VERSION)) in *. set (m := if is_some _ then attach_neighbors _ _ _ _ else _) in E.
  destruct v eqn:Ev.
  - destruct (attach_vlans a m) as [m'|] eqn:Ea; [|done]. cbn [result_bind] in E. injection E as <- _. cbn in Hl. injection Hl as <-.
    apply List.Forall_map. eapply attached_vids_distinct; [|exact Ea]. by apply bridge_ports_distinct.
  - cbn [result_bind] in E. injection E as _ <-. eapply list.Forall_impl; [exact Hf|]. intros i (_ & _ & Hv). cbn in Hv.
    by destruct (if_vlans i).
Qed.

(** C36. Whatever a device answers, a switch it is reported as is well formed: it is
    identified by a serial number; every interface has a name of its own; its serial
    number, host name, vendor and model and the names, identifiers and addresses of
    its interfaces and neighbors are neither empty nor longer than 255 characters; MTU
    and speed are positive 32-bit integers; every interface is in VLANs 1 to 4094,
    untagged in at most one, with the mode its memberships make; no remote endpoint
    appears twice on an interface; and neighbors and VLANs are given for all interfaces
    exactly when their MIB answered.  An interface is in no VLAN twice, as the server
    demands, if the device's bridge ports lead to different interfaces; without that it
    may be ([shared_interface_twice_in_vlan]). *)
Theorem reported_switch_well_formed (lower_char : bytes -> bytes) (target : bytes) (a : Answers) (ttl : Z) :
  switch_ok lower_char target (switch lower_char target a ttl) /\
  (NoDup (port_interfaces a) -> forall r sections l,
     switch lower_char target a ttl = Ok (r, sections) -> cr_interfaces r = Some l ->
     Forall (fun i => opt_ok (fun vs => NoDup (map vid vs)) (if_vlans i)) l).
Proof. split; [apply switch_is_ok|]. intros Hn r sections l. by apply switch_vids_distinct. Qed.

(** ** A small switch *)

Definition at_oid (c : Oid) (i : list Z) (v : SnmpValue) : Oid * SnmpValue := (c ++ i, v).
(** Two ports, the second with a neighbor; VLAN 10 untagged on the first, 20 tagged on
    both.  [third] is the interface bridge port 3 leads to. *)
Definition small_switch (third : Z) : Answers := bt_of_list [
  at_oid SYS_NAME [] (Octets (lit "leaf-1")); at_oid LLDP_LOC_CHASSIS_ID [] (Octets [2; 0; 0; 0; 0; 1]); at_oid DOT1Q_VLAN_VERSION [] (Integer 1);
  at_oid ENT_PHYSICAL_CLASS [1] (Integer 3); at_oid ENT_PHYSICAL_SERIAL_NUM [1] (Octets (lit "SN1"));
  at_oid IF_DESCR [1] (Octets (lit "eth1")); at_oid IF_NAME [1] (Octets (lit "e1")); at_oid IF_DESCR [2] (Octets (lit "eth2"));
  at_oid IF_TYPE [1] (Integer 6); at_oid IF_HIGH_SPEED [1] (Unsigned 10000); at_oid IF_MTU [2] (Integer 9000);
  at_oid LLDP_LOC_PORT_ID [2] (Octets (lit "eth2")); at_oid LLDP_LOC_PORT_ID_SUBTYPE [2] (Integer 5);
  at_oid LLDP_REM_CHASSIS_ID [0; 2; 1] (Octets [170; 187; 204; 0; 0; 1]); at_oid LLDP_REM_CHASSIS_ID_SUBTYPE [0; 2; 1] (Integer 4);
  at_oid LLDP_REM_PORT_ID [0; 2; 1] (Octets (lit "Ethernet7")); at_oid LLDP_REM_PORT_ID_SUBTYPE [0; 2; 1] (Integer 5);
  at_oid DOT1D_BASE_PORT_IF_INDEX [1] (Integer 1); at_oid DOT1D_BASE_PORT_IF_INDEX [2] (Integer 2); at_oid DOT1D_BASE_PORT_IF_INDEX [3] (Integer third);
  at_oid DOT1Q_VLAN_CURRENT_EGRESS_PORTS [0; 10] (Octets [128]); at_oid DOT1Q_VLAN_CURRENT_UNTAGGED_PORTS [0; 10] (Octets [128]);
  at_oid DOT1Q_VLAN_CURRENT_EGRESS_PORTS [0; 20] (Octets [224])].

Definition vlans_of (r : result (CollectorResource * Sections) MapError) : list (bytes * option bytes * list (Z * bool)) :=
  match r with
  | Ok (r, _) => match cr_interfaces r with
                 | Some l => map (fun i => (if_name i, if_vlan_mode i, match if_vlans i with Some l => map (fun m => (vid m, is_untagged m)) l | None => [] end)) l
                 | None => []
                 end
  | Err _ => []
  end.

Example small_switch_vlans : vlans_of (switch (fun c => c) (lit "192.0.2.1") (small_switch 9) 90) =
  [(lit "e1", Some (lit "trunk"), [(10, true); (20, false)]); (lit "eth2", Some (lit "trunk"), [(20, false)])].
Proof. vm_compute. reflexivity. Qed.

Example small_switch_neighbor :
  match switch (fun c => c) (lit "192.0.2.1") (small_switch 9) 90 with
  | Ok (r, _) => match cr_interfaces r with
                 | Some [e1; eth2] => if_neighbors e1 = Some [] /\ if_speed_mbps e1 = Some 10000 /\ if_mtu eth2 = Some 9000 /\
                     if_neighbors eth2 = Some [mkNeighbor (lit "lldp") (lit "aa:bb:cc:00:00:01") (lit "mac_address") (lit "Ethernet7") (lit "name") None None 90]
                 | _ => False
                 end
  | Err _ => False
  end.
Proof. vm_compute. repeat split. Qed.

(** Two bridge ports that lead to one interface put it twice in a VLAN, which the
    server refuses. *)
Theorem shared_interface_twice_in_vlan : vlans_of (switch (fun c => c) (lit "192.0.2.1") (small_switch 2) 90) =
  [(lit "e1", Some (lit "trunk"), [(10, true); (20, false)]); (lit "eth2", Some (lit "trunk"), [(20, false); (20, false)])].
Proof. vm_compute. reflexivity. Qed.
