(* ===== verification/SnmpPoll.v ===== *)
(** * snmp/mod.rs: polling many devices at once

    [each] hands out items to worker threads through an atomic counter and collects
    their results under a lock.  A step is one worker taking its next index, finishing
    a read, or pushing a result, in any interleaving; what a read returns may depend on
    anything, so it is a relation. *)

From Stdlib Require Import String.
From stdpp Require Import sorting relations.
From S2P Require Import Prelude Text Interfaces SnmpConfig Payload SwitchReport SnmpWalk SnmpMibs.

#[local] Set Warnings "-notation-overridden".

Section each.
Context {I T : Type}.
Variable reads : I -> T -> Prop.
Variable items : list I.

Inductive worker := Looking | Reading (i : nat) | Holding (i : nat) (t : T) | Ended.
Record pool := mkPool { next : nat; workers : list worker; results : list (nat * T) }.

(** [fetch_add] gives each index once; it does not wrap within the run of a poll. *)
Inductive turn : nat -> list (nat * T) -> worker -> nat -> list (nat * T) -> worker -> Prop :=
| TakeIndex n res item : items !! n = Some item -> turn n res Looking (S n) res (Reading n)
| NoMoreItems n res : items !! n = None -> turn n res Looking (S n) res Ended
| FinishRead n res i item t : items !! i = Some item -> reads item t -> turn n res (Reading i) n res (Holding i t)
| PushResult n res i t : turn n res (Holding i t) n (res ++ [(i, t)]) Looking.

Inductive pool_step : pool -> pool -> Prop :=
| Turn n ws res w ws' n' res' w' :
    turn n res w n' res' w' -> pool_step (mkPool n (ws ++ w :: ws') res) (mkPool n' (ws ++ w' :: ws') res').

Definition started (max_concurrent : nat) : pool := mkPool 0 (replicate (min max_concurrent (length items)) Looking) [].
Definition finished (p : pool) : Prop := Forall (fun w => w = Ended) (workers p).

Definition index_le (a b : nat * T) : Prop := (fst a <= fst b)%nat.
#[local] Instance index_le_dec a b : Decision (index_le a b).
Proof. unfold index_le. apply _. Defined.

(** What the scope leaves behind, once every worker has ended. *)
Definition collected (p : pool) : list T := map snd (merge_sort index_le (results p)).

(** [each], as what it may return. *)
Definition each (max_concurrent : nat) (out : list T) : Prop :=
  exists p, rtc pool_step (started max_concurrent) p /\ finished p /\ out = collected p.

Definition is_end (w : worker) : bool := match w with Ended => true | _ => false end.

(** ** Every index is taken once *)

Definition held (w : worker) : list nat := match w with Reading i | Holding i _ => [i] | _ => [] end.
Definition honest_worker (n : nat) (w : worker) : Prop :=
  match w with
  | Looking => True
  | Reading i => is_Some (items !! i)
  | Holding i t => exists item, items !! i = Some item /\ reads item t
  | Ended => (length items <= n)%nat
  end.
Definition honest_result (r : nat * T) : Prop := exists item, items !! fst r = Some item /\ reads item (snd r).

Record pool_inv (p : pool) : Prop := mkPoolInv {
  inv_indices : map fst (results p) ++ concat (map held (workers p)) ≡ₚ seq 0 (min (next p) (length items));
  inv_workers : Forall (honest_worker (next p)) (workers p);
  inv_results : Forall honest_result (results p) }.

Lemma honest_worker_mono n n' w : (n <= n')%nat -> honest_worker n w -> honest_worker n' w.
Proof. destruct w; cbn; auto. lia. Qed.

Lemma turn_next n res w n' res' w' : turn n res w n' res' w' -> (n <= n')%nat.
Proof. destruct 1; lia. Qed.

Lemma turn_honest n res w n' res' w' : turn n res w n' res' w' -> honest_worker n w -> Forall honest_result res ->
  honest_worker n' w' /\ Forall honest_result res' /\
  map fst res' ++ held w' ++ seq 0 (min n (length items)) ≡ₚ map fst res ++ held w ++ seq 0 (min n' (length items)).
Proof.
  destruct 1 as [n res item Hi|n res Hi|n res i item t Hi Ht|n res i t]; cbn [honest_worker held app]; intros Hw Hr; split_and!; try done.
  - apply lookup_lt_Some in Hi. rewrite !min_l by lia. rewrite seq_S. cbn [Nat.add]. apply Permutation_app_head. apply (Permutation_app_comm [n]).
  - apply lookup_ge_None in Hi. lia.
  - apply lookup_ge_None in Hi. by rewrite !min_r by lia.
  - eauto.
  - apply list.Forall_app. split; [done|]. by apply list.Forall_singleton.
  - by rewrite map_app, <- app_assoc.
Qed.

Lemma pool_step_inv p p' : pool_step p p' -> pool_inv p -> pool_inv p'.
Proof.
  destruct 1 as [n ws res w ws' n' res' w' Ht]. intros [Hi Hw Hr]. cbn [next workers results] in *.
  apply list.Forall_app in Hw as [Hw1 [Hw Hw2]%list.Forall_cons]. pose proof (turn_next _ _ _ _ _ _ Ht) as Hn.
  destruct (turn_honest _ _ _ _ _ _ Ht Hw Hr) as (Hw' & Hr' & Hp). split; cbn [next workers results].
  - rewrite !map_app, !concat_app in *. cbn [map concat] in *.
    apply (Permutation_app_inv_l (seq 0 (min n (length items)))). rewrite <- Hi at 2.
    revert Hp. clear. intros Hp.
    assert (map fst res' ++ held w' ++ seq 0 (min n (length items)) ++ concat (map held ws) ++ concat (map held ws') ≡ₚ
            map fst res ++ held w ++ seq 0 (min n' (length items)) ++ concat (map held ws) ++ concat (map held ws')) as H.
    { rewrite !app_assoc. rewrite !app_assoc in Hp. by rewrite Hp. }
    etransitivity; [etransitivity; [|exact H]|]; solve_Permutation.
  - apply list.Forall_app. split; [|apply list.Forall_cons; split; [done|]]; eapply Forall_impl; try eassumption; intros; by eapply honest_worker_mono.
  - done.
Qed.

Lemma started_inv max : pool_inv (started max).
Proof.
  unfold started. split; cbn [next workers results].
  - cbn. induction (Nat.min max (length items)); [done|]. done.
  - apply Forall_replicate. done.
  - constructor.
Qed.

Lemma reachable_inv max p : rtc pool_step (started max) p -> pool_inv p.
Proof. intros H. eapply (rtc_ind_r (fun p => pool_inv p)); [apply started_inv| |exact H]. intros y z _ Hs Hy. by eapply pool_step_inv. Qed.

Lemma pool_step_workers p p' : pool_step p p' -> length (workers p') = length (workers p).
Proof. destruct 1. cbn. by rewrite !length_app. Qed.
Lemma reachable_workers max p : rtc pool_step (started max) p -> length (workers p) = Nat.min max (length items).
Proof.
  intros H. eapply (rtc_ind_r (fun p => length (workers p) = Nat.min max (length items)) (started max)); [apply length_replicate| |exact H].
  intros y z _ Hs Hy. by rewrite (pool_step_workers _ _ Hs).
Qed.

(** ** The results come in the items' order *)

Lemma finished_indices p : pool_inv p -> finished p -> workers p <> [] -> map fst (results p) ≡ₚ seq 0 (length items).
Proof.
  intros [Hi Hw _] Hf Hne. unfold finished in Hf. destruct (workers p) as [|w ws] eqn:Ew; [done|].
  assert (length items <= next p)%nat as Hn. { apply list.Forall_cons in Hw as [Hw _]. apply list.Forall_cons in Hf as [-> _]. exact Hw. }
  rewrite min_r in Hi by done. rewrite <- Hi. assert (concat (map held (w :: ws)) = []) as ->; [|by rewrite app_nil_r].
  clear -Hf. induction Hf as [|x l -> _ IH]; [done|]. exact IH.
Qed.

Lemma sorted_seq (l : list (nat * T)) n : map fst l ≡ₚ seq 0 n -> Sorted index_le l -> map fst l = seq 0 n.
Proof.
  intros Hp Hs. apply (Sorted_unique le); [| |done].
  - clear Hp. induction Hs as [|x l Hs IH Hh]; [constructor|]. cbn. constructor; [done|]. destruct Hh; constructor. done.
  - clear. generalize 0%nat. induction n as [|n IH]; intros k; [constructor|]. cbn. constructor; [apply IH|]. destruct n; constructor. lia.
Qed.

Lemma index_le_total : Total index_le.
Proof. intros a b. unfold index_le. lia. Qed.

Lemma each_in_order max out : (0 < max)%nat -> each max out -> Forall2 reads items out.
Proof.
  intros Hm (p & Hrun & Hf & ->). pose proof (reachable_inv _ _ Hrun) as Hinv. pose proof (reachable_workers _ _ Hrun) as Hlen.
  unfold collected. set (l := merge_sort index_le (results p)).
  assert (l ≡ₚ results p) as Hp by apply merge_sort_Permutation.
  destruct (decide (items = [])) as [Hnil|Hne].
  - assert (l = []) as ->; [|rewrite Hnil; constructor]. destruct Hinv as [_ _ Hr]. rewrite <- Hp in Hr.
    destruct l as [|r l']; [done|]. apply list.Forall_cons in Hr as [(item & Hi & _) _]. by rewrite Hnil, lookup_nil in Hi.
  - assert (workers p <> []) as Hw. { destruct items; [done|]. intros E. rewrite E in Hlen. cbn in Hlen. lia. }
    assert (map fst l = seq 0 (length items)) as Hseq.
    { apply sorted_seq; [rewrite Hp; by apply finished_indices|]. apply Sorted_merge_sort, index_le_total. }
    assert (Forall honest_result l) as Hr by (rewrite Hp; apply Hinv).
    apply Forall2_same_length_lookup. split; [rewrite length_map, <- (length_map fst l), Hseq, length_seq; done|].
    intros i x t Hx Ht. apply list_lookup_fmap_Some in Ht as ([j t'] & -> & Hl). rewrite list.Forall_forall in Hr.
    destruct (Hr (j, t')) as (item & Hj & Hread); [by apply list_elem_of_lookup_2 in Hl|]. cbn in *.
    assert (j = i) as ->; [|congruence].
    assert (map fst l !! i = Some j) as Hji by (change (map fst l) with (fst <$> l); by rewrite list_lookup_fmap, Hl).
    rewrite Hseq in Hji. apply lookup_seq in Hji. lia.
Qed.

(** ** Polling ends *)

Definition effort (w : worker) : nat := match w with Looking => 1 | Reading _ => 3 | Holding _ _ => 2 | Ended => 0 end.
Definition work_left (p : pool) : nat := 3 * (length items - next p) + sum_list_with effort (workers p).

Lemma step_does_work p p' : pool_step p p' -> (work_left p' < work_left p)%nat.
Proof.
  destruct 1 as [n ws res w ws' n' res' w' Ht]. unfold work_left. cbn [next workers]. rewrite !sum_list_with_app. cbn [sum_list_with].
  destruct Ht as [n res item Hi|n res Hi| |]; cbn [effort]; [apply lookup_lt_Some in Hi|apply lookup_ge_None in Hi| |]; lia.
Qed.

Lemma pool_progress p : (forall item, exists t, reads item t) -> pool_inv p -> finished p \/ exists p', pool_step p p'.
Proof.
  intros Hreads [_ Hw _]. destruct (decide (Forall (fun w => is_end w = true) (workers p))) as [Hf|Hf].
  - left. eapply Forall_impl; [|exact Hf]. by intros [].
  - right. apply not_Forall_Exists in Hf; [|apply _]. apply Exists_exists in Hf as (w & Hin & Hne).
    apply list_elem_of_In, list_elem_of_split in Hin as (ws & ws' & E). rewrite E in Hw. apply list.Forall_app in Hw as [_ [Hw _]%list.Forall_cons].
    destruct p as [n l res]. cbn in *. subst l. destruct w as [|i|i t|]; cbn in *; [| | |done].
    + destruct (items !! n) as [item|] eqn:Hn; eexists; apply Turn; [by eapply TakeIndex|by apply NoMoreItems].
    + destruct Hw as [item Hi]. destruct (Hreads item) as [t Ht]. eexists. apply Turn. by eapply FinishRead.
    + eexists. apply Turn. apply PushResult.
Qed.

Lemma each_returns max : (forall item, exists t, reads item t) -> exists out, each max out.
Proof.
  intros Hreads. enough (forall k p, (work_left p < k)%nat -> rtc pool_step (started max) p -> exists out, each max out) as H.
  { apply (H (S (work_left (started max))) (started max)); [lia|reflexivity]. }
  induction k as [|k IH]; intros p Hk Hrun; [lia|]. destruct (pool_progress p Hreads (reachable_inv _ _ Hrun)) as [Hf|[p' Hs]].
  - exists (collected p), p. auto.
  - apply (IH p'); [pose proof (step_does_work _ _ Hs); lia|]. by eapply rtc_r.
Qed.

Lemma each_run_bounded max n p : nsteps pool_step n (started max) p -> (n <= 3 * length items + Nat.min max (length items))%nat.
Proof.
  enough (forall q q' k, nsteps pool_step k q q' -> (k + work_left q' <= work_left q)%nat) as H.
  { intros Hn. apply H in Hn. unfold work_left at 2 in Hn. cbn [started next workers] in Hn. rewrite Nat.sub_0_r in Hn.
    replace (sum_list_with effort _) with (Nat.min max (length items)) in Hn; [lia|]. clear. induction (Nat.min max (length items)) as [|m IH]; [done|]. cbn. by rewrite <- IH. }
  intros q q' k Hn. induction Hn as [|k x y z Hs _ IH]; [lia|]. pose proof (step_does_work _ _ Hs). lia.
Qed.

(** However the worker threads interleave, running a read on every item ends,
    within a bounded number of steps, and what it returns are the reads' results in
    the items' order, one for each item. *)
Theorem each_ordered_and_total (max : nat) :
  (0 < max)%nat -> (forall item, exists t, reads item t) ->
  (exists out, each max out) /\ (forall out, each max out -> Forall2 reads items out) /\
  (forall n p, nsteps pool_step n (started max) p -> (n <= 3 * length items + Nat.min max (length items))%nat /\
               (finished p \/ exists p', pool_step p p')).
Proof.
  intros Hm Hr. split_and!; [by apply each_returns|intros out; by apply each_in_order|]. intros n p Hn. split; [by eapply each_run_bounded|].
  apply pool_progress; [done|]. eapply reachable_inv, rtc_nsteps. eauto.
Qed.
End each.

Lemma each_ordered_and_total_witness : exists out, each (fun x y : Z => y = x + 1) [1; 2; 3] 2 out /\ Forall2 (fun x y : Z => y = x + 1) [1; 2; 3] out.
Proof.
  destruct (each_ordered_and_total (fun x y : Z => y = x + 1) [1; 2; 3] 2) as ([out Ho] & Hall & _); [lia|eauto|]. exists out. split; [exact Ho|]. by apply Hall.
Defined.

(** ** One poll of a module *)

Section poll.
Context {D : Device}.
Variable lower_char : bytes -> bytes.

Definition TARGET_BUDGET_TIMEOUTS : Z := 24.
Definition budget (c : SnmpCollector) : Z := snmp_timeout c * TARGET_BUDGET_TIMEOUTS.

(** [client::poll]. *)
Definition client_poll : ST device halted Answers := read SCALARS COLUMNS.

(** [poll_target]: [opened] is what [open] gave for this target. *)
Definition poll_target (opened : result device bytes) (addr : bytes) (ttl : Z) : result (CollectorResource * Sections) bytes :=
  let? session := opened in
  match snd (client_poll session) with
  | Err (PollError m) => Err m
  | Err OutOfFuel => Err []
  | Ok a => switch lower_char addr a ttl
  end.

(** [poll_each] on one target of [poll]: [world] says whether the module may have been
    stopped and what [open] may give for a target. *)
Variable world : Target -> bool -> result device bytes -> Prop.
Definition polls (ttl : Z) (t : Target) (o : TargetOutcome) : Prop :=
  exists stopped opened, world t stopped opened /\
    o = poll_one stopped (SnmpConfig.address t) (poll_target opened (SnmpConfig.address t) ttl).

(** [poll]: what it may return. *)
Definition poll (c : SnmpCollector) (out : list TargetOutcome) : Prop :=
  each (polls (neighbor_ttl (snmp_interval c))) (snmp_targets c) (Z.to_nat (snmp_max_concurrent_targets c)) out.

(** A target's outcome names it as configured, and its switch, if it was read, is well
    formed. *)
Definition outcome_ok (t : Target) (o : TargetOutcome) : Prop :=
  SwitchReport.address o = SnmpConfig.address t /\ switch_ok lower_char (SnmpConfig.address t) (outcome o).

Lemma polls_ok ttl t o : polls ttl t o -> outcome_ok t o.
Proof.
  intros (stopped & opened & _ & ->). split; [done|]. unfold poll_one. cbn [outcome]. destruct stopped; [done|]. unfold poll_target.
  destruct opened as [s|e]; [|done]. cbn [result_bind]. destruct (snd (client_poll s)) as [a|[|m]]; [apply switch_is_ok|done|done].
Qed.

(** A poll of a module ends whatever its devices answer, and reports every target
    once, in the configured order and under its configured address; a switch that was
    read is well formed. *)
Theorem poll_reports_every_target (c : SnmpCollector) :
  1 <= snmp_max_concurrent_targets c -> (forall t, exists stopped opened, world t stopped opened) ->
  (exists out, poll c out) /\ forall out, poll c out -> Forall2 outcome_ok (snmp_targets c) out.
Proof.
  intros Hc Hw. unfold poll. split.
  - apply each_returns. intros t. destruct (Hw t) as (stopped & opened & H). eexists. exists stopped, opened. by split.
  - intros out Ho. apply each_in_order in Ho; [|lia]. eapply Forall2_impl; [|exact Ho]. intros t o. apply polls_ok.
Qed.
End poll.

(** A device that answers with the small switch's variables, two at a time. *)
Definition small_answers (c : Oid) : Answers :=
  match after (small_switch 9) c with [] => [(c, Missing)] | rest => take 2 rest end.
#[local] Instance small_device : Device := {|
  device := unit;
  get_many := fun os s => (s, Ok (List.filter (fun e : Oid * SnmpValue => existsb (fun o => bool_decide (o = fst e)) os) (small_switch 9)));
  next_after := fun c _ s => (s, Ok (small_answers c));
  past_deadline := fun s => (s, false);
  poll_stopped := fun s => (s, false) |}.

Definition two_targets : SnmpCollector :=
  mkSnmp (lit "core") [mkTarget (lit "10.0.0.1") (lit "10.0.0.1") 161; mkTarget (lit "10.0.0.2") (lit "10.0.0.2") 161]
    (V2c (lit "/dev/null")) (from_secs 900) (from_secs 1) 2.
Definition small_world (t : Target) (stopped : bool) (opened : result unit bytes) : Prop := stopped = false /\ opened = Ok tt.

Lemma poll_reports_every_target_witness :
  exists out, poll (D := small_device) (fun c => c) small_world two_targets out /\ length out = 2%nat /\
              Forall2 (outcome_ok (fun c => c)) (snmp_targets two_targets) out.
Proof.
  destruct (poll_reports_every_target (D := small_device) (fun c => c) small_world two_targets) as [[out Ho] Hall].
  - vm_compute. discriminate.
  - intros t. exists false, (Ok tt). done.
  - exists out. split_and!; [exact Ho|symmetry; apply (Forall2_length (Hall out Ho))|by apply Hall].
Defined.

(** The device's switch is the one the answers describe. *)
Example small_device_is_read :
  poll_target (D := small_device) (fun c => c) (Ok tt) (lit "10.0.0.1") 90 = switch (fun c => c) (lit "10.0.0.1") (small_switch 9) 90.
Proof. vm_compute. reflexivity. Qed.
