(* ===== verification/PduMibs.v ===== *)
(** * power/pdu/mibs.rs and power/pdu/mod.rs: a PDU's identity and readings

    The vendor's mapping is chosen by the device's [sysObjectID]; both mappings read
    the tables of one unit.  A reading's value is an integer the device answered,
    scaled as its MIB says, in binary64. *)

From Stdlib Require Import String SpecFloat.
From S2P Require Import Prelude Text Floats BTree Payload PowerCollector SnmpWalk SnmpMibs.

#[local] Set Warnings "-notation-overridden".

Definition MAPPING_VERSION : Z := 1.
Definition SYS_OBJECT_ID : Oid := [1; 3; 6; 1; 2; 1; 1; 2; 0].
Definition SCALARS : list Oid :=
  [SYS_OBJECT_ID; SYS_NAME].
Definition RARITAN : Oid := [1; 3; 6; 1; 4; 1; 13742].
Definition APC : Oid := [1; 3; 6; 1; 4; 1; 318].
Definition MAX_READINGS : Z := 1000.
Definition PX_MANUFACTURER : Oid := [1; 3; 6; 1; 4; 1; 13742; 6; 3; 2; 1; 1; 2].
Definition PX_MODEL : Oid := [1; 3; 6; 1; 4; 1; 13742; 6; 3; 2; 1; 1; 3].
Definition PX_SERIAL : Oid := [1; 3; 6; 1; 4; 1; 13742; 6; 3; 2; 1; 1; 4].
Definition PX_INLET_LABEL : Oid := [1; 3; 6; 1; 4; 1; 13742; 6; 3; 3; 3; 1; 2].
Definition PX_INLET_POLE_LINE : Oid := [1; 3; 6; 1; 4; 1; 13742; 6; 3; 3; 5; 1; 1].
Definition PX_INLET_DIGITS : Oid := [1; 3; 6; 1; 4; 1; 13742; 6; 3; 3; 4; 1; 7].
Definition PX_INLET_POLE_DIGITS : Oid := [1; 3; 6; 1; 4; 1; 13742; 6; 3; 3; 6; 1; 7].
Definition PX_OUTLET_LABEL : Oid := [1; 3; 6; 1; 4; 1; 13742; 6; 3; 5; 3; 1; 2].
Definition PX_OUTLET_DIGITS : Oid := [1; 3; 6; 1; 4; 1; 13742; 6; 3; 5; 4; 1; 7].
Definition PX_INLET_AVAILABLE : Oid := [1; 3; 6; 1; 4; 1; 13742; 6; 5; 2; 3; 1; 2].
Definition PX_INLET_STATE : Oid := [1; 3; 6; 1; 4; 1; 13742; 6; 5; 2; 3; 1; 3].
Definition PX_INLET_VALUE : Oid := [1; 3; 6; 1; 4; 1; 13742; 6; 5; 2; 3; 1; 4].
Definition PX_INLET_POLE_AVAILABLE : Oid := [1; 3; 6; 1; 4; 1; 13742; 6; 5; 2; 4; 1; 2].
Definition PX_INLET_POLE_STATE : Oid := [1; 3; 6; 1; 4; 1; 13742; 6; 5; 2; 4; 1; 3].
Definition PX_INLET_POLE_VALUE : Oid := [1; 3; 6; 1; 4; 1; 13742; 6; 5; 2; 4; 1; 4].
Definition PX_OUTLET_AVAILABLE : Oid := [1; 3; 6; 1; 4; 1; 13742; 6; 5; 4; 3; 1; 2].
Definition PX_OUTLET_STATE : Oid := [1; 3; 6; 1; 4; 1; 13742; 6; 5; 4; 3; 1; 3].
Definition PX_OUTLET_VALUE : Oid := [1; 3; 6; 1; 4; 1; 13742; 6; 5; 4; 3; 1; 4].
Definition RARITAN_COLUMNS : list Oid :=
  [PX_MANUFACTURER; PX_MODEL; PX_SERIAL; PX_INLET_LABEL; PX_INLET_POLE_LINE; PX_INLET_DIGITS;
   PX_INLET_POLE_DIGITS; PX_OUTLET_LABEL; PX_OUTLET_DIGITS; PX_INLET_AVAILABLE;
   PX_INLET_STATE; PX_INLET_VALUE; PX_INLET_POLE_AVAILABLE; PX_INLET_POLE_STATE;
   PX_INLET_POLE_VALUE; PX_OUTLET_AVAILABLE; PX_OUTLET_STATE; PX_OUTLET_VALUE].
Definition PX_RMS_CURRENT : Z := 1.
Definition PX_ACTIVE_POWER : Z := 5.
Definition PX_APPARENT_POWER : Z := 6.
Definition PX_POWER_FACTOR : Z := 7.
Definition PX_ON_OFF : Z := 14.
Definition PX_STATE_UNAVAILABLE : Z := (-1).
Definition PX_STATE_ON : Z := 7.
Definition PX_STATE_OFF : Z := 8.
Definition TRUTH_TRUE : Z := 1.
Definition APC_IDENT_MODULE : Oid := [1; 3; 6; 1; 4; 1; 318; 1; 1; 26; 2; 1; 2].
Definition APC_IDENT_MODEL : Oid := [1; 3; 6; 1; 4; 1; 318; 1; 1; 26; 2; 1; 8].
Definition APC_IDENT_SERIAL : Oid := [1; 3; 6; 1; 4; 1; 318; 1; 1; 26; 2; 1; 9].
Definition APC_DEVICE_MODULE : Oid := [1; 3; 6; 1; 4; 1; 318; 1; 1; 26; 4; 3; 1; 2].
Definition APC_DEVICE_POWER : Oid := [1; 3; 6; 1; 4; 1; 318; 1; 1; 26; 4; 3; 1; 5].
Definition APC_DEVICE_APPARENT_POWER : Oid := [1; 3; 6; 1; 4; 1; 318; 1; 1; 26; 4; 3; 1; 16].
Definition APC_PHASE_MODULE : Oid := [1; 3; 6; 1; 4; 1; 318; 1; 1; 26; 6; 3; 1; 2].
Definition APC_PHASE_NUMBER : Oid := [1; 3; 6; 1; 4; 1; 318; 1; 1; 26; 6; 3; 1; 3].
Definition APC_PHASE_CURRENT : Oid := [1; 3; 6; 1; 4; 1; 318; 1; 1; 26; 6; 3; 1; 5].
Definition APC_METERED_MODULE : Oid := [1; 3; 6; 1; 4; 1; 318; 1; 1; 26; 9; 4; 3; 1; 2].
Definition APC_METERED_NUMBER : Oid := [1; 3; 6; 1; 4; 1; 318; 1; 1; 26; 9; 4; 3; 1; 4].
Definition APC_METERED_CURRENT : Oid := [1; 3; 6; 1; 4; 1; 318; 1; 1; 26; 9; 4; 3; 1; 6].
Definition APC_METERED_POWER : Oid := [1; 3; 6; 1; 4; 1; 318; 1; 1; 26; 9; 4; 3; 1; 7].
Definition APC_SWITCHED_MODULE : Oid := [1; 3; 6; 1; 4; 1; 318; 1; 1; 26; 9; 2; 3; 1; 2].
Definition APC_SWITCHED_NUMBER : Oid := [1; 3; 6; 1; 4; 1; 318; 1; 1; 26; 9; 2; 3; 1; 4].
Definition APC_SWITCHED_STATE : Oid := [1; 3; 6; 1; 4; 1; 318; 1; 1; 26; 9; 2; 3; 1; 5].
Definition APC_COLUMNS : list Oid :=
  [APC_IDENT_MODULE; APC_IDENT_MODEL; APC_IDENT_SERIAL; APC_DEVICE_MODULE; APC_DEVICE_POWER;
   APC_DEVICE_APPARENT_POWER; APC_PHASE_MODULE; APC_PHASE_NUMBER; APC_PHASE_CURRENT;
   APC_METERED_MODULE; APC_METERED_NUMBER; APC_METERED_CURRENT; APC_METERED_POWER;
   APC_SWITCHED_MODULE; APC_SWITCHED_NUMBER; APC_SWITCHED_STATE].

Inductive Vendor := Raritan | Apc.

(** [Vendor::detect]. *)
Definition detect (a : Answers) : option Vendor :=
  match scalar a SYS_OBJECT_ID with
  | Some (ObjectId o) => if starts_with RARITAN o then Some Raritan else if starts_with APC o then Some Apc else None
  | _ => None
  end.
Definition columns (v : Vendor) : list Oid := match v with Raritan => RARITAN_COLUMNS | Apc => APC_COLUMNS end.
Definition mapping_of (v : Vendor) : bytes := match v with Raritan => lit "raritan_pdu2" | Apc => lit "apc_rpdu2" end.

Record Pdu := mkPdu {
  pdu_mapping : bytes; pdu_vendor : option bytes; pdu_model : option bytes; serial_number : bytes;
  hostname : option bytes; pdu_readings : list Reading }.

(** ** Tables *)

(** [rows]. *)
Definition rows (a : Answers) (c prefix : Oid) : Answers :=
  bt_of_list (omap (fun e : Oid * SnmpValue => option_map (fun rest => (rest, snd e)) (strip_prefix prefix (fst e))) (column a c)).

(** [by_first]. *)
Definition by_first {T} (m : Answers) (read : SnmpValue -> option T) : list (Z * T) :=
  bt_of_list (omap (fun e : Oid * SnmpValue => match fst e with [i] => option_map (fun t => (i, t)) (read (snd e)) | _ => None end) m).

(** ** Raritan PDU2-MIB *)

Record PxMeasurement := mkPx { px_state : option Z; px_raw : option Z }.

Definition px_sensors (a : Answers) (available state value digits : Oid) : list (Oid * PxMeasurement * option Z) :=
  omap (fun e : Oid * SnmpValue =>
          if bool_decide (integer (snd e) = Some TRUTH_TRUE) then
            let measured := mkPx (field integer (rows a state [1]) (fst e)) (field integer (rows a value [1]) (fst e)) in
            let d := let+ z := field integer (rows a digits [1]) (fst e) in if in_u 32 z then Some z else None in
            Some (fst e, measured, d)
          else None) (rows a available [1]).

Definition px_quantity (t : Z) : option bytes :=
  if t =? PX_RMS_CURRENT then Some (lit "current")
  else if t =? PX_ACTIVE_POWER then Some (lit "real_power")
  else if t =? PX_APPARENT_POWER then Some (lit "apparent_power")
  else if t =? PX_POWER_FACTOR then Some (lit "power_factor")
  else None.

(** [10_f64.powi(digits)] is exact up to six digits. *)
Definition px_value (m : PxMeasurement) (digits : option Z) : Measurement :=
  match px_state m, px_raw m, digits with
  | Some state, Some value, Some d =>
      if negb (state =? PX_STATE_UNAVAILABLE) && (d <=? 6) then Value (f64_div (f64_of_Z value) (f64_of_Z (10 ^ d))) else FailedRead
  | _, _, _ => FailedRead
  end.

Definition px_on_off (m : PxMeasurement) : Measurement :=
  match px_state m with
  | Some s => if s =? PX_STATE_ON then State (lit "on") else if s =? PX_STATE_OFF then State (lit "off") else FailedRead
  | None => FailedRead
  end.

Section raritan.
Variable a : Answers.

Definition first (c : Oid) : Answers := rows a c [1].
Definition one (c : Oid) : option bytes := field text (first c) [].

Definition inlet_labels : list (Z * bytes) := by_first (first PX_INLET_LABEL) text.
Definition measured_inlets : list Z :=
  map fst (bt_of_list (omap (fun e : Oid * SnmpValue => match fst e with i :: _ => Some (i, tt) | [] => None end) (first PX_INLET_AVAILABLE))).
Definition several_inlets : bool := Nat.ltb 1 (Nat.max (length inlet_labels) (length measured_inlets)).
Definition or_default (o : option bytes) (d : bytes) : bytes := match o with Some b => b | None => d end.
Definition inlet_component (inlet : Z) : option (bytes * bytes) :=
  if several_inlets then Some (lit "power_port", or_default (bt_get inlet inlet_labels) (lit "I" ++ show_u64 inlet)) else None.

Definition inlet_sensor (inlet : Z) : bytes := lit "inlet/" ++ show_u64 inlet.
Definition inlet_reading (s : Oid * PxMeasurement * option Z) : option Reading :=
  let '(index, measured, digits) := s in
  match index with
  | [inlet; t] =>
      let+ q := px_quantity t in
      Some (mkReading (inlet_sensor inlet) (lit "feed") q (inlet_component inlet) None (px_value measured digits))
  | _ => None
  end.

Definition pole_lines : Answers := first PX_INLET_POLE_LINE.
Definition three_phase (inlet : Z) : bool :=
  forallb (fun line => existsb (fun e : Oid * SnmpValue => bool_decide (head (fst e) = Some inlet) && bool_decide (integer (snd e) = Some line)) pole_lines) [1; 2; 3].

Definition leg_of (line : option Z) : option bytes :=
  match line with
  | Some z => if z =? 1 then Some (lit "a") else if z =? 2 then Some (lit "b") else if z =? 3 then Some (lit "c") else None
  | None => None
  end.

Definition pole_sensor (inlet pole : Z) : bytes := lit "inlet/" ++ show_u64 inlet ++ lit "/pole/" ++ show_u64 pole.
Definition pole_reading (s : Oid * PxMeasurement * option Z) : option Reading :=
  let '(index, measured, digits) := s in
  match index with
  | [inlet; pole; t] =>
      let+ l := leg_of (field integer pole_lines [inlet; pole]) in
      if negb (t =? PX_RMS_CURRENT) || negb (three_phase inlet) then None
      else Some (mkReading (pole_sensor inlet pole) (lit "leg") (lit "current") (inlet_component inlet) (Some l) (px_value measured digits))
  | _ => None
  end.

Definition outlet_labels : list (Z * bytes) := by_first (first PX_OUTLET_LABEL) text.
Definition outlet_sensor (outlet : Z) : bytes := lit "outlet/" ++ show_u64 outlet.
Definition outlet_reading (s : Oid * PxMeasurement * option Z) : option Reading :=
  let '(index, measured, digits) := s in
  match index with
  | [outlet; t] =>
      let name := or_default (bt_get outlet outlet_labels) (show_u64 outlet) in
      let+ qm := if t =? PX_ON_OFF then Some (lit "state", px_on_off measured)
                 else option_map (fun q => (q, px_value measured digits)) (px_quantity t) in
      Some (mkReading (outlet_sensor outlet) (lit "outlet") (fst qm) (Some (lit "power_outlet", name)) None (snd qm))
  | _ => None
  end.

Definition raritan_readings : list Reading :=
  omap inlet_reading (px_sensors a PX_INLET_AVAILABLE PX_INLET_STATE PX_INLET_VALUE PX_INLET_DIGITS) ++
  omap pole_reading (px_sensors a PX_INLET_POLE_AVAILABLE PX_INLET_POLE_STATE PX_INLET_POLE_VALUE PX_INLET_POLE_DIGITS) ++
  omap outlet_reading (px_sensors a PX_OUTLET_AVAILABLE PX_OUTLET_STATE PX_OUTLET_VALUE PX_OUTLET_DIGITS).

Definition raritan : result Pdu MapError :=
  match one PX_SERIAL with
  | None => Err (lit "the PDU answered PDU2-MIB without a serial number")
  | Some serial => Ok (mkPdu (mapping_of Raritan) (one PX_MANUFACTURER) (one PX_MODEL) serial
                         (let+ v := scalar a SYS_NAME in text v) raritan_readings)
  end.
End raritan.

(** ** APC rPDU2 *)

(** [i64]'s [Display]. *)
Definition show_i64 (z : Z) : bytes := if z <? 0 then 45 :: show_u64 (- z) else show_u64 z.

Section apc.
Variable a : Answers.

(** The identification row with the least number. *)
Definition host : option (Z * Z) :=
  fold_left (fun best e => match best with Some b => if fst e <? fst b then Some e else best | None => Some e end)
    (omap (fun e : Oid * SnmpValue => match fst e with [row] => option_map (fun m => (row, m)) (integer (snd e)) | _ => None end) (column a APC_IDENT_MODULE)) None.

Definition row_value (c : Oid) (row : Z) : option SnmpValue :=
  find_map (fun e : Oid * SnmpValue => if bool_decide (fst e = [row]) then Some (snd e) else None) (column a c).
Definition row_integer (c : Oid) (row : Z) : option Z := let+ v := row_value c row in integer v.

Definition apc_rows (c : Oid) (module : Z) : list Z :=
  omap (fun e : Oid * SnmpValue => match fst e with [row] => if bool_decide (integer (snd e) = Some module) then Some row else None | _ => None end) (column a c).

Definition apc_value (c : Oid) (row : Z) (multiplier divisor : Z) : option Measurement :=
  match row_value c row with
  | None => None
  | Some v => match integer v with
              | Some z => if z =? -1 then None
                          else if 0 <=? z then Some (Value (f64_div (f64_mul (f64_of_Z z) (f64_of_Z multiplier)) (f64_of_Z divisor)))
                          else Some FailedRead
              | None => Some FailedRead
              end
  end.

Definition ident_value (c : Oid) : option bytes := let+ h := host in let+ v := row_value c (fst h) in text v.

Definition apc_device (module : Z) : list Reading :=
  match apc_rows APC_DEVICE_MODULE module with
  | [] => []
  | row :: _ =>
      omap (fun cq : Oid * bytes => option_map (fun m => mkReading (lit "device") (lit "feed") (snd cq) None None m) (apc_value (fst cq) row 10 1))
        [(APC_DEVICE_POWER, lit "real_power"); (APC_DEVICE_APPARENT_POWER, lit "apparent_power")]
  end.

Definition phases (module : Z) : list (Z * Z) :=
  bt_of_list (omap (fun row => option_map (fun p => (p, row)) (row_integer APC_PHASE_NUMBER row)) (apc_rows APC_PHASE_MODULE module)).

(** Boundary and leg of a phase, if it is one of the PDU's feeds. *)
Definition phase_place (phases : list (Z * Z)) (phase : Z) : option (bytes * option bytes) :=
  let three := forallb (fun p => is_some (bt_get p phases)) [1; 2; 3] in
  if three : bool then
    if phase =? 1 then Some (lit "leg", Some (lit "a")) else if phase =? 2 then Some (lit "leg", Some (lit "b"))
    else if phase =? 3 then Some (lit "leg", Some (lit "c")) else None
  else if (phase =? 1) && bool_decide (length phases = 1%nat) then Some (lit "feed", None) else None.

Definition phase_reading (phases : list (Z * Z)) (e : Z * Z) : option Reading :=
  let+ place := phase_place phases (fst e) in
  let+ m := apc_value APC_PHASE_CURRENT (snd e) 1 10 in
  Some (mkReading (lit "phase/" ++ show_i64 (fst e)) (fst place) (lit "current") None (snd place) m).

Definition apc_outlet (outlet : Z) (q : bytes) (m : Measurement) : Reading :=
  mkReading (lit "outlet/" ++ show_i64 outlet) (lit "outlet") q (Some (lit "power_outlet", show_i64 outlet)) None m.

Definition metered_reading (row : Z) (c : Oid) (q : bytes) (multiplier divisor : Z) : option Reading :=
  let+ outlet := row_integer APC_METERED_NUMBER row in
  option_map (apc_outlet outlet q) (apc_value c row multiplier divisor).
Definition metered (module : Z) : list Reading :=
  concat (map (fun row => omap (fun o => o) [metered_reading row APC_METERED_POWER (lit "real_power") 1 1;
                                             metered_reading row APC_METERED_CURRENT (lit "current") 1 10])
            (apc_rows APC_METERED_MODULE module)).

Definition switched_reading (row : Z) : option Reading :=
  let+ outlet := row_integer APC_SWITCHED_NUMBER row in
  let m := match row_integer APC_SWITCHED_STATE row with
           | Some z => if z =? 1 then State (lit "off") else if z =? 2 then State (lit "on") else FailedRead
           | None => FailedRead
           end in
  Some (apc_outlet outlet (lit "state") m).

Definition apc_readings (module : Z) : list Reading :=
  apc_device module ++ omap (phase_reading (phases module)) (phases module) ++ metered module ++
  omap switched_reading (apc_rows APC_SWITCHED_MODULE module).

Definition apc : result Pdu MapError :=
  match ident_value APC_IDENT_SERIAL with
  | None => Err (lit "the PDU answered rPDU2 without a serial number")
  | Some serial =>
      let module := match host with Some h => snd h | None => 1 end in
      Ok (mkPdu (mapping_of Apc) (Some (lit "APC")) (ident_value APC_IDENT_MODEL) serial
            (let+ v := scalar a SYS_NAME in text v) (apc_readings module))
  end.
End apc.

(** ** The PDU *)

Definition pdu (v : Vendor) (a : Answers) : result Pdu MapError :=
  let? p := match v with Raritan => raritan a | Apc => apc a end in
  if MAX_READINGS <? zlength (pdu_readings p) then Err (lit "the PDU reported more than 1000 readings") else Ok p.

(** power/pdu/mod.rs: [device]. *)
Definition device_of (p : Pdu) : PowerCollector.Device :=
  mkDevice (pdu_mapping p) MAPPING_VERSION
    (mkResource KPdu None (mkCollectorIdentifiers (hostname p) (Some (serial_number p)) None [])
       (Some (mkHostAttributes None None (pdu_vendor p) (pdu_model p) None)) None None)
    (pdu_readings p).

(** power/pdu/mod.rs: [poll_target], the two reads on one session. *)
Section poll.
Context {D : SnmpWalk.Device}.

Definition read_pdu (session : device) : result Pdu TargetError :=
  match read SCALARS [] session with
  | (_, Err (PollError m)) => Err (TUnreachable m)
  | (_, Err OutOfFuel) => Err (TUnreachable [])
  | (session, Ok identity) =>
      match detect identity with
      | None => Err (TUnsupported (lit "the device answers neither Raritan PDU2-MIB nor APC PowerNet-MIB rPDU2"))
      | Some v =>
          match snd (read [] (columns v) session) with
          | Err (PollError m) => Err (TUnreachable m)
          | Err OutOfFuel => Err (TUnreachable [])
          | Ok answers => map_err TUnsupported (pdu v (add_all identity answers))
          end
      end
  end.
Definition poll_target (opened : result device bytes) : result Pdu TargetError :=
  match opened with Err m => Err (TUnreachable m) | Ok session => read_pdu session end.

(** [poll] on one target. *)
Definition pdu_outcome (address : bytes) (stopped : bool) (opened : result device bytes) (now : Z) : Outcome :=
  mkPolled address now
    (if stopped then Err (TUnreachable (lit "polling was cancelled"))
     else match poll_target opened with Ok p => Ok (device_of p) | Err e => Err e end).
End poll.

(** ** Every reading is what the device answered *)

(** The device answered the integer [z] for a variable. *)
Definition answered (a : Answers) (o : Oid) (z : Z) : Prop := exists v, (o, v) ∈ a /\ integer v = Some z.

Lemma drop_while_elem {X} (p : X -> bool) l x : x ∈ drop_while p l -> x ∈ l.
Proof. destruct (drop_while_suffix p l) as [d E]. intros H. rewrite E. set_solver. Qed.
Lemma take_while_elem {X} (p : X -> bool) l x : x ∈ take_while p l -> x ∈ l /\ p x = true.
Proof.
  induction l as [|y l IH]; cbn; [set_solver|]. destruct (p y) eqn:E; [|set_solver]. intros [->|H]%elem_of_cons; [set_solver|]. destruct (IH H). set_solver.
Qed.

Lemma column_elem a c e : e ∈ column a c -> (c ++ fst e, snd e) ∈ a.
Proof.
  unfold column. intros ([o v] & Hin & E)%list_elem_of_omap. cbn [fst snd] in E. destruct (_ && _); [|done]. injection E as <-. cbn [fst snd].
  apply take_while_elem in Hin as [Hin Hp]. apply drop_while_elem in Hin. unfold prefixed in Hp. cbn [fst] in Hp. apply starts_with_spec in Hp as [r ->].
  by rewrite drop_app_length.
Qed.

Lemma rows_elem a c p e : e ∈ rows a c p -> (c ++ p ++ fst e, snd e) ∈ a.
Proof.
  unfold rows. intros H%bt_of_list_elem. apply list_elem_of_omap in H as ([o v] & Hin & E). cbn [fst snd] in E.
  destruct (strip_prefix p o) as [r|] eqn:Es; [|done]. injection E as <-. cbn [fst snd]. apply column_elem in Hin. cbn [fst snd] in Hin.
  apply strip_prefix_Some in Es. by rewrite Es in Hin.
Qed.

Lemma rows_integer a c p i z : field integer (rows a c p) i = Some z -> answered a (c ++ p ++ i) z.
Proof. intros (v & Hg & Hv)%field_Some. apply bt_get_elem, rows_elem in Hg. by exists v. Qed.

Lemma row_value_elem a c row v : row_value a c row = Some v -> (c ++ [row], v) ∈ a.
Proof.
  unfold row_value. intros H. assert (([row], v) ∈ column a c) as Hin; [|by apply column_elem in Hin].
  induction (column a c) as [|e l IH]; [done|]. cbn [find_map] in H. destruct (bool_decide (fst e = [row])) eqn:E.
  - apply bool_decide_eq_true in E. injection H as <-. destruct e. cbn in *. subst. set_solver.
  - apply elem_of_cons. right. by apply IH.
Qed.

(** A PDU2-MIB measurement of the sensor at [index] of unit 1. *)
Definition px_honest (a : Answers) (state value digits : Oid) (index : Oid) (m : Measurement) : Prop :=
  match m with
  | Value f => exists s z d, answered a (state ++ 1 :: index) s /\ s <> PX_STATE_UNAVAILABLE /\ answered a (value ++ 1 :: index) z /\
                             answered a (digits ++ 1 :: index) d /\ 0 <= d <= 6 /\ f = f64_div (f64_of_Z z) (f64_of_Z (10 ^ d))
  | State t => exists s, answered a (state ++ 1 :: index) s /\ (s = PX_STATE_ON /\ t = lit "on" \/ s = PX_STATE_OFF /\ t = lit "off")
  | FailedRead => True
  end.

Lemma px_sensors_honest a available state value digits index m d :
  (index, m, d) ∈ px_sensors a available state value digits ->
  answered a (available ++ 1 :: index) TRUTH_TRUE /\ px_honest a state value digits index (px_value m d) /\ px_honest a state value digits index (px_on_off m).
Proof.
  unfold px_sensors. intros ([o v] & Hin & E)%list_elem_of_omap. cbn [fst snd] in E. destruct (bool_decide _) eqn:Et; [|done].
  apply bool_decide_eq_true in Et. injection E as <- <- <-. apply rows_elem in Hin. cbn [fst snd app] in Hin. split; [by exists v|].
  assert (forall c z, field integer (rows a c [1]) o = Some z -> answered a (c ++ 1 :: o) z) as Hr by (intros c z Hc; by apply rows_integer in Hc).
  split.
  - unfold px_value. cbn [px_state px_raw]. destruct (field integer (rows a state [1]) o) as [s|] eqn:Es; [|done].
    destruct (field integer (rows a value [1]) o) as [z|] eqn:Ez; [|done].
    destruct (field integer (rows a digits [1]) o) as [d|] eqn:Ed; [|done]. cbn [mbind option_bind].
    destruct (in_u 32 d) eqn:Eu; [|done]. destruct (negb _ && _) eqn:Eb; [|done]. apply andb_true_iff in Eb as [E1 E2].
    exists s, z, d. unfold in_u in Eu. split_and!; auto; lia.
  - unfold px_on_off. cbn [px_state]. destruct (field integer (rows a state [1]) o) as [s|] eqn:Es; [|done].
    destruct (Z.eqb_spec s PX_STATE_ON) as [->|]; [eexists; split; [by apply Hr|by left]|].
    destruct (Z.eqb_spec s PX_STATE_OFF) as [->|]; [eexists; split; [by apply Hr|by right]|done].
Qed.

(** A reading of the Raritan mapping: of a sensor of unit 1 that is present, with its
    value; a leg is reported only of an inlet with all three lines. *)
Definition raritan_honest (a : Answers) (r : Reading) : Prop :=
  (exists available state value digits index,
     (available, state, value, digits) ∈
       [(PX_INLET_AVAILABLE, PX_INLET_STATE, PX_INLET_VALUE, PX_INLET_DIGITS);
        (PX_INLET_POLE_AVAILABLE, PX_INLET_POLE_STATE, PX_INLET_POLE_VALUE, PX_INLET_POLE_DIGITS);
        (PX_OUTLET_AVAILABLE, PX_OUTLET_STATE, PX_OUTLET_VALUE, PX_OUTLET_DIGITS)] /\
     answered a (available ++ 1 :: index) TRUTH_TRUE /\ px_honest a state value digits index (measurement r)) /\
  (leg r <> None -> exists inlet, forall line, line ∈ [1; 2; 3] -> exists poles, answered a (PX_INLET_POLE_LINE ++ 1 :: inlet :: poles) line).

Lemma raritan_readings_honest a : Forall (raritan_honest a) (raritan_readings a).
Proof.
  unfold raritan_readings. apply list.Forall_forall. intros r Hr. rewrite !elem_of_app in Hr. destruct Hr as [Hr|[Hr|Hr]];
    apply list_elem_of_omap in Hr as ([[index m] d] & Hin & E); apply px_sensors_honest in Hin as (H1 & H2 & H3).
  - destruct index as [|inlet [|t [|]]]; try done. cbn [inlet_reading] in E. destruct (px_quantity t); [|done]. injection E as <-.
    split; [|done]. do 5 eexists. split_and!; [left|exact H1|exact H2].
  - destruct index as [|inlet [|pole [|t [|]]]]; try done. cbn [pole_reading] in E. destruct (leg_of _) as [l|]; [|done]. cbn [mbind option_bind] in E.
    destruct (_ || _) eqn:Eb; [done|]. injection E as <-. split; [do 5 eexists; split_and!; [right; left|exact H1|exact H2]|].
    intros _. apply orb_false_iff in Eb as [_ E3]. apply negb_false_iff in E3. exists inlet. intros line Hl. unfold three_phase in E3.
    rewrite forallb_forall in E3. specialize (E3 line (proj1 (list_elem_of_In _ _) Hl)). apply existsb_exists in E3 as ([o v] & Ho & Hb).
    apply andb_true_iff in Hb as [Hb1 Hb2]. apply bool_decide_eq_true in Hb1, Hb2. cbn [fst snd] in *. apply list_elem_of_In, rows_elem in Ho. cbn [fst snd app] in Ho.
    destruct o as [|x poles]; [done|]. cbn in Hb1. injection Hb1 as ->. exists poles. by exists v.
  - destruct index as [|outlet [|t [|]]]; try done. cbn [outlet_reading] in E. destruct (t =? PX_ON_OFF).
    + injection E as <-. split; [|done]. do 5 eexists. split_and!; [right; right; left|exact H1|exact H3].
    + destruct (px_quantity t); [|done]. injection E as <-. split; [|done]. do 5 eexists. split_and!; [right; right; left|exact H1|exact H2].
Qed.

(** A reading of the APC mapping: a non-negative integer the device answered, in the
    unit its column has. *)
Definition apc_honest (a : Answers) (r : Reading) : Prop :=
  match measurement r with
  | Value f => exists c row z multiplier divisor, answered a (c ++ [row]) z /\ 0 <= z /\
      (c, multiplier, divisor) ∈ [(APC_DEVICE_POWER, 10, 1); (APC_DEVICE_APPARENT_POWER, 10, 1); (APC_PHASE_CURRENT, 1, 10);
                                  (APC_METERED_POWER, 1, 1); (APC_METERED_CURRENT, 1, 10)] /\
      f = f64_div (f64_mul (f64_of_Z z) (f64_of_Z multiplier)) (f64_of_Z divisor)
  | State t => exists row s, answered a (APC_SWITCHED_STATE ++ [row]) s /\ (s = 1 /\ t = lit "off" \/ s = 2 /\ t = lit "on")
  | FailedRead => True
  end.

Lemma apc_value_honest a c row multiplier divisor m r :
  (c, multiplier, divisor) ∈ [(APC_DEVICE_POWER, 10, 1); (APC_DEVICE_APPARENT_POWER, 10, 1); (APC_PHASE_CURRENT, 1, 10);
                              (APC_METERED_POWER, 1, 1); (APC_METERED_CURRENT, 1, 10)] ->
  apc_value a c row multiplier divisor = Some m -> measurement r = m -> apc_honest a r.
Proof.
  intros Hc. unfold apc_value. destruct (row_value a c row) as [v|] eqn:Ev; [|done]. apply row_value_elem in Ev.
  unfold apc_honest. destruct (integer v) as [z|] eqn:Ez; [|by intros [= <-] ->]. destruct (z =? -1); [done|].
  destruct (Z.leb_spec 0 z); intros [= <-] ->; [|done]. do 5 eexists. split_and!; [by exists v|done|exact Hc|done].
Qed.

Lemma apc_readings_honest a module : Forall (apc_honest a) (apc_readings a module).
Proof.
  unfold apc_readings. apply list.Forall_forall. intros r Hr. rewrite !elem_of_app in Hr. destruct Hr as [Hr|[Hr|[Hr|Hr]]].
  - unfold apc_device in Hr. destruct (apc_rows a APC_DEVICE_MODULE module) as [|row rest]; [set_solver|].
    apply list_elem_of_omap in Hr as ([c q] & Hin & E). cbn [fst snd] in E. destruct (apc_value a c row 10 1) as [m|] eqn:Em; [|done]. injection E as <-.
    eapply apc_value_honest with (2 := Em); [set_solver|done].
  - apply list_elem_of_omap in Hr as ([p row] & _ & E). unfold phase_reading in E. destruct (phase_place _ _) as [pl|]; [|done].
    cbn [mbind option_bind fst snd] in E. destruct (apc_value a APC_PHASE_CURRENT row 1 10) as [m|] eqn:Em; [|done]. injection E as <-.
    eapply apc_value_honest with (2 := Em); [set_solver|done].
  - unfold metered in Hr. apply list_elem_of_In, in_concat in Hr as (l & Hl & Hr). apply in_map_iff in Hl as (row & <- & _).
    apply list_elem_of_In, list_elem_of_omap in Hr as (o & Hin & ->).
    assert (forall c q x y, Some r = metered_reading a row c q x y -> exists m, apc_value a c row x y = Some m /\ measurement r = m) as Hm.
    { intros c q x y E. unfold metered_reading in E. destruct (row_integer a APC_METERED_NUMBER row); [|done]. cbn [mbind option_bind] in E.
      destruct (apc_value a c row x y) as [m|]; [|done]. injection E as ->. eauto. }
    apply elem_of_cons in Hin as [Hin|Hin]; [|apply list_elem_of_singleton in Hin]; apply Hm in Hin as (m & Em & E);
      eapply apc_value_honest with (2 := Em) (3 := E); set_solver.
  - apply list_elem_of_omap in Hr as (row & _ & E). unfold switched_reading in E. destruct (row_integer a APC_SWITCHED_NUMBER row) as [o|]; [|done].
    cbn [mbind option_bind] in E. injection E as <-. unfold apc_honest, apc_outlet. cbn [measurement]. unfold row_integer.
    destruct (row_value a APC_SWITCHED_STATE row) as [v|] eqn:Ev; [|done]. apply row_value_elem in Ev. cbn [mbind option_bind].
    destruct (integer v) as [z|] eqn:Ez; [|done].
    destruct (Z.eqb_spec z 1) as [->|]; [exists row, 1; split; [by exists v|by left]|].
    destruct (Z.eqb_spec z 2) as [->|]; [exists row, 2; split; [by exists v|by right]|done].
Qed.

Definition pdu_honest (v : Vendor) (a : Answers) (r : Reading) : Prop := match v with Raritan => raritan_honest a r | Apc => apc_honest a r end.

(** A PDU is reported only with a serial number and at most the readings the
    server takes, and every value in it is an integer the device answered in that
    unit's tables, scaled as the device or its MIB says: a sensor that is absent,
    unavailable or of unknown scale has no value.  On a Raritan PDU a leg is reported
    only of an inlet with all three lines. *)
Theorem pdu_readings_are_answers (v : Vendor) (a : Answers) :
  match pdu v a with
  | Err _ => True
  | Ok p => text_ok (serial_number p) /\ zlength (pdu_readings p) <= MAX_READINGS /\ Forall (pdu_honest v a) (pdu_readings p)
  end.
Proof.
  unfold pdu. destruct v.
  - unfold raritan. destruct (one a PX_SERIAL) as [s|] eqn:Es; [|done]. cbn [result_bind pdu_readings]. destruct (Z.ltb_spec MAX_READINGS (zlength (raritan_readings a))); [done|].
    split_and!; [by apply field_text_ok in Es|done|apply raritan_readings_honest].
  - unfold apc. destruct (ident_value a APC_IDENT_SERIAL) as [s|] eqn:Es; [|done]. cbn [result_bind pdu_readings].
    set (module := match host a with Some h => snd h | None => 1 end).
    destruct (Z.ltb_spec MAX_READINGS (zlength (apc_readings a module))); [done|]. split_and!; [|done|apply apc_readings_honest].
    unfold ident_value in Es. destruct (host a); [|done]. cbn [mbind option_bind] in Es. destruct (row_value _ _ _); [|done]. cbn in Es. by apply text_is_ok in Es.
Qed.

(** ** Series are told apart *)

Definition series_key (r : Reading) : bytes * bytes := (sensor r, quantity r).

Lemma series_key_eq r r' : series_key r = series_key r' -> sensor r = sensor r' /\ quantity r = quantity r'.
Proof. unfold series_key. intros E. split; [exact (f_equal fst E)|exact (f_equal snd E)]. Qed.

Lemma omap_keys_nodup {X K} (idx : X -> K) (f : X -> option Reading) l :
  NoDup (map idx l) ->
  (forall x y r r', x ∈ l -> y ∈ l -> f x = Some r -> f y = Some r' -> sensor r = sensor r' -> quantity r = quantity r' -> idx x = idx y) ->
  NoDup (map series_key (omap f l)).
Proof.
  induction l as [|x l IH]; [constructor|]. cbn [map omap list_omap]. intros [Hx Hl]%list.NoDup_cons Hinj.
  assert (NoDup (map series_key (omap f l))) as Hrest by (apply IH; [done|]; intros; eapply Hinj; try eassumption; set_solver).
  destruct (f x) as [r|] eqn:E; [|done]. cbn [map]. apply list.NoDup_cons. split; [|done].
  intros (r' & Hk & Hr')%list_elem_of_fmap_1. apply list_elem_of_omap in Hr' as (y & Hy & Ey). apply Hx.
  apply series_key_eq in Hk as [Hs Hq]. rewrite (Hinj x y r r'); [by apply list_elem_of_fmap_2|set_solver|set_solver|done|done|done|done].
Qed.

Definition index_of (s : Oid * PxMeasurement * option Z) : Oid := fst (fst s).

Lemma px_sensors_nodup a available state value digits : NoDup (map index_of (px_sensors a available state value digits)).
Proof.
  unfold px_sensors. pose proof (bt_sorted_nodup (rows a available [1]) (bt_of_list_sorted _)) as Hn.
  induction (rows a available [1]) as [|e l IH]; [constructor|]. cbn [map omap list_omap] in *. apply list.NoDup_cons in Hn as [He Hn].
  destruct (bool_decide _); [|by apply IH]. cbn [map]. apply list.NoDup_cons. split; [|by apply IH].
  intros (s & Hs & Hin)%list_elem_of_fmap_1. apply list_elem_of_omap in Hin as (e' & Hin & E). destruct (bool_decide _); [|done].
  injection E as <-. cbn in Hs. apply He. rewrite Hs. by apply list_elem_of_fmap_2.
Qed.

(** Identifiers are lists of 32-bit numbers. *)
Definition oids_ok (a : Answers) : Prop := Forall (fun e : Oid * SnmpValue => Forall (fun n => 0 <= n < 2 ^ 32) (fst e)) a.

Lemma px_sensors_oids a available state value digits s :
  oids_ok a -> s ∈ px_sensors a available state value digits -> Forall (fun n => 0 <= n < 2 ^ 32) (index_of s).
Proof.
  intros Ho. unfold px_sensors. intros ([o v] & Hin & E)%list_elem_of_omap. destruct (bool_decide _); [|done]. injection E as <-. cbn.
  apply rows_elem in Hin. cbn in Hin. unfold oids_ok in Ho. rewrite list.Forall_forall in Ho. specialize (Ho _ Hin). cbn in Ho.
  apply list.Forall_app in Ho as [_ Ho]. by apply list.Forall_cons in Ho as [_ Ho].
Qed.

Lemma px_quantity_inj t t' q : px_quantity t = Some q -> px_quantity t' = Some q -> t = t'.
Proof.
  unfold px_quantity, PX_RMS_CURRENT, PX_ACTIVE_POWER, PX_APPARENT_POWER, PX_POWER_FACTOR.
  repeat (case_match; [intros [= <-]|]); repeat (case_match; [intros E; first [discriminate E|lia]|]); done.
Qed.

Lemma show_no_slash n : 47 ∉ show_u64 n.
Proof.
  intros H. pose proof (show_u64_digits n) as Hd. rewrite list.Forall_forall in Hd. specialize (Hd 47 H). discriminate.
Qed.

Lemma slash_inj a b r s : 47 ∉ a -> 47 ∉ b -> a ++ 47 :: r = b ++ 47 :: s -> a = b /\ r = s.
Proof.
  revert b. induction a as [|x a IH]; intros [|y b] Ha Hb E; cbn in *; [by injection E|injection E as <- _; set_solver|injection E as -> _; set_solver|].
  injection E as -> E. apply IH in E as [-> ->]; [done|set_solver|set_solver].
Qed.

Lemma show_inj n m : 0 <= n < 2 ^ 32 -> 0 <= m < 2 ^ 32 -> show_u64 n = show_u64 m -> n = m.
Proof. intros Hn Hm. apply show_u64_inj; lia. Qed.

Lemma inlet_sensor_inj n m : 0 <= n < 2 ^ 32 -> 0 <= m < 2 ^ 32 -> inlet_sensor n = inlet_sensor m -> n = m.
Proof. intros Hn Hm E. apply app_inv_head in E. by apply show_inj. Qed.
Lemma outlet_sensor_inj n m : 0 <= n < 2 ^ 32 -> 0 <= m < 2 ^ 32 -> outlet_sensor n = outlet_sensor m -> n = m.
Proof. intros Hn Hm E. apply app_inv_head in E. by apply show_inj. Qed.
Lemma pole_sensor_inj n p m q : 0 <= n < 2 ^ 32 -> 0 <= m < 2 ^ 32 -> 0 <= p < 2 ^ 32 -> 0 <= q < 2 ^ 32 ->
  pole_sensor n p = pole_sensor m q -> n = m /\ p = q.
Proof.
  intros Hn Hm Hp Hq E. unfold pole_sensor in E. apply app_inv_head in E.
  change (lit "/pole/") with (47 :: lit "pole/") in E. cbn [app] in E. apply slash_inj in E as [E1 E2]; [|apply show_no_slash..].
  apply app_inv_head in E2. split; by apply show_inj.
Qed.
Lemma inlet_not_pole n m p : inlet_sensor n <> pole_sensor m p.
Proof.
  unfold inlet_sensor, pole_sensor. intros E. apply app_inv_head in E. apply (show_no_slash n). rewrite E. change (lit "/pole/") with (47 :: lit "pole/"). cbn [app].
  apply elem_of_app. right. apply elem_of_cons. by left.
Qed.

Lemma inlet_keys a : oids_ok a -> NoDup (map series_key (omap (inlet_reading a) (px_sensors a PX_INLET_AVAILABLE PX_INLET_STATE PX_INLET_VALUE PX_INLET_DIGITS))).
Proof.
  intros Ho. apply (omap_keys_nodup index_of); [apply px_sensors_nodup|]. intros [[i m] d] [[j m'] d'] r r' Hx Hy Er Er' Hs Hq.
  apply px_sensors_oids in Hx, Hy; [|done..]. cbn in Hx, Hy |- *. unfold inlet_reading in Er, Er'.
  destruct i as [|n [|t [|]]]; try done. destruct j as [|n' [|t' [|]]]; try done.
  destruct (px_quantity t) as [q|] eqn:Eq; [|done]. destruct (px_quantity t') as [q'|] eqn:Eq'; [|done]. injection Er as <-. injection Er' as <-.
  cbn [sensor quantity] in Hs, Hq. subst q'.
  apply list.Forall_cons in Hx as [? _], Hy as [? _]. apply inlet_sensor_inj in Hs; [|done..]. by rewrite Hs, (px_quantity_inj t t' q).
Qed.

Lemma pole_keys a : oids_ok a ->
  NoDup (map series_key (omap (pole_reading a) (px_sensors a PX_INLET_POLE_AVAILABLE PX_INLET_POLE_STATE PX_INLET_POLE_VALUE PX_INLET_POLE_DIGITS))).
Proof.
  intros Ho. apply (omap_keys_nodup index_of); [apply px_sensors_nodup|]. intros [[i m] d] [[j m'] d'] r r' Hx Hy Er Er' Hs Hq.
  apply px_sensors_oids in Hx, Hy; [|done..]. cbn in Hx, Hy |- *. unfold pole_reading in Er, Er'.
  destruct i as [|n [|p [|t [|]]]]; try done. destruct j as [|n' [|p' [|t' [|]]]]; try done.
  destruct (leg_of (field integer (pole_lines a) [n; p])); [|done]. destruct (leg_of (field integer (pole_lines a) [n'; p'])); [|done]. cbn [mbind option_bind] in Er, Er'.
  destruct (Z.eqb_spec t PX_RMS_CURRENT) as [->|]; [|done]. destruct (Z.eqb_spec t' PX_RMS_CURRENT) as [->|]; [|done]. cbn [negb orb] in Er, Er'.
  destruct (negb (three_phase a n)); [done|]. destruct (negb (three_phase a n')); [done|]. injection Er as <-. injection Er' as <-.
  cbn [sensor quantity] in Hs.
  apply list.Forall_cons in Hx as [? Hx], Hy as [? Hy]. apply list.Forall_cons in Hx as [? _], Hy as [? _]. by apply pole_sensor_inj in Hs as [-> ->].
Qed.

Lemma outlet_keys a : oids_ok a -> NoDup (map series_key (omap (outlet_reading a) (px_sensors a PX_OUTLET_AVAILABLE PX_OUTLET_STATE PX_OUTLET_VALUE PX_OUTLET_DIGITS))).
Proof.
  intros Ho. apply (omap_keys_nodup index_of); [apply px_sensors_nodup|]. intros [[i m] d] [[j m'] d'] r r' Hx Hy Er Er' Hs Hq.
  apply px_sensors_oids in Hx, Hy; [|done..]. cbn in Hx, Hy |- *. unfold outlet_reading in Er, Er'.
  destruct i as [|n [|t [|]]]; try done. destruct j as [|n' [|t' [|]]]; try done. apply list.Forall_cons in Hx as [? _], Hy as [? _].
  assert (forall t q, px_quantity t = Some q -> q <> lit "state") as Hst.
  { intros u q. unfold px_quantity. repeat (destruct (u =? _); [intros [= <-] E; discriminate|]). discriminate. }
  destruct (Z.eqb_spec t PX_ON_OFF) as [->|]; destruct (Z.eqb_spec t' PX_ON_OFF) as [->|]; cbn [mbind option_bind option_map] in Er, Er'.
  - injection Er as <-. injection Er' as <-. cbn [sensor quantity fst snd] in Hs. by apply outlet_sensor_inj in Hs as ->.
  - destruct (px_quantity t') as [q'|] eqn:Eq'; [|done]. injection Er as <-. injection Er' as <-. cbn [sensor quantity fst snd] in Hq. by destruct (Hst t' q').
  - destruct (px_quantity t) as [q|] eqn:Eq; [|done]. injection Er as <-. injection Er' as <-. cbn [sensor quantity fst snd] in Hq. by destruct (Hst t q).
  - destruct (px_quantity t) as [q|] eqn:Eq; [|done]. destruct (px_quantity t') as [q'|] eqn:Eq'; [|done]. injection Er as <-. injection Er' as <-.
    cbn [sensor quantity fst snd] in Hs, Hq. subst q'.
    apply outlet_sensor_inj in Hs; [|done..]. by rewrite Hs, (px_quantity_inj t t' q).
Qed.

Lemma inlet_reading_sensor a s r : inlet_reading a s = Some r -> exists n, sensor r = inlet_sensor n.
Proof.
  destruct s as [[i m] d]. unfold inlet_reading. destruct i as [|n [|t [|]]]; try done. destruct (px_quantity t); [|done]. intros [= <-]. by exists n.
Qed.
Lemma pole_reading_sensor a s r : pole_reading a s = Some r -> exists n p, sensor r = pole_sensor n p.
Proof.
  destruct s as [[i m] d]. unfold pole_reading. destruct i as [|n [|p [|t [|]]]]; try done. destruct (leg_of _); [|done]. cbn [mbind option_bind].
  destruct (_ || _); [done|]. intros [= <-]. by exists n, p.
Qed.
Lemma outlet_reading_sensor a s r : outlet_reading a s = Some r -> exists n, sensor r = outlet_sensor n.
Proof.
  destruct s as [[i m] d]. unfold outlet_reading. destruct i as [|n [|t [|]]]; try done.
  destruct (t =? PX_ON_OFF); [intros [= <-]; by exists n|]. destruct (px_quantity t); [|done]. intros [= <-]. by exists n.
Qed.

(** On a Raritan PDU no two readings share their sensor and quantity, so no series
    mixes two of the device's sensors. *)
Theorem raritan_series_distinct (a : Answers) : oids_ok a -> NoDup (map series_key (raritan_readings a)).
Proof.
  intros Ho. unfold raritan_readings. rewrite !map_app.
  apply list.NoDup_app. split_and!; [by apply inlet_keys| |apply list.NoDup_app; split_and!; [by apply pole_keys| |by apply outlet_keys]].
  - intros k (r & -> & Hr)%list_elem_of_fmap_1. apply list_elem_of_omap in Hr as (s & _ & E). apply inlet_reading_sensor in E as [n E].
    intros [Hk|Hk]%elem_of_app; apply list_elem_of_fmap_1 in Hk as (r' & Hk & Hr'); apply list_elem_of_omap in Hr' as (s' & _ & E'); apply series_key_eq in Hk as [Hs _].
    + apply pole_reading_sensor in E' as (i & p & E'). rewrite E, E' in Hs. by apply inlet_not_pole in Hs.
    + apply outlet_reading_sensor in E' as [i E']. rewrite E, E' in Hs. discriminate.
  - intros k (r & -> & Hr)%list_elem_of_fmap_1 (r' & Hk & Hr')%list_elem_of_fmap_1. apply list_elem_of_omap in Hr as (s & _ & E), Hr' as (s' & _ & E').
    apply series_key_eq in Hk as [Hs _]. apply pole_reading_sensor in E as (i & p & E). apply outlet_reading_sensor in E' as [j E']. rewrite E, E' in Hs. discriminate.
Qed.

(** ** A small PDU *)

Definition small_pdu : Answers := bt_of_list [
  at_oid SYS_OBJECT_ID [] (ObjectId [1; 3; 6; 1; 4; 1; 13742; 6]); at_oid PX_SERIAL [1] (Octets (lit "PX-1"));
  at_oid PX_INLET_AVAILABLE [1; 1; 5] (Integer 1); at_oid PX_INLET_STATE [1; 1; 5] (Integer 4); at_oid PX_INLET_VALUE [1; 1; 5] (Unsigned 12350);
  at_oid PX_INLET_DIGITS [1; 1; 5] (Integer 1);
  at_oid PX_INLET_AVAILABLE [1; 1; 1] (Integer 1); at_oid PX_INLET_STATE [1; 1; 1] (Integer 4); at_oid PX_INLET_VALUE [1; 1; 1] (Unsigned 53);
  at_oid PX_OUTLET_AVAILABLE [1; 7; 14] (Integer 1); at_oid PX_OUTLET_STATE [1; 7; 14] (Integer 7);
  at_oid PX_OUTLET_AVAILABLE [1; 8; 14] (Integer 2)].

Lemma raritan_series_distinct_witness :
  NoDup (map series_key (raritan_readings small_pdu)) /\
  map (fun r => (series_key r, measurement r)) (raritan_readings small_pdu) =
    [((lit "inlet/1", lit "current"), FailedRead);
     ((lit "inlet/1", lit "real_power"), Value (f64_div (f64_of_Z 12350) (f64_of_Z 10)));
     ((lit "outlet/7", lit "state"), State (lit "on"))].
Proof.
  split; [|vm_compute; reflexivity]. apply raritan_series_distinct. unfold oids_ok.
  apply (bool_decide_unpack _). vm_compute. exact I.
Defined.
