(* ===== verification/GnmiTree.v ===== *)
(** * gnmi/proto.rs and gnmi/tree.rs: folding gNMI answers into one tree

    JSON values are those of JsonValue.v.  Updates are merged at their full path, so how
    a target splits an answer does not matter. *)

From Stdlib Require Import String SpecFloat.
From S2P Require Import Prelude Text Floats BTree JsonValue.

#[local] Set Warnings "-notation-overridden".

(** ** Messages *)

Inductive Typed :=
| StringVal (s : bytes)
| IntVal (z : Z)
| UintVal (n : Z)
| BoolVal (b : bool)
| BytesVal (b : bytes)
| FloatVal (f : f64)                  (* widened to [f64] *)
| LeaflistVal (l : list (option Typed))
| JsonVal (b : bytes)
| JsonIetfVal (b : bytes)
| AsciiVal (s : bytes)
| DoubleVal (f : f64).

Record PathElem := mkPathElem { pe_name : bytes; pe_key : list (bytes * bytes) }.
Abbreviation Path := (list PathElem).
Record Update := mkUpdate { u_path : option Path; u_val : option (option Typed) }.
Record Notification := mkNotification { n_prefix : option Path; n_update : list Update }.

(** [Path::from_names]. *)
Definition from_names (path : bytes) : Path :=
  map (fun name => mkPathElem name []) (List.filter (fun name => negb (bool_decide (name = []))) (split_on 47 path)).

(** ** Names without their module *)

Fixpoint last_piece (l : list bytes) : bytes := match l with [] => [] | [p] => p | _ :: l' => last_piece l' end.
(** [name.rsplit_once(':')]. *)
Definition unprefixed (name : bytes) : bytes := last_piece (split_on 58 name).

Record Elem := mkElem { e_name : bytes; e_keys : list (bytes * bytes) }.

Definition elem_of_path (e : PathElem) : Elem :=
  mkElem (unprefixed (pe_name e)) (bt_of_list (map (fun kv : bytes * bytes => (unprefixed (fst kv), snd kv)) (pe_key e))).
Definition elems (p : option Path) : list Elem := match p with Some p => map elem_of_path p | None => [] end.

Fixpoint strip_prefixes (v : Value) : Value :=
  match v with
  | VObject fs => VObject (bt_of_list (map (fun e : bytes * Value => (unprefixed (fst e), strip_prefixes (snd e))) fs))
  | VArray l => VArray (map strip_prefixes l)
  | _ => v
  end.

(** [Number::from_f64]. *)
Definition float (f : f64) : Value := if is_finite f then VNumber (FloatNum f) else VNull.

Section tree.
Context {J : SerdeJson}.

(** [json]. *)
Fixpoint json_typed (t : Typed) : result Value bytes :=
  match t with
  | JsonVal b | JsonIetfVal b =>
      match from_slice b with
      | Ok v => Ok (strip_prefixes v)
      | Err e => Err (lit "the target sent invalid JSON: " ++ e)
      end
  | StringVal s | AsciiVal s => Ok (VString s)
  | IntVal z => Ok (VNumber (if 0 <=? z then PosInt z else NegInt z))
  | UintVal n => Ok (VNumber (PosInt n))
  | BoolVal b => Ok (VBool b)
  | FloatVal f | DoubleVal f => Ok (float f)
  | LeaflistVal l =>
      let? vs := (fix go l := match l with
                              | [] => Ok []
                              | Some t :: l' => let? v := json_typed t in let? vs := go l' in Ok (v :: vs)
                              | None :: l' => let? vs := go l' in Ok (VNull :: vs)
                              end) l in
      Ok (VArray vs)
  | BytesVal _ => Ok VNull
  end.
Definition json (v : option Typed) : result Value bytes := match v with Some t => json_typed t | None => Ok VNull end.

(** ** Merging *)


Fixpoint merge_value (node value : Value) {struct value} : Value :=
  match value with
  | VObject incoming =>
      match node with
      | VObject existing =>
          VObject ((fix go ex inc := match inc with
                                     | [] => ex
                                     | (k, v) :: inc' => go (bt_insert k (merge_value (or_null (bt_get k ex)) v) ex) inc'
                                     end) existing incoming)
      | _ => value
      end
  | VArray incoming => match node with VArray existing => VArray (existing ++ incoming) | _ => value end
  | _ => value
  end.

(** [Number]'s [Display]. *)
Definition show_number (n : Number) : bytes :=
  match n with PosInt n => show_u64 n | NegInt z => 45 :: show_u64 (- z) | FloatNum f => show_float f end.

Definition keys_match (entry : Value) (keys : list (bytes * bytes)) : bool :=
  forallb (fun kv : bytes * bytes =>
             match get entry (fst kv) with
             | Some (VString actual) => str_eqb actual (snd kv)
             | Some (VNumber n) => str_eqb (show_number n) (snd kv)
             | _ => false
             end) keys.

Definition key_object (keys : list (bytes * bytes)) : Value := VObject (map (fun kv : bytes * bytes => (fst kv, VString (snd kv))) keys).

Definition as_fields (v : Value) : list (bytes * Value) := match v with VObject fs => fs | _ => [] end.
Definition as_entries (v : Value) : list Value := match v with VArray l => l | _ => [] end.

(** A node's child, made an array of objects for a keyed element. *)
Fixpoint insert (node : Value) (es : list Elem) (value : Value) : Value :=
  match es with
  | [] => merge_value node value
  | e :: rest =>
      let fields := as_fields node in
      let child := or_null (bt_get (e_name e) fields) in
      let child' :=
        match e_keys e with
        | [] => insert child rest value
        | keys =>
            let entries := as_entries child in
            match position (fun entry => keys_match entry keys) entries with
            | Some i => VArray (match entries !! i with Some entry => <[i := insert entry rest value]> entries | None => entries end)
            | None => VArray (entries ++ [insert (key_object keys) rest value])
            end
        end in
      VObject (bt_insert (e_name e) child' fields)
  end.

(** A container wrapped in its own name again is unwrapped. *)
Definition unwrap (es : list Elem) (v : Value) : Value :=
  match last_opt es with
  | Some e => match e_keys e, v with
              | [], VObject [(k, inner)] => if str_eqb k (e_name e) then inner else v
              | _, _ => v
              end
  | None => v
  end.

Definition merge_update (prefix : option Path) (tree : Value) (u : Update) : result Value bytes :=
  match u_val u with
  | None => Ok tree
  | Some val =>
      let? v := json val in
      let es := elems prefix ++ elems (u_path u) in
      Ok (insert tree es (unwrap es v))
  end.

Fixpoint merge_updates (prefix : option Path) (tree : Value) (us : list Update) : result Value bytes :=
  match us with [] => Ok tree | u :: us' => let? tree := merge_update prefix tree u in merge_updates prefix tree us' end.
Fixpoint merge (tree : Value) (ns : list Notification) : result Value bytes :=
  match ns with [] => Ok tree | n :: ns' => let? tree := merge_updates (n_prefix n) tree (n_update n) in merge tree ns' end.

(** ** How an answer is split does not matter *)

(** Objects are maps: their keys increase, all the way down. *)
Inductive well_formed : Value -> Prop :=
| WfNull : well_formed VNull
| WfBool b : well_formed (VBool b)
| WfNumber n : well_formed (VNumber n)
| WfString s : well_formed (VString s)
| WfArray l : Forall well_formed l -> well_formed (VArray l)
| WfObject fs : bt_sorted fs -> Forall (fun e => well_formed (snd e)) fs -> well_formed (VObject fs).

(** What a leaf-by-leaf answer holds of a value: every leaf at its path. *)
Fixpoint leaves (v : Value) : list (list bytes * Value) :=
  match v with
  | VObject [] => [([], v)]
  | VObject fs => concat (map (fun e : bytes * Value => map (fun l : list bytes * Value => (fst e :: fst l, snd l)) (leaves (snd e))) fs)
  | _ => [([], v)]
  end.

Definition plain (names : list bytes) : list Elem := map (fun n => mkElem n []) names.
Definition insert_leaf (p : list Elem) (node : Value) (l : list bytes * Value) : Value := insert node (p ++ plain (fst l)) (snd l).

Definition merge_fields (ex inc : list (bytes * Value)) : list (bytes * Value) :=
  fold_left (fun ex e => bt_insert (fst e) (merge_value (or_null (bt_get (fst e) ex)) (snd e)) ex) inc ex.

Lemma merge_object ex inc : merge_value (VObject ex) (VObject inc) = VObject (merge_fields ex inc).
Proof.
  cbn [merge_value]. f_equal. unfold merge_fields. revert ex. induction inc as [|[k v] inc IH]; intros ex; [done|]. cbn [fold_left fst snd]. apply IH.
Qed.

(** Merging into nothing is the value. *)
Lemma merge_null v : merge_value VNull v = v.
Proof. by destruct v. Qed.

Lemma merge_fields_nil inc : bt_sorted inc -> merge_fields [] inc = inc.
Proof.
  intros Hs. rewrite <- (bt_of_list_id inc Hs) at 2. unfold merge_fields, bt_of_list.
  assert (forall ex, (forall e, e ∈ inc -> bt_get (fst e) ex = None) ->
    fold_left (fun ex e => bt_insert (fst e) (merge_value (or_null (bt_get (fst e) ex)) (snd e)) ex) inc ex = fold_left (fun m e => bt_insert (fst e) (snd e) m) inc ex) as H; [|by apply H].
  induction inc as [|e inc IH]; intros ex Hex; [done|]. destruct Hs as [He Hs]. cbn [fold_left]. rewrite (Hex e) by set_solver. cbn [or_null]. rewrite merge_null.
  apply IH; [done|]. intros e' He'. rewrite bt_get_insert. rewrite bool_decide_eq_false_2; [apply Hex; set_solver|].
  intros E. rewrite list.Forall_forall in He. specialize (He e' He'). rewrite E in He. by rewrite key_ltb_irrefl in He.
Qed.

Lemma merge_any node fs : bt_sorted fs -> merge_value node (VObject fs) = VObject (merge_fields (as_fields node) fs).
Proof. intros Hs. destruct node; [cbn; by rewrite merge_fields_nil..|apply merge_object]. Qed.

Lemma leaves_nonempty v : leaves v <> [].
Proof.
  induction v as [| | | | |fs IH] using Value_ind'; try done. destruct fs as [|[k v] fs]; [done|]. apply list.Forall_cons in IH as [IH _]. cbn in *.
  by destruct (leaves v).
Qed.

Lemma insert_named node k rest v : insert node (mkElem k [] :: rest) v =
  VObject (bt_insert k (insert (or_null (bt_get k (as_fields node))) rest v) (as_fields node)).
Proof. done. Qed.

(** Inserting below one name changes that child alone. *)
Lemma fold_below (k : bytes) (p : list Elem) (ls : list (list bytes * Value)) : forall node, ls <> [] ->
  fold_left (insert_leaf (mkElem k [] :: p)) ls node =
    VObject (bt_insert k (fold_left (insert_leaf p) ls (or_null (bt_get k (as_fields node)))) (as_fields node)).
Proof.
  induction ls as [|l ls IH]; intros node Hne; [done|]. cbn [fold_left]. destruct ls as [|l' ls]; [done|]. rewrite IH by done.
  assert (insert_leaf (mkElem k [] :: p) node l = VObject (bt_insert k (insert_leaf p (or_null (bt_get k (as_fields node))) l) (as_fields node))) as -> by done.
  cbn [as_fields]. rewrite bt_get_insert, bool_decide_eq_true_2 by done. cbn [or_null].
  by rewrite bt_insert_insert.
Qed.

Lemma fold_leaf_map k ls node : fold_left (insert_leaf []) (map (fun l : list bytes * Value => (k :: fst l, snd l)) ls) node = fold_left (insert_leaf [mkElem k []]) ls node.
Proof. revert node. induction ls as [|l ls IH]; intros node; [done|]. cbn [map fold_left]. apply IH. Qed.

Lemma merge_by_leaf v : well_formed v -> forall node, merge_value node v = fold_left (insert_leaf []) (leaves v) node.
Proof.
  induction v as [| | | | |fs IH] using Value_ind'; intros Hw node; try done. inversion Hw as [| | | | |? Hs Hf]; subst. rewrite merge_any by done.
  destruct fs as [|e fs]; [by destruct node|].
  set (L := fun e : bytes * Value => map (fun l : list bytes * Value => (fst e :: fst l, snd l)) (leaves (snd e))).
  change (leaves (VObject (e :: fs))) with (concat (map L (e :: fs))). clear Hs Hw.
  assert (forall fs, Forall (fun e => well_formed (snd e) -> forall node, merge_value node (snd e) = fold_left (insert_leaf []) (leaves (snd e)) node) fs ->
    Forall (fun e => well_formed (snd e)) fs -> forall node, fs <> [] \/ node = VObject (as_fields node) ->
    fold_left (insert_leaf []) (concat (map L fs)) node = VObject (merge_fields (as_fields node) fs)) as H.
  { clear. induction fs as [|[k v] fs IHf]; intros IH Hf node Hnode; [destruct Hnode as [|Hn]; [done|exact Hn]|].
    apply list.Forall_cons in IH as [IHv IH], Hf as [Hv Hf]. cbn [map concat]. rewrite fold_left_app. cbn [fst snd] in *.
    change (L (k, v)) with (map (fun l : list bytes * Value => (k :: fst l, snd l)) (leaves v)).
    rewrite fold_leaf_map, fold_below by apply leaves_nonempty. rewrite <- IHv by done. rewrite IHf; [|done|done|by right]. done. }
  rewrite H; [done|done|done|by left].
Qed.

(** A target may send a subtree whole or leaf by leaf: merging every leaf at its
    full path gives the same tree as merging the whole value at once, whatever the
    tree already holds. *)
Theorem split_by_leaf (names : list bytes) (v tree : Value) : well_formed v ->
  fold_left (fun t l => insert t (plain (names ++ fst l)) (snd l)) (leaves v) tree = insert tree (plain names) v.
Proof.
  intros Hw. transitivity (fold_left (insert_leaf (plain names)) (leaves v) tree).
  { unfold insert_leaf. generalize (leaves v). intros ls. revert tree. induction ls as [|l ls IH]; intros tree; [done|]. cbn [fold_left].
    rewrite IH. unfold plain; by rewrite map_app. }
  revert tree. induction names as [|k names IH]; intros tree; [symmetry; by apply merge_by_leaf|].
  cbn [plain map]. rewrite fold_below by apply leaves_nonempty. by rewrite insert_named, IH.
Qed.

(** ** Lists entry by entry *)

Lemma bt_insert_keeps_sorted_fold inc : forall ex, bt_sorted ex -> bt_sorted (merge_fields ex inc).
Proof. unfold merge_fields. induction inc as [|e inc IH]; intros ex Hs; [done|]. cbn [fold_left]. by apply IH, bt_insert_sorted. Qed.

Lemma merge_fields_get k inc : forall ex, bt_sorted inc ->
  bt_get k (merge_fields ex inc) = match bt_get k inc with Some v => Some (merge_value (or_null (bt_get k ex)) v) | None => bt_get k ex end.
Proof.
  unfold merge_fields. induction inc as [|[j v] inc IH]; intros ex Hs; [done|]. destruct Hs as [Hj Hs]. cbn [fold_left fst snd] in *. rewrite IH by done.
  assert (bt_get k ((j, v) :: inc) = if bool_decide (j = k) then Some v else bt_get k inc) as ->.
  { unfold bt_get. cbn [find_by fst]. by destruct (bool_decide (j = k)). }
  rewrite bt_get_insert. destruct (bool_decide (j = k)) eqn:E; [|done]. apply bool_decide_eq_true in E as ->. by rewrite bt_get_none.
Qed.

(** A list entry that carries its keys. *)
Definition carries (keys : list (bytes * bytes)) (entry : Value) : Prop :=
  exists fs, entry = VObject fs /\ bt_sorted fs /\ keys <> [] /\ bt_sorted keys /\ Forall (fun kv : bytes * bytes => bt_get (fst kv) fs = Some (VString (snd kv))) keys.

Lemma key_object_merge keys entry : carries keys entry -> merge_value (key_object keys) entry = entry.
Proof.
  intros (fs & -> & Hs & _ & Hk & Hf). unfold key_object. rewrite merge_object. f_equal.
  set (km := map (fun kv : bytes * bytes => (fst kv, VString (snd kv))) keys).
  assert (bt_sorted km) as Hkm.
  { unfold km. clear -Hk. induction keys as [|[k v] keys IH]; [done|]. destruct Hk as [H1 H2]. split; [|by apply IH]. apply List.Forall_map. exact H1. }
  assert (forall k s, bt_get k km = Some s -> bt_get k fs = Some s) as Hsub.
  { intros k s Hg. apply bt_get_elem in Hg. apply list_elem_of_fmap_1 in Hg as ([k' v'] & [= -> ->] & Hin). rewrite list.Forall_forall in Hf. apply (Hf _ Hin). }
  assert (forall k s, bt_get k km = Some s -> exists t, s = VString t) as Hstr.
  { intros k s Hg. apply bt_get_elem in Hg. apply list_elem_of_fmap_1 in Hg as ([k' v'] & [= -> ->] & _). eauto. }
  apply bt_ext; [by apply bt_insert_keeps_sorted_fold|done|]. intros k. rewrite merge_fields_get by done.
  destruct (bt_get k km) as [s|] eqn:E.
  - rewrite (Hsub k s E). destruct (Hstr k s E) as [t ->]. done.
  - destruct (bt_get k fs); [by rewrite merge_null|done].
Qed.

(** No two entries answer to each other's keys. *)
Definition apart (es : list (list (bytes * bytes) * Value)) : Prop :=
  forall i j x y, es !! i = Some x -> es !! j = Some y -> (i < j)%nat -> keys_match (snd x) (fst y) = false.

Definition insert_entry (name : bytes) (t : Value) (e : list (bytes * bytes) * Value) : Value := insert t [mkElem name (fst e)] (snd e).

Lemma position_none {A} (p : A -> bool) l : Forall (fun x => p x = false) l -> position p l = None.
Proof. induction 1 as [|x l Hx _ IH]; [done|]. cbn. by rewrite Hx, IH. Qed.

Lemma insert_entries name : forall todo done_ node, as_entries (or_null (bt_get name (as_fields node))) = map snd done_ -> done_ ++ todo <> [] ->
  Forall (fun e => carries (fst e) (snd e)) todo -> apart (done_ ++ todo) -> (done_ = [] \/ or_null (bt_get name (as_fields node)) = VArray (map snd done_)) ->
  node = VObject (as_fields node) \/ done_ = [] ->
  todo <> [] -> fold_left (insert_entry name) todo node = VObject (bt_insert name (VArray (map snd (done_ ++ todo))) (as_fields node)).
Proof.
  induction todo as [|[keys entry] todo IH]; intros done_ node Hchild Hne Hc Ha Harr Hnode Ht; [done|]. apply list.Forall_cons in Hc as [Hc1 Hc]. cbn [fst snd] in Hc1.
  cbn [fold_left]. unfold insert_entry at 2. cbn [fst snd insert e_name e_keys].
  assert (exists k ks, keys = k :: ks) as (k0 & ks & Hk) by (destruct Hc1 as (? & _ & _ & Hne1 & _); destruct keys; [done|eauto]).
  assert (position (fun en => keys_match en keys) (as_entries (or_null (bt_get name (as_fields node)))) = None) as Hpos.
  { apply position_none. rewrite Hchild. apply list.Forall_forall. intros x Hx. apply list_elem_of_fmap_1 in Hx as (y & -> & Hy). apply list_elem_of_lookup_1 in Hy as [i Hi].
    apply (Ha i (length done_) y (keys, entry)); [by apply lookup_app_l_Some|by rewrite lookup_app_r, Nat.sub_diag|by apply lookup_lt_Some in Hi]. }
  rewrite Hk. rewrite <- Hk. rewrite Hpos. rewrite key_object_merge by done. rewrite Hchild.
  set (node' := VObject (bt_insert name (VArray (map snd done_ ++ [entry])) (as_fields node))).
  assert (map snd done_ ++ [entry] = map snd (done_ ++ [(keys, entry)])) as Hm by by rewrite map_app.
  destruct todo as [|e todo]; [cbn [fold_left]; unfold node'; by rewrite map_app|].
  assert (as_fields node' = bt_insert name (VArray (map snd (done_ ++ [(keys, entry)]))) (as_fields node)) as Hf by (unfold node'; by rewrite Hm).
  rewrite (IH (done_ ++ [(keys, entry)]) node').
  - rewrite Hf, bt_insert_insert, <- app_assoc. done.
  - rewrite Hf, bt_get_insert, bool_decide_eq_true_2 by done. done.
  - rewrite <- app_assoc. by destruct done_.
  - done.
  - by rewrite <- app_assoc.
  - right. rewrite Hf, bt_get_insert, bool_decide_eq_true_2 by done. done.
  - by left.
  - done.
Qed.

(** A target may send a list as one array or one update per entry under its keys:
    where no list was before, both give the same tree. *)
Theorem split_by_entry (name : bytes) (es : list (list (bytes * bytes) * Value)) (node : Value) :
  es <> [] -> Forall (fun e => carries (fst e) (snd e)) es -> apart es ->
  (forall l, or_null (bt_get name (as_fields node)) <> VArray l) ->
  fold_left (insert_entry name) es node = insert node [mkElem name []] (VArray (map snd es)).
Proof.
  intros Hne Hc Ha Hno. assert (as_entries (or_null (bt_get name (as_fields node))) = []) as Hempty.
  { destruct (or_null (bt_get name (as_fields node))) as [| | | |l|]; try done. by destruct (Hno l). }
  rewrite (insert_entries name es [] node); try done; [|by left|by right].
  cbn [insert e_keys e_name app]. f_equal. f_equal. destruct (or_null (bt_get name (as_fields node))) as [| | | |l|]; try done. by destruct (Hno l).
Qed.

(** Every value an update holds is well formed. *)
Lemma strip_prefixes_wf v : well_formed (strip_prefixes v).
Proof.
  induction v as [| | | |l IH|fs IH] using Value_ind'; cbn [strip_prefixes]; try constructor.
  - apply List.Forall_map. exact IH.
  - apply bt_of_list_sorted.
  - apply list.Forall_forall. intros e He. apply bt_of_list_elem in He. apply list_elem_of_fmap_1 in He as (x & -> & Hx). cbn. rewrite list.Forall_forall in IH. by apply IH.
Qed.

Lemma json_typed_wf (t : Typed) : forall v, json_typed t = Ok v -> well_formed v.
Proof.
  revert t. fix IH 1. intros t. destruct t as [s|z|n|b|b|f|l|b|b|s|f]; cbn [json_typed]; intros v.
  1-6: try (intros [= <-]; first [constructor|unfold float; destruct (is_finite f); constructor]).
  - match goal with |- context [result_bind (?g l) _] => set (go := g) end.
    assert (forall l vs, go l = Ok vs -> Forall well_formed vs) as H.
    { clear l v. fix IHl 1. intros [|[t|] l] vs; cbn.
      - intros [= <-]. constructor.
      - pose proof (IH t) as Ht. destruct (json_typed t) as [x|]; [|done]. cbn [result_bind]. specialize (IHl l). destruct (go l) as [xs|]; [|done]. cbn [result_bind].
        intros [= <-]. constructor; [by apply Ht|by apply IHl].
      - specialize (IHl l). destruct (go l) as [xs|]; [|done]. cbn [result_bind]. intros [= <-]. constructor; [constructor|by apply IHl]. }
    specialize (H l). destruct (go l) as [vs|]; [|done]. cbn [result_bind]. intros [= <-]. constructor. by apply H.
  - destruct (from_slice b) as [w|]; [|done]. intros [= <-]. apply strip_prefixes_wf.
  - destruct (from_slice b) as [w|]; [|done]. intros [= <-]. apply strip_prefixes_wf.
  - intros [= <-]. constructor.
  - intros [= <-]. unfold float. destruct (is_finite f); constructor.
Qed.

Lemma json_wf (t : option Typed) v : json t = Ok v -> well_formed v.
Proof. destruct t as [t|]; [apply json_typed_wf|]. intros [= <-]. constructor. Qed.
End tree.

(** ** Examples *)

#[local] Instance no_json : SerdeJson := {| from_slice := fun _ => Err []; show_float := fun _ => [] |}.

(** An interface's state with a name and a counter. *)
Definition port_state : Value :=
  VObject [(lit "counters", VObject [(lit "in", VNumber (PosInt 5))]); (lit "name", VString (lit "e1"))].

Lemma split_by_leaf_witness :
  fold_left (fun t l => insert t (plain ([lit "state"] ++ fst l)) (snd l)) (leaves port_state) (VObject [(lit "a", VNull)]) =
  insert (VObject [(lit "a", VNull)]) (plain [lit "state"]) port_state /\
  map fst (leaves port_state) = [[lit "counters"; lit "in"]; [lit "name"]].
Proof.
  split; [|vm_compute; reflexivity]. apply split_by_leaf. unfold port_state. repeat constructor.
Defined.

Definition two_ports : list (list (bytes * bytes) * Value) :=
  [([(lit "name", lit "e1")], VObject [(lit "mtu", VNumber (PosInt 1500)); (lit "name", VString (lit "e1"))]);
   ([(lit "name", lit "e2")], VObject [(lit "name", VString (lit "e2"))])].

Lemma split_by_entry_witness :
  fold_left (insert_entry (lit "interface")) two_ports VNull = insert VNull [mkElem (lit "interface") []] (VArray (map snd two_ports)).
Proof.
  apply split_by_entry; [done| | |done].
  - unfold two_ports, carries. repeat constructor; eexists; (split; [reflexivity|]); repeat split; repeat constructor; done.
  - intros [|[|i]] [|[|j]] x y; cbn; try done; try lia. intros [= <-] [= <-] _. vm_compute. reflexivity.
Defined.
