(* ===== verification/GnmiSwitch.v ===== *)
(** * gnmi/openconfig.rs and gnmi/mod.rs: the switch behind OpenConfig state

    The tree is that of GnmiTree.v.  What is reported is the same resource as
    SnmpMibs.v reports. *)

From Stdlib Require Import String SpecFloat.
From S2P Require Import Prelude Text Floats Ip BTree Smbios Payload SwitchReport SnmpWalk SnmpMibs JsonValue GnmiTree.

#[local] Set Warnings "-notation-overridden".

Definition SYSTEM : bytes := lit "system/state".
Definition COMPONENTS : bytes := lit "components/component/state".
Definition INTERFACES : bytes := lit "interfaces/interface".
Definition VLANS : bytes := lit "network-instances/network-instance/vlans/vlan/state".
Definition LLDP : bytes := lit "lldp/interfaces/interface".
Definition PATHS : list bytes := [SYSTEM; COMPONENTS; INTERFACES; VLANS; LLDP].

Definition MAX_INT32 : Z := 2147483647.
Definition MAX_VLAN_MEMBERSHIPS : Z := 100000.

(** [Answers]: [answered] is a set of [PATHS]. *)
Record Answers := mkAnswers { tree : Value; answered : list bytes }.
Definition has_answered (a : Answers) (path : bytes) : bool := existsb (str_eqb path) (answered a).

(** ** Reading the tree *)

Definition get_in (o : option Value) (name : string) : option Value := let+ v := o in get v (lit name).

Definition entries (node : option Value) (name : string) : list Value :=
  match get_in node name with
  | Some (VArray l) => l
  | Some (VObject fs) => [VObject fs]
  | _ => []
  end.

Definition leaf (node : Value) (name : string) : option Value := get_in (get node (lit "state")) name.
Definition state_or_config (node : Value) (name : string) : option Value :=
  or_else (leaf node name) (get_in (get node (lit "config")) name).

Definition as_str (v : Value) : option bytes := match v with VString s => Some s | _ => None end.

(** [identity]. *)
Definition identity (v : Value) : option bytes := option_map unprefixed (as_str v).
Definition identity_of (o : option Value) : option bytes := let+ v := o in identity v.

Definition is_one_of (o : option bytes) (names : list string) : bool :=
  match o with Some s => existsb (fun n => str_eqb s (lit n)) names | None => false end.

Definition number (v : Value) : option Z :=
  match v with
  | VNumber (PosInt n) => Some n
  | VString s => parse_uint U64_MAX (trim s)
  | _ => None
  end.

Definition vid_of (v : Value) : option Z := keep (fun n => (1 <=? n) && (n <=? 4094)) (keep (in_u 16) (number v)).

Section openconfig.
Context {J : SerdeJson}.

Definition text (v : Value) : option bytes :=
  match v with
  | VString s => keep within_string_limit (normalize_value (concat (trim_by is_blank_chunk (char_chunks s))))
  | VNumber n => Some (show_number n)
  | _ => None
  end.
Definition text_of (o : option Value) : option bytes := let+ v := o in text v.

Fixpoint pairs (s : bytes) : list bytes := match s with a :: b :: s' => [a; b] :: pairs s' | [a] => [[a]] | [] => [] end.

Definition mac (v : Value) : option bytes :=
  let+ s := as_str v in
  let digits := List.filter (fun c => negb ((c =? 58) || (c =? 45) || (c =? 46))) s in
  if negb (bool_decide (length digits = 12%nat)) || negb (forallb is_ascii_hexdigit digits) then None
  else
    let digits := to_ascii_lowercase digits in
    if forallb (Z.eqb 48) digits then None else Some (join 58 (pairs digits)).

Definition network_address (v : Value) : option bytes :=
  let+ s := as_str v in
  option_map show_ip (parse_ip (trim s)).

(** ** Identity *)

Definition chassis_of (component : Value) : option (bool * Chassis) :=
  if is_one_of (identity_of (leaf component "type")) ["CHASSIS"%string] then
    let+ serial := text_of (leaf component "serial-no") in
    Some (is_some (leaf component "parent"),
          mkChassis serial (text_of (leaf component "mfg-name")) (text_of (leaf component "part-no")))
  else None.

(** [min_by_key]: the first with the least key. *)
Fixpoint first_without_parent (best : option (bool * Chassis)) (l : list (bool * Chassis)) : option Chassis :=
  match l with
  | [] => option_map snd best
  | c :: l' => first_without_parent (match best with Some b => if fst b && negb (fst c) then Some c else best | None => Some c end) l'
  end.
Definition chassis (t : Value) : option Chassis :=
  first_without_parent None (omap chassis_of (entries (get t (lit "components")) "component")).

(** ** Interfaces *)

Record Entry := mkEntry { interface : Interface; switched_vlan : option Value }.

Definition interface_kind (t : option bytes) : bytes :=
  if is_one_of t ["ethernetCsmacd"; "iso88023Csmacd"; "fastEther"; "gigabitEthernet"]%string then lit "ethernet"
  else if is_one_of t ["softwareLoopback"%string] then lit "loopback"
  else if is_one_of t ["ieee8023adLag"%string] then lit "bond"
  else if is_one_of t ["bridge"%string] then lit "bridge"
  else if is_one_of t ["l2vlan"; "l3ipvlan"]%string then lit "vlan"
  else if is_one_of t ["propVirtual"%string] then lit "virtual"
  else lit "unknown".

Definition oper_status (s : option bytes) : bytes :=
  if is_one_of s ["UP"%string] then lit "up"
  else if is_one_of s ["DOWN"; "LOWER_LAYER_DOWN"]%string then lit "down"
  else if is_one_of s ["DORMANT"%string] then lit "dormant"
  else if is_one_of s ["NOT_PRESENT"%string] then lit "not_present"
  else lit "unknown".

Definition speed_mbps (s : bytes) : option Z :=
  let+ s := strip_prefix (lit "SPEED_") s in
  match strip_suffix (lit "GB") s with
  | Some g => let+ n := parse_uint U64_MAX g in keep (in_u 64) (Some (n * 1000))
  | None => let+ m := strip_suffix (lit "MB") s in parse_uint U64_MAX m
  end.

Definition in_range (n : Z) : bool := (1 <=? n) && (n <=? MAX_INT32).

Definition entry_of (name : bytes) (e : Value) : Entry :=
  let ethernet := get e (lit "ethernet") in
  let aggregation := get e (lit "aggregation") in
  let speed := keep in_range
    (or_else (let+ x := ethernet in let+ s := identity_of (leaf x "port-speed") in speed_mbps s)
             (let+ x := aggregation in let+ n := leaf x "lag-speed" in number n)) in
  mkEntry
    (mkInterface name (interface_kind (identity_of (leaf e "type"))) (oper_status (identity_of (leaf e "oper-status")))
       (let+ x := ethernet in or_else (let+ m := leaf x "mac-address" in mac m) (let+ m := leaf x "hw-mac-address" in mac m))
       (keep in_range (let+ m := leaf e "mtu" in number m)) speed None None None None)
    (find_map (fun c => let+ x := c in get x (lit "switched-vlan")) [ethernet; aggregation]).

Definition add_interface (m : list (bytes * Entry)) (e : Value) : list (bytes * Entry) :=
  match text_of (or_else (get e (lit "name")) (leaf e "name")) with
  | None => m
  | Some name => match bt_get name m with Some _ => m | None => bt_insert name (entry_of name e) m end
  end.
Definition interfaces (t : Value) : list (bytes * Entry) :=
  fold_left add_interface (entries (get t (lit "interfaces")) "interface") [].

(** ** VLANs *)

Definition vlan_range (item : Value) : option (Z * Z) :=
  match item with
  | VString s =>
      match split_once_str (lit "..") s with
      | Some (a, b) =>
          let+ first := vid_of (VString (trim a)) in
          let+ last := vid_of (VString (trim b)) in
          if first <=? last then Some (first, last) else None
      | None => option_map (fun v => (v, v)) (vid_of item)
      end
  | _ => option_map (fun v => (v, v)) (vid_of item)
  end.

Definition set_of (l : list Z) : list Z := map fst (bt_of_list (map (fun v : Z => (v, tt)) l)).

(** The loop over the trunk's items: [None] when a range cannot be resolved. *)
Fixpoint trunk_vids (existing : option (list Z)) (items : list Value) : option (list Z) :=
  match items with
  | [] => Some []
  | item :: items' =>
      let+ r := vlan_range item in
      let+ here := match existing with
                   | Some ex => Some (List.filter (fun v => (fst r <=? v) && (v <=? snd r)) ex)
                   | None => if fst r =? snd r then Some [fst r] else None
                   end in
      let+ rest := trunk_vids existing items' in
      Some (here ++ rest)
  end.

Definition membership (switched : Value) (existing : option (list Z)) : option (bytes * list VlanMembership) :=
  let mode := identity_of (state_or_config switched "interface-mode") in
  let trunk := state_or_config switched "trunk-vlans" in
  if is_one_of mode ["ACCESS"%string] || (negb (is_some mode) && negb (is_some trunk)) then
    let+ v := let+ x := state_or_config switched "access-vlan" in vid_of x in
    Some (lit "access", [mkVlan v Untagged])
  else if is_some mode && negb (is_one_of mode ["TRUNK"%string]) then None
  else
    let+ t := trunk in
    let items := match t with VArray l => l | x => [x] end in
    let+ vids := trunk_vids existing items in
    let native := let+ x := state_or_config switched "native-vlan" in vid_of x in
    Some (lit "trunk", map (fun v => mkVlan v (if bool_decide (Some v = native) then Untagged else Tagged)) (set_of vids)).

Definition existing_vlans (a : Answers) : option (list Z) :=
  if has_answered a VLANS then
    Some (set_of (omap (fun v => let+ x := or_else (get v (lit "vlan-id")) (leaf v "vlan-id") in vid_of x)
                    (concat (map (fun i => entries (get i (lit "vlans")) "vlan") (entries (get (tree a) (lit "network-instances")) "network-instance")))))
  else None.

Definition with_vlans (mode : option bytes) (l : list VlanMembership) (e : Entry) : Entry :=
  let i := interface e in
  mkEntry (mkInterface (if_name i) (if_kind i) (if_status i) (if_mac_address i) (if_mtu i) (if_speed_mbps i) (if_addresses i)
             mode (Some l) (if_neighbors i)) (switched_vlan e).

(** The loop over the interfaces: the new map, and whether every port was known. *)
Fixpoint vlan_loop (existing : option (list Z)) (m : list (bytes * Entry)) (total : Z) : result (list (bytes * Entry) * bool) MapError :=
  match m with
  | [] => Ok ([], true)
  | (k, e) :: m' =>
      match switched_vlan e with
      | None => let? r := vlan_loop existing m' total in
                Ok ((k, with_vlans (if_vlan_mode (interface e)) [] e) :: fst r, snd r)
      | Some sw =>
          match membership sw existing with
          | None => let? r := vlan_loop existing m' total in Ok ((k, e) :: fst r, false)
          | Some (mode, l) =>
              let total := total + zlength l in
              if MAX_VLAN_MEMBERSHIPS <? total then Err (lit "the switch reports more than 100000 VLAN memberships")
              else let? r := vlan_loop existing m' total in
                   Ok ((k, with_vlans (match l with [] => None | _ => Some mode end) l e) :: fst r, snd r)
          end
      end
  end.

Definition attach_vlans (a : Answers) (m : list (bytes * Entry)) : result (list (bytes * Entry) * bool) MapError :=
  if forallb (fun e : bytes * Entry => negb (is_some (switched_vlan (snd e)))) m then Ok (m, false)
  else vlan_loop (existing_vlans a) m 0.

(** ** Neighbors *)

Definition tagged_id (o : option bytes) (kind : string) : option (bytes * bytes) := option_map (fun t => (t, lit kind)) o.

Definition chassis_id_value (kind : option bytes) (v : Value) : option (bytes * bytes) :=
  if is_one_of kind ["MAC_ADDRESS"%string] then tagged_id (mac v) "mac_address"
  else if is_one_of kind ["NETWORK_ADDRESS"%string] then tagged_id (network_address v) "network_address"
  else if is_one_of kind ["INTERFACE_NAME"%string] then tagged_id (text v) "name"
  else tagged_id (text v) "local".

Definition port_id_value (kind : option bytes) (v : Value) : option (bytes * bytes) :=
  if is_one_of kind ["MAC_ADDRESS"%string] then tagged_id (mac v) "mac_address"
  else if is_one_of kind ["INTERFACE_ALIAS"; "INTERFACE_NAME"]%string then tagged_id (text v) "name"
  else tagged_id (text v) "local".

Definition neighbor_of (ttl : Z) (remote : Value) : option Neighbor :=
  let+ c := let+ id := leaf remote "chassis-id" in chassis_id_value (identity_of (leaf remote "chassis-id-type")) id in
  let+ p := let+ id := leaf remote "port-id" in port_id_value (identity_of (leaf remote "port-id-type")) id in
  Some (mkNeighbor (lit "lldp") (fst c) (snd c) (fst p) (snd p)
          (text_of (leaf remote "system-name")) (text_of (leaf remote "port-description")) ttl).

Definition with_neighbors (l : list Neighbor) (e : Entry) : Entry :=
  let i := interface e in
  mkEntry (mkInterface (if_name i) (if_kind i) (if_status i) (if_mac_address i) (if_mtu i) (if_speed_mbps i) (if_addresses i)
             (if_vlan_mode i) (if_vlans i) (Some l)) (switched_vlan e).

Definition same_ids (a b : Neighbor) : bool :=
  str_eqb (remote_chassis_id a) (remote_chassis_id b) && str_eqb (remote_port_id a) (remote_port_id b).

Definition push_neighbor (ttl : Z) (e : Entry) (remote : Value) : Entry :=
  match neighbor_of ttl remote with
  | None => e
  | Some n =>
      let l := or_nil (if_neighbors (interface e)) in
      with_neighbors (if existsb (fun x => same_ids x n) l then l else l ++ [n]) e
  end.

Definition attach_interface (ttl : Z) (m : list (bytes * Entry)) (lldp : Value) : list (bytes * Entry) :=
  match text_of (get lldp (lit "name")) with
  | None => m
  | Some name =>
      map (fun e : bytes * Entry =>
             if str_eqb (fst e) name
             then (fst e, fold_left (push_neighbor ttl) (entries (get lldp (lit "neighbors")) "neighbor") (snd e))
             else e) m
  end.

Definition attach_neighbors (t : Value) (m : list (bytes * Entry)) (ttl : Z) : list (bytes * Entry) :=
  fold_left (attach_interface ttl) (entries (get_in (get t (lit "lldp")) "interfaces") "interface")
    (map (fun e : bytes * Entry => (fst e, with_neighbors [] (snd e))) m).

(** ** The switch *)

Definition switch (target : bytes) (a : Answers) (ttl : Z) : result (CollectorResource * Sections) MapError :=
  match chassis (tree a) with
  | None => Err (lit "no chassis serial number in openconfig-platform; the switch cannot be identified")
  | Some c =>
      let answered := has_answered a INTERFACES in
      let m := if answered then interfaces (tree a) else [] in
      let? mv := if answered then attach_vlans a m else Ok (m, false) in
      let neighbors := answered && has_answered a LLDP in
      let m := if neighbors then attach_neighbors (tree a) (fst mv) ttl else fst mv in
      let hostname := text_of (let+ s := get (tree a) (lit "system") in state_or_config s "hostname") in
      Ok (mkResource KSwitch (Some target)
            (mkCollectorIdentifiers hostname (Some (serial c)) None [])
            (Some (mkHostAttributes hostname None (vendor c) (model c) None))
            (if answered then Some (map (fun e : bytes * Entry => interface (snd e)) m) else None) None,
          mkRead neighbors (snd mv))
  end.
End openconfig.

(** ** What is reported is well formed *)

Section well_formed.
Context {J : SerdeJson}.
(** The text of a float is short. *)
Hypothesis float_text : forall f, show_float f <> [] /\ (length (show_float f) <= 255)%nat.

Lemma opt_text_is_ok v t : text v = Some t -> text_ok t.
Proof.
  destruct v as [| |n|s| |]; try done; cbn [text].
  - intros [= <-]. apply short_ok; destruct n as [n|z|f]; cbn [show_number]; try apply show_u64_nonempty; try done; try apply float_text.
    + pose proof (SnmpConfig.length_show n). unfold MAX_STRING_CHARS. lia.
    + pose proof (SnmpConfig.length_show (- z)). unfold MAX_STRING_CHARS. cbn [length]. lia.
  - intros [Hn Hl]%keep_Some. split; [|unfold within_string_limit in Hl; lia].
    unfold normalize_value in Hn. destruct (_ || _) eqn:E; [done|]. injection Hn as <-. apply orb_false_iff in E as [E _]. intros H0. by rewrite H0 in E.
Qed.
Lemma text_of_ok o t : text_of o = Some t -> text_ok t.
Proof. destruct o as [v|]; [|done]. apply opt_text_is_ok. Qed.
Lemma opt_text_of o : opt_ok text_ok (text_of o).
Proof. destruct (text_of o) eqn:E; [|done]. by apply text_of_ok in E. Qed.

Lemma pairs_short s : Forall (fun p => (length p <= 2)%nat) (pairs s) /\ (length (pairs s) <= length s)%nat.
Proof.
  enough (forall n s, (length s <= n)%nat -> Forall (fun p => (length p <= 2)%nat) (pairs s) /\ (length (pairs s) <= length s)%nat) as H by by apply (H (length s)).
  induction n as [|n IH]; intros [|a [|b t]] Hl; cbn in *; try lia; try (split; [repeat constructor; cbn; lia|lia]); try (split; [constructor|lia]).
  destruct (IH t) as [H1 H2]; [lia|]. split; [constructor; [cbn; lia|done]|lia].
Qed.

Lemma mac_is_ok v t : mac v = Some t -> text_ok t.
Proof.
  destruct v as [| | |s| |]; try done. cbn [mac as_str mbind option_bind].
  set (d := List.filter _ s). destruct (bool_decide (length d = 12%nat)) eqn:E; [|done]. apply bool_decide_eq_true in E. cbn [negb orb].
  destruct (negb _); [done|]. destruct (forallb (Z.eqb 48) (to_ascii_lowercase d)); [done|]. intros [= <-].
  assert (length (to_ascii_lowercase d) = 12%nat) as Hl by (unfold to_ascii_lowercase; by rewrite length_map).
  destruct (pairs_short (to_ascii_lowercase d)) as [H1 H2]. apply short_ok.
  - destruct (to_ascii_lowercase d) as [|a [|b [|c [|e r]]]]; done.
  - pose proof (length_join 58 2 _ H1). unfold MAX_STRING_CHARS. lia.
Qed.

Lemma network_is_ok v t : network_address v = Some t -> text_ok t.
Proof.
  destruct v as [| | |s| |]; try done. cbn [network_address as_str mbind option_bind]. destruct (parse_ip (trim s)) as [ip|] eqn:E; [|done]. intros [= <-].
  apply parse_ip_ok in E. by apply show_ip_text_ok.
Qed.

(** *** Interfaces *)

Definition vlans_ok (i : Interface) : Prop :=
  match if_vlans i with
  | None => True
  | Some l => Forall (fun m => 1 <= vid m <= 4094) l /\ NoDup (map vid l) /\ (length (List.filter is_untagged l) <= 1)%nat /\
              (if_vlan_mode i = None <-> l = []) /\ (if_vlan_mode i = Some (lit "access") -> exists v, l = [mkVlan v Untagged])
  end.
Definition ids (n : Neighbor) : bytes * bytes := (remote_chassis_id n, remote_port_id n).
Definition neighbors_ok (i : Interface) : Prop :=
  match if_neighbors i with None => True | Some l => NoDup (map ids l) /\ Forall neighbor_ok l end.
Definition interface_ok (i : Interface) : Prop :=
  text_ok (if_name i) /\ opt_ok text_ok (if_mac_address i) /\ opt_ok in_int32 (if_mtu i) /\ opt_ok in_int32 (if_speed_mbps i) /\
  vlans_ok i /\ neighbors_ok i.

Definition entry_ok (e : bytes * Entry) : Prop := if_name (interface (snd e)) = fst e /\ interface_ok (interface (snd e)).
Definition map_ok (m : list (bytes * Entry)) : Prop := bt_sorted m /\ Forall entry_ok m.
(** Nothing attached yet. *)
Definition bare (m : list (bytes * Entry)) : Prop :=
  Forall (fun e => if_vlans (interface (snd e)) = None /\ if_vlan_mode (interface (snd e)) = None /\ if_neighbors (interface (snd e)) = None) m.

Lemma gnmi_entry_of_ok name e : text_ok name -> entry_ok (name, entry_of name e).
Proof.
  intros Hn. split; [done|]. unfold interface_ok, entry_of. cbn [snd interface if_name if_mac_address if_mtu if_speed_mbps vlans_ok neighbors_ok if_vlans if_neighbors].
  split_and!; try done.
  - destruct (get e (lit "ethernet")) as [x|]; [|done]. cbn [mbind option_bind]. unfold or_else.
    destruct (leaf x "mac-address") as [m|]; cbn [mbind option_bind].
    + destruct (mac m) as [t|] eqn:E; [by apply mac_is_ok in E|]. destruct (leaf x "hw-mac-address") as [m'|]; [|done]. cbn [mbind option_bind].
      destruct (mac m') as [t|] eqn:E'; [by apply mac_is_ok in E'|done].
    + destruct (leaf x "hw-mac-address") as [m'|]; [|done]. cbn [mbind option_bind]. destruct (mac m') as [t|] eqn:E'; [by apply mac_is_ok in E'|done].
  - destruct (keep _ _) as [m|] eqn:E; [|done]. apply keep_Some in E as [_ E]. unfold in_range, in_int32, SnmpMibs.MAX_INT32, MAX_INT32, opt_ok in *. lia.
  - destruct (keep _ _) as [m|] eqn:E; [|done]. apply keep_Some in E as [_ E]. unfold in_range, in_int32, SnmpMibs.MAX_INT32, MAX_INT32, opt_ok in *. lia.
Qed.

Lemma bt_insert_Forall (P : bytes * Entry -> Prop) k v m : P (k, v) -> Forall P m -> Forall P (bt_insert k v m).
Proof. intros Hk Hm. apply list.Forall_forall. intros e He. apply bt_insert_elem in He as [->|He]; [done|]. rewrite list.Forall_forall in Hm. by apply Hm. Qed.

Lemma gnmi_interfaces_ok t : map_ok (interfaces t) /\ bare (interfaces t).
Proof.
  unfold interfaces. assert (map_ok [] /\ bare []) as H0 by (repeat split; constructor). revert H0. generalize (@nil (bytes * Entry)).
  induction (entries (get t (lit "interfaces")) "interface") as [|e l IH]; intros m [[Hs Hm] Hb]; [done|]. cbn [fold_left]. apply IH. unfold add_interface.
  destruct (text_of _) as [name|] eqn:E; [|done]. destruct (bt_get name m); [done|]. apply text_of_ok in E. repeat split.
  - by apply bt_insert_sorted.
  - apply bt_insert_Forall; [by apply gnmi_entry_of_ok|done].
  - by apply bt_insert_Forall.
Qed.

(** *** VLANs *)

Lemma vid_of_range v n : vid_of v = Some n -> 1 <= n <= 4094.
Proof. intros [_ H]%keep_Some. lia. Qed.

Lemma trunk_vids_range existing items vids : opt_ok (Forall (fun v => 1 <= v <= 4094)) existing -> trunk_vids existing items = Some vids ->
  Forall (fun v => 1 <= v <= 4094) vids.
Proof.
  intros Hex. revert vids. induction items as [|item items IH]; intros vids; cbn [trunk_vids]; [intros [= <-]; constructor|].
  destruct (vlan_range item) as [[a b]|] eqn:Er; [|done]. cbn [mbind option_bind fst snd].
  assert (1 <= a <= 4094) as Ha.
  { unfold vlan_range in Er. assert (forall w, option_map (fun v => (v, v)) (vid_of w) = Some (a, b) -> 1 <= a <= 4094) as Hw.
    { intros w H. destruct (vid_of w) eqn:Ev; [|done]. injection H as <- _. by apply vid_of_range in Ev. }
    destruct item as [| | |s| |]; try (by eapply Hw). destruct (split_once_str (lit "..") s) as [[x y]|]; [|by eapply Hw].
    destruct (vid_of (VString (trim x))) as [f|] eqn:Ef; [|done]. cbn [mbind option_bind] in Er. destruct (vid_of (VString (trim y))); [|done]. cbn [mbind option_bind] in Er.
    destruct (f <=? z); [|done]. injection Er as <- _. by apply vid_of_range in Ef. }
  destruct existing as [ex|]; cbn [mbind option_bind].
  - destruct (trunk_vids (Some ex) items) as [rest|]; [|done]. cbn [mbind option_bind]. intros [= <-]. apply list.Forall_app. split; [|by apply IH].
    apply list.Forall_forall. intros v Hv. apply list_elem_of_In, filter_In in Hv as [Hv _]. cbn in Hex. rewrite list.Forall_forall in Hex. by apply Hex, list_elem_of_In.
  - destruct (a =? b); [|done]. cbn [mbind option_bind]. destruct (trunk_vids None items) as [rest|]; [|done]. cbn [mbind option_bind]. intros [= <-].
    constructor; [done|by apply IH].
Qed.

Lemma set_of_ok l : NoDup (set_of l) /\ forall v, v ∈ set_of l -> v ∈ l.
Proof.
  unfold set_of. split; [apply bt_sorted_nodup, bt_of_list_sorted|]. intros v ([v' []] & -> & Hin)%list_elem_of_fmap_1. apply bt_of_list_elem in Hin.
  apply list_elem_of_fmap_1 in Hin as (w & [= ->] & Hw). done.
Qed.

Lemma one_native (native : option Z) l : NoDup l ->
  (length (List.filter is_untagged (map (fun v => mkVlan v (if bool_decide (Some v = native) then Untagged else Tagged)) l)) <= 1)%nat.
Proof.
  intros Hl. destruct native as [n|]; [|clear; induction l as [|v l IH]; [cbn; lia|done]].
  assert (forall l, n ∉ l -> List.filter is_untagged (map (fun v => mkVlan v (if bool_decide (Some v = Some n) then Untagged else Tagged)) l) = []) as Hnone.
  { clear. induction l as [|v l IH]; intros Hn; [done|]. cbn [map List.filter]. rewrite bool_decide_eq_false_2 by set_solver. cbn [is_untagged tagging_mode]. apply IH. set_solver. }
  induction Hl as [|v l Hv Hl IH]; [cbn; lia|]. cbn [map List.filter]. destruct (bool_decide (Some v = Some n)) eqn:E; cbn [is_untagged tagging_mode]; [|done].
  apply bool_decide_eq_true in E. injection E as ->. rewrite Hnone; [cbn; lia|]. done.
Qed.

Lemma membership_ok sw existing mode l : opt_ok (Forall (fun v => 1 <= v <= 4094)) existing -> membership sw existing = Some (mode, l) ->
  Forall (fun m => 1 <= vid m <= 4094) l /\ NoDup (map vid l) /\ (length (List.filter is_untagged l) <= 1)%nat /\ (mode = lit "access" -> exists v, l = [mkVlan v Untagged]).
Proof.
  intros Hex. unfold membership. destruct (_ || _).
  - destruct (state_or_config sw "access-vlan") as [x|]; [|done]. cbn [mbind option_bind]. destruct (vid_of x) as [v|] eqn:E; [|done]. intros [= <- <-].
    apply vid_of_range in E. split_and!; [by apply list.Forall_singleton|apply NoDup_singleton|cbn; lia|by exists v].
  - destruct (_ && _); [done|]. destruct (state_or_config sw "trunk-vlans") as [t|]; [|done]. cbn [mbind option_bind].
    destruct (trunk_vids existing _) as [vids|] eqn:E; [|done]. cbn [mbind option_bind]. intros [= <- <-]. apply trunk_vids_range in E; [|done].
    destruct (set_of_ok vids) as [Hn Hin]. split_and!.
    + apply List.Forall_map, list.Forall_forall. intros v Hv. cbn. rewrite list.Forall_forall in E. by apply E, Hin.
    + rewrite map_map. cbn. by rewrite map_id.
    + by apply one_native.
    + discriminate.
Qed.

Lemma existing_ok a : opt_ok (Forall (fun v => 1 <= v <= 4094)) (existing_vlans a).
Proof.
  unfold existing_vlans. destruct (has_answered a VLANS); [|done]. cbn [opt_ok]. apply list.Forall_forall. intros v Hv. apply set_of_ok in Hv.
  apply list_elem_of_omap in Hv as (x & _ & E). destruct (or_else _ _); [|done]. by apply vid_of_range in E.
Qed.

Lemma with_vlans_ok mode l k e : entry_ok (k, e) ->
  Forall (fun m => 1 <= vid m <= 4094) l -> NoDup (map vid l) -> (length (List.filter is_untagged l) <= 1)%nat ->
  (mode = None <-> l = []) -> (mode = Some (lit "access") -> exists v, l = [mkVlan v Untagged]) -> entry_ok (k, with_vlans mode l e).
Proof.
  intros (Hk & Ht & Hm & Hu & Hs & _ & Hn) H1 H2 H3 H4 H5. split; [done|]. unfold interface_ok, vlans_ok, neighbors_ok in *. cbn.
  split_and!; try done; by apply H4.
Qed.

Lemma vlan_loop_ok existing m : forall total m' complete, opt_ok (Forall (fun v => 1 <= v <= 4094)) existing -> Forall entry_ok m -> bare m ->
  vlan_loop existing m total = Ok (m', complete) ->
  Forall entry_ok m' /\ map fst m' = map fst m /\ Forall (fun e => if_neighbors (interface (snd e)) = None) m' /\
  (complete = true -> Forall (fun e => is_some (if_vlans (interface (snd e))) = true) m').
Proof.
  induction m as [|[k e] m IH]; intros total m' complete Hex Hm Hb; cbn [vlan_loop]; [intros [= <- <-]; repeat split; constructor|].
  apply list.Forall_cons in Hm as [He Hm]. apply list.Forall_cons in Hb as [(Hv & Hvm & Hn) Hb]. cbn [snd] in *.
  destruct (switched_vlan e) as [sw|].
  - destruct (membership sw existing) as [[mode l]|] eqn:Em.
    + destruct (_ <? _); [done|]. destruct (vlan_loop existing m _) as [[r c]|] eqn:El; [|done]. cbn [result_bind fst snd]. intros [= <- <-].
      apply IH in El as (H1 & H2 & H3 & H4); [|done..]. apply membership_ok in Em as (M1 & M2 & M3 & M4); [|done]. split_and!.
      * constructor; [|done]. apply with_vlans_ok; [done|done|done|done|by destruct l|]. destruct l as [|x l]; [done|]. intros [= ->]. by apply M4.
      * cbn. by rewrite H2.
      * constructor; [exact Hn|done].
      * intros ->. constructor; [done|by apply H4].
    + destruct (vlan_loop existing m total) as [[r c]|] eqn:El; [|done]. cbn [result_bind fst snd]. intros [= <- <-].
      apply IH in El as (H1 & H2 & H3 & _); [|done..]. split_and!; [by constructor|cbn; by rewrite H2|by constructor|done].
  - destruct (vlan_loop existing m total) as [[r c]|] eqn:El; [|done]. cbn [result_bind fst snd]. intros [= <- <-].
    apply IH in El as (H1 & H2 & H3 & H4); [|done..]. split_and!.
    + constructor; [|done]. rewrite Hvm. apply with_vlans_ok; [done|constructor|constructor|cbn; lia|done|done].
    + cbn. by rewrite H2.
    + constructor; [exact Hn|done].
    + intros ->. constructor; [done|by apply H4].
Qed.

(** *** Neighbors *)

Lemma tagged_id_ok (o : option bytes) kind x : (forall t, o = Some t -> text_ok t) -> tagged_id o kind = Some x -> text_ok (fst x).
Proof. intros Ho. unfold tagged_id. destruct o as [t|]; [|done]. intros [= <-]. by apply Ho. Qed.

Lemma gnmi_neighbor_of_ok ttl remote n : neighbor_of ttl remote = Some n -> neighbor_ok n.
Proof.
  unfold neighbor_of. destruct (leaf remote "chassis-id") as [c|]; [|done]. cbn [mbind option_bind].
  destruct (chassis_id_value _ c) as [cv|] eqn:Ec; [|done]. cbn [mbind option_bind]. destruct (leaf remote "port-id") as [p|]; [|done]. cbn [mbind option_bind].
  destruct (port_id_value _ p) as [pv|] eqn:Ep; [|done]. cbn [mbind option_bind]. intros [= <-]. unfold neighbor_ok.
  cbn [remote_chassis_id remote_port_id remote_system_name remote_port_description]. split_and!; [| |apply opt_text_of|apply opt_text_of].
  - unfold chassis_id_value in Ec.
    destruct (is_one_of _ _); [eapply tagged_id_ok in Ec; [exact Ec|apply mac_is_ok]|].
    destruct (is_one_of _ _); [eapply tagged_id_ok in Ec; [exact Ec|apply network_is_ok]|].
    destruct (is_one_of _ _); eapply tagged_id_ok in Ec; try exact Ec; apply opt_text_is_ok.
  - unfold port_id_value in Ep.
    destruct (is_one_of _ _); [eapply tagged_id_ok in Ep; [exact Ep|apply mac_is_ok]|].
    destruct (is_one_of _ _); eapply tagged_id_ok in Ep; try exact Ep; apply opt_text_is_ok.
Qed.

Lemma same_ids_spec a b : same_ids a b = true <-> ids a = ids b.
Proof.
  unfold same_ids, ids, str_eqb. rewrite andb_true_iff, !bool_decide_eq_true. split; [by intros [-> ->]|]. intros [= ? ?]. done.
Qed.

(** Neighbors and the sections that pushing one keeps. *)
Definition has_neighbors (e : Entry) : Prop := if_neighbors (interface e) <> None.

Lemma gnmi_push_neighbor_ok ttl k e remote : entry_ok (k, e) -> has_neighbors e ->
  entry_ok (k, push_neighbor ttl e remote) /\ has_neighbors (push_neighbor ttl e remote) /\
  if_vlans (interface (push_neighbor ttl e remote)) = if_vlans (interface e).
Proof.
  intros He Hh. unfold push_neighbor. destruct (neighbor_of ttl remote) as [n|] eqn:En; [|done]. apply gnmi_neighbor_of_ok in En.
  destruct He as (Hk & Ht & Hm & Hu & Hs & Hv & Hn). unfold has_neighbors in Hh. cbn [fst snd] in *. destruct (if_neighbors (interface e)) as [l|] eqn:El; [|done].
  split_and!; [|done|done]. split; [done|]. unfold interface_ok, neighbors_ok in *. rewrite El in Hn. destruct Hn as [Hd Hl]. cbn [snd with_neighbors interface if_name if_mac_address if_mtu if_speed_mbps if_neighbors or_nil].
  split_and!; try done; destruct (existsb (fun x => same_ids x n) l) eqn:Ex; try done; [|apply list.Forall_app; split; [done|by apply list.Forall_singleton]].
  rewrite map_app. apply list.NoDup_app. split_and!; [done| |apply NoDup_singleton]. intros x Hx Hx2%list_elem_of_singleton. subst x.
  apply list_elem_of_fmap_1 in Hx as (y & Hy & Hin). eapply eq_true_false_abs; [|exact Ex]. apply existsb_exists. exists y.
  split; [by apply list_elem_of_In|]. by apply same_ids_spec.
Qed.

Lemma push_all_ok ttl remotes : forall k e, entry_ok (k, e) -> has_neighbors e ->
  entry_ok (k, fold_left (push_neighbor ttl) remotes e) /\ has_neighbors (fold_left (push_neighbor ttl) remotes e) /\
  if_vlans (interface (fold_left (push_neighbor ttl) remotes e)) = if_vlans (interface e).
Proof.
  induction remotes as [|r rs IH]; intros k e He Hh; [done|]. cbn [fold_left]. destruct (gnmi_push_neighbor_ok ttl k e r He Hh) as (H1 & H2 & H3).
  destruct (IH k (push_neighbor ttl e r) H1 H2) as (H4 & H5 & H6). split_and!; [done|done|]. by rewrite H6.
Qed.

Definition attached (vlans : bool) (m : list (bytes * Entry)) : Prop :=
  Forall (fun e => entry_ok e /\ has_neighbors (snd e) /\ (vlans = true -> is_some (if_vlans (interface (snd e))) = true)) m.

Lemma attach_interface_ok ttl vlans m lldp : attached vlans m ->
  attached vlans (attach_interface ttl m lldp) /\ map fst (attach_interface ttl m lldp) = map fst m.
Proof.
  intros Hm. unfold attach_interface. destruct (text_of _) as [name|]; [|done]. split.
  - apply List.Forall_map. eapply Forall_impl; [|exact Hm]. intros [k e] (He & Hh & Hv). cbn [fst snd] in *. destruct (str_eqb k name); [|done].
    destruct (push_all_ok ttl (entries (get lldp (lit "neighbors")) "neighbor") k e He Hh) as (H1 & H2 & H3). split_and!; [done|done|]. cbn [snd]. by rewrite H3.
  - rewrite map_map. apply map_ext. intros [k e]. cbn. by destruct (str_eqb k name).
Qed.

Lemma gnmi_attach_neighbors_ok t m ttl vlans : Forall entry_ok m -> (vlans = true -> Forall (fun e => is_some (if_vlans (interface (snd e))) = true) m) ->
  attached vlans (attach_neighbors t m ttl) /\ map fst (attach_neighbors t m ttl) = map fst m.
Proof.
  intros Hm Hv. unfold attach_neighbors.
  assert (attached vlans (map (fun e : bytes * Entry => (fst e, with_neighbors [] (snd e))) m)) as H0.
  { apply List.Forall_map, list.Forall_forall. intros [k e] Hin. rewrite list.Forall_forall in Hm. destruct (Hm _ Hin) as (Hk & Ht & Hma & Hu & Hs & Hvl & Hn).
    cbn [fst snd] in *. split_and!; [|done|].
    - split; [done|]. unfold interface_ok, neighbors_ok. cbn. split_and!; try done; constructor.
    - intros Hc. specialize (Hv Hc). rewrite list.Forall_forall in Hv. exact (Hv _ Hin). }
  assert (map fst (map (fun e : bytes * Entry => (fst e, with_neighbors [] (snd e))) m) = map fst m) as <- by by rewrite map_map.
  revert H0. generalize (map (fun e : bytes * Entry => (fst e, with_neighbors [] (snd e))) m). clear Hm Hv m.
  induction (entries (get_in (get t (lit "lldp")) "interfaces") "interface") as [|x l IH]; intros m Hm; [done|]. cbn [fold_left].
  destruct (attach_interface_ok ttl vlans m x Hm) as [H1 H2]. destruct (IH _ H1) as [H3 H4]. split; [done|]. by rewrite H4.
Qed.

(** *** The switch *)

Lemma chassis_ok t c : chassis t = Some c -> text_ok (serial c).
Proof.
  unfold chassis. assert (Forall (fun x : bool * Chassis => text_ok (serial (snd x))) (omap chassis_of (entries (get t (lit "components")) "component"))) as Hl.
  { apply list.Forall_forall. intros [b x] Hin. apply list_elem_of_omap in Hin as (v & _ & E). unfold chassis_of in E. destruct (is_one_of _ _); [|done].
    destruct (text_of (leaf v "serial-no")) as [s|] eqn:Es; [|done]. injection E as <- <-. by apply text_of_ok in Es. }
  assert (opt_ok (fun x : bool * Chassis => text_ok (serial (snd x))) None) as H0 by done. revert H0 Hl. generalize (@None (bool * Chassis)).
  induction (omap chassis_of _) as [|x l IH]; intros best Hb Hl; cbn [first_without_parent].
  - destruct best as [b|]; [|done]. by intros [= <-].
  - apply list.Forall_cons in Hl as [Hx Hl]. apply IH; [|done]. destruct best as [b|]; [|done]. by destruct (_ && _).
Qed.

(** What the interfaces of the final map look like. *)
Lemma gnmi_report_ok m neighbors vlans : NoDup (map fst m) -> Forall entry_ok m -> Forall (fun e => is_some (if_neighbors (interface (snd e))) = neighbors) m ->
  (vlans = true -> Forall (fun e => is_some (if_vlans (interface (snd e))) = true) m) ->
  let l := map (fun e : bytes * Entry => interface (snd e)) m in
  NoDup (map if_name l) /\ Forall interface_ok l /\ Forall (fun i => is_some (if_neighbors i) = neighbors) l /\ (vlans = true -> Forall (fun i => if_vlans i <> None) l).
Proof.
  intros Hd Hm Hn Hv. cbn zeta. split_and!.
  - rewrite map_map. erewrite map_ext_in; [exact Hd|]. intros e He. rewrite list.Forall_forall in Hm. apply (Hm e). by apply list_elem_of_In.
  - apply List.Forall_map. eapply Forall_impl; [|exact Hm]. by intros e [_ He].
  - by apply List.Forall_map.
  - intros Hc. apply List.Forall_map. eapply Forall_impl; [|exact (Hv Hc)]. cbv beta. intros e He. by destruct (if_vlans (interface (snd e))).
Qed.

Definition switch_ok (target : bytes) (o : result (CollectorResource * Sections) MapError) : Prop :=
  match o with
  | Err _ => True
  | Ok (r, sections) =>
      cr_kind r = KSwitch /\ cr_target r = Some target /\
      opt_ok text_ok (ci_serial_number (cr_identifiers r)) /\ ci_serial_number (cr_identifiers r) <> None /\
      opt_ok text_ok (ci_hostname (cr_identifiers r)) /\
      match cr_interfaces r with
      | None => read_neighbors sections = false /\ read_vlans sections = false
      | Some l => NoDup (map if_name l) /\ Forall interface_ok l /\
                  Forall (fun i => is_some (if_neighbors i) = read_neighbors sections) l /\
                  (read_vlans sections = true -> Forall (fun i => if_vlans i <> None) l)
      end
  end.

Lemma gnmi_attach_vlans_ok a m m' c : Forall entry_ok m -> bare m -> attach_vlans a m = Ok (m', c) ->
  Forall entry_ok m' /\ map fst m' = map fst m /\ Forall (fun e => if_neighbors (interface (snd e)) = None) m' /\
  (c = true -> Forall (fun e => is_some (if_vlans (interface (snd e))) = true) m').
Proof.
  intros Hm Hb. unfold attach_vlans. destruct (forallb _ m).
  - intros [= <- <-]. split_and!; [done|done| |done]. eapply Forall_impl; [|exact Hb]. cbv beta. tauto.
  - intros H. eapply vlan_loop_ok in H; [done|apply existing_ok|done|done].
Qed.

Lemma gnmi_switch_is_ok target a ttl : switch_ok target (switch target a ttl).
Proof.
  unfold switch, switch_ok. destruct (chassis (tree a)) as [c|] eqn:Ec; [|done]. apply chassis_ok in Ec.
  destruct (has_answered a INTERFACES).
  2: { cbn [result_bind fst snd andb cr_kind cr_target cr_identifiers ci_serial_number ci_hostname cr_interfaces read_neighbors read_vlans]. split_and!; try done. apply opt_text_of. }
  destruct (gnmi_interfaces_ok (tree a)) as [[Hs Hm] Hb].
  destruct (attach_vlans a (interfaces (tree a))) as [[m c0]|] eqn:Ev; [|done]. eapply gnmi_attach_vlans_ok in Ev as (Hm' & Hk & Hn & Hc); [|done..].
  cbn [result_bind fst snd andb cr_kind cr_target cr_identifiers ci_serial_number ci_hostname cr_interfaces read_neighbors read_vlans].
  assert (NoDup (map fst m)) as Hd by (rewrite Hk; by apply bt_sorted_nodup).
  do 2 (split; [done|]). split; [exact Ec|]. split; [done|]. split; [apply opt_text_of|]. destruct (has_answered a LLDP).
  - destruct (gnmi_attach_neighbors_ok (tree a) m ttl c0 Hm' Hc) as [Ha Hka]. apply gnmi_report_ok.
    + by rewrite Hka.
    + eapply Forall_impl; [|exact Ha]. by intros e (? & _).
    + eapply Forall_impl; [|exact Ha]. intros e (_ & He & _). unfold has_neighbors in He. by destruct (if_neighbors (interface (snd e))).
    + intros Ht. eapply Forall_impl; [|exact Ha]. intros e (_ & _ & He). by apply He.
  - apply gnmi_report_ok; [done|done| |done]. eapply Forall_impl; [|exact Hn]. cbv beta. by intros e ->.
Qed.

(** Whatever tree a target's answers make, a switch it is reported as is well
    formed: identified by a serial number, its interfaces named apart, every text
    within the server's limit, MTU and speed within its integers, every interface in
    VLANs 1 to 4094, each once and at most one untagged, with neighbors only when LLDP
    was answered and the VLAN section claimed only when every port's membership is
    known. *)
Theorem gnmi_switch_well_formed (target : bytes) (a : Answers) (ttl : Z) : switch_ok target (switch target a ttl).
Proof. apply gnmi_switch_is_ok. Qed.
End well_formed.

(** ** One target *)

Inductive GetError := Unsupported (m : bytes) | GetFailed (m : bytes).

Section poll.
Context {J : SerdeJson}.

(** The loop of [poll_target]: [get] is the session's answer to each path. *)
Fixpoint gather (ask : bytes -> result (list Notification) GetError) (paths : list bytes) (a : Answers) : result Answers bytes :=
  match paths with
  | [] => Ok a
  | path :: paths' =>
      match ask path with
      | Ok ns => let? t := merge (tree a) ns in gather ask paths' (mkAnswers t (path :: answered a))
      | Err (Unsupported e) =>
          if str_eqb path COMPONENTS then Err (path ++ lit ": " ++ e) else gather ask paths' a
      | Err (GetFailed e) => Err (path ++ lit ": " ++ e)
      end
  end.

Definition poll_target (opened : result (bytes -> result (list Notification) GetError) bytes) (addr : bytes) (ttl : Z)
  : result (CollectorResource * Sections) bytes :=
  let? ask := opened in
  let? a := gather ask PATHS (mkAnswers VNull []) in
  switch addr a ttl.

(** A section is claimed only for a model the target answered. *)
Lemma gather_answered ask paths : forall a a', gather ask paths a = Ok a' ->
  forall p, p ∈ answered a' -> p ∈ answered a \/ exists ns, ask p = Ok ns.
Proof.
  induction paths as [|q paths IH]; intros a a'; cbn [gather]; [intros [= <-]; auto|]. destruct (ask q) as [ns|[e|e]] eqn:Eq; [| |done].
  - destruct (merge (tree a) ns) as [t|]; [|done]. cbn [result_bind]. intros H p Hp. apply (IH _ _ H) in Hp as [Hp|Hp]; [|auto]. cbn in Hp.
    apply elem_of_cons in Hp as [->|Hp]; eauto.
  - destruct (str_eqb q COMPONENTS); [done|]. intros H p Hp. by apply (IH _ _ H).
Qed.

(** A target is reported with neighbors only if it answered for LLDP and for
    interfaces, and with interfaces at all only if it answered for them; one that
    cannot answer for its components, or fails on any path, is not reported as a
    switch. *)
Theorem gnmi_reports_only_answers (ask : bytes -> result (list Notification) GetError) (addr : bytes) (ttl : Z) :
  match poll_target (Ok ask) addr ttl with
  | Ok (r, sections) =>
      is_ok (ask COMPONENTS) = true /\ Forall (fun p => forall e, ask p <> Err (GetFailed e)) PATHS /\
      (read_neighbors sections = true -> is_ok (ask LLDP) = true /\ is_ok (ask INTERFACES) = true) /\
      (read_vlans sections = true -> is_ok (ask INTERFACES) = true) /\
      (cr_interfaces r <> None -> is_ok (ask INTERFACES) = true)
  | Err _ => True
  end.
Proof.
  unfold poll_target. cbn [result_bind]. destruct (gather ask PATHS (mkAnswers VNull [])) as [a|e] eqn:Eg; [|done]. cbn [result_bind].
  assert (forall p, has_answered a p = true -> is_ok (ask p) = true) as Hans.
  { intros p Hp. apply existsb_exists in Hp as (q & Hq & Ep). apply bool_decide_eq_true in Ep as ->.
    apply list_elem_of_In, (gather_answered _ _ _ _ Eg) in Hq. destruct Hq as [Hq|[ns ->]]; [|done]. by apply not_elem_of_nil in Hq. }
  assert (forall paths a a', gather ask paths a = Ok a' -> Forall (fun p => forall e, ask p <> Err (GetFailed e)) paths /\ (COMPONENTS ∈ paths -> is_ok (ask COMPONENTS) = true)) as Hfail.
  { clear. induction paths as [|q paths IH]; intros a a'; cbn [gather]; [intros _; split; [constructor|set_solver]|].
    destruct (ask q) as [ns|[e|e]] eqn:Eq; [| |done].
    - destruct (merge (tree a) ns) as [t|]; [|done]. cbn [result_bind]. intros [H1 H2]%IH. split; [constructor; [congruence|done]|].
      intros [<-|Hp]%elem_of_cons; [by rewrite Eq|by apply H2].
    - unfold str_eqb. destruct (bool_decide (q = COMPONENTS)) eqn:Ec; [done|]. apply bool_decide_eq_false in Ec. intros [H1 H2]%IH. split; [constructor; [congruence|done]|].
      intros [E0|Hp]%elem_of_cons; [by rewrite E0 in Ec|by apply H2]. }
  destruct (Hfail _ _ _ Eg) as [H1 H2]. assert (COMPONENTS ∈ PATHS) as Hc by (right; left). specialize (H2 Hc). clear Hfail Hc.
  unfold switch. destruct (chassis (tree a)) as [c|]; [|done]. destruct (has_answered a INTERFACES) eqn:Ei.
  - destruct (attach_vlans _ _) as [[m v]|]; [|done]. cbn [result_bind fst snd andb read_neighbors read_vlans cr_interfaces].
    apply Hans in Ei. split_and!; try done. intros Hl. apply Hans in Hl. done.
  - cbn [result_bind fst snd andb read_neighbors read_vlans cr_interfaces]. done.
Qed.
End poll.

(** ** A small switch *)

#[local] Instance zero_json : SerdeJson := {| from_slice := fun _ => Err []; show_float := fun _ => [48] |}.

Definition obj (l : list (string * Value)) : Value := VObject (bt_of_list (map (fun e : string * Value => (lit (fst e), snd e)) l)).
Definition str (s : string) : Value := VString (lit s).
Definition lldp_neighbor (chassis_kind chassis_id port_id : string) : Value :=
  obj [("state", obj [("chassis-id-type", str chassis_kind); ("chassis-id", str chassis_id); ("port-id", str port_id)])]%string.

(** One trunk port allowing 1..4094 with native VLAN 10, on a switch with VLANs 10 and
    20, and its neighbors. *)
Definition small_tree (neighbors : list Value) : Answers := mkAnswers
  (obj [("components", obj [("component", VArray [obj [("state", obj [("type", str "openconfig-platform-types:CHASSIS"); ("serial-no", str "SN1")])]])]);
        ("interfaces", obj [("interface", VArray [obj
           [("name", str "e1"); ("state", obj [("type", str "iana-if-type:ethernetCsmacd"); ("mtu", VNumber (PosInt 9000))]);
            ("ethernet", obj [("state", obj [("port-speed", str "openconfig-if-ethernet:SPEED_10GB"); ("mac-address", str "AABB.CC00.0001")]);
                              ("switched-vlan", obj [("state", obj [("interface-mode", str "TRUNK"); ("trunk-vlans", VArray [str "1..4094"]); ("native-vlan", VNumber (PosInt 10))])])])]])]);
        ("network-instances", obj [("network-instance", VArray [obj [("vlans", obj [("vlan", VArray [obj [("vlan-id", VNumber (PosInt 20))]; obj [("vlan-id", VNumber (PosInt 10))]])])]])]);
        ("lldp", obj [("interfaces", obj [("interface", VArray [obj [("name", str "e1"); ("neighbors", obj [("neighbor", VArray neighbors)])]])])])]%string)
  PATHS.

Definition first_interface (r : result (CollectorResource * Sections) MapError) : option Interface :=
  match r with Ok (r, _) => let+ l := cr_interfaces r in head l | Err _ => None end.

Lemma gnmi_switch_well_formed_witness :
  let r := switch (lit "192.0.2.1") (small_tree []) 90 in
  switch_ok (lit "192.0.2.1") r /\
  first_interface r = Some (mkInterface (lit "e1") (lit "ethernet") (lit "unknown") (Some (lit "aa:bb:cc:00:00:01")) (Some 9000) (Some 10000) None
                              (Some (lit "trunk")) (Some [mkVlan 10 Untagged; mkVlan 20 Tagged]) (Some [])).
Proof.
  split; [|vm_compute; reflexivity]. apply gnmi_switch_well_formed. intros f. split; [done|]. cbn. lia.
Defined.

(** Neighbors are told apart by their IDs alone, without the kinds and without folding
    the case of names, as SNMP's are and as the server's are: two neighbors whose
    chassis names differ in case are both reported, *)
Theorem neighbors_differ_in_case :
  let r := first_interface (switch (lit "192.0.2.1") (small_tree [lldp_neighbor "INTERFACE_NAME" "Core-1" "7"; lldp_neighbor "INTERFACE_NAME" "core-1" "7"]) 90) in
  exists i a b, r = Some i /\ if_neighbors i = Some [a; b] /\ endpoint (map to_ascii_lowercase1) a = endpoint (map to_ascii_lowercase1) b.
Proof. vm_compute. do 3 eexists. repeat split. Qed.

(** and of two neighbors with the same IDs of different kinds only one is. *)
Theorem neighbors_of_other_kind_lost :
  let r := first_interface (switch (lit "192.0.2.1") (small_tree [lldp_neighbor "INTERFACE_NAME" "7" "7"; lldp_neighbor "LOCAL" "7" "7"]) 90) in
  exists i a, r = Some i /\ if_neighbors i = Some [a] /\ remote_chassis_id_kind a = lit "name".
Proof. vm_compute. do 2 eexists. repeat split. Qed.
