(* ===== verification/GnmiWire.v ===== *)
(** * gnmi/client.rs: one gNMI connection

    Files, name resolution, TLS and the gRPC channel are an arbitrary outside ([Grpc]).
    Every request that goes out is recorded with the endpoint it goes to. *)

From Stdlib Require Import String.
From S2P Require Import Prelude Text SnmpConfig GnmiConfig GnmiTree GnmiSwitch.

#[local] Set Warnings "-notation-overridden".

Definition ORIGIN : bytes := lit "openconfig".

(** proto.rs. *)
Inductive Encoding := EJson | EBytes | EProto | EAscii | EJsonIetf.
Definition encoding_number (e : Encoding) : Z := match e with EJson => 0 | EBytes => 1 | EProto => 2 | EAscii => 3 | EJsonIetf => 4 end.
Inductive DataType := AllData | ConfigData | StateData | OperationalData.
Record GetRequest := mkGetRequest { gr_origin : bytes; gr_path : Path; gr_type : DataType; gr_encoding : Encoding }.

(** [tonic::Status]: its code, as far as it is told apart, the code's name and the message. *)
Inductive Code := Unimplemented | NotFound | InvalidArgument | OtherCode.
Record Status := mkStatus { code : Code; code_name : bytes; message : bytes }.

Record ClientTls := mkClientTls { domain_name : bytes; ca_certificate : option bytes; identity : option (bytes * bytes) }.
Record Endpoint := mkEndpoint { uri : bytes; endpoint_timeout : Z; tls : option ClientTls }.

Inductive Call := Capabilities | Get (r : GetRequest).
Record Sent := mkSent { to : Endpoint; call_ : Call; sent_timeout : Z; sent_credentials : option (bytes * bytes) }.

Class Grpc := {
  outside_world : Type;
  read_to_string : bytes -> outside_world -> outside_world * result bytes bytes;
  read_bytes : bytes -> outside_world -> outside_world * result bytes bytes;
  from_shared : bytes -> result unit bytes;               (* is it a URI *)
  printable : bytes -> bool;                              (* [MetadataValue::try_from] *)
  tls_accepted : ClientTls -> result unit (list bytes);
  new_runtime : outside_world -> outside_world * result unit bytes;
  (* [None] when the time runs out; an error with its causes. *)
  connect : Endpoint -> Z -> outside_world -> outside_world * option (result unit (list bytes));
  capabilities : Sent -> outside_world -> outside_world * option (result (list Z) Status);
  answer_get : Sent -> outside_world -> outside_world * option (result (list Notification) Status) }.

Section client.
Context {G : Grpc}.
Abbreviation state := (outside_world * list Sent)%type.
Abbreviation M := (ST state bytes).

Definition asking {A} (f : outside_world -> outside_world * A) : M A := fun s => let '(w, a) := f (fst s) in ((w, snd s), Ok a).
Definition or_fail {A} (r : result A bytes) : M A := st_of_result r.

(** [chain]: causes that only repeat what is said are left out. *)
Fixpoint add_causes (text : bytes) (causes : list bytes) : bytes :=
  match causes with
  | [] => text
  | cause :: rest => add_causes (if contains_sub cause text then text else text ++ lit ": " ++ cause) rest
  end.
Definition chain (messages : list bytes) : bytes := match messages with [] => [] | first :: causes => add_causes first causes end.

Definition metadata (value : bytes) (name : string) : result bytes bytes :=
  if printable value then Ok value else Err (lit name ++ lit " must be printable ASCII").
Definition describe (s : Status) : bytes := code_name s ++ lit ": " ++ message s.

(** [trim_end_matches(['\r', '\n'])]. *)
Definition trim_newlines (s : bytes) : bytes := rev (drop_while (fun b => (b =? 13) || (b =? 10)) (rev s)).

Definition unreadable (path e : bytes) : bytes := lit "cannot read " ++ path ++ lit ": " ++ e.
Definition read (path : bytes) : M bytes := let* r := asking (read_bytes path) in or_fail (map_err (unreadable path) r).

Definition credentials_of (c : option Credentials) : M (option (bytes * bytes)) :=
  match c with
  | None => st_ret None
  | Some c =>
      let* r := asking (read_to_string (password_file c)) in
      let* text := or_fail (map_err (unreadable (password_file c)) r) in
      let* user := or_fail (metadata (username c) "username") in
      let* password := or_fail (metadata (trim_newlines text) "the password") in
      st_ret (Some (user, password))
  end.

Definition authority (target : Target) : bytes :=
  (if existsb (fun b => b =? 58) (host target) then [91] ++ host target ++ [93] else host target) ++ [58] ++ show_u64 (port target).
Definition scheme (t : Transport) : bytes := match t with Tls _ _ _ => lit "https" | Plaintext => lit "http" end.

Definition endpoint (debug : bytes -> bytes) (target : Target) (c : GnmiCollector) : M Endpoint :=
  let uri := scheme (gnmi_transport c) ++ lit "://" ++ authority target in
  let* _ := or_fail (map_err (fun e => debug (address target) ++ lit " is not a usable address: " ++ e) (from_shared uri)) in
  match gnmi_transport c with
  | Plaintext => st_ret (mkEndpoint uri (gnmi_timeout c) None)
  | Tls ca_file client_identity server_name =>
      let* ca := match ca_file with Some f => let* pem := read f in st_ret (Some pem) | None => st_ret None end in
      let* id := match client_identity with
                 | Some i => let* cert := read (cert_file i) in let* key := read (key_file i) in st_ret (Some (cert, key))
                 | None => st_ret None
                 end in
      let config := mkClientTls (match server_name with Some n => n | None => host target end) ca id in
      let* _ := or_fail (map_err (fun e => lit "cannot set up TLS: " ++ chain e) (tls_accepted config)) in
      st_ret (mkEndpoint uri (gnmi_timeout c) (Some config))
  end.

Definition encoding (supported : list Z) : result Encoding bytes :=
  let offers := fun e => existsb (Z.eqb (encoding_number e)) supported in
  if bool_decide (supported = []) || offers EJsonIetf then Ok EJsonIetf
  else if offers EJson then Ok EJson
  else Err (lit "the target supports neither JSON_IETF nor JSON encoding").

Record WireSession := mkWireSession { channel : Endpoint; session_credentials : option (bytes * bytes); session_encoding : Encoding; session_timeout : Z }.

(** [call]: the answer, or the deadline. *)
Definition call {A} (s : WireSession) (what : Call) (perform : Sent -> outside_world -> outside_world * option (result A Status)) : Run state (result A Status) := fun st =>
  let sent := mkSent (channel s) what (session_timeout s) (session_credentials s) in
  let '(w, r) := perform sent (fst st) in
  ((w, snd st ++ [sent]), match r with Some r => r | None => Err (mkStatus OtherCode (lit "DeadlineExceeded") (lit "gNMI request timed out")) end).

Definition open (debug : bytes -> bytes) (target : Target) (c : GnmiCollector) : M WireSession :=
  let* started := asking new_runtime in
  let* _ := or_fail (map_err (fun e => lit "cannot start the gNMI runtime: " ++ e) started) in
  let* credentials := credentials_of (gnmi_credentials c) in
  let* endpoint := endpoint debug target c in
  let* connected := asking (connect endpoint (gnmi_timeout c)) in
  let* _ := or_fail (match connected with
                     | None => Err (lit "cannot connect: timed out")
                     | Some r => map_err (fun e => lit "cannot connect: " ++ chain e) r
                     end) in
  let s := mkWireSession endpoint credentials EJsonIetf (gnmi_timeout c) in
  let* supported := (fun st => let '(st, r) := call s Capabilities capabilities st in (st, map_err describe r)) in
  let* e := or_fail (encoding supported) in
  st_ret (mkWireSession endpoint credentials e (gnmi_timeout c)).

(** [Session::get]. *)
Definition get_error (s : Status) : GetError :=
  match code s with Unimplemented | NotFound | InvalidArgument => Unsupported (describe s) | OtherCode => GetFailed (describe s) end.
Definition get (s : WireSession) (path : bytes) : Run state (result (list Notification) GetError) := fun st =>
  let '(st, r) := call s (Get (mkGetRequest ORIGIN (from_names path) AllData (session_encoding s))) answer_get st in
  (st, map_err get_error r).
End client.

(** ** Requests go where and how the module says *)

Section requests.
Context {G : Grpc}.
Variables (debug : bytes -> bytes) (target : Target) (c : GnmiCollector).
Abbreviation state := (outside_world * list Sent)%type.

(** [content] is what the file held when it was read. *)
Definition held (path content : bytes) : Prop := exists w w', read_bytes path w = (w', Ok content).
Definition held_text (path content : bytes) : Prop := exists w w', read_to_string path w = (w', Ok content).

Definition to_target (e : Endpoint) : Prop :=
  uri e = scheme (gnmi_transport c) ++ lit "://" ++ authority target /\ endpoint_timeout e = gnmi_timeout c /\
  match gnmi_transport c with
  | Plaintext => tls e = None
  | Tls ca_file client_identity server_name => exists config, tls e = Some config /\
      domain_name config = match server_name with Some n => n | None => host target end /\
      match ca_file, ca_certificate config with
      | Some f, Some pem => held f pem
      | None, None => True
      | _, _ => False
      end /\
      match client_identity, identity config with
      | Some i, Some (cert, key) => held (cert_file i) cert /\ held (key_file i) key
      | None, None => True
      | _, _ => False
      end
  end.

Definition newline (b : Z) : Prop := b = 13 \/ b = 10.
(** The configured user, with the text of the password file less the newlines at its end. *)
Definition as_configured (credentials : option (bytes * bytes)) : Prop :=
  match gnmi_credentials c, credentials with
  | None, None => True
  | Some conf, Some (user, password) =>
      user = username conf /\ printable user = true /\ printable password = true /\
      exists text ends, held_text (password_file conf) text /\ text = password ++ ends /\ Forall newline ends /\
        (forall front b, password = front ++ [b] -> ~ newline b)
  | _, _ => False
  end.
(** An encoding the target said it has when asked, or it named none. *)
Definition offered (e : Encoding) : Prop :=
  (e = EJsonIetf \/ e = EJson) /\
  exists sent w w' l, to_target (to sent) /\ as_configured (sent_credentials sent) /\ call_ sent = Capabilities /\
    capabilities sent w = (w', Some (Ok l)) /\ (l = [] \/ encoding_number e ∈ l).
Definition request_ok (x : Sent) : Prop :=
  to_target (to x) /\ as_configured (sent_credentials x) /\ sent_timeout x = gnmi_timeout c /\
  match call_ x with Capabilities => True | Get r => gr_origin r = ORIGIN /\ gr_type r = AllData /\ offered (gr_encoding r) end.

Lemma bind_asking {A B} (f : outside_world -> outside_world * A) (k : A -> ST state bytes B) s : st_bind (asking f) k s = k (snd (f (fst s))) (fst (f (fst s)), snd s).
Proof. unfold st_bind, asking. by destruct (f (fst s)). Qed.

(** [m] sends nothing, and what it gives is [Q]. *)
Definition silent {A} (m : ST state bytes A) (Q : A -> Prop) : Prop := forall s, snd (fst (m s)) = snd s /\ forall a, snd (m s) = Ok a -> Q a.

Lemma silent_asking {A} (f : outside_world -> outside_world * A) : silent (asking f) (fun _ => True).
Proof. intros s. unfold asking. by destruct (f (fst s)). Qed.
Lemma silent_said {A} (f : outside_world -> outside_world * A) : silent (asking f) (fun a => exists w w', f w = (w', a)).
Proof. intros s. unfold asking. destruct (f (fst s)) as [w a] eqn:Ef. split; [done|]. intros a' [= <-]. by exists (fst s), w. Qed.
Lemma silent_result {A} (r : result A bytes) (Q : A -> Prop) : (forall a, r = Ok a -> Q a) -> silent (or_fail r) Q.
Proof. intros H s. split; [done|]. exact H. Qed.
Lemma silent_ret {A} (a : A) (Q : A -> Prop) : Q a -> silent (st_ret a) Q.
Proof. intros H s. split; [done|]. by intros b [= <-]. Qed.
Lemma silent_bind {A B} (m : ST state bytes A) (k : A -> ST state bytes B) (R : A -> Prop) (Q : B -> Prop) :
  silent m R -> (forall a, R a -> silent (k a) Q) -> silent (st_bind m k) Q.
Proof.
  intros Hm Hk s. destruct (Hm s) as [H1 H2]. unfold st_bind. destruct (m s) as [s1 [a|e]]; cbn [fst snd] in *; [|split; [done|done]].
  destruct (Hk a (H2 a eq_refl) s1) as [H3 H4]. split; [congruence|done].
Qed.
Create HintDb silent.
#[local] Hint Resolve silent_asking silent_ret : silent.

Lemma silent_read path : silent (read path) (held path).
Proof.
  eapply silent_bind; [apply silent_said|]. intros r (w & w' & Hr). apply silent_result. destruct r as [x|]; [|done].
  intros a [= <-]. by exists w, w'.
Qed.

Lemma drop_while_app (f : Z -> bool) (l : bytes) : exists front,
  l = front ++ drop_while f l /\ Forall (fun b => f b = true) front /\ forall b rest, drop_while f l = b :: rest -> f b = false.
Proof.
  induction l as [|x l (front & E1 & Hf & Hd)]; [by exists []|]. cbn [drop_while]. destruct (f x) eqn:Hx.
  - exists (x :: front). cbn [app]. split_and!; [by f_equal|by constructor|done].
  - exists []. split_and!; [done|constructor|]. by intros b rest [= <- _].
Qed.

(** What is trimmed is newlines, and all of them. *)
Lemma trim_newlines_spec text : exists ends, text = trim_newlines text ++ ends /\ Forall newline ends /\
  forall front b, trim_newlines text = front ++ [b] -> ~ newline b.
Proof.
  unfold trim_newlines. set (f := fun b : Z => _). destruct (drop_while_app f (rev text)) as (front & E1 & Hf & Hd).
  assert (forall b, f b = true <-> newline b) as Hn.
  { intros b. unfold f, newline. rewrite orb_true_iff, !Z.eqb_eq. done. }
  exists (rev front). split_and!.
  - by rewrite <- rev_app_distr, <- E1, rev_involutive.
  - apply List.Forall_rev. eapply list.Forall_impl; [exact Hf|]. intros b. apply Hn.
  - intros front' b E2 Hb%Hn. apply (f_equal (@rev Z)) in E2. rewrite rev_involutive, rev_unit in E2. apply Hd in E2. congruence.
Qed.

Lemma silent_credentials : silent (credentials_of (gnmi_credentials c)) as_configured.
Proof.
  unfold credentials_of, as_configured. destruct (gnmi_credentials c) as [conf|]; [|by apply silent_ret].
  eapply silent_bind; [apply silent_said|]. intros r (w & w' & Hr).
  eapply (silent_bind _ _ (held_text (password_file conf))).
  { apply silent_result. destruct r as [x|]; [|done]. intros a [= <-]. by exists w, w'. }
  intros text Ht.
  eapply (silent_bind _ _ (fun u => u = username conf /\ printable u = true)).
  { apply silent_result. unfold metadata. destruct (printable (username conf)) eqn:Hp; [|done]. by intros a [= <-]. }
  intros u [-> Hu]. eapply (silent_bind _ _ (fun p => p = trim_newlines text /\ printable p = true)).
  { apply silent_result. unfold metadata. destruct (printable (trim_newlines text)) eqn:Hp; [|done]. by intros a [= <-]. }
  intros p [-> Hp]. apply silent_ret. destruct (trim_newlines_spec text) as (ends & E1 & He & Hl).
  split_and!; try done. by exists text, ends.
Qed.

Lemma silent_endpoint : silent (endpoint debug target c) to_target.
Proof.
  unfold endpoint, to_target. eapply (silent_bind _ _ (fun _ => True)); [by apply silent_result|]. intros _ _.
  destruct (gnmi_transport c) as [ca id name|]; [|by apply silent_ret].
  eapply (silent_bind _ _ (fun pem => match ca, pem with Some f, Some pem => held f pem | None, None => True | _, _ => False end)).
  { destruct ca; [|by apply silent_ret]. eapply silent_bind; [apply silent_read|]. intros; by apply silent_ret. }
  intros pem Hpem. eapply (silent_bind _ _ (fun pair => match id, pair with
    | Some i, Some (cert, key) => held (cert_file i) cert /\ held (key_file i) key | None, None => True | _, _ => False end)).
  { destruct id; [|by apply silent_ret]. eapply silent_bind; [apply silent_read|]. intros cert Hcert.
    eapply silent_bind; [apply silent_read|]. intros; by apply silent_ret. }
  intros pair Hpair. eapply (silent_bind _ _ (fun _ => True)); [by apply silent_result|]. intros _ _. apply silent_ret.
  split; [done|]. split; [done|]. by eexists.
Qed.

Lemma encoding_offered l e : encoding l = Ok e -> (e = EJsonIetf \/ e = EJson) /\ (l = [] \/ encoding_number e ∈ l).
Proof.
  assert (forall x, existsb (Z.eqb x) l = true -> x ∈ l) as Hin by (intros x (y & Hy & ->%Z.eqb_eq)%existsb_exists; by apply list_elem_of_In).
  unfold encoding. cbv zeta beta. destruct (_ || _) eqn:E1.
  - intros [= <-]. split; [auto|]. apply orb_true_iff in E1 as [E1|E1]; [left; by apply bool_decide_eq_true in E1|right; by apply Hin].
  - destruct (existsb (Z.eqb (encoding_number EJson)) l) eqn:E2; [|done]. intros [= <-]. split; [auto|]. right. by apply Hin.
Qed.

Definition session_ok (s : WireSession) : Prop :=
  to_target (channel s) /\ as_configured (session_credentials s) /\ session_timeout s = gnmi_timeout c /\ offered (session_encoding s).

(** Opening sends nothing but the question for capabilities, and a session only after it. *)
Lemma open_requests st st' r : open debug target c st = (st', r) ->
  exists log, snd st' = snd st ++ log /\ Forall request_ok log /\ (log = [] \/ exists x, log = [x] /\ call_ x = Capabilities) /\
    forall s, r = Ok s -> session_ok s /\ log <> [].
Proof.
  assert (forall (st1 : state) r1 e, snd st1 = snd st -> r1 = Err e -> (st1, r1) = (st', r) ->
    exists log, snd st' = snd st ++ log /\ Forall request_ok log /\ (log = [] \/ exists x, log = [x] /\ call_ x = Capabilities) /\
      forall s, r = Ok s -> session_ok s /\ log <> []) as Hquiet.
  { intros st1 r1 e El -> [= <- <-]. exists []. rewrite app_nil_r. split_and!; [done|constructor|by left|done]. }
  unfold open. rewrite bind_asking. destruct (new_runtime (fst st)) as [w1 started]. cbn [fst snd].
  unfold st_bind at 1, or_fail at 1, st_of_result at 1. destruct (map_err _ started) as [[]|e]; [|by apply (Hquiet _ _ e)].
  unfold st_bind at 1. destruct (silent_credentials (w1, snd st)) as [L2 Q2]. destruct (credentials_of _ _) as [s2 [cr|e]]; cbn [fst snd] in L2, Q2; [|by apply (Hquiet _ _ e)].
  unfold st_bind at 1. destruct (silent_endpoint s2) as [L3 Q3]. destruct (endpoint debug target c s2) as [s3 [ep|e]]; cbn [fst snd] in L3, Q3; [|apply (Hquiet _ _ e); congruence].
  rewrite bind_asking. destruct (connect ep (gnmi_timeout c) (fst s3)) as [w4 connected]. cbn [fst snd]. unfold st_bind at 1, or_fail at 1, st_of_result at 1.
  destruct (match connected with Some _ => _ | None => _ end) as [[]|e]; [|apply (Hquiet _ _ e); cbn [snd]; congruence].
  unfold st_bind at 1, call. cbn [channel session_timeout session_credentials fst snd].
  set (sent := mkSent _ _ _ _). assert (request_ok sent) as Hs by (split; [by apply Q3|]; split; [by apply Q2|done]).
  intros E. exists [sent].
  enough (snd st' = snd s3 ++ [sent] /\ forall s, r = Ok s -> session_ok s) as [El Hr].
  { rewrite El, L3, L2. split_and!; [done|by constructor|right; by exists sent|]. intros s Hok. split; [by apply Hr|done]. }
  destruct (capabilities sent w4) as [w5 [[l|status]|]] eqn:Ec; cbn [map_err] in E; [|by injection E as <- <-|by injection E as <- <-].
  unfold st_bind, or_fail, st_of_result in E. destruct (encoding l) as [e|e] eqn:Ee; [|by injection E as <- <-]. injection E as <- <-. split; [done|].
  intros s [= <-]. apply encoding_offered in Ee as [He Hin]. split; [by apply Q3|]. split; [by apply Q2|]. split; [done|]. split; [done|].
  exists sent, w4, w5, l. split; [by apply Q3|]. split; [by apply Q2|done].
Qed.
End requests.
