(* ===== verification/XmlDepth.v ===== *)
(** * libvirt/domain.rs: the nesting bound

    [nesting_depth] bounds how deep an XML text nests before a recursive parser sees
    it.  The scan is over the rest of the text; documents are written out from trees,
    and the bound of a written document is its depth. *)

From Stdlib Require Import String.
From S2P Require Import Prelude Text.

#[local] Set Warnings "-notation-overridden".

Definition MAX_XML_DEPTH : nat := 64.

(** [skip_past]: the text after the first [end_], or nothing. *)
Definition skip_past (end_ s : bytes) : bytes :=
  match find_sub end_ s with Some i => drop (i + length end_) s | None => [] end.

(** The inner loop over a start tag, from [cursor]: whether it closes itself, and the
    text after its [>]. *)
Fixpoint start_tag (prev : Z) (quote : option Z) (s : bytes) : bool * bytes :=
  match s with
  | [] => (false, [])
  | b :: s' =>
      match quote with
      | Some open => start_tag b (if b =? open then None else quote) s'
      | None => if (b =? 34) || (b =? 39) then start_tag b (Some b) s'
                else if b =? 62 then (prev =? 47, s')
                else start_tag b None s'
      end
  end.

(** The outer loop; every round takes at least a byte. *)
Fixpoint depth_from (fuel : nat) (s : bytes) (depth deepest : nat) : nat :=
  match fuel with
  | O => deepest
  | S fuel' =>
      match s with
      | [] => deepest
      | b :: s' =>
          if negb (b =? 60) then depth_from fuel' s' depth deepest
          else if starts_with (lit "<!--") s then depth_from fuel' (skip_past (lit "-->") (drop 4 s)) depth deepest
          else if starts_with (lit "<![CDATA[") s then depth_from fuel' (skip_past (lit "]]>") (drop 9 s)) depth deepest
          else if starts_with (lit "<?") s then depth_from fuel' (skip_past (lit "?>") (drop 2 s)) depth deepest
          else if starts_with (lit "<!") s then depth_from fuel' (skip_past (lit ">") (drop 2 s)) depth deepest
          else if starts_with (lit "</") s then depth_from fuel' (skip_past (lit ">") (drop 2 s)) (depth - 1) deepest
          else
            let '(self_closing, rest) := start_tag 60 None s' in
            let deepest := Nat.max deepest (S depth) in
            depth_from fuel' rest (if self_closing then depth else S depth) deepest
      end
  end.

Definition nesting_depth (xml : bytes) : nat := depth_from (length xml) xml 0 0.

(** ** The loop ends *)

Lemma skip_past_length end_ s : (length (skip_past end_ s) <= length s)%nat.
Proof. unfold skip_past. destruct (find_sub end_ s); [rewrite length_drop; lia|cbn; lia]. Qed.

Lemma start_tag_length s : forall prev quote c r, start_tag prev quote s = (c, r) -> (length r <= length s)%nat.
Proof.
  induction s as [|b s IH]; intros prev quote c r; cbn [start_tag]; [intros [= _ <-]; cbn; lia|].
  destruct quote; [intros H%IH; cbn; lia|]. destruct (_ || _); [intros H%IH; cbn; lia|]. destruct (b =? 62); [intros [= _ <-]; cbn; lia|intros H%IH; cbn; lia].
Qed.

(** Any fuel beyond the text's length gives the same. *)
Lemma depth_from_enough : forall f g s d m, (length s <= f)%nat -> (length s <= g)%nat -> depth_from f s d m = depth_from g s d m.
Proof.
  induction f as [|f IH]; intros g s d m Hf Hg; [destruct s; [by destruct g|cbn in Hf; lia]|].
  destruct s as [|b s]; [by destruct g|]. destruct g as [|g]; [cbn in Hg; lia|]. cbn [length] in Hf, Hg. cbn [depth_from].
  assert (forall e n d' m', (1 <= n)%nat -> depth_from f (skip_past e (drop n (b :: s))) d' m' = depth_from g (skip_past e (drop n (b :: s))) d' m') as Hskip.
  { intros e n d' m' Hn. pose proof (skip_past_length e (drop n (b :: s))) as Hl. rewrite length_drop in Hl. cbn [length] in Hl. apply IH; lia. }
  destruct (negb (b =? 60)); [apply IH; lia|]. repeat (destruct (starts_with _ (b :: s)); [apply Hskip; lia|]).
  destruct (start_tag 60 None s) as [c r] eqn:E. apply start_tag_length in E. apply IH; lia.
Qed.

(** [depth_from] with enough fuel. *)
Definition scan (s : bytes) (d m : nat) : nat := depth_from (length s) s d m.

Lemma scan_step s d m f : (length s <= f)%nat -> depth_from f s d m = scan s d m.
Proof. intros H. apply depth_from_enough; [done|done]. Qed.

(** ** Documents *)

Inductive quote_mark := Single | Double.
Definition mark (q : quote_mark) : Z := match q with Single => 39 | Double => 34 end.

Record attribute := mkAttribute { at_name : bytes; at_quote : quote_mark; at_value : bytes }.

Inductive item :=
| Element (name : bytes) (attrs : list attribute) (children : list item)
| Empty (name : bytes) (attrs : list attribute)
| CharData (t : bytes)
| Comment (t : bytes)
| CData (t : bytes)
| Instruction (t : bytes)
| Declaration (t : bytes).      (* [<!DOCTYPE ...>], without an internal subset *)

Definition write_attribute (a : attribute) : bytes := [32] ++ at_name a ++ [61; mark (at_quote a)] ++ at_value a ++ [mark (at_quote a)].
Definition write_attributes (l : list attribute) : bytes := concat (map write_attribute l).

Fixpoint write (i : item) : bytes :=
  match i with
  | Element n attrs cs => [60] ++ n ++ write_attributes attrs ++ [62] ++ concat (map write cs) ++ [60; 47] ++ n ++ [62]
  | Empty n attrs => [60] ++ n ++ write_attributes attrs ++ [47; 62]
  | CharData t => t
  | Comment t => lit "<!--" ++ t ++ lit "-->"
  | CData t => lit "<![CDATA[" ++ t ++ lit "]]>"
  | Instruction t => lit "<?" ++ t ++ lit "?>"
  | Declaration t => lit "<!" ++ t ++ lit ">"
  end.

Fixpoint element_depth (i : item) : nat :=
  match i with
  | Element _ _ cs => S (fold_right Nat.max 0%nat (map element_depth cs))
  | Empty _ _ => 1
  | _ => 0
  end.

(** Names and values as XML allows them: no markup in a name, no quote or [<] of its own
    in a value, nothing ends a comment, a section, an instruction or a declaration early,
    and a declaration opens neither a comment nor a section. *)
Definition name_char (b : Z) : bool := negb (existsb (Z.eqb b) [60; 62; 34; 39; 47; 33; 63]).
Definition is_name (n : bytes) : bool := match n with [] => false | _ => forallb name_char n end.
Definition attribute_ok (a : attribute) : bool := is_name (at_name a) && negb (existsb (Z.eqb (mark (at_quote a))) (at_value a)).
Definition ends_at (end_ t : bytes) : bool := bool_decide (find_sub end_ (t ++ end_) = Some (length t)).

Definition declares (t : bytes) : bool := match t with [] => false | b :: _ => negb ((b =? 45) || (b =? 91)) end.

Fixpoint item_ok (i : item) : bool :=
  match i with
  | Element n attrs cs => is_name n && forallb attribute_ok attrs && forallb item_ok cs
  | Empty n attrs => is_name n && forallb attribute_ok attrs
  | CharData t => negb (existsb (Z.eqb 60) t)
  | Comment t => ends_at (lit "-->") t
  | CData t => ends_at (lit "]]>") t
  | Instruction t => ends_at (lit "?>") t
  | Declaration t => declares t && ends_at (lit ">") t
  end.

(** Induction through children. *)
Section item_ind'.
Variable P : item -> Prop.
Hypotheses (He : forall n attrs cs, Forall P cs -> P (Element n attrs cs)) (Hm : forall n attrs, P (Empty n attrs)) (Ht : forall t, P (CharData t))
  (Hc : forall t, P (Comment t)) (Hd : forall t, P (CData t)) (Hi : forall t, P (Instruction t))
  (Hl : forall t, P (Declaration t)).
Fixpoint item_ind' (i : item) : P i :=
  match i with
  | Element n attrs cs => He n attrs cs ((fix go l : Forall P l := match l with [] => List.Forall_nil P | x :: l' => @List.Forall_cons _ P x l' (item_ind' x) (go l') end) cs)
  | Empty n attrs => Hm n attrs
  | CharData t => Ht t
  | Comment t => Hc t
  | CData t => Hd t
  | Instruction t => Hi t
  | Declaration t => Hl t
  end.
End item_ind'.

(** ** What the scan does on each kind of item *)

Lemma scan_text t rest d m : existsb (Z.eqb 60) t = false -> scan (t ++ rest) d m = scan rest d m.
Proof.
  induction t as [|b t IH]; [done|]. cbn [existsb]. intros [Hb Ht]%orb_false_iff. unfold scan at 1. cbn [app length depth_from].
  rewrite Z.eqb_sym, Hb. cbn [negb]. rewrite scan_step by done. by apply IH.
Qed.

Lemma starts_with_front p a r : (length p <= length a)%nat -> starts_with p (a ++ r) = starts_with p a.
Proof.
  intros Hl. destruct (starts_with p a) eqn:E.
  - apply starts_with_spec in E as [q ->]. apply starts_with_spec. exists (q ++ r). by rewrite app_assoc.
  - destruct (starts_with p (a ++ r)) eqn:E2; [|done]. apply starts_with_spec in E2 as [q E2].
    assert (a = p ++ drop (length p) a) as Ha.
    { rewrite <- (take_drop (length p) a) at 1. f_equal. rewrite <- (take_app_le a r) by done. by rewrite E2, take_app_length. }
    by rewrite (proj2 (starts_with_spec p a)) in E by eauto.
Qed.

Lemma find_sub_length p s k : find_sub p s = Some k -> (length p <= length s)%nat.
Proof.
  revert k. induction s as [|b s IH]; intros k; cbn [find_sub].
  - destruct (starts_with p []) eqn:E; [|done]. apply starts_with_spec in E as [r E]. symmetry in E. apply app_nil in E as [-> _]. done.
  - destruct (starts_with p (b :: s)) eqn:E; [|destruct (find_sub p s) as [j|]; [|done]; intros _; specialize (IH j eq_refl); cbn; lia].
    apply starts_with_spec in E as [r E]. rewrite E, length_app. lia.
Qed.

Lemma skip_past_end end_ t rest : ends_at end_ t = true -> skip_past end_ (t ++ end_ ++ rest) = rest.
Proof.
  intros H%bool_decide_eq_true. unfold skip_past. assert (find_sub end_ (t ++ end_ ++ rest) = Some (length t)) as ->.
  2: { rewrite drop_app_ge by lia. replace (length t + length end_ - length t)%nat with (length end_) by lia. apply drop_app_length. }
  rewrite app_assoc. revert H. generalize (length t). induction (t ++ end_) as [|b s IH]; intros n H.
  - cbn in H. destruct (starts_with end_ []) eqn:E; [|done]. injection H as <-. apply starts_with_spec in E as [r E]. symmetry in E. apply app_nil in E as [-> ->].
    cbn [app]. by destruct rest.
  - cbn [app find_sub] in *. destruct (starts_with end_ (b :: s)) eqn:E.
    + injection H as <-. apply starts_with_spec in E as [r E]. assert (starts_with end_ (b :: s ++ rest) = true) as ->; [|done].
      apply starts_with_spec. exists (r ++ rest). rewrite app_assoc, <- E. done.
    + destruct (find_sub end_ s) as [k|] eqn:E3; [|done]. injection H as <-. destruct (starts_with end_ (b :: s ++ rest)) eqn:E2; [|by rewrite (IH k)].
      exfalso. apply find_sub_length in E3. change (b :: s ++ rest) with ((b :: s) ++ rest) in E2. rewrite starts_with_front in E2 by (cbn [length]; lia). by rewrite E in E2.
Qed.

(** A start tag's attributes keep the scan inside the tag. *)
Lemma start_name n : forall prev s, forallb name_char n = true -> n <> [] -> exists prev', start_tag prev None (n ++ s) = start_tag prev' None s /\ prev' <> 47.
Proof.
  induction n as [|b n IH]; intros prev s Hn Hne; [done|]. cbn [forallb] in Hn. apply andb_true_iff in Hn as [Hb Hn]. cbn [app start_tag].
  unfold name_char in Hb. cbn [existsb] in Hb. rewrite !negb_orb in Hb. repeat (apply andb_true_iff in Hb as [? Hb]).
  rewrite (proj2 (Z.eqb_neq b 34)), (proj2 (Z.eqb_neq b 39)), (proj2 (Z.eqb_neq b 62)) by lia. cbn [orb].
  destruct n as [|b' n]; [exists b; split; [done|lia]|]. by apply IH.
Qed.

Lemma quoted q v : forall prev s, existsb (Z.eqb (mark q)) v = false -> start_tag prev (Some (mark q)) (v ++ mark q :: s) = start_tag (mark q) None s.
Proof.
  induction v as [|b v IH]; intros prev s Hv; cbn [app start_tag]; [by rewrite Z.eqb_refl|]. cbn [existsb] in Hv. apply orb_false_iff in Hv as [Hb Hv].
  rewrite Z.eqb_sym, Hb. by apply IH.
Qed.

Lemma attributes_inside attrs : forall prev s, forallb attribute_ok attrs = true -> prev <> 47 ->
  exists prev', start_tag prev None (write_attributes attrs ++ s) = start_tag prev' None s /\ prev' <> 47.
Proof.
  induction attrs as [|[n q v] attrs IH]; intros prev s Ha Hp; [by exists prev|]. cbn [forallb] in Ha. apply andb_true_iff in Ha as [Ha Has].
  unfold attribute_ok in Ha. cbn in Ha. apply andb_true_iff in Ha as [Hn Hv]. apply negb_true_iff in Hv.
  unfold write_attributes. cbn [map concat]. fold (write_attributes attrs). unfold write_attribute. cbn [at_name at_quote at_value]. rewrite <- !app_assoc. cbn [app].
  cbn [start_tag]. change (32 =? 34) with false. change (32 =? 39) with false. change (32 =? 62) with false. cbn [orb].
  destruct (start_name n 32 (61 :: mark q :: v ++ mark q :: write_attributes attrs ++ s)) as (p1 & E1 & _); [unfold is_name in Hn; by destruct n|by destruct n|].
  rewrite E1. cbn [start_tag]. change (61 =? 34) with false. change (61 =? 39) with false. change (61 =? 62) with false. cbn [orb].
  assert ((mark q =? 34) || (mark q =? 39) = true) as -> by by destruct q. rewrite quoted by done. apply IH; [done|by destruct q].
Qed.

(** A start tag up to its [tail]. *)
Lemma scan_tag n attrs tail rest self d m : is_name n = true -> forallb attribute_ok attrs = true ->
  (forall prev, prev <> 47 -> start_tag prev None tail = (self, rest)) -> (length rest <= length tail)%nat ->
  scan ([60] ++ n ++ write_attributes attrs ++ tail) d m = scan rest (if (self : bool) then d else S d) (Nat.max m (S d)).
Proof.
  intros Hn Ha Htail Hlen. unfold scan at 1. cbn [app length depth_from]. change (60 =? 60) with true. cbn [negb].
  assert (forall p, starts_with (60 :: p) (60 :: n ++ write_attributes attrs ++ tail) = starts_with p (n ++ write_attributes attrs ++ tail)) as Hs.
  { intros p. unfold starts_with. cbn [strip_prefix]. by rewrite Z.eqb_refl. }
  destruct n as [|c n]; [done|]. cbn [is_name forallb] in Hn. apply andb_true_iff in Hn as [Hc Hn].
  assert (c <> 33 /\ c <> 63 /\ c <> 47) as (H33 & H63 & H47).
  { unfold name_char in Hc. cbn [existsb] in Hc. lia. }
  assert (forall x p, c <> x -> starts_with (x :: p) ((c :: n) ++ write_attributes attrs ++ tail) = false) as Hx.
  { intros x p Hne. unfold starts_with. cbn [app strip_prefix]. by rewrite (proj2 (Z.eqb_neq x c)) by congruence. }
  change (lit "<!--") with (60 :: lit "!--"). change (lit "<![CDATA[") with (60 :: lit "![CDATA["). change (lit "<?") with (60 :: lit "?").
  change (lit "<!") with (60 :: lit "!"). change (lit "</") with (60 :: lit "/"). rewrite !Hs.
  change (lit "!--") with (33 :: lit "--"). change (lit "![CDATA[") with (33 :: lit "[CDATA["). change (lit "?") with [63]. change (lit "!") with [33]. change (lit "/") with [47].
  rewrite !Hx by done.
  destruct (start_name (c :: n) 60 (write_attributes attrs ++ tail)) as (p1 & E1 & Hp1); [cbn [forallb]; by rewrite Hc, Hn|done|].
  destruct (attributes_inside attrs p1 tail Ha Hp1) as (p2 & E2 & Hp2). rewrite E1, E2, Htail by done.
  destruct self; apply scan_step; cbn [app length]; rewrite !length_app; lia.
Qed.

Lemma scan_open n attrs rest d m : is_name n = true -> forallb attribute_ok attrs = true ->
  scan ([60] ++ n ++ write_attributes attrs ++ [62] ++ rest) d m = scan rest (S d) (Nat.max m (S d)).
Proof.
  intros Hn Ha. apply (scan_tag n attrs ([62] ++ rest) rest false); [done|done| |cbn; lia]. intros prev Hp. cbn. by rewrite (proj2 (Z.eqb_neq prev 47)).
Qed.

Lemma scan_empty n attrs rest d m : is_name n = true -> forallb attribute_ok attrs = true ->
  scan ([60] ++ n ++ write_attributes attrs ++ [47; 62] ++ rest) d m = scan rest d (Nat.max m (S d)).
Proof. intros Hn Ha. by apply (scan_tag n attrs ([47; 62] ++ rest) rest true); [done|done| |cbn; lia]. Qed.

(** A construct the scan skips, once the branch that skips it is known. *)
Lemma scan_skipped (n : nat) (open end_ t rest : bytes) d m d' : ends_at end_ t = true -> length open = n -> (1 <= n)%nat ->
  (forall f, depth_from (S f) (open ++ t ++ end_ ++ rest) d m = depth_from f (skip_past end_ (drop n (open ++ t ++ end_ ++ rest))) d' m) ->
  scan (open ++ t ++ end_ ++ rest) d m = scan rest d' m.
Proof.
  intros Ht Hn H1 Hstep. unfold scan at 1. destruct (length (open ++ t ++ end_ ++ rest)) as [|f] eqn:El; [rewrite length_app in El; lia|].
  rewrite Hstep. rewrite <- Hn, drop_app_length, skip_past_end by done. apply scan_step. rewrite !length_app in El. lia.
Qed.

Lemma scan_comment t rest d m : ends_at (lit "-->") t = true -> scan (lit "<!--" ++ t ++ lit "-->" ++ rest) d m = scan rest d m.
Proof. intros Ht. apply (scan_skipped 4); [done|done|lia|]. intros f. generalize (t ++ lit "-->" ++ rest). intros s. reflexivity. Qed.

Lemma scan_cdata t rest d m : ends_at (lit "]]>") t = true -> scan (lit "<![CDATA[" ++ t ++ lit "]]>" ++ rest) d m = scan rest d m.
Proof. intros Ht. apply (scan_skipped 9); [done|done|lia|]. intros f. generalize (t ++ lit "]]>" ++ rest). intros s. reflexivity. Qed.

Lemma scan_instruction t rest d m : ends_at (lit "?>") t = true -> scan (lit "<?" ++ t ++ lit "?>" ++ rest) d m = scan rest d m.
Proof. intros Ht. apply (scan_skipped 2); [done|done|lia|]. intros f. generalize (t ++ lit "?>" ++ rest). intros s. reflexivity. Qed.

Lemma scan_declaration t rest d m : declares t = true -> ends_at (lit ">") t = true -> scan (lit "<!" ++ t ++ lit ">" ++ rest) d m = scan rest d m.
Proof.
  intros Hd Ht. apply (scan_skipped 2); [done|done|lia|]. intros f. destruct t as [|b t]; [done|]. cbn [declares] in Hd. apply negb_true_iff, orb_false_iff in Hd as [H45 H91].
  assert (forall p, (b =? p) = false -> forall q s, starts_with (60 :: 33 :: p :: q) (60 :: 33 :: b :: s) = false) as Hno.
  { intros p Hp q s. unfold starts_with. cbn [strip_prefix]. rewrite !Z.eqb_refl, Z.eqb_sym, Hp. done. }
  change (lit "<!") with [60; 33]. cbn [app depth_from]. change (lit "<!--") with (60 :: 33 :: 45 :: [45]). change (lit "<![CDATA[") with (60 :: 33 :: 91 :: lit "CDATA[").
  rewrite (Hno 45 H45), (Hno 91 H91). reflexivity.
Qed.

Lemma name_ends_at n : forallb name_char n = true -> ends_at (lit ">") n = true.
Proof.
  intros Hn. apply bool_decide_eq_true. change (lit ">") with [62]. induction n as [|b n IH]; [done|]. cbn [forallb] in Hn. apply andb_true_iff in Hn as [Hb Hn].
  cbn [app find_sub]. assert (b <> 62) as Hne by (unfold name_char in Hb; cbn [existsb] in Hb; lia).
  unfold starts_with. cbn [strip_prefix]. rewrite (proj2 (Z.eqb_neq 62 b)) by congruence. by rewrite IH.
Qed.

Lemma scan_close n rest d m : forallb name_char n = true -> scan ([60; 47] ++ n ++ [62] ++ rest) d m = scan rest (d - 1) m.
Proof.
  intros Hn. apply (scan_skipped 2 [60; 47] (lit ">") n rest); [by apply name_ends_at|done|lia|]. intros f. generalize (n ++ lit ">" ++ rest). intros s. reflexivity.
Qed.

(** ** The bound of a document is its depth *)

Lemma scan_items l rest : forall d m,
  Forall (fun i => forall rest d m, scan (write i ++ rest) d m = scan rest d (Nat.max m (if decide (element_depth i = 0%nat) then 0 else d + element_depth i)%nat)) l ->
  scan (concat (map write l) ++ rest) d m =
    scan rest d (Nat.max m (if decide (fold_right Nat.max 0%nat (map element_depth l) = 0%nat) then 0 else d + fold_right Nat.max 0%nat (map element_depth l))%nat).
Proof.
  induction l as [|i l IH]; intros d m Hi; [cbn; by rewrite Nat.max_0_r|]. apply list.Forall_cons in Hi as [Hi His]. cbn [map concat fold_right].
  rewrite <- app_assoc, Hi, IH by done. f_equal. repeat destruct (decide _); lia.
Qed.

Lemma scan_item i : item_ok i = true -> forall rest d m,
  scan (write i ++ rest) d m = scan rest d (Nat.max m (if decide (element_depth i = 0%nat) then 0 else d + element_depth i)%nat).
Proof.
  induction i as [n attrs cs IH|n attrs|t|t|t|t|t] using item_ind'; cbn [item_ok write element_depth]; intros Hok rest d m.
  - apply andb_true_iff in Hok as [Hok Hcs]. apply andb_true_iff in Hok as [Hn Ha]. rewrite <- !app_assoc. rewrite scan_open by done.
    rewrite scan_items. 2: { apply list.Forall_forall. intros i Hi. rewrite list.Forall_forall in IH. apply (IH i Hi). rewrite forallb_forall in Hcs. by apply Hcs, list_elem_of_In. }
    rewrite scan_close by (unfold is_name in Hn; by destruct n). destruct (decide (S _ = 0%nat)); [lia|].
    replace (S d - 1)%nat with d by lia. f_equal. destruct (decide _); lia.
  - apply andb_true_iff in Hok as [Hn Ha]. rewrite <- !app_assoc. rewrite scan_empty by done. destruct (decide _); [lia|]. f_equal. lia.
  - apply negb_true_iff in Hok. rewrite scan_text by done. destruct (decide _); [|lia]. by rewrite Nat.max_0_r.
  - rewrite <- !app_assoc, scan_comment by done. destruct (decide _); [|lia]. by rewrite Nat.max_0_r.
  - rewrite <- !app_assoc, scan_cdata by done. destruct (decide _); [|lia]. by rewrite Nat.max_0_r.
  - rewrite <- !app_assoc, scan_instruction by done. destruct (decide _); [|lia]. by rewrite Nat.max_0_r.
  - apply andb_true_iff in Hok as [Hd Ht]. rewrite <- !app_assoc, scan_declaration by done. destruct (decide _); [|lia]. by rewrite Nat.max_0_r.
Qed.

Lemma nesting_of_document (doc : list item) : forallb item_ok doc = true ->
  nesting_depth (concat (map write doc)) = fold_right Nat.max 0%nat (map element_depth doc).
Proof.
  intros Hok. unfold nesting_depth. fold (scan (concat (map write doc)) 0 0). rewrite <- (app_nil_r (concat (map write doc))). rewrite scan_items.
  - unfold scan. cbn [length depth_from]. destruct (decide _); lia.
  - apply list.Forall_forall. intros i Hi. apply scan_item. rewrite forallb_forall in Hok. by apply Hok, list_elem_of_In.
Qed.

(** C39. The nesting bound of a well-formed document, with its attributes, comments,
    sections, instructions and declarations, is exactly how deep its elements nest: markup hidden in
    quotes, comments or sections neither hides nor adds a level. *)
Theorem nesting_depth_exact (doc : list item) : forallb item_ok doc = true ->
  nesting_depth (concat (map write doc)) = fold_right Nat.max 0%nat (map element_depth doc).
Proof. apply nesting_of_document. Qed.

Definition sample_document : list item :=
  [Instruction (lit "xml version='1.0'"); CharData [10]; Declaration (lit "DOCTYPE domain"); CharData [10];
   Element (lit "domain") [mkAttribute (lit "note") Double (lit "<a>'")]
     [Comment (lit " <b><c><d> "); CData (lit "<x><y>"); Element (lit "devices") [] [Empty (lit "disk") [mkAttribute (lit "path") Single (lit "/>")]]; CharData (lit "text")]].

Lemma nesting_depth_exact_witness : nesting_depth (concat (map write sample_document)) = 3%nat.
Proof. rewrite (nesting_depth_exact sample_document) by reflexivity. reflexivity. Defined.
