(* ===== verification/Libvirt.v ===== *)
(** * libvirt/domain.rs and libvirt/mod.rs: virtual machines of a hypervisor

    [virsh] and whether the module has been stopped are an arbitrary outside; every
    call made to it is recorded.  The XML reader is [roxmltree]: a document is its root
    element, and the reader is a parameter. *)

From Stdlib Require Import String.
From S2P Require Import Prelude Text Interfaces Payload Batching Client LibvirtConfig SnmpMibs XmlDepth.

#[local] Set Warnings "-notation-overridden".
#[local] Set Warnings "-register-all".

Definition MAX_DOMAIN_DEVICES : nat := 256.
Definition MAX_STRING : Z := 255.
Definition MAX_SERVER_INTEGER : Z := 2147483647.
Definition MAX_SCOPE_RESOURCES : nat := 1000.

(** ** XML nodes *)

Inductive node :=
| XElement (name : bytes) (namespaced : bool) (attributes : list (bytes * bytes)) (children : list node)
| XText (t : bytes)
| XOther.

Class Roxmltree := document_parse : bytes -> result node bytes.

Definition children (n : node) : list node := match n with XElement _ _ _ cs => cs | _ => [] end.
(** A plain name is compared without the namespace. *)
Definition has_tag_name (n : node) (name : bytes) : bool := match n with XElement t _ _ _ => str_eqb t name | _ => false end.
Definition has_namespace (n : node) : bool := match n with XElement _ ns _ _ => ns | _ => false end.
Definition attribute (n : node) (key : string) : option bytes :=
  match n with XElement _ _ attrs _ => option_map snd (find_by (fun a : bytes * bytes => str_eqb (fst a) (lit key)) attrs) | _ => None end.
(** The text of a text node, or of an element's first child. *)
Definition node_text (n : node) : option bytes :=
  match n with XText t => Some t | XElement _ _ _ (XText t :: _) => Some t | _ => None end.

Definition child (n : node) (name : string) : option node :=
  find_by (fun c => has_tag_name c (lit name) && negb (has_namespace c)) (children n).
Definition child_text (n : node) (name : string) : option bytes := let+ c := child n name in node_text c.

(** ** Values *)

Definition bounded (v : bytes) : option bytes :=
  let v := trim v in
  if negb (bool_decide (v = [])) && (chars_count v <=? MAX_STRING) then Some v else None.
Definition bounded_of (o : option bytes) : option bytes := let+ v := o in bounded v.

Definition unit_bytes (unit : bytes) : option Z :=
  let among names := existsb (fun n => str_eqb unit (lit n)) names in
  if among ["b"; "bytes"]%string then Some 1
  else if among ["KB"%string] then Some 1000
  else if among ["k"; "KiB"]%string then Some (2 ^ 10)
  else if among ["MB"%string] then Some 1000000
  else if among ["M"; "MiB"]%string then Some (2 ^ 20)
  else if among ["GB"%string] then Some 1000000000
  else if among ["G"; "GiB"]%string then Some (2 ^ 30)
  else if among ["TB"%string] then Some 1000000000000
  else if among ["T"; "TiB"]%string then Some (2 ^ 40)
  else None.

(** [checked_mul], then a shift. *)
Definition memory_mib (n : node) : option Z :=
  let+ t := node_text n in
  let+ amount := parse_uint U64_MAX (trim t) in
  let+ per := unit_bytes (match attribute n "unit" with Some u => u | None => lit "KiB" end) in
  let+ total := keep (in_u 64) (Some (amount * per)) in
  keep (fun mib => (1 <=? mib) && (mib <=? MAX_SERVER_INTEGER)) (Some (Z.shiftr total 20)).

(** ** Devices *)

Definition disk_source (source : node) : option bytes :=
  or_else (find_map (fun key => attribute source key) ["file"; "dev"; "dir"; "name"]%string)
    (let+ pool := attribute source "pool" in let+ volume := attribute source "volume" in Some (pool ++ lit "/" ++ volume)).

Definition disk (n : node) : option DomainDisk :=
  let+ target := child n "target" in
  let source := let+ s := child n "source" in disk_source s in
  let+ dev := bounded_of (attribute target "dev") in
  Some (mkDisk dev (bounded_of (attribute n "device")) (bounded_of (attribute target "bus"))
          (bounded_of (let+ d := child n "driver" in attribute d "type")) (bounded_of source)).

Definition interface_type (t : option bytes) : DomainInterfaceType :=
  match t with
  | Some t => if str_eqb t (lit "bridge") then Bridge else if str_eqb t (lit "network") then Network
              else if str_eqb t (lit "direct") then Direct else if str_eqb t (lit "user") then User else OtherType
  | None => OtherType
  end.

Definition interface (n : node) : option DomainInterface :=
  let source := let+ s := child n "source" in bounded_of (find_map (fun key => attribute s key) ["bridge"; "network"; "dev"]%string) in
  let+ m := child n "mac" in
  let+ address := bounded_of (attribute m "address") in
  Some (mkDomainInterface address (interface_type (attribute n "type")) source
          (bounded_of (let+ x := child n "model" in attribute x "type"))
          (bounded_of (let+ x := child n "target" in attribute x "dev"))).

(** ** A domain *)

Record Domain := mkReadDomain { dmi_uuid : bytes; domain : VmDomain; dropped_devices : nat }.

Definition uuids (stdout : bytes) : list bytes := List.filter (fun l => negb (bool_decide (l = []))) (map trim (lines stdout)).

(** What a listing names: the text is pieces between newlines, and each that is not
    blank names the domain it holds, less the white space around it. *)
Definition named (piece : bytes) : option bytes :=
  let u := trim (strip_cr piece) in if bool_decide (u = []) then None else Some u.
Definition listing (text : bytes) (us : list bytes) : Prop :=
  exists pieces, text = join 10 pieces /\ Forall (fun p => 10 ∉ p) pieces /\ us = omap named pieces.

Lemma uuids_listing text : listing text (uuids text).
Proof.
  exists (split_on 10 text). split; [by rewrite join_split_on|]. split; [apply split_on_pieces|].
  unfold uuids, lines.
  assert (forall l, List.filter (fun u : bytes => negb (bool_decide (u = []))) (map trim (map strip_cr l)) = omap named l) as Hf.
  { induction l as [|p l IH]; [done|]. cbn [map List.filter omap list_omap]. unfold named at 1. cbv zeta.
    destruct (bool_decide (trim (strip_cr p) = [])); cbn [negb]; by rewrite IH. }
  rewrite Hf. destruct (split_on 10 text) as [|x l _] using rev_ind; [done|]. rewrite last_opt_snoc.
  destruct x; [|done]. rewrite removelast_last, omap_app. cbn. by rewrite app_nil_r.
Qed.

Definition info_field (stdout : bytes) (name : string) : option bytes :=
  find_map (fun line => match split_once 58 line with
                        | Some (key, value) => if str_eqb (trim key) (lit name) then Some (trim value) else None
                        | None => None
                        end) (lines stdout).

Definition state_of (s : option bytes) : DomainState :=
  match s with
  | Some s =>
      if str_eqb s (lit "running") then Running else if str_eqb s (lit "idle") then Idle
      else if str_eqb s (lit "paused") then Paused else if str_eqb s (lit "in shutdown") then ShuttingDown
      else if str_eqb s (lit "shut off") then Shutoff else if str_eqb s (lit "crashed") then Crashed
      else if str_eqb s (lit "pmsuspended") then Pmsuspended else UnknownState
  | None => UnknownState
  end.
Definition persistent_of (s : option bytes) : option bool :=
  match s with
  | Some s => if str_eqb s (lit "yes") then Some true else if str_eqb s (lit "no") then Some false else None
  | None => None
  end.
Definition info (stdout : bytes) : DomainState * option bool := (state_of (info_field stdout "State"), persistent_of (info_field stdout "Persistent")).

Section domain.
Context {U : Uuid} {X : Roxmltree}.

Definition canonical_uuid (text : bytes) : option bytes := option_map uuid_show (uuid_parse (trim text)).

Definition devices_of (root : node) (name : string) : list node :=
  match find_by (fun c => has_tag_name c (lit "devices")) (children root) with
  | Some d => List.filter (fun c => has_tag_name c (lit name)) (children d)
  | None => []
  end.

Definition parse (xml : bytes) (state : DomainState) (persistent : option bool) : result Domain bytes :=
  if Nat.ltb MAX_XML_DEPTH (nesting_depth xml) then Err (lit "domain XML nests deeper than 64 elements")
  else
    match document_parse xml with
    | Err e => Err (lit "invalid domain XML: " ++ e)
    | Ok root =>
        if negb (has_tag_name root (lit "domain")) then Err (lit "not a domain definition")
        else
          let? name := ok_or (bounded_of (child_text root "name")) (lit "domain has no usable name") in
          let? id := ok_or (let+ t := or_else (child_text root "hwuuid") (child_text root "uuid") in canonical_uuid t)
                       (lit "domain " ++ name ++ lit " has no usable UUID") in
          let disks := omap disk (devices_of root "disk") in
          let interfaces := omap interface (devices_of root "interface") in
          let vcpus := keep (fun n => (1 <=? n) && (n <=? MAX_SERVER_INTEGER)) (let+ t := child_text root "vcpu" in parse_uint U32_MAX t) in
          let memory := let+ m := find_by (fun c => has_tag_name c (lit "memory")) (children root) in memory_mib m in
          Ok (mkReadDomain id
                (mkDomain name state persistent vcpus memory (take MAX_DOMAIN_DEVICES disks) (take MAX_DOMAIN_DEVICES interfaces))
                ((length disks - MAX_DOMAIN_DEVICES) + (length interfaces - MAX_DOMAIN_DEVICES)))
    end.
End domain.

(** ** One poll of the hypervisor *)

Class Hypervisor := {
  world : Type;
  virsh : list bytes -> world -> world * result bytes bytes;
  poll_stopped : world -> world * bool }.

Record Poll := mkPoll { poll_result : result (list Domain) bytes; poll_complete : bool }.

Section poll.
Context {U : Uuid} {X : Roxmltree} {H : Hypervisor}.

(** The outside, and every call so far with its answer. *)
Abbreviation calls := (list (list bytes * result bytes bytes)).
Definition call (args : list bytes) : Run (world * calls) (result bytes bytes) := fun s =>
  let '(w, r) := virsh args (fst s) in ((w, snd s ++ [(args, r)]), r).
Definition stopped : Run (world * calls) bool := fun s => let '(w, b) := poll_stopped (fst s) in ((w, snd s), b).

(** [dominfo], then [dumpxml]. *)
Definition read_domain (uuid : bytes) : Run (world * calls) (result Domain bytes) :=
  let! i := call [lit "dominfo"; uuid] in
  match i with
  | Err e => run_ret (Err e)
  | Ok out =>
      let! x := call [lit "dumpxml"; uuid] in
      run_ret (let? xml := x in parse xml (fst (info out)) (snd (info out)))
  end.

Fixpoint poll_domains (us : list bytes) (domains : list Domain) (complete : bool) : Run (world * calls) (list Domain * bool) :=
  match us with
  | [] => run_ret (domains, complete)
  | u :: us' =>
      let! stop := stopped in
      if (stop : bool) then run_ret (domains, false)
      else
        match canonical_uuid u with
        | None => poll_domains us' domains false
        | Some _ =>
            let! r := read_domain u in
            match r with
            | Ok d => poll_domains us' (domains ++ [d]) complete
            | Err _ => poll_domains us' domains false
            end
        end
  end.

Definition poll : Run (world * calls) Poll :=
  let! listed := call [lit "list"; lit "--all"; lit "--uuid"] in
  match listed with
  | Err e => run_ret (mkPoll (Err e) false)
  | Ok out => let! r := poll_domains (uuids out) [] true in run_ret (mkPoll (Ok (fst r)) (snd r))
  end.

(** ** What a complete poll means, and what reaches virsh *)

(** A call that may be made: the listing, or a question about a UUID. *)
Definition allowed (args : list bytes) : Prop :=
  args = [lit "list"; lit "--all"; lit "--uuid"] \/
  exists u, (args = [lit "dominfo"; u] \/ args = [lit "dumpxml"; u]) /\ canonical_uuid u <> None.

(** A domain read for [u]: what [virsh] printed when asked about it, parsed. *)
Definition read_as (log : calls) (u : bytes) (d : Domain) : Prop :=
  canonical_uuid u <> None /\ exists out xml, ([lit "dominfo"; u], Ok out) ∈ log /\ ([lit "dumpxml"; u], Ok xml) ∈ log /\
    parse xml (fst (info out)) (snd (info out)) = Ok d.
Definition proper (log : calls) : Prop := Forall (fun c : list bytes * result bytes bytes => allowed (fst c)) log.

Lemma read_as_more log more u d : read_as log u d -> read_as (log ++ more) u d.
Proof. intros (Hu & out & xml & H1 & H2 & H3). split; [done|]. exists out, xml. rewrite !elem_of_app. auto. Qed.

Lemma read_domain_spec u s s' r : canonical_uuid u <> None -> proper (snd s) -> read_domain u s = (s', r) ->
  proper (snd s') /\ (exists more, snd s' = snd s ++ more) /\ forall d, r = Ok d -> read_as (snd s') u d.
Proof.
  intros Hu Hs. unfold read_domain, run_bind, call at 1. destruct (virsh _ (fst s)) as [w1 [out|e]]; cbn [fst snd].
  - unfold call. cbn [fst snd]. destruct (virsh _ w1) as [w2 x]. intros [= <- <-]. cbn [snd]. split_and!.
    + apply list.Forall_app. split; [apply list.Forall_app; split; [done|]|]; apply list.Forall_singleton; right; eauto.
    + eexists. by rewrite <- app_assoc.
    + intros d Hd. destruct x as [xml|]; [|done]. cbn [result_bind] in Hd. split; [done|]. exists out, xml. rewrite !elem_of_app, !list_elem_of_singleton. auto.
  - intros [= <- <-]. cbn [snd]. split_and!; [|by eexists|done]. apply list.Forall_app. split; [done|]. apply list.Forall_singleton. right. eauto.
Qed.

Lemma poll_domains_spec us : forall ds c s s' r, proper (snd s) -> poll_domains us ds c s = (s', r) ->
  proper (snd s') /\ (exists more, snd s' = snd s ++ more) /\
  (snd r = true -> c = true /\ exists new, fst r = ds ++ new /\ Forall2 (read_as (snd s')) us new).
Proof.
  induction us as [|u us IH]; intros ds c s s' r Hs; cbn [poll_domains].
  - intros [= <- <-]. split_and!; [done|exists []; by rewrite app_nil_r|]. cbn. intros ->. split; [done|]. exists []. by rewrite app_nil_r.
  - unfold run_bind at 1, stopped. destruct (poll_stopped (fst s)) as [w1 []]; [intros [= <- <-]; split_and!; [done|exists []; by rewrite app_nil_r|done]|].
    destruct (canonical_uuid u) as [x|] eqn:Eu.
    2: { intros H1; apply IH in H1 as (H1 & Hm & H2); [|done]. split_and!; [done|done|]. intros Hc. by destruct (H2 Hc). }
    unfold run_bind. destruct (read_domain u (w1, snd s)) as [s1 r1] eqn:Er. apply read_domain_spec in Er as (Hs1 & [m1 Em1] & Hr); [|congruence|done]. cbn [snd] in Em1.
    destruct r1 as [d|e]; intros H1; apply IH in H1 as (H1 & [m2 Em2] & H2); try done; (split_and!; [done|exists (m1 ++ m2); by rewrite Em2, Em1, app_assoc|]).
    + intros Hc. destruct (H2 Hc) as (Hct & new & E & Hf). split; [done|]. exists (d :: new). split; [by rewrite E, <- app_assoc|].
      constructor; [|done]. rewrite Em2. apply read_as_more. by apply Hr.
    + intros Hc. by destruct (H2 Hc).
Qed.

(** C40. A poll claims to be complete only if it read every domain named in the text
    [virsh list] returned, each from what [virsh] printed when asked about it, in order;
    and nothing is passed back to [virsh] but UUIDs.  That text may itself be cut: see
    [LibvirtRun.virsh_run], which takes a program's output up to 256 KiB as the whole. *)
Theorem complete_poll_read_everything (w : world) :
  let '(s, p) := poll (w, []) in
  proper (snd s) /\
  (poll_complete p = true -> exists out us ds, ([lit "list"; lit "--all"; lit "--uuid"], Ok out) ∈ snd s /\ listing out us /\
     poll_result p = Ok ds /\ Forall2 (read_as (snd s)) us ds).
Proof.
  unfold poll, run_bind, call. cbn [fst snd]. destruct (virsh _ w) as [w1 [out|e]]; cbn [app fst snd].
  - destruct (poll_domains (uuids out) [] true _) as [s r] eqn:E. apply poll_domains_spec in E as (H1 & [more Em] & H2); [|apply list.Forall_singleton; by left].
    cbn [fst snd] in *. split; [done|]. cbn [poll_complete poll_result]. intros Hc. destruct (H2 Hc) as (_ & new & En & Hf). exists out, (uuids out), (fst r). rewrite En.
    split_and!; [|apply uuids_listing|done|done]. rewrite Em. apply elem_of_app. left. by apply list_elem_of_singleton.
  - split; [apply list.Forall_singleton; by left|done].
Qed.
End poll.

(** ** Reports *)

Definition resource_of (d : Domain) : CollectorResource :=
  mkResource KVm None (mkCollectorIdentifiers None None (Some (dmi_uuid d)) []) None None (Some (domain d)).

Section reports.
Context {U : Uuid}.
Variables (rfc3339 : Z -> bytes) (to_vec : wire -> option bytes) (stamp : nat -> uuid * Z).
Variable c : LibvirtCollector.

(** [encode]: the [k]-th report made. *)
Definition encode (reached : result unit bytes) (complete : bool) (k : nat) (rs : list CollectorResource) : option (uuid * bytes) :=
  let '(status, error) := match reached with Ok _ => (Reachable, None) | Err e => (Unreachable, Some e) end in
  let report := report_new (fst (stamp k)) (snd (stamp k)) (mkCollector (libvirt_id c) VmProvider)
                  (Payload.Hypervisor (mkHypervisorStatus (libvirt_uri c) status error)) complete rs in
  let+ body := to_vec (report_wire rfc3339 report) in
  if zlength body <=? MAX_OBSERVATION_BYTES then Some (report_id report, body) else None.

(** What a report says: its resources and whether it is complete. *)
Record sent := mkSent { sent_complete : bool; sent_resources : list CollectorResource; sent_report : uuid * bytes }.

(** The split of a poll too large for one report. *)
Definition split (rs : list CollectorResource) (k : nat) : list sent :=
  match halve (encode (Ok tt) false) (turns (chunks MAX_SCOPE_RESOURCES rs)) k (chunks MAX_SCOPE_RESOURCES rs) with
  | Some (_, l) => map (fun x => mkSent false (fst x) (snd x)) l
  | None => []
  end.

Definition reports (p : Poll) : list sent :=
  match poll_result p with
  | Err e => match encode (Err e) false 0 [] with Some r => [mkSent false [] r] | None => [] end
  | Ok ds =>
      let rs := map resource_of ds in
      if Nat.leb (length rs) MAX_SCOPE_RESOURCES then
        match encode (Ok tt) (poll_complete p) 0 rs with
        | Some r => [mkSent (poll_complete p) rs r]
        | None => split rs 1
        end
      else split rs 0
  end.

Definition all_sent (l : list sent) : list CollectorResource := concat (map sent_resources l).

Lemma encode_bounds reached complete k rs r : encode reached complete k rs = Some r -> zlength (snd r) <= MAX_OBSERVATION_BYTES.
Proof.
  unfold encode. destruct (match reached with Ok _ => _ | Err e => _ end) as [status error]. destruct (to_vec _) as [body|]; [|done]. cbn [mbind option_bind].
  destruct (Z.leb_spec (zlength body) MAX_OBSERVATION_BYTES); [|done]. by intros [= <-].
Qed.

Lemma split_spec rs k : exists dropped,
  rs ≡ₚ all_sent (split rs k) ++ dropped /\ (dropped = [] -> all_sent (split rs k) = rs) /\ (forall r, r ∈ dropped -> exists i, encode (Ok tt) false i [r] = None) /\
  Forall (fun x => sent_complete x = false /\ exists i, encode (Ok tt) false i (sent_resources x) = Some (sent_report x)) (split rs k).
Proof.
  destruct (halve_complete (encode (Ok tt) false) (turns (chunks MAX_SCOPE_RESOURCES rs)) k (chunks MAX_SCOPE_RESOURCES rs)) as (k' & l & dropped & E & He & _ & Hd & Hp & Heq);
    [apply weights_turns|].
  unfold split. rewrite E. exists dropped. rewrite concat_chunks in Hp, Heq by (unfold MAX_SCOPE_RESOURCES; lia).
  assert (all_sent (map (fun x : list CollectorResource * (uuid * bytes) => mkSent false (fst x) (snd x)) l) = concat (map fst l)) as Hall.
  { unfold all_sent. by rewrite map_map. }
  rewrite Hall. split_and!; [done|done|done|]. apply List.Forall_map. eapply Forall_impl; [|exact He]. intros x [i Hi]. split; [done|]. by exists i.
Qed.

(** Every domain a poll read is in exactly one report, unless it is too large for a
    report of its own; no report is larger than the server takes; and a report says it is
    complete only if the poll was and the report holds every domain of it. *)
Theorem domains_reported_once (p : Poll) (ds : list Domain) : poll_result p = Ok ds ->
  (exists dropped, map resource_of ds ≡ₚ all_sent (reports p) ++ dropped /\ forall r, r ∈ dropped -> exists i, encode (Ok tt) false i [r] = None) /\
  Forall (fun x => zlength (snd (sent_report x)) <= MAX_OBSERVATION_BYTES /\
                   (sent_complete x = true -> poll_complete p = true /\ sent_resources x = map resource_of ds)) (reports p).
Proof.
  intros Hp. unfold reports. rewrite Hp. set (rs := map resource_of ds).
  assert (forall k, (exists dropped, rs ≡ₚ all_sent (split rs k) ++ dropped /\ forall r, r ∈ dropped -> exists i, encode (Ok tt) false i [r] = None) /\
    Forall (fun x => zlength (snd (sent_report x)) <= MAX_OBSERVATION_BYTES /\ (sent_complete x = true -> poll_complete p = true /\ sent_resources x = rs)) (split rs k)) as Hs.
  { intros k. destruct (split_spec rs k) as (dropped & H1 & _ & H2 & H3). split; [by exists dropped|]. eapply Forall_impl; [|exact H3].
    intros x [Hc [i Hi]]. split; [by eapply encode_bounds|]. by rewrite Hc. }
  destruct (Nat.leb (length rs) MAX_SCOPE_RESOURCES); [|apply Hs]. destruct (encode (Ok tt) (poll_complete p) 0 rs) as [r|] eqn:E; [|apply Hs]. split.
  - exists []. unfold all_sent. cbn. rewrite !app_nil_r. split; [done|]. intros r' Hr. by apply not_elem_of_nil in Hr.
  - apply list.Forall_singleton. split; [by eapply encode_bounds|done].
Qed.
End reports.

(** ** An example *)

#[local] Instance one_domain : Roxmltree := fun _ => Ok (XElement (lit "domain") false []
  [XElement (lit "name") false [] [XText (lit "vm1")]; XElement (lit "uuid") false [] [XText [48]];
   XElement (lit "memory") false [(lit "unit", lit "GiB")] [XText (lit " 2 ")];
   XElement (lit "devices") false [] [XElement (lit "disk") false [(lit "device", lit "disk")]
     [XElement (lit "source") false [(lit "pool", lit "p"); (lit "volume", lit "v")] []; XElement (lit "target") false [(lit "dev", lit "vda"); (lit "bus", lit "virtio")] []]]]).

Example reads_a_domain : parse (U := tiny_uuid) (lit "<domain/>") Running (Some true) =
  Ok (mkReadDomain [48] (mkDomain (lit "vm1") Running (Some true) None (Some 2048) [mkDisk (lit "vda") (Some (lit "disk")) (Some (lit "virtio")) None (Some (lit "p/v"))] []) 0).
Proof. vm_compute. reflexivity. Qed.

Definition one_poll : Poll := mkPoll (Ok [mkReadDomain [48] (mkDomain (lit "vm1") Running None None None [] []) 0]) true.
Lemma domains_reported_once_witness :
  let made := reports (U := tiny_uuid) (fun _ => []) (fun _ => Some [123]) (fun _ => (U0, 0)) (mkLibvirt [99] [117] 0 0) one_poll in
  map sent_complete made = [true] /\
  Forall (fun x => zlength (snd (sent_report x)) <= MAX_OBSERVATION_BYTES /\
                   (sent_complete x = true -> poll_complete one_poll = true /\ sent_resources x = map resource_of [mkReadDomain [48] (mkDomain (lit "vm1") Running None None None [] []) 0])) made.
Proof. split; [reflexivity|]. by apply (domains_reported_once (U := tiny_uuid)). Defined.
