(* ===== verification/LibvirtRun.v ===== *)
(** * libvirt/mod.rs: running virsh

    [virsh] as Command.v runs programs, and the [Hypervisor] of Libvirt.v it makes: what a
    poll asks of the hypervisor is what virsh is run for. *)

From Stdlib Require Import String.
From S2P Require Import Prelude Text Interfaces LibvirtConfig Libvirt Command.

#[local] Set Warnings "-notation-overridden".

Section virsh.
Context {P : Programs}.
Variable show_error : IoError -> bytes.       (* [Display] of an [io::Error] and of an [ExitStatus] *)
Variable show_exit : ExitStatus -> bytes.
Variable c : LibvirtCollector.

Definition virsh_argv (args : list bytes) : list bytes := [lit "virsh"; lit "--readonly"; lit "--quiet"; lit "--connect"; libvirt_uri c] ++ args.
Definition subcommand (args : list bytes) : bytes := match args with a :: _ => a | [] => [] end.

(** The programs' log, and whether a run ran out of turns. *)
Abbreviation state := (programs * list act * bool)%type.

(** [virsh].  As in the source, [overflowed] of the output is not looked at: a text that
    Command.v cut at its limit is taken for the whole. *)
Definition virsh_run (args : list bytes) : Run state (result bytes bytes) := fun s =>
  match run_with_timeout (virsh_argv args) (from_secs (libvirt_timeout c)) (fst s) with
  | (s', Err OutOfFuel) => ((s', true), Err [])
  | (s', Err (Io e)) => ((s', snd s), Err (lit "virsh " ++ subcommand args ++ lit ": " ++ show_error e))
  | (s', Ok o) =>
      ((s', snd s),
       if negb (success o) then Err (lit "virsh " ++ subcommand args ++ lit " failed with " ++ show_exit (Command.status o))
       else ok_or (from_utf8 (stdout o)) (lit "virsh " ++ subcommand args ++ lit " printed invalid UTF-8"))
  end.

#[export] Instance virsh_hypervisor : Hypervisor :=
  {| world := state; virsh := virsh_run; poll_stopped := fun s => let '(w, b) := stopping (fst (fst s)) in ((w, snd (fst s), snd s), b) |}.
End virsh.

(** ** Nothing but read-only virsh is run *)

Section spawns.
Context {P : Programs}.
Variable argv : list bytes.

(** A run that spawns nothing but [argv]. *)
Definition spawned_only (a : act) : Prop := forall x, a = Spawned x -> x = argv.
Definition spawns {A} (m : ST (programs * list act) halt A) : Prop := forall s, exists more, snd (fst (m s)) = snd s ++ more /\ Forall spawned_only more.

Lemma spawns_quiet {A} (m : ST (programs * list act) halt A) : (forall s, snd (fst (m s)) = snd s) -> spawns m.
Proof. intros H s. exists []. rewrite app_nil_r. split; [apply H|constructor]. Qed.
Lemma spawns_outside {A} (m : Run programs A) : spawns (outside m).
Proof. apply spawns_quiet. intros s. unfold outside. by destruct (m (fst s)). Qed.
Lemma spawns_result {A} (r : result A halt) : spawns (st_of_result r).
Proof. by apply spawns_quiet. Qed.
Lemma spawns_note a : spawned_only a -> spawns (note a).
Proof. intros H s. exists [a]. split; [done|by constructor]. Qed.
Lemma spawns_bind {A B} (m : ST _ halt A) (k : A -> ST _ halt B) : spawns m -> (forall a, spawns (k a)) -> spawns (st_bind m k).
Proof.
  intros Hm Hk s. destruct (Hm s) as (l1 & E1 & H1). unfold st_bind. destruct (m s) as [s1 [a|e]]; cbn [fst] in *; [|by exists l1].
  destruct (Hk a s1) as (l2 & E2 & H2). exists (l1 ++ l2). rewrite E2, E1, app_assoc. split; [done|by apply Forall_app].
Qed.
#[local] Ltac step := repeat first [apply spawns_outside | apply spawns_note; intros ? [=]; congruence | apply spawns_bind; [|intros ?] | progress case_match | apply spawns_quiet; done].

Lemma spawns_kill : spawns terminate_command_tree.
Proof. step. Qed.
Lemma spawns_join max : spawns (join_reader max).
Proof. step. Qed.
Lemma spawns_abandon max : spawns (abandon max).
Proof. unfold abandon. apply spawns_bind; [apply spawns_kill|intros _]. do 2 (apply spawns_bind; [step|intros _]). apply spawns_bind; [apply spawns_join|intros _]. step. Qed.
Lemma spawns_await fuel started timeout max : spawns (await fuel started timeout max).
Proof.
  induction fuel as [|fuel IH]; cbn [await]; [by apply spawns_quiet|]. apply spawns_bind; [unfold expired; step|]. intros [|]; [apply spawns_abandon|].
  apply spawns_bind; [apply spawns_outside|]. intros r. apply spawns_bind; [apply spawns_result|]. intros [st|]; [by apply spawns_quiet|]. apply spawns_bind; [apply spawns_outside|done].
Qed.
Lemma run_spawns fuel timeout max : spawns (run_with_limits fuel argv timeout max).
Proof.
  unfold run_with_limits. apply spawns_bind; [apply spawns_outside|]. intros [|]; [by apply spawns_quiet|]. apply spawns_bind; [apply spawns_outside|]. intros r.
  apply spawns_bind; [apply spawns_result|]. intros _. apply spawns_bind; [apply spawns_note; congruence|]. intros _. apply spawns_bind; [apply spawns_outside|]. intros started.
  apply spawns_bind; [apply spawns_await|]. intros st. unfold collect. apply spawns_bind; [apply spawns_kill|intros _]. apply spawns_bind; [apply spawns_join|]. intros joined.
  do 2 (apply spawns_bind; [apply spawns_result|intros ?]). by apply spawns_quiet.
Qed.
End spawns.

Section readonly.
Context {P : Programs} {T : TimePasses P} {U : Uuid} {X : Roxmltree}.
Variables (show_error : IoError -> bytes) (show_exit : ExitStatus -> bytes) (c : LibvirtCollector).
Hypothesis timeout_nonneg : 0 <= libvirt_timeout c.
#[local] Instance hypervisor : Hypervisor := virsh_hypervisor show_error show_exit c.

(** A program that was started is virsh, read-only, with a question that may be asked. *)
Definition question (a : act) : Prop := forall argv, a = Spawned argv -> exists args, argv = virsh_argv c args /\ allowed args.
Definition only_questions (s : world * list (list bytes * result bytes bytes)) : Prop := Forall question (snd (fst (fst s))) /\ snd (fst s) = false.
Definition asks_only {A} (m : Run (world * list (list bytes * result bytes bytes)) A) : Prop := forall s, only_questions s -> only_questions (fst (m s)).

Lemma asks_only_bind {A B} (m : Run _ A) (k : A -> Run _ B) : asks_only m -> (forall a, asks_only (k a)) -> asks_only (run_bind m k).
Proof. intros Hm Hk s Hs. unfold run_bind. specialize (Hm s Hs). destruct (m s) as [s1 a]. by apply Hk. Qed.
Lemma asks_only_ret {A} (a : A) : asks_only (run_ret a).
Proof. by intros s. Qed.

Lemma timeout_passes : 0 <= from_secs (libvirt_timeout c).
Proof. unfold from_secs, NANOS. lia. Qed.

Lemma asks_only_call args : allowed args -> asks_only (call args).
Proof.
  intros Ha [[[w l] b] log] [Hq Hf]. unfold call. cbn [fst snd virsh hypervisor virsh_hypervisor] in *. unfold virsh_run, run_with_timeout. cbn [fst snd].
  pose proof (limits_end (virsh_argv c args) (from_secs (libvirt_timeout c)) MAX_OUTPUT_BYTES (w, l) timeout_passes) as He.
  destruct (run_spawns (virsh_argv c args) (turns (from_secs (libvirt_timeout c))) (from_secs (libvirt_timeout c)) MAX_OUTPUT_BYTES (w, l)) as (more & El & Hm).
  destruct (run_with_limits _ _ _ _ (w, l)) as [[w1 l1] r]. cbn [fst snd] in *. subst l1.
  assert (Forall question (l ++ more)). { apply Forall_app. split; [done|]. eapply List.Forall_impl; [|exact Hm]. intros a Hs argv ->. exists args. split; [by apply Hs|done]. }
  destruct r as [o|[|e]]; [|done|]; by split.
Qed.

Lemma asks_only_stopped : asks_only stopped.
Proof. intros [[[w l] b] log] [Hq Hf]. unfold stopped. cbn [fst snd poll_stopped hypervisor virsh_hypervisor] in *. by destruct (stopping w). Qed.

Lemma asks_only_domain u : canonical_uuid u <> None -> asks_only (read_domain u).
Proof.
  intros Hu. apply asks_only_bind; [apply asks_only_call; right; eauto|]. intros [out|e]; [|apply asks_only_ret].
  apply asks_only_bind; [apply asks_only_call; right; eauto|]. intros x. apply asks_only_ret.
Qed.

Lemma asks_only_domains us : forall ds complete, asks_only (poll_domains us ds complete).
Proof.
  induction us as [|u us IH]; intros ds complete; cbn [poll_domains]; [apply asks_only_ret|]. apply asks_only_bind; [apply asks_only_stopped|]. intros [|]; [apply asks_only_ret|].
  destruct (canonical_uuid u) eqn:Eu; [|apply IH]. apply asks_only_bind; [apply asks_only_domain; congruence|]. intros [d|e]; apply IH.
Qed.

(** A poll of a hypervisor ends, and starts no program but [virsh --readonly] on the
    module's own connection, to list domains or to ask about a UUID, whatever earlier
    answers held. *)
Theorem hypervisor_is_only_read (w : programs) : let '(s, _) := poll ((w, [], false), []) in only_questions s.
Proof.
  assert (asks_only poll) as H.
  { apply asks_only_bind; [apply asks_only_call; by left|]. intros [out|e]; [|apply asks_only_ret]. apply asks_only_bind; [apply asks_only_domains|]. intros r. apply asks_only_ret. }
  specialize (H ((w, [], false), []) ltac:(split; [constructor|done])). by destruct (poll _).
Qed.
End readonly.

Definition no_xml : Roxmltree := fun _ => Err [].
Lemma hypervisor_is_only_read_witness : 0 <= libvirt_timeout (mkLibvirt (lit "kvm") (lit "qemu:///system") 60 30) /\
  let c := mkLibvirt (lit "kvm") (lit "qemu:///system") 60 30 in
  let s := fst (poll (U := tiny_uuid) (X := no_xml) (H := virsh_hypervisor (P := demo_machine) e_message (fun _ => []) c) ((0, [], false), [])) in
  snd (fst (fst s)) = [Spawned (virsh_argv c [lit "list"; lit "--all"; lit "--uuid"]); Killed; Joined] /\ only_questions (P := demo_machine) (U := tiny_uuid) e_message (fun _ => []) c s.
Proof.
  split; [vm_compute; discriminate|]. cbv zeta. split; [vm_compute; reflexivity|].
  pose proof (hypervisor_is_only_read (P := demo_machine) (T := demo_time) (U := tiny_uuid) (X := no_xml) e_message (fun _ => []) (mkLibvirt (lit "kvm") (lit "qemu:///system") 60 30)
    ltac:(vm_compute; discriminate) 0) as H.
  destruct (poll _) as [s r]. exact H.
Defined.
