(* ===== verification/Redfish.v ===== *)
(** * power/bmc/redfish.rs, client.rs and mod.rs: a server's power from its BMC

    The service is an arbitrary outside: every answer, its status and body, and the
    clock.  Requests are recorded.  JSON values are those of JsonValue.v. *)

From Stdlib Require Import String SpecFloat.
From S2P Require Import Prelude Text Floats Interfaces BTree Payload ExporterMapping PowerCollector SnmpConfig BmcConfig SnmpMibs JsonValue.

#[local] Set Warnings "-notation-overridden".

Definition MAPPING : bytes := lit "redfish_power".
Definition MAPPING_VERSION : Z := 1.
Definition SYSTEMS : bytes := lit "/redfish/v1/Systems".
Definition CHASSIS : bytes := lit "/redfish/v1/Chassis".

Definition odata_id (v : Value) : option bytes := as_str (member v "@odata.id").

Definition first_member (collection : Value) (what : string) : result bytes bytes :=
  ok_or (let+ m := first_of (member collection "Members") in odata_id m) (lit "the BMC lists no " ++ lit what).
Definition chassis_link (system : Value) : option bytes :=
  let+ c := first_of (member (member system "Links") "Chassis") in odata_id c.
Definition power_link (chassis : Value) : result bytes bytes :=
  ok_or (odata_id (member chassis "Power")) (lit "the chassis has no Power resource").

(** ** Whose chassis it is *)

Definition only (owner : Value) (key : bytes) (list : list Value) (id : bytes) : bool :=
  let count := at_key owner (key ++ lit "@odata.count") in
  let next := at_key owner (key ++ lit "@odata.nextLink") in
  bool_decide (length list = 1%nat) && bool_decide ((let+ x := head list in odata_id x) = Some id) &&
  (is_null count || bool_decide (as_u64 count = Some 1)) && is_null next.

Definition owns (systems system chassis : Value) (linked : bool) : bool :=
  match odata_id system with
  | None => false
  | Some id =>
      let links := member chassis "Links" in
      let listed := match as_array (member links "ComputerSystems") with Some l => l | None => [] end in
      let count := member links "ComputerSystems@odata.count" in
      let disclosed := negb (bool_decide (length listed = 0%nat)) || negb (is_null (member links "ComputerSystems@odata.nextLink"))
                       || negb (is_null count || bool_decide (as_u64 count = Some 0)) in
      if disclosed then only links (lit "ComputerSystems") listed id
      else linked && match as_array (member systems "Members") with Some ms => only systems (lit "Members") ms id | None => false end
  end.

(** ** Readings *)

Definition watts (v : Value) : Measurement :=
  match as_f64 v with Some w => if is_finite w && f64_leb f64_zero w then PowerCollector.Value w else FailedRead | None => FailedRead end.

Definition supply_state (supply : Value) : Measurement :=
  if match as_f64 (member supply "LineInputVoltage") with Some v => f64_eqb v f64_zero | None => false end then PowerCollector.State (lit "no_input")
  else match as_str (member (member supply "Status") "Health") with
       | Some h => if str_eqb h (lit "OK") then PowerCollector.State (lit "ok") else if str_eqb h (lit "Warning") then PowerCollector.State (lit "warning")
                   else if str_eqb h (lit "Critical") then PowerCollector.State (lit "failed") else FailedRead
       | None => FailedRead
       end.

Definition last_number (text : bytes) : option Z :=
  parse_uint U64_MAX (rev (SnmpWalk.take_while is_ascii_digit (drop_while (fun b => negb (is_ascii_digit b)) (rev text)))).

Definition or_empty (o : option bytes) : bytes := match o with Some s => s | None => [] end.

(** [index] counts from zero. *)
Definition supply_name (supply : Value) (index : Z) : bytes :=
  let name := or_empty (as_str (member supply "Name")) in
  match supply_sensor name with
  | Some (n, _) => n
  | None =>
      let member_id := or_empty (as_str (member supply "MemberId")) in
      let numbered := find_map (fun t => if negb (forallb is_ascii_digit t) then last_number t else None) [name; member_id] in
      lit "PSU" ++ show_u64 (match numbered with Some n => n | None => index + 1 end)
  end.

Definition supply_reading (name : bytes) (supply : Value) (key short : string) (q : bytes) (m : Measurement) : list Reading :=
  match get supply (lit key) with
  | Some _ => [mkReading (name ++ lit "/" ++ lit short) (lit "supply_" ++ lit short) q (Some (lit "power_port", name)) None m]
  | None => []
  end.

Definition supply_readings (index : Z) (supply : Value) : list Reading :=
  if bool_decide (as_str (member (member supply "Status") "State") = Some (lit "Absent")) then []
  else
    let name := supply_name supply index in
    supply_reading name supply "PowerInputWatts" "input" (lit "real_power") (watts (member supply "PowerInputWatts"))
    ++ supply_reading name supply "PowerOutputWatts" "output" (lit "real_power") (watts (member supply "PowerOutputWatts"))
    ++ supply_reading name supply "Status" "input" (lit "state") (supply_state supply).

Fixpoint enumerate {A} (i : Z) (l : list A) : list (Z * A) := match l with [] => [] | x :: l' => (i, x) :: enumerate (i + 1) l' end.

Definition whole_chassis_control (power : Value) : option (Z * Value) :=
  let+ controls := as_array (member power "PowerControl") in
  match List.filter (fun c : Z * Value => is_some (get (snd c) (lit "PowerConsumedWatts")) &&
                       match as_str (member (snd c) "PhysicalContext") with None => true | Some s => str_eqb s (lit "Chassis") end)
          (enumerate 0 controls) with
  | [c] => Some c
  | _ => None
  end.

Definition nonempty_trim (o : option bytes) : option bytes := let+ s := o in keep (fun t => negb (bool_decide (t = []))) (Some (trim s)).

Definition control_reading (c : Z * Value) : Reading :=
  let id := match nonempty_trim (as_str (member (snd c) "MemberId")) with Some m => m | None => show_u64 (fst c) end in
  mkReading (lit "power_control/" ++ id) (lit "host_input") (lit "real_power") None None (watts (member (snd c) "PowerConsumedWatts")).

Definition supplies_of (power : Value) : list Value := match as_array (member power "PowerSupplies") with Some l => l | None => [] end.
Definition readings (power : Value) : list Reading :=
  match whole_chassis_control power with Some c => [control_reading c] | None => [] end
  ++ concat (map (fun s : Z * Value => supply_readings (fst s) (snd s)) (enumerate 0 (supplies_of power))).

Section device.
Context {U : Uuid}.
Variable is_nil : uuid -> bool.

Definition text_at (system : Value) (key : string) : option bytes := nonempty_trim (as_str (member system key)).

Definition device (system power : Value) : result Device bytes :=
  let dmi_uuid := option_map to_ascii_lowercase (keep (fun t => match uuid_parse t with Some u => negb (is_nil u) | None => false end) (text_at system "UUID")) in
  let serial := if is_some dmi_uuid then None else text_at system "SerialNumber" in
  if negb (is_some dmi_uuid) && negb (is_some serial) then Err (lit "the computer system has neither a UUID nor a serial number")
  else Ok (mkDevice MAPPING MAPPING_VERSION
             (mkResource KServer None (mkCollectorIdentifiers (text_at system "HostName") serial dmi_uuid [])
                (Some (mkHostAttributes None None (text_at system "Manufacturer") (text_at system "Model") None)) None None)
             (readings power)).
End device.

(** ** Reading a service, whatever it answers *)

Section read.
Context {U : Uuid} {S : Type}.
Variable is_nil : uuid -> bool.
(** [Redfish::get]. *)
Variable get : bytes -> Run S (result Value TargetError).

Definition asked (path : bytes) : ST S TargetError Value := get path.
Definition supported {A} (r : result A bytes) : ST S TargetError A := st_of_result (map_err TUnsupported r).

Definition read : ST S TargetError Device :=
  let* systems := asked SYSTEMS in
  let* first := supported (first_member systems "computer system") in
  let* system := asked first in
  let* link := match chassis_link system with
               | Some link => st_ret (link, true)
               | None =>
                   let* all := asked CHASSIS in
                   let* c := supported (first_member all "chassis") in
                   st_ret (c, false)
               end in
  let* chassis := asked (fst link) in
  let* path := supported (power_link chassis) in
  let* power := asked path in
  if negb (owns systems system chassis (snd link)) then supported (device is_nil system VNull)
  else supported (device is_nil system power).
End read.

(** ** The client *)

Definition MAX_BODY_BYTES : Z := 2 * 1024 * 1024.

Definition is_ascii_graphic (b : Z) : bool := (33 <=? b) && (b <=? 126).
Definition service_path (path : bytes) : bool :=
  (str_eqb path (lit "/redfish/v1") || starts_with (lit "/redfish/v1/") path) &&
  (zlength path <=? 512) && forallb is_ascii_graphic path &&
  negb (existsb (fun b => existsb (Z.eqb b) [63; 35; 92; 37]) path) && negb (contains_sub (lit "//") path) &&
  negb (existsb (fun s => str_eqb s (lit ".") || str_eqb s (lit "..")) (split_on 47 path)).

(** [format!("https://{host}:{port}")], with brackets around an IPv6 address. *)
Definition origin_of (t : Target) : bytes :=
  if existsb (Z.eqb 58) (SnmpConfig.host t) then lit "https://[" ++ SnmpConfig.host t ++ lit "]:" ++ show_u64 (port t)
  else lit "https://" ++ SnmpConfig.host t ++ lit ":" ++ show_u64 (port t).

(** An answer: its status and what reading its body gives. *)
Record answer := mkAnswer { a_status : Z; a_body : result bytes bytes }.

Class Service := {
  service : Type;
  clock : service -> service * Z;
  (** A GET with a timeout. *)
  send : bytes -> Z -> service -> service * result answer bytes;
  status_text : Z -> bytes;
  debug : bytes -> bytes }.

Section client.
Context {J : SerdeJson} {V : Service}.
Variables (origin : bytes) (timeout deadline : Z).

(** The outside, and every request made: its URL and timeout. *)
Abbreviation traffic := (service * list (bytes * Z))%type.

Definition wire_get (path : bytes) : Run traffic (result Value TargetError) := fun s =>
  if negb (service_path path) then (s, Err (TUnsupported (lit "the BMC links to " ++ debug path ++ lit ", which is not a Redfish service path")))
  else
    let '(v, now) := clock (fst s) in
    let remaining := since deadline now in
    if remaining =? 0 then ((v, snd s), Err (TUnreachable (lit "the BMC did not answer within the poll's time budget")))
    else
      let url := origin ++ path in
      let limit := Z.min timeout remaining in
      let '(v, r) := send url limit v in
      ((v, snd s ++ [(url, limit)]),
       match r with
       | Err e => Err (TUnreachable (lit "cannot read " ++ url ++ lit ": " ++ e))
       | Ok a =>
           let st := a_status a in
           if (st =? 401) || (st =? 403) then Err (TNotPermitted (url ++ lit " answered " ++ status_text st))
           else if (400 <=? st) && (st <? 500) then Err (TUnsupported (url ++ lit " answered " ++ status_text st))
           else if negb ((200 <=? st) && (st <? 300)) then Err (TUnreachable (url ++ lit " answered " ++ status_text st))
           else match a_body a with
                | Err e => Err (TUnreachable (lit "cannot read " ++ url ++ lit ": " ++ e))
                | Ok body =>
                    let body := take (Z.to_nat (MAX_BODY_BYTES + 1)) body in
                    if MAX_BODY_BYTES <? zlength body then Err (TUnsupported (url ++ lit " is larger than 2097152 bytes"))
                    else match from_slice body with
                         | Ok v => Ok v
                         | Err e => Err (TUnsupported (url ++ lit " is not JSON: " ++ e))
                         end
                end
       end).
End client.

(** ** Requests stay on the service *)

Section requests.
Context {J : SerdeJson} {V : Service} {U : Uuid}.
Variable is_nil : uuid -> bool.
Variables (origin : bytes) (timeout deadline : Z).

Definition on_service (r : bytes * Z) : Prop := (exists p, fst r = origin ++ p /\ service_path p = true) /\ snd r <= timeout.

(** At most [n] more requests, all on the service. *)
Definition asks {A} (n : nat) (m : ST (service * list (bytes * Z)) TargetError A) : Prop :=
  forall s s' r, m s = (s', r) -> exists more, snd s' = snd s ++ more /\ Forall on_service more /\ (length more <= n)%nat.

Lemma asks_ret {A} (a : A) : asks 0 (st_ret a).
Proof. intros s s' r [= <- <-]. exists []. rewrite app_nil_r. repeat split; [constructor|done]. Qed.
Lemma asks_supported {A} (x : result A bytes) : asks 0 (supported x).
Proof. intros s s' r [= <- <-]. exists []. rewrite app_nil_r. repeat split; [constructor|done]. Qed.

Lemma asks_bind {A B} n k (m : ST _ TargetError A) (f : A -> ST _ TargetError B) : asks n m -> (forall a, asks k (f a)) -> asks (n + k) (st_bind m f).
Proof.
  intros Hm Hf s s' r. unfold st_bind. destruct (m s) as [s1 [a|e]] eqn:E; apply Hm in E as (l1 & E1 & H1 & L1).
  - intros E2. apply Hf in E2 as (l2 & E2 & H2 & L2). exists (l1 ++ l2). rewrite E2, E1, app_assoc, length_app. split_and!; [done|by apply list.Forall_app|lia].
  - intros [= <- <-]. exists l1. split_and!; [done|done|lia].
Qed.

Lemma asks_get path : asks 1 (asked (wire_get origin timeout deadline) path).
Proof.
  intros s s' r. unfold asked, wire_get. destruct (service_path path) eqn:Ep; cbn [negb].
  2: { intros [= <- <-]. exists []. rewrite app_nil_r. repeat split; [constructor|cbn; lia]. }
  destruct (clock (fst s)) as [v now]. destruct (since deadline now =? 0).
  { intros [= <- <-]. exists []. cbn. rewrite app_nil_r. repeat split; [constructor|cbn; lia]. }
  destruct (send _ _ v) as [v' x]. intros [= <- <-]. eexists. split; [reflexivity|]. split; [|cbn; lia].
  apply list.Forall_singleton. split; [by exists path|]. cbn. lia.
Qed.

Lemma asks_weaken {A} n k (m : ST _ TargetError A) : (n <= k)%nat -> asks n m -> asks k m.
Proof. intros Hk Hm s s' r E. apply Hm in E as (l & ? & ? & ?). exists l. split_and!; [done|done|lia]. Qed.

Lemma read_asks : asks 5 (read is_nil (wire_get origin timeout deadline)).
Proof.
  unfold read. apply (asks_bind 1 4); [apply asks_get|]. intros systems. apply (asks_bind 0 4); [apply asks_supported|]. intros first.
  apply (asks_bind 1 3); [apply asks_get|]. intros system. apply (asks_bind 1 2).
  - destruct (chassis_link system) as [link|]; [apply (asks_weaken 0); [lia|apply asks_ret]|].
    apply (asks_bind 1 0); [apply asks_get|]. intros all. apply (asks_bind 0 0); [apply asks_supported|]. intros c. apply asks_ret.
  - intros [link linked]. apply (asks_bind 1 1); [apply asks_get|]. intros chassis. apply (asks_bind 0 1); [apply asks_supported|]. intros path.
    apply (asks_bind 1 0); [apply asks_get|]. intros power. destruct (negb _); apply asks_supported.
Qed.

(** Whatever links a BMC serves, reading it makes at most five requests, each to the
    target's own origin under a Redfish service path with nothing that leaves it, and none
    waits longer than the module's timeout: its credentials go nowhere else. *)
Theorem bmc_requests_stay_on_service (v : service) :
  let '(s, _) := read is_nil (wire_get origin timeout deadline) (v, []) in
  Forall on_service (snd s) /\ (length (snd s) <= 5)%nat.
Proof.
  destruct (read is_nil (wire_get origin timeout deadline) (v, [])) as [s r] eqn:E. apply read_asks in E as (more & E & H1 & H2). cbn in E. by subst.
Qed.
End requests.

(** ** Power is attributed only to the server it is *)

(** [list] is complete and its one member is [id]. *)
Definition sole (owner : Value) (key : bytes) (list : list Value) (id : bytes) : Prop :=
  (exists x, list = [x] /\ odata_id x = Some id) /\
  (at_key owner (key ++ lit "@odata.count") = VNull \/ as_u64 (at_key owner (key ++ lit "@odata.count")) = Some 1) /\
  at_key owner (key ++ lit "@odata.nextLink") = VNull.

Lemma is_null_spec v : is_null v = true <-> v = VNull.
Proof. by destruct v. Qed.

Lemma only_sole owner key list id : only owner key list id = true -> sole owner key list id.
Proof.
  unfold only. intros [[[H1%bool_decide_eq_true H2%bool_decide_eq_true]%andb_true_iff H3]%andb_true_iff H4%is_null_spec]%andb_true_iff. split_and!.
  - destruct list as [|x [|]]; try done. exists x. split; [done|]. exact H2.
  - apply orb_true_iff in H3 as [H3%is_null_spec|H3%bool_decide_eq_true]; auto.
  - done.
Qed.

(** A chassis that discloses no system: its list is missing or empty, its count
    missing or zero, and there is no next page. *)
Definition names_none (links : Value) : Prop :=
  (as_array (member links "ComputerSystems") = None \/ as_array (member links "ComputerSystems") = Some []) /\
  (member links "ComputerSystems@odata.count" = VNull \/ as_u64 (member links "ComputerSystems@odata.count") = Some 0) /\
  member links "ComputerSystems@odata.nextLink" = VNull.

(** Evidence that a chassis is one system's own: it names that system alone; or it
    discloses none, the system links to it, and the service has that system alone. *)
Definition own_chassis (systems system chassis : Value) (linked : bool) : Prop :=
  exists id, odata_id system = Some id /\
    ((exists l, as_array (member (member chassis "Links") "ComputerSystems") = Some l /\ sole (member chassis "Links") (lit "ComputerSystems") l id) \/
     (linked = true /\ names_none (member chassis "Links") /\
      exists l, as_array (member systems "Members") = Some l /\ sole systems (lit "Members") l id)).

Lemma undisclosed links (n : nat) :
  negb (bool_decide (n = 0%nat)) || negb (is_null (member links "ComputerSystems@odata.nextLink"))
  || negb (is_null (member links "ComputerSystems@odata.count") || bool_decide (as_u64 (member links "ComputerSystems@odata.count") = Some 0)) = false ->
  n = 0%nat /\ (member links "ComputerSystems@odata.count" = VNull \/ as_u64 (member links "ComputerSystems@odata.count") = Some 0) /\
  member links "ComputerSystems@odata.nextLink" = VNull.
Proof.
  intros [[H1%negb_false_iff%bool_decide_eq_true H2%negb_false_iff%is_null_spec]%orb_false_iff H3%negb_false_iff]%orb_false_iff.
  split_and!; [done| |done]. apply orb_true_iff in H3 as [H3%is_null_spec|H3%bool_decide_eq_true]; auto.
Qed.

Lemma owns_evidence systems system chassis linked : owns systems system chassis linked = true -> own_chassis systems system chassis linked.
Proof.
  unfold owns, own_chassis, names_none. destruct (odata_id system) as [id|]; [|done]. set (links := member chassis "Links").
  intros H. exists id. split; [done|]. destruct (as_array (member links "ComputerSystems")) as [l|] eqn:El.
  - destruct (negb _ || _ || _) eqn:Ed; [left; exists l; split; [done|by apply only_sole]|].
    apply undisclosed in Ed as (Ed & Hc & Hn). destruct l; [|done].
    apply andb_true_iff in H as [-> H]. right. split_and!; [done|by right|done..|].
    destruct (as_array (member systems "Members")) as [ms|]; [|done]. exists ms. split; [done|by apply only_sole].
  - cbn [length] in H. destruct (negb _ || _ || _) eqn:Ed.
    + apply only_sole in H as ((x & H & _) & _). done.
    + apply (undisclosed links 0) in Ed as (_ & Hc & Hn). apply andb_true_iff in H as [-> H]. right. split_and!; [done|by left|done..|].
      destruct (as_array (member systems "Members")) as [ms|]; [|done]. exists ms. split; [done|by apply only_sole].
Qed.

(** A wattage is finite and not negative. *)
Definition honest_watts (r : Reading) : Prop :=
  match measurement r with PowerCollector.Value f => is_finite f = true /\ f64_leb f64_zero f = true | _ => True end.

Lemma watts_honest v : match watts v with PowerCollector.Value f => is_finite f = true /\ f64_leb f64_zero f = true | _ => True end.
Proof. unfold watts. destruct (as_f64 v) as [w|]; [|done]. destruct (_ && _) eqn:E; [|done]. by apply andb_true_iff in E. Qed.

Lemma readings_honest power : Forall honest_watts (readings power).
Proof.
  unfold readings. apply list.Forall_app. split; [destruct (whole_chassis_control power) as [c|]; [apply list.Forall_singleton; apply watts_honest|constructor]|].
  apply Forall_concat, List.Forall_map, list.Forall_forall. intros [i s] _. cbn [fst snd]. unfold supply_readings. destruct (bool_decide _); [constructor|].
  assert (forall n k sh q m, (match m with PowerCollector.Value f => is_finite f = true /\ f64_leb f64_zero f = true | _ => True end) -> Forall honest_watts (supply_reading n s k sh q m)) as H.
  { intros n k sh q m Hm. unfold supply_reading. destruct (get s (lit k)); [by apply list.Forall_singleton|constructor]. }
  apply list.Forall_app. split; [apply H, watts_honest|]. apply list.Forall_app. split; [apply H, watts_honest|]. apply H. unfold supply_state.
  destruct (match as_f64 _ with Some v => _ | None => _ end); [done|]. destruct (as_str _) as [h|]; [|done]. repeat (destruct (str_eqb h _); [done|]). done.
Qed.

Section attribution.
Context {U : Uuid} {S : Type}.
Variable is_nil : uuid -> bool.
Variable get : bytes -> Run S (result Value TargetError).

(** Every resource the service served, with its path. *)
Definition logged (path : bytes) : Run (S * list (bytes * Value)) (result Value TargetError) := fun s =>
  let '(s1, r) := get path (fst s) in ((s1, match r with Ok v => snd s ++ [(path, v)] | Err _ => snd s end), r).

Lemma logged_ok path s s' v : asked logged path s = (s', Ok v) -> snd s' = snd s ++ [(path, v)].
Proof. unfold asked, logged. destruct (get path (fst s)) as [s1 [x|e]]; [|done]. by intros [= <- <-]. Qed.

Lemma bind_ok {A B T E} (m : ST T E A) (f : A -> ST T E B) s s' b : st_bind m f s = (s', Ok b) -> exists s1 a, m s = (s1, Ok a) /\ f a s1 = (s', Ok b).
Proof. unfold st_bind. destruct (m s) as [s1 [a|e]]; [eauto|done]. Qed.
Lemma supported_ok {A T} (x : result A bytes) (s s' : T) a : supported x s = (s', Ok a) -> s' = s /\ x = Ok a.
Proof. unfold supported, st_of_result. destruct x; cbn; [|done]. by intros [= <- <-]. Qed.

Lemma device_readings system power d : device is_nil system power = Ok d -> PowerCollector.readings d = readings power.
Proof. unfold device. destruct (_ && _); [done|]. by intros [= <-]. Qed.

(** C35. A BMC's readings are reported only with evidence, in what the service served,
    that the chassis they were read from is the reported server's own: it names that
    system alone, in a list that is complete; or it discloses none, neither in its list
    nor by a count or a next page, while the system links to it and is the only one of
    the service's complete collection.  The device reported is that system's.  Every
    wattage reported is finite and not negative. *)
Theorem readings_only_of_own_chassis (s s' : S * list (bytes * Value)) (d : Device) :
  snd s = [] -> read is_nil logged s = (s', Ok d) -> PowerCollector.readings d <> [] ->
  exists systems p system c chassis linked pp power,
    (SYSTEMS, systems) ∈ snd s' /\ first_member systems "computer system" = Ok p /\ (p, system) ∈ snd s' /\ (c, chassis) ∈ snd s' /\
    (linked = true -> chassis_link system = Some c) /\ power_link chassis = Ok pp /\ (pp, power) ∈ snd s' /\
    own_chassis systems system chassis linked /\ device is_nil system power = Ok d /\
    PowerCollector.readings d = readings power /\ Forall honest_watts (PowerCollector.readings d).
Proof.
  intros H0. unfold read. intros (s1 & systems & E1 & H)%bind_ok. apply bind_ok in H as (s2 & p & E2 & H). apply supported_ok in E2 as [-> E2].
  apply bind_ok in H as (s3 & system & E3 & H). apply bind_ok in H as (s4 & [c linked] & E4 & H). apply bind_ok in H as (s5 & chassis & E5 & H).
  apply bind_ok in H as (s6 & pp & E6 & H). apply supported_ok in E6 as [-> E6]. apply bind_ok in H as (s7 & power & E7 & H). cbn [fst snd] in *.
  apply logged_ok in E1, E3, E5, E7. rewrite H0 in E1. cbn [app] in E1.
  assert (exists more, snd s4 = snd s3 ++ more /\ (linked = true -> chassis_link system = Some c)) as (more & Em & Hl).
  { destruct (chassis_link system) as [l|].
    - injection E4 as <- <- <-. exists []. by rewrite app_nil_r.
    - apply bind_ok in E4 as (t1 & all & F1 & F). apply logged_ok in F1. apply bind_ok in F as (t2 & c' & F2 & F). apply supported_ok in F2 as [-> F2].
      injection F as <- <- <-. exists [(CHASSIS, all)]. by split. }
  destruct (owns systems system chassis linked) eqn:Eo; cbn [negb] in H; apply supported_ok in H as [-> H]; apply device_readings in H as Hd.
  - intros _. exists systems, p, system, c, chassis, linked, pp, power. rewrite E7, E5, Em, E3, E1. rewrite Hd.
    split_and!; try done; try (rewrite !elem_of_app, !list_elem_of_singleton; tauto); [by apply owns_evidence|apply readings_honest].
  - intros Hne. by rewrite Hd in Hne.
Qed.
End attribution.

(** A one-system service with one power control. *)
Definition demo_obj (fields : list (string * Value)) : Value := VObject (bt_of_list (map (fun e : string * Value => (lit (fst e), snd e)) fields)).
Definition demo_id (path : string) : Value := demo_obj [("@odata.id"%string, VString (lit path))].
Definition demo_get (path : bytes) : Run unit (result Value TargetError) := fun s =>
  (s, if str_eqb path SYSTEMS then Ok (demo_obj [("Members"%string, VArray [demo_id "/redfish/v1/Systems/1"])])
      else if str_eqb path (lit "/redfish/v1/Systems/1") then
        Ok (demo_obj [("@odata.id"%string, VString (lit "/redfish/v1/Systems/1")); ("SerialNumber"%string, VString (lit "S1"));
                      ("Links"%string, demo_obj [("Chassis"%string, VArray [demo_id "/redfish/v1/Chassis/1"])])])
      else if str_eqb path (lit "/redfish/v1/Chassis/1") then Ok (demo_obj [("Power"%string, demo_id "/redfish/v1/Chassis/1/Power")])
      else Ok (demo_obj [("PowerControl"%string, VArray [demo_obj [("PowerConsumedWatts"%string, VNumber (PosInt 312))]])])).
Definition demo_read := read (U := tiny_uuid) (fun _ => false) (logged demo_get) (tt, []).

Lemma readings_only_of_own_chassis_witness :
  exists s' d, demo_read = (s', Ok d) /\ PowerCollector.readings d <> [] /\
    exists systems p system c chassis linked pp power,
      (SYSTEMS, systems) ∈ snd s' /\ first_member systems "computer system" = Ok p /\ (p, system) ∈ snd s' /\ (c, chassis) ∈ snd s' /\
      (linked = true -> chassis_link system = Some c) /\ power_link chassis = Ok pp /\ (pp, power) ∈ snd s' /\
      own_chassis systems system chassis linked /\ device (U := tiny_uuid) (fun _ => false) system power = Ok d /\
    PowerCollector.readings d = readings power /\ Forall honest_watts (PowerCollector.readings d).
Proof.
  remember demo_read as out eqn:E. pose proof E as E0. vm_compute in E. destruct out as [s' [d|e]]; [|discriminate E].
  exists s', d. assert (PowerCollector.readings d <> []) as Hne. { injection E as _ ->. intros H. discriminate H. }
  split; [reflexivity|]. split; [exact Hne|].
  exact (readings_only_of_own_chassis (U := tiny_uuid) (fun _ => false) demo_get (tt, []) s' d eq_refl (eq_sym E0) Hne).
Defined.
