(* ===== verification/BmcWire.v ===== *)
(** * power/bmc/client.rs and power/bmc/mod.rs: connecting to BMCs and polling them

    Files, certificates and HTTPS are an arbitrary outside ([BmcNet]); a client is what
    [WireRedfish::open] builds, and its verifier decides which certificates it accepts. *)

From Stdlib Require Import String.
From S2P Require Import Prelude Text JsonValue Interfaces SnmpConfig BmcConfig PowerCollector SnmpPoll Redfish.

#[local] Set Warnings "-notation-overridden".

Definition TARGET_BUDGET_TIMEOUTS : Z := 4.
(** The module's timeout, as a duration. *)
Definition request_timeout (c : BmcCollector) : Z := from_secs (bmc_timeout c).

(** Whom a client trusts. *)
Inductive Trust := Pinned (digest : bytes) | Roots (certificates : list bytes) | WebRoots.
(** Without proxies and redirects, always. *)
Record Client := mkClient { trust : Trust; no_proxy : bool; no_redirects : bool; connect_timeout : Z }.
Record WireRedfish := mkWireRedfish { client : Client; origin : bytes; w_username : bytes; w_password : bytes; w_timeout : Z; w_deadline : Z }.

Class BmcNet := {
  net : Type;
  now : net -> net * Z;
  cancelled : net -> net * bool;
  utc_now : net -> net * Z;
  read_to_string : bytes -> net -> net * result bytes bytes;
  (* [CertificateDer::pem_file_iter]: the file, then each certificate or why not; and whether a store takes one. *)
  pem_file_iter : bytes -> net -> net * result (list (result bytes bytes)) bytes;
  root_usable : bytes -> result unit bytes;
  web_roots_ready : result unit bytes;
  sha256 : bytes -> bytes;
  webpki_accepts : list bytes -> bytes -> bytes -> bool;   (* roots, server name, certificate *)
  web_accepts : bytes -> bytes -> bool;
  client_builds : Client -> result unit bytes;
  request : WireRedfish -> bytes -> Z -> net -> net * result answer bytes;
  show_status : Z -> bytes;
  show_debug : bytes -> bytes }.

Section bmc.
Context {J : SerdeJson} {B : BmcNet} {U : Uuid}.
Variable is_nil : uuid -> bool.

(** [Pinned::verify_server_cert]: whatever the certificate names, whoever signed it. *)
Definition verify_server_cert (digest certificate : bytes) : result unit bytes :=
  if str_eqb (sha256 certificate) digest then Ok tt else Err (lit "the BMC's certificate does not match its pin").

Definition accepts (t : Trust) (name certificate : bytes) : Prop :=
  match t with
  | Pinned digest => verify_server_cert digest certificate = Ok tt
  | Roots roots => webpki_accepts roots name certificate = true
  | WebRoots => web_accepts name certificate = true
  end.

(** The loop over a CA file's certificates. *)
Fixpoint add_roots (unreadable : bytes -> bytes) (found : list (result bytes bytes)) (roots : list bytes) : result (list bytes) bytes :=
  match found with
  | [] => Ok roots
  | c :: rest =>
      let? c := map_err unreadable c in
      let? _ := map_err unreadable (root_usable c) in
      add_roots unreadable rest (roots ++ [c])
  end.

Definition tls (c : BmcCollector) (t : BmcTarget) : ST net bytes Trust := fun w =>
  match pin t with
  | Some digest => (w, Ok (Pinned digest))
  | None =>
      match bmc_ca_file c with
      | None => (w, let? _ := web_roots_ready in Ok WebRoots)
      | Some path =>
          let unreadable := fun e => lit "cannot read " ++ path ++ lit ": " ++ e in
          let '(w, r) := pem_file_iter path w in
          (w, let? found := map_err unreadable r in
              let? roots := add_roots unreadable found [] in
              if bool_decide (roots = []) then Err (path ++ lit " holds no certificate") else Ok (Roots roots))
      end
  end.

Definition trim_newlines (s : bytes) : bytes := rev (drop_while (fun b => (b =? 13) || (b =? 10)) (rev s)).

Definition open (c : BmcCollector) (t : BmcTarget) (deadline : Z) : ST net TargetError WireRedfish := fun w =>
  let '(w, r) := read_to_string (bmc_password_file c) w in
  match r with
  | Err e => (w, Err (TNotPermitted (lit "cannot read " ++ bmc_password_file c ++ lit ": " ++ e)))
  | Ok password =>
      let '(w, t_) := tls c t w in
      match t_ with
      | Err e => (w, Err (TUnreachable e))
      | Ok trust =>
          let cl := mkClient trust true true (request_timeout c) in
          (w, match client_builds cl with
              | Err e => Err (TUnreachable (lit "cannot build the BMC client: " ++ e))
              | Ok _ => Ok (mkWireRedfish cl (origin_of (bmc_target t)) (bmc_username c) (trim_newlines password) (request_timeout c) deadline)
              end)
      end
  end.

(** A connection as the service [Redfish.v] reads. *)
Definition bmc_service (r : WireRedfish) : Service :=
  {| service := net; clock := now; send := request r; status_text := show_status; debug := show_debug |}.

(** One target of [poll], with the requests it made, each with the connection it went through. *)
Abbreviation Sent := (WireRedfish * (bytes * Z))%type.
Definition read_target (c : BmcCollector) (t : BmcTarget) : Run net (result Device TargetError * list Sent) := fun w =>
  let '(w, stop) := cancelled w in
  if (stop : bool) then (w, (Err (TUnreachable (lit "polling was cancelled")), []))
  else
    let '(w, n) := now w in
    match open c t (n + request_timeout c * TARGET_BUDGET_TIMEOUTS) w with
    | (w, Err e) => (w, (Err e, []))
    | (w, Ok r) =>
        let '(s, res) := Redfish.read is_nil (wire_get (V := bmc_service r) (origin r) (w_timeout r) (w_deadline r)) (w, []) in
        (fst s, (res, map (pair r) (snd s)))
    end.
Definition poll_target (c : BmcCollector) (t : BmcTarget) : Run net (Outcome * list Sent) := fun w =>
  let '(w, (res, log)) := read_target c t w in
  let '(w, at_) := utc_now w in
  (w, (mkPolled (address (bmc_target t)) at_ res, log)).

(** [poll]: the outcomes it may return, each with its requests. *)
Definition poll (c : BmcCollector) (out : list (Outcome * list Sent)) : Prop :=
  each (fun t o => exists w, o = snd (poll_target c t w)) (bmc_targets c) (Z.to_nat (bmc_max_concurrent_targets c)) out.
End bmc.

(** ** A poll stays with its targets *)

Section contained.
Context {J : SerdeJson} {B : BmcNet} {U : Uuid}.
Variable is_nil : uuid -> bool.
(** An answer is from a server that presented a certificate the client's verifier accepts
    and holds its key: rustls completes no handshake otherwise. *)
Variable served : bytes -> bytes -> Prop.     (* a certificate, and a URL answered under it *)
Hypothesis verified : forall r url limit w w' a, request r url limit w = (w', Ok a) -> exists name certificate, accepts (trust (client r)) name certificate /\ served certificate url.

Section one.
Variable r : WireRedfish.
Definition proven (q : bytes * Z) : Prop := exists name certificate, accepts (trust (client r)) name certificate /\ served certificate (fst q).
(** What succeeds has only asked servers that proved who they are. *)
Definition proves {A} (m : ST (net * list (bytes * Z)) TargetError A) : Prop :=
  forall s s' a, m s = (s', Ok a) -> Forall proven (snd s) -> Forall proven (snd s').

Lemma proves_bind {A X} (m : ST _ TargetError A) (f : A -> ST _ TargetError X) : proves m -> (forall a, proves (f a)) -> proves (st_bind m f).
Proof. intros Hm Hf s s' a (s1 & b & E1 & E2)%st_bind_inv Hs. eapply Hf; [exact E2|]. by eapply Hm. Qed.
Lemma proves_result {A} (x : result A TargetError) : proves (st_of_result x).
Proof. by intros s s' a [= <- _]. Qed.
Lemma proves_ret {A} (a : A) : proves (st_ret a).
Proof. by intros s s' b [= <- _]. Qed.

Lemma proves_get path : proves (asked (wire_get (V := bmc_service r) (origin r) (w_timeout r) (w_deadline r)) path).
Proof.
  intros s s' v. unfold asked, wire_get. destruct (service_path path); cbn [negb]; [|done]. cbn [clock send bmc_service service]. destruct (now (fst s)) as [w1 n]. destruct (since _ _ =? 0); [done|].
  destruct (request r _ _ w1) as [w2 x] eqn:Er. destruct x as [a|e]; [|done]. intros E Hs. assert (s' = (w2, snd s ++ [(origin r ++ path, Z.min (w_timeout r) (since (w_deadline r) n))])) as -> by congruence.
  cbn [snd]. apply Forall_app. split; [done|]. constructor; [|constructor]. exact (verified _ _ _ _ _ _ Er).
Qed.

Lemma proves_read : proves (Redfish.read is_nil (wire_get (V := bmc_service r) (origin r) (w_timeout r) (w_deadline r))).
Proof.
  unfold Redfish.read. apply proves_bind; [apply proves_get|]. intros systems. apply proves_bind; [apply proves_result|]. intros first. apply proves_bind; [apply proves_get|]. intros system.
  apply proves_bind.
  - destruct (chassis_link system); [apply proves_ret|]. apply proves_bind; [apply proves_get|]. intros all. apply proves_bind; [apply proves_result|]. intros c. apply proves_ret.
  - intros link. apply proves_bind; [apply proves_get|]. intros chassis. apply proves_bind; [apply proves_result|]. intros path. apply proves_bind; [apply proves_get|]. intros power.
    destruct (negb _); apply proves_result.
Qed.
End one.

(** The connection of a request is one to the target: straight, without proxies or
    redirects, with the configured user, and to nobody but a pinned server. *)
Definition connected (c : BmcCollector) (t : BmcTarget) (r : WireRedfish) : Prop :=
  origin r = origin_of (bmc_target t) /\ w_timeout r = request_timeout c /\ w_username r = bmc_username c /\
  no_proxy (client r) = true /\ no_redirects (client r) = true /\ (forall digest, pin t = Some digest -> trust (client r) = Pinned digest).

(** [open] takes the target's own address and trust. *)
Lemma open_spec c t deadline w w' r : open c t deadline w = (w', Ok r) -> connected c t r.
Proof.
  unfold open. destruct (read_to_string _ w) as [w1 [password|e]]; [|done]. destruct (tls c t w1) as [w2 [tr|e]] eqn:Et; [|done]. destruct (client_builds _); [|done].
  intros E. assert (r = mkWireRedfish (mkClient tr true true (request_timeout c)) (origin_of (bmc_target t)) (bmc_username c) (trim_newlines password) (request_timeout c) deadline) as -> by congruence.
  unfold connected. cbn [origin w_timeout w_username client no_proxy no_redirects trust]. split_and!; try done. intros digest Hp. unfold tls in Et. rewrite Hp in Et. congruence.
Qed.

(** What one target's outcome may be. *)
Definition target_ok (c : BmcCollector) (t : BmcTarget) (o : Outcome * list (WireRedfish * (bytes * Z))) : Prop :=
  p_address (fst o) = address (bmc_target t) /\
  Forall (fun q => connected c t (fst q) /\ on_service (origin_of (bmc_target t)) (request_timeout c) (snd q)) (snd o) /\ (length (snd o) <= 5)%nat /\
  (forall digest d, pin t = Some digest -> p_result (fst o) = Ok d -> Forall (fun q => exists certificate, sha256 certificate = digest /\ served certificate (fst (snd q))) (snd o)).

Lemma poll_target_ok c t w : target_ok c t (snd (poll_target is_nil c t w)).
Proof.
  unfold poll_target, read_target. destruct (cancelled w) as [w1 []]; [destruct (utc_now w1); split_and!; [done|constructor|cbn; lia|done]|].
  destruct (now w1) as [w2 n]. destruct (open c t _ w2) as [w3 [r|e]] eqn:Eo; [|destruct (utc_now w3); split_and!; [done|constructor|cbn; lia|done]].
  apply open_spec in Eo as Hc. destruct Hc as (Ho & Ht & _ & _ & _ & Hp).
  destruct (Redfish.read is_nil (wire_get (V := bmc_service r) (origin r) (w_timeout r) (w_deadline r)) (w3, [])) as [s res] eqn:Er. pose proof Er as Er'. apply (read_asks (V := bmc_service r)) in Er as (more & El & Hs & Hn). cbn [snd app] in El. subst more.
  destruct (utc_now (fst s)) as [w4 at_]. cbn [snd fst]. rewrite Ho, Ht in Hs. unfold target_ok. cbn [fst snd]. split_and!; [done| |by rewrite length_map|].
  - apply Forall_fmap. eapply List.Forall_impl; [|exact Hs]. intros q Hq. split; [by eapply open_spec|done].
  - intros digest d Hd Hr. cbn [fst p_result] in Hr. subst res. apply Forall_fmap.
    pose proof (proves_read r _ _ _ Er' (List.Forall_nil _)) as Hpr. eapply List.Forall_impl; [|exact Hpr]. intros q (name & certificate & Ha & Hsv). exists certificate. split; [|done].
    rewrite (Hp _ Hd) in Ha. cbn [accepts] in Ha. unfold verify_server_cert in Ha. destruct (str_eqb _ _) eqn:Eq; [|done]. by apply bool_decide_eq_true in Eq.
Qed.

(** C19. However its workers interleave, a poll gives one outcome for each target in order.  Its
    requests, at most five a target, go to that target's own origin under a Redfish service
    path within the module's timeout, as the configured user and past no proxy or redirect; and what a pinned target reports was all read from a
    server that presented exactly the pinned certificate. *)
Theorem bmc_poll_contained (c : BmcCollector) (out : list (Outcome * list (WireRedfish * (bytes * Z)))) :
  0 < bmc_max_concurrent_targets c -> poll is_nil c out -> Forall2 (target_ok c) (bmc_targets c) out.
Proof.
  intros Hm H. unfold poll in H. apply each_in_order in H; [|lia]. eapply Forall2_impl; [|exact H]. intros t o (w & ->). apply poll_target_ok.
Qed.
End contained.

(** A pinned BMC that serves one empty document. *)
Definition demo_net : BmcNet := {|
  net := unit; now := fun w => (w, 0); cancelled := fun w => (w, false); utc_now := fun w => (w, 7);
  read_to_string := fun _ w => (w, Ok (lit "secret" ++ [10])); pem_file_iter := fun _ w => (w, Ok []); root_usable := fun _ => Ok tt; web_roots_ready := Ok tt;
  sha256 := fun c => rev c; webpki_accepts := fun _ _ _ => false; web_accepts := fun _ _ => false; client_builds := fun _ => Ok tt;
  request := fun r _ _ w => (w, match trust (client r) with Pinned d => if bool_decide (d = [3; 2; 1]) then Ok (mkAnswer 200 (Ok [])) else Err (lit "handshake") | _ => Err (lit "handshake") end);
  show_status := show_u64; show_debug := fun b => b |}.
Definition demo_json : SerdeJson := {| from_slice := fun _ => Ok VNull; show_float := fun _ => [] |}.
Definition demo_bmc : BmcCollector :=
  mkBmc (lit "lab") [mkBmcTarget (mkTarget (lit "192.0.2.7") (lit "192.0.2.7") 443) (Some [3; 2; 1])] (lit "reader") (lit "/etc/renga/bmc") None 60 10 2.

Lemma bmc_poll_contained_witness : 0 < bmc_max_concurrent_targets demo_bmc /\ exists out, poll (J := demo_json) (B := demo_net) (U := tiny_uuid) (fun _ => false) demo_bmc out /\
  Forall2 (target_ok (B := demo_net) (fun certificate _ => certificate = [1; 2; 3]) demo_bmc) (bmc_targets demo_bmc) out.
Proof.
  split; [reflexivity|].
  destruct (each_returns (fun t o => exists w, o = snd (poll_target (J := demo_json) (B := demo_net) (U := tiny_uuid) (fun _ => false) demo_bmc t w)) (bmc_targets demo_bmc) 2) as (out & Hout).
  - intros t. eexists _, tt. reflexivity.
  - exists out. split; [exact Hout|]. apply (bmc_poll_contained (J := demo_json) (B := demo_net) (U := tiny_uuid) (fun _ => false)); [|reflexivity|exact Hout].
    intros r url limit w w' a H. cbn in H. destruct (trust (client r)) as [digest| |]; [|discriminate H|discriminate H]. exists [], [1; 2; 3]. split; [|reflexivity].
    case_bool_decide as Hd; [|discriminate H]. rewrite Hd. reflexivity.
Defined.
