(* ===== verification/ModuleRuns.v ===== *)
(** * The collector modules' threads

    [run] of switch_report.rs, power/collector.rs, power/mod.rs and exporters/mod.rs, and
    [run_module] of libvirt/worker.rs: the loop of ModuleLoop.v with each module's poll and
    what it makes of it.  A sink is the daemon's and may do anything. *)

From Stdlib Require Import String.
From S2P Require Import Prelude Text Interfaces Payload Batching SwitchReport PowerCollector Hwmon LibvirtConfig Libvirt ExportersConfig Exporters ExporterMapping Command ModuleLoop.

#[local] Set Warnings "-notation-overridden".

Section runs.
Context {P : Programs} {U : Uuid} {L : UrlApi} {H : UrlHost}.
Variables (rfc3339 : Z -> bytes) (to_vec : wire -> option bytes) (stamp : nat -> uuid * Z).
Abbreviation Sink := (uuid -> bytes -> Run programs unit).
Abbreviation Loop := (ST (programs * list event) unit).

(** [for (id, body) in reports { sink(id, body) }]. *)
Fixpoint hand_over (sink : Sink) (out : list (uuid * bytes)) : Run programs unit := fun w =>
  match out with
  | [] => (w, tt)
  | (id, body) :: out' => let '(w, _) := sink id body w in hand_over sink out' w
  end.

(** switch_report.rs; the state is how many reports were built. *)
Definition switch_publish (collector_id : bytes) (sink : Sink) (built : nat) (os : list TargetOutcome) : Run programs (option nat) := fun w =>
  match SwitchReport.reports rfc3339 to_vec stamp collector_id built os with
  | None => (w, None)
  | Some (k, rs) => let '(w, _) := hand_over sink rs w in (w, Some k)
  end.
Definition switch_run (collector_id : bytes) (interval : Z) (sink : Sink) (poll : Run programs (list TargetOutcome)) (fuel built : nat) : Loop nat :=
  run_module poll (switch_publish collector_id sink) (until_next interval) true fuel built.

(** power/collector.rs: the batches are handed over before the clock is read for the
    reports, and the reports before it is read to note them. *)
Definition power_publish (c : Collector) (interval : Z) (telemetry observations : Sink) (m : module) (os : list PowerCollector.Outcome) : Run programs (option module) := fun w =>
  match poll_turn rfc3339 to_vec stamp c interval os m with
  | None => (w, None)
  | Some (m, bs) =>
      let '(w, _) := hand_over telemetry bs w in
      let last := reported_as_shown to_vec m os in
      let '(w, now) := match last with None => (w, 0) | Some _ => instant w end in
      if inventory_due last now then
        let '(rs, noted) := inventory_turn rfc3339 to_vec stamp c os m in
        let '(w, _) := hand_over observations rs w in
        let '(w, now) := instant w in
        (w, Some (noted now))
      else (w, Some m)
  end.
Definition power_run (c : Collector) (interval : Z) (telemetry observations : Sink) (poll : Run programs (list PowerCollector.Outcome)) (fuel : nat) (m : module) : Loop module :=
  run_module poll (power_publish c interval telemetry observations) (until_next interval) true fuel m.

(** power/mod.rs: the sensors are read and handed over in one, without asking again whether to stop. *)
Definition host_publish (fs : sysfs) (quoted : bytes -> bytes) (root : bytes) (utc : Run programs Z) (new_id : Run programs uuid) (sink : Sink)
  (sources : PowerSources) (_ : unit) : Run programs (option PowerSources) := fun w =>
  let '(w, now) := utc w in
  let '(w, id) := new_id w in
  let '(sources, out) := sample_host fs quoted rfc3339 to_vec root id now sources in
  let '(w, _) := hand_over sink (match out with Some r => [r] | None => [] end) w in
  (w, Some sources).
Definition host_power_run (fs : sysfs) (quoted : bytes -> bytes) (root : bytes) (utc : Run programs Z) (new_id : Run programs uuid) (sink : Sink) (fuel : nat) (sources : PowerSources) : Loop PowerSources :=
  run_module (fun w => (w, tt)) (host_publish fs quoted root utc new_id sink) (until_elapsed SAMPLE_INTERVAL) false fuel sources.

(** exporters/mod.rs: the state is the series known and the sources. *)
Definition exporter_publish (e : Exporter) (utc : Run programs Z) (new_id : Run programs uuid) (sink : Sink)
  (t : list ExporterMapping.Reading * PowerSources) (r : result (list ExporterMapping.Reading) FetchError) : Run programs (option (list ExporterMapping.Reading * PowerSources)) := fun w =>
  let '(w, now) := utc w in
  let '(w, id) := new_id w in
  let '(known, sources, out) := scrape rfc3339 to_vec e r id now (fst t) (snd t) in
  let '(w, _) := hand_over sink (match out with Some r => [r] | None => [] end) w in
  (w, Some (known, sources)).
Definition exporter_run (e : Exporter) (utc : Run programs Z) (new_id : Run programs uuid) (sink : Sink)
  (text_of : Run programs (result (list ExporterMapping.Reading) FetchError)) (fuel : nat) (t : list ExporterMapping.Reading * PowerSources) : Loop (list ExporterMapping.Reading * PowerSources) :=
  run_module text_of (exporter_publish e utc new_id sink) (until_elapsed (exporter_interval e)) true fuel t.

(** libvirt/worker.rs. *)
Definition libvirt_publish (c : LibvirtCollector) (sink : Sink) (_ : unit) (p : Poll) : Run programs (option unit) := fun w =>
  let '(w, _) := hand_over sink (map Libvirt.sent_report (Libvirt.reports rfc3339 to_vec stamp c p)) w in (w, Some tt).
Definition libvirt_run (c : LibvirtCollector) (interval : Z) (sink : Sink) (poll : Run programs Poll) (fuel : nat) : Loop unit :=
  run_module poll (libvirt_publish c sink) (until_next interval) true fuel tt.
End runs.

(** ** Every module keeps its pace *)

Section pace.
Context {P : Programs} {T : TimePasses P} {SS : StopStays P} {U : Uuid} {L : UrlApi} {H : UrlHost}.
Variables (rfc3339 : Z -> bytes) (to_vec : wire -> option bytes) (stamp : nat -> uuid * Z).

(** Polls start an interval apart; and once told to stop by some time the loop returns. *)
Definition keeps_pace {X} (interval : Z) (m : nat -> ST (programs * list event) unit X) : Prop :=
  (forall fuel w, spaced interval (starts (snd (fst (m fuel (w, [])))))) /\
  (forall deadline w, (forall w, deadline <= time w -> snd (stopping w) = true) ->
     exists s' x, m (S (S (Z.to_nat ((deadline - time w) / interval)))) (w, []) = (s', Ok x)).

(** Time does not go back in what is outside. *)
Definition passes {A} (m : Run programs A) : Prop := forall w, time w <= time (fst (m w)).

Lemma module_keeps_pace {X R} (interval : Z) (poll : Run programs R) (publish : X -> R -> Run programs (option X)) (exact recheck : bool) (t : X) :
  0 < interval -> passes poll -> (forall t o, passes (publish t o)) -> (forall t o w, snd (publish t o w) <> None) ->
  keeps_pace interval (fun fuel => run_module poll publish (if exact then until_next interval else until_elapsed interval) recheck fuel t).
Proof.
  intros Hi Hpoll Hpub Hsome.
  assert (forall started w l, started <= time w -> waits_until ((if exact then until_next interval else until_elapsed interval) started) w l (started + interval)) as Hw.
  { intros started w l Hs. destruct exact; [apply wait_until_waits|apply wait_elapsed_waits]; try done; try (by apply slices_enough); unfold slices; lia. }
  split.
  - intros fuel w. by apply module_polls_spaced.
  - intros deadline w Hd. by apply module_returns.
Qed.

Lemma hand_over_passes sink out : (forall id body, passes (sink id body)) -> passes (hand_over sink out).
Proof.
  intros Hs. induction out as [|[id body] out IH]; intros w; cbn [hand_over]; [done|]. pose proof (Hs id body w). destruct (sink id body w) as [w1 ?]. cbn [fst] in *. specialize (IH w1). lia.
Qed.

Lemma batches_end c k os known fresh : snd (batches rfc3339 to_vec stamp c k os known fresh) <> None.
Proof.
  unfold batches. destruct (gather _ _ _) as [known' ss].
  destruct (halve_complete (encode_batch rfc3339 to_vec stamp c) (Batching.turns (chunks SAMPLES_PER_BATCH ss)) k (chunks SAMPLES_PER_BATCH ss)) as (k' & sent & dropped & E & _); [apply weights_turns|].
  by rewrite E.
Qed.

Variables (sink observations : uuid -> bytes -> Run programs unit).
Hypothesis sink_passes : forall id body, passes (sink id body).
Hypothesis observations_pass : forall id body, passes (observations id body).

Lemma switch_keeps_pace id interval poll built : 0 < interval -> passes poll -> keeps_pace interval (fun fuel => switch_run rfc3339 to_vec stamp id interval sink poll fuel built).
Proof.
  intros Hi Hp. apply (module_keeps_pace interval poll (switch_publish rfc3339 to_vec stamp id sink) true true); [done|done| |].
  - intros t o w. unfold switch_publish. destruct (SwitchReport.reports _ _ _ _ _ _) as [[k rs]|]; [|done]. pose proof (hand_over_passes sink rs sink_passes w). by destruct (hand_over sink rs w).
  - intros t o w. unfold switch_publish, SwitchReport.reports. destruct (sent_reports_spec rfc3339 to_vec stamp id t o) as (k' & sent & dropped & E & _). rewrite E.
    cbn [mbind option_bind]. by destruct (hand_over sink _ w).
Qed.

Lemma inventory_passes c os m : passes (fun w => let '(rs, noted) := inventory_turn rfc3339 to_vec stamp c os m in
  let '(w, _) := hand_over observations rs w in let '(w, now) := instant w in (w, Some (noted now))).
Proof.
  intros w. destruct (inventory_turn _ _ _ _ _ _) as [rs noted]. pose proof (hand_over_passes observations rs observations_pass w) as H1. destruct (hand_over observations rs w) as [w1 []].
  pose proof (instant_reads w1) as H2. destruct (instant w1). cbn [fst] in *. lia.
Qed.

Lemma power_keeps_pace c interval poll m : 0 < interval -> passes poll -> keeps_pace interval (fun fuel => power_run rfc3339 to_vec stamp c interval sink observations poll fuel m).
Proof.
  intros Hi Hp. apply (module_keeps_pace interval poll (power_publish rfc3339 to_vec stamp c interval sink observations) true true); [done|done| |].
  - intros t o w. unfold power_publish. destruct (poll_turn _ _ _ _ _ _ _) as [[m' bs]|]; [|done].
    pose proof (hand_over_passes sink bs sink_passes w) as H3. destruct (hand_over sink _ w) as [w3 []]. cbn [fst] in H3. destruct (reported_as_shown _ _ _) as [at_|].
    + pose proof (instant_reads w3) as H4. destruct (instant w3) as [w4 now_]. destruct (inventory_due _ _); [|cbn; lia]. pose proof (inventory_passes c o m' w4). cbn [fst] in *. lia.
    + pose proof (inventory_passes c o m' w3). cbn [inventory_due fst] in *. lia.
  - intros t o w. unfold power_publish, poll_turn.
    pose proof (batches_end c (built t) o (known t) (fresh_for_seconds interval)) as Hb. destruct (batches _ _ _ _ _ _ _ _) as [known' [[k bs]|]]; [|done]. cbn [mbind option_bind].
    destruct (hand_over sink _ w) as [w3 []]. destruct (match reported_as_shown _ _ _ with None => _ | Some _ => _ end) as [w4 now_]. destruct (inventory_due _ _); [|done].
    destruct (inventory_turn _ _ _ _ _ _) as [rs noted]. destruct (hand_over observations _ w4) as [w5 []]. by destruct (instant w5).
Qed.

Variables (utc : Run programs Z) (new_id : Run programs uuid).
Hypothesis utc_passes : passes utc.
Hypothesis new_id_passes : passes new_id.

(** The end of a publication: a document or none. *)
Lemma stamped_passes {A} (f : Z -> uuid -> A * list (uuid * bytes)) : passes (fun w => let '(w, now) := utc w in let '(w, id) := new_id w in let '(a, out) := f now id in
  let '(w, _) := hand_over sink out w in (w, Some a)).
Proof.
  intros w. pose proof (utc_passes w) as H1. destruct (utc w) as [w1 now]. pose proof (new_id_passes w1) as H2. destruct (new_id w1) as [w2 id]. cbn [fst] in *. destruct (f now id) as [a out].
  pose proof (hand_over_passes sink out sink_passes w2) as H3. destruct (hand_over sink out w2). cbn [fst] in *. lia.
Qed.

Lemma host_keeps_pace fs quoted root sources : keeps_pace SAMPLE_INTERVAL (fun fuel => host_power_run rfc3339 to_vec fs quoted root utc new_id sink fuel sources).
Proof.
  apply (module_keeps_pace SAMPLE_INTERVAL (fun w => (w, tt)) (host_publish rfc3339 to_vec fs quoted root utc new_id sink) false false); [done|intros w; cbn; lia| |].
  - intros t o w. unfold host_publish. pose proof (stamped_passes (fun now id => let '(sources, out) := sample_host fs quoted rfc3339 to_vec root id now t in (sources, match out with Some r => [r] | None => [] end)) w) as Hs.
    cbv beta in Hs. destruct (utc w) as [w1 now]. destruct (new_id w1) as [w2 id]. by destruct (sample_host _ _ _ _ _ _ _ _) as [sources' out].
  - intros t o w. unfold host_publish. destruct (utc w) as [w1 now]. destruct (new_id w1) as [w2 id]. destruct (sample_host _ _ _ _ _ _ _ _) as [sources' out]. by destruct (hand_over sink _ w2).
Qed.

Lemma exporter_keeps_pace e text_of t : 0 < exporter_interval e -> passes text_of -> keeps_pace (exporter_interval e) (fun fuel => exporter_run rfc3339 to_vec e utc new_id sink text_of fuel t).
Proof.
  intros Hi Hp. apply (module_keeps_pace (exporter_interval e) text_of (exporter_publish rfc3339 to_vec e utc new_id sink) false true); [done|done| |].
  - intros x r w. unfold exporter_publish. pose proof (stamped_passes (fun now id => let '(known, sources, out) := scrape rfc3339 to_vec e r id now (fst x) (snd x) in ((known, sources), match out with Some r => [r] | None => [] end)) w) as Hs.
    cbv beta in Hs. destruct (utc w) as [w1 now]. destruct (new_id w1) as [w2 id]. by destruct (scrape _ _ _ _ _ _ _ _) as [[known' sources'] out].
  - intros x r w. unfold exporter_publish. destruct (utc w) as [w1 now]. destruct (new_id w1) as [w2 id]. destruct (scrape _ _ _ _ _ _ _ _) as [[known' sources'] out]. by destruct (hand_over sink _ w2).
Qed.

Lemma libvirt_keeps_pace c interval poll : 0 < interval -> passes poll -> keeps_pace interval (fun fuel => libvirt_run rfc3339 to_vec stamp c interval sink poll fuel).
Proof.
  intros Hi Hp. apply (module_keeps_pace interval poll (libvirt_publish rfc3339 to_vec stamp c sink) true true); [done|done| |].
  - intros t p w. unfold libvirt_publish. pose proof (hand_over_passes sink (map Libvirt.sent_report (Libvirt.reports rfc3339 to_vec stamp c p)) sink_passes w) as Hs. by destruct (hand_over sink _ w).
  - intros t p w. unfold libvirt_publish. by destruct (hand_over sink _ w).
Qed.

(** C22. Every collector module's thread keeps its pace, whatever its targets answer and its sink
    does: its polls start at least its interval apart, and once the module is stopped by
    some time the thread ends, after no more rounds than intervals fit until then. *)
Theorem collector_modules_keep_pace (switch_id : bytes) (c : Collector) (e : Exporter) (l : LibvirtCollector) (interval : Z) fs quoted root
  switch_poll power_poll text_of libvirt_poll built m sources t :
  0 < interval -> 0 < exporter_interval e -> passes switch_poll -> passes power_poll -> passes text_of -> passes libvirt_poll ->
  keeps_pace interval (fun fuel => switch_run rfc3339 to_vec stamp switch_id interval sink switch_poll fuel built) /\
  keeps_pace interval (fun fuel => power_run rfc3339 to_vec stamp c interval sink observations power_poll fuel m) /\
  keeps_pace SAMPLE_INTERVAL (fun fuel => host_power_run rfc3339 to_vec fs quoted root utc new_id sink fuel sources) /\
  keeps_pace (exporter_interval e) (fun fuel => exporter_run rfc3339 to_vec e utc new_id sink text_of fuel t) /\
  keeps_pace interval (fun fuel => libvirt_run rfc3339 to_vec stamp l interval sink libvirt_poll fuel).
Proof.
  intros. split_and!; [by apply switch_keeps_pace|by apply power_keeps_pace|apply host_keeps_pace|by apply exporter_keeps_pace|by apply libvirt_keeps_pace].
Qed.
End pace.

(** ** A machine stopped after three seconds *)

Definition brief_machine : Programs := {|
  programs := Z; stopping := fun t => (t, 3000000000 <=? t); instant := fun t => (t, t); spawn := fun _ t => (t, Ok tt); try_wait := fun t => (t, Ok None);
  kill_group := fun t => (t, tt); wait := fun t => (t, tt); drained := fun t => (t, None); sleep := fun d t => (t + d, tt) |}.
Definition brief_time : TimePasses brief_machine.
Proof. refine (Build_TimePasses brief_machine (fun t : Z => t) _ _ _ _); cbn; intros; lia. Defined.
Definition brief_stays : StopStays brief_machine.
Proof. intros w H. exact H. Defined.
Definition quiet_sink (id : uuid (Uuid := tiny_uuid)) (body : bytes) : Run Z unit := fun t => (t + 5, tt).
Definition quiet_sysfs : sysfs := mkSysfs (fun _ => Ok []) (fun _ => Ok []) (fun _ => false) (fun p => Ok p).
Definition demo_exporter : Exporter (L := tiny_url) := mkExporter (L := tiny_url) (mkEndpoint (L := tiny_url) (lit "http://127.0.0.1/metrics") false None 5 100) (from_secs 1).
Definition no_wire : wire -> option bytes := fun _ => Some [].

Lemma collector_modules_keep_pace_witness :
  exists s', switch_run (P := brief_machine) (U := tiny_uuid) (fun _ => []) no_wire (fun k => (U0, 0)) (lit "sw") (from_secs 1) quiet_sink (fun t => (t + 7, [])) 6 0 (0, []) = (s', Ok 0%nat) /\
    starts (snd s') = [0; 1000000000; 2000000000] /\ spaced (from_secs 1) (starts (snd s')).
Proof.
  eexists. split; [vm_compute; reflexivity|]. split; [reflexivity|].
  assert (forall A (x : A) d, 0 <= d -> passes (P := brief_machine) (T := brief_time) (fun t : Z => (t + d, x))) as Hp by (intros A x d Hd t; cbn; lia).
  refine (proj1 (proj1 (collector_modules_keep_pace (P := brief_machine) (T := brief_time) (SS := brief_stays) (U := tiny_uuid) (L := tiny_url)
    (fun _ => []) no_wire (fun k => (U0, 0)) quiet_sink quiet_sink _ _ (fun t => (t + 0, 9)) (fun t => (t + 0, U1)) _ _ (lit "sw") (mkCollector (lit "p") PowerPoller) demo_exporter
    (mkLibvirt (lit "l") [] 1 1) (from_secs 1) quiet_sysfs (fun b => b) [] (fun t => (t + 7, [])) (fun t => (t + 0, [])) (fun t => (t + 0, Ok [])) (fun t => (t + 0, mkPoll (Ok []) true))
    0%nat (mkModule ∅ None ∅ 0%nat) ∅ ([], ∅) _ _ _ _ _ _)) 6%nat 0); first [reflexivity | apply Hp; vm_compute; discriminate | intros id body; apply Hp; vm_compute; discriminate].
Defined.
