(* ===== verification/ModuleWire.v ===== *)
(** * The polling modules over the wire

    What each thread of snmp/worker.rs, power/pdu/mod.rs and gnmi/worker.rs polls with: the
    polls of SnmpPoll.v, PduMibs.v and GnmiSwitch.v, whose sessions are arbitrary there, on the
    sessions of SnmpWire.v and GnmiWire.v opened as the module is configured, many at once in
    any interleaving. *)

From Stdlib Require Import String.
From S2P Require Import Prelude Text BTree Payload SnmpConfig GnmiConfig SwitchReport SnmpWalk SnmpMibs SnmpPoll SnmpWire PowerCollector PduMibs JsonValue GnmiTree GnmiSwitch GnmiWire.

#[local] Set Warnings "-notation-overridden".

(** ** SNMP and PDU modules *)

(** What the crate documents of opening a session: it has the version asked for, also once it
    knows the device's engine. *)
Class Opens (S : Snmp2) := {
  v3_opened : forall m a d sec s, new_v3 m a d sec = Ok s -> version s = V3v;
  init_keeps : forall s s', s_init s = Ok s' -> version s' = version s }.

Section snmp.
Context {S : Snmp2}.
Variable lower_char : bytes -> bytes.

(** The [open] of [spawn_wire] and of [Pollers::start]. *)
Definition wire_open (c : SnmpCollector) (m : moment) (t : Target) : result SnmpWire.WireSession bytes :=
  SnmpWire.open m t (snmp_credentials c) (snmp_timeout c).

(** snmp/worker.rs: what a poll of the module may give. *)
Definition snmp_module_poll (c : SnmpCollector) : list TargetOutcome -> Prop :=
  SnmpPoll.poll (D := wire_device) lower_char (fun t _ opened => exists m, opened = wire_open c m t) c.

(** [snmp::each_target]. *)
Definition each_target {T} (c : SnmpCollector) (reads : Target -> T -> Prop) : list T -> Prop :=
  each reads (snmp_targets c) (Z.to_nat (snmp_max_concurrent_targets c)).

(** power/pdu/mod.rs: the same of a PDU module. *)
Definition pdu_module_poll (c : SnmpCollector) : list Outcome -> Prop :=
  each_target c (fun t o => exists stopped m now,
    o = pdu_outcome (D := wire_device) (SnmpConfig.address t) stopped (wire_open c m t) now).

(** ** Only authentic answers are reported *)

Context {C : Checked S} {O : Opens S}.

Definition is_v3 (c : SnmpConfig.Credentials) : bool := match c with SnmpConfig.V3 _ _ _ _ _ => true | SnmpConfig.V2c _ => false end.

(** The session of a version 3 module was opened with its user name and protocols, at the
    address its target's name gave. *)
Definition opened_for (c : SnmpCollector) (t : Target) (s : SnmpWire.WireSession) : Prop :=
  exists m a rest user auth af privacy pf ap pp s0,
    snmp_credentials c = SnmpConfig.V3 user auth af privacy pf /\
    resolve m (SnmpConfig.host t) (SnmpConfig.port t) = Ok (a :: rest) /\
    new_v3 m a (snmp_timeout c) (mkSecurity user ap (wire_auth auth) (wire_cipher privacy) pp Blumenthal) = Ok s0 /\
    s_init s0 = Ok (inner s) /\ version (inner s) = V3v.

Lemma wire_open_v3 c m t s : is_v3 (snmp_credentials c) = true -> wire_open c m t = Ok s -> opened_for c t s.
Proof.
  intros Hv. unfold wire_open, SnmpWire.open. destruct (snmp_credentials c) as [user auth af privacy pf|] eqn:Ec; [|done].
  intros (found & E1 & (a & E2 & (s1 & E3 & [= <-])%result_bind_ok)%result_bind_ok)%result_bind_ok.
  apply result_bind_ok in E3 as (ap & _ & (pp & _ & (s0 & E4 & E5)%result_bind_ok)%result_bind_ok).
  destruct (resolve m (SnmpConfig.host t) (SnmpConfig.port t)) as [l|] eqn:Er; [|done]. injection E1 as ->. destruct found as [|b rest]; [done|]. injection E2 as ->.
  destruct (new_v3 m a _ _) as [s0'|] eqn:En; [|done]. injection E4 as ->. destruct (s_init s0) as [s1'|] eqn:Ei; [|done]. injection E5 as ->.
  do 11 eexists. split_and!; [exact Ec|exact Er|exact En|exact Ei|]. cbn [inner]. rewrite (init_keeps _ _ Ei). by eapply v3_opened.
Qed.

Lemma opened_v3 c t s : opened_for c t s -> version (inner s) = V3v.
Proof. intros (?&?&?&?&?&?&?&?&?&?&?&_&_&_&_&Hv). exact Hv. Qed.

Abbreviation asked := (SnmpWalk.read (D := wire_device)).

(** What a switch, and what a PDU in two reads, answered over a session of the target. *)
Definition read_switch (c : SnmpCollector) (t : Target) (a : SnmpWalk.Answers) : Prop :=
  exists s s', opened_for c t s /\ asked SnmpMibs.SCALARS SnmpMibs.COLUMNS s = (s', Ok a).
Definition read_pdu_of (c : SnmpCollector) (t : Target) (v : Vendor) (a : SnmpWalk.Answers) : Prop :=
  exists s s1 s2 identity answers, opened_for c t s /\
    asked PduMibs.SCALARS [] s = (s1, Ok identity) /\ detect identity = Some v /\
    asked [] (columns v) s1 = (s2, Ok answers) /\ a = add_all identity answers.

Lemma add_all_vouched l : forall a, Forall vouched l -> Forall vouched a -> Forall vouched (add_all l a).
Proof.
  unfold add_all. induction l as [|[o v] l IH]; intros a; [done|]. intros [Hv Hl]%list.Forall_cons Ha. cbn [fold_left fst snd].
  apply IH; [done|]. by apply bt_insert_Q.
Qed.

Lemma switch_read_over c t ttl m r : is_v3 (snmp_credentials c) = true ->
  SnmpPoll.poll_target (D := wire_device) lower_char (wire_open c m t) (SnmpConfig.address t) ttl = Ok r ->
  exists a, read_switch c t a /\ Forall vouched a /\ SnmpMibs.switch lower_char (SnmpConfig.address t) a ttl = Ok r.
Proof.
  intros Hc (s & Es & Hr)%result_bind_ok. pose proof (wire_open_v3 _ _ _ _ Hc Es) as Ho. unfold client_poll in Hr.
  destruct (SnmpWalk.read _ _ s) as [s' [a|[|e]]] eqn:Ea; cbn [snd] in Hr; [|done|done]. exists a. split_and!; [by eexists _, _| |done].
  by apply (v3_session_vouched _ _ _ _ _ (opened_v3 _ _ _ Ho) Ea).
Qed.

Lemma pdu_read_over c t m p : is_v3 (snmp_credentials c) = true ->
  PduMibs.poll_target (D := wire_device) (wire_open c m t) = Ok p ->
  exists v a, read_pdu_of c t v a /\ Forall vouched a /\ pdu v a = Ok p.
Proof.
  intros Hc. unfold PduMibs.poll_target. destruct (wire_open c m t) as [s|] eqn:Es; [|done].
  pose proof (wire_open_v3 _ _ _ _ Hc Es) as Ho. pose proof (opened_v3 _ _ _ Ho) as Hv.
  unfold read_pdu. destruct (SnmpWalk.read (D := wire_device) PduMibs.SCALARS [] s) as [s1 [identity|[|e]]] eqn:E1; [|done|done].
  destruct (v3_session_vouched _ _ _ _ _ Hv E1) as [Hv1 H1]. destruct (detect identity) as [v|] eqn:Ed; [|done].
  destruct (SnmpWalk.read (D := wire_device) [] (columns v) s1) as [s2 [answers|[|e]]] eqn:E2; cbn [snd]; [|done|done].
  destruct (v3_session_vouched _ _ _ _ _ Hv1 E2) as [_ H2]. destruct (pdu v _) as [p'|] eqn:Ep; [|done]. intros [= <-].
  exists v, (add_all identity answers). split_and!; [by eexists _, _, _, _, _|by apply add_all_vouched|done].
Qed.

Definition switch_authentic (c : SnmpCollector) (t : Target) (o : TargetOutcome) : Prop :=
  SwitchReport.address o = SnmpConfig.address t /\
  forall r, outcome o = Ok r -> exists a, read_switch c t a /\ Forall vouched a /\
    SnmpMibs.switch lower_char (SnmpConfig.address t) a (neighbor_ttl (snmp_interval c)) = Ok r.
Definition pdu_authentic (c : SnmpCollector) (t : Target) (o : Outcome) : Prop :=
  p_address o = SnmpConfig.address t /\
  forall d, p_result o = Ok d -> exists v a p, read_pdu_of c t v a /\ Forall vouched a /\ pdu v a = Ok p /\ d = device_of p.

(** C20. A version 3 module, whether it polls switches or PDUs, ends every poll whatever its
    devices answer and however its workers interleave, with one outcome per target in the
    configured order; and a switch or PDU it reports is what the mapping makes of answers read
    over a session opened with the configured user at the target's own address, every one of
    them out of a response the crate authenticated. *)
Theorem v3_modules_report_authentic_answers (c : SnmpCollector) (m : moment) :
  is_v3 (snmp_credentials c) = true -> 1 <= snmp_max_concurrent_targets c ->
  (exists out, snmp_module_poll c out) /\ (exists out, pdu_module_poll c out) /\
  (forall out, snmp_module_poll c out -> Forall2 (switch_authentic c) (snmp_targets c) out) /\
  (forall out, pdu_module_poll c out -> Forall2 (pdu_authentic c) (snmp_targets c) out).
Proof.
  intros Hv Hc. split_and!.
  - apply each_returns. intros t. eexists. exists false, (wire_open c m t). split; [by exists m|reflexivity].
  - apply each_returns. intros t. eexists. exists false, m, 0. reflexivity.
  - intros out Ho. apply each_in_order in Ho; [|lia]. eapply Forall2_impl; [|exact Ho].
    intros t o (stopped & opened & [m' ->] & ->). split; [done|]. intros r. unfold poll_one. cbn [outcome].
    destruct stopped; [done|]. by apply switch_read_over.
  - intros out Ho. apply each_in_order in Ho; [|lia]. eapply Forall2_impl; [|exact Ho].
    intros t o (stopped & m' & now & ->). split; [done|]. intros d. unfold pdu_outcome. cbn [p_result].
    destruct stopped; [done|]. destruct (PduMibs.poll_target _) as [p|e] eqn:Ep; [|done]. intros [= <-].
    destruct (pdu_read_over _ _ _ _ Hv Ep) as (v & a & Ha & Hf & Hp). by exists v, a, p.
Qed.
End snmp.

(** ** gNMI modules *)

Section gnmi.
Context {J : SerdeJson} {G : Grpc}.
Variable debug : bytes -> bytes.
Variable c : GnmiCollector.
Abbreviation state := (outside_world * list Sent)%type.
Abbreviation answers := GnmiSwitch.Answers.

(** gnmi/mod.rs, [poll_target]: the loop over the paths, on a connection. *)
Fixpoint gather_wire (s : GnmiWire.WireSession) (paths : list bytes) (a : answers) : Run state (result answers bytes) := fun st =>
  match paths with
  | [] => (st, Ok a)
  | path :: paths' =>
      let '(st, r) := GnmiWire.get s path st in
      match r with
      | Ok ns =>
          match merge (tree a) ns with
          | Ok t => gather_wire s paths' (mkAnswers t (path :: GnmiSwitch.answered a)) st
          | Err e => (st, Err e)
          end
      | Err (Unsupported e) =>
          if str_eqb path COMPONENTS then (st, Err (path ++ lit ": " ++ e)) else gather_wire s paths' a st
      | Err (GetFailed e) => (st, Err (path ++ lit ": " ++ e))
      end
  end.

Definition poll_wire (t : Target) (ttl : Z) : Run state (result (CollectorResource * Sections) bytes) := fun st =>
  match GnmiWire.open debug t c st with
  | (st, Err e) => (st, Err e)
  | (st, Ok s) =>
      let '(st, r) := gather_wire s GnmiSwitch.PATHS (mkAnswers VNull []) st in
      (st, let? a := r in GnmiSwitch.switch (SnmpConfig.address t) a ttl)
  end.

(** [poll_each] on one target, with what it sends: a stopped module sends nothing. *)
Definition polls_wire (t : Target) (o : TargetOutcome * list Sent) : Prop :=
  exists (stopped : bool) w,
    o = if stopped then (poll_one true (SnmpConfig.address t) (Err []), [])
        else let '(st, r) := poll_wire t (neighbor_ttl (gnmi_interval c)) (w, []) in
             (poll_one false (SnmpConfig.address t) r, snd st).

(** gnmi/worker.rs: what a poll of the module may give. *)
Definition gnmi_module_poll : list (TargetOutcome * list Sent) -> Prop :=
  each polls_wire (gnmi_targets c) (Z.to_nat (gnmi_max_concurrent_targets c)).

(** ** A poll asks each path once, and reports what was answered *)

(** One of the requests of [log] was for the path, and was answered with [ns]. *)
Definition on_wire (log : list Sent) (path : bytes) (ns : list Notification) : Prop :=
  exists sent r w w', sent ∈ log /\ call_ sent = Get r /\ gr_path r = from_names path /\ answer_get sent w = (w', Some (Ok ns)).

Lemma on_wire_more log log' path ns : log ⊆ log' -> on_wire log path ns -> on_wire log' path ns.
Proof. intros Hl (sent & r & w & w' & Hin & H). exists sent, r, w, w'. split; [by apply Hl|exact H]. Qed.

Definition asked_for (x : Sent) : option Path := match call_ x with Capabilities => None | Get r => Some (gr_path r) end.
Definition get_of (path : bytes) : option Path := Some (from_names path).

Lemma get_wire t s path st : session_ok t c s ->
  exists sent, snd (fst (GnmiWire.get s path st)) = snd st ++ [sent] /\ request_ok t c sent /\ asked_for sent = get_of path /\
    forall ns, snd (GnmiWire.get s path st) = Ok ns -> on_wire [sent] path ns.
Proof.
  intros (Ht & Hc & Hto & He). unfold GnmiWire.get, call. set (sent := mkSent _ _ _ _). exists sent.
  destruct (answer_get sent (fst st)) as [w r] eqn:Ea. cbn [fst snd]. split_and!; [done|done|done|].
  intros ns. destruct r as [[l|e]|]; cbn [map_err]; [|done|done]. intros [= ->]. exists sent, (mkGetRequest ORIGIN (from_names path) AllData (session_encoding s)), (fst st), w.
  split; [by apply list_elem_of_singleton|done].
Qed.

(** What gathering over a session leaves: requests in order, and what [gather] makes of some
    answers. *)
Definition gathered (t : Target) (paths : list bytes) (a : answers) (st : state) (out : state * result answers bytes) : Prop :=
  exists ask log, snd out = gather ask paths a /\ snd (fst out) = snd st ++ log /\ Forall (request_ok t c) log /\
    map asked_for log `prefix_of` map get_of paths /\ forall p ns, p ∈ paths -> ask p = Ok ns -> on_wire log p ns.

Definition says (path : bytes) (r : result (list Notification) GetError) (ask : bytes -> result (list Notification) GetError) (p : bytes) :=
  if str_eqb p path then r else ask p.

Lemma says_same path r ask : says path r ask path = r.
Proof. unfold says, str_eqb. by rewrite bool_decide_eq_true_2. Qed.

Lemma says_other path r ask p : p <> path -> says path r ask p = ask p.
Proof. intros Hp. unfold says, str_eqb. by rewrite bool_decide_eq_false_2. Qed.

Lemma gather_says path r ask paths : path ∉ paths -> forall a, gather (says path r ask) paths a = gather ask paths a.
Proof.
  induction paths as [|p paths IH]; intros Hp a; [done|]. cbn [gather]. apply not_elem_of_cons in Hp as [Hne Hp].
  rewrite says_other by done.
  destruct (ask p) as [ns|[e|e]]; [destruct (merge (tree a) ns); [cbn [result_bind]; by apply IH|done]|destruct (str_eqb p COMPONENTS); [done|by apply IH]|done].
Qed.

Lemma gathered_on t path paths a a' st st1 sent (r : result (list Notification) GetError) out :
  path ∉ paths -> snd st1 = snd st ++ [sent] -> request_ok t c sent -> asked_for sent = get_of path ->
  (forall ns, r = Ok ns -> on_wire [sent] path ns) ->
  (forall ask, ask path = r -> gather ask (path :: paths) a = gather ask paths a') ->
  gathered t paths a' st1 out -> gathered t (path :: paths) a st out.
Proof.
  intros Hp Hs Hok Hfor Hr Hg (ask & log & E & El & Hlog & Hpre & Hon). exists (says path r ask), (sent :: log). split_and!.
  - rewrite Hg by apply says_same. by rewrite gather_says.
  - rewrite El, Hs. by rewrite <- app_assoc.
  - by constructor.
  - cbn [map]. rewrite Hfor. by apply prefix_cons.
  - intros p ns Hin. unfold says, str_eqb. case_bool_decide as Hd.
    + subst p. intros Hns. eapply on_wire_more; [|by apply Hr]. intros x ->%list_elem_of_singleton. left.
    + apply elem_of_cons in Hin as [|Hin]; [done|]. intros Hns. eapply on_wire_more; [|by apply (Hon p ns)]. intros x Hx. by right.
Qed.

(** The loop left early, or at its last path. *)
Lemma gathered_end t path paths a st st1 sent (r : result (list Notification) GetError) o :
  snd st1 = snd st ++ [sent] -> request_ok t c sent -> asked_for sent = get_of path ->
  (forall ns, r = Ok ns -> on_wire [sent] path ns) ->
  (forall ask, ask path = r -> gather ask (path :: paths) a = o) ->
  gathered t (path :: paths) a st (st1, o).
Proof.
  intros Hs Hok Hfor Hr Hg. exists (says path r (fun _ => Err (GetFailed []))), [sent]. split_and!.
  - cbn [snd]. symmetry. apply Hg, says_same.
  - done.
  - by constructor.
  - cbn [map]. rewrite Hfor. apply prefix_cons, prefix_nil.
  - intros p ns _. unfold says, str_eqb. case_bool_decide as Hd; [subst p; by apply Hr|done].
Qed.

Lemma gather_wire_gathered t s paths : session_ok t c s -> NoDup paths -> forall a st, gathered t paths a st (gather_wire s paths a st).
Proof.
  intros Hs. induction paths as [|path paths IH]; intros Hd a st.
  { exists (fun _ => Err (GetFailed [])), []. cbn. rewrite app_nil_r. by split_and!. }
  apply list.NoDup_cons in Hd as [Hp Hd]. cbn [gather_wire]. destruct (get_wire t s path st Hs) as (sent & Hl & Hok & Hfor & Hon).
  destruct (GnmiWire.get s path st) as [st1 r]. cbn [fst snd] in Hl, Hon. destruct r as [ns|[e|e]].
  - destruct (merge (tree a) ns) as [tr|e] eqn:Em.
    + eapply gathered_on; [done..| |apply IH; done]. intros ask Ha. cbn [gather]. rewrite Ha, Em. done.
    + eapply gathered_end; [done..|]. intros ask Ha. cbn [gather]. by rewrite Ha, Em.
  - destruct (str_eqb path COMPONENTS) eqn:Ec.
    + eapply gathered_end; [done..|]. intros ask Ha. cbn [gather]. by rewrite Ha, Ec.
    + eapply gathered_on; [done..| |apply IH; done]. intros ask Ha. cbn [gather]. by rewrite Ha, Ec.
  - eapply gathered_end; [done..|]. intros ask Ha. cbn [gather]. by rewrite Ha.
Qed.

(** The text of a float is short. *)
Hypothesis float_text : forall f, show_float f <> [] /\ (length (show_float f) <= 255)%nat.

(** What a poll of one target reports and sends. *)
Record polled_as_configured (t : Target) (o : TargetOutcome * list Sent) : Prop := mkAsConfigured {
  pc_address : SwitchReport.address (fst o) = SnmpConfig.address t;
  pc_requests : Forall (request_ok t c) (snd o);
  pc_order : map asked_for (snd o) `prefix_of` None :: map get_of GnmiSwitch.PATHS;
  pc_switch : GnmiSwitch.switch_ok (SnmpConfig.address t) (outcome (fst o));
  pc_answers : forall r, outcome (fst o) = Ok r -> exists ask,
    (forall p ns, p ∈ GnmiSwitch.PATHS -> ask p = Ok ns -> on_wire (snd o) p ns) /\
    GnmiSwitch.poll_target (Ok ask) (SnmpConfig.address t) (neighbor_ttl (gnmi_interval c)) = Ok r }.

Lemma poll_wire_as_configured t w :
  let '(st, r) := poll_wire t (neighbor_ttl (gnmi_interval c)) (w, []) in
  polled_as_configured t (poll_one false (SnmpConfig.address t) r, snd st).
Proof.
  unfold poll_wire. destruct (GnmiWire.open debug t c (w, [])) as [st r] eqn:Eo.
  apply open_requests in Eo as (log & El & Hlog & Hfor & Hs). cbn [snd app] in El.
  assert (log = [] \/ map asked_for log = [None]) as Hone.
  { destruct Hfor as [->|(x & -> & Hx)]; [by left|right]. cbn [map]. unfold asked_for. by rewrite Hx. }
  destruct r as [s|e].
  - destruct (Hs s eq_refl) as [Hok Hne]. destruct Hone as [|Hone]; [done|].
    assert (NoDup GnmiSwitch.PATHS) as Hd by (apply (bool_decide_unpack _); vm_compute; exact I).
    destruct (gather_wire_gathered t s GnmiSwitch.PATHS Hok Hd (mkAnswers VNull []) st) as (ask & log2 & E & El2 & Hl & Hpre & Hon).
    destruct (gather_wire s GnmiSwitch.PATHS _ st) as [st1 r]. cbn [fst snd] in E, El2. subst r.
    split; cbn [fst snd poll_one outcome SwitchReport.address].
    + done.
    + rewrite El2, El. apply Forall_app. by split.
    + rewrite El2, El, map_app, Hone. by apply prefix_cons.
    + destruct (gather ask _ _) as [a|e]; [by apply gnmi_switch_is_ok|done].
    + intros r Hr. exists ask. split; [|exact Hr]. intros p ns Hp Hns. eapply on_wire_more; [|by apply (Hon p ns)].
      rewrite El2. intros x Hx. apply elem_of_app. by right.
  - split; cbn [fst snd poll_one outcome SwitchReport.address]; [done|by rewrite El| |done|done].
    rewrite El. destruct Hone as [->| ->]; [apply prefix_nil|apply prefix_cons, prefix_nil].
Qed.

(** C21. A poll of a gNMI module ends, however its workers interleave, with one outcome per target
    in the configured order.  What it sends to a target is as configured: to its address, over
    TLS with the configured name, the contents of the configured certificate files and the
    configured client identity unless the module allows plain text, with the configured user
    and the text of the password file less the newlines at its end, or neither, under the
    module's timeout, first the question for capabilities, then each path at most once and
    in order, in an encoding the target offered when asked.  A switch it reports is well
    formed, and what the mapping makes of answers given to these very requests. *)
Theorem gnmi_modules_poll_as_configured (w : outside_world) :
  1 <= gnmi_max_concurrent_targets c ->
  (exists out, gnmi_module_poll out) /\
  forall out, gnmi_module_poll out -> Forall2 polled_as_configured (gnmi_targets c) out.
Proof.
  intros Hc. split.
  - apply each_returns. intros t. eexists. exists false, w. reflexivity.
  - intros out Ho. apply each_in_order in Ho; [|lia]. eapply Forall2_impl; [|exact Ho]. intros t o (stopped & w' & ->).
    destruct stopped.
    + split; cbn [fst snd poll_one outcome SwitchReport.address]; [done|constructor|apply prefix_nil|done|done].
    + pose proof (poll_wire_as_configured t w') as H. by destruct (poll_wire _ _ _) as [st r].
Qed.
End gnmi.

(** ** Modules to evaluate the theorems on *)

(** A version 3 device with the small switch's variables, answered two at a time. *)
Definition to_wire (v : SnmpValue) : WireValue (list Z) :=
  match v with
  | Integer z => VInteger z | Octets b => VOctetString b | ObjectId o => VObjectIdentifier o | IpAddress a b c d => VIpAddress a b c d
  | Unsigned n => VUnsigned32 n | Missing => VNoSuchObject | Other => VOther
  end.
Definition v3_pdu (a : SnmpWalk.Answers) : SnmpWire.Pdu (list Z) := SnmpWire.mkPdu (Some V3v) 0 (map (fun e => (fst e, to_wire (snd e))) a).
Definition small_snmp2 : Snmp2 := {|
  socket_address := unit; session := unit; wire_oid_t := list Z; oid_from := Some; oid_iter := Some; show_oid := fun _ => [];
  version := fun _ => V3v;
  s_get_many := fun os s => (s, Ok (v3_pdu (List.filter (fun e : Oid * SnmpValue => existsb (fun o => bool_decide (o = fst e)) os) (small_switch 9))));
  s_getbulk := fun o _ s => (s, Ok (v3_pdu (small_answers o)));
  s_getnext := fun o s => (s, Ok (v3_pdu (small_answers o)));
  s_late := fun s => (s, false); s_stopped := fun s => (s, false);
  moment := unit; resolve := fun _ _ _ => Ok [tt]; file_len := fun _ _ => Ok 3; read_file := fun _ _ => Ok (lit "key");
  new_v2c := fun _ _ _ _ => Err []; new_v3 := fun _ _ _ _ => Ok tt; s_init := Ok |}.
Definition small_checked : Checked small_snmp2.
Proof. refine (Build_Checked small_snmp2 (fun p => pdu_version p = Some V3v) _ _ _ _ _); cbn; intros; (split; [reflexivity|]; intros p; congruence) || reflexivity. Defined.
Definition small_opens : Opens small_snmp2.
Proof. by split. Defined.

Definition v3_module : SnmpCollector :=
  mkSnmp (lit "core") [mkTarget (lit "10.0.0.1") (lit "10.0.0.1") 161; mkTarget (lit "10.0.0.2") (lit "10.0.0.2") 161]
    (SnmpConfig.V3 (lit "renga") Sha256 (lit "/a") Aes128 (lit "/p")) (from_secs 900) (from_secs 1) 2.

Lemma v3_modules_report_authentic_answers_witness :
  exists out, snmp_module_poll (S := small_snmp2) (fun c => c) v3_module out /\ length out = 2%nat /\
    Forall2 (switch_authentic (S := small_snmp2) (fun c => c) (C := small_checked) v3_module) (snmp_targets v3_module) out.
Proof.
  destruct (v3_modules_report_authentic_answers (S := small_snmp2) (fun c => c) (C := small_checked) (O := small_opens) v3_module tt)
    as ([out Ho] & _ & Hs & _).
  - reflexivity.
  - vm_compute. discriminate.
  - exists out. split; [exact Ho|]. split; [|by apply Hs]. symmetry. apply (Forall2_length (Hs out Ho)).
Defined.

(** The switch is read over the session. *)
Example small_switch_over_the_wire :
  SnmpPoll.poll_target (D := @wire_device small_snmp2) (fun c => c) (wire_open (S := small_snmp2) v3_module tt (mkTarget (lit "10.0.0.1") (lit "10.0.0.1") 161)) (lit "10.0.0.1") 90
  = SnmpMibs.switch (fun c => c) (lit "10.0.0.1") (small_switch 9) 90 /\
  is_ok (SnmpMibs.switch (fun c => c) (lit "10.0.0.1") (small_switch 9) 90) = true.
Proof. vm_compute. split; reflexivity. Qed.

(** A target that knows nothing but its chassis. *)
#[local] Instance zero_json : SerdeJson := {| from_slice := fun _ => Err []; show_float := fun _ => [48] |}.
Definition chassis_leaf (leaf value : string) : Update :=
  mkUpdate (Some [mkPathElem (lit "components") []; mkPathElem (lit "component") [(lit "name", lit "c")]; mkPathElem (lit "state") []; mkPathElem (lit leaf) []])
    (Some (Some (StringVal (lit value)))).
Definition chassis_answer : list Notification :=
  [mkNotification None [chassis_leaf "type" "openconfig-platform-types:CHASSIS"; chassis_leaf "serial-no" "SN1"]].
#[local] Instance PathElem_eq_dec : EqDecision PathElem.
Proof. solve_decision. Defined.
#[local] Instance demo_grpc : Grpc := {|
  outside_world := unit;
  read_to_string := fun _ w => (w, Ok (lit "secret" ++ [10])); read_bytes := fun _ w => (w, Ok []);
  from_shared := fun _ => Ok tt; printable := fun _ => true; tls_accepted := fun _ => Ok tt;
  new_runtime := fun w => (w, Ok tt); connect := fun _ _ w => (w, Some (Ok tt));
  capabilities := fun _ w => (w, Some (Ok [0; 4]));
  answer_get := fun x w => (w, Some (if bool_decide (asked_for x = get_of COMPONENTS) then Ok chassis_answer
                                     else Err (mkStatus NotFound (lit "NotFound") []))) |}.
Definition tls_module : GnmiCollector :=
  mkGnmi (lit "spine") [mkTarget (lit "10.0.0.1") (lit "10.0.0.1") 9339; mkTarget (lit "10.0.0.2") (lit "10.0.0.2") 9339]
    (Some (mkCredentials (lit "renga") (lit "/p"))) (GnmiConfig.Tls None None None) (from_secs 900) (from_secs 1) 2.

Lemma gnmi_modules_poll_as_configured_witness :
  exists out, gnmi_module_poll (fun x => x) tls_module out /\ length out = 2%nat /\
    Forall2 (polled_as_configured tls_module) (gnmi_targets tls_module) out.
Proof.
  destruct (gnmi_modules_poll_as_configured (fun x => x) tls_module) with (w := tt) as [[out Ho] Hall].
  - intros f. cbn. split; [discriminate|lia].
  - vm_compute. discriminate.
  - exists out. split; [exact Ho|]. split; [|by apply Hall]. symmetry. apply (Forall2_length (Hall out Ho)).
Defined.

(** The chassis is read; the paths the target does not have are asked for and left out. *)
Example chassis_over_the_wire :
  let '(st, r) := poll_wire (fun x => x) tls_module (mkTarget (lit "10.0.0.1") (lit "10.0.0.1") 9339) 90 (tt, []) in
  length (snd st) = 6%nat /\
  match r with Ok (s, _) => ci_serial_number (cr_identifiers s) = Some (lit "SN1") /\ cr_interfaces s = None | Err _ => False end.
Proof. vm_compute. repeat split. Qed.
