(* ===== verification/Secrets.v ===== *)
(** * What the agent may write to its log

    [fmt::Debug] of everything that holds a secret, and logging.rs.  A value's [Debug]
    is the tree [debug_struct] and its relatives build ([dbg]); printing the tree, and
    [Debug] of a type of the standard library or a crate (a leaf that keeps the value), are
    not in the sources.  Printers are the hand-written ones and the derived ones they
    use.  [exact f R] says that [f] prints of a value exactly what [R] compares, so two
    values that differ in their secrets only print the same, and nothing else is hidden. *)

From Stdlib Require Import String.
From S2P Require Import Prelude Text Interfaces Identity Jobs Osquery SnmpConfig GnmiConfig LibvirtConfig BmcConfig.
From S2P Require Import ExportersConfig Config Client Worker Notices.

#[local] Set Warnings "-notation-overridden".

(** ** Debug trees *)

Inductive dbg :=
| DStr (s : bytes) | DPath (p : bytes) | DUrl (u : bytes) | DUuid (u : bytes)
| DInt (n : Z) | DBool (b : bool) | DDuration (nanos : Z) | DTime (nanos : Z)
| DName (variant : bytes)
| DTuple (name : bytes) (l : list dbg)
| DStruct (name : bytes) (fields : list (bytes * dbg)) (non_exhaustive : bool)
| DSeq (l : list dbg)
| DMap (l : list (dbg * dbg)).

Definition dfield (name : string) (d : dbg) : bytes * dbg := (lit name, d).
Definition dstruct (name : string) (fields : list (bytes * dbg)) : dbg := DStruct (lit name) fields false.
Definition dname (variant : string) : dbg := DName (lit variant).
Definition REDACTED : dbg := DStr (lit "[REDACTED]").

Definition dopt {A} (f : A -> dbg) (o : option A) : dbg :=
  match o with Some a => DTuple (lit "Some") [f a] | None => dname "None" end.
Definition dlist {A} (f : A -> dbg) (l : list A) : dbg := DSeq (map f l).

(** ** The printers *)

Definition debug_target (t : Target) : dbg :=
  dstruct "Target" [dfield "address" (DStr (address t)); dfield "host" (DStr (host t)); dfield "port" (DInt (port t))].

Definition debug_auth (p : AuthProtocol) : dbg :=
  match p with
  | Md5 => dname "Md5" | Sha => dname "Sha" | Sha224 => dname "Sha224" | Sha256 => dname "Sha256"
  | Sha384 => dname "Sha384" | Sha512 => dname "Sha512"
  end.
Definition debug_privacy (p : PrivacyProtocol) : dbg :=
  match p with Des => dname "Des" | Aes128 => dname "Aes128" | Aes192 => dname "Aes192" | Aes256 => dname "Aes256" end.

Definition debug_snmp_credentials (c : SnmpConfig.Credentials) : dbg :=
  match c with
  | V3 username auth _ privacy _ =>
      DStruct (lit "V3") [dfield "username" (DStr username); dfield "auth_protocol" (debug_auth auth);
                          dfield "privacy_protocol" (debug_privacy privacy)] true
  | V2c _ => DStruct (lit "V2c") [] true
  end.
Definition debug_snmp (c : SnmpCollector) : dbg :=
  dstruct "SnmpCollector"
    [dfield "id" (DStr (snmp_id c)); dfield "targets" (dlist debug_target (snmp_targets c));
     dfield "credentials" (debug_snmp_credentials (snmp_credentials c)); dfield "interval" (DDuration (snmp_interval c));
     dfield "timeout" (DDuration (snmp_timeout c)); dfield "max_concurrent_targets" (DInt (snmp_max_concurrent_targets c))].

Definition debug_gnmi_credentials (c : GnmiConfig.Credentials) : dbg :=
  DStruct (lit "Credentials") [dfield "username" (DStr (username c))] true.
Definition debug_identity (i : ClientIdentity) : dbg :=
  dstruct "ClientIdentity" [dfield "cert_file" (DPath (cert_file i)); dfield "key_file" (DPath (key_file i))].
Definition debug_transport (t : GnmiConfig.Transport) : dbg :=
  match t with
  | Tls ca identity name =>
      dstruct "Tls" [dfield "ca_file" (dopt DPath ca); dfield "client_identity" (dopt debug_identity identity);
                     dfield "server_name" (dopt DStr name)]
  | Plaintext => dname "Plaintext"
  end.
Definition debug_gnmi (c : GnmiCollector) : dbg :=
  dstruct "GnmiCollector"
    [dfield "id" (DStr (gnmi_id c)); dfield "targets" (dlist debug_target (gnmi_targets c));
     dfield "credentials" (dopt debug_gnmi_credentials (gnmi_credentials c)); dfield "transport" (debug_transport (gnmi_transport c));
     dfield "interval" (DDuration (gnmi_interval c)); dfield "timeout" (DDuration (gnmi_timeout c));
     dfield "max_concurrent_targets" (DInt (gnmi_max_concurrent_targets c))].

Definition debug_libvirt (c : LibvirtCollector) : dbg :=
  dstruct "LibvirtCollector"
    [dfield "id" (DStr (libvirt_id c)); dfield "uri" (DStr (libvirt_uri c)); dfield "interval" (DDuration (libvirt_interval c));
     dfield "timeout" (DDuration (libvirt_timeout c))].

Definition debug_bmc_target (t : BmcTarget) : dbg :=
  dstruct "BmcTarget" [dfield "target" (debug_target (bmc_target t)); dfield "pin" (dopt (dlist DInt) (pin t))].
Definition debug_bmc (c : BmcCollector) : dbg :=
  dstruct "BmcCollector"
    [dfield "id" (DStr (bmc_id c)); dfield "targets" (dlist debug_bmc_target (bmc_targets c));
     dfield "username" (DStr (bmc_username c)); dfield "password_file" (DPath (bmc_password_file c));
     dfield "ca_file" (dopt DPath (bmc_ca_file c)); dfield "interval" (DDuration (bmc_interval c));
     dfield "timeout" (DDuration (bmc_timeout c)); dfield "max_concurrent_targets" (DInt (bmc_max_concurrent_targets c))].

Definition debug_osquery (o : OsqueryConfig) : dbg :=
  dstruct "OsqueryConfig" [dfield "enabled" (DBool (osquery_enabled o)); dfield "socket" (DPath (socket o))].

Definition debug_key (k : CapabilityKey) : dbg :=
  dstruct "CapabilityKey" [dfield "name" (DStr (key_name k)); dfield "version" (DInt (key_version k))].
Definition debug_selector (s : Selector) : dbg :=
  match s with
  | SelName n => DTuple (lit "Name") [DStr n]
  | SelKey k => DTuple (lit "Key") [debug_key k]
  end.
Definition debug_policy (p : JobPolicy) : dbg :=
  dstruct "JobPolicy" [dfield "enabled" (dopt (dlist debug_selector) (enabled_selectors p))].

Section printers.
Context {J : Json} {U : Uuid} {L : UrlApi} {K : Ed25519} {B : Base64}.

Definition debug_url (u : url) : dbg := DUrl (url_as_str u).
Definition debug_uuid (u : uuid) : dbg := DUuid (uuid_show u).

Definition debug_endpoint (e : Endpoint) : dbg :=
  dstruct "Endpoint"
    [dfield "url" (debug_url (ExportersConfig.endpoint_url e)); dfield "allow_remote" (DBool (allow_remote e));
     dfield "bearer_token_file" (dopt DPath (bearer_token_file e)); dfield "timeout" (DDuration (endpoint_timeout e));
     dfield "max_bytes" (DInt (max_bytes e))].
Definition debug_exporter (e : Exporter) : dbg :=
  dstruct "Exporter" [dfield "endpoint" (debug_endpoint (endpoint e)); dfield "interval" (DDuration (exporter_interval e))].

(** [Debug for Config]. *)
Definition debug_config (c : Config) : dbg :=
  dstruct "Config"
    [dfield "config_path" (DPath (config_path c));
     dfield "renga_url" (DStr (renga_url c));
     dfield "allow_insecure_http" (DBool (allow_insecure_http c));
     dfield "intake_api_key" REDACTED;
     dfield "installation_id" (debug_uuid (installation_id c));
     dfield "inventory_interval" (DDuration (inventory_interval c));
     dfield "checkin_interval" (DDuration (checkin_interval c));
     dfield "config_refresh_interval" (DDuration (config_refresh_interval c));
     dfield "request_timeout" (DDuration (request_timeout c));
     dfield "max_retry_attempts" (DInt (max_retry_attempts c));
     dfield "labels" (DMap (map (fun kv => (DStr (fst kv), DStr (snd kv))) (labels c)));
     dfield "jobs" (debug_policy (jobs c));
     dfield "snmp" (dlist debug_snmp (snmp c));
     dfield "gnmi" (dlist debug_gnmi (gnmi c));
     dfield "libvirt" (dopt debug_libvirt (libvirt c));
     dfield "power" (dlist debug_snmp (power c));
     dfield "bmc" (dlist debug_bmc (bmc c));
     dfield "exporters" (dlist debug_exporter (exporters c));
     dfield "osquery" (debug_osquery (osquery c))].

(** [Debug for InstallationKey]. *)
Definition debug_installation_key (k : InstallationKey) : dbg :=
  DStruct (lit "InstallationKey") [dfield "fingerprint" (DStr (Identity.fingerprint k))] true.

(** [Debug for NoticeEndpoint]. *)
Definition debug_notice_endpoint (e : NoticeEndpoint) : dbg :=
  dstruct "NoticeEndpoint"
    [dfield "base_url" (DStr (url_as_str (base_url e))); dfield "intake_api_key" REDACTED;
     dfield "installation_id" (DStr (ne_installation e))].

(** [Debug for JobOffer]. *)
Definition debug_job_offer (o : JobOffer) : dbg :=
  DStruct (lit "JobOffer")
    [dfield "job_id" (debug_uuid (offer_job_id o)); dfield "capability" (DStr (offer_capability o));
     dfield "lease_token" REDACTED; dfield "resource_id" (debug_uuid (resource_id o));
     dfield "binding_version" (DInt (binding_version o)); dfield "expires_at" (DTime (offer_expires_at o))] true.

(** [Debug for LeasedJob]. *)
Definition debug_leased_job (j : LeasedJob) : dbg :=
  dstruct "LeasedJob"
    [dfield "id" (debug_uuid (lj_id j)); dfield "capability" (DStr (lj_capability j)); dfield "attempt" (DInt (Worker.attempt j));
     dfield "lease_token" REDACTED; dfield "lease_expires_at" (DTime (lease_expires_at j));
     dfield "timeout_ms" (DInt (timeout_ms j)); dfield "output_limit_bytes" (DInt (output_limit_bytes j))].

(** ** What is printed *)

Definition exact {A} (f : A -> dbg) (R : A -> A -> Prop) : Prop := forall x y, f x = f y <-> R x y.
(** Nothing is hidden. *)
Definition whole {A} (f : A -> dbg) : Prop := exact f eq.

Lemma exact_list {A} (f : A -> dbg) R : exact f R -> exact (dlist f) (Forall2 R).
Proof.
  intros Hf x. unfold dlist. induction x as [|a x IH]; intros [|b y]; cbn; split; try done; try by inversion 1.
  - intros Hd. injection Hd as Ha Hx. constructor; [by apply Hf|]. apply IH. by rewrite Hx.
  - inversion 1 as [|? ? ? ? Hab Hxy]; subst. apply IH in Hxy. injection Hxy as ->. by rewrite (proj2 (Hf a b) Hab).
Qed.
Lemma exact_opt {A} (f : A -> dbg) R : exact f R -> exact (dopt f) (option_Forall2 R).
Proof.
  intros Hf [x|] [y|]; cbn; split; try done; try by inversion 1.
  - intros [= Hd]. constructor. by apply Hf.
  - inversion 1 as [? ? Hxy|]; subst. by rewrite (proj2 (Hf x y) Hxy).
  - constructor.
Qed.
Lemma whole_list {A} (f : A -> dbg) : whole f -> whole (dlist f).
Proof. intros Hf x y. rewrite (exact_list f eq Hf x y). split; [by induction 1; f_equal|by intros ->]. Qed.
Lemma whole_opt {A} (f : A -> dbg) : whole f -> whole (dopt f).
Proof.
  intros Hf x y. rewrite (exact_opt f eq Hf x y). split; [by intros [? ? ->|]|intros ->]. destruct y; by constructor.
Qed.

Lemma map_exact {A} (f : A -> dbg) R x y : exact f R -> map f x = map f y -> Forall2 R x y.
Proof. intros Hf Hm. apply (exact_list f R Hf). unfold dlist. by rewrite Hm. Qed.
Lemma map_whole {A} (f : A -> dbg) x y : whole f -> map f x = map f y -> x = y.
Proof. intros Hf Hm. apply (whole_list f Hf). unfold dlist. by rewrite Hm. Qed.

Lemma url_as_str_inj (x y : url) : url_as_str x = url_as_str y -> x = y.
Proof. intros Hd. enough (Some x = Some y) by congruence. by rewrite <- !url_parse_as_str, Hd. Qed.

Create HintDb printed.
#[local] Hint Resolve whole_list whole_opt : printed.

(** Equal prints of a part that prints whole are equal parts. *)
Ltac unprint :=
  repeat match goal with
  | H : url_as_str _ = url_as_str _ |- _ => apply url_as_str_inj in H
  | H : uuid_show _ = uuid_show _ |- _ => apply uuid_show_inj in H
  | H : map ?f _ = map ?f _ |- _ =>
      let W := fresh in assert (whole f) as W by (eauto with printed); apply (map_whole f _ _ W) in H; clear W
  | H : ?f ?a = ?f ?b |- _ =>
      let W := fresh in assert (whole f) as W by (eauto with printed); apply W in H; clear W
  end.
(** A record, or a variant, that prints all its fields. *)
Ltac print_whole :=
  intros x y; split; [|by intros ->]; destruct x, y; cbn; try discriminate; intros Hd; try injection Hd; intros; unprint;
  repeat match goal with t : Target |- _ => destruct t | e : Endpoint |- _ => destruct e | k : CapabilityKey |- _ => destruct k end; cbn in *; congruence.

Lemma whole_str : whole DStr.
Proof. intros x y. by split; [intros [= ->]|intros ->]. Qed.
Lemma whole_path : whole DPath.
Proof. intros x y. by split; [intros [= ->]|intros ->]. Qed.
Lemma whole_int : whole DInt.
Proof. intros x y. by split; [intros [= ->]|intros ->]. Qed.
#[local] Hint Resolve whole_str whole_path whole_int : printed.
Lemma whole_uuid : whole debug_uuid.
Proof. intros x y. split; [intros [= Hd]; by apply uuid_show_inj|by intros ->]. Qed.
Lemma whole_url : whole debug_url.
Proof. intros x y. split; [intros [= Hd]; by apply url_as_str_inj|by intros ->]. Qed.
#[local] Hint Resolve whole_uuid whole_url : printed.
Lemma whole_target : whole debug_target.
Proof. print_whole. Qed.
Lemma whole_auth : whole debug_auth.
Proof. print_whole. Qed.
Lemma whole_privacy : whole debug_privacy.
Proof. print_whole. Qed.
Lemma whole_identity : whole debug_identity.
Proof. print_whole. Qed.
#[local] Hint Resolve whole_target whole_auth whole_privacy whole_identity : printed.
Lemma whole_transport : whole debug_transport.
Proof. print_whole. Qed.
Lemma whole_libvirt : whole debug_libvirt.
Proof. print_whole. Qed.
Lemma whole_bmc_target : whole debug_bmc_target.
Proof. print_whole. Qed.
#[local] Hint Resolve whole_transport whole_libvirt whole_bmc_target : printed.
Lemma whole_bmc : whole debug_bmc.
Proof. print_whole. Qed.
Lemma whole_osquery : whole debug_osquery.
Proof. print_whole. Qed.
Lemma whole_key : whole debug_key.
Proof. print_whole. Qed.
#[local] Hint Resolve whole_bmc whole_osquery whole_key : printed.
Lemma whole_selector : whole debug_selector.
Proof. print_whole. Qed.
#[local] Hint Resolve whole_selector : printed.
Lemma whole_policy : whole debug_policy.
Proof. print_whole. Qed.
Lemma whole_endpoint : whole debug_endpoint.
Proof. print_whole. Qed.
#[local] Hint Resolve whole_policy whole_endpoint : printed.
Lemma whole_exporter : whole debug_exporter.
Proof. print_whole. Qed.
#[local] Hint Resolve whole_exporter : printed.

(** ** What is hidden *)

(** Two values that differ in their secrets only. *)
Definition public_snmp_credentials (c c' : SnmpConfig.Credentials) : Prop :=
  match c, c' with
  | V3 u a _ p _, V3 u' a' _ p' _ => u = u' /\ a = a' /\ p = p'
  | V2c _, V2c _ => True
  | _, _ => False
  end.
Definition public_snmp (c c' : SnmpCollector) : Prop :=
  snmp_id c = snmp_id c' /\ snmp_targets c = snmp_targets c' /\
  public_snmp_credentials (snmp_credentials c) (snmp_credentials c') /\ snmp_interval c = snmp_interval c' /\
  snmp_timeout c = snmp_timeout c' /\ snmp_max_concurrent_targets c = snmp_max_concurrent_targets c'.
Definition public_gnmi_credentials (c c' : GnmiConfig.Credentials) : Prop := username c = username c'.
Definition public_gnmi (c c' : GnmiCollector) : Prop :=
  gnmi_id c = gnmi_id c' /\ gnmi_targets c = gnmi_targets c' /\
  option_Forall2 public_gnmi_credentials (gnmi_credentials c) (gnmi_credentials c') /\
  gnmi_transport c = gnmi_transport c' /\ gnmi_interval c = gnmi_interval c' /\ gnmi_timeout c = gnmi_timeout c' /\
  gnmi_max_concurrent_targets c = gnmi_max_concurrent_targets c'.

(** A configuration, but for its intake key and the credentials of its modules. *)
Record public_config (c c' : Config) : Prop := mkPublicConfig {
  pc_path : config_path c = config_path c'; pc_url : renga_url c = renga_url c';
  pc_insecure : allow_insecure_http c = allow_insecure_http c'; pc_id : installation_id c = installation_id c';
  pc_inventory : inventory_interval c = inventory_interval c'; pc_checkin : checkin_interval c = checkin_interval c';
  pc_refresh : config_refresh_interval c = config_refresh_interval c'; pc_timeout : request_timeout c = request_timeout c';
  pc_attempts : max_retry_attempts c = max_retry_attempts c'; pc_labels : labels c = labels c'; pc_jobs : jobs c = jobs c';
  pc_snmp : Forall2 public_snmp (snmp c) (snmp c'); pc_gnmi : Forall2 public_gnmi (gnmi c) (gnmi c');
  pc_libvirt : libvirt c = libvirt c'; pc_power : Forall2 public_snmp (power c) (power c'); pc_bmc : bmc c = bmc c';
  pc_exporters : exporters c = exporters c'; pc_osquery : osquery c = osquery c' }.

Lemma exact_snmp_credentials : exact debug_snmp_credentials public_snmp_credentials.
Proof.
  intros [u a f p g|f] [u' a' f' p' g'|f']; cbn; split; try done.
  - intros Hd. injection Hd. intros. unprint. done.
  - by intros (-> & -> & ->).
Qed.
Lemma exact_gnmi_credentials : exact debug_gnmi_credentials public_gnmi_credentials.
Proof. intros x y. unfold public_gnmi_credentials. split; [by intros [=]|]. unfold debug_gnmi_credentials. by intros ->. Qed.

Lemma exact_snmp : exact debug_snmp public_snmp.
Proof.
  intros x y. unfold public_snmp. split.
  - destruct x, y. intros Hd. injection Hd. intros. unprint. cbn. split_and!; try done. by apply exact_snmp_credentials.
  - intros (H1 & H2 & H3 & H4 & H5 & H6). apply exact_snmp_credentials in H3. unfold debug_snmp. congruence.
Qed.
Lemma exact_gnmi : exact debug_gnmi public_gnmi.
Proof.
  intros x y. unfold public_gnmi. split.
  - destruct x, y. intros Hd. injection Hd. intros. unprint. cbn. split_and!; try done.
    by apply (exact_opt _ _ exact_gnmi_credentials).
  - intros (H1 & H2 & H3 & H4 & H5 & H6 & H7). apply (exact_opt _ _ exact_gnmi_credentials) in H3. unfold debug_gnmi. congruence.
Qed.

Lemma labels_printed (x y : list (bytes * bytes)) :
  map (fun kv => (DStr (fst kv), DStr (snd kv))) x = map (fun kv => (DStr (fst kv), DStr (snd kv))) y -> x = y.
Proof.
  revert y. induction x as [|[k v] x IH]; intros [|[k' v'] y]; cbn; try done. intros [= -> -> Hx]. f_equal. by apply IH.
Qed.

Lemma exact_config : exact debug_config public_config.
Proof.
  intros x y. split.
  - intros Hd. injection Hd. intros. repeat match goal with
    | H : map (fun kv => _) _ = _ |- _ => apply labels_printed in H
    | H : map debug_snmp _ = _ |- _ => apply (map_exact _ _ _ _ exact_snmp) in H
    | H : map debug_gnmi _ = _ |- _ => apply (map_exact _ _ _ _ exact_gnmi) in H
    end. unprint. destruct (osquery x) eqn:?, (osquery y) eqn:?, (jobs x) eqn:?, (jobs y) eqn:?. cbn in *.
    constructor; congruence.
  - intros []. unfold debug_config.
    apply (exact_list _ _ exact_snmp) in pc_snmp0, pc_power0. apply (exact_list _ _ exact_gnmi) in pc_gnmi0. congruence.
Qed.

(** C38. What [Debug] prints of every value that holds a secret is exactly its public part: a
    configuration prints everything but its intake key and the password, community and
    credential files of its modules, a key its fingerprint, the notice endpoint its
    address and installation, an offer everything but its token and nonce, and a leased
    job everything but its token and parameters.  So no two values that differ in those
    alone can be told apart by what is printed, and nothing else is hidden. *)
Theorem debug_prints_public_part :
  (forall c c' : Config, debug_config c = debug_config c' <-> public_config c c') /\
  (forall k k' : InstallationKey, debug_installation_key k = debug_installation_key k' <->
     Identity.fingerprint k = Identity.fingerprint k') /\
  (forall e e' : NoticeEndpoint, debug_notice_endpoint e = debug_notice_endpoint e' <->
     base_url e = base_url e' /\ ne_installation e = ne_installation e') /\
  (forall o o' : JobOffer, debug_job_offer o = debug_job_offer o' <->
     offer_job_id o = offer_job_id o' /\ offer_capability o = offer_capability o' /\ resource_id o = resource_id o' /\
     binding_version o = binding_version o' /\ offer_expires_at o = offer_expires_at o') /\
  (forall j j' : LeasedJob, debug_leased_job j = debug_leased_job j' <->
     lj_id j = lj_id j' /\ lj_capability j = lj_capability j' /\ Worker.attempt j = Worker.attempt j' /\
     lease_expires_at j = lease_expires_at j' /\ timeout_ms j = timeout_ms j' /\ output_limit_bytes j = output_limit_bytes j').
Proof.
  split_and!; [exact exact_config|..]; intros x y; split.
  - intros Hd. exact (f_equal (fun d => match d with DStruct _ [(_, DStr s)] _ => s | _ => [] end) Hd).
  - unfold debug_installation_key. by intros ->.
  - intros Hd. injection Hd. intros. by unprint.
  - unfold debug_notice_endpoint. by intros (-> & ->).
  - intros Hd. injection Hd. intros. by unprint.
  - unfold debug_job_offer. by intros (-> & -> & -> & -> & ->).
  - intros Hd. injection Hd. intros. by unprint.
  - unfold debug_leased_job. by intros (-> & -> & -> & -> & -> & ->).
Qed.
End printers.

(** ** logging.rs *)

Definition SENSITIVE_HANDSHAKE_TARGET : bytes := lit "tungstenite::handshake::client".

(** A log event: the module it comes from, its level and its text. *)
Record LogEvent := mkLogEvent { log_target : bytes; log_level : Z; log_text : bytes }.

(** [environment.and(filter_fn(..))]. *)
Definition safe (environment : LogEvent -> bool) (e : LogEvent) : bool :=
  environment e && negb (str_eqb (log_target e) SENSITIVE_HANDSHAKE_TARGET).

(** What the subscriber writes of the events it is given. *)
Definition subscriber (environment : LogEvent -> bool) (events : list LogEvent) : list LogEvent :=
  List.filter (safe environment) events.

(** Whatever filter the operator's environment asks for, no event of the socket's handshake,
    whose request carries the intake key, is written; the others are written, in order,
    exactly as that filter says. *)
Theorem handshake_never_logged (environment : LogEvent -> bool) (events : list LogEvent) :
  Forall (fun e => log_target e <> SENSITIVE_HANDSHAKE_TARGET) (subscriber environment events) /\
  subscriber environment events
  = List.filter environment (List.filter (fun e => negb (str_eqb (log_target e) SENSITIVE_HANDSHAKE_TARGET)) events).
Proof.
  unfold subscriber, safe. induction events as [|e events [IH1 IH2]]; [by split|]. cbn [List.filter].
  destruct (str_eqb (log_target e) SENSITIVE_HANDSHAKE_TARGET) eqn:Et; cbn [negb].
  - by rewrite andb_false_r.
  - rewrite andb_true_r. cbn [List.filter]. destruct (environment e); [|done]. rewrite <- IH2. split; [|done]. constructor; [|done].
    intros Hx. apply str_eqb_eq in Hx. congruence.
Qed.
